(* ===== verification/_CoqProject ===== *)
-Q . S2P
Prelude.v
Mask.v
MapSegments.v
MainImage.v
ElfHash.v
Primes.v
OpenAddr.v
LinkMap.v
SymHash.v
SymHashSpec.v
UniqueSym.v
Lookup.v
LookupSpec.v
TlsOffset.v
Reloc.v
RelocSpec.v
Relocate.v
RelocateSpec.v
RelocateObject.v
LoadCmds.v
HSearch.v
DynTls.v
TlsSlots.v
DynTlsSpec.v
DynTlsThread.v
DynTlsLoader.v
DynTlsMachine.v
DynTlsSafety.v
SortMaps.v
InitFini.v
Deps.v
DepsSpec.v
DepsSearch.v
DepsOrder.v
DepsExamples.v
Close.v
CloseMark.v
CloseRound.v
CloseFinish.v
CloseUnload.v
CloseSettle.v
CloseWorker.v
CloseSafety.v
Open.v
OpenSpec.v
OpenGlobal.v
OpenTls.v
OpenTlsEntry.v
OpenAtomic.v
OpenExamples.v
Dst.v
DstSpec.v
DstTrust.v
DstSafety.v
DstExamples.v
Paths.v
PathsSpec.v
PathsSearch.v
PathsRpath.v
Hwcaps.v
HwcapsSpec.v
HwcapsExamples.v
Verify.v
VerifySpec.v
PathsVerified.v
VerifyExamples.v
Cache.v
CacheOrder.v
CachePrio.v
CacheSpec.v
CacheExamples.v
PathsExamples.v
Qsort.v
QsortSpec.v
Dynarray.v
AtFork.v
AtForkSpec.v
ExitFuncs.v
ExitFuncsSpec.v
