(* ===== verification/Prelude.v ===== *)
(** * PLaTypus glibc: a verification library

    PLaTypus confines the indirect calls of every ELF object of a process to
    that object's own code.  A compiler pass ([llvm-passes/BitMasks]) replaces
    each indirect call by one whose target is combined with two words of the
    object, [and_mask] and [or_mask]; the modified dynamic loader of
    [glibc-platypus] places the objects so that such masks exist, computes
    them when it maps an object, and writes them when it relocates the object.
    Calls that have to leave the object (callbacks) go through
    [callback_table], which symbol lookup treats specially, and through
    placeholders that the loader binds while relocating.  The library models
    this core, the loader code it is embedded in, and the parts of libc that
    take function pointers from other objects.

    ** The parts and where they are modelled

    - [Prelude]: outcomes of C code ([res]: a value, [_dl_signal_error], an
      abort, undefined behaviour, exhausted fuel), the state monad [M],
      wrap-around arithmetic ([u32], [u64]), bounds-checked array access ([rd],
      [wr]), C strings, shared lemmas, tactics and hint databases.
    - [Mask]: the arithmetic of [elf/dl-map-segments.h]; the instruction
      sequences of the pass.
    - [MapSegments]: [_dl_map_segments] and what it calls.  [kst] holds the
      link map fields written, the static variables [addr] and [to_load], and
      the system calls made; the kernel is a parameter.
    - [MainImage]: [_dl_sysdep_parse_arguments] of [dl-sysdep.c], which moves
      the main program.
    - [ElfHash], [Primes], [OpenAddr]: hash functions, prime table sizes, the
      theory of open addressing the tables share.
    - [LinkMap]: [struct link_map] and the loader's global state [world].
    - [SymHash], [UniqueSym], [Lookup]: [elf/dl-setup_hash.c] and
      [elf/dl-lookup.c]; [SymHashSpec] and [LookupSpec] hold their theory, with the
      class [Indexed] as the contract between a hash table and the search.
    - [TlsOffset]: the static TLS block ([elf/dl-tls.c], [elf/dl-reloc.c]).
    - [Reloc], [RelocSpec]: [resolve_map] with the placeholder registration
      and [elf_machine_rela] with the PLaTypus relocation types.
    - [SortMaps], [InitFini]: [elf/dl-sort-maps.c], [elf/dl-init.c],
      [elf/dl-fini.c], [elf/dl-call_fini.c].
    - [Relocate], [RelocateSpec], [RelocateObject]: the driver around
      [elf_machine_rela] ([elf/dynamic-link.h], [elf/do-rel.h], the rest of
      [elf/dl-reloc.c] and of [sysdeps/x86_64/dl-machine.h]).  Its parameters
      are the record [env]; [rst] adds the [mprotect] calls to the state.
    - [LoadCmds]: the program header scan of [_dl_map_object_from_fd]
      ([elf/dl-load.c]) in front of [MapSegments].
    - [HSearch]: [misc/hsearch_r.c], on [OpenAddr] and [Primes]; the loop that looks for a
      prime runs in a binary fuel of 2^33 rounds, more than 32-bit sizes allow.
    - [DynTls]: module ids, slotinfo list, DTVs and [__tls_get_addr]
      ([elf/dl-tls.c], with parts of [elf/dl-open.c] and [elf/dl-close.c]).
      [TlsSlots] sees the list as one array; [DynTlsSpec], [DynTlsThread] and
      [DynTlsLoader] specify the operations of a thread and of the loader;
      [DynTlsMachine] interleaves them ([step]) and has the invariant [Inv];
      [DynTlsSafety] draws the conclusions.  [Malloc] states what [malloc] promises.
    - [Close]: [dlclose] ([elf/dl-close.c]) on the objects of all namespaces, the dynamic TLS of
      [DynTls] and the sort of [SortMaps].  The destructors of an object are an event of the log and
      the handles they close ([closes]).  [CloseMark] specifies the marking loop, [CloseRound] the
      numbering and sorting, [CloseFinish] the loop over the objects, [CloseUnload] the unmapping;
      [CloseSettle] and [CloseWorker] put a round together, [CloseSafety] the rounds.  The marking loop has
      quadratic fuel, the rounds as many as there are uses of objects, because every further round needs a
      last use that was given back.
    - [Deps]: [_dl_map_object_deps] ([elf/dl-deps.c]), which opens the dependencies of an object and makes its
      search list.  The class [Opener] states what [_dl_map_object] promises; [open_file] of [DepsExamples] is an
      instance.  [DepsSpec] specifies the loop over the list, [DepsSearch] the search list, [DepsOrder] its order.
      The fuel is the sum of the weights of the objects, where the weight of an object is more than those of the
      objects it filters: an object that is put in front is processed again.
    - [Open]: [dlopen] ([elf/dl-open.c], with the constructors of [elf/dl-init.c]) on the state of [Close].  [OpenSpec]
      specifies the requests for memory, [OpenTls] and [OpenTlsEntry] the TLS slots from the invariant of [DynTlsMachine]; [OpenAtomic] puts the requests
      and the changes after them together, and has the whole of [dl_open_worker_begin] for a [Loader] (what mapping, dependencies, versions and relocation promise);
      [OpenGlobal] is a step relation of nested [dlopen] calls ([gstep]) with its invariant.
    - [Dst]: [$ORIGIN], [$PLATFORM] and [$LIB] in paths ([elf/dl-load.c], [elf/dl-dst.h]), on memory with any contents.  [DstSpec]
      specifies the substitution, [DstTrust] the check for trusted directories; [DstSafety] has the theorems.
    - [Paths]: the search for a file ([elf/dl-load.c]).  A directory is the number of its record.  The class [FileSystem] of [PathsSpec]
      states what files and memory promise; [PathsSearch] specifies the search, [PathsRpath] the directories of a path,
      [PathsVerified] the search with [open_verify] on a disk (class [Disk]).  The chain of
      loaders has as much fuel as there are objects.
    - [Verify]: [open_verify] ([elf/dl-load.c]) on the bytes of a file.  The class [FileReads] of [VerifySpec] states what the kernel
      promises; [verified_opens] is what [FileSystem] asks of opening a file.  The header is read in at most 64 reads.
    - [Hwcaps]: the [glibc-hwcaps] subdirectories ([elf/dl-hwcaps.c], [elf/dl-hwcaps_split.c]), which are [capstr] of [Paths], and their
      priorities; [HwcapsSpec] has the order of names they are sorted by.  Loops over the segments of a string have its length as fuel.
    - [Cache]: [_dl_load_cache_lookup] ([elf/dl-cache.c]) on the bytes of the file, which is [cache_lookup] of [Paths].  [CacheOrder] gives names
      collation keys, [CachePrio] specifies the priorities (class [HwcapsSection]), [CacheSpec] the search (class [CacheTable]).  The
      search has as much fuel as there are entries.
    - [Qsort], [QsortSpec]: [stdlib/qsort.c].
    - [Dynarray], [AtFork], [AtForkSpec]: [malloc/dynarray*], and the fork
      handlers of [posix/register-atfork.c] that are kept in such an array.
    - [ExitFuncs], [ExitFuncsSpec]: [atexit] and its relatives in [stdlib].

    ** How the parts meet

    [MapSegments] and [MainImage] call [Mask]; the masks they store in the
    link map are those [Reloc] writes to the object's words and [Mask.masked]
    applies.  [Reloc] calls [Lookup], which calls [SymHash] and [UniqueSym]
    ([UniqueSym] sizes its table with [Primes] and probes it as [OpenAddr]
    describes); [Lookup] reads the placeholder table that [Reloc] fills.
    [InitFini] sorts with [SortMaps].  [ExitFuncs] calls [AtFork], which
    stores its handlers in a [Dynarray].

    ** What the theorems show

    - Confinement: an instrumented call ends in a window that belongs to the
      object, below all objects loaded earlier; calls to the object's own code
      are not changed; the masks used are the ones computed when mapping
      ([masked_call_confined], [guarded_call_spec], [loaded_objects_isolated],
      [own_code_reachable], [main_program_confined], [mask_words_installed]).
    - Binding: the first definition in scope order wins, [callback_table] comes
      from the main program and never fails, a recorded placeholder is answered
      from the table, the table stays in bounds, unique symbols are bound once.
    - Order: dependency sorting is a topological sort and ends, constructors and
      destructors follow it, exit functions form a stack, fork handlers run in
      order even when handlers change the list.
    - Layout: static TLS blocks are disjoint, aligned and inside the area.
    - Algorithms: the unrolled hashes equal their references, [qsort] sorts on
      every path and is stable while memory lasts, the dynamic array is a list.
    - Relocation: the whole of [_dl_relocate_object] leaves the masks in
      place ([relocated_object_confined]), processes every entry once
      ([ranges_cover_sections], [do_rela_order], [relr_relocates]), keeps the
      targets of rewritten PLT entries and gives protections back.
    - Files: a shared object whose program headers are in order is confined
      once it is mapped ([mapped_file_confined]); hash tables refine bounded
      maps ([hsearch_refines_map]).
    - Dynamic TLS: whatever the loader and other threads do between
      operations, a thread's access ends in its own block for that very module,
      blocks do not overlap and are freed exactly once
      ([tls_access_own_block], [tls_blocks_apart], [tls_exit_frees_blocks]).
    - Closing: [dlclose] keeps exactly the objects that are needed, leaves no
      reference to an object that went, gives back no static TLS memory in
      use, and runs destructors once and in order
      ([dlclose_safe], [destructors_follow_dependencies]); after its only
      error nothing is unloaded any more ([close_failure_blocks]).
    - Dependencies: the search list of an object is closed under dependencies,
      has filtees in front of their filters and leaves no marks, in a number
      of steps that is known in advance ([dependencies_complete]); without
      filters it is a breadth-first search ([breadth_first]).
    - Opening: until the memory for everything is there, [dlopen] changes
      nothing others see, and then no assertion fails
      ([open_commit_all_or_nothing], [open_all_or_nothing]); the room in the global scope suffices however
      calls are nested in constructors ([global_scope_has_room]).
    - Paths: an expanded path fits its memory, and one of a privileged program
      names something below a trusted directory ([expansion_fits],
      [privileged_origin_trusted]); the search finds the first file in the
      documented order whatever is remembered about directories
      ([search_finds_first], [rpath_directories]); a file is opened exactly
      when its header is that of an ELF file for this machine, however it is
      delivered ([open_verify_exact]).
    - Cache: the lookup in the cache of [ldconfig] returns the best entry with
      the name ([cache_lookup_best]); the list of subdirectories and their
      priorities are as configured ([important_hwcaps_spec]).
    - Deviations found: each but the ones about locks is a theorem about the code as it is (objects
      without code are not mapped, the old image's length, the tenth
      placeholder, GNU hash zero, unregistering while preparing a fork, a
      failed array, a null object handle, the slots of a failed [dlopen],
      an error behind the demarcation point of [dlopen], modules out of order,
      a doubled slash and a missing null in the check for trusted directories,
      a program header table in front of the buffer, a cache file with bad
      indices or counts, too many names of subdirectories).

    ** Fuel and bounds

    Loops whose recursion is not structural take fuel, and running out is the
    outcome [Diverge], which no theorem accepts as success: the fuel each
    operation starts with is part of its definition and is shown to suffice
    ([sort_maps_original_ends] for the counters of the older sort, the table
    size for probing, [lastrun + 2] rounds after a fork), or the theorem
    states how much is enough ([exit_runs_stack], [tls_dtors_reverse]).  Sizes and
    addresses are 64 bits wide and wrap; where a theorem needs an object to
    fit, it says so in a hypothesis, and a witness gives an instance.

    ** Not modelled

    The LLVM passes and the linker changes are C++ against the LLVM sources;
    only the instruction sequences that use the masks are mirrored.  Of glibc,
    start-up, lazy binding stubs, auditing,
    locks (outside [DynTlsMachine] one thread runs; what another one may do
    where a lock is released is a parameter; inside it operations are atomic) and diagnostic output are left out.  The kernel, [malloc]
    and the functions that are called back are parameters. *)

From stdpp Require Export prelude gmap strings list fin_maps.
From stdpp Require Export sorting.
From Stdlib Require Export ZArith Lia Sorted.
From Stdlib Require Import Zbitwise.

Declare Scope c_scope.
Delimit Scope c_scope with c.

Open Scope Z_scope.

(** ** Outcomes of C code

    A piece of C code either returns, leaves non-locally through
    [_dl_signal_error] ([Signal]), terminates the process ([Fatal]: a failed
    [assert], [_dl_fatal_printf]), has no defined meaning ([Undef]: a read
    outside an object, a null dereference), or does not terminate
    ([Diverge]: the fuel of a loop is exhausted). *)
Inductive res (A : Type) : Type :=
| Ok (a : A)
| Signal (objname msg : string)
| Fatal (msg : string)
| Undef
| Diverge.
Arguments Ok {A} a.
Arguments Signal {A} objname msg.
Arguments Fatal {A} msg.
Arguments Undef {A}.
Arguments Diverge {A}.

#[export] Instance res_ret : MRet res := @Ok.

#[export] Instance res_bind : MBind res := fun A B k m =>
  match m with
  | Ok a => k a
  | Signal o s => Signal o s
  | Fatal s => Fatal s
  | Undef => Undef
  | Diverge => Diverge
  end.

(** [assert (b)] *)
Definition c_assert (b : bool) (what : string) : res unit :=
  if b then Ok tt else Fatal what.

Definition res_of_option {A} (o : option A) : res A :=
  match o with Some a => Ok a | None => Undef end.

Lemma bind_Ok_inv {A B} (m : res A) (k : A -> res B) b :
  (m ≫= k) = Ok b -> exists a, m = Ok a /\ k a = Ok b.
Proof. destruct m; simpl; intros H; try discriminate. eauto. Qed.

Lemma bind_ret {A B} (a : A) (k : A -> res B) : (Ok a ≫= k) = k a.
Proof. reflexivity. Qed.

Lemma bind_assoc {A B C} (m : res A) (k : A -> res B) (f : B -> res C) :
  ((m ≫= k) ≫= f) = (m ≫= fun a => k a ≫= f).
Proof. by destruct m. Qed.

(** The state-passing version: code that changes a state [S].  A non-local
    exit keeps the state reached so far, as [longjmp] does. *)
Inductive outcome (S A : Type) : Type :=
| Ret (a : A) (s : S)
| Raise (objname msg : string) (s : S)
| Stop (msg : string)
| Wild
| Loop.
Arguments Ret {S A} a s.
Arguments Raise {S A} objname msg s.
Arguments Stop {S A} msg.
Arguments Wild {S A}.
Arguments Loop {S A}.

Definition M (S A : Type) : Type := S -> outcome S A.

#[export] Instance M_ret S : MRet (M S) := fun A a s => Ret a s.

#[export] Instance M_bind S : MBind (M S) := fun A B k m s =>
  match m s with
  | Ret a s' => k a s'
  | Raise o e s' => Raise o e s'
  | Stop e => Stop e
  | Wild => Wild
  | Loop => Loop
  end.

Definition lift {S A} (r : res A) : M S A := fun s =>
  match r with
  | Ok a => Ret a s
  | Signal o e => Raise o e s
  | Fatal e => Stop e
  | Undef => Wild
  | Diverge => Loop
  end.

Definition gets {S A} (f : S -> A) : M S A := fun s => Ret (f s) s.
Definition modify {S} (f : S -> S) : M S unit := fun s => Ret tt (f s).
Definition when {S} (b : bool) (c : M S unit) : M S unit :=
  if b then c else mret tt.

(** [_dl_catch_exception]: an exception becomes a value. *)
Definition catch {S A} (m : M S A) : M S ((string * string) + A) := fun s =>
  match m s with
  | Ret a s' => Ret (inr a) s'
  | Raise o e s' => Ret (inl (o, e)) s'
  | Stop e => Stop e
  | Wild => Wild
  | Loop => Loop
  end.
(** Without a place for the exception: exceptions end the process. *)
Definition no_exceptions {S A} (m : M S A) : M S A := fun s =>
  match m s with Raise _ e _ => Stop e | r => r end.

Lemma M_bind_Ret_inv {S A B} (m : M S A) (k : A -> M S B) s b s' :
  (m ≫= k) s = Ret b s' -> exists a s1, m s = Ret a s1 /\ k a s1 = Ret b s'.
Proof. unfold mbind, M_bind. destruct (m s); intros H; try discriminate. eauto. Qed.

Lemma M_bind_step {S A B} (m : M S A) (k : A -> M S B) s a s1 :
  m s = Ret a s1 -> (m ≫= k) s = k a s1.
Proof. unfold mbind, M_bind. by intros ->. Qed.

Lemma lift_Ret_inv {S A} (r : res A) (s s' : S) a : lift r s = Ret a s' -> r = Ok a /\ s' = s.
Proof. destruct r; intros H; try discriminate. by injection H as -> ->. Qed.

(** ** Machine integers *)
Definition u8 (x : Z) : Z := x mod 2 ^ 8.
Definition u16 (x : Z) : Z := x mod 2 ^ 16.
Definition u32 (x : Z) : Z := x mod 2 ^ 32.
Definition u64 (x : Z) : Z := x mod 2 ^ 64.

Lemma u32_bound x : 0 <= u32 x < 2 ^ 32.
Proof. apply Z.mod_pos_bound. lia. Qed.
Lemma u64_bound x : 0 <= u64 x < 2 ^ 64.
Proof. apply Z.mod_pos_bound. lia. Qed.
Lemma u32_small x : 0 <= x < 2 ^ 32 -> u32 x = x.
Proof. apply Z.mod_small. Qed.
Lemma u64_small x : 0 <= x < 2 ^ 64 -> u64 x = x.
Proof. apply Z.mod_small. Qed.
Lemma u32_idemp x : u32 (u32 x) = u32 x.
Proof. apply Z.mod_mod. lia. Qed.
Lemma u32_add_l x y : u32 (u32 x + y) = u32 (x + y).
Proof. apply Zplus_mod_idemp_l. Qed.
Lemma u32_add_r x y : u32 (x + u32 y) = u32 (x + y).
Proof. apply Zplus_mod_idemp_r. Qed.
Lemma u32_mul_l x y : u32 (u32 x * y) = u32 (x * y).
Proof. apply Zmult_mod_idemp_l. Qed.
Lemma u32_mul_r x y : u32 (x * u32 y) = u32 (x * y).
Proof. apply Zmult_mod_idemp_r. Qed.

Lemma land_le_r a b : 0 <= a -> 0 <= b -> 0 <= Z.land a b <= b.
Proof.
  intros Ha Hb. split; [apply Z.land_nonneg; lia|].
  rewrite <- (Z2N.id a), <- (Z2N.id b), <- N2Z.inj_land by done.
  apply N2Z.inj_le, N.land_le_r.
Qed.

(** ** Arrays

    [rd a i] is the read [a[i]]; outside the array it is undefined. *)
Definition rd {A} (a : list A) (i : Z) : res A :=
  if Z.ltb i 0 then Undef else res_of_option (a !! Z.to_nat i).

(** [wr a i x] is the store [a[i] = x]. *)
Definition wr {A} (a : list A) (i : Z) (x : A) : res (list A) :=
  if (0 <=? i) && (i <? Z.of_nat (length a))
  then Ok (<[Z.to_nat i := x]> a) else Undef.

Lemma rd_Ok {A} (a : list A) i x :
  rd a i = Ok x <-> 0 <= i /\ a !! Z.to_nat i = Some x.
Proof.
  unfold rd. destruct (Z.ltb_spec i 0); [split; [done|lia]|].
  destruct (a !! Z.to_nat i); simpl; split; [|intros [_ [=]]| |intros [_ [=]]];
    intros; simplify_eq; auto.
Qed.

Lemma rd_nat {A} (a : list A) (n : nat) x :
  a !! n = Some x -> rd a (Z.of_nat n) = Ok x.
Proof. intros H. apply rd_Ok. rewrite Nat2Z.id. auto with lia. Qed.

Lemma rd_in_range {A} (a : list A) i :
  0 <= i < Z.of_nat (length a) -> exists x, rd a i = Ok x.
Proof.
  intros H. destruct (lookup_lt_is_Some_2 a (Z.to_nat i)) as [x Hx]; [lia|].
  exists x. apply rd_Ok. split; [lia|done].
Qed.

Lemma wr_Ok {A} (a : list A) i x :
  0 <= i < Z.of_nat (length a) -> wr a i x = Ok (<[Z.to_nat i := x]> a).
Proof.
  intros H. unfold wr.
  by rewrite (proj2 (Z.leb_le 0 i)), (proj2 (Z.ltb_lt i _)) by lia.
Qed.

Lemma sorted_rd_lt {A} (R : A -> A -> Prop) (a : list A) i j x y :
  StronglySorted R a -> rd a i = Ok x -> rd a j = Ok y -> i < j -> R x y.
Proof.
  rewrite !rd_Ok. intros Hs [Hi Hx] [Hj Hy] Hij.
  assert (Hij' : (Z.to_nat i < Z.to_nat j)%nat) by lia.
  revert Hx Hy Hij'. generalize (Z.to_nat i) as m, (Z.to_nat j) as n.
  clear i j Hi Hj Hij. induction Hs as [|a l Hs IH HF]; intros m n Hx Hy Hmn; [done|].
  destruct n as [|n]; [lia|]. destruct m as [|m]; simpl in *.
  - simplify_eq. rewrite Forall_lookup in HF. eauto.
  - apply (IH m n); auto. lia.
Qed.

(** ** C strings

    A C string is the Rocq [string] of its characters before the terminating
    NUL.  [char_code] is the value of the character as an [unsigned char]. *)
Definition char_code (c : Ascii.ascii) : Z := Z.of_nat (Ascii.nat_of_ascii c).

Fixpoint bytes_of (s : string) : list Z :=
  match s with
  | EmptyString => []
  | String c s' => char_code c :: bytes_of s'
  end.

(** The C string that starts at the beginning of the memory [tab]: its bytes up to the
    first NUL.  Memory that holds no NUL is read past its end. *)
Fixpoint cstr (tab : string) : res string :=
  match tab with
  | EmptyString => Undef
  | String c tab' =>
      if (char_code c =? 0)%Z then Ok EmptyString
      else r ← cstr tab'; mret (String c r)
  end.

Fixpoint str_drop (n : nat) (s : string) {struct n} : string :=
  match n, s with
  | O, _ => s
  | S n', String _ s' => str_drop n' s'
  | S _, EmptyString => EmptyString
  end.

Fixpoint str_take (n : nat) (s : string) {struct n} : string :=
  match n, s with
  | O, _ => EmptyString
  | S n', String c s' => String c (str_take n' s')
  | S _, EmptyString => EmptyString
  end.

(** [strtab + off] read as a C string. *)
Definition cstr_at (tab : string) (off : Z) : res string :=
  if off <? 0 then Undef else cstr (str_drop (Z.to_nat off) tab).

(** [strcmp (a, b) == 0] *)
Definition str_eqb (a b : string) : bool := bool_decide (a = b).

(** [strncmp (a, b, n) == 0]: the first [n] characters agree, or both strings
    end together before that. *)
Fixpoint strn_eqb (a b : string) (n : nat) {struct n} : bool :=
  match n with
  | O => true
  | S n' =>
      match a, b with
      | EmptyString, EmptyString => true
      | String c a', String d b' => bool_decide (c = d) && strn_eqb a' b' n'
      | _, _ => false
      end
  end.

Lemma str_eqb_true a b : str_eqb a b = true <-> a = b.
Proof. unfold str_eqb. by rewrite bool_decide_eq_true. Qed.
Lemma str_eqb_refl a : str_eqb a a = true.
Proof. by apply str_eqb_true. Qed.
Lemma str_eqb_false a b : str_eqb a b = false <-> a <> b.
Proof. unfold str_eqb. by rewrite bool_decide_eq_false. Qed.

(** [strn_eqb a b n] with [n] the length of [b] says that [b] is a prefix of [a]. *)
Lemma strn_eqb_prefix a b :
  strn_eqb a b (String.length b) = true <-> exists r, a = (b +:+ r)%string.
Proof.
  revert a; induction b as [|c b IH]; intros a; simpl.
  - split; [by exists a|done].
  - destruct a as [|d a]; simpl; [split; [done|intros [r Hr]; discriminate]|].
    rewrite andb_true_iff, bool_decide_eq_true, IH. split.
    + intros [-> [r ->]]. by exists r.
    + intros [r Hr]. injection Hr as -> ->. eauto.
Qed.

Lemma str_drop_app (a b : string) : str_drop (String.length a) (a +:+ b) = b.
Proof. by induction a. Qed.

Lemma char_code_range c : 0 <= char_code c < 256.
Proof. unfold char_code. pose proof (Ascii.nat_ascii_bounded c). lia. Qed.

Lemma bytes_of_range s : Forall (fun b => 0 <= b < 256) (bytes_of s).
Proof. induction s; simpl; constructor; auto using char_code_range. Qed.

Lemma length_bytes_of s : length (bytes_of s) = String.length s.
Proof. induction s; simpl; congruence. Qed.

(** ** Filters *)
Lemma filter_ext_in {A} (P Q : A -> Prop) `{!forall x, Decision (P x)} `{!forall x, Decision (Q x)} (l : list A) :
  (forall x, x ∈ l -> P x <-> Q x) -> filter P l = filter Q l.
Proof.
  induction l as [|x l IH]; intros HPQ; [done|]. rewrite !filter_cons, IH by (intros; apply HPQ; by right).
  destruct (decide (P x)) as [HP|HP], (decide (Q x)) as [HQ|HQ]; try done; exfalso; [apply HQ|apply HP]; by apply (HPQ x); [left|].
Qed.
Lemma filter_none {A} (P : A -> Prop) `{!forall x, Decision (P x)} (l : list A) : (forall x, x ∈ l -> ~ P x) -> filter P l = [].
Proof. induction l as [|x l IH]; intros Hx; [done|]. rewrite filter_cons, decide_False by (apply Hx; by left). apply IH. intros y Hy. apply Hx. by right. Qed.
Lemma filter_every {A} (P : A -> Prop) `{!forall x, Decision (P x)} (l : list A) : (forall x, x ∈ l -> P x) -> filter P l = l.
Proof. induction l as [|x l IH]; intros Hx; [done|]. rewrite filter_cons, decide_True by (apply Hx; by left). rewrite IH; [done|]. intros y Hy. apply Hx. by right. Qed.

(** ** Automation *)
Create HintDb cres.
Create Rewrite HintDb cres.
#[export] Hint Resolve rd_nat wr_Ok u32_bound u64_bound char_code_range : cres.
#[export] Hint Rewrite u32_add_l u32_add_r u32_mul_l u32_mul_r u32_idemp : cres.

(** Invert every [do] sequence of a hypothesis that ends in [Ok] or [Ret]. *)
Ltac inv_res :=
  repeat match goal with
  | H : Ok _ = Ok _ |- _ => injection H as H; try subst
  | H : Ret _ _ = Ret _ _ |- _ => injection H; clear H; intros; try subst
  | H : mbind _ _ = Ok _ |- _ =>
      apply bind_Ok_inv in H; destruct H as (? & ? & H)
  | H : mbind _ _ _ = Ret _ _ |- _ =>
      apply M_bind_Ret_inv in H; destruct H as (? & ? & ? & H)
  | H : lift _ _ = Ret _ _ |- _ => apply lift_Ret_inv in H; destruct H as [? ?]; try subst
  | H : gets _ _ = Ret _ _ |- _ => injection H as ? ?; try subst
  | H : modify _ _ = Ret _ _ |- _ => injection H; clear H; intros; try subst
  | H : mret _ _ = Ret _ _ |- _ => unfold mret, M_ret in H; injection H; clear H; intros; try subst
  | H : c_assert ?b _ = Ok _ |- _ => unfold c_assert in H; destruct b eqn:?; [|discriminate]
  | H : Undef = Ok _ |- _ => discriminate
  | H : Fatal _ = Ok _ |- _ => discriminate
  | H : Diverge = Ok _ |- _ => discriminate
  | H : Signal _ _ = Ok _ |- _ => discriminate
  end.

(** [lia] with division and remainder. *)
Ltac divlia := Z.to_euclidean_division_equations; lia.

(** *** What a computation leaves alone

    [stable R m]: the states before and after [m] are related by [R], whether
    [m] returns or raises an error. *)
Section Stable.
Context {S : Type} (R : S -> S -> Prop) `{!PreOrder R}.

Definition stable {A} (m : M S A) : Prop := forall s,
  match m s with Ret _ s' | Raise _ _ s' => R s s' | _ => True end.

Lemma stable_Ret {A} (m : M S A) s a s' : stable m -> m s = Ret a s' -> R s s'.
Proof. intros Hm H. specialize (Hm s). by rewrite H in Hm. Qed.
Lemma stable_ret {A} (a : A) : stable (mret a).
Proof. intros s. cbn. reflexivity. Qed.
Lemma stable_gets {A} (f : S -> A) : stable (gets f).
Proof. intros s. cbn. reflexivity. Qed.
Lemma stable_lift {A} (r : res A) : stable (lift r).
Proof. intros s. destruct r; cbn; done || reflexivity. Qed.
Lemma stable_modify (f : S -> S) : (forall s, R s (f s)) -> stable (modify f).
Proof. intros H s. cbn. apply H. Qed.
Lemma stable_bind {A B} (m : M S A) (k : A -> M S B) :
  stable m -> (forall a, stable (k a)) -> stable (m ≫= k).
Proof.
  intros Hm Hk s. specialize (Hm s). unfold mbind, M_bind. destruct (m s) as [a s1| | | |]; try done.
  specialize (Hk a s1). destruct (k a s1); try done; by etrans.
Qed.
Lemma stable_when b (m : M S unit) : stable m -> stable (when b m).
Proof. intros H. destruct b; [done|apply stable_ret]. Qed.
End Stable.

Create HintDb stable.
#[export] Hint Resolve stable_ret stable_gets stable_lift stable_when : stable.

(** Split the tests of the code and close each branch from the hints. *)
Ltac stable_auto :=
  repeat (intros; match goal with
  | |- stable _ (if ?b then _ else _) => destruct b
  | |- stable _ (match ?x with _ => _ end) => destruct x
  | |- stable _ (mbind _ _) => apply stable_bind
  | |- stable _ (when _ _) => apply stable_when
  | |- stable _ (let _ := _ in _) => cbv zeta
  | |- forall _, stable _ _ => intros
  | |- PreOrder _ => exact _
  | |- stable _ _ => solve [eauto with stable typeclass_instances]
  end).

(** Turn the boolean tests of the code into arithmetic facts. *)
Ltac zbool :=
  repeat match goal with
  | H : (_ && _)%bool = true |- _ => apply andb_true_iff in H; destruct H
  | H : (_ || _)%bool = false |- _ => apply orb_false_iff in H; destruct H
  | H : negb _ = true |- _ => apply negb_true_iff in H
  | H : negb _ = false |- _ => apply negb_false_iff in H
  | H : (_ =? _) = true |- _ => apply Z.eqb_eq in H
  | H : (_ =? _) = false |- _ => apply Z.eqb_neq in H
  | H : (_ <? _) = true |- _ => apply Z.ltb_lt in H
  | H : (_ <? _) = false |- _ => apply Z.ltb_ge in H
  | H : (_ <=? _) = true |- _ => apply Z.leb_le in H
  | H : (_ <=? _) = false |- _ => apply Z.leb_gt in H
  | H : bool_decide _ = true |- _ => apply bool_decide_eq_true in H
  | H : bool_decide _ = false |- _ => apply bool_decide_eq_false in H
  end.
