(* ===== verification/Mask.v ===== *)
(** * The masks of PLaTypus

    [num_bits_required], [find_addr] and [common_prefix_len] of
    [elf/dl-map-segments.h] choose where an object's code is placed and which
    masks confine its indirect calls; [masked] is the sequence the BitMasks
    pass puts before an indirect call, [guarded_call] the one it puts before a
    call through a possible callback.  The theorems say what the masks
    achieve. *)

From S2P Require Import Prelude.

(** ** The operations *)

(** [while (n) { n >>= 1; bits++; }] *)
Fixpoint count_bits (fuel : nat) (n bits : Z) : Z :=
  match fuel with
  | O => bits
  | S fuel => if n =? 0 then bits else count_bits fuel (Z.shiftr n 1) (bits + 1)
  end.

Definition num_bits_required (n : Z) : Z :=
  let bits := count_bits 64 n 0 in
  if bits mod 4 =? 0 then bits else bits + 4 - bits mod 4.

(** [1ULL << n]; a shift by 64 or more is undefined. *)
Definition shl1 (n : Z) : res Z := if n <? 64 then Ok (Z.shiftl 1 n) else Undef.

Definition find_addr (target_addr size : Z) : res Z :=
  let size_bits := num_bits_required size in
  p ← shl1 size_bits;
  let tmp_addr := u64 (target_addr - p) in
  let lel := u32 (p - 1) in
  mret (Z.land (u64 (u64 (Z.lor tmp_addr lel - size) + 0x1000)) 0xfffffffffffff000).

(** [while (diff) { diff >>= 1; bits--; }] *)
Fixpoint drop_bits (fuel : nat) (diff bits : Z) : Z :=
  match fuel with
  | O => bits
  | S fuel => if diff =? 0 then bits else drop_bits fuel (Z.shiftr diff 1) (bits - 1)
  end.

Definition common_prefix_len (a b : Z) : res Z :=
  let bits := drop_bits 64 (Z.lxor a b) 64 in
  if 64 - bits <? 64 then Ok (Z.land a (u64 (Z.shiftl 0xffffffffffffffff (64 - bits)))) else Undef.

(** The address an instrumented indirect call goes to. *)
Definition masked (or_mask and_mask target : Z) : Z :=
  Z.land (Z.lor target or_mask) and_mask.

(** A call through a possible callback: taken directly when masking does not
    change the target, and handed to [callback_table] otherwise. *)
Inductive call := Direct (target : Z) | ViaCallbackTable (r11 : Z).
Definition guarded_call (or_mask and_mask target : Z) : call :=
  if target =? masked or_mask and_mask target then Direct target else ViaCallbackTable target.

(** ** Bit lengths *)
Definition bitlen (n : Z) : Z := if n =? 0 then 0 else Z.log2 n + 1.

Lemma bitlen_nonneg n : 0 <= bitlen n.
Proof. unfold bitlen. destruct (n =? 0); [lia|]. pose proof (Z.log2_nonneg n). lia. Qed.

Lemma bitlen_bound n : 0 <= n -> n < 2 ^ bitlen n.
Proof.
  intros Hn. unfold bitlen. destruct (Z.eqb_spec n 0) as [->|]; [done|].
  apply Z.log2_spec. lia.
Qed.

Lemma bitlen_lower n : 0 < n -> 2 ^ bitlen n <= 2 * n.
Proof.
  intros Hn. unfold bitlen. rewrite (proj2 (Z.eqb_neq _ _)) by lia.
  pose proof (Z.log2_nonneg n). rewrite Z.pow_add_r by lia.
  pose proof (Z.log2_spec n Hn). lia.
Qed.

Lemma bitlen_le n k : 0 <= n -> 0 <= k -> n < 2 ^ k -> bitlen n <= k.
Proof.
  intros Hn Hk Hlt. unfold bitlen. destruct (Z.eqb_spec n 0); [lia|].
  apply Z.log2_lt_pow2 in Hlt; lia.
Qed.

Lemma bitlen_shiftr n : 0 < n -> bitlen n = bitlen (Z.shiftr n 1) + 1.
Proof.
  intros Hn. unfold bitlen. rewrite (proj2 (Z.eqb_neq n 0)) by lia.
  destruct (Z.eqb_spec (Z.shiftr n 1) 0) as [H0|H0].
  - rewrite Z.shiftr_div_pow2 in H0 by lia. change (2 ^ 1) with 2 in H0.
    assert (n = 1) as -> by divlia. done.
  - rewrite Z.log2_shiftr by lia.
    assert (1 <= Z.log2 n); [|lia].
    rewrite Z.shiftr_div_pow2 in H0 by lia. change (2 ^ 1) with 2 in H0.
    change 1 with (Z.log2 2) at 1. apply Z.log2_le_mono. divlia.
Qed.

Lemma count_bits_spec fuel n bits :
  0 <= n < 2 ^ Z.of_nat fuel -> count_bits fuel n bits = bits + bitlen n.
Proof.
  revert n bits. induction fuel as [|fuel IH]; intros n bits Hn; cbn [count_bits].
  - change (2 ^ Z.of_nat 0) with 1 in Hn. replace n with 0 by lia. cbn. lia.
  - destruct (Z.eqb_spec n 0) as [->|Hn0]; [cbn; lia|].
    rewrite Nat2Z.inj_succ, Z.pow_succ_r in Hn by lia.
    rewrite IH, (bitlen_shiftr n) by (rewrite ?Z.shiftr_div_pow2 by lia; change (2 ^ 1) with 2; divlia). lia.
Qed.

Lemma drop_bits_spec fuel n bits :
  0 <= n < 2 ^ Z.of_nat fuel -> drop_bits fuel n bits = bits - bitlen n.
Proof.
  revert n bits. induction fuel as [|fuel IH]; intros n bits Hn; cbn [drop_bits].
  - change (2 ^ Z.of_nat 0) with 1 in Hn. replace n with 0 by lia. cbn. lia.
  - destruct (Z.eqb_spec n 0) as [->|Hn0]; [cbn; lia|].
    rewrite Nat2Z.inj_succ, Z.pow_succ_r in Hn by lia.
    rewrite IH, (bitlen_shiftr n) by (rewrite ?Z.shiftr_div_pow2 by lia; change (2 ^ 1) with 2; divlia). lia.
Qed.

(** The size of the block [find_addr] works in: a power of sixteen above [n]. *)
Lemma num_bits_required_spec n :
  0 <= n < 2 ^ 64 ->
  n < 2 ^ num_bits_required n /\ 0 <= num_bits_required n /\
  num_bits_required n mod 4 = 0 /\ bitlen n <= num_bits_required n <= bitlen n + 3.
Proof.
  intros Hn. unfold num_bits_required. rewrite count_bits_spec by (cbn; lia). rewrite Z.add_0_l.
  pose proof (bitlen_nonneg n). pose proof (bitlen_bound n ltac:(lia)) as Hb.
  destruct (Z.eqb_spec (bitlen n mod 4) 0) as [E|E].
  - repeat split; auto; lia.
  - assert (bitlen n <= bitlen n + 4 - bitlen n mod 4) by divlia.
    repeat split; try divlia. eapply Z.lt_le_trans; [exact Hb|]. apply Z.pow_le_mono_r; lia.
Qed.

(** ** Bitwise facts *)
Lemma lor_ones_low a n : 0 <= n -> Z.lor a (Z.ones n) = a / 2 ^ n * 2 ^ n + (2 ^ n - 1).
Proof.
  intros Hn.
  assert (Hones : 2 ^ n - 1 = Z.ones n) by (rewrite Z.ones_equiv; lia).
  rewrite Hones, <- (Z.shiftl_mul_pow2 (a / 2 ^ n)), <- Z.shiftr_div_pow2 by lia.
  rewrite Z.add_nocarry_lxor, Z.lxor_lor.
  - apply Z.bits_inj'. intros i Hi. rewrite !Z.lor_spec, Z.shiftl_spec by lia.
    destruct (Z.ltb_spec i n).
    + rewrite Z.ones_spec_low by lia. by rewrite !orb_true_r.
    + rewrite Z.ones_spec_high, Z.shiftr_spec, !orb_false_r by lia. f_equal. lia.
  - apply Z.bits_inj'. intros i Hi. rewrite Z.land_spec, Z.shiftl_spec, Z.bits_0 by lia.
    destruct (Z.ltb_spec i n); [rewrite Z.testbit_neg_r by lia; done|].
    rewrite Z.ones_spec_high by lia. apply andb_false_r.
  - apply Z.bits_inj'. intros i Hi. rewrite Z.land_spec, Z.shiftl_spec, Z.bits_0 by lia.
    destruct (Z.ltb_spec i n); [rewrite Z.testbit_neg_r by lia; done|].
    rewrite Z.ones_spec_high by lia. apply andb_false_r.
Qed.

(** Clearing the low [n] bits of a 64-bit value. *)
Lemma land_high a n :
  0 <= a < 2 ^ 64 -> 0 <= n <= 64 -> Z.land a (2 ^ 64 - 2 ^ n) = a / 2 ^ n * 2 ^ n.
Proof.
  intros Ha Hn.
  assert (Hm : 2 ^ 64 - 2 ^ n = Z.shiftl (Z.ones (64 - n)) n).
  { rewrite Z.shiftl_mul_pow2, Z.ones_equiv by lia.
    replace (2 ^ 64) with (2 ^ (64 - n) * 2 ^ n) by (rewrite <- Z.pow_add_r by lia; f_equal; lia). lia. }
  rewrite Hm, <- Z.shiftl_mul_pow2, <- Z.shiftr_div_pow2 by lia.
  apply Z.bits_inj'. intros i Hi. rewrite Z.land_spec, !Z.shiftl_spec by lia.
  destruct (Z.ltb_spec i n).
  - rewrite !(Z.testbit_neg_r _ (i - n)) by lia. apply andb_false_r.
  - rewrite Z.shiftr_spec by lia. replace (i - n + n) with i by lia.
    destruct (Z.ltb_spec i 64).
    + rewrite Z.ones_spec_low by lia. apply andb_true_r.
    + rewrite Z.ones_spec_high by lia. rewrite andb_false_r.
      destruct (Z.eq_dec a 0) as [->|]; [by rewrite Z.bits_0|].
      symmetry. apply Z.bits_above_log2; [lia|]. apply Z.log2_lt_pow2; [lia|].
      eapply Z.lt_le_trans; [apply Ha|]. apply Z.pow_le_mono_r; lia.
Qed.

Lemma land_page a : 0 <= a < 2 ^ 64 -> Z.land a 0xfffffffffffff000 = a / 2 ^ 12 * 2 ^ 12.
Proof. intros Ha. rewrite <- (land_high a 12) by lia. done. Qed.

(** ** Placement

    For a page-aligned code size, [find_addr] returns the start of a range that
    ends where a block of [2 ^ num_bits_required size] bytes below
    [target_addr] ends. *)
Definition code_size (size : Z) : Prop := 0 < size < 2 ^ 32 /\ size mod 2 ^ 12 = 0.

Lemma num_bits_code size : code_size size -> 16 <= num_bits_required size <= 32.
Proof.
  intros [Hs Hp]. destruct (num_bits_required_spec size ltac:(lia)) as (_ & _ & H4 & Hlo & Hhi).
  assert (2 ^ 12 <= size) by divlia.
  assert (12 < bitlen size).
  { destruct (Z.ltb_spec 12 (bitlen size)); [done|]. pose proof (bitlen_bound size ltac:(lia)).
    assert (2 ^ bitlen size <= 2 ^ 12) by (apply Z.pow_le_mono_r; lia). lia. }
  pose proof (bitlen_le size 32 ltac:(lia) ltac:(lia) ltac:(lia)). divlia.
Qed.

Lemma find_addr_spec target size :
  code_size size -> 2 ^ 33 <= target < 2 ^ 64 ->
  exists top, find_addr target size = Ok (top - size) /\
    top mod 2 ^ num_bits_required size = 0 /\
    target - 2 ^ num_bits_required size < top <= target.
Proof.
  intros Hc Ht. pose proof (num_bits_code size Hc) as Hb.
  destruct (num_bits_required_spec size) as (Hlt & _); [destruct Hc; lia|].
  destruct Hc as [Hs Hp]. assert (2 ^ 12 <= size) by divlia. unfold find_addr, shl1. set (b := num_bits_required size) in *.
  rewrite (proj2 (Z.ltb_lt b 64)) by lia. rewrite Z.shiftl_1_l. cbn [mbind res_bind mret res_ret].
  assert (Hpb : 2 ^ 16 <= 2 ^ b <= 2 ^ 32) by (split; apply Z.pow_le_mono_r; lia).
  assert (Hdiv : (2 ^ 12 | 2 ^ b)).
  { exists (2 ^ (b - 12)). rewrite <- Z.pow_add_r by lia. f_equal. lia. }
  set (q := (target - 2 ^ b) / 2 ^ b).
  assert (Hq : 2 ^ b * q <= target - 2 ^ b < 2 ^ b * q + 2 ^ b).
  { pose proof (Z.div_mod (target - 2 ^ b) (2 ^ b)). pose proof (Z.mod_pos_bound (target - 2 ^ b) (2 ^ b)).
    unfold q. lia. }
  exists (2 ^ b * (q + 1)). split; [|split; [rewrite Z.mul_comm; apply Z.mod_mul; lia|lia]].
  rewrite (u64_small (target - _)) by lia.
  rewrite u32_small by lia.
  replace (2 ^ b - 1) with (Z.ones b) by (rewrite Z.ones_equiv; lia).
  rewrite lor_ones_low by lia. fold q.
  rewrite (u64_small (_ - size)) by lia. rewrite u64_small by lia. rewrite land_page by lia.
  f_equal. destruct Hdiv as [k Hk]. apply Z.mod_divide in Hp as [m Hm]; [|lia].
  replace (q * 2 ^ b + (2 ^ b - 1) - size + 4096) with ((k * (q + 1) - m) * 2 ^ 12 + 4095) by lia.
  rewrite Z.div_add_l by lia. change (4095 / 2 ^ 12) with 0. lia.
Qed.

(** The xor of the ends of a range that ends with a full block. *)
Lemma range_xor top size b :
  0 <= b -> 0 < size <= 2 ^ b -> top mod 2 ^ b = 0 -> 0 < top ->
  Z.lxor (top - size) (top - 1) = size - 1.
Proof.
  intros Hb Hs Ht Htop. apply Z.mod_divide in Ht as [k Hk]; [|lia].
  assert (E1 : top - 1 = Z.lor (Z.shiftl (k - 1) b) (Z.ones b)).
  { rewrite lor_ones_low, Z.shiftl_mul_pow2, Z.div_mul by lia. lia. }
  assert (Hsub : Z.ldiff (size - 1) (top - 1) = 0).
  { apply Z.bits_inj'. intros i Hi. rewrite Z.ldiff_spec, Z.bits_0, E1, Z.lor_spec.
    destruct (Z.ltb_spec i b).
    + rewrite Z.ones_spec_low by lia. by rewrite orb_true_r, andb_false_r.
    + destruct (Z.eq_dec (size - 1) 0) as [->|]; [by rewrite Z.bits_0|].
      rewrite (Z.bits_above_log2 (size - 1)); [done|lia|].
      apply Z.log2_lt_pow2; [lia|]. assert (2 ^ b <= 2 ^ i) by (apply Z.pow_le_mono_r; lia). lia. }
  replace (top - size) with (top - 1 - (size - 1)) by lia.
  rewrite Z.sub_nocarry_ldiff by done.
  apply Z.bits_inj'. intros i Hi. rewrite Z.lxor_spec, Z.ldiff_spec.
  assert (Hb' : Z.testbit (Z.ldiff (size - 1) (top - 1)) i = false) by (by rewrite Hsub, Z.bits_0).
  rewrite Z.ldiff_spec in Hb'.
  destruct (Z.testbit (top - 1) i), (Z.testbit (size - 1) i); done.
Qed.

(** ** The masks of a placed range *)
Lemma common_prefix_spec top size b :
  0 <= b -> 0 < size <= 2 ^ b -> size < 2 ^ 63 -> top mod 2 ^ b = 0 -> 0 < top < 2 ^ 64 ->
  common_prefix_len (top - size) (top - 1) = Ok (top - 2 ^ bitlen (size - 1)).
Proof.
  intros Hb Hs Hs' Ht Htop. unfold common_prefix_len. rewrite (range_xor top size b) by lia.
  rewrite drop_bits_spec by (cbn; lia). set (k := bitlen (size - 1)).
  assert (Hk : 0 <= k) by apply bitlen_nonneg.
  assert (Hk63 : k <= 63) by (apply bitlen_le; lia).
  assert (Hkb : k <= b) by (apply bitlen_le; lia).
  replace (64 - (64 - k)) with k by lia. rewrite (proj2 (Z.ltb_lt k 64)) by lia. f_equal.
  assert (Hpk : 1 <= 2 ^ k <= 2 ^ 63).
  { split; [pose proof (Z.pow_pos_nonneg 2 k); lia|apply Z.pow_le_mono_r; lia]. }
  assert (Hm : u64 (Z.shiftl 0xffffffffffffffff k) = 2 ^ 64 - 2 ^ k).
  { unfold u64. rewrite Z.shiftl_mul_pow2 by lia.
    replace (0xffffffffffffffff * 2 ^ k) with (2 ^ 64 - 2 ^ k + (2 ^ k - 1) * 2 ^ 64) by lia.
    rewrite Z.mod_add by lia. apply Z.mod_small. lia. }
  apply Z.mod_divide in Ht as [q Hq]; [|lia].
  assert (Hq0 : 0 < q) by (apply (Z.mul_pos_cancel_r q (2 ^ b)); lia).
  assert (Hle : 2 ^ b <= top) by (pose proof (Z.mul_le_mono_nonneg_r 1 q (2 ^ b)); lia).
  rewrite Hm, land_high by lia.
  assert (Hkk : 2 ^ b = 2 ^ (b - k) * 2 ^ k) by (rewrite <- Z.pow_add_r by lia; f_equal; lia).
  replace (top - size) with ((q * 2 ^ (b - k) - 1) * 2 ^ k + (2 ^ k - size)) by lia.
  assert (Hsk : size <= 2 ^ k) by (pose proof (bitlen_bound (size - 1)); fold k in H; lia).
  rewrite Z.div_add_l, (Z.div_small (2 ^ k - size)) by lia. lia.
Qed.

(** Masking with the masks of a range keeps the low bits and forces the others. *)
Lemma masked_value top k t :
  0 <= k -> top mod 2 ^ k = 0 -> masked (top - 2 ^ k) (top - 1) t = top - 2 ^ k + t mod 2 ^ k.
Proof.
  intros Hk Ht. apply Z.mod_divide in Ht as [q Hq]; [|lia].
  assert (E1 : top - 1 = Z.lor (Z.shiftl (q - 1) k) (Z.ones k)).
  { rewrite lor_ones_low, Z.shiftl_mul_pow2, Z.div_mul by lia. lia. }
  assert (E2 : top - 2 ^ k = Z.shiftl (q - 1) k) by (rewrite Z.shiftl_mul_pow2 by lia; lia).
  assert (E3 : top - 2 ^ k + t mod 2 ^ k = Z.lor (Z.shiftl (q - 1) k) (Z.land t (Z.ones k))).
  { rewrite E2, <- Z.land_ones by lia. rewrite Z.add_nocarry_lxor, Z.lxor_lor; [done|..];
      apply Z.bits_inj'; intros i Hi; rewrite !Z.land_spec, Z.shiftl_spec, Z.bits_0 by lia;
      (destruct (Z.ltb_spec i k);
       [by rewrite (Z.testbit_neg_r _ (i - k)) by lia
       |rewrite Z.ones_spec_high by lia; by rewrite !andb_false_r]). }
  rewrite E3. unfold masked. rewrite E1, E2.
  apply Z.bits_inj'. intros i Hi. rewrite !Z.land_spec, !Z.lor_spec, !Z.land_spec, !Z.shiftl_spec by lia.
  destruct (Z.ltb_spec i k).
  - rewrite Z.ones_spec_low, (Z.testbit_neg_r _ (i - k)) by lia.
    by rewrite orb_false_r, orb_true_r, !andb_true_r.
  - rewrite Z.ones_spec_high by lia. rewrite !orb_false_r, andb_false_r, orb_false_r.
    by destruct (Z.testbit t i), (Z.testbit (q - 1) (i - k)).
Qed.

Lemma masked_window top k t :
  0 <= k -> top mod 2 ^ k = 0 -> top - 2 ^ k <= masked (top - 2 ^ k) (top - 1) t <= top - 1.
Proof.
  intros Hk Ht. rewrite masked_value by done. pose proof (Z.mod_pos_bound t (2 ^ k)). lia.
Qed.

Lemma masked_id top k t :
  0 <= k -> top mod 2 ^ k = 0 -> top - 2 ^ k <= t <= top - 1 -> masked (top - 2 ^ k) (top - 1) t = t.
Proof.
  intros Hk Ht Hw. rewrite masked_value by done. apply Z.mod_divide in Ht as [q Hq]; [|lia].
  replace t with (t - (q - 1) * 2 ^ k + (q - 1) * 2 ^ k) at 1 by lia.
  rewrite Z.mod_add, Z.mod_small by lia. lia.
Qed.

(** The masks given to an object whose code of [size] bytes is to lie below
    [target_addr]: [find_addr], [l_exec_end] and [l_exec_start]. *)
Record placement := mkPlace { pl_start : Z; l_exec_start : Z; l_exec_end : Z }.

Definition place (target_addr size : Z) : res placement :=
  hmm ← find_addr target_addr size;
  let exec_end := u64 (u64 (size + hmm) - 1) in
  exec_start ← common_prefix_len hmm exec_end;
  mret (mkPlace hmm exec_start exec_end).

Lemma place_spec target size :
  code_size size -> 2 ^ 33 <= target < 2 ^ 64 ->
  exists top, place target size = Ok (mkPlace (top - size) (top - 2 ^ bitlen (size - 1)) (top - 1)) /\
    top mod 2 ^ num_bits_required size = 0 /\ top mod 2 ^ bitlen (size - 1) = 0 /\
    target - 2 ^ num_bits_required size < top <= target /\
    size <= 2 ^ bitlen (size - 1) < 2 * size /\ 2 ^ 32 <= top.
Proof.
  intros Hc Ht. destruct (find_addr_spec target size Hc Ht) as (top & Hf & Hm & Hr).
  pose proof (num_bits_code size Hc) as Hb.
  destruct (num_bits_required_spec size) as (Hlt & _ & _ & Hl & _); [destruct Hc; lia|].
  destruct Hc as [Hs Hp]. assert (2 ^ 12 <= size) by divlia.
  assert (Hpb : 2 ^ num_bits_required size <= 2 ^ 32) by (apply Z.pow_le_mono_r; lia).
  exists top. unfold place. rewrite Hf. cbn [mbind res_bind].
  replace (size + (top - size)) with top by lia. rewrite (u64_small top), u64_small by lia.
  rewrite (common_prefix_spec top size (num_bits_required size)) by lia. split; [done|].
  split; [done|]. pose proof (bitlen_bound (size - 1)). pose proof (bitlen_lower (size - 1)).
  pose proof (bitlen_nonneg (size - 1)).
  split; [|lia].
  assert (bitlen (size - 1) <= num_bits_required size) by (apply bitlen_le; lia).
  apply Z.mod_divide; [lia|]. apply Z.mod_divide in Hm as [q ->]; [|lia].
  exists (q * 2 ^ (num_bits_required size - bitlen (size - 1))).
  rewrite <- Z.mul_assoc, <- Z.pow_add_r by lia. do 2 f_equal. lia.
Qed.

(** ** The theorems *)

(** C1.  Confinement: whatever the target of an instrumented indirect call is,
    the call lands in a window that ends exactly with the object's code, is
    shorter than twice the code, and lies below the address [find_addr] was
    asked to stay below.  In particular nothing behind the code segment
    ([.plt] and the data of the object, and every object mapped at higher addresses)
    can be reached. *)
Theorem masked_call_confined target size :
  code_size size -> 2 ^ 33 <= target < 2 ^ 64 ->
  exists pl, place target size = Ok pl /\ l_exec_end pl = pl_start pl + size - 1 /\
    l_exec_end pl < target /\
    pl_start pl - size < l_exec_start pl <= pl_start pl /\
    forall t, l_exec_start pl <= masked (l_exec_start pl) (l_exec_end pl) t <= l_exec_end pl.
Proof.
  intros Hc Ht. destruct (place_spec target size Hc Ht) as (top & Hp & _ & Hk & Hr & Hs & Htop).
  eexists. split; [exact Hp|]. cbn [pl_start l_exec_start l_exec_end].
  split; [lia|]. split; [lia|]. split; [lia|]. intros t.
  apply masked_window; [apply bitlen_nonneg|done].
Qed.

(** C2.  Transparency and the callback guard: an instrumented call to an
    address inside the object's own code goes to that address; and the guard in front of
    a possible callback calls directly exactly when the target lies in the
    object's window, everything else goes through [callback_table]. *)
Theorem guarded_call_spec target size :
  code_size size -> 2 ^ 33 <= target < 2 ^ 64 ->
  exists pl, place target size = Ok pl /\
    (forall t, pl_start pl <= t <= l_exec_end pl ->
       masked (l_exec_start pl) (l_exec_end pl) t = t) /\
    forall t, guarded_call (l_exec_start pl) (l_exec_end pl) t =
      if (l_exec_start pl <=? t) && (t <=? l_exec_end pl) then Direct t else ViaCallbackTable t.
Proof.
  intros Hc Ht. destruct (place_spec target size Hc Ht) as (top & Hp & _ & Hk & Hr & Hs & Htop).
  eexists. split; [exact Hp|]. cbn [pl_start l_exec_start l_exec_end].
  assert (Hm : forall t, masked (top - 2 ^ bitlen (size - 1)) (top - 1) t = t <->
                    top - 2 ^ bitlen (size - 1) <= t <= top - 1).
  { intros t. split; [intros <-; apply masked_window|apply masked_id]; done || apply bitlen_nonneg. }
  split; [intros t Hw; apply Hm; lia|]. intros t. unfold guarded_call. specialize (Hm t).
  destruct (Z.eqb_spec t (masked (top - 2 ^ bitlen (size - 1)) (top - 1) t)) as [E|E];
    destruct (Z.leb_spec (top - 2 ^ bitlen (size - 1)) t), (Z.leb_spec t (top - 1)); cbn; done || lia.
Qed.

(** The code of [libexample] : [0x5000] bytes below [0x7f1234567000]. *)
Lemma masked_call_confined_witness :
  exists pl, place 0x7f1234567000 0x5000 = Ok pl /\ l_exec_end pl = pl_start pl + 0x5000 - 1 /\
    l_exec_end pl < 0x7f1234567000 /\
    pl_start pl - 0x5000 < l_exec_start pl <= pl_start pl /\
    forall t, l_exec_start pl <= masked (l_exec_start pl) (l_exec_end pl) t <= l_exec_end pl.
Proof. apply (masked_call_confined 0x7f1234567000 0x5000); [split; [lia|reflexivity]|lia]. Defined.

Lemma guarded_call_spec_witness :
  exists pl, place 0x7f1234567000 0x5000 = Ok pl /\
    (forall t, pl_start pl <= t <= l_exec_end pl ->
       masked (l_exec_start pl) (l_exec_end pl) t = t) /\
    forall t, guarded_call (l_exec_start pl) (l_exec_end pl) t =
      if (l_exec_start pl <=? t) && (t <=? l_exec_end pl) then Direct t else ViaCallbackTable t.
Proof. apply (guarded_call_spec 0x7f1234567000 0x5000); [split; [lia|reflexivity]|lia]. Defined.

(** A page of code: five pages in a block of sixteen. *)
Example place_0x5000 :
  place 0x7f1234567000 0x5000 = Ok (mkPlace 0x7f123455b000 0x7f1234558000 0x7f123455ffff).
Proof. vm_compute. reflexivity. Qed.
