(* ===== verification/MapSegments.v ===== *)
(** * Mapping an object's segments

    [find_exec_size], [_dl_map_segment], [_dl_postprocess_loadcmd] and
    [_dl_map_segments] of [elf/dl-map-segments.h] and [elf/dl-load.h].  PLaTypus
    chooses the load address itself: each object goes at least 256 MiB below
    the one before, with its code at the end of a block that a mask can
    describe.  The kernel is a parameter: a function of the calls made so far
    and of the call at hand; the calls made are recorded. *)

From S2P Require Import Prelude Mask.

(** ** Calls to the kernel and writes to memory *)
Inductive event :=
| Mmap (addr len prot flags fd off : Z)
| Munmap (addr len : Z)
| Mprotect (addr len prot : Z)
| Memset0 (addr len : Z)
| Memcpy (dst src len : Z)
| SetVmaName (addr len : Z) (name : string).

Definition MAP_FAILED : Z := 2 ^ 64 - 1.
Definition MAP_PRIVATE : Z := 0x2.
Definition MAP_FIXED : Z := 0x10.
Definition MAP_ANONYMOUS : Z := 0x20.
Definition MAP_COPY : Z := 0x802.         (* MAP_PRIVATE | MAP_DENYWRITE *)
Definition MAP_FILE : Z := 0.
Definition PROT_NONE : Z := 0.
Definition PROT_READ : Z := 1.
Definition PROT_WRITE : Z := 2.
Definition PROT_EXEC : Z := 4.
Definition ALIGN_DOWN (x a : Z) : Z := Z.land x (u64 (- a)).
Definition ALIGN_UP (x a : Z) : Z := ALIGN_DOWN (u64 (x + a - 1)) a.

(** ** Data *)
Record loadcmd := mkLoad {
  mapstart : Z; mapend : Z; dataend : Z; allocend : Z; mapalign : Z; mapoff : Z; prot : Z }.

(** [e_phoff] and [e_phnum] of the file header. *)
Record ehdr := mkEhdr { e_phoff : Z; e_phnum : Z }.

(** The fields of the link map that are set here. *)
Record segmap := mkSeg {
  sm_name : string;
  sm_addr : Z;
  l_map_start : Z;
  l_map_end : Z;
  l_contiguous : bool;
  sm_exec_start : Z;
  sm_exec_end : Z;
  sm_phdr : option Z }.

(** The link map, the static variables [addr] and [to_load], and the calls made. *)
Record kst := mkK { k_l : segmap; k_addr : Z; k_to_load : Z; k_trace : list event }.

Definition fresh_map (name : string) (l_addr : Z) (phdr : option Z) : segmap := mkSeg name l_addr 0 0 false 0 0 phdr.

Definition set_l (l : segmap) (s : kst) : kst := mkK l (k_addr s) (k_to_load s) (k_trace s).
Definition set_masks (pl : placement) (s : kst) : kst :=
  let l := k_l s in
  set_l (mkSeg (sm_name l) (sm_addr l) (l_map_start l) (l_map_end l) (l_contiguous l)
           (l_exec_start pl) (l_exec_end pl) (sm_phdr l)) s.
Definition set_map_start (a : Z) (s : kst) : kst :=
  let l := k_l s in
  set_l (mkSeg (sm_name l) (sm_addr l) a (l_map_end l) (l_contiguous l)
           (sm_exec_start l) (sm_exec_end l) (sm_phdr l)) s.
Definition set_map_end (a : Z) (s : kst) : kst :=
  let l := k_l s in
  set_l (mkSeg (sm_name l) (sm_addr l) (l_map_start l) a (l_contiguous l)
           (sm_exec_start l) (sm_exec_end l) (sm_phdr l)) s.
Definition set_l_addr (a : Z) (s : kst) : kst :=
  let l := k_l s in
  set_l (mkSeg (sm_name l) a (l_map_start l) (l_map_end l) (l_contiguous l)
           (sm_exec_start l) (sm_exec_end l) (sm_phdr l)) s.
Definition set_contiguous (b : bool) (s : kst) : kst :=
  let l := k_l s in
  set_l (mkSeg (sm_name l) (sm_addr l) (l_map_start l) (l_map_end l) b
           (sm_exec_start l) (sm_exec_end l) (sm_phdr l)) s.
Definition set_phdr (p : Z) (s : kst) : kst :=
  let l := k_l s in
  set_l (mkSeg (sm_name l) (sm_addr l) (l_map_start l) (l_map_end l) (l_contiguous l)
           (sm_exec_start l) (sm_exec_end l) (Some p)) s.
Definition set_addr (a : Z) (s : kst) : kst := mkK (k_l s) a (k_to_load s) (k_trace s).
Definition set_to_load (n : Z) (s : kst) : kst := mkK (k_l s) (k_addr s) n (k_trace s).

(** [find_exec_size]: the first load command that is executable ([prot > 3]); the size
    is kept in 32 bits. *)
Record mitig_struct := mkMitig { ms_size : Z; ms_mapstart : Z }.
Fixpoint find_exec_size (loadcmds : list loadcmd) : mitig_struct :=
  match loadcmds with
  | [] => mkMitig 0 0
  | c :: rest =>
      if 3 <? prot c then mkMitig (u32 (mapend c - mapstart c)) (mapstart c)
      else find_exec_size rest
  end.

Definition ERROR_MAP_SEGMENT : string := "failed to map segment from shared object".
Definition ERROR_MPROTECT : string := "cannot change memory protections".
Definition ERROR_ZERO_FILL : string := "cannot map zero-fill pages".
Definition ERROR_ALIGN : string := "ELF load command address/offset not page-aligned".

(** The name given to a [.bss] mapping. *)
Definition bss_char (c : Ascii.ascii) : Ascii.ascii :=
  let n := char_code c in
  if (n <=? 0x1f) || (0x7f <=? n) || bool_decide (n ∈ [92; 96; 36; 91; 93]) then Ascii.ascii_of_nat 33
  else c.

(** [for (j = namelen - 1; j > 0; j--) if (l->l_name[j - 1] == '/') break;] *)
Fixpoint after_slash (name : list Ascii.ascii) (j : nat) : nat :=
  match j with
  | O => O
  | S j' =>
      match name !! j' with
      | Some c => if char_code c =? 47 then j else after_slash name j'
      | None => after_slash name j'
      end
  end.

Definition bss_name (name : string) : string :=
  let chars := String.list_ascii_of_string name in
  let j := if (66 <? length chars)%nat then after_slash chars (length chars - 1)%nat else O in
  " glibc: .bss " +:+ String.string_of_list_ascii (map bss_char (take 66 (drop j chars))).

Section Kernel.
Context (kernel : list event -> event -> Z).
Context (pagesize : Z) (decorate_maps : bool) (fd : Z) (header : ehdr).

Definition sys (e : event) : M kst Z := fun s =>
  Ret (kernel (k_trace s) e) (mkK (k_l s) (k_addr s) (k_to_load s) (k_trace s ++ [e])).

(** ** [_dl_map_segment] *)
Definition _dl_map_segment (c : loadcmd) (mappref maplength : Z) : M kst Z :=
  if mapalign c <=? pagesize then
    sys (Mmap mappref maplength (prot c) (Z.lor MAP_COPY MAP_FILE) fd (mapoff c))
  else
    let maplen := if mapalign c <=? maplength then u64 (maplength + mapalign c)
                  else u64 (2 * mapalign c) in
    map_start ← sys (Mmap mappref maplen PROT_NONE (Z.lor MAP_ANONYMOUS MAP_COPY) (-1) 0);
    if map_start =? MAP_FAILED then mret map_start
    else
      aligned ← sys (Mmap (ALIGN_UP map_start (mapalign c)) maplength (prot c)
                       (Z.lor (Z.lor MAP_COPY MAP_FILE) MAP_FIXED) fd (mapoff c));
      (if aligned =? MAP_FAILED then _ ← sys (Munmap map_start maplen); mret tt
       else
         let delta := u64 (aligned - map_start) in
         (if delta =? 0 then mret tt else _ ← sys (Munmap map_start delta); mret tt);;
         let map_end := ALIGN_UP (u64 (aligned + maplength)) pagesize in
         let delta := u64 (map_start + maplen - map_end) in
         if delta =? 0 then mret tt else _ ← sys (Munmap map_end delta); mret tt);;
      mret aligned.

(** ** [_dl_map_segments] *)

(** The choice of the load address.  [None] continues, [Some e] is an error return. *)
Definition choose_address (c : loadcmd) (loadcmds : list loadcmd) (maplength : Z)
  : M kst (option string) :=
  let mappref := mapstart c in
  let st := find_exec_size loadcmds in
  to_load ← gets k_to_load;
  addr ← gets k_addr;
  if 1 <? to_load then
    if 0 <? ms_size st then
      let mappref := u64 (addr - 0x10000000) in
      pl ← lift (place mappref (ms_size st));
      modify (set_masks pl);;
      let mappref := u64 (pl_start pl - ms_mapstart st) in
      modify (set_addr mappref);;
      r ← _dl_map_segment c mappref maplength;
      modify (set_map_start r);;
      if r =? mappref then modify (set_to_load (to_load + 1));; mret None
      else mret (Some ERROR_MAP_SEGMENT)
    else mret None
  else
    tmp ← _dl_map_segment c mappref maplength;
    if 0 <? ms_size st then
      pl ← lift (place (u64 (tmp - 0x10000000)) (ms_size st));
      modify (set_masks pl);;
      let addr := u64 (pl_start pl - ms_mapstart st) in
      modify (set_addr addr);;
      r ← _dl_map_segment c addr maplength;
      modify (set_map_start r);;
      if r =? addr then modify (set_to_load (to_load + 1));; mret None
      else mret (Some ERROR_MAP_SEGMENT)
    else mret None.

(** [_dl_postprocess_loadcmd] *)
Definition _dl_postprocess_loadcmd (c : loadcmd) : M kst unit :=
  l ← gets k_l;
  match sm_phdr l with
  | Some _ => mret tt
  | None =>
      if (mapoff c <=? e_phoff header)
         && (u64 (e_phoff header + e_phnum header * 56) <=? u64 (mapend c - mapstart c + mapoff c))
      then modify (set_phdr (u64 (mapstart c + e_phoff header - mapoff c)))
      else mret tt
  end.

(** The code at [postmap]: the zero-filled end of a segment. *)
Definition postmap (c : loadcmd) : M kst (option string) :=
  _dl_postprocess_loadcmd c;;
  if dataend c <? allocend c then
    l ← gets k_l;
    let zero := u64 (sm_addr l + dataend c) in
    let zeroend := u64 (sm_addr l + allocend c) in
    let zeropage := Z.land (u64 (zero + pagesize - 1)) (u64 (- pagesize)) in
    let zeropage := if zeroend <? zeropage then zeroend else zeropage in
    let readonly := Z.land (prot c) PROT_WRITE =? 0 in
    let page := Z.land zero (u64 (- pagesize)) in
    e ← (if zero <? zeropage then
           r ← (if readonly then sys (Mprotect page pagesize (Z.lor (prot c) PROT_WRITE)) else mret 0);
           if r <? 0 then mret (Some ERROR_MPROTECT)
           else
             _ ← sys (Memset0 zero (zeropage - zero));
             (if readonly then _ ← sys (Mprotect page pagesize (prot c)); mret tt else mret tt);;
             mret None
         else mret None);
    match e with
    | Some e => mret (Some e)
    | None =>
        if zeropage <? zeroend then
          mapat ← sys (Mmap zeropage (zeroend - zeropage) (prot c)
                         (Z.lor (Z.lor MAP_ANONYMOUS MAP_PRIVATE) MAP_FIXED) (-1) 0);
          if mapat =? MAP_FAILED then mret (Some ERROR_ZERO_FILL)
          else
            (if decorate_maps
             then _ ← sys (SetVmaName zeropage (zeroend - zeropage)
                             (if str_eqb (sm_name l) "" then " glibc: .bss" else bss_name (sm_name l)));
                  mret tt
             else mret tt);;
            mret None
        else mret None
    end
  else mret None.

(** The loop over the load commands. *)
Fixpoint map_rest (cs : list loadcmd) : M kst (option string) :=
  match cs with
  | [] => mret None
  | c :: cs' =>
      l ← gets k_l;
      r ← (if mapstart c <? mapend c then
             sys (Mmap (u64 (sm_addr l + mapstart c)) (mapend c - mapstart c) (prot c)
                    (Z.lor (Z.lor MAP_FIXED MAP_COPY) MAP_FILE) fd (mapoff c))
           else mret 0);
      if (mapstart c <? mapend c) && (r =? MAP_FAILED) then mret (Some ERROR_MAP_SEGMENT)
      else
        e ← postmap c;
        match e with Some e => mret (Some e) | None => map_rest cs' end
  end.

Definition _dl_map_segments (dyn : bool) (loadcmds : list loadcmd) (maplength : Z) (has_holes : bool)
  : M kst (option string) :=
  match loadcmds with
  | [] => lift Undef
  | c :: rest =>
      if dyn then
        e ← choose_address c loadcmds maplength;
        match e with
        | Some e => mret (Some e)
        | None =>
            l ← gets k_l;
            if l_map_start l =? MAP_FAILED then mret (Some ERROR_MAP_SEGMENT)
            else
              modify (set_map_end (u64 (l_map_start l + maplength)));;
              modify (set_l_addr (u64 (l_map_start l - mapstart c)));;
              e ← (if has_holes then
                     match last loadcmds with
                     | None => lift Undef
                     | Some z =>
                         if mapstart z <? mapend c then mret (Some ERROR_ALIGN)
                         else
                           l ← gets k_l;
                           r ← sys (Mprotect (u64 (sm_addr l + mapend c)) (mapstart z - mapend c) PROT_NONE);
                           mret (if r <? 0 then Some ERROR_MPROTECT else None)
                     end
                   else mret None);
              match e with
              | Some e => mret (Some e)
              | None =>
                  modify (set_contiguous true);;
                  e ← postmap c;
                  match e with Some e => mret (Some e) | None => map_rest rest end
              end
        end
      else
        l ← gets k_l;
        modify (set_map_start (u64 (mapstart c + sm_addr l)));;
        modify (set_map_end (u64 (u64 (mapstart c + sm_addr l) + maplength)));;
        modify (set_contiguous (negb has_holes));;
        map_rest loadcmds
  end.

End Kernel.

(** ** What the steps leave alone *)

(** Only the record of calls and [l_phdr] differ. *)
Definition same_place (s s' : kst) : Prop :=
  sm_addr (k_l s') = sm_addr (k_l s) /\ l_map_start (k_l s') = l_map_start (k_l s) /\
  l_map_end (k_l s') = l_map_end (k_l s) /\
  sm_exec_start (k_l s') = sm_exec_start (k_l s) /\ sm_exec_end (k_l s') = sm_exec_end (k_l s) /\
  k_addr s' = k_addr s /\ k_to_load s' = k_to_load s.

#[export] Instance same_place_preorder : PreOrder same_place.
Proof.
  split; [intros s; repeat split|].
  intros s1 s2 s3 H1 H2. unfold same_place in *. intuition congruence.
Qed.

(** A computation that keeps the placement. *)
Abbreviation keeps := (stable same_place).

Lemma keeps_sys kernel e : keeps (sys kernel e).
Proof. intros s. repeat split. Qed.
Lemma keeps_set_phdr p : keeps (modify (set_phdr p)).
Proof. apply stable_modify. intros s. repeat split. Qed.
#[export] Hint Resolve keeps_sys keeps_set_phdr : stable.

Lemma keeps_map_segment kernel ps fd c p l : keeps (_dl_map_segment kernel ps fd c p l).
Proof. unfold _dl_map_segment. stable_auto. Qed.
Lemma keeps_postmap kernel ps d h c : keeps (postmap kernel ps d h c).
Proof. unfold postmap, _dl_postprocess_loadcmd. stable_auto. Qed.
#[export] Hint Resolve keeps_map_segment keeps_postmap : stable.

Lemma keeps_map_rest kernel ps d fd h cs : keeps (map_rest kernel ps d fd h cs).
Proof. induction cs; cbn [map_rest]; stable_auto; auto. Qed.
#[export] Hint Resolve keeps_map_rest : stable.

(** ** A successful load *)
Section Loads.
Context (kernel : list event -> event -> Z) (pagesize : Z) (decorate_maps : bool).

(** What the loader is given for one object. *)
Record object := mkObj {
  o_name : string; o_fd : Z; o_phdr : option Z; o_header : ehdr; o_first : loadcmd; o_rest : list loadcmd;
  o_maplength : Z; o_has_holes : bool }.
Definition o_cmds (o : object) : list loadcmd := o_first o :: o_rest o.
Definition o_exec (o : object) : mitig_struct := find_exec_size (o_cmds o).

Definition load (o : object) : M kst (option string) :=
  modify (set_l (fresh_map (o_name o) 0 (o_phdr o)));;
  _dl_map_segments kernel pagesize decorate_maps (o_fd o) (o_header o) true (o_cmds o)
    (o_maplength o) (o_has_holes o).

(** The address the next object has to stay below: that of the last object,
    or, for the first one, what the kernel offers. *)
Inductive base_of (o : object) (s : kst) : Z -> Prop :=
| base_next : 1 < k_to_load s -> base_of o s (k_addr s)
| base_first a s1 : k_to_load s <= 1 ->
    _dl_map_segment kernel pagesize (o_fd o) (o_first o) (mapstart (o_first o)) (o_maplength o)
      (set_l (fresh_map (o_name o) 0 (o_phdr o)) s) = Ret a s1 ->
    base_of o s a.

(** What [choose_address] has done when it succeeds. *)
Definition placed (o : object) (pl : placement) (s s' : kst) : Prop :=
  l_map_start (k_l s') = u64 (pl_start pl - ms_mapstart (o_exec o)) /\
  sm_exec_start (k_l s') = l_exec_start pl /\ sm_exec_end (k_l s') = l_exec_end pl /\
  k_addr s' = l_map_start (k_l s') /\ k_to_load s' = k_to_load s + 1.

Lemma choose_address_placed o s s' :
  choose_address kernel pagesize (o_fd o) (o_first o) (o_cmds o) (o_maplength o)
    (set_l (fresh_map (o_name o) 0 (o_phdr o)) s) = Ret None s' ->
  0 < ms_size (o_exec o) ->
  exists b pl, base_of o s b /\ place (u64 (b - 0x10000000)) (ms_size (o_exec o)) = Ok pl /\ placed o pl s s'.
Proof.
  intros H Hs. unfold choose_address in H. fold (o_exec o) in H. inv_res.
  cbn [k_to_load k_addr set_l] in *.
  rewrite (proj2 (Z.ltb_lt _ _) Hs) in H.
  destruct (Z.ltb_spec 1 (k_to_load s)).
  - inv_res.
    match goal with Hm : _dl_map_segment _ _ _ _ _ _ _ = Ret ?r _, Hi : (if ?r =? ?e then _ else _) _ = _ |- _ =>
      pose proof (stable_Ret _ _ _ _ _ (keeps_map_segment _ _ _ _ _ _) Hm) as Hk; destruct (Z.eqb_spec r e) as [Heq|]; [|discriminate] end.
    inv_res. destruct Hk as (_ & _ & _ & He1 & He2 & Ha & Ht).
    cbn [k_l k_addr k_to_load set_masks set_addr set_l sm_exec_start sm_exec_end] in *.
    eexists _, _. split; [by constructor|]. split; [done|]. by repeat split.
  - apply M_bind_Ret_inv in H as (a & s1 & Hfirst & H). 
    inv_res.
    match goal with Hm : _dl_map_segment _ _ _ _ _ _ _ = Ret ?r _, Hi : (if ?r =? ?e then _ else _) _ = _ |- _ =>
      pose proof (stable_Ret _ _ _ _ _ (keeps_map_segment _ _ _ _ _ _) Hm) as Hk; destruct (Z.eqb_spec r e) as [Heq|]; [|discriminate] end.
    inv_res. destruct Hk as (_ & _ & _ & He1 & He2 & Ha & Ht).
    cbn [k_l k_addr k_to_load set_masks set_addr set_l sm_exec_start sm_exec_end] in *.
    eexists _, _. split; [by eapply base_first|]. split; [done|]. by repeat split.
Qed.

Lemma load_placed o s s' :
  load o s = Ret None s' -> 0 < ms_size (o_exec o) ->
  exists b pl, base_of o s b /\ place (u64 (b - 0x10000000)) (ms_size (o_exec o)) = Ok pl /\
    placed o pl s s' /\ l_map_start (k_l s') <> MAP_FAILED /\
    sm_addr (k_l s') = u64 (l_map_start (k_l s') - mapstart (o_first o)) /\
    l_map_end (k_l s') = u64 (l_map_start (k_l s') + o_maplength o).
Proof.
  intros H Hs. unfold load in H. inv_res.
  unfold _dl_map_segments in H. fold (o_cmds o) in H. unfold o_cmds in H at 1.
  apply M_bind_Ret_inv in H as (e & s1 & Hc & H). destruct e as [e|]; [discriminate|].
  apply choose_address_placed in Hc as (b & pl & Hb & Hpl & Hp); [|done].
  apply M_bind_Ret_inv in H as (l & s2 & Hl & H). injection Hl as <- <-.
  destruct (Z.eqb_spec (l_map_start (k_l s1)) MAP_FAILED) as [|Hnf]; [discriminate|].
  unfold modify in H. do 2 (apply M_bind_Ret_inv in H as (? & ? & Hset & H); injection Hset as <- <-).
  apply M_bind_Ret_inv in H as (e & s3 & Hh & H).
  assert (Hk : same_place (set_l_addr (u64 (l_map_start (k_l s1) - mapstart (o_first o)))
                 (set_map_end (u64 (l_map_start (k_l s1) + o_maplength o)) s1)) s3).
  { revert Hh. match goal with |- ?m ?st = _ -> _ => assert (Hm : keeps m) by stable_auto; by apply stable_Ret end. }
  destruct e as [e|]; [discriminate|].
  apply M_bind_Ret_inv in H as (? & s4 & Hset & H). injection Hset as <- <-.
  apply M_bind_Ret_inv in H as (e & s5 & Hpm & H). destruct e as [e|]; [discriminate|].
  apply (stable_Ret same_place) in Hpm; [|apply keeps_postmap]. apply (stable_Ret same_place) in H; [|apply keeps_map_rest].
  destruct Hk as (K1 & K2 & K3 & K4 & K5 & K6 & K7), Hpm as (P1 & P2 & P3 & P4 & P5 & P6 & P7),
    H as (R1 & R2 & R3 & R4 & R5 & R6 & R7), Hp as (A1 & A2 & A3 & A4 & A5).
  cbn [k_l k_addr k_to_load set_map_end set_l_addr set_contiguous set_l sm_exec_start sm_exec_end
       l_map_start l_map_end sm_addr] in *.
  exists b, pl. split; [done|]. split; [done|]. split; [|split; [congruence|split; congruence]].
  repeat split; congruence.
Qed.

Lemma base_of_fun o s b b' : base_of o s b -> base_of o s b' -> b = b'.
Proof. intros [] H'; inversion H'; subst; try lia; try done. congruence. Qed.

(** An object the layout is made for: code of whole pages, less than 256 MiB from the
    start of the file image, the image linked at address zero; and room below. *)
Definition fits (o : object) (s : kst) : Prop :=
  code_size (ms_size (o_exec o)) /\ ms_size (o_exec o) <= 2 ^ 28 /\
  0 <= ms_mapstart (o_exec o) < 2 ^ 28 /\ mapstart (o_first o) = 0 /\
  exists b, base_of o s b /\ 2 ^ 34 <= b < 2 ^ 64.

(** A loaded object, as its link map describes it. *)
Definition confined (l : segmap) : Prop :=
  l_map_start l <= sm_exec_end l /\ l_map_start l - 2 ^ 28 < sm_exec_start l /\
  forall t, sm_exec_start l <= masked (sm_exec_start l) (sm_exec_end l) t <= sm_exec_end l.

Lemma load_confined o s s' b :
  load o s = Ret None s' -> fits o s -> base_of o s b ->
  confined (k_l s') /\ sm_exec_end (k_l s') < b - 2 ^ 28 /\ k_addr s' = l_map_start (k_l s') /\
  k_to_load s' = k_to_load s + 1 /\
  sm_addr (k_l s') + ms_mapstart (o_exec o) + ms_size (o_exec o) - 1 = sm_exec_end (k_l s') /\
  forall t, sm_addr (k_l s') + ms_mapstart (o_exec o) <= t <= sm_exec_end (k_l s') ->
    masked (sm_exec_start (k_l s')) (sm_exec_end (k_l s')) t = t.
Proof.
  intros Hl (Hc & Hbig & Hms & H0 & b1 & Hb1 & Hr) Hb. rewrite (base_of_fun _ _ _ _ Hb Hb1). clear b Hb.
  apply load_placed in Hl as (b & pl & Hb & Hpl & (P1 & P2 & P3 & P4 & P5) & _ & Ha & _); [|destruct Hc; lia].
  rewrite (base_of_fun _ _ _ _ Hb1 Hb) in *. clear b1 Hb1.
  rewrite (u64_small (b - _)) in Hpl by lia.
  destruct (place_spec (b - 0x10000000) (ms_size (o_exec o)) Hc) as (top & Hpl' & _ & Hk & Ht & Hs & Htop);
    [lia|]. rewrite Hpl' in Hpl. injection Hpl as <-. cbn [pl_start l_exec_start l_exec_end] in *.
  rewrite (u64_small (_ - _)) in P1 by lia. rewrite H0, u64_small in Ha by lia.
  set (k := bitlen (ms_size (o_exec o) - 1)) in *.
  assert (Hk0 : 0 <= k) by apply bitlen_nonneg.
  rewrite P2, P3, P1 in *. split; [|split; [lia|split; [done|split; [done|split; [lia|]]]]].
  - unfold confined. rewrite P1, P2, P3. split; [lia|]. split; [lia|].
    intros t. by apply masked_window.
  - intros t Hw. apply masked_id; done || lia.
Qed.

(** ** Loading objects one after the other *)
Inductive loads : kst -> list segmap -> Prop :=
| loads_none l tr : loads (mkK l 0 1 tr) []
| loads_one o s ms s' :
    loads s ms -> fits o s -> load o s = Ret None s' -> loads s' (k_l s' :: ms).

(** [new] was loaded after [old]. *)
Definition below (new old : segmap) : Prop := sm_exec_end new < l_map_start old - 2 ^ 28.

Lemma loads_inv s ms :
  loads s ms ->
  Forall confined ms /\ StronglySorted below ms /\
  match ms with
  | [] => k_to_load s = 1
  | l :: _ => 1 < k_to_load s /\ k_addr s = l_map_start l
  end.
Proof.
  induction 1 as [l tr|o s ms s' Hl (Hc & Hs & Hst) Hf Hload].
  { repeat split; constructor. }
  pose proof Hf as (_ & _ & _ & _ & b & Hb & _).
  destruct (load_confined o s s' b Hload Hf Hb) as (Hcf & Hlt & Ha & Hn & _).
  split; [by constructor|]. split.
  - constructor; [done|]. destruct ms as [|l ms]; [constructor|]. destruct Hst as [H1 Haddr].
    inversion Hb; subst; [|lia].
    assert (Hbl : below (k_l s') l) by (unfold below; lia).
    constructor; [done|]. apply StronglySorted_inv in Hs as [_ Hs].
    eapply Forall_impl; [exact Hs|]. intros x Hx. apply Forall_cons in Hc as [(Hm & _) _].
    unfold below in *. lia.
  - split; [destruct ms as [|l ms]; lia|done].
Qed.

End Loads.

(** ** The theorems *)

(** C3.  Isolation of the objects the layout is made for: let every object, at the time it
    is loaded, satisfy [fits]: its code is a positive number of whole pages of at most
    256 MiB in all and starts less than 256 MiB behind the start of the image, its first
    segment is linked at address zero, and the address it has to stay below (that of the
    previous object, or what the kernel offers for the first one) lies between 2^34 and
    2^64.  Then, however many such objects are loaded one after the other, an indirect call
    of one never reaches the window of another one: every address an instrumented call of a
    later object can go to lies below every address an instrumented call of an earlier
    object can go to, and below the earlier object's whole image.  (The bound of 256 MiB is
    needed: [Example2.large_object_overlaps].) *)
Theorem loaded_objects_isolated kernel pagesize decorate s ms i j new old t t' :
  loads kernel pagesize decorate s ms -> (i < j)%nat -> ms !! i = Some new -> ms !! j = Some old ->
  masked (sm_exec_start new) (sm_exec_end new) t < masked (sm_exec_start old) (sm_exec_end old) t' /\
  masked (sm_exec_start new) (sm_exec_end new) t < l_map_start old.
Proof.
  intros (Hc & Hs & _)%loads_inv Hij Hi Hj.
  assert (Hb : below new old).
  { apply (sorted_rd_lt below ms (Z.of_nat i) (Z.of_nat j)); [done|by apply rd_nat|by apply rd_nat|lia]. }
  rewrite Forall_lookup in Hc. destruct (Hc i new Hi) as (_ & _ & Hn), (Hc j old Hj) as (Ho1 & Ho2 & Ho3).
  unfold below in Hb. specialize (Hn t). specialize (Ho3 t'). lia.
Qed.

(** C4.  The masks describe the code that was mapped: after a successful load of an object
    that satisfies [fits] (code of whole pages, at most 256 MiB, less than 256 MiB behind
    the start of the image; first segment linked at address zero; between 2^34 and 2^64 the
    address to stay below) the object's code ends at [l_exec_end], and an instrumented call
    to any address of it goes there unchanged.  (That the first segment is linked at zero
    is needed: [Example2.offset_object_misplaced].) *)
Theorem own_code_reachable kernel pagesize decorate o s s' t :
  load kernel pagesize decorate o s = Ret None s' -> fits kernel pagesize o s ->
  sm_addr (k_l s') + ms_mapstart (o_exec o) + ms_size (o_exec o) - 1 = sm_exec_end (k_l s') /\
  (sm_addr (k_l s') + ms_mapstart (o_exec o) <= t <= sm_exec_end (k_l s') ->
   masked (sm_exec_start (k_l s')) (sm_exec_end (k_l s')) t = t).
Proof.
  intros Hl Hf. pose proof Hf as (_ & _ & _ & _ & b & Hb & _).
  destruct (load_confined _ _ _ o s s' b Hl Hf Hb) as (_ & _ & _ & _ & He & Hm). auto.
Qed.

(**  An object without executable segment that is loaded after another one
    is not mapped: no call to the kernel is made and [l_map_start] keeps the value the
    new link map had, zero. *)
Theorem data_only_object_not_mapped kernel pagesize fd c loadcmds maplength s :
  ms_size (find_exec_size loadcmds) = 0 -> 1 < k_to_load s ->
  choose_address kernel pagesize fd c loadcmds maplength s = Ret None s.
Proof.
  intros H0 Hl. unfold choose_address. unfold gets, mbind, M_bind. cbn [k_to_load].
  rewrite (proj2 (Z.ltb_lt _ _) Hl), H0. done.
Qed.

(** ** Two libraries *)
Module Example2.

(** A kernel that honours the address asked for, and offers one when asked for none. *)
Definition kernel (_ : list event) (e : event) : Z :=
  match e with
  | Mmap a _ _ _ _ _ => if a =? 0 then 0x7f1234567000 else a
  | _ => 0
  end.

(** Headers, code of five pages at [0x3000], data. *)
Definition cmds : list loadcmd :=
  [mkLoad 0 0x3000 0x2a00 0x2a00 0x1000 0 PROT_READ;
   mkLoad 0x3000 0x8000 0x7b00 0x7b00 0x1000 0x3000 (PROT_READ + PROT_EXEC);
   mkLoad 0x9000 0xb000 0xa800 0xd000 0x1000 0x8000 (PROT_READ + PROT_WRITE)].
Definition lib (name : string) (fd : Z) : object :=
  mkObj name fd None (mkEhdr 64 11) (mkLoad 0 0x3000 0x2a00 0x2a00 0x1000 0 PROT_READ) (tail cmds) 0xd000 true.
Definition run (o : object) (s : kst) : kst :=
  match load kernel 0x1000 true o s with Ret _ s' => s' | _ => s end.

Definition s0 : kst := mkK (fresh_map "" 0 None) 0 1 [].
Definition s1 : kst := run (lib "libfirst.so" 3) s0.
Definition s2 : kst := run (lib "libsecond.so" 4) s1.

Lemma load1 : load kernel 0x1000 true (lib "libfirst.so" 3) s0 = Ret None s1.
Proof. vm_compute. reflexivity. Qed.
Lemma load2 : load kernel 0x1000 true (lib "libsecond.so" 4) s1 = Ret None s2.
Proof. vm_compute. reflexivity. Qed.

Lemma fits1 : fits kernel 0x1000 (lib "libfirst.so" 3) s0.
Proof.
  split; [split; [vm_compute; split; reflexivity|reflexivity]|].
  split; [vm_compute; discriminate|]. split; [vm_compute; split; [discriminate|reflexivity]|].
  split; [reflexivity|]. exists 0x7f1234567000. split; [|lia].
  eapply base_first; [vm_compute; discriminate|]. vm_compute. reflexivity.
Qed.
Lemma fits2 : fits kernel 0x1000 (lib "libsecond.so" 4) s1.
Proof.
  split; [split; [vm_compute; split; reflexivity|reflexivity]|].
  split; [vm_compute; discriminate|]. split; [vm_compute; split; [discriminate|reflexivity]|].
  split; [reflexivity|]. exists (k_addr s1).
  split; [apply base_next; vm_compute; reflexivity|vm_compute; split; [discriminate|reflexivity]].
Qed.

Lemma loaded_objects_isolated_witness :
  masked (sm_exec_start (k_l s2)) (sm_exec_end (k_l s2)) 0x7f1224559123 <
  masked (sm_exec_start (k_l s1)) (sm_exec_end (k_l s1)) 0x1234 /\
  masked (sm_exec_start (k_l s2)) (sm_exec_end (k_l s2)) 0x7f1224559123 < l_map_start (k_l s1).
Proof.
  apply (loaded_objects_isolated kernel 0x1000 true s2 [k_l s2; k_l s1] 0 1).
  - eapply loads_one; [|exact fits2|exact load2]. eapply loads_one; [|exact fits1|exact load1]. constructor.
  - lia.
  - reflexivity.
  - reflexivity.
Defined.

Lemma own_code_reachable_witness :
  sm_addr (k_l s1) + 0x3000 + 0x5000 - 1 = sm_exec_end (k_l s1) /\
  (sm_addr (k_l s1) + 0x3000 <= 0x7f122455c010 <= sm_exec_end (k_l s1) ->
   masked (sm_exec_start (k_l s1)) (sm_exec_end (k_l s1)) 0x7f122455c010 = 0x7f122455c010).
Proof. apply (own_code_reachable kernel 0x1000 true (lib "libfirst.so" 3) s0 s1); [exact load1|exact fits1]. Defined.

Lemma data_only_object_not_mapped_witness :
  choose_address kernel 0x1000 5 (mkLoad 0 0x1000 0x800 0x800 0x1000 0 PROT_READ)
    [mkLoad 0 0x1000 0x800 0x800 0x1000 0 PROT_READ] 0x1000 (set_l (fresh_map "libdata.so" 0 None) s1) =
  Ret None (set_l (fresh_map "libdata.so" 0 None) s1).
Proof. apply data_only_object_not_mapped; [reflexivity|vm_compute; reflexivity]. Defined.

(** Why [fits] asks for the first segment at zero: the same library linked at [0x400000].
    It is loaded, but its code lies [0x400000] below the window of its masks, and a
    call of its own function at the start of the code is sent elsewhere. *)
Definition shifted (c : loadcmd) : loadcmd :=
  mkLoad (mapstart c + 0x400000) (mapend c + 0x400000) (dataend c + 0x400000) (allocend c + 0x400000)
    (mapalign c) (mapoff c) (prot c).
Definition offset_lib : object :=
  mkObj "liboffset.so" 3 None (mkEhdr 64 11) (shifted (o_first (lib "" 0))) (map shifted (tail cmds)) 0xd000 true.
Definition s3 : kst := run offset_lib s0.
Definition offset_code : Z := sm_addr (k_l s3) + ms_mapstart (o_exec offset_lib).

Lemma offset_object_misplaced :
  load kernel 0x1000 true offset_lib s0 = Ret None s3 /\
  offset_code + ms_size (o_exec offset_lib) <= sm_exec_start (k_l s3) /\
  masked (sm_exec_start (k_l s3)) (sm_exec_end (k_l s3)) offset_code <> offset_code.
Proof. split; [vm_compute; reflexivity|]. split; vm_compute; discriminate. Qed.

(** Why it bounds the code: a library of 512 MiB of code loaded first, and a small one
    after it.  The gap of 256 MiB between them is smaller than what the mask of the first
    can reach below its image: the last byte of the second one's code is a
    target of its indirect calls. *)
Definition large_lib : object :=
  mkObj "liblarge.so" 3 None (mkEhdr 64 11) (mkLoad 0 0x3000 0x2a00 0x2a00 0x1000 0 PROT_READ)
    [mkLoad 0x3000 0x20004000 0x20003b00 0x20003b00 0x1000 0x3000 (PROT_READ + PROT_EXEC)] 0x20004000 true.
Definition s4 : kst := run large_lib s0.
Definition s5 : kst := run (lib "libsecond.so" 4) s4.

Lemma large_object_overlaps :
  load kernel 0x1000 true large_lib s0 = Ret None s4 /\
  load kernel 0x1000 true (lib "libsecond.so" 4) s4 = Ret None s5 /\
  masked (sm_exec_start (k_l s4)) (sm_exec_end (k_l s4)) (sm_exec_end (k_l s5)) = sm_exec_end (k_l s5).
Proof. split; [|split]; vm_compute; reflexivity. Qed.

End Example2.
