(* ===== verification/MainImage.v ===== *)
(** * Moving the main program

    [_dl_sysdep_parse_arguments] of [sysdeps/unix/sysv/linux/dl-sysdep.c]: the
    kernel's argument block is taken apart, and PLaTypus copies the program the kernel has
    mapped to an address where masks can describe its code.  The kernel is the
    parameter of [MapSegments]; the program headers in memory are parameters too. *)

From S2P Require Import Prelude Mask MapSegments.

(** ** The argument block: argc, argv, NULL, environ, NULL, auxv *)
Definition AT_NULL : Z := 0.
Definition AT_PHDR : Z := 3.
Definition AT_PHNUM : Z := 5.
Definition AT_PAGESZ : Z := 6.
Definition AT_ENTRY : Z := 9.
Definition AT_MINSIGSTKSZ : Z := 51.

(** The words after the first NULL; the scan has no end of its own. *)
Fixpoint after_null (ws : list Z) : res (list Z) :=
  match ws with
  | [] => Undef
  | w :: ws' => if w =? 0 then Ok ws' else after_null ws'
  end.

(** The entries of the auxiliary vector, up to [AT_NULL]. *)
Fixpoint auxv_entries (ws : list Z) : res (list (Z * Z)) :=
  match ws with
  | ty :: val :: ws' =>
      if ty =? AT_NULL then Ok [] else r ← auxv_entries ws'; mret ((ty, val) :: r)
  | [ty] => if ty =? AT_NULL then Ok [] else Undef
  | [] => Undef
  end.

(** [_dl_parse_auxv]: a later entry replaces an earlier one and the default. *)
Fixpoint auxv_value (av : list (Z * Z)) (ty dflt : Z) : Z :=
  match av with
  | [] => dflt
  | (t, v) :: av' => auxv_value av' ty (if (t <=? AT_MINSIGSTKSZ) && (t =? ty) then v else dflt)
  end.

Definition find_auxv (start_argptr : list Z) : res (list (Z * Z)) :=
  match start_argptr with
  | [] => Undef
  | argc :: ws =>
      if (argc <? 0) || (Z.of_nat (length ws) <? argc + 1) then Undef
      else rest ← after_null (drop (Z.to_nat (argc + 1)) ws); auxv_entries rest
  end.

(** ** Program headers *)
Definition PT_LOAD : Z := 1.
Definition PT_PHDR : Z := 6.
Definition PF_X : Z := 1.
Definition PF_W : Z := 2.
Definition PF_R : Z := 4.
Record phdr := mkPhdr { p_type : Z; p_flags : Z; p_vaddr : Z; p_memsz : Z }.

Definition get_protection_flags (flags : Z) : Z :=
  let prot := 0 in
  let prot := if Z.land flags PF_R =? 0 then prot else Z.lor prot PROT_READ in
  let prot := if Z.land flags PF_W =? 0 then prot else Z.lor prot PROT_WRITE in
  if Z.land flags PF_X =? 0 then prot else Z.lor prot PROT_EXEC.

(** What the loop over the program headers computes; [init_addr] has no value
    until a PT_PHDR entry was seen. *)
Record scan_st := mkScan {
  init_addr : option Z; sc_start : Z; sc_end : Z; sc_contiguous : bool; sc_expected : Z;
  sc_exec : option mitig_struct; sc_mitigate : bool }.

Definition scan0 : scan_st := mkScan None (2 ^ 64 - 1) 0 true 0 None false.

Definition scan_phdr (pagesize phdr_addr : Z) (s : scan_st) (ph : phdr) : res scan_st :=
  if p_type ph =? PT_PHDR then
    Ok (mkScan (Some (u64 (phdr_addr - p_vaddr ph))) (sc_start s) (sc_end s) (sc_contiguous s)
          (sc_expected s) (sc_exec s) true)
  else if p_type ph =? PT_LOAD then
    init ← res_of_option (init_addr s);
    let mapstart := u64 (init + Z.land (p_vaddr ph) (u64 (- pagesize))) in
    let start := if mapstart <? sc_start s then mapstart else sc_start s in
    let contiguous := if sc_contiguous s && negb (sc_expected s =? 0) && negb (sc_expected s =? mapstart)
                      then false else sc_contiguous s in
    let allocend := u64 (init + p_vaddr ph + p_memsz ph) in
    let stop := if sc_end s <? allocend then allocend else sc_end s in
    let expected := Z.land (u64 (allocend + pagesize - 1)) (u64 (- pagesize)) in
    let exec := match sc_exec s with
                | None => if Z.land (p_flags ph) PF_X =? 0 then None
                          else Some (mkMitig (u32 (allocend - mapstart)) mapstart)
                | e => e
                end in
    Ok (mkScan (Some init) start stop contiguous expected exec (sc_mitigate s))
  else Ok s.

Fixpoint scan_phdrs (pagesize phdr_addr : Z) (s : scan_st) (phs : list phdr) : res scan_st :=
  match phs with
  | [] => Ok s
  | ph :: phs' => s' ← scan_phdr pagesize phdr_addr s ph; scan_phdrs pagesize phdr_addr s' phs'
  end.

(** [size + 0x1000 - size % 0x1000], in 32 bits. *)
Definition round_size (size : Z) : Z := u32 (size + 0x1000 - size mod 0x1000).

Record dl_main_arguments := mkArgs {
  a_phdr : Z; a_phnum : Z; a_user_entry : Z; a_exec_start : Z; a_exec_end : Z; to_mitigate : bool }.

Section Move.
Context (kernel : list event -> event -> Z).
(** The program headers at an address, and the file header of the image at one. *)
Context (phdrs_at : Z -> Z -> list phdr) (ehdr_at : Z -> ehdr).
(** The loader's own entry point, and the page size when the kernel passes none. *)
Context (ENTRY_POINT : Z) (EXEC_PAGESIZE : Z).

(** The protections of the copy. *)
Fixpoint protect_copy (new_addr : Z) (phs : list phdr) : M kst unit :=
  match phs with
  | [] => mret tt
  | ph :: phs' =>
      (if p_type ph =? PT_LOAD then
         let seg_addr := u64 (u64 (new_addr + p_vaddr ph) - p_vaddr ph mod 0x1000) in
         let seg_size := u64 (p_memsz ph + p_vaddr ph mod 0x1000) in
         let seg_size := u64 (u64 (seg_size + 0x1000) - seg_size mod 0x1000) in
         _ ← sys kernel (Mprotect seg_addr seg_size (get_protection_flags (p_flags ph))); mret tt
       else mret tt);;
      protect_copy new_addr phs'
  end.

Definition move_image (args : dl_main_arguments) (pagesize : Z) : M kst dl_main_arguments :=
  s ← lift (scan_phdrs pagesize (a_phdr args) scan0 (phdrs_at (a_phdr args) (a_phnum args)));
  init ← lift (res_of_option (init_addr s));
  let exec := default (mkMitig 0 0) (sc_exec s) in
  let size := round_size (ms_size exec) in
  pl ← lift (place (u64 (ms_mapstart exec - 0x10000000)) size);
  let pref := u64 (pl_start pl - u64 (ms_mapstart exec - init)) in
  let len := u64 (sc_end s - sc_start s) in
  new_addr ← sys kernel (Mmap pref len 3 (Z.lor MAP_PRIVATE MAP_ANONYMOUS) (-1) 0);
  _ ← sys kernel (Memcpy new_addr init len);
  let eh := ehdr_at init in
  protect_copy new_addr (phdrs_at (u64 (init + e_phoff eh)) (e_phnum eh));;
  _ ← sys kernel (Munmap init (sc_end s));
  mret (mkArgs (u64 (a_phdr args - init + new_addr)) (a_phnum args)
          (u64 (a_user_entry args - init + new_addr)) (l_exec_start pl) (l_exec_end pl) (sc_mitigate s)).

Definition _dl_sysdep_parse_arguments (start_argptr : list Z) : M kst dl_main_arguments :=
  av ← lift (find_auxv start_argptr);
  let args := mkArgs (auxv_value av AT_PHDR 0) (u32 (auxv_value av AT_PHNUM 0))
                (auxv_value av AT_ENTRY ENTRY_POINT) 0 0 false in
  if a_user_entry args =? ENTRY_POINT then mret args
  else move_image args (auxv_value av AT_PAGESZ EXEC_PAGESIZE).

End Move.

(** ** Lemmas *)
Lemma round_size_spec size :
  0 < size < 2 ^ 32 - 0x1000 -> code_size (round_size size) /\ size < round_size size <= size + 0x1000.
Proof.
  intros Hs. unfold round_size. pose proof (Z.mod_pos_bound size 0x1000).
  pose proof (Z.div_mod size 0x1000). rewrite u32_small by lia.
  split; [|lia]. split; [lia|]. apply Z.mod_divide; [lia|]. exists (size / 0x1000 + 1). lia.
Qed.

(** What is asked for the segments of the copy: whole pages, with the segment's own permissions. *)
Definition protections (new_addr : Z) (phs : list phdr) : list event :=
  (fun ph =>
     let seg_size := u64 (p_memsz ph + p_vaddr ph mod 0x1000) in
     Mprotect (u64 (u64 (new_addr + p_vaddr ph) - p_vaddr ph mod 0x1000))
       (u64 (u64 (seg_size + 0x1000) - seg_size mod 0x1000)) (get_protection_flags (p_flags ph))) <$>
  filter (fun ph => p_type ph = PT_LOAD) phs.

Lemma protect_copy_run kernel new_addr phs s :
  protect_copy kernel new_addr phs s =
  Ret tt (mkK (k_l s) (k_addr s) (k_to_load s) (k_trace s ++ protections new_addr phs)).
Proof.
  revert s. induction phs as [|ph phs IH]; intros s; cbn [protect_copy].
  - unfold protections. cbn. rewrite app_nil_r. by destruct s.
  - unfold protections in *. rewrite filter_cons.
    destruct (Z.eqb_spec (p_type ph) PT_LOAD) as [Ht|Ht].
    + rewrite decide_True by done. unfold mbind, M_bind, sys. cbn [mret M_ret].
      rewrite IH. cbn [k_l k_addr k_to_load k_trace fmap list_fmap]. by rewrite <- app_assoc.
    + rewrite decide_False by done. apply IH.
Qed.

(** A program whose headers were found is one to mitigate. *)
Lemma scan_mitigates pagesize a phs : forall s s', scan_phdrs pagesize a s phs = Ok s' ->
  (is_Some (init_addr s) -> sc_mitigate s = true) -> is_Some (init_addr s') -> sc_mitigate s' = true.
Proof.
  induction phs as [|ph phs IH]; intros s s' H Hs; cbn [scan_phdrs] in H; [by injection H as <-|].
  apply bind_Ok_inv in H as (s1 & H1 & H). apply (IH _ _ H). unfold scan_phdr in H1.
  destruct (p_type ph =? PT_PHDR); [by injection H1 as <-|].
  destruct (p_type ph =? PT_LOAD); [|by injection H1 as <-].
  apply bind_Ok_inv in H1 as (i & Hi & H1). injection H1 as <-. cbn. intros _. apply Hs.
  destruct (init_addr s); [done|discriminate].
Qed.

Section Moved.
Context (kernel : list event -> event -> Z) (phdrs_at : Z -> Z -> list phdr) (ehdr_at : Z -> ehdr).
Context (args : dl_main_arguments) (pagesize : Z) (st : kst) (s : scan_st) (init : Z) (exec : mitig_struct).
Context (Hscan : scan_phdrs pagesize (a_phdr args) scan0 (phdrs_at (a_phdr args) (a_phnum args)) = Ok s).
Context (Hinit : init_addr s = Some init) (Hexec : sc_exec s = Some exec).

(** The request for the copy, and the run of [move_image] after it. *)
Lemma move_image_run pl :
  place (u64 (ms_mapstart exec - 0x10000000)) (round_size (ms_size exec)) = Ok pl ->
  let pref := u64 (pl_start pl - u64 (ms_mapstart exec - init)) in
  let len := u64 (sc_end s - sc_start s) in
  let new := kernel (k_trace st) (Mmap pref len 3 (Z.lor MAP_PRIVATE MAP_ANONYMOUS) (-1) 0) in
  let eh := ehdr_at init in
  move_image kernel phdrs_at ehdr_at args pagesize st =
    Ret (mkArgs (u64 (a_phdr args - init + new)) (a_phnum args)
           (u64 (a_user_entry args - init + new)) (l_exec_start pl) (l_exec_end pl) (sc_mitigate s))
      (mkK (k_l st) (k_addr st) (k_to_load st)
         (k_trace st ++ [Mmap pref len 3 (Z.lor MAP_PRIVATE MAP_ANONYMOUS) (-1) 0; Memcpy new init len] ++
          protections new (phdrs_at (u64 (init + e_phoff eh)) (e_phnum eh)) ++ [Munmap init (sc_end s)])).
Proof.
  intros Hpl pref len new eh. unfold move_image.
  rewrite (M_bind_step _ _ _ s st) by (unfold lift; by rewrite Hscan).
  rewrite (M_bind_step _ _ _ init st) by (unfold lift, res_of_option; by rewrite Hinit).
  rewrite Hexec. cbn [default]. unfold default. cbn [id].
  rewrite (M_bind_step _ _ _ pl st) by (unfold lift; by rewrite Hpl).
  fold pref len. unfold mbind, M_bind, sys. cbn [k_trace]. fold new.
  rewrite protect_copy_run. cbn [k_trace k_l k_addr k_to_load mret M_ret]. by rewrite <- !app_assoc.
Qed.

End Moved.

(** ** The theorems *)

(** C8.  The main program is confined like a library.  Let the argument block be well
    formed, the program not be the loader itself, its program headers contain a PT_PHDR entry in front
    of the PT_LOAD entries, its first executable segment lie between 2^34 and 2^48, be
    smaller than 4 GiB less a page and start at most 256 MiB behind the image, and let the kernel grant the
    address that is asked for.  Then [_dl_sysdep_parse_arguments] makes exactly these calls, in this order:
    it maps the copy, copies the image from its start to it, gives every PT_LOAD segment of
    the copy its permissions and unmaps (a range at) the old image; the program headers and the entry
    point handed on are those of the copy and mitigation is switched on; calls to the code in the copy are
    not changed by the masks; and no instrumented call leaves the window, which lies more
    than 256 MiB below the old code. *)
Theorem main_program_confined kernel phdrs_at ehdr_at ENTRY_POINT EXEC_PAGESIZE block av st s init exec :
  let phdr := auxv_value av AT_PHDR 0 in
  let entry := auxv_value av AT_ENTRY ENTRY_POINT in
  let len := u64 (sc_end s - sc_start s) in
  find_auxv block = Ok av -> entry <> ENTRY_POINT ->
  scan_phdrs (auxv_value av AT_PAGESZ EXEC_PAGESIZE) phdr scan0 (phdrs_at phdr (u32 (auxv_value av AT_PHNUM 0))) = Ok s ->
  init_addr s = Some init -> sc_exec s = Some exec ->
  0 <= init <= ms_mapstart exec -> ms_mapstart exec < 2 ^ 48 -> 2 ^ 34 <= ms_mapstart exec ->
  0 < ms_size exec < 2 ^ 32 - 0x1000 -> ms_mapstart exec - init <= 2 ^ 28 ->
  (forall h a l, kernel h (Mmap a l 3 (Z.lor MAP_PRIVATE MAP_ANONYMOUS) (-1) 0) = a) ->
  exists args' st' new,
    _dl_sysdep_parse_arguments kernel phdrs_at ehdr_at ENTRY_POINT EXEC_PAGESIZE block st = Ret args' st' /\
    k_trace st' = k_trace st ++
      [Mmap new len 3 (Z.lor MAP_PRIVATE MAP_ANONYMOUS) (-1) 0; Memcpy new init len] ++
      protections new (phdrs_at (u64 (init + e_phoff (ehdr_at init))) (e_phnum (ehdr_at init))) ++
      [Munmap init (sc_end s)] /\
    a_phdr args' = u64 (phdr - init + new) /\ a_user_entry args' = u64 (entry - init + new) /\
    to_mitigate args' = true /\
    (forall t, new + (ms_mapstart exec - init) <= t < new + (ms_mapstart exec - init) + ms_size exec ->
       masked (a_exec_start args') (a_exec_end args') t = t) /\
    (forall t, a_exec_start args' <= masked (a_exec_start args') (a_exec_end args') t <= a_exec_end args') /\
    a_exec_end args' < ms_mapstart exec - 2 ^ 28.
Proof.
  intros phdr entry len Hav Hent Hscan Hinit Hexec Hi Hhi Hlo Hs Hoff Hk.
  destruct (round_size_spec (ms_size exec) Hs) as [Hc Hr].
  destruct (place_spec (ms_mapstart exec - 0x10000000) (round_size (ms_size exec)) Hc)
    as (top & Hpl & _ & Hkk & Ht & Hsz & Htop); [lia|].
  rewrite <- (u64_small (ms_mapstart exec - 0x10000000)) in Hpl by lia.
  pose proof (move_image_run kernel phdrs_at ehdr_at
    (mkArgs phdr (u32 (auxv_value av AT_PHNUM 0)) entry 0 0 false) _ st s init exec Hscan Hinit Hexec _ Hpl) as Hrun.
  cbn [pl_start l_exec_start l_exec_end a_phdr a_phnum a_user_entry] in Hrun. rewrite Hk in Hrun.
  eexists _, _, _. split.
  { unfold _dl_sysdep_parse_arguments. rewrite Hav. rewrite (M_bind_step _ _ _ av st) by done.
    cbn [a_user_entry]. fold entry phdr. rewrite (proj2 (Z.eqb_neq _ _) Hent). exact Hrun. }
  cbn [a_user_entry a_exec_start a_exec_end a_phdr to_mitigate k_trace]. split; [done|]. split; [done|]. split; [done|].
  split; [by eapply scan_mitigates; [exact Hscan|intros []|rewrite Hinit]|].
  assert (Hb : 2 ^ num_bits_required (round_size (ms_size exec)) <= 2 ^ 32)
    by (apply Z.pow_le_mono_r; [lia|apply num_bits_code, Hc]).
  rewrite (u64_small (ms_mapstart exec - init)), u64_small by (destruct Hc; lia).
  set (k := bitlen (round_size (ms_size exec) - 1)) in *.
  assert (Hk0 : 0 <= k) by apply bitlen_nonneg.
  split; [intros t Hw; apply masked_id; done || lia|].
  split; [intros t; by apply masked_window|lia].
Qed.

(**  The old image is not given back: the length passed to [munmap] is the
    end address of the image and not its size, so for a program the kernel mapped above
    [2 ^ 46], where position-independent programs go, the range ends beyond the
    address space of a process. *)
Theorem old_image_unmap_range kernel phdrs_at ehdr_at args pagesize st s init exec pl :
  scan_phdrs pagesize (a_phdr args) scan0 (phdrs_at (a_phdr args) (a_phnum args)) = Ok s ->
  init_addr s = Some init -> sc_exec s = Some exec ->
  place (u64 (ms_mapstart exec - 0x10000000)) (round_size (ms_size exec)) = Ok pl ->
  2 ^ 46 <= init < sc_end s ->
  exists args' st' tr len, move_image kernel phdrs_at ehdr_at args pagesize st = Ret args' st' /\
    k_trace st' = tr ++ [Munmap init len] /\ 2 ^ 47 < init + len.
Proof.
  intros Hscan Hinit Hexec Hpl Hi.
  pose proof (move_image_run kernel phdrs_at ehdr_at args pagesize st s init exec Hscan Hinit Hexec _ Hpl) as Hrun.
  eexists _, _, _, (sc_end s). split; [exact Hrun|]. split; [cbn [k_trace]; by rewrite !app_assoc|lia].
Qed.

(** ** A position-independent program *)
Module Example3.

Definition phs : list phdr :=
  [mkPhdr PT_PHDR PF_R 0x40 0x2d8; mkPhdr PT_LOAD PF_R 0 0x628;
   mkPhdr PT_LOAD (PF_R + PF_X) 0x1000 0x1b9; mkPhdr PT_LOAD (PF_R + PF_W) 0x3db8 0x260].
Definition phdrs_at (_ _ : Z) : list phdr := phs.
Definition ehdr_at (_ : Z) : ehdr := mkEhdr 0x40 13.
Definition kernel (_ : list event) (e : event) : Z := match e with Mmap a _ _ _ _ _ => a | _ => 0 end.
Definition args : dl_main_arguments := mkArgs 0x555555554040 13 0x555555555060 0 0 false.
Definition scanned : scan_st :=
  match scan_phdrs 0x1000 0x555555554040 scan0 phs with Ok s => s | _ => scan0 end.

(** The kernel's argument block of this program, started without arguments. *)
Definition block : list Z :=
  [1; 0x7ffd00001000; 0; 0x7ffd00002000; 0;
   AT_PHDR; 0x555555554040; AT_PHNUM; 13; AT_PAGESZ; 0x1000; AT_ENTRY; 0x555555555060; AT_NULL; 0].
Definition av : list (Z * Z) := [(AT_PHDR, 0x555555554040); (AT_PHNUM, 13); (AT_PAGESZ, 0x1000); (AT_ENTRY, 0x555555555060)].

Lemma main_program_confined_witness :
  exists args' st' new,
    _dl_sysdep_parse_arguments kernel phdrs_at ehdr_at 0x7ffff7fe4000 0x1000 block Example2.s0 = Ret args' st' /\
    k_trace st' =
      [Mmap new 0x4018 3 0x22 (-1) 0; Memcpy new 0x555555554000 0x4018] ++
      protections new phs ++ [Munmap 0x555555554000 0x555555558018] /\
    a_phdr args' = u64 (0x555555554040 - 0x555555554000 + new) /\
    a_user_entry args' = u64 (0x555555555060 - 0x555555554000 + new) /\
    to_mitigate args' = true /\
    (forall t, new + 0x1000 <= t < new + 0x1000 + 0x1b9 ->
       masked (a_exec_start args') (a_exec_end args') t = t) /\
    (forall t, a_exec_start args' <= masked (a_exec_start args') (a_exec_end args') t <= a_exec_end args') /\
    a_exec_end args' < 0x555555555000 - 2 ^ 28.
Proof.
  apply (main_program_confined kernel phdrs_at ehdr_at 0x7ffff7fe4000 0x1000 block av Example2.s0 scanned 0x555555554000
           (mkMitig 0x1b9 0x555555555000)); try (cbn [ms_mapstart ms_size]; lia); try reflexivity; vm_compute; discriminate.
Defined.

Lemma old_image_unmap_range_witness :
  exists args' st' tr len, move_image kernel phdrs_at ehdr_at args 0x1000 Example2.s0 = Ret args' st' /\
    k_trace st' = tr ++ [Munmap 0x555555554000 len] /\ 2 ^ 47 < 0x555555554000 + len.
Proof.
  apply (old_image_unmap_range kernel phdrs_at ehdr_at args 0x1000 Example2.s0 scanned 0x555555554000
           (mkMitig 0x1b9 0x555555555000) (mkPlace 0x55554554f000 0x55554554f000 0x55554554ffff)).
  - reflexivity.
  - reflexivity.
  - reflexivity.
  - vm_compute. reflexivity.
  - vm_compute. split; [discriminate|reflexivity].
Defined.

End Example3.
