(* ===== verification/ElfHash.v ===== *)
(** * The symbol-name hash functions of the loader

    [sysdeps/generic/dl-new-hash.h] ([_dl_new_hash], the hash of the GNU hash
    section, unrolled two characters at a time) and [sysdeps/generic/dl-hash.h]
    ([_dl_elf_hash], the hash of the System V ABI, with the masking lifted out
    of the loop), each with the reference algorithm its comment names. *)

From S2P Require Import Prelude.

Module NewHash.

(** The loop of [_dl_new_hash]: two characters per round, an odd last
    character in the early return. *)
Fixpoint loop (h : Z) (s : list Z) : Z :=
  match s with
  | [] => h
  | [c0] =>
      let c0 := u32 (c0 + h) in
      u32 (u32 (h * 32) + c0)
  | c0 :: c1 :: s' =>
      let c1 := u32 (c1 + c0) in
      let h := u32 (h * (33 * 33)) in
      let c1 := u32 (c1 + u32 (c0 * 32)) in
      let h := u32 (h + c1) in
      loop h s'
  end.

Definition _dl_new_hash (str : string) : Z := loop 5381 (bytes_of str).

(** The "simplest implementation" of the comment: [h = h * 33 + c]. *)
Definition simple_hash (str : string) : Z :=
  fold_left (fun h c => u32 (h * 33 + c)) (bytes_of str) 5381.

Lemma loop_simple s h :
  0 <= h < 2 ^ 32 -> loop h s = fold_left (fun h c => u32 (h * 33 + c)) s h.
Proof.
  revert h. induction s as [s IH] using (well_founded_induction
    (Wf_nat.well_founded_ltof _ (@length Z))); intros h Hh.
  destruct s as [|c0 [|c1 s]]; [done|simpl|simpl].
  - autorewrite with cres. f_equal. lia.
  - rewrite IH; [|unfold Wf_nat.ltof; simpl; lia|apply u32_bound].
    f_equal. autorewrite with cres. 
    rewrite <- (u32_add_l (u32 (h * 33 + c0) * 33) c1), u32_mul_l, u32_add_l.
    rewrite Z.add_assoc, u32_add_r, Z.add_comm, Z.add_assoc, u32_add_r. f_equal. lia.
Qed.

Lemma new_hash_range str : 0 <= _dl_new_hash str < 2 ^ 32.
Proof.
  unfold _dl_new_hash. rewrite loop_simple by lia.
  generalize (bytes_of str) as s. intros s.
  assert (H : 0 <= 5381 < 2 ^ 32) by lia. revert H. generalize 5381.
  induction s as [|c s IH]; simpl; intros h Hh; [done|].
  apply IH, u32_bound.
Qed.

(** [_dl_new_hash] computes the same value as the simple loop of the comment
    above it, for every name. *)
Theorem new_hash_unrolled : forall str, _dl_new_hash str = simple_hash str.
Proof. intros str. apply loop_simple. lia. Qed.

Example new_hash_printf : _dl_new_hash "printf" = 0x156b2bb8.
Proof. reflexivity. Qed.

End NewHash.

Module SysvHash.

(** One round of the optimised loop: [hash] is an [unsigned long int]. *)
Definition round (hash c : Z) : Z :=
  let hash := u64 (Z.shiftl hash 4 + c) in
  let hi := Z.land hash 0xf0000000 in
  Z.lxor hash (Z.shiftr hi 24).

Definition _dl_elf_hash (name : string) : Z :=
  match bytes_of name with
  | [] => 0
  | [c0] => c0
  | [c0; c1] => u64 (Z.shiftl c0 4 + c1)
  | [c0; c1; c2] =>
      u64 (Z.shiftl (u64 (Z.shiftl c0 4 + c1)) 4 + c2)
  | [c0; c1; c2; c3] =>
      u64 (Z.shiftl (u64 (Z.shiftl (u64 (Z.shiftl c0 4 + c1)) 4 + c2)) 4 + c3)
  | c0 :: c1 :: c2 :: c3 :: c4 :: name =>
      let hash := u64 (Z.shiftl (u64 (Z.shiftl (u64 (Z.shiftl (u64
                    (Z.shiftl c0 4 + c1)) 4 + c2)) 4 + c3)) 4 + c4) in
      Z.land (fold_left round name hash) 0x0fffffff
  end.

(** The algorithm of the ABI, on 32-bit unsigned arithmetic:
    [h = (h << 4) + c; if (g = h & 0xf0000000) h ^= g >> 24; h &= ~g]. *)
Definition abi_round (h c : Z) : Z :=
  let h := u32 (Z.shiftl h 4 + c) in
  let g := Z.land h 0xf0000000 in
  let h := if g =? 0 then h else Z.lxor h (Z.shiftr g 24) in
  Z.ldiff h g.

Definition abi_hash (name : string) : Z := fold_left abi_round (bytes_of name) 0.

Lemma land_28 x : Z.land x 0x0fffffff = x mod 2 ^ 28.
Proof. change 0x0fffffff with (Z.ones 28). apply Z.land_ones. lia. Qed.

Lemma testbit_hi i : 0 <= i -> Z.testbit 0xf0000000 i = (28 <=? i) && (i <? 32).
Proof.
  intros Hi. change 0xf0000000 with (Z.shiftl (Z.ones 4) 28).
  destruct (Z.leb_spec 28 i); simpl.
  - rewrite Z.shiftl_spec by lia. destruct (Z.ltb_spec i 32).
    + apply Z.ones_spec_low. lia.
    + apply Z.ones_spec_high. lia.
  - apply Z.shiftl_spec_low. lia.
Qed.

(** A round of the code and of the ABI agree on the low 28 bits: they only look at
    the low 32 bits of the shifted hash. *)
Lemma round_low h c : round h c mod 2 ^ 28 = abi_round h c.
Proof.
  unfold round, abi_round.
  set (t64 := u64 (Z.shiftl h 4 + c)). set (t32 := u32 (Z.shiftl h 4 + c)).
  assert (Ht : forall i, 0 <= i < 32 -> Z.testbit t64 i = Z.testbit t32 i).
  { intros i Hi. unfold t64, t32, u64, u32.
    rewrite !Z.mod_pow2_bits_low by lia. done. }
  assert (Hhi : forall i, 32 <= i -> Z.testbit t32 i = false).
  { intros i Hi. apply Z.mod_pow2_bits_high. lia. }
  assert (Hg : Z.land t64 0xf0000000 = Z.land t32 0xf0000000).
  { apply Z.bits_inj'. intros i Hi. rewrite !Z.land_spec, testbit_hi by lia.
    destruct (Z.leb_spec 28 i), (Z.ltb_spec i 32); simpl;
      rewrite ?andb_false_r, ?andb_true_r; auto with lia. }
  replace (if Z.land t32 0xf0000000 =? 0 then t32
           else Z.lxor t32 (Z.shiftr (Z.land t32 0xf0000000) 24))
    with (Z.lxor t32 (Z.shiftr (Z.land t32 0xf0000000) 24)).
  2:{ destruct (Z.eqb_spec (Z.land t32 0xf0000000) 0) as [->|]; [|done].
      by rewrite Z.shiftr_0_l, Z.lxor_0_r. }
  rewrite Hg. apply Z.bits_inj'. intros i Hi.
  rewrite Z.ldiff_spec, Z.lxor_spec, Z.shiftr_spec, !Z.land_spec, !testbit_hi by lia.
  destruct (Z.lt_ge_cases i 28) as [Hl|Hl].
  - rewrite Z.mod_pow2_bits_low, Z.lxor_spec, Z.shiftr_spec, Z.land_spec, testbit_hi by lia.
    rewrite (Ht i) by lia.
    rewrite (proj2 (Z.leb_gt 28 i)) by lia.
    by rewrite andb_false_r, andb_true_r.
  - rewrite Z.mod_pow2_bits_high by lia.
    destruct (Z.ltb_spec i 32).
    + rewrite (proj2 (Z.leb_le 28 i)), (proj2 (Z.ltb_ge (i + 24) 32)) by lia.
      by rewrite !andb_false_r, xorb_false_r, !andb_true_r, andb_negb_r.
    + by rewrite (Hhi i), (Hhi (i + 24)) by lia.
Qed.

Lemma abi_round_ext h h' c : h mod 2 ^ 28 = h' mod 2 ^ 28 -> abi_round h c = abi_round h' c.
Proof.
  intros H. unfold abi_round.
  replace (u32 (Z.shiftl h 4 + c)) with (u32 (Z.shiftl h' 4 + c)); [done|].
  unfold u32. rewrite !Z.shiftl_mul_pow2 by lia.
  pose proof (Z.div_mod h (2 ^ 28)). pose proof (Z.div_mod h' (2 ^ 28)).
  replace (h * 2 ^ 4 + c) with
    ((h' * 2 ^ 4 + c) + (h / 2 ^ 28 - h' / 2 ^ 28) * 2 ^ 32) by lia.
  by rewrite Z_mod_plus_full.
Qed.

Lemma loop_low s h h' :
  h mod 2 ^ 28 = h' mod 2 ^ 28 ->
  fold_left round s h mod 2 ^ 28 = fold_left abi_round s h' mod 2 ^ 28.
Proof.
  revert h h'. induction s as [|c s IH]; intros h h' H; simpl; [done|].
  apply IH. rewrite round_low, (abi_round_ext h h' c H), <- round_low.
  by rewrite Z.mod_mod by lia.
Qed.

(** While no bit reaches position 28 a round is a plain shift and add. *)
Lemma abi_round_small h c :
  0 <= h < 2 ^ 24 - 16 -> 0 <= c < 256 -> abi_round h c = 16 * h + c.
Proof.
  intros Hh Hc. rewrite <- round_low. unfold round.
  rewrite Z.shiftl_mul_pow2 by lia. rewrite u64_small by lia.
  replace (Z.land (h * 2 ^ 4 + c) 0xf0000000) with 0.
  - rewrite Z.shiftr_0_l, Z.lxor_0_r, Z.mod_small by lia. lia.
  - symmetry. apply Z.bits_inj'. intros i Hi. rewrite Z.land_spec, testbit_hi, Z.bits_0 by lia.
    destruct (Z.leb_spec 28 i); [|by rewrite andb_false_r].
    rewrite <- (Z.mod_small (h * 2 ^ 4 + c) (2 ^ 28)) by lia.
    by rewrite Z.mod_pow2_bits_high by lia.
Qed.

Lemma abi_mod s h :
  0 <= h < 2 ^ 28 -> fold_left abi_round s h mod 2 ^ 28 = fold_left abi_round s h.
Proof.
  intros Hh. apply Z.mod_small. revert h Hh.
  induction s as [|c s IH]; intros h Hh; simpl; [done|].
  apply IH. rewrite <- round_low. apply Z.mod_pos_bound. lia.
Qed.

Lemma step_small h c :
  0 <= h < 2 ^ 59 -> 0 <= c < 256 -> u64 (Z.shiftl h 4 + c) = 16 * h + c.
Proof. intros Hh Hc. rewrite Z.shiftl_mul_pow2, u64_small by lia. lia. Qed.

(** C40. [_dl_elf_hash], which handles the first five characters without a mask and
    lifts the clearing of the high bits out of its loop, computes the hash of
    the System V ABI (on 32-bit unsigned integers) for every name. *)
Theorem elf_hash_is_abi_hash : forall name, _dl_elf_hash name = abi_hash name.
Proof.
  intros name. unfold _dl_elf_hash, abi_hash.
  pose proof (bytes_of_range name) as Hr. revert Hr. generalize (bytes_of name).
  intros l Hr.
  destruct l as [|c0 l]; [reflexivity|]. inversion Hr as [|? ? H0 Hr0]; subst.
  cbn [fold_left]. rewrite (abi_round_small 0 c0) by lia. rewrite Z.mul_0_r, Z.add_0_l.
  destruct l as [|c1 l]; [reflexivity|]. inversion Hr0 as [|? ? H1 Hr1]; subst.
  cbn [fold_left]. rewrite (abi_round_small c0 c1), (step_small c0 c1) by lia.
  set (h1 := 16 * c0 + c1). assert (Hh1 : 0 <= h1 < 2 ^ 13) by lia. clearbody h1.
  destruct l as [|c2 l]; [reflexivity|]. inversion Hr1 as [|? ? H2 Hr2]; subst.
  cbn [fold_left]. rewrite (abi_round_small h1 c2), (step_small h1 c2) by lia.
  set (h2 := 16 * h1 + c2). assert (Hh2 : 0 <= h2 < 2 ^ 17 + 2 ^ 8) by lia. clearbody h2.
  destruct l as [|c3 l]; [reflexivity|]. inversion Hr2 as [|? ? H3 Hr3]; subst.
  cbn [fold_left]. rewrite (abi_round_small h2 c3), (step_small h2 c3) by lia.
  set (h3 := 16 * h2 + c3). assert (Hh3 : 0 <= h3 < 2 ^ 22) by lia. clearbody h3.
  destruct l as [|c4 l]; [reflexivity|]. inversion Hr3 as [|? ? H4 Hr4]; subst.
  cbn [fold_left]. rewrite (abi_round_small h3 c4), (step_small h3 c4) by lia.
  set (h4 := 16 * h3 + c4). assert (Hh4 : 0 <= h4 < 2 ^ 27) by lia. clearbody h4.
  rewrite land_28, (loop_low l h4 h4 eq_refl). by apply abi_mod; lia.
Qed.

Example elf_hash_printf : _dl_elf_hash "printf" = 0x077905a6.
Proof. reflexivity. Qed.

End SysvHash.
