(* ===== verification/Primes.v ===== *)
(** * Prime table sizes

    [_dl_higher_prime_number] of [elf/dl-misc.c] (binary search in a table of
    primes; it sizes the loader's table of unique symbols) and [isprime] of
    [misc/hsearch_r.c] (trial division; it sizes the tables of [hcreate_r]).
    Both tables are probed by double hashing, which reaches every slot because
    the size is prime. *)

From S2P Require Import Prelude.
From Stdlib Require Import Zdivisibility.

Module IsPrime.

(** [for (div = 3; div <= number / div; div += 2)
       if (number % div == 0) return 0;
     return 1;] *)
Fixpoint loop (fuel : nat) (number div : Z) : res bool :=
  match fuel with
  | O => Diverge
  | S fuel =>
      if div <=? number / div then
        if number mod div =? 0 then Ok false
        else loop fuel number (u32 (div + 2))
      else Ok true
  end.

(** The loop stops at the square root: half of it bounds the rounds. *)
Definition rounds (number : Z) : nat := Z.to_nat (Z.sqrt number / 2 + 2).

Definition isprime (number : Z) : res bool := loop (rounds number) number 3.

Lemma no_divisor_prime n :
  1 < n -> (forall d, 2 <= d -> d * d <= n -> ~ (d | n)) -> Z.prime n.
Proof.
  intros Hn Hd. split; [lia|]. intros d Hlt Hdiv.
  destruct (Z.le_gt_cases (d * d) n); [by apply (Hd d); try lia|].
  destruct Hdiv as [q Hq]. apply (Hd q); [nia|nia|]. exists d. lia.
Qed.

Definition odd_free (n div : Z) : Prop :=
  forall d, 2 <= d < div -> ~ (d | n).

Lemma loop_spec fuel n div :
  0 <= n < 2 ^ 32 -> 3 <= n -> 3 <= div -> Z.odd n = true -> Z.odd div = true ->
  odd_free n div -> Z.sqrt n + 2 < div + 2 * Z.of_nat fuel -> div <= Z.sqrt n + 2 ->
  exists b, loop fuel n div = Ok b /\ (b = true <-> Z.prime n).
Proof.
  revert div. induction fuel as [|fuel IH]; intros div Hn Hn3 Hdiv Ho Hodd Hfree Hf Hs; [lia|].
  pose proof (Z.sqrt_spec n ltac:(lia)) as Hsq.
  simpl. destruct (Z.leb_spec div (n / div)) as [Hle|Hgt].
  - assert (div * div <= n).
    { pose proof (Z.mul_div_le n div ltac:(lia)). nia. }
    assert (div <= Z.sqrt n) by (apply Z.sqrt_le_square; lia).
    destruct (Z.eqb_spec (n mod div) 0) as [Hm|Hm].
    + exists false. split; [done|]. split; [done|]. intros Hp.
      destruct (proj2 Hp div); [nia|]. by apply Z.mod_divide; [lia|].
    + rewrite u32_small by nia. apply IH; try done; try lia.
      * by rewrite Z.odd_add, Hodd.
      * intros d Hd. destruct (Z.eq_dec d div) as [->|].
        { rewrite <- Z.mod_divide by lia. done. }
        destruct (Z.eq_dec d (div + 1)) as [->|]; [|apply Hfree; lia].
        intros [q Hq]. rewrite Hq, Z.odd_mul, Z.odd_add, Hodd in Ho.
        by rewrite andb_false_r in Ho.
  - exists true. split; [done|]. split; [intros _|done].
    apply no_divisor_prime; [lia|]. intros d Hd Hdd.
    apply Hfree. split; [lia|].
    assert (n < div * div). { pose proof (Z.mod_pos_bound n div). pose proof (Z.div_mod n div). nia. }
    nia.
Qed.

(** [isprime] terminates on every odd number from 3 up and decides primality. *)
Theorem isprime_correct n :
  3 <= n < 2 ^ 32 -> Z.odd n = true -> exists b, isprime n = Ok b /\ (b = true <-> Z.prime n).
Proof.
  intros Hn Ho. unfold isprime, rounds. apply loop_spec; try done; try lia.
  - intros d Hd. replace d with 2 by lia. intros [q ->].
    by rewrite Z.odd_mul, andb_false_r in Ho.
  - pose proof (Z.sqrt_nonneg n). pose proof (Z.div_mod (Z.sqrt n) 2 ltac:(lia)).
    pose proof (Z.mod_pos_bound (Z.sqrt n) 2 ltac:(lia)). lia.
  - apply Z.le_trans with (1 + 2); [lia|].
    enough (1 <= Z.sqrt n) by lia. apply Z.sqrt_le_square; lia.
Qed.

Lemma isprime_true n : 3 <= n < 2 ^ 32 -> Z.odd n = true -> isprime n = Ok true -> Z.prime n.
Proof.
  intros Hn Ho H. destruct (isprime_correct n Hn Ho) as (b & Hb & Hp).
  apply Hp. congruence.
Qed.

End IsPrime.

Module HigherPrime.

(** The table of the source. *)
Definition primes : list Z :=
  [7; 13; 31; 61; 127; 251; 509; 1021; 2039; 4093; 8191; 16381; 32749; 65521; 131071;
   262139; 524287; 1048573; 2097143; 4194301; 8388593; 16777213; 33554393; 67108859;
   134217689; 268435399; 536870909; 1073741789; 2147483647; 2147483647 + 2147483644].

(** [while (low != high)] with [mid = low + (high - low) / 2]; pointers into
    the table are indices. *)
Fixpoint bin_search (fuel : nat) (n low high : Z) : res Z :=
  match fuel with
  | O => Diverge
  | S fuel =>
      if low =? high then Ok low
      else
        let mid := low + (high - low) / 2 in
        p ← rd primes mid;
        if p <? n then bin_search fuel n (mid + 1) high
        else bin_search fuel n low mid
  end.

Definition n_primes : Z := 30.

Definition _dl_higher_prime_number (n : Z) : res Z :=
  low ← bin_search 31 n 0 n_primes; rd primes low.

Lemma primes_sorted : StronglySorted Z.lt primes.
Proof. repeat (constructor; [|repeat constructor; lia]). constructor. Qed.

Lemma bin_search_inv fuel n low high :
  0 <= low <= high -> high <= n_primes -> high - low < Z.of_nat fuel ->
  (forall i p, i < low -> rd primes i = Ok p -> p < n) ->
  (forall i p, high <= i -> rd primes i = Ok p -> n <= p) ->
  exists k, bin_search fuel n low high = Ok k /\ low <= k <= high /\
    (forall i p, i < k -> rd primes i = Ok p -> p < n) /\
    (forall i p, k <= i -> rd primes i = Ok p -> n <= p).
Proof.
  revert low high. induction fuel as [|fuel IH]; intros low high Hlh Hhi Hf Hlo Hge; [lia|].
  simpl. destruct (Z.eqb_spec low high) as [->|Hne]; [eauto 6 with lia|].
  set (mid := low + (high - low) / 2).
  assert (low <= mid < high).
  { unfold mid. pose proof (Z.div_mod (high - low) 2). pose proof (Z.mod_pos_bound (high - low) 2).
    split; [pose proof (Z.div_pos (high - low) 2)|]; lia. }
  destruct (rd_in_range primes mid) as [p Hp]; [unfold n_primes in *; simpl; lia|].
  rewrite Hp. simpl. pose proof primes_sorted as Hs. destruct (Z.ltb_spec p n).
  - destruct (IH (mid + 1) high) as (k & Hk & ? & Hk1 & Hk2); try lia; [|done|eauto 8 with lia].
    intros i q Hi Hq. destruct (Z.eq_dec i mid) as [->|]; [congruence|].
    pose proof (sorted_rd_lt _ _ i mid q p Hs Hq Hp ltac:(lia)). lia.
  - destruct (IH low mid) as (k & Hk & ? & Hk1 & Hk2); try lia; [done| |eauto 8 with lia].
    intros i q Hi Hq. destruct (Z.eq_dec i mid) as [->|]; [congruence|].
    pose proof (sorted_rd_lt _ _ mid i p q Hs Hp Hq ltac:(lia)). lia.
Qed.

Lemma primes_prime : Forall Z.prime primes.
Proof.
  apply Forall_forall. intros p Hp.
  assert (Hc : Forall (fun p => 3 <= p < 2 ^ 32 /\ Z.odd p = true
                               /\ IsPrime.isprime p = Ok true) primes).
  { repeat (constructor; [split; [lia|]; split; vm_compute; reflexivity|]). constructor. }
  rewrite Forall_forall in Hc. destruct (Hc p Hp) as (? & ? & ?).
  by apply IsPrime.isprime_true.
Qed.

(** [_dl_higher_prime_number] terminates and returns, for every request up to
    the largest entry of its table, the least prime of the table that is not
    below the request. *)
Theorem higher_prime_number_correct n :
  n <= 4294967291 ->
  exists p, _dl_higher_prime_number n = Ok p /\ Z.prime p /\ n <= p /\ 7 <= p < 2 ^ 32 /\
    forall q, q ∈ primes -> n <= q -> p <= q.
Proof.
  intros Hn. unfold _dl_higher_prime_number.
  destruct (bin_search_inv 31 n 0 n_primes) as (k & Hk & Hkr & Hlo & Hge);
    unfold n_primes in *; try lia.
  { intros i p Hi Hp%rd_Ok. lia. }
  { intros i p Hi [_ Hp%lookup_lt_Some]%rd_Ok. simpl in Hp. lia. }
  rewrite Hk. simpl. assert (k < 30).
  { destruct (Z.eq_dec k 30) as [->|]; [|lia].
    specialize (Hlo 29 4294967291 ltac:(lia) eq_refl). lia. }
  destruct (rd_in_range primes k) as [p Hp]; [simpl; lia|].
  exists p. split; [done|]. pose proof (proj1 (rd_Ok _ _ _) Hp) as [_ Hl].
  split; [by apply (Forall_lookup_1 _ _ _ _ primes_prime Hl)|]. split; [by apply (Hge k)|].
  split.
  - assert (Hb : Forall (fun p => 7 <= p < 2 ^ 32) primes) by (repeat constructor; lia).
    exact (Forall_lookup_1 _ _ _ _ Hb Hl).
  - intros q [i Hi]%list_elem_of_lookup Hnq. apply rd_nat in Hi.
    destruct (Z.lt_trichotomy (Z.of_nat i) k) as [Hlt|[Heq|Hgt]].
    + specialize (Hlo _ _ Hlt Hi). lia.
    + rewrite Heq, Hp in Hi. injection Hi as ->. lia.
    + pose proof (sorted_rd_lt _ _ _ _ _ _ primes_sorted Hp Hi Hgt). lia.
Qed.

(** Past the largest entry the search runs off the table (the check for it is
    compiled out), and the read of [*low] is out of bounds. *)
Theorem higher_prime_number_overrun n :
  4294967291 < n -> _dl_higher_prime_number n = Undef.
Proof.
  intros Hn. unfold _dl_higher_prime_number.
  destruct (bin_search_inv 31 n 0 n_primes) as (k & Hk & Hkr & Hlo & Hge);
    unfold n_primes in *; try lia.
  { intros i p Hi Hp%rd_Ok. lia. }
  { intros i p Hi [_ Hp%lookup_lt_Some]%rd_Ok. simpl in Hp. lia. }
  rewrite Hk. simpl. destruct (Z.eq_dec k 30) as [->|]; [done|].
  specialize (Hge 29 4294967291 ltac:(lia) eq_refl). lia.
Qed.

End HigherPrime.
