(* ===== verification/OpenAddr.v ===== *)
(** * Open addressing

    The contract the loader's table of unique symbols ([elf/dl-lookup.c]) and
    the tables of [hsearch_r] ([misc/hsearch_r.c]) rely on: a probe sequence
    that visits every slot once ([ProbeSeq]), and what walking it finds in a
    table whose entries are reachable ([reachable]). *)

From S2P Require Import Prelude.
From Stdlib Require Import Zdivisibility.

(** What a hash scheme promises to the table: [probe k j] is the slot looked
    at in round [j] for the key [k]. *)
Class ProbeSeq {K : Type} (size : nat) (probe : K -> nat -> nat) : Prop := {
  probe_lt : forall k j, (probe k j < size)%nat;
  probe_inj : forall k i j, (i < size)%nat -> (j < size)%nat ->
                probe k i = probe k j -> i = j }.

Section Walk.
Context {K V : Type} `{EqDecision K}.
Context (size : nat) (probe : K -> nat -> nat) `{!ProbeSeq size probe}.

Local Abbreviation table := (list (option (K * V))).

(** The outcome of a walk: the key's slot, the first free slot, or neither. *)
Inductive walk_result := Found (i : nat) (v : V) | Free (i : nat) | Full.

Fixpoint walk (fuel : nat) (t : table) (k : K) (j : nat) : walk_result :=
  match fuel with
  | O => Full
  | S fuel =>
      match t !! probe k j with
      | Some (Some (k', v)) => if decide (k' = k) then Found (probe k j) v
                               else walk fuel t k (S j)
      | _ => Free (probe k j)
      end
  end.

(** Every entry is met before a free slot when its own probe sequence is walked. *)
Definition reachable (t : table) : Prop :=
  forall i k v, t !! i = Some (Some (k, v)) ->
    exists j, (j < size)%nat /\ probe k j = i /\
      forall j', (j' < j)%nat -> exists k' v', t !! probe k j' = Some (Some (k', v')).

Definition keys_unique (t : table) : Prop :=
  forall i i' k v v', t !! i = Some (Some (k, v)) -> t !! i' = Some (Some (k, v')) -> i = i'.

Definition wf_table (t : table) : Prop :=
  length t = size /\ reachable t /\ keys_unique t.

Definition has_key (t : table) (k : K) : Prop := exists i v, t !! i = Some (Some (k, v)).

(** A probe sequence visits every slot. *)
Lemma probe_surj k i : (i < size)%nat -> exists j, (j < size)%nat /\ probe k j = i.
Proof.
  intros Hi.
  assert (Hin : i ∈ probe k <$> seq 0 size).
  { assert (Hp : seq 0 size ≡ₚ probe k <$> seq 0 size).
    { symmetry. apply submseteq_length_Permutation; [|by rewrite length_fmap].
      apply NoDup_submseteq.
      - apply NoDup_fmap_2_strong; [|apply NoDup_seq].
        intros x y Hx%elem_of_seq Hy%elem_of_seq. apply probe_inj; lia.
      - intros x (j & -> & Hj)%list_elem_of_fmap. apply elem_of_seq.
        pose proof (probe_lt k j). lia. }
    rewrite <- Hp. apply elem_of_seq. lia. }
  apply list_elem_of_fmap in Hin as (j & -> & Hj%elem_of_seq). exists j. split; [lia|done].
Qed.

(** Induction principle of the walk: all slots before the one it stops at are occupied by
    other keys. *)
Lemma walk_prefix fuel (t : table) k j :
  length t = size ->
  match walk fuel t k j with
  | Found i v => exists n, (n < fuel)%nat /\ i = probe k (j + n) /\ t !! i = Some (Some (k, v)) /\
      forall m, (m < n)%nat -> exists k' v', t !! probe k (j + m) = Some (Some (k', v')) /\ k' <> k
  | Free i => exists n, (n < fuel)%nat /\ i = probe k (j + n) /\ t !! i = Some None /\
      forall m, (m < n)%nat -> exists k' v', t !! probe k (j + m) = Some (Some (k', v')) /\ k' <> k
  | Full => forall m, (m < fuel)%nat -> exists k' v', t !! probe k (j + m) = Some (Some (k', v')) /\ k' <> k
  end.
Proof.
  intros Hlen. revert j. induction fuel as [|fuel IH]; intros j; simpl; [lia|].
  destruct (lookup_lt_is_Some_2 t (probe k j)) as [[[k' v]|] Ht].
  { rewrite Hlen. apply probe_lt. }
  - rewrite Ht. destruct (decide (k' = k)) as [->|Hne].
    + exists 0%nat. rewrite Nat.add_0_r. split; [lia|]. split; [done|]. split; [done|]. lia.
    + assert (Hstep : forall n, (forall m, (m < n)%nat -> exists k0 v0,
          t !! probe k (S j + m) = Some (Some (k0, v0)) /\ k0 <> k) ->
        forall m, (m < S n)%nat -> exists k0 v0, t !! probe k (j + m) = Some (Some (k0, v0)) /\ k0 <> k).
      { intros n Hn [|m] Hm; [rewrite Nat.add_0_r; eauto|].
        rewrite <- Nat.add_succ_comm. apply Hn. lia. }
      specialize (IH (S j)). destruct (walk fuel t k (S j)) as [i v'|i|].
      * destruct IH as (n & Hn & -> & Hi & Hp). exists (S n). rewrite <- Nat.add_succ_comm.
        split; [lia|]. split; [done|]. split; [done|]. by apply Hstep.
      * destruct IH as (n & Hn & -> & Hi & Hp). exists (S n). rewrite <- Nat.add_succ_comm.
        split; [lia|]. split; [done|]. split; [done|]. by apply Hstep.
      * intros m Hm. by apply (Hstep fuel).
  - rewrite Ht. exists 0%nat. rewrite Nat.add_0_r. split; [lia|]. split; [done|]. split; [done|]. lia.
Qed.

(** The walk decides membership: in a well-formed table it finds the key when
    it is there, and otherwise the first free slot, if there is one. *)
Lemma walk_spec (t : table) k :
  wf_table t ->
  match walk size t k 0 with
  | Found i v => t !! i = Some (Some (k, v))
  | Free i => t !! i = Some None /\ ~ has_key t k
  | Full => ~ has_key t k /\ forall i, (i < size)%nat -> t !! i <> Some None
  end.
Proof.
  intros (Hlen & Hreach & Huniq). pose proof (walk_prefix size t k 0 Hlen) as H.
  destruct (walk size t k 0) as [i v|i|]; simpl in H.
  - by destruct H as (n & _ & -> & Hi & _).
  - destruct H as (n & Hn & -> & Hi & Hp). split; [done|]. intros (i' & v & Hi').
    destruct (Hreach _ _ _ Hi') as (j & Hj & <- & Hpre).
    destruct (Nat.lt_trichotomy j n) as [Hlt|[->|Hgt]].
    + destruct (Hp j Hlt) as (k' & v' & Hk' & Hne). congruence.
    + congruence.
    + destruct (Hpre n Hgt) as (k' & v' & Hk'). congruence.
  - split.
    + intros (i' & v & Hi'). destruct (Hreach _ _ _ Hi') as (j & Hj & <- & _).
      destruct (H j Hj) as (k' & v' & Hk' & Hne). congruence.
    + intros i Hi. destruct (probe_surj k i Hi) as (j & Hj & <-).
      destruct (H j Hj) as (k' & v' & Hk' & Hne). congruence.
Qed.

Lemma walk_free_reachable (t : table) k i :
  length t = size -> walk size t k 0 = Free i ->
  exists j, (j < size)%nat /\ probe k j = i /\
    forall j', (j' < j)%nat -> exists k' v', t !! probe k j' = Some (Some (k', v')).
Proof.
  intros Hlen Hw. pose proof (walk_prefix size t k 0 Hlen) as H. rewrite Hw in H.
  destruct H as (n & Hn & -> & Hi & Hp). exists n. split; [done|]. split; [done|].
  intros j' Hj'. destruct (Hp j' Hj') as (k' & v' & ? & _). eauto.
Qed.

(** Storing at the slot the walk ends at keeps the table well formed. *)
Lemma insert_wf (t : table) k v i :
  wf_table t -> walk size t k 0 = Free i -> wf_table (<[i := Some (k, v)]> t).
Proof.
  intros (Hlen & Hreach & Huniq) Hw. pose proof (walk_spec t k) as Hs. rewrite Hw in Hs.
  destruct Hs as [Hfree Hno]; [done|]. pose proof (lookup_lt_Some _ _ _ Hfree) as Hi.
  assert (Hkeep : forall n k' v', t !! n = Some (Some (k', v')) ->
            <[i := Some (k, v)]> t !! n = Some (Some (k', v'))).
  { intros n k' v' Hn. rewrite list_lookup_insert_ne; [done|congruence]. }
  split; [by rewrite length_insert|]. split.
  - intros n k' v' Hn. destruct (decide (n = i)) as [->|Hne].
    + rewrite list_lookup_insert_eq in Hn by done. injection Hn as <- <-.
      destruct (walk_free_reachable t k i Hlen Hw) as (j & Hj & Hpj & Hpre).
      exists j. split; [done|]. split; [done|]. intros j' Hj'.
      destruct (Hpre j' Hj') as (k' & v' & ?). eauto.
    + rewrite list_lookup_insert_ne in Hn by done.
      destruct (Hreach _ _ _ Hn) as (j & Hj & Hpj & Hpre). exists j. split; [done|]. split; [done|].
      intros j' Hj'. destruct (Hpre j' Hj') as (k1 & v1 & ?). eauto.
  - intros n n' k' v1 v2 Hn Hn'.
    destruct (decide (n = i)) as [->|Hne], (decide (n' = i)) as [->|Hne']; [done|..].
    + rewrite list_lookup_insert_eq in Hn by done.
      rewrite list_lookup_insert_ne in Hn' by done.
      injection Hn as <- <-. destruct Hno. by exists n', v2.
    + rewrite list_lookup_insert_ne in Hn by done.
      rewrite list_lookup_insert_eq in Hn' by done.
      injection Hn' as <- <-. destruct Hno. by exists n, v1.
    + rewrite list_lookup_insert_ne in Hn, Hn' by done. by apply (Huniq n n' k' v1 v2).
Qed.

Lemma walk_found_unique (t : table) k v i :
  wf_table t -> t !! i = Some (Some (k, v)) -> walk size t k 0 = Found i v.
Proof.
  intros Hwf Hi. pose proof (walk_spec t k Hwf) as Hs. destruct (walk size t k 0) as [i' v'|i'|].
  - destruct Hwf as (_ & _ & Hu). pose proof (Hu _ _ _ _ _ Hs Hi) as ->. congruence.
  - destruct Hs as [_ Hno]. destruct Hno. by exists i, v.
  - destruct Hs as [Hno _]. destruct Hno. by exists i, v.
Qed.

(** The empty table is well formed, and a free slot is found while one is left. *)
Lemma empty_wf : wf_table (replicate size None).
Proof.
  split; [apply length_replicate|]. split.
  - intros i k v [=]%lookup_replicate_1%proj1.
  - intros i i' k v v' [=]%lookup_replicate_1%proj1.
Qed.

Lemma walk_free_exists (t : table) k i :
  wf_table t -> ~ has_key t k -> t !! i = Some None -> exists i', walk size t k 0 = Free i'.
Proof.
  intros Hwf Hno Hi. pose proof (walk_spec t k Hwf) as Hs. destruct (walk size t k 0) as [i' v'|i'|].
  - destruct Hno. by exists i', v'.
  - eauto.
  - destruct Hs as [_ Hs]. destruct (Hs i); [|done]. destruct Hwf as [<- _].
    by apply lookup_lt_Some in Hi.
Qed.

End Walk.

Arguments Found {V} i v.
Arguments Free {V} i.
Arguments Full {V}.

(** ** Double hashing modulo a prime

    Start and step are residues; the step is not zero, so the first [p] slots
    are all different. *)
Section Prime.
Context (p : Z) (Hp : Z.prime p).

Lemma mod_step_inj a d i j :
  0 < d < p -> 0 <= i < p -> 0 <= j < p -> (a + i * d) mod p = (a + j * d) mod p -> i = j.
Proof.
  intros Hd Hi Hj H.
  assert (Hdiv : (p | (i - j) * d)).
  { apply Z.mod_divide; [lia|].
    replace ((i - j) * d) with ((a + i * d) - (a + j * d)) by lia.
    rewrite Zminus_mod, H, Z.sub_diag. apply Z.mod_0_l. lia. }
  apply Z.divide_prime_mul in Hdiv as [H1|H1]; [| |done].
  - destruct H1 as [q Hq]. destruct (Z.lt_trichotomy q 0) as [|[->|]]; nia.
  - apply Z.divide_pos_le in H1; lia.
Qed.

End Prime.
