(* ===== verification/LinkMap.v ===== *)
(** * The loader's data: ELF symbols, link maps, namespaces

    The parts of [struct link_map] ([include/link.h]) that the modelled code
    reads or writes, grouped by purpose; [struct r_found_version] and the
    namespaces of [sysdeps/generic/ldsodefs.h]; and the state PLaTypus adds to
    the loader ([elf/placeholder-arr.c], the static variables of
    [elf/dl-lookup.c] and [elf/dl-reloc.c]).  A pointer to a link map is a
    [mapid], a pointer to a symbol names the link map and the index. *)

From S2P Require Import Prelude.

Abbreviation mapid := nat.

(** ** Symbols *)
Record Sym := mkSym {
  st_name : Z;   (* offset in the string table *)
  st_info : Z;
  st_other : Z;
  st_shndx : Z;
  st_value : Z;
  st_size : Z }.

Definition ST_BIND (s : Sym) : Z := Z.shiftr (st_info s) 4.
Definition ST_TYPE (s : Sym) : Z := Z.land (st_info s) 0xf.
Definition ST_VISIBILITY (s : Sym) : Z := Z.land (st_other s) 3.

Definition STB_LOCAL : Z := 0.
Definition STB_GLOBAL : Z := 1.
Definition STB_WEAK : Z := 2.
Definition STB_GNU_UNIQUE : Z := 10.
Definition STT_NOTYPE : Z := 0.
Definition STT_OBJECT : Z := 1.
Definition STT_FUNC : Z := 2.
Definition STT_COMMON : Z := 5.
Definition STT_TLS : Z := 6.
Definition STT_GNU_IFUNC : Z := 10.
Definition SHN_UNDEF : Z := 0.
Definition SHN_ABS : Z := 0xfff1.
Definition STV_INTERNAL : Z := 1.
Definition STV_HIDDEN : Z := 2.
Definition STV_PROTECTED : Z := 3.
Definition ELF_RTYPE_CLASS_PLT : Z := 1.
Definition ELF_RTYPE_CLASS_COPY : Z := 2.
Definition DL_LOOKUP_ADD_DEPENDENCY : Z := 1.
Definition DL_LOOKUP_RETURN_NEWEST : Z := 2.
Definition DL_LOOKUP_GSCOPE_LOCK : Z := 4.
Definition DL_LOOKUP_FOR_RELOCATE : Z := 8.

(** [dl_symbol_visibility_binds_local_p] *)
Definition binds_local (s : Sym) : bool :=
  (ST_VISIBILITY s =? STV_HIDDEN) || (ST_VISIBILITY s =? STV_INTERNAL).

(** [elf_machine_sym_no_match]: the generic version, used on x86-64. *)
Definition elf_machine_sym_no_match (s : Sym) : bool := false.

(** Test of a flag bit. *)
Definition has_flag (flags bit : Z) : bool := negb (Z.land flags bit =? 0).

(** A pointer to a symbol: an entry of a link map's symbol table, or the
    static [fake_sym] of [dl-lookup.c]. *)
Inductive symref := SymAt (m : mapid) (i : Z) | SymFake.
#[export] Instance symref_eq_dec : EqDecision symref.
Proof. solve_decision. Defined.

(** ** Versions: [struct r_found_version]; [NULL] names are [None]. *)
Record r_found_version := mkVersion {
  ver_name : option string;
  ver_hash : Z;
  ver_hidden : Z }.

(** ** Hash tables, as [_dl_setup_hash] leaves them in the link map.

    The arrays are the words of the section from their first element on.
    [l_gnu_chain_zero] is a pointer [l_gnu_symbias] words before the chain
    array, so that it is indexed by symbol index: [l_gnu_chain_zero[i]] is
    [l_gnu_chain[i - l_gnu_symbias]]. *)
Record hashtab := mkHash {
  l_nbuckets : Z;
  l_gnu_bitmask : option (list Z);
  l_gnu_bitmask_idxbits : Z;
  l_gnu_shift : Z;
  l_gnu_buckets : list Z;
  l_gnu_symbias : Z;
  l_gnu_chain : list Z;
  l_buckets : list Z;
  l_chain : list Z }.

Definition no_hash : hashtab := mkHash 0 None 0 0 [] 0 [] [] [].

(** ** Link maps *)
Inductive l_type_t := lt_executable | lt_library | lt_loaded.
#[export] Instance l_type_eq_dec : EqDecision l_type_t.
Proof. solve_decision. Defined.

(** What identifies an object; fixed after it is loaded. *)
Record ident := mkIdent {
  id_name : string;
  id_addr : Z;
  id_real : mapid;
  id_ns : nat;
  id_type : l_type_t;
  id_serial : Z;
  id_faked : bool;
  id_main_map : bool;
  id_1_needed : bool   (* l_1_needed & GNU_PROPERTY_1_NEEDED_INDIRECT_EXTERN_ACCESS *) }.

(** The dynamic section: symbol, string and version tables, hash table, and
    the initialisation and termination functions. *)
Record dyninfo := mkDyn {
  dy_symtab : list Sym;
  dy_strtab : string;
  dy_hash : hashtab;
  dy_versyms : option (list Z);
  dy_versions : list r_found_version;
  dy_init : option Z;             (* DT_INIT *)
  dy_init_array : option (list Z);
  dy_preinit_array : option (list Z);
  dy_fini_array : option (list Z);
  dy_fini : option Z }.

(** Dependencies.  [l_reldeps] is [None] while it is null; its [act] is the
    length of the list. *)
Record deps := mkDeps {
  dp_initfini : option (list mapid);
  dp_reldeps : option (list mapid);
  dp_reldepsmax : Z;
  dp_searchlist : list mapid;
  dp_scope : list (list mapid) }.

(** The bits and counters that change while the program runs. *)
Record mstate := mkState {
  ms_removed : bool;
  ms_relocated : bool;
  ms_init_called : bool;
  ms_visited : bool;
  ms_used : bool;
  ms_nodelete_active : bool;
  ms_nodelete_pending : bool;
  ms_jump_slot : bool;
  ms_idx : Z;
  ms_opencount : Z }.

(** Thread-local storage of the object. *)
Record tlsinfo := mkTls {
  tl_blocksize : Z;
  tl_align : Z;
  tl_firstbyte_offset : Z;
  tl_offset : Z;
  tl_modid : Z;
  tl_need_init : bool }.
Definition no_tls : tlsinfo := mkTls 0 0 0 0 0 false.

(** Segments and sections the relocation code looks at: the masks, the region to
    protect after relocation, DT_BIND_NOW, and the words of the hash sections. *)
Record seginfo := mkSegs {
  sg_exec_start : Z;
  sg_exec_end : Z;
  sg_relro_addr : Z;
  sg_relro_size : Z;
  sg_bind_now : bool;
  sg_sysv_words : option (list Z);
  sg_gnu_words : option (list Z) }.
Definition no_segs : seginfo := mkSegs 0 0 0 0 false None None.

(** A pointer to a link map as [_dl_lookup_symbol_x] returns it: a loaded object, or
    one of the two static link maps PLaTypus adds, [exp_map] and [fake_map]. *)
Inductive lmref := Lm (m : mapid) | LmExp | LmFake.
#[export] Instance lmref_eq_dec : EqDecision lmref.
Proof. solve_decision. Defined.

(** [l_lookup_cache] *)
Record lookup_cache := mkCache {
  lc_sym : option symref;
  lc_type_class : Z;
  lc_value : option lmref;
  lc_ret : option symref }.

Record link_map := mkMap {
  l_id : ident;
  l_dyn : dyninfo;
  l_deps : deps;
  l_st : mstate;
  l_lookup_cache : lookup_cache;
  l_tls : tlsinfo;
  l_segs : seginfo }.

Definition l_name (m : link_map) := id_name (l_id m).
Definition l_addr (m : link_map) := id_addr (l_id m).
Definition l_real (m : link_map) := id_real (l_id m).
Definition l_ns (m : link_map) := id_ns (l_id m).
Definition l_type (m : link_map) := id_type (l_id m).
Definition l_serial (m : link_map) := id_serial (l_id m).
Definition l_faked (m : link_map) := id_faked (l_id m).
Definition l_main_map (m : link_map) := id_main_map (l_id m).
Definition l_symtab (m : link_map) := dy_symtab (l_dyn m).
Definition l_strtab (m : link_map) := dy_strtab (l_dyn m).
Definition l_hash (m : link_map) := dy_hash (l_dyn m).
Definition l_versyms (m : link_map) := dy_versyms (l_dyn m).
Definition l_versions (m : link_map) := dy_versions (l_dyn m).
Definition l_initfini (m : link_map) := dp_initfini (l_deps m).
Definition l_reldeps (m : link_map) := dp_reldeps (l_deps m).
Definition l_reldepsmax (m : link_map) := dp_reldepsmax (l_deps m).
Definition l_removed (m : link_map) := ms_removed (l_st m).
Definition l_relocated (m : link_map) := ms_relocated (l_st m).
Definition l_init_called (m : link_map) := ms_init_called (l_st m).
Definition l_visited (m : link_map) := ms_visited (l_st m).
Definition l_used (m : link_map) := ms_used (l_st m).
Definition l_nodelete_active (m : link_map) := ms_nodelete_active (l_st m).
Definition l_nodelete_pending (m : link_map) := ms_nodelete_pending (l_st m).
Definition l_idx (m : link_map) := ms_idx (l_st m).
Definition l_direct_opencount (m : link_map) := ms_opencount (l_st m).

(** *** Stores to one field *)
Definition with_st (f : mstate -> mstate) (m : link_map) : link_map :=
  match m with mkMap i d p s c t g => mkMap i d p (f s) c t g end.
Definition with_deps (f : deps -> deps) (m : link_map) : link_map :=
  match m with mkMap i d p s c t g => mkMap i d (f p) s c t g end.
Definition set_cache (c' : lookup_cache) (m : link_map) : link_map :=
  match m with mkMap i d p s c t g => mkMap i d p s c' t g end.
Definition set_tls (t' : tlsinfo) (m : link_map) : link_map :=
  match m with mkMap i d p s c t g => mkMap i d p s c t' g end.

Definition set_relocated (b : bool) := with_st (fun s =>
  match s with mkState r _ ic v u na np j ix oc => mkState r b ic v u na np j ix oc end).
Definition set_init_called (b : bool) := with_st (fun s =>
  match s with mkState r rl _ v u na np j ix oc => mkState r rl b v u na np j ix oc end).
Definition set_visited (b : bool) := with_st (fun s =>
  match s with mkState r rl ic _ u na np j ix oc => mkState r rl ic b u na np j ix oc end).
Definition set_used (b : bool) := with_st (fun s =>
  match s with mkState r rl ic v _ na np j ix oc => mkState r rl ic v b na np j ix oc end).
Definition set_nodelete_active (b : bool) := with_st (fun s =>
  match s with mkState r rl ic v u _ np j ix oc => mkState r rl ic v u b np j ix oc end).
Definition set_nodelete_pending (b : bool) := with_st (fun s =>
  match s with mkState r rl ic v u na _ j ix oc => mkState r rl ic v u na b j ix oc end).
Definition set_jump_slot (b : bool) := with_st (fun s =>
  match s with mkState r rl ic v u na np _ ix oc => mkState r rl ic v u na np b ix oc end).
Definition set_idx (n : Z) := with_st (fun s =>
  match s with mkState r rl ic v u na np j _ oc => mkState r rl ic v u na np j n oc end).
Definition set_opencount (n : Z) := with_st (fun s =>
  match s with mkState r rl ic v u na np j ix _ => mkState r rl ic v u na np j ix n end).
Definition set_reldeps (l : list mapid) (max : Z) := with_deps (fun d =>
  match d with mkDeps i _ _ sl sc => mkDeps i (Some l) max sl sc end).

(** ** Namespaces and their tables of unique symbols *)
Record unique_sym := mkUnique {
  us_hashval : Z;
  us_name : option string;     (* None: a free entry *)
  us_sym : option symref;
  us_map : option mapid }.

Definition us_free : unique_sym := mkUnique 0 None None None.

Record unique_sym_table := mkUtab {
  ut_entries : option (list unique_sym);   (* None: not allocated *)
  ut_size : Z;
  ut_n_elements : Z }.

Record namespace := mkNs {
  ns_loaded : list mapid;      (* the list _ns_loaded, linked by l_next *)
  ns_unique : unique_sym_table }.

(** ** PLaTypus placeholders: [elf/placeholder-arr.c] and the counter
    [search_dlsymed] of [elf/dl-reloc.c]. *)
Record placeholders := mkPh {
  placeholder_symbols : list string;
  placeholder_plts : list Z;
  placeholded : Z;
  search_dlsymed : Z }.

(** [char placeholder_symbols[10][48] = {""}; void *placeholder_plts[10] = {NULL};
    int placeholded = 0;] and [static uint8_t search_dlsymed = 1]. *)
Definition init_placeholders : placeholders :=
  mkPh (replicate 10 EmptyString) (replicate 10 0) 0 1.

(** ** The loader's state *)
Record config := mkConfig {
  dl_dynamic_weak : bool;
  dl_debug_unused : bool;             (* dl_debug_mask & DL_DEBUG_UNUSED *)
  calloc_ok : Z -> bool;              (* whether an allocation succeeds *)
  malloc_ok : Z -> bool }.

(** The static TLS area: GLRO(dl_tls_static_size), GL(dl_tls_static_used),
    GLRO(dl_tls_static_align), GL(dl_tls_static_optional). *)
Record tls_area := mkArea {
  ta_size : Z;
  ta_used : Z;
  ta_align : Z;
  ta_optional : Z }.

Record world := mkWorld {
  w_maps : gmap mapid link_map;
  w_ns : list namespace;              (* GL(dl_ns) *)
  w_ph : placeholders;
  w_exp_addr : Z;                     (* exp_map.l_addr *)
  w_fake_addr : Z;                    (* fake_map.l_addr *)
  w_num_relocations : Z;
  w_num_cache_relocations : Z;
  w_mem : gmap Z Z;                   (* the bytes of the memory relocations write *)
  w_area : tls_area;
  w_conf : config }.

Definition set_maps (ms : gmap mapid link_map) (w : world) : world :=
  match w with mkWorld _ ns ph ea fa nr nc me ta cf => mkWorld ms ns ph ea fa nr nc me ta cf end.
Definition set_ns (ns : list namespace) (w : world) : world :=
  match w with mkWorld ms _ ph ea fa nr nc me ta cf => mkWorld ms ns ph ea fa nr nc me ta cf end.
Definition set_ph (ph : placeholders) (w : world) : world :=
  match w with mkWorld ms ns _ ea fa nr nc me ta cf => mkWorld ms ns ph ea fa nr nc me ta cf end.
Definition set_exp_addr (a : Z) (w : world) : world :=
  match w with mkWorld ms ns ph _ fa nr nc me ta cf => mkWorld ms ns ph a fa nr nc me ta cf end.
Definition set_fake_addr (a : Z) (w : world) : world :=
  match w with mkWorld ms ns ph ea _ nr nc me ta cf => mkWorld ms ns ph ea a nr nc me ta cf end.
Definition bump_num_relocations (w : world) : world :=
  match w with mkWorld ms ns ph ea fa nr nc me ta cf =>
    mkWorld ms ns ph ea fa (u64 (nr + 1)) nc me ta cf end.
Definition bump_num_cache_relocations (w : world) : world :=
  match w with mkWorld ms ns ph ea fa nr nc me ta cf =>
    mkWorld ms ns ph ea fa nr (u64 (nc + 1)) me ta cf end.
Definition set_mem (me : gmap Z Z) (w : world) : world :=
  match w with mkWorld ms ns ph ea fa nr nc _ ta cf => mkWorld ms ns ph ea fa nr nc me ta cf end.

Definition set_area (ta : tls_area) (w : world) : world :=
  match w with mkWorld ms ns ph ea fa nr nc me _ cf => mkWorld ms ns ph ea fa nr nc me ta cf end.

Definition with_map (m : mapid) (f : link_map -> link_map) (w : world) : world :=
  set_maps (alter f m (w_maps w)) w.

(** Dereference a pointer to a link map. *)
Definition get_map (m : mapid) : M world link_map := fun w =>
  match w_maps w !! m with Some lm => Ret lm w | None => Wild end.

Definition get_ns (n : nat) : M world namespace := fun w =>
  match w_ns w !! n with Some ns => Ret ns w | None => Wild end.

Definition set_unique (n : nat) (t : unique_sym_table) : M world unit := fun w =>
  match w_ns w !! n with
  | Some ns => Ret tt (set_ns (<[n := mkNs (ns_loaded ns) t]> (w_ns w)) w)
  | None => Wild
  end.

(** Dereference a pointer to a symbol. *)
Definition fake_sym : Sym := mkSym 0 0 0 0 0 0.

Definition get_sym (s : symref) : M world Sym := fun w =>
  match s with
  | SymFake => Ret fake_sym w
  | SymAt m i =>
      match w_maps w !! m with
      | Some lm => lift (rd (l_symtab lm) i) w
      | None => Wild
      end
  end.

(** [GL(dl_ns)[LM_ID_BASE]._ns_loaded]: the main program. *)
Definition main_map : M world (option mapid) :=
  ns ← get_ns 0; mret (head (ns_loaded ns)).

(** *** Frame lemmas of the stores *)
Lemma with_map_ph m f w : w_ph (with_map m f w) = w_ph w.
Proof. by destruct w. Qed.
Lemma with_map_ns m f w : w_ns (with_map m f w) = w_ns w.
Proof. by destruct w. Qed.
Lemma with_map_maps m f w : w_maps (with_map m f w) = alter f m (w_maps w).
Proof. by destruct w. Qed.
Lemma with_map_conf m f w : w_conf (with_map m f w) = w_conf w.
Proof. by destruct w. Qed.
Lemma set_ns_maps ns w : w_maps (set_ns ns w) = w_maps w.
Proof. by destruct w. Qed.
Lemma set_ns_ns ns w : w_ns (set_ns ns w) = ns.
Proof. by destruct w. Qed.
Lemma set_ns_ph ns w : w_ph (set_ns ns w) = w_ph w.
Proof. by destruct w. Qed.
Lemma set_ns_conf ns w : w_conf (set_ns ns w) = w_conf w.
Proof. by destruct w. Qed.
Lemma set_ph_ph ph w : w_ph (set_ph ph w) = ph.
Proof. by destruct w. Qed.
Lemma bump_maps w : w_maps (bump_num_relocations w) = w_maps w.
Proof. by destruct w. Qed.
Lemma bump_ns w : w_ns (bump_num_relocations w) = w_ns w.
Proof. by destruct w. Qed.
Lemma bump_conf w : w_conf (bump_num_relocations w) = w_conf w.
Proof. by destruct w. Qed.
Lemma bump_ph w : w_ph (bump_num_relocations w) = w_ph w.
Proof. by destruct w. Qed.

Create Rewrite HintDb frame.
#[export] Hint Rewrite with_map_ph with_map_ns with_map_maps with_map_conf
  set_ns_maps set_ns_ns set_ns_ph set_ns_conf set_ph_ph bump_maps bump_ns bump_conf bump_ph : frame.
