(* ===== verification/SymHash.v ===== *)
(** * Searching one object for a symbol

    [_dl_setup_hash] ([elf/dl-setup_hash.c]), which lays the hash section out
    in the link map, [check_match] ([elf/dl-lookup.c]), which decides whether a
    symbol is the one looked for, and the two searches inside [do_lookup_x]:
    the Bloom filter, bucket and chain of the GNU hash table, and the chain of
    the System V table. *)

From S2P Require Import Prelude ElfHash LinkMap.

(** ** Laying out the hash section *)

(** 64-bit words of the filter, in pairs of 32-bit words of the section. *)
Fixpoint words64 (l : list Z) : list Z :=
  match l with
  | lo :: hi :: l' => lo + hi * 2 ^ 32 :: words64 l'
  | _ => []
  end.

(** [gnu] and [sysv] are the words of the DT_GNU_HASH and DT_HASH sections. *)
Definition _dl_setup_hash (gnu sysv : option (list Z)) (h : hashtab) : res hashtab :=
  match gnu with
  | Some hash32 =>
      nbuckets ← rd hash32 0;
      symbias ← rd hash32 1;
      bitmask_nwords ← rd hash32 2;
      _ ← c_assert (Z.land bitmask_nwords (u32 (bitmask_nwords - 1)) =? 0)
            "(bitmask_nwords & (bitmask_nwords - 1)) == 0";
      shift ← rd hash32 3;
      let bitmask := drop 4 hash32 in
      let buckets := drop (Z.to_nat (u32 (2 * bitmask_nwords))) bitmask in
      let chain := drop (Z.to_nat nbuckets) buckets in
      mret (mkHash nbuckets (Some (words64 bitmask)) (u32 (bitmask_nwords - 1)) shift
              buckets symbias chain (l_buckets h) (l_chain h))
  | None =>
      match sysv with
      | None => mret h
      | Some hash =>
          nbuckets ← rd hash 0;
          let buckets := drop 2 hash in
          let chain := drop (Z.to_nat nbuckets) buckets in
          mret (mkHash nbuckets (l_gnu_bitmask h) (l_gnu_bitmask_idxbits h) (l_gnu_shift h)
                  (l_gnu_buckets h) (l_gnu_symbias h) (l_gnu_chain h) buckets chain)
      end
  end.

(** ** [check_match] *)

(** [versioned_sym] (an index into the object's symbol table) and [num_versions]. *)
Record vstate := mkVs { versioned_sym : option Z; num_versions : Z }.

Definition vs0 : vstate := mkVs None 0.

Definition ALLOWED_STT : Z :=
  Z.lor (Z.shiftl 1 STT_NOTYPE) (Z.lor (Z.shiftl 1 STT_OBJECT) (Z.lor (Z.shiftl 1 STT_FUNC)
    (Z.lor (Z.shiftl 1 STT_COMMON) (Z.lor (Z.shiftl 1 STT_TLS) (Z.shiftl 1 STT_GNU_IFUNC))))).

(** The post-increment of [num_versions], and when it was zero the store to [versioned_sym]. *)
Definition note_version (symidx : Z) (vs : vstate) : vstate :=
  mkVs (if num_versions vs =? 0 then Some symidx else versioned_sym vs) (num_versions vs + 1).

(** [strcmp (a, b) == 0] on pointers that may be null. *)
Definition opt_str_eqb (a b : option string) : res bool :=
  match a, b with
  | Some a, Some b => Ok (str_eqb a b)
  | _, _ => Undef
  end.

(** The part of [check_match] for a versioned reference. *)
Definition check_version (v : r_found_version) (map : link_map) (symidx : Z) (vs : vstate)
  : res (bool * vstate) :=
  match l_versyms map with
  | None => mret (true, vs)
  | Some verstab =>
      vw ← rd verstab symidx;
      e ← rd (l_versions map) (Z.land vw 0x7fff);
      exact ← (if ver_hash e =? ver_hash v then opt_str_eqb (ver_name e) (ver_name v)
               else mret false);
      if (exact : bool) then mret (true, vs)
      else
        dflt ← (if negb (ver_hidden v =? 0) then mret false
                else match ver_name e with
                     | None => Undef
                     | Some n => mret (str_eqb n "" && (Z.land vw 0x8000 =? 0))
                     end);
        mret (false, if (dflt : bool) then note_version symidx vs else vs)
  end.

(** The part of [check_match] for a reference without a version. *)
Definition check_unversioned (flags : Z) (map : link_map) (symidx : Z) (vs : vstate)
  : res (bool * vstate) :=
  match l_versyms map with
  | None => mret (true, vs)
  | Some verstab =>
      vw ← rd verstab symidx;
      if (if has_flag flags DL_LOOKUP_RETURN_NEWEST then 2 else 3) <=? Z.land vw 0x7fff
      then mret (false, if Z.land vw 0x8000 =? 0 then note_version symidx vs else vs)
      else mret (true, vs)
  end.

(** The first test of [check_match]: the symbol is no definition. *)
Definition no_definition (type_class : Z) (sym : Sym) : bool :=
  ((st_value sym =? 0) && negb (st_shndx sym =? SHN_ABS) && negb (ST_TYPE sym =? STT_TLS))
  || elf_machine_sym_no_match sym
  || negb (Z.land type_class (if st_shndx sym =? SHN_UNDEF then 1 else 0) =? 0).

(** Is the symbol [symidx] of [map] (the link map [mid]) the one looked for?  The
    boolean is [true] for a match; the version state is updated as the code does. *)
Definition check_match (undef_name : string) (ref : option symref)
    (version : option r_found_version) (flags type_class : Z)
    (mid : mapid) (map : link_map) (symidx : Z) (vs : vstate) : res (bool * vstate) :=
  sym ← rd (l_symtab map) symidx;
  if no_definition type_class sym then mret (false, vs)
  else if Z.land (Z.shiftl 1 (ST_TYPE sym)) ALLOWED_STT =? 0 then mret (false, vs)
  else
    same ← (if decide (ref = Some (SymAt mid symidx)) then mret true
            else n ← cstr_at (l_strtab map) (st_name sym); mret (str_eqb n undef_name));
    if negb same then mret (false, vs)
    else
      match version with
      | Some v => check_version v map symidx vs
      | None => check_unversioned flags map symidx vs
      end.

(** ** The searches *)
Section Search.
Context (undef_name : string) (ref : option symref) (version : option r_found_version).
Context (flags type_class : Z) (mid : mapid) (map : link_map).

Local Abbreviation cm := (check_match undef_name ref version flags type_class mid map).
Local Abbreviation h := (l_hash map).

(** The walk along the chain: [hs] is the chain array from the current entry
    on, [symidx] the index of its symbol. *)
Fixpoint gnu_chain (new_hash : Z) (hs : list Z) (symidx : Z) (vs : vstate)
  : res (option Z * vstate) :=
  match hs with
  | [] => Undef
  | hv :: hs' =>
      r ← (if Z.shiftr (Z.lxor hv new_hash) 1 =? 0 then cm symidx vs else mret (false, vs));
      match r with
      | (true, vs) => mret (Some symidx, vs)
      | (false, vs) =>
          if Z.land hv 1 =? 0 then gnu_chain new_hash hs' (symidx + 1) vs
          else mret (None, vs)
      end
  end.

(** The filter: both bits of the hash are set in the word it selects. *)
Definition bloom_test (bitmask : list Z) (new_hash : Z) : res bool :=
  bitmask_word ← rd bitmask (Z.land (new_hash / 64) (l_gnu_bitmask_idxbits h));
  let hashbit1 := Z.land new_hash 63 in
  let hashbit2 := Z.land (Z.shiftr new_hash (l_gnu_shift h)) 63 in
  mret (negb (Z.land (Z.land (Z.shiftr bitmask_word hashbit1)
                             (Z.shiftr bitmask_word hashbit2)) 1 =? 0)).

Definition gnu_search (bitmask : list Z) (new_hash : Z) : res (option Z * vstate) :=
  pass ← bloom_test bitmask new_hash;
  if (pass : bool) then
    bucket ← rd (l_gnu_buckets h) (new_hash mod l_nbuckets h);
    if bucket =? 0 then mret (None, vs0)
    else if bucket <? l_gnu_symbias h then Undef
    else gnu_chain new_hash (drop (Z.to_nat (bucket - l_gnu_symbias h)) (l_gnu_chain h)) bucket vs0
  else mret (None, vs0).

(** [for (symidx = buckets[...]; symidx != STN_UNDEF; symidx = chain[symidx])]:
    a chain without a cycle ends within as many steps as the array has entries. *)
Fixpoint sysv_chain (fuel : nat) (symidx : Z) (vs : vstate) : res (option Z * vstate) :=
  match fuel with
  | O => Diverge
  | S fuel =>
      if symidx =? 0 then mret (None, vs)
      else
        r ← cm symidx vs;
        match r with
        | (true, vs) => mret (Some symidx, vs)
        | (false, vs) => next ← rd (l_chain h) symidx; sysv_chain fuel next vs
        end
  end.

Definition sysv_search (old_hash : Z) : res (option Z * vstate) :=
  symidx ← rd (l_buckets h) (old_hash mod l_nbuckets h);
  sysv_chain (S (length (l_chain h))) symidx vs0.

(** One object's share of [do_lookup_x] up to the label [found_it]: the matching symbol,
    else the only versioned one seen.  [old_hash] caches the System V hash. *)
Definition search_map (new_hash old_hash : Z) : res (option Z * Z) :=
  '(r, old_hash) ←
    match l_gnu_bitmask h with
    | Some bitmask => r ← gnu_search bitmask new_hash; mret (r, old_hash)
    | None =>
        let old_hash := if old_hash =? 0xffffffff then SysvHash._dl_elf_hash undef_name
                        else old_hash in
        r ← sysv_search old_hash; mret (r, old_hash)
    end;
  match r with
  | (Some i, _) => mret (Some i, old_hash)
  | (None, vs) => mret (if num_versions vs =? 1 then versioned_sym vs else None, old_hash)
  end.

End Search.
