(* ===== verification/SymHashSpec.v ===== *)
(** * The hash searches find what a linear scan finds

    The reference for a search in one object is [scan]: try [check_match] on
    every symbol in order.  [gnu_search] (Bloom filter, bucket, chain) returns
    the same result on every table that satisfies [wf_gnu], the layout rules of
    a GNU hash section. *)

From S2P Require Import Prelude ElfHash LinkMap SymHash.

(** ** The reference: a linear scan *)
Fixpoint scan (cm : Z -> vstate -> res (bool * vstate)) (idxs : list Z) (vs : vstate)
  : res (option Z * vstate) :=
  match idxs with
  | [] => mret (None, vs)
  | i :: idxs' =>
      r ← cm i vs;
      match r with
      | (true, vs) => mret (Some i, vs)
      | (false, vs) => scan cm idxs' vs
      end
  end.

(** The indices [a, a+1, ..., a+n-1]. *)
Fixpoint zseq (a : Z) (n : nat) : list Z :=
  match n with O => [] | S n' => a :: zseq (a + 1) n' end.

Lemma zseq_elem a n i : i ∈ zseq a n <-> a <= i < a + Z.of_nat n.
Proof.
  revert a. induction n as [|n IH]; intros a; simpl.
  - rewrite elem_of_nil. lia.
  - rewrite elem_of_cons, IH. lia.
Qed.

Lemma zseq_app a n m : zseq a (n + m) = zseq a n ++ zseq (a + Z.of_nat n) m.
Proof.
  revert a. induction n as [|n IH]; intros a; simpl; [f_equal; lia|].
  f_equal. rewrite IH. do 2 f_equal. lia.
Qed.

Lemma scan_zseq_S cm i n vs :
  scan cm (zseq i (S n)) vs =
  (r ← cm i vs;
   match r with
   | (true, vs) => mret (Some i, vs)
   | (false, vs) => scan cm (zseq (i + 1) n) vs
   end).
Proof. done. Qed.

Lemma scan_app cm l1 l2 vs :
  (forall i, i ∈ l1 -> cm i vs = Ok (false, vs)) -> scan cm (l1 ++ l2) vs = scan cm l2 vs.
Proof.
  induction l1 as [|i l1 IH]; intros H; simpl; [done|].
  rewrite (H i) by set_solver. simpl. apply IH. set_solver.
Qed.

Lemma scan_skip cm l vs :
  (forall i, i ∈ l -> forall vs, cm i vs = Ok (false, vs)) -> scan cm l vs = Ok (None, vs).
Proof. intros H. rewrite <- (app_nil_r l), scan_app; [done|]. intros i Hi. by apply H. Qed.

Lemma scan_app_r cm l1 l2 vs :
  (forall i, i ∈ l2 -> forall vs, cm i vs = Ok (false, vs)) ->
  scan cm (l1 ++ l2) vs = scan cm l1 vs.
Proof.
  intros H. revert vs. induction l1 as [|i l1 IH]; intros vs; simpl; [by apply scan_skip|].
  destruct (cm i vs) as [[[] vs']| | | |]; simpl; auto.
Qed.

(** ** Names and buckets *)
Definition sym_name (map : link_map) (i : Z) : res string :=
  s ← rd (l_symtab map) i; cstr_at (l_strtab map) (st_name s).

Definition nsyms (map : link_map) : Z := Z.of_nat (length (l_symtab map)).

(** The reference symbol, when it lies in this object, has the name looked for. *)
Definition ref_named (nm : string) (ref : option symref) (mid : mapid) (map : link_map) : Prop :=
  forall i, ref = Some (SymAt mid i) -> sym_name map i = Ok nm.

(** [check_match] rejects a symbol of another name and leaves the version state alone. *)
Lemma check_match_other nm ref version flags tc mid map i n vs :
  ref_named nm ref mid map -> sym_name map i = Ok n -> n <> nm ->
  check_match nm ref version flags tc mid map i vs = Ok (false, vs).
Proof.
  intros Href Hn Hne. unfold check_match, sym_name in *.
  destruct (rd (l_symtab map) i) as [s| | | |] eqn:Hs; try discriminate. cbn in Hn |- *.
  destruct (no_definition tc s); [done|].
  destruct (Z.land _ ALLOWED_STT =? 0); [done|].
  destruct (decide (ref = Some (SymAt mid i))) as [->|_].
  - specialize (Href i eq_refl). unfold sym_name in Href. rewrite Hs in Href. cbn in Href. congruence.
  - rewrite Hn. cbn. by rewrite (proj2 (str_eqb_false n nm)).
Qed.

(** ** Well-formed GNU hash sections

    [bucket_of map i] is the bucket of symbol [i]. *)
Definition bucket_of (map : link_map) (i : Z) : option Z :=
  match sym_name map i with
  | Ok nm => Some (NewHash._dl_new_hash nm mod l_nbuckets (l_hash map))
  | _ => None
  end.

(** The two bits of the filter that [hash] selects are set in [bitmask]. *)
Definition in_filter (map : link_map) (bitmask : list Z) (hash : Z) : Prop :=
  exists w, rd bitmask (Z.land (hash / 64) (l_gnu_bitmask_idxbits (l_hash map))) = Ok w /\
    Z.testbit w (Z.land hash 63) = true /\
    Z.testbit w (Z.land (Z.shiftr hash (l_gnu_shift (l_hash map))) 63) = true.

(** The rules of the section: the symbols from [l_gnu_symbias] on are grouped
    by bucket; a bucket holds the index of its first symbol, or zero; a chain
    word is the symbol's hash with the low bit telling the last of a bucket;
    the filter has the bits of every symbol. *)
Record wf_gnu (map : link_map) (bitmask : list Z) : Prop := {
  wg_nbuckets : 0 < l_nbuckets (l_hash map);
  wg_bias : 1 <= l_gnu_symbias (l_hash map) <= nsyms map;
  wg_named : forall i, l_gnu_symbias (l_hash map) <= i < nsyms map ->
    exists nm, sym_name map i = Ok nm;
  wg_chain : forall i nm, l_gnu_symbias (l_hash map) <= i < nsyms map -> sym_name map i = Ok nm ->
    exists c, rd (l_gnu_chain (l_hash map)) (i - l_gnu_symbias (l_hash map)) = Ok c /\
      Z.shiftr c 1 = Z.shiftr (NewHash._dl_new_hash nm) 1 /\
      (Z.land c 1 = 0 <-> i + 1 < nsyms map /\ bucket_of map (i + 1) = bucket_of map i);
  wg_bucket : forall b, 0 <= b < l_nbuckets (l_hash map) ->
    exists s, rd (l_gnu_buckets (l_hash map)) b = Ok s /\
      (s = 0 /\ (forall i, l_gnu_symbias (l_hash map) <= i < nsyms map -> bucket_of map i <> Some b) \/
       l_gnu_symbias (l_hash map) <= s < nsyms map /\ bucket_of map s = Some b /\
       forall i, l_gnu_symbias (l_hash map) <= i < s -> bucket_of map i <> Some b);
  wg_grouped : forall i j k, l_gnu_symbias (l_hash map) <= i -> i <= j <= k -> k < nsyms map ->
    bucket_of map i = bucket_of map k -> bucket_of map j = bucket_of map i;
  wg_filter_size : forall x, 0 <= x -> exists w,
    rd bitmask (Z.land x (l_gnu_bitmask_idxbits (l_hash map))) = Ok w;
  wg_filter : forall i nm, l_gnu_symbias (l_hash map) <= i < nsyms map -> sym_name map i = Ok nm ->
    in_filter map bitmask (NewHash._dl_new_hash nm) }.

(** The test of the code reads the two bits. *)
Lemma bloom_bits w a b :
  0 <= a -> 0 <= b ->
  negb (Z.land (Z.land (Z.shiftr w a) (Z.shiftr w b)) 1 =? 0) = Z.testbit w a && Z.testbit w b.
Proof.
  intros Ha Hb. change 1 with (Z.ones 1). rewrite Z.land_ones by lia.
  rewrite <- (Z.bit0_mod (Z.land _ _)), Z.land_spec, !Z.shiftr_spec, !Z.add_0_l by lia.
  by destruct (Z.testbit w a), (Z.testbit w b).
Qed.

Lemma land_63_nonneg x : 0 <= Z.land x 63.
Proof. change 63 with (Z.ones 6). rewrite Z.land_ones by lia. apply Z.mod_pos_bound. lia. Qed.

Section Gnu.
Context (nm : string) (ref : option symref) (version : option r_found_version).
Context (flags tc : Z) (mid : mapid) (map : link_map) (bitmask : list Z).
Context (Href : ref_named nm ref mid map) (Hwf : wf_gnu map bitmask).

Local Abbreviation cm := (check_match nm ref version flags tc mid map).
Local Abbreviation bias := (l_gnu_symbias (l_hash map)).
Local Abbreviation hash := (NewHash._dl_new_hash nm).
Local Abbreviation b0 := (hash mod l_nbuckets (l_hash map)).

Lemma bloom_total : exists b, bloom_test map bitmask hash = Ok b /\
  (b = false -> forall i, bias <= i < nsyms map -> sym_name map i <> Ok nm).
Proof.
  pose proof (NewHash.new_hash_range nm) as Hr.
  destruct (wg_filter_size _ _ Hwf (hash / 64)) as [w Hw]; [by apply Z.div_pos; lia|].
  unfold bloom_test. rewrite Hw. cbn. rewrite bloom_bits by apply land_63_nonneg.
  eexists. split; [done|]. intros Hf i Hi Hn.
  destruct (wg_filter _ _ Hwf i nm Hi Hn) as (w' & Hw' & H1 & H2).
  rewrite Hw in Hw'. injection Hw' as <-. by rewrite H1, H2 in Hf.
Qed.

(** A symbol in another bucket has another name. *)
Lemma other_bucket i vs :
  bias <= i < nsyms map -> bucket_of map i <> Some b0 -> cm i vs = Ok (false, vs).
Proof.
  intros Hi Hb. destruct (wg_named _ _ Hwf i Hi) as [n Hn].
  apply check_match_other with n; [done|done|]. intros ->. apply Hb.
  unfold bucket_of. by rewrite Hn.
Qed.

(** Along the chain a word of another hash belongs to another name. *)
Lemma chain_word i c n vs :
  bias <= i < nsyms map -> sym_name map i = Ok n ->
  Z.shiftr c 1 = Z.shiftr (NewHash._dl_new_hash n) 1 ->
  (if Z.shiftr (Z.lxor c hash) 1 =? 0 then cm i vs else mret (false, vs)) = cm i vs.
Proof.
  intros Hi Hn Hc. rewrite Z.shiftr_lxor, Hc, Z.eqb_sym.
  destruct (Z.eqb_spec 0 (Z.lxor (Z.shiftr (NewHash._dl_new_hash n) 1) (Z.shiftr hash 1)))
    as [|Hne]; [done|].
  symmetry. apply check_match_other with n; [done|done|]. intros ->.
  by rewrite Z.lxor_nilpotent in Hne.
Qed.

(** The walk from symbol [i] of the bucket on is the scan of all symbols from [i] on. *)
Lemma chain_scan (k : nat) i vs :
  bias <= i -> i + Z.of_nat (S k) = nsyms map -> bucket_of map i = Some b0 ->
  gnu_chain nm ref version flags tc mid map hash
    (drop (Z.to_nat (i - bias)) (l_gnu_chain (l_hash map))) i vs = scan cm (zseq i (S k)) vs.
Proof.
  revert i vs. induction k as [|k IH]; intros i vs Hi Hk Hb;
    (destruct (wg_named _ _ Hwf i ltac:(lia)) as [n Hn];
     destruct (wg_chain _ _ Hwf i n ltac:(lia) Hn) as (c & Hc & Hcn & Hend);
     apply rd_Ok in Hc as [Hc0 Hc];
     rewrite (drop_S _ _ _ Hc); cbn [gnu_chain]; rewrite scan_zseq_S;
     rewrite (chain_word i c n vs ltac:(lia) Hn Hcn)).
  - destruct (cm i vs) as [[[] vs']| | | |]; [done| |done..]. cbn.
    destruct (Z.eqb_spec (Z.land c 1) 0) as [He|]; [|done]. apply Hend in He. lia.
  - destruct (cm i vs) as [[[] vs']| | | |]; [done| |done..]. cbn [mbind res_bind].
    destruct (Z.eqb_spec (Z.land c 1) 0) as [He|He].
    + apply Hend in He as [_ He]. rewrite <- IH by (try lia; congruence).
      f_equal. f_equal. lia.
    + symmetry. apply scan_skip. intros j Hj%zseq_elem vs1. apply other_bucket; [lia|].
      intros Hbj. apply He, Hend. split; [lia|].
      apply (wg_grouped _ _ Hwf i (i + 1) j); try lia. congruence.
Qed.

Lemma gnu_search_scan :
  gnu_search nm ref version flags tc mid map bitmask hash =
  scan cm (zseq bias (Z.to_nat (nsyms map - bias))) vs0.
Proof.
  pose proof (wg_nbuckets _ _ Hwf). pose proof (wg_bias _ _ Hwf).
  pose proof (NewHash.new_hash_range nm).
  destruct bloom_total as (b & Hb & Hno). unfold gnu_search. rewrite Hb. cbn [mbind res_bind].
  destruct b.
  - destruct (wg_bucket _ _ Hwf b0) as (s & Hs & Hcase); [by apply Z.mod_pos_bound|].
    rewrite Hs. cbn [mbind res_bind]. destruct Hcase as [[-> Hnone]|(Hr & Hbs & Hfirst)].
    + symmetry. apply scan_skip. intros i Hi%zseq_elem vs. apply other_bucket; [lia|].
      apply Hnone. lia.
    + rewrite (proj2 (Z.eqb_neq s 0)), (proj2 (Z.ltb_ge s bias)) by lia.
      replace (Z.to_nat (nsyms map - bias)) with
        (Z.to_nat (s - bias) + S (Z.to_nat (nsyms map - s - 1)))%nat by lia.
      rewrite zseq_app, scan_app.
      * rewrite (chain_scan (Z.to_nat (nsyms map - s - 1))) by (try lia; done).
        do 2 f_equal. lia.
      * intros i Hi%zseq_elem. apply other_bucket; [lia|]. apply Hfirst. lia.
  - symmetry. apply scan_skip. intros i Hi%zseq_elem vs.
    destruct (wg_named _ _ Hwf i ltac:(lia)) as [n Hn].
    apply check_match_other with n; [done|done|]. intros ->. by apply (Hno eq_refl i); [lia|].
Qed.

End Gnu.
