(* ===== verification/UniqueSym.v ===== *)
(** * The table of unique symbols

    [enter_unique_sym] and [do_lookup_unique] of [elf/dl-lookup.c], with the
    NODELETE marks: an STB_GNU_UNIQUE symbol is bound to one definition in a
    namespace, kept in an open-addressing table that grows through
    [_dl_higher_prime_number]. *)

From S2P Require Import Prelude ElfHash Primes OpenAddr LinkMap.
From Stdlib Require Import Zdivisibility.

(** [mark_nodelete] *)
Definition mark_nodelete (flags : Z) (m : link_map) : link_map :=
  if has_flag flags DL_LOOKUP_FOR_RELOCATE then set_nodelete_pending true m
  else set_nodelete_active true m.

(** [is_nodelete] *)
Definition is_nodelete (flags : Z) (m : link_map) : bool :=
  l_nodelete_active m || (has_flag flags DL_LOOKUP_FOR_RELOCATE && l_nodelete_pending m).

(** [struct sym_val] *)
Record sym_val := mkVal { sv_s : option symref; sv_m : option mapid }.

Definition no_val : sym_val := mkVal None None.

(** [idx += hash2; if (idx >= size) idx -= size;] *)
Definition next_idx (size hash2 idx : Z) : Z :=
  let idx := u64 (idx + hash2) in if size <=? idx then idx - size else idx.

(** [while (table[idx].name != NULL)] *)
Fixpoint free_slot (fuel : nat) (table : list unique_sym) (size hash2 idx : Z) : res Z :=
  match fuel with
  | O => Diverge
  | S fuel =>
      e ← rd table idx;
      match us_name e with
      | None => mret idx
      | Some _ => free_slot fuel table size hash2 (next_idx size hash2 idx)
      end
  end.

Definition enter_unique_sym (table : list unique_sym) (size hash : Z) (e : unique_sym)
  : res (list unique_sym) :=
  idx ← free_slot (length table) table size (1 + hash mod (size - 2)) (hash mod size);
  wr table idx e.

(** The search loop of [do_lookup_unique]. *)
Fixpoint find_unique (fuel : nat) (entries : list unique_sym) (size new_hash : Z) (name : string)
    (hash2 idx : Z) : res (option unique_sym) :=
  match fuel with
  | O => Diverge
  | S fuel =>
      e ← rd entries idx;
      hit ← (if us_hashval e =? new_hash
             then match us_name e with None => Undef | Some n => mret (str_eqb n name) end
             else mret false);
      if (hit : bool) then mret (Some e)
      else match us_name e with
           | None => mret None
           | Some _ => find_unique fuel entries size new_hash name hash2 (next_idx size hash2 idx)
           end
  end.

(** [for (idx = 0; idx < size; ++idx) if (entries[idx].name != NULL) enter (newentries, ...)] *)
Fixpoint rehash (entries : list unique_sym) (newsize : Z) (newentries : list unique_sym)
  : res (list unique_sym) :=
  match entries with
  | [] => mret newentries
  | e :: entries' =>
      match us_name e with
      | None => rehash entries' newsize newentries
      | Some _ =>
          newentries ← enter_unique_sym newentries newsize (us_hashval e) e;
          rehash entries' newsize newentries
      end
  end.

Definition INITIAL_NUNIQUE_SYM_TABLE : Z := 31.

(** Expansion of a table that is three quarters full. *)
Definition grow (callocs : Z -> bool) (entries : list unique_sym) (tab : unique_sym_table)
  : res unique_sym_table :=
  if u64 (ut_size tab * 3) <=? u64 (ut_n_elements tab * 4) then
    newsize ← HigherPrime._dl_higher_prime_number (u64 (ut_size tab + 1));
    if callocs newsize then
      newentries ← rehash entries newsize (replicate (Z.to_nat newsize) us_free);
      mret (mkUtab (Some newentries) newsize (ut_n_elements tab))
    else Fatal "out of memory"
  else mret tab.

(** The table part of [do_lookup_unique]: the entry found, or the table ready to take
    a new one. *)
Definition find_or_prepare (callocs : Z -> bool) (tab : unique_sym_table) (new_hash : Z)
    (name : string) : res (unique_sym + unique_sym_table) :=
  match ut_entries tab with
  | Some entries =>
      let size := ut_size tab in
      r ← find_unique (length entries) entries size new_hash name
            (1 + new_hash mod (size - 2)) (new_hash mod size);
      match r with
      | Some e => mret (inl e)
      | None => tab ← grow callocs entries tab; mret (inr tab)
      end
  | None =>
      if callocs INITIAL_NUNIQUE_SYM_TABLE then
        mret (inr (mkUtab (Some (replicate 31 us_free)) INITIAL_NUNIQUE_SYM_TABLE
                     (ut_n_elements tab)))
      else Fatal "out of memory"
  end.

(** Store a new entry; [++tab->n_elements]. *)
Definition add_unique (tab : unique_sym_table) (e : unique_sym) : res unique_sym_table :=
  match ut_entries tab with
  | Some entries =>
      entries ← enter_unique_sym entries (ut_size tab) (us_hashval e) e;
      mret (mkUtab (Some entries) (ut_size tab) (u64 (ut_n_elements tab + 1)))
  | None => Undef
  end.

(** [do_lookup_unique]: [sym] is a symbol of the link map [mid] with the name
    [name] in its string table; the result replaces [*result]. *)
Definition do_lookup_unique (undef_name : string) (new_hash : Z) (mid : mapid)
    (type_class : Z) (sym : symref) (name : string) (ref : option symref)
    (undef_map : option mapid) (flags : Z) : M world sym_val :=
  map ← get_map mid;
  ns ← get_ns (l_ns map);
  cf ← gets w_conf;
  r ← lift (find_or_prepare (calloc_ok cf) (ns_unique ns) new_hash undef_name);
  match r with
  | inl e =>
      if has_flag type_class ELF_RTYPE_CLASS_COPY then mret (mkVal (Some sym) (Some mid))
      else mret (mkVal (us_sym e) (us_map e))
  | inr tab =>
      let copy := has_flag type_class ELF_RTYPE_CLASS_COPY in
      tab ← lift (add_unique tab
        (if copy then mkUnique new_hash (Some name) ref undef_map
         else mkUnique new_hash (Some name) (Some sym) (Some mid)));
      when (negb copy && bool_decide (l_type map = lt_loaded) && negb (is_nodelete flags map))
        (modify (with_map mid (mark_nodelete flags)));;
      set_unique (l_ns map) tab;;
      mret (mkVal (Some sym) (Some mid))
  end.

(** ** The table as an open-addressing table

    A used entry is a key (hash and name) with its symbol and object. *)
Abbreviation ukey := (Z * string)%type.
Abbreviation uval := (option symref * option mapid)%type.

Definition slot_of (e : unique_sym) : option (ukey * uval) :=
  match us_name e with
  | None => None
  | Some n => Some ((us_hashval e, n), (us_sym e, us_map e))
  end.

Definition slots (entries : list unique_sym) : list (option (ukey * uval)) :=
  slot_of <$> entries.

Definition uprobe (p : Z) (k : ukey) (j : nat) : nat :=
  Z.to_nat ((k.1 mod p + Z.of_nat j * (1 + k.1 mod (p - 2))) mod p).

#[export] Instance uprobe_seq p : Z.prime p -> 3 <= p -> ProbeSeq (Z.to_nat p) (uprobe p).
Proof.
  intros Hp H3. split.
  - intros k j. unfold uprobe. pose proof (Z.mod_pos_bound (k.1 mod p + Z.of_nat j * (1 + k.1 mod (p - 2))) p). lia.
  - intros k i j Hi Hj H. unfold uprobe in H.
    pose proof (Z.mod_pos_bound (k.1 mod p + Z.of_nat i * (1 + k.1 mod (p - 2))) p).
    pose proof (Z.mod_pos_bound (k.1 mod p + Z.of_nat j * (1 + k.1 mod (p - 2))) p).
    pose proof (Z.mod_pos_bound k.1 (p - 2)).
    enough (Z.of_nat i = Z.of_nat j) by lia.
    apply (mod_step_inj p Hp (k.1 mod p) (1 + k.1 mod (p - 2))); lia.
Qed.

Lemma next_idx_mod p d x :
  0 < d < p -> p < 2 ^ 33 -> next_idx p d (x mod p) = (x + d) mod p.
Proof.
  intros Hd Hp. unfold next_idx. pose proof (Z.mod_pos_bound x p ltac:(lia)).
  rewrite u64_small by lia. rewrite <- Zplus_mod_idemp_l.
  destruct (Z.leb_spec p (x mod p + d)).
  - apply (Z.mod_unique_pos _ _ 1); lia.
  - symmetry. apply Z.mod_small. lia.
Qed.

Section Table.
Context (p : Z) (Hprime : Z.prime p) (Hp3 : 3 <= p) (Hp33 : p < 2 ^ 33).
Local Instance : ProbeSeq (Z.to_nat p) (uprobe p) := uprobe_seq p Hprime Hp3.

Definition start (k : ukey) (j : nat) : Z :=
  (k.1 mod p + Z.of_nat j * (1 + k.1 mod (p - 2))) mod p.

Lemma start_0 k : start k 0 = k.1 mod p.
Proof. unfold start. rewrite Z.mul_0_l, Z.add_0_r. apply Z.mod_mod. lia. Qed.

Lemma start_S k j : next_idx p (1 + k.1 mod (p - 2)) (start k j) = start k (S j).
Proof.
  unfold start. pose proof (Z.mod_pos_bound k.1 (p - 2) ltac:(lia)).
  rewrite next_idx_mod by lia. f_equal. lia.
Qed.

Lemma start_probe k j : start k j = Z.of_nat (uprobe p k j).
Proof.
  unfold start, uprobe. rewrite Z2Nat.id; [done|]. apply Z.mod_pos_bound. lia.
Qed.

Lemma rd_slot entries k j :
  length entries = Z.to_nat p ->
  exists e, rd entries (start k j) = Ok e /\ slots entries !! uprobe p k j = Some (slot_of e).
Proof.
  intros Hlen. destruct (lookup_lt_is_Some_2 entries (uprobe p k j)) as [e He].
  { rewrite Hlen. apply probe_lt. }
  exists e. split.
  - rewrite start_probe. by apply rd_nat.
  - unfold slots. by rewrite list_lookup_fmap, He.
Qed.

(** The loop of [enter_unique_sym] stops where the abstract walk stops, when the key
    is not in the table. *)
Lemma free_slot_walk fuel entries k j i :
  length entries = Z.to_nat p ->
  walk (uprobe p) fuel (slots entries) k j = Free i ->
  free_slot fuel entries p (1 + k.1 mod (p - 2)) (start k j) = Ok (Z.of_nat i).
Proof.
  intros Hlen. revert j. induction fuel as [|fuel IH]; intros j; simpl; [done|].
  destruct (rd_slot entries k j Hlen) as (e & He & Hs). rewrite He, Hs. simpl.
  unfold slot_of. destruct (us_name e) as [n|].
  - case_decide; [done|]. intros Hw. rewrite start_S. by apply IH.
  - intros [= <-]. by rewrite start_probe.
Qed.

Lemma find_unique_walk fuel entries k j :
  length entries = Z.to_nat p -> k.1 <> 0 ->
  (forall e, e ∈ entries -> us_name e = None -> us_hashval e = 0) ->
  find_unique fuel entries p k.1 k.2 (1 + k.1 mod (p - 2)) (start k j) =
  match walk (uprobe p) fuel (slots entries) k j with
  | Found i v => Ok (Some (mkUnique k.1 (Some k.2) v.1 v.2))
  | Free _ => Ok None
  | Full => Diverge
  end.
Proof.
  intros Hlen Hk Hfree. revert j. induction fuel as [|fuel IH]; intros j; simpl; [done|].
  destruct (rd_slot entries k j Hlen) as (e & He & Hs). rewrite He, Hs. simpl.
  destruct k as [kh kn]. destruct e as [eh [n|] es em]; cbn.
  - destruct (Z.eqb_spec eh kh) as [->|Hne]; cbn.
    + destruct (decide ((kh, n) = (kh, kn))) as [[= ->]|Hne].
      * by rewrite str_eqb_refl.
      * rewrite (proj2 (str_eqb_false n kn)) by congruence. cbn in *.
        rewrite <- IH. f_equal. apply (start_S (kh, kn)).
    + rewrite decide_False by congruence. rewrite <- IH. f_equal. apply (start_S (kh, kn)).
  - assert (eh = 0) as ->.
    { apply (Hfree (mkUnique eh None es em)); [|done]. apply rd_Ok in He as [_ He].
      by apply list_elem_of_lookup_2 in He. }
    destruct (Z.eqb_spec 0 kh); [simpl in Hk; lia|]. done.
Qed.

End Table.

(** ** Counting entries *)
Definition used (entries : list unique_sym) : nat :=
  length (filter (fun e => us_name e <> None) entries).

Definition bound_in (entries : list unique_sym) (k : ukey) (v : uval) : Prop :=
  Some (k, v) ∈ slots entries.

Definition clean (entries : list unique_sym) : Prop :=
  Forall (fun e => us_name e = None -> us_hashval e = 0) entries.

Lemma used_cons e es : used (e :: es) = ((if us_name e is Some _ then 1 else 0) + used es)%nat.
Proof.
  unfold used. rewrite filter_cons. destruct (us_name e); case_decide; try done; congruence.
Qed.

Lemma used_le es : (used es <= length es)%nat.
Proof. unfold used. apply length_filter. Qed.

Lemma used_insert es i e e' :
  es !! i = Some e -> us_name e = None -> us_name e' <> None -> used (<[i := e']> es) = S (used es).
Proof.
  revert i. induction es as [|x es IH]; intros i Hi He He'; [done|]. destruct i as [|i]; simpl in *.
  - injection Hi as ->. rewrite !used_cons, He. by destruct (us_name e').
  - rewrite !used_cons, (IH i) by done. lia.
Qed.

Lemma free_exists es : (used es < length es)%nat -> exists i, slots es !! i = Some None.
Proof.
  induction es as [|e es IH]; simpl; [lia|]. rewrite used_cons. intros H.
  destruct (us_name e) eqn:He.
  - destruct IH as [i Hi]; [lia|]. by exists (S i).
  - exists 0%nat. simpl. unfold slot_of. by rewrite He.
Qed.

Lemma slots_insert es i e : slots (<[i := e]> es) = <[i := slot_of e]> (slots es).
Proof. unfold slots. apply list_fmap_insert. Qed.

Lemma has_key_bound es k : has_key (slots es) k <-> exists v, bound_in es k v.
Proof.
  unfold has_key, bound_in. setoid_rewrite list_elem_of_lookup. naive_solver.
Qed.

Lemma clean_insert es i e : clean es -> us_name e <> None -> clean (<[i := e]> es).
Proof.
  intros Hc He. by apply Forall_insert.
Qed.

Lemma bound_insert es i k v e :
  slots es !! i = Some None -> slot_of e = Some (k, v) ->
  forall k' v', bound_in (<[i := e]> es) k' v' <-> (k' = k /\ v' = v) \/ bound_in es k' v'.
Proof.
  intros Hi He k' v'. unfold bound_in. rewrite slots_insert, He, !list_elem_of_lookup.
  pose proof (lookup_lt_Some _ _ _ Hi) as Hlt. split.
  - intros [j Hj]. destruct (decide (j = i)) as [->|Hne].
    + rewrite list_lookup_insert_eq in Hj by done. left. naive_solver.
    + rewrite list_lookup_insert_ne in Hj by done. eauto.
  - intros [[-> ->]|[j Hj]].
    + exists i. by rewrite list_lookup_insert_eq.
    + exists j. rewrite list_lookup_insert_ne; [done|]. congruence.
Qed.

Section Entries.
Context (p : Z) (Hprime : Z.prime p) (Hp3 : 3 <= p) (Hp33 : p < 2 ^ 33).
Local Instance : ProbeSeq (Z.to_nat p) (uprobe p) := uprobe_seq p Hprime Hp3.

(** The state of the entries between two operations. *)
Definition wf_entries (es : list unique_sym) : Prop :=
  length es = Z.to_nat p /\ wf_table (Z.to_nat p) (uprobe p) (slots es) /\ clean es.

Lemma enter_spec es k v e :
  wf_entries es -> slot_of e = Some (k, v) -> (forall v', ~ bound_in es k v') ->
  (used es < Z.to_nat p)%nat ->
  exists es', enter_unique_sym es p k.1 e = Ok es' /\ wf_entries es' /\ used es' = S (used es) /\
    forall k' v', bound_in es' k' v' <-> (k' = k /\ v' = v) \/ bound_in es k' v'.
Proof.
  intros (Hlen & Hwf & Hcl) He Hno Hroom.
  destruct (free_exists es) as [i0 Hi0]; [lia|].
  destruct (walk_free_exists (Z.to_nat p) (uprobe p) (slots es) k i0) as [i Hi]; [done| |done|].
  { rewrite has_key_bound. intros [v' Hv']. by apply (Hno v'). }
  pose proof (walk_spec (Z.to_nat p) (uprobe p) (slots es) k Hwf) as Hs. rewrite Hi in Hs.
  destruct Hs as [Hslot _]. pose proof (lookup_lt_Some _ _ _ Hslot) as Hlt.
  unfold slots in Hlt. rewrite length_fmap in Hlt.
  assert (Hname : us_name e <> None) by (unfold slot_of in He; by destruct (us_name e)).
  exists (<[i := e]> es). split; [|split; [split; [|split]|split]].
  - unfold enter_unique_sym. rewrite Hlen, <- (start_0 p Hp3 k).
    rewrite (free_slot_walk p Hprime Hp3 Hp33 _ es k 0 i) by done. cbn.
    rewrite wr_Ok by lia. by rewrite Nat2Z.id.
  - by rewrite length_insert.
  - rewrite slots_insert, He. eapply insert_wf; [apply _|done|done].
  - by apply clean_insert.
  - destruct (es !! i) as [e0|] eqn:Hei; [|apply lookup_ge_None in Hei; lia].
    apply used_insert with e0; [done| |done].
    unfold slots in Hslot. rewrite list_lookup_fmap, Hei in Hslot. unfold slot_of in Hslot.
    simpl in Hslot. by destruct (us_name e0).
  - by apply bound_insert.
Qed.

Lemma find_spec es k :
  wf_entries es -> (used es < Z.to_nat p)%nat -> k.1 <> 0 ->
  (forall v, bound_in es k v ->
     find_unique (length es) es p k.1 k.2 (1 + k.1 mod (p - 2)) (k.1 mod p)
       = Ok (Some (mkUnique k.1 (Some k.2) v.1 v.2))) /\
  ((forall v, ~ bound_in es k v) ->
     find_unique (length es) es p k.1 k.2 (1 + k.1 mod (p - 2)) (k.1 mod p) = Ok None).
Proof.
  intros (Hlen & Hwf & Hcl) Hroom Hk.
  rewrite <- (start_0 p Hp3 k). 
  rewrite (find_unique_walk p Hprime Hp3 Hp33 _ es k 0 Hlen Hk (proj1 (Forall_forall _ _) Hcl)), Hlen.
  pose proof (walk_spec (Z.to_nat p) (uprobe p) (slots es) k Hwf) as Hs.
  destruct (free_exists es) as [i0 Hi0]; [lia|]. split.
  - intros v [i Hi]%list_elem_of_lookup.
    by rewrite (walk_found_unique (Z.to_nat p) (uprobe p) _ _ _ _ Hwf Hi).
  - intros Hno. destruct (walk_free_exists (Z.to_nat p) (uprobe p) (slots es) k i0) as [i ->];
      [done| |done|done].
    rewrite has_key_bound. intros [v' Hv']. by apply (Hno v').
Qed.

(** Moving a list of entries with distinct keys into a table with room for them. *)
Lemma rehash_spec old es :
  wf_entries es -> keys_unique (slots old) -> (used old + used es < Z.to_nat p)%nat ->
  (forall k v v', bound_in old k v -> ~ bound_in es k v') ->
  exists es', rehash old p es = Ok es' /\ wf_entries es' /\ used es' = (used old + used es)%nat /\
    forall k v, bound_in es' k v <-> bound_in old k v \/ bound_in es k v.
Proof.
  revert es. induction old as [|e old IH]; intros es Hwf Hku Hroom Hdis; simpl.
  { exists es. split; [done|]. split; [done|]. split; [done|]. intros k v. unfold bound_in at 2. set_solver. }
  rewrite used_cons in Hroom |- *.
  assert (Hku' : keys_unique (slots old)).
  { intros i i' k v v' Hi Hi'. enough (S i = S i') by congruence. by apply (Hku (S i) (S i') k v v'). }
  destruct (us_name e) as [n|] eqn:Hn.
  - assert (Hslot : slot_of e = Some ((us_hashval e, n), (us_sym e, us_map e)))
      by (unfold slot_of; by rewrite Hn).
    destruct (enter_spec es (us_hashval e, n) (us_sym e, us_map e) e)
      as (es1 & He1 & Hwf1 & Hu1 & Hb1); [done|done| |lia|].
    { intros v'. apply (Hdis _ (us_sym e, us_map e)). unfold bound_in. simpl. rewrite Hslot. set_solver. }
    simpl in He1. rewrite He1. simpl. destruct (IH es1) as (es2 & He2 & Hwf2 & Hu2 & Hb2); [done|done|lia| |].
    { intros k v v' Hkv [[-> _]|Hkv']%Hb1.
      - apply list_elem_of_lookup in Hkv as [i Hi].
        assert (S i = 0%nat); [|done]. apply (Hku _ _ (us_hashval e, n) v (us_sym e, us_map e)).
        + done.
        + simpl. by rewrite Hslot.
      - apply (Hdis k v v'); [|done]. unfold bound_in in *. simpl. set_solver. }
    exists es2. split; [done|]. split; [done|]. split; [lia|]. intros k v.
    rewrite Hb2, Hb1. unfold bound_in at 3. simpl. rewrite elem_of_cons, Hslot.
    fold (bound_in old k v). split; [|naive_solver].
    intros [?|[[-> ->]|?]]; auto.
  - assert (Hslot : slot_of e = None) by (unfold slot_of; by rewrite Hn).
    destruct (IH es) as (es2 & He2 & Hwf2 & Hu2 & Hb2); [done|done|lia| |].
    { intros k v v' Hkv. apply (Hdis k v). unfold bound_in in *. simpl. set_solver. }
    exists es2. split; [done|]. split; [done|]. split; [done|]. intros k v. rewrite Hb2.
    unfold bound_in at 3. simpl. rewrite elem_of_cons, Hslot. naive_solver.
Qed.

Lemma fresh_wf : wf_entries (replicate (Z.to_nat p) us_free) /\
  used (replicate (Z.to_nat p) us_free) = 0%nat /\
  forall k v, ~ bound_in (replicate (Z.to_nat p) us_free) k v.
Proof.
  unfold slots, bound_in. assert (Hs : slots (replicate (Z.to_nat p) us_free) = replicate (Z.to_nat p) None).
  { unfold slots. by rewrite fmap_replicate. }
  split; [split; [apply length_replicate|split]|split].
  - rewrite Hs. by apply empty_wf.
  - by apply Forall_replicate.
  - generalize (Z.to_nat p). induction n as [|n IHn]; simpl; [done|]. by rewrite used_cons, IHn.
  - intros k v. rewrite Hs. intros [[=] _]%elem_of_replicate.
Qed.

End Entries.

(** ** The table *)
Definition wf_utab (tab : unique_sym_table) : Prop :=
  match ut_entries tab with
  | None => ut_n_elements tab = 0
  | Some es =>
      Z.prime (ut_size tab) /\ 31 <= ut_size tab <= 2147483647 /\
      wf_entries (ut_size tab) es /\
      ut_n_elements tab = Z.of_nat (used es) /\ ut_n_elements tab < ut_size tab
  end.

(** What the table says: [bound tab k v], the key [k] is bound to [v]. *)
Definition bound (tab : unique_sym_table) (k : ukey) (v : uval) : Prop :=
  exists es, ut_entries tab = Some es /\ bound_in es k v.

Lemma wf_utab_size tab es :
  wf_utab tab -> ut_entries tab = Some es ->
  Z.prime (ut_size tab) /\ 3 <= ut_size tab /\ ut_size tab < 2 ^ 33 /\
  wf_entries (ut_size tab) es /\ (used es < Z.to_nat (ut_size tab))%nat.
Proof.
  intros Hwf He. unfold wf_utab in Hwf. rewrite He in Hwf.
  destruct Hwf as (Hp & Hr & Hes & Hn & Hlt). auto with lia.
Qed.

(** After [grow] the table says the same and has room for one more entry. *)
Lemma grow_spec callocs tab es :
  wf_utab tab -> ut_entries tab = Some es -> ut_size tab <= 2 ^ 30 -> (forall n, callocs n = true) ->
  exists tab' es', grow callocs es tab = Ok tab' /\ ut_entries tab' = Some es' /\ wf_utab tab' /\
    ut_n_elements tab' + 1 < ut_size tab' /\
    forall k v, bound_in es' k v <-> bound_in es k v.
Proof.
  intros Hwf He Hsz Hc. pose proof (wf_utab_size tab es Hwf He) as (Hp & H3 & H33 & Hes & Hu).
  pose proof Hwf as Hwf'. unfold wf_utab in Hwf'. rewrite He in Hwf'.
  destruct Hwf' as (_ & Hr & _ & Hn & Hlt). unfold grow.
  rewrite !u64_small by lia. destruct (Z.leb_spec (ut_size tab * 3) (ut_n_elements tab * 4)).
  - destruct (HigherPrime.higher_prime_number_correct (ut_size tab + 1)) as (q & Hq & Hqp & Hge & Hqr & Hleast);
      [lia|]. rewrite Hq. cbn. rewrite Hc.
    assert (Hq31 : q <= 2147483647).
    { apply Hleast; [|lia]. unfold HigherPrime.primes. set_solver. }
    destruct (fresh_wf q) as (Hf & Hf0 & Hfb).
    destruct (rehash_spec q Hqp ltac:(lia) ltac:(lia) es (replicate (Z.to_nat q) us_free))
      as (es' & Hes' & Hwf' & Hu' & Hb'); [done|apply Hes|lia|by intros; apply Hfb|].
    rewrite Hes'. cbn. eexists _, es'. split; [done|]. split; [done|]. split; [|split].
    + unfold wf_utab. cbn. split; [done|]. split; [lia|]. split; [done|]. lia.
    + cbn. lia.
    + intros k v. rewrite Hb'. split; [|auto]. intros [?|?]; [done|]. by destruct (Hfb k v).
  - exists tab, es. split; [done|]. split; [done|]. split; [done|]. split; [lia|done].
Qed.

(** A key that is bound is found; otherwise the table is ready to take it. *)
Lemma find_or_prepare_spec callocs tab k :
  wf_utab tab -> k.1 <> 0 ->
  (forall v, bound tab k v -> find_or_prepare callocs tab k.1 k.2
                              = Ok (inl (mkUnique k.1 (Some k.2) v.1 v.2))) /\
  (ut_size tab <= 2 ^ 30 -> (forall n, callocs n = true) ->
   (forall v, ~ bound tab k v) -> exists tab', find_or_prepare callocs tab k.1 k.2 = Ok (inr tab') /\
     wf_utab tab' /\ ut_n_elements tab' + 1 < ut_size tab' /\ ut_entries tab' <> None /\
     forall k' v', bound tab' k' v' <-> bound tab k' v').
Proof.
  intros Hwf Hk. unfold find_or_prepare, bound. destruct (ut_entries tab) as [es|] eqn:He.
  - pose proof (wf_utab_size tab es Hwf He) as (Hp & H3 & H33 & Hes & Hu).
    destruct (find_spec _ Hp H3 H33 es k Hes Hu Hk) as [Hf Hnf]. split.
    + intros v (es1 & [= <-] & Hv). by rewrite (Hf v Hv).
    + intros Hsz Hc Hno. rewrite Hnf by naive_solver. cbn.
      destruct (grow_spec callocs tab es Hwf He Hsz Hc) as (tab' & es' & -> & He' & Hwf' & Hroom & Hb).
      cbn. exists tab'. split; [done|]. split; [done|]. split; [done|]. split; [congruence|].
      intros k' v'. rewrite He'. naive_solver.
  - split; [intros v (? & [=] & _)|]. intros _ Hc _. rewrite Hc.
    destruct (fresh_wf 31) as (Hf & Hf0 & Hfb).
    unfold wf_utab in Hwf. rewrite He in Hwf.
    eexists. split; [done|]. unfold wf_utab. cbn [ut_entries ut_size ut_n_elements]. change (Z.to_nat 31) with 31%nat in *.
    unfold INITIAL_NUNIQUE_SYM_TABLE.
    split; [split; [apply IsPrime.isprime_true; [lia|done|reflexivity]|]|].
    + rewrite Hf0. split; [lia|]. split; [done|]. lia.
    + split; [lia|]. split; [done|].
      intros k' v'. split; [|intros (? & [=] & _)]. intros (? & [= <-] & Hb). by destruct (Hfb k' v').
Qed.

Lemma add_unique_spec tab e k v :
  wf_utab tab -> ut_n_elements tab + 1 < ut_size tab -> ut_entries tab <> None ->
  slot_of e = Some (k, v) -> (forall v', ~ bound tab k v') ->
  exists tab', add_unique tab e = Ok tab' /\ wf_utab tab' /\ ut_size tab' = ut_size tab /\
    forall k' v', bound tab' k' v' <-> (k' = k /\ v' = v) \/ bound tab k' v'.
Proof.
  intros Hwf Hroom Hne Hs Hno. unfold add_unique, bound in *. destruct (ut_entries tab) as [es|] eqn:He; [|done].
  pose proof (wf_utab_size tab es Hwf He) as (Hp & H3 & H33 & Hes & Hu).
  unfold wf_utab in Hwf. rewrite He in Hwf. destruct Hwf as (_ & Hr & _ & Hn & Hlt).
  destruct (enter_spec _ Hp H3 H33 es k v e Hes Hs) as (es' & He' & Hwf' & Hu' & Hb'); [naive_solver|lia|].
  replace (us_hashval e) with k.1.
  2:{ unfold slot_of in Hs. destruct (us_name e); [|done]. by injection Hs as <- <-. }
  rewrite He'. cbn. eexists. split; [done|]. rewrite u64_small by lia. unfold wf_utab. cbn. split; [|split].
  - split; [done|]. split; [done|]. split; [done|]. rewrite Hu'. lia.
  - done.
  - intros k' v'. specialize (Hb' k' v'). naive_solver.
Qed.

(** ** [do_lookup_unique] *)

Lemma bound_functional tab k v v' : wf_utab tab -> bound tab k v -> bound tab k v' -> v = v'.
Proof.
  intros Hwf (es & He & Hv) (es' & He' & Hv'). rewrite He in He'. injection He' as <-.
  pose proof (wf_utab_size tab es Hwf He) as (_ & _ & _ & (_ & (_ & _ & Hu) & _) & _).
  apply list_elem_of_lookup in Hv as [i Hi]. apply list_elem_of_lookup in Hv' as [i' Hi'].
  pose proof (Hu _ _ _ _ _ Hi Hi') as ->. congruence.
Qed.

Lemma bound_dec tab k : (exists v, bound tab k v) \/ forall v, ~ bound tab k v.
Proof.
  unfold bound. destruct (ut_entries tab) as [es|]; [|right; intros v (? & [=] & _)].
  induction es as [|e es IH].
  - right. intros v (? & [= <-] & H). by apply elem_of_nil in H.
  - destruct IH as [(v & ? & [= <-] & Hv)|IH].
    { left. exists v, (e :: es). split; [done|]. by apply list_elem_of_further. }
    destruct (decide (fst <$> slot_of e = Some k)) as [Hk|Hk].
    + destruct (slot_of e) as [[k' v]|] eqn:He; [|done]. injection Hk as ->.
      left. exists v, (e :: es). split; [done|]. unfold bound_in. cbn. rewrite He. apply list_elem_of_here.
    + right. intros v (? & [= <-] & Hv). unfold bound_in in Hv. cbn in Hv.
      apply elem_of_cons in Hv as [Hv|Hv]; [|by apply (IH v); eauto].
      by rewrite <- Hv in Hk.
Qed.

Section Lookup.
Context (w : world) (mid : mapid) (map : link_map) (ns : namespace).
Context (name : string) (hash tc flags : Z).
Context (Hmap : w_maps w !! mid = Some map) (Hns : w_ns w !! l_ns map = Some ns).
Context (Hwf : wf_utab (ns_unique ns)) (Hhash : hash <> 0).
Context (Hcopy : has_flag tc ELF_RTYPE_CLASS_COPY = false).

(** A name that is bound in the namespace keeps its binding, whatever object the
    search met, and the state does not change. *)
Lemma lookup_unique_bound sym ref um v :
  bound (ns_unique ns) (hash, name) v ->
  do_lookup_unique name hash mid tc sym name ref um flags w = Ret (mkVal v.1 v.2) w.
Proof.
  intros Hb. unfold do_lookup_unique.
  rewrite (M_bind_step _ _ _ map w) by (unfold get_map; by rewrite Hmap).
  rewrite (M_bind_step _ _ _ ns w) by (unfold get_ns; by rewrite Hns).
  rewrite (M_bind_step _ _ _ (w_conf w) w) by done.
  destruct (find_or_prepare_spec (calloc_ok (w_conf w)) _ (hash, name) Hwf Hhash) as [Hf _].
  rewrite (M_bind_step _ _ _ (inl (mkUnique hash (Some name) v.1 v.2)) w)
    by (specialize (Hf v Hb); cbn in Hf; unfold lift; by rewrite Hf).
  by rewrite Hcopy.
Qed.

(** A new name is bound to the definition that was found, and nothing else changes. *)
Lemma lookup_unique_new sym ref um :
  ut_size (ns_unique ns) <= 2 ^ 30 -> (forall n, calloc_ok (w_conf w) n = true) ->
  (forall v, ~ bound (ns_unique ns) (hash, name) v) ->
  exists w' tab', do_lookup_unique name hash mid tc sym name ref um flags w
                  = Ret (mkVal (Some sym) (Some mid)) w' /\
    w_ns w' !! l_ns map = Some (mkNs (ns_loaded ns) tab') /\ wf_utab tab' /\
    forall k v, bound tab' k v <->
      (k = (hash, name) /\ v = (Some sym, Some mid)) \/ bound (ns_unique ns) k v.
Proof.
  intros Hsz Hc Hno. unfold do_lookup_unique.
  rewrite (M_bind_step _ _ _ map w) by (unfold get_map; by rewrite Hmap).
  rewrite (M_bind_step _ _ _ ns w) by (unfold get_ns; by rewrite Hns).
  rewrite (M_bind_step _ _ _ (w_conf w) w) by done.
  destruct (find_or_prepare_spec (calloc_ok (w_conf w)) _ (hash, name) Hwf Hhash) as [_ Hf].
  destruct Hf as (tab1 & H1 & Hwf1 & Hroom & Hne & Hb1); [done|done|done|].
  rewrite (M_bind_step _ _ _ (inr tab1) w) by (cbn in H1; unfold lift; by rewrite H1).
  rewrite Hcopy.
  destruct (add_unique_spec tab1 (mkUnique hash (Some name) (Some sym) (Some mid)) (hash, name)
              (Some sym, Some mid)) as (tab2 & H2 & Hwf2 & _ & Hb2); [done|done|done|done| |].
  { intros v' Hv'%Hb1. by apply (Hno v'). }
  rewrite (M_bind_step _ _ _ tab2 w) by (unfold lift; by rewrite H2).
  set (b := negb false && _ && _).
  exists (set_ns (<[l_ns map := mkNs (ns_loaded ns) tab2]> (w_ns w))
            (if b then with_map mid (mark_nodelete flags) w else w)), tab2.
  split; [|split; [|split; [done|]]].
  - destruct b; cbn; unfold set_unique, mbind, M_bind; cbn; autorewrite with frame; by rewrite Hns.
  - destruct b; autorewrite with frame; rewrite list_lookup_insert_eq; try done;
      by apply lookup_lt_Some in Hns.
  - intros k v. rewrite Hb2, Hb1. done.
Qed.
End Lookup.


(** The search compares names whenever the hash values agree, and a free entry
    has hash value zero and no name: a name whose GNU hash is zero, such as
    ["glidphc"], makes [strcmp] read a null pointer when the first slot is free. *)
Theorem zero_hash_reads_null callocs tab es :
  ut_entries tab = Some es -> es !! 0%nat = Some us_free -> ut_size tab <> 0 ->
  find_or_prepare callocs tab (NewHash._dl_new_hash "glidphc") "glidphc" = Undef.
Proof.
  intros He H0 Hsz. unfold find_or_prepare. rewrite He.
  change (NewHash._dl_new_hash "glidphc") with 0. rewrite (Z.mod_0_l (ut_size tab)) by done.
  destruct es as [|e es]; [done|]. injection H0 as ->. reflexivity.
Qed.

(** ** A namespace without unique symbols, and one object that defines ["inst"] *)
Module Example12.

Definition obj : link_map :=
  mkMap (mkIdent "libt.so" 0x7f0000 0 0 lt_loaded 1 false false false)
    (mkDyn [mkSym 0 0 0 0 0 0] "" no_hash None [] None None None None None)
    (mkDeps None None 0 [] []) (mkState false false false false false false false false 0 0)
    (mkCache None 0 None None) no_tls no_segs.
Definition w0 : world :=
  mkWorld {[0%nat := obj]} [mkNs [0%nat] (mkUtab None 0 0)] init_placeholders 0 0 0 0 ∅ (mkArea 0 0 0 0)
    (mkConfig false false (fun _ => true) (fun _ => true)).


Lemma zero_hash_reads_null_witness :
  find_or_prepare (fun _ => true) (mkUtab (Some (replicate 31 us_free)) 31 0) (NewHash._dl_new_hash "glidphc")
    "glidphc" = Undef.
Proof. by apply (zero_hash_reads_null (fun _ => true) _ (replicate 31 us_free)). Defined.

End Example12.
