(* ===== verification/Lookup.v ===== *)
(** * Symbol lookup

    [do_lookup_x], [add_dependency] and [_dl_lookup_symbol_x] of
    [elf/dl-lookup.c], with what PLaTypus adds to them: names recorded as
    placeholders are answered from the placeholder table before any search,
    and [callback_table] is looked up in the main program first and never
    reported as undefined.  Diagnostic output is not modelled. *)

From S2P Require Import Prelude ElfHash LinkMap SymHash UniqueSym.

(** ** [_dl_check_protected_symbol] ([sysdeps/generic/dl-protected.h]) *)
Definition _dl_check_protected_symbol (undef_name : string) (undef_map : option mapid)
    (ref : option symref) (map : link_map) (type_class : Z) : M world unit :=
  match undef_map with
  | None => mret tt
  | Some um =>
      u ← get_map um;
      if bool_decide (l_type u <> lt_executable) then mret tt
      else
        bad ← (if has_flag type_class ELF_RTYPE_CLASS_COPY then mret true
               else if has_flag type_class ELF_RTYPE_CLASS_PLT then
                 match ref with
                 | None => lift Undef
                 | Some r => s ← get_sym r;
                             mret (negb (st_value s =? 0) && (st_shndx s =? SHN_UNDEF))
                 end
               else mret false);
        if (bad : bool) && id_1_needed (l_id map)
        then lift (Signal (l_name map)
               "error due to GNU_PROPERTY_1_NEEDED_INDIRECT_EXTERN_ACCESS")
        else mret tt
  end.

(** ** [do_lookup_x] *)
Section DoLookup.
Context (undef_name : string) (new_hash : Z) (ref : option symref).
Context (version : option r_found_version) (flags : Z) (skip : option mapid).
Context (type_class : Z) (undef_map : option mapid).

(** What the loop carries: the cached System V hash and [*result]. *)
Record lstate := mkL { lk_old_hash : Z; lk_result : sym_val }.

(** [Next]: the object does not end the search; [Done]: the value 1 is returned. *)
Inductive step := Next (st : lstate) | Done (st : lstate).

(** The switch on the binding, after [found_it]. *)
Definition take_symbol (mid : mapid) (map : link_map) (idx : Z) (sym : Sym) (st : lstate)
  : M world step :=
  cf ← gets w_conf;
  let here := mkVal (Some (SymAt mid idx)) (Some mid) in
  if ST_BIND sym =? STB_WEAK then
    if dl_dynamic_weak cf then
      mret (Next (match sv_s (lk_result st) with
                  | None => mkL (lk_old_hash st) here
                  | Some _ => st
                  end))
    else mret (Done (mkL (lk_old_hash st) here))
  else if ST_BIND sym =? STB_GLOBAL then mret (Done (mkL (lk_old_hash st) here))
  else if ST_BIND sym =? STB_GNU_UNIQUE then
    name ← lift (cstr_at (l_strtab map) (st_name sym));
    v ← do_lookup_unique undef_name new_hash mid type_class (SymAt mid idx) name ref undef_map flags;
    mret (Done (mkL (lk_old_hash st) v))
  else mret (Next st).

(** The first two tests of the loop body that skip an object. *)
Definition skips (mid : mapid) (map : link_map) : bool :=
  bool_decide (skip = Some mid)
  || (has_flag type_class ELF_RTYPE_CLASS_COPY && bool_decide (l_type map = lt_executable)).

(** [map->l_removed && !(undef_map != NULL && undef_map->l_removed)] *)
Definition gone (map : link_map) : M world bool :=
  if l_removed map then
    match undef_map with
    | None => mret true
    | Some um => u ← get_map um; mret (negb (l_removed u))
    end
  else mret false.

Definition lookup_in_map (m : mapid) (st : lstate) : M world step :=
  lm ← get_map m;
  let mid := l_real lm in
  map ← get_map mid;
  if skips mid map then mret (Next st)
  else
    removed ← gone map;
    if removed || (l_nbuckets (l_hash map) =? 0) then mret (Next st)
    else
    '(found, old_hash) ← lift (search_map undef_name ref version flags type_class mid map
                                 new_hash (lk_old_hash st));
    let st := mkL old_hash (lk_result st) in
    match found with
    | None => mret (Next st)
    | Some idx =>
        sym ← lift (rd (l_symtab map) idx);
        if binds_local sym then mret (Next st)
        else
          (if ST_VISIBILITY sym =? STV_PROTECTED
           then _dl_check_protected_symbol undef_name undef_map ref map type_class
           else mret tt);;
          take_symbol mid map idx sym st
    end.

(** [do { ... } while (++i < n)] over the rest of the list. *)
Fixpoint lookup_list (list : list mapid) (st : lstate) : M world (bool * lstate) :=
  match list with
  | [] => mret (false, st)
  | m :: list' =>
      r ← lookup_in_map m st;
      match r with
      | Done st => mret (true, st)
      | Next st => lookup_list list' st
      end
  end.

(** Search the scope [scope] from index [i] on; the list has at least that many entries,
    otherwise the first read is out of bounds. *)
Definition do_lookup_x (scope : list mapid) (i : nat) (st : lstate) : M world (bool * lstate) :=
  match drop i scope with
  | [] => lift Undef
  | l => lookup_list l st
  end.

End DoLookup.

(** ** [add_dependency]

    With DL_LOOKUP_GSCOPE_LOCK the function gives up the scope flag before it
    takes the loader lock: [interfere] is what other threads do in between.
    The lists are compared by content where the code compares pointers first:
    the elements checked before the lock was taken do not contain [map]. *)
Section Dependency.
Context (interfere : world -> world).

(** [undef_map->l_reldeps] gets [map] as element [act]. *)
Definition append_reldep (undef_map map : mapid) (act : nat) (flags : Z) : M world Z :=
  um ← get_map undef_map;
  cf ← gets w_conf;
  if l_reldepsmax um <=? Z.of_nat act then
    let max := if l_reldepsmax um =? 0 then 10 else u32 (l_reldepsmax um * 2) in
    if malloc_ok cf max then
      match l_reldeps um, act with
      | None, S _ => lift Undef
      | old, _ =>
          modify (with_map undef_map
            (set_reldeps (take act (default [] old) ++ [map]) max));;
          mret 0
      end
    else modify (with_map map (mark_nodelete flags));; mret 0
  else
    match l_reldeps um with
    | None => lift Undef
    | Some l =>
        modify (with_map undef_map (set_reldeps (take act l ++ [map]) (l_reldepsmax um)));;
        mret 0
    end.

(** The label [out_check]. *)
Definition out_check (map : mapid) (serial : Z) : M world Z :=
  lm ← get_map map; mret (if l_serial lm =? serial then 0 else -1).

Definition mem (m : mapid) (l : list mapid) : bool := bool_decide (m ∈ l).

Definition add_dependency (undef_map map : mapid) (flags : Z) : M world Z :=
  if bool_decide (undef_map = map) then mret 0
  else
  lm ← get_map map;
  lift (c_assert (bool_decide (l_type lm = lt_loaded)) "map->l_type == lt_loaded");;
  if is_nodelete flags lm then mret 0
  else
  um ← get_map undef_map;
  let initfini := l_initfini um in
  if mem map (default [] initfini) then mret 0
  else if mem map (default [] (l_reldeps um)) then mret 0
  else
  let serial := l_serial lm in
  let act := length (default [] (l_reldeps um)) in
  let gscope := has_flag flags DL_LOOKUP_GSCOPE_LOCK in
  when gscope (modify interfere);;
  um ← get_map undef_map;
  if gscope && negb (bool_decide (l_initfini um = initfini))
     && mem map (default [] (l_initfini um)) then out_check map serial
  else if gscope && mem map (default [] (l_reldeps um)) then out_check map serial
  else
  let act := match l_reldeps um with
             | Some l => if gscope then length l else act
             | None => act
             end in
  ns ← get_ns (l_ns um);
  if negb (mem map (ns_loaded ns)) then mret (-1)
  else
  lm ← get_map map;
  if negb (l_serial lm =? serial) then out_check map serial
  else if is_nodelete flags lm then mret 0
  else if bool_decide (l_type um <> lt_loaded) || is_nodelete flags lm then
    modify (with_map map (mark_nodelete flags));; mret 0
  else append_reldep undef_map map act flags.

End Dependency.

(** ** [_dl_lookup_symbol_x] *)

(** The loop over the recorded placeholder names. *)
Fixpoint find_placeholder (fuel : nat) (undef_name : string) (ph : placeholders) (i : Z)
  : res (option Z) :=
  match fuel with
  | O => mret None
  | S fuel =>
      if placeholded ph <=? i then mret None
      else
        n ← rd (placeholder_symbols ph) i;
        if str_eqb undef_name n then mret (Some i)
        else find_placeholder fuel undef_name ph (i + 1)
  end.

(** The index of [skip_map] in the first scope. *)
Fixpoint skip_index (skip : mapid) (l : list mapid) : option nat :=
  match l with
  | [] => None
  | m :: l' => if decide (m = skip) then Some 0%nat else S <$> skip_index skip l'
  end.

Definition start_index (skip_map : option mapid) (symbol_scope : list (list mapid)) : res nat :=
  match skip_map with
  | None => mret 0%nat
  | Some s =>
      match symbol_scope with
      | [] => Undef
      | sc :: _ => res_of_option (skip_index s sc)
      end
  end.

Section Lookup.
(** Interference of other threads, per attempt (see [add_dependency]). *)
Context (interfere : nat -> world -> world).

(** The main loop over the scopes; for [callback_table] the main program alone is
    searched before each scope. *)
Fixpoint search_scopes (undef_name : string) (new_hash : Z) (ref : option symref)
    (version : option r_found_version) (flags : Z) (skip : option mapid) (type_class : Z)
    (undef_map : option mapid) (scopes : list (list mapid)) (start : nat) (st : lstate)
  : M world lstate :=
  match scopes with
  | [] => mret st
  | scope :: scopes' =>
      '(hit, st) ←
        (if str_eqb undef_name "callback_table" then
           m ← main_map;
           match m with
           | None => lift Undef
           | Some m => do_lookup_x undef_name new_hash ref version flags skip type_class undef_map
                         [m] 0 st
           end
         else mret (false, st));
      if (hit : bool) then mret st
      else
        '(hit, st) ← do_lookup_x undef_name new_hash ref version flags skip type_class undef_map
                       scope start st;
        if (hit : bool) then mret st
        else search_scopes undef_name new_hash ref version flags skip type_class undef_map
               scopes' 0 st
  end.

(** The second search, for a protected reference. *)
Fixpoint search_protected (undef_name : string) (new_hash : Z) (ref : option symref)
    (version : option r_found_version) (flags : Z) (skip : option mapid)
    (scopes : list (list mapid)) (i : nat) (st : lstate) : M world lstate :=
  match scopes with
  | [] => mret st
  | scope :: scopes' =>
      '(hit, st) ← do_lookup_x undef_name new_hash ref version flags skip ELF_RTYPE_CLASS_PLT None
                     scope i st;
      if (hit : bool) then mret st
      else search_protected undef_name new_hash ref version flags skip scopes' 0 st
  end.

(** No definition was found. *)
Definition not_found (undef_name : string) (undef_map : option mapid) (ref : option symref)
    (version : option r_found_version) : M world (option lmref * option symref) :=
  cf ← gets w_conf;
  strong ← (match ref with
            | None => mret true
            | Some r => s ← get_sym r; mret (negb (ST_BIND s =? STB_WEAK))
            end);
  if strong && negb (dl_debug_unused cf) then
    if str_eqb undef_name "callback_table" then
      match undef_map with
      | None => lift Undef
      | Some um => u ← get_map um; modify (set_exp_addr (l_addr u));; mret (Some LmExp, ref)
      end
    else
      name ← (match undef_map with
              | None => mret ""%string
              | Some um => u ← get_map um; mret (l_name u)
              end);
      let versionname := match version with
                         | Some v => ", version " +:+ default ""%string (ver_name v)
                         | None => ""%string
                         end in
      lift (Signal name ("undefined symbol: " +:+ undef_name +:+ versionname))
  else mret (None, None).

(** A protected reference is bound to its own definition. *)
Definition resolve_protected (undef_name : string) (new_hash : Z) (ref : option symref)
    (version : option r_found_version) (flags : Z) (skip : option mapid) (type_class : Z)
    (undef_map : option mapid) (symbol_scope : list (list mapid)) (i : nat) (st : lstate)
  : M world sym_val :=
  protected ← (match ref with
               | None => mret false
               | Some r => s ← get_sym r; mret (ST_VISIBILITY s =? STV_PROTECTED)
               end);
  if (protected : bool) then
    if type_class =? ELF_RTYPE_CLASS_PLT then
      mret (if bool_decide (sv_m (lk_result st) <> undef_map) then mkVal ref undef_map
            else lk_result st)
    else
      pst ← search_protected undef_name new_hash ref version flags skip symbol_scope i
              (mkL (lk_old_hash st) no_val);
      mret (match sv_s (lk_result pst) with
            | Some _ => if bool_decide (sv_m (lk_result pst) <> undef_map)
                        then mkVal ref undef_map else lk_result st
            | None => lk_result st
            end)
  else mret (lk_result st).

(** The result is the link map returned and the new value of [*ref].  [fuel]
    bounds the retries after a definition vanished. *)
Fixpoint _dl_lookup_symbol_x (fuel : nat) (undef_name : string) (undef_map : option mapid)
    (ref : option symref) (symbol_scope : list (list mapid)) (version : option r_found_version)
    (type_class flags : Z) (skip_map : option mapid) : M world (option lmref * option symref) :=
  ph ← gets w_ph;
  hit ← lift (if placeholded ph =? 0 then mret None
              else find_placeholder (Z.to_nat (placeholded ph)) undef_name ph 0);
  match hit with
  | Some i =>
      plt ← lift (rd (placeholder_plts ph) i);
      modify (set_fake_addr plt);;
      mret (Some LmFake, Some SymFake)
  | None =>
  let new_hash := NewHash._dl_new_hash undef_name in
  modify bump_num_relocations;;
  lift (c_assert (negb (bool_decide (is_Some version)) || negb (has_flag flags DL_LOOKUP_RETURN_NEWEST))
          "version == NULL || !(flags & DL_LOOKUP_RETURN_NEWEST)");;
  i ← lift (start_index skip_map symbol_scope);
  st ← search_scopes undef_name new_hash ref version flags skip_map type_class undef_map
         symbol_scope i (mkL 0xffffffff no_val);
  match sv_s (lk_result st) with
  | None => not_found undef_name undef_map ref version
  | Some _ =>
      v ← resolve_protected undef_name new_hash ref version flags skip_map type_class undef_map
            symbol_scope i st;
      match sv_m v with
      | None => lift Undef
      | Some m =>
          lm ← get_map m;
          dep ← (if bool_decide (l_type lm = lt_loaded) && has_flag flags DL_LOOKUP_ADD_DEPENDENCY
                 then match undef_map with
                      | None => lift Undef
                      | Some um => add_dependency (interfere fuel) um m flags
                      end
                 else mret 0);
          if dep <? 0 then
            match fuel with
            | O => lift Diverge
            | S fuel =>
                scope ← (if has_flag flags DL_LOOKUP_GSCOPE_LOCK then
                           match undef_map with
                           | None => lift Undef
                           | Some um => u ← get_map um; mret (dp_scope (l_deps u))
                           end
                         else mret symbol_scope);
                _dl_lookup_symbol_x fuel undef_name undef_map ref scope version type_class flags skip_map
            end
          else
            modify (with_map m (set_used true));;
            mret (Some (Lm m), sv_s v)
      end
  end
  end.

End Lookup.
