(* ===== verification/LookupSpec.v ===== *)
(** * What symbol lookup guarantees

    [Indexed] is the contract between an object's hash table and the search;
    the theorems below are proved against it, and [gnu_indexed] discharges it
    for GNU hash sections.  They state: interposition (the first definition in
    scope order is bound), the PLaTypus rules for [callback_table] and for
    recorded placeholders, and the behaviour when nothing is found. *)

From S2P Require Import Prelude ElfHash LinkMap SymHash SymHashSpec UniqueSym Lookup.

(** ** The contract of a hash table

    [order nm] lists the symbols the table offers for the name [nm], in the
    order in which they are tried. *)
Definition finish (r : option Z * vstate) : option Z :=
  match r with
  | (Some i, _) => Some i
  | (None, vs) => if num_versions vs =? 1 then versioned_sym vs else None
  end.

Definition spec_search (nm : string) (ref : option symref) (version : option r_found_version)
    (flags tc : Z) (mid : mapid) (map : link_map) (idxs : list Z) : res (option Z) :=
  r ← scan (check_match nm ref version flags tc mid map) idxs vs0; mret (finish r).

Class Indexed (mid : mapid) (map : link_map) (order : string -> list Z) : Prop := {
  indexed_buckets : l_nbuckets (l_hash map) <> 0;
  indexed_search : forall nm ref version flags tc old,
    ref_named nm ref mid map ->
    exists old', search_map nm ref version flags tc mid map (NewHash._dl_new_hash nm) old =
      (r ← spec_search nm ref version flags tc mid map (order nm); mret (r, old')) }.

(** All symbols of a GNU hash section, whatever the name. *)
Definition gnu_order (map : link_map) (nm : string) : list Z :=
  zseq (l_gnu_symbias (l_hash map)) (Z.to_nat (nsyms map - l_gnu_symbias (l_hash map))).

(** A well-formed GNU hash section fulfils the contract. *)
#[export] Instance gnu_indexed mid map bitmask :
  l_gnu_bitmask (l_hash map) = Some bitmask -> wf_gnu map bitmask ->
  Indexed mid map (gnu_order map).
Proof.
  intros Hb Hwf. split; [pose proof (wg_nbuckets _ _ Hwf); lia|].
  intros nm ref version flags tc old Href. exists old.
  unfold search_map, spec_search, gnu_order. rewrite Hb.
  rewrite (gnu_search_scan nm ref version flags tc mid map bitmask Href Hwf).
  destruct (scan _ _ _) as [[[i|] vs]| | | |]; done.
Qed.

Section Spec.
Context (w : world) (nm : string) (ref : option symref) (version : option r_found_version).
Context (flags tc : Z) (um : option mapid).

Local Abbreviation hash := (NewHash._dl_new_hash nm).
Local Abbreviation in_map := (lookup_in_map nm hash ref version flags None tc um).

(** The list entry [m] stands for the object [mid], which offers symbol [idx]. *)
Inductive provides (m : mapid) : mapid -> Z -> Prop :=
| Provides lm mid map order idx sym :
    w_maps w !! m = Some lm -> l_real lm = mid -> w_maps w !! mid = Some map ->
    skips None tc mid map = false -> l_removed map = false ->
    Indexed mid map order -> ref_named nm ref mid map ->
    spec_search nm ref version flags tc mid map (order nm) = Ok (Some idx) ->
    rd (l_symtab map) idx = Ok sym -> ST_VISIBILITY sym = 0 ->
    (ST_BIND sym = STB_GLOBAL \/ ST_BIND sym = STB_WEAK /\ dl_dynamic_weak (w_conf w) = false) ->
    provides m mid idx.

(** The list entry [m] does not end the search: the object is skipped, has no
    hash table, offers no match, or only one of local visibility. *)
Inductive rejects (m : mapid) : Prop :=
| RejSkip lm map :
    w_maps w !! m = Some lm -> w_maps w !! l_real lm = Some map ->
    skips None tc (l_real lm) map = true -> rejects m
| RejEmpty lm map :
    w_maps w !! m = Some lm -> w_maps w !! l_real lm = Some map ->
    skips None tc (l_real lm) map = false -> l_removed map = false ->
    l_nbuckets (l_hash map) = 0 -> rejects m
| RejNone lm map order :
    w_maps w !! m = Some lm -> w_maps w !! l_real lm = Some map ->
    skips None tc (l_real lm) map = false -> l_removed map = false ->
    Indexed (l_real lm) map order -> ref_named nm ref (l_real lm) map ->
    spec_search nm ref version flags tc (l_real lm) map (order nm) = Ok None -> rejects m
| RejHidden lm map order idx sym :
    w_maps w !! m = Some lm -> w_maps w !! l_real lm = Some map ->
    skips None tc (l_real lm) map = false -> l_removed map = false ->
    Indexed (l_real lm) map order -> ref_named nm ref (l_real lm) map ->
    spec_search nm ref version flags tc (l_real lm) map (order nm) = Ok (Some idx) ->
    rd (l_symtab map) idx = Ok sym -> binds_local sym = true -> rejects m.

(** Run [lookup_in_map] up to the search of the hash table. *)
Lemma in_map_start m lm map st :
  w_maps w !! m = Some lm -> w_maps w !! l_real lm = Some map ->
  skips None tc (l_real lm) map = false -> l_removed map = false ->
  in_map m st w =
  (if l_nbuckets (l_hash map) =? 0 then Ret (Next st) w
   else
   (('(found, old_hash) ← lift (search_map nm ref version flags tc (l_real lm) map hash (lk_old_hash st));
     let st := mkL old_hash (lk_result st) in
     match found with
     | None => mret (Next st)
     | Some idx =>
         sym ← lift (rd (l_symtab map) idx);
         if binds_local sym then mret (Next st)
         else
           (if ST_VISIBILITY sym =? STV_PROTECTED
            then _dl_check_protected_symbol nm um ref map tc else mret tt);;
           take_symbol nm hash ref flags tc um (l_real lm) map idx sym st
     end) w)).
Proof.
  intros Hm Hr Hs Hrm. unfold lookup_in_map.
  rewrite (M_bind_step _ _ _ lm w) by (unfold get_map; by rewrite Hm).
  rewrite (M_bind_step _ _ _ map w) by (unfold get_map; by rewrite Hr).
  rewrite Hs. rewrite (M_bind_step _ _ _ false w) by (unfold gone; by rewrite Hrm).
  by destruct (l_nbuckets (l_hash map) =? 0).
Qed.

Lemma in_map_provides m mid idx st :
  provides m mid idx ->
  exists old', in_map m st w = Ret (Done (mkL old' (mkVal (Some (SymAt mid idx)) (Some mid)))) w.
Proof.
  intros [lm mid' map order idx' sym Hm <- Hr Hs Hrm Hix Href Hsp Hsym Hvis Hbind].
  rewrite (in_map_start m lm map st) by done.
  rewrite (proj2 (Z.eqb_neq _ 0) (indexed_buckets)).
  destruct (indexed_search nm ref version flags tc (lk_old_hash st) Href) as [old' Hsearch].
  exists old'. rewrite Hsp in Hsearch. cbn in Hsearch.
  rewrite (M_bind_step _ _ _ (Some idx', old') w) by (unfold lift; by rewrite Hsearch).
  rewrite (M_bind_step _ _ _ sym w) by (unfold lift; by rewrite Hsym).
  unfold binds_local. rewrite Hvis. cbn. unfold take_symbol, mbind, M_bind, gets. cbn.
  destruct Hbind as [->|[-> ->]]; done.
Qed.

Lemma in_map_rejects m st :
  rejects m -> exists old', in_map m st w = Ret (Next (mkL old' (lk_result st))) w.
Proof.
  intros [lm map Hm Hr Hs|lm map Hm Hr Hs Hrm Hnb|lm map order Hm Hr Hs Hrm Hix Href Hsp
         |lm map order idx sym Hm Hr Hs Hrm Hix Href Hsp Hsym Hl].
  - exists (lk_old_hash st). unfold lookup_in_map.
    rewrite (M_bind_step _ _ _ lm w) by (unfold get_map; by rewrite Hm).
    rewrite (M_bind_step _ _ _ map w) by (unfold get_map; by rewrite Hr).
    rewrite Hs. by destruct st.
  - exists (lk_old_hash st). rewrite (in_map_start m lm map st), Hnb by done. by destruct st.
  - rewrite (in_map_start m lm map st) by done.
    rewrite (proj2 (Z.eqb_neq _ 0) (indexed_buckets)).
    destruct (indexed_search nm ref version flags tc (lk_old_hash st) Href) as [old' Hsearch].
    exists old'. rewrite Hsp in Hsearch. cbn in Hsearch.
    by rewrite (M_bind_step _ _ _ (None, old') w) by (unfold lift; by rewrite Hsearch).
  - rewrite (in_map_start m lm map st) by done.
    rewrite (proj2 (Z.eqb_neq _ 0) (indexed_buckets)).
    destruct (indexed_search nm ref version flags tc (lk_old_hash st) Href) as [old' Hsearch].
    exists old'. rewrite Hsp in Hsearch. cbn in Hsearch.
    rewrite (M_bind_step _ _ _ (Some idx, old') w) by (unfold lift; by rewrite Hsearch).
    rewrite (M_bind_step _ _ _ sym w) by (unfold lift; by rewrite Hsym).
    by rewrite Hl.
Qed.

(** A list whose entries before [m] are rejected ends at [m]. *)
Lemma list_first pre m mid idx post st :
  Forall rejects pre -> provides m mid idx ->
  exists old', lookup_list nm hash ref version flags None tc um (pre ++ m :: post) st w
    = Ret (true, mkL old' (mkVal (Some (SymAt mid idx)) (Some mid))) w.
Proof.
  intros Hpre Hp. revert st. induction Hpre as [|m' pre Hm' Hpre IH]; intros st; cbn [lookup_list app].
  - destruct (in_map_provides m mid idx st Hp) as [old' H]. exists old'.
    by rewrite (M_bind_step _ _ _ _ _ H).
  - destruct (in_map_rejects m' st Hm') as [old' H]. rewrite (M_bind_step _ _ _ _ _ H).
    destruct (IH (mkL old' (lk_result st))) as [old'' H']. eauto.
Qed.

Lemma list_rejected l st :
  Forall rejects l ->
  exists old', lookup_list nm hash ref version flags None tc um l st w
    = Ret (false, mkL old' (lk_result st)) w.
Proof.
  intros Hl. revert st. induction Hl as [|m l Hm Hl IH]; intros st; cbn [lookup_list].
  - exists (lk_old_hash st). by destruct st.
  - destruct (in_map_rejects m st Hm) as [old' H]. rewrite (M_bind_step _ _ _ _ _ H).
    destruct (IH (mkL old' (lk_result st))) as [old'' H']. eauto.
Qed.

End Spec.

(** ** Searching the scopes *)
Lemma provides_bump w nm ref version flags tc m mid idx :
  provides w nm ref version flags tc m mid idx ->
  provides (bump_num_relocations w) nm ref version flags tc m mid idx.
Proof.
  intros [lm mid' map order idx' sym]. by econstructor; autorewrite with frame; eauto.
Qed.

Lemma rejects_bump w nm ref version flags tc m :
  rejects w nm ref version flags tc m -> rejects (bump_num_relocations w) nm ref version flags tc m.
Proof.
  intros [lm map|lm map|lm map order|lm map order idx sym].
  - by apply (RejSkip _ _ _ _ _ _ m lm map); autorewrite with frame.
  - by apply (RejEmpty _ _ _ _ _ _ m lm map); autorewrite with frame.
  - by apply (RejNone _ _ _ _ _ _ m lm map order); autorewrite with frame.
  - by apply (RejHidden _ _ _ _ _ _ m lm map order idx sym); autorewrite with frame.
Qed.

Lemma do_lookup_x_0 nm hash ref version flags tc um scope st w :
  scope <> [] ->
  do_lookup_x nm hash ref version flags None tc um scope 0 st w
  = lookup_list nm hash ref version flags None tc um scope st w.
Proof. by destruct scope. Qed.

(** Scopes before the one with the definition are searched in vain; the first
    provider in scope order is the result. *)
Lemma scopes_first w nm ref version flags tc um before pre m post after mid idx st :
  nm <> "callback_table"%string ->
  Forall (fun sc => sc <> [] /\ Forall (rejects w nm ref version flags tc) sc) before ->
  Forall (rejects w nm ref version flags tc) pre ->
  provides w nm ref version flags tc m mid idx ->
  exists old', search_scopes nm (NewHash._dl_new_hash nm) ref version flags None tc um
      (before ++ (pre ++ m :: post) :: after) 0 st w
    = Ret (mkL old' (mkVal (Some (SymAt mid idx)) (Some mid))) w.
Proof.
  intros Hcb Hb Hpre Hp. revert st. induction Hb as [|sc before [Hne Hsc] Hb IH]; intros st;
    cbn [search_scopes app]; rewrite (proj2 (str_eqb_false _ _) Hcb);
    rewrite (M_bind_step _ _ _ (false, st) w) by done.
  - destruct (list_first w nm ref version flags tc um pre m mid idx post st Hpre Hp) as [old' H].
    exists old'. erewrite M_bind_step; [|rewrite do_lookup_x_0; [exact H|by destruct pre]]. done.
  - destruct (list_rejected w nm ref version flags tc um sc st Hsc) as [old1 H].
    erewrite M_bind_step; [|rewrite do_lookup_x_0; [exact H|done]].
    destruct (IH (mkL old1 (lk_result st))) as [old' H']. eauto.
Qed.

(** ** Before and after the search *)

(** The name is not among the recorded placeholder names. *)
Definition not_recorded (ph : placeholders) (nm : string) : Prop :=
  0 <= placeholded ph <= Z.of_nat (length (placeholder_symbols ph)) /\
  forall i n, 0 <= i < placeholded ph -> rd (placeholder_symbols ph) i = Ok n -> n <> nm.

Lemma find_placeholder_none ph nm fuel i :
  not_recorded ph nm -> 0 <= i -> find_placeholder fuel nm ph i = Ok None.
Proof.
  intros [Hr Hn]. revert i. induction fuel as [|fuel IH]; intros i Hi; cbn [find_placeholder]; [done|].
  destruct (Z.leb_spec (placeholded ph) i); [done|].
  destruct (rd_in_range (placeholder_symbols ph) i) as [n Hrd]; [lia|].
  rewrite Hrd. cbn. rewrite (proj2 (str_eqb_false nm n)); [|intros ->; by eapply (Hn i)].
  apply IH. lia.
Qed.

(** The reference, if there is one, is a readable symbol and not protected. *)
Definition plain_ref (w : world) (ref : option symref) : Prop :=
  match ref with
  | None => True
  | Some r => exists s, get_sym r w = Ret s w /\ ST_VISIBILITY s <> STV_PROTECTED
  end.

Lemma get_sym_bump r s w :
  get_sym r w = Ret s w -> get_sym r (bump_num_relocations w) = Ret s (bump_num_relocations w).
Proof.
  destruct r as [m i|]; cbn; [|congruence]. rewrite bump_maps.
  destruct (w_maps w !! m) as [lm|]; [|done]. unfold lift.
  destruct (rd (l_symtab lm) i); congruence.
Qed.

Section Final.
Context (interfere : nat -> world -> world).
Context (w : world) (nm : string) (ref : option symref) (version : option r_found_version).
Context (flags tc : Z) (um : option mapid) (scopes : list (list mapid)).
Context (Hph : not_recorded (w_ph w) nm) (Href : plain_ref w ref).
Context (Hver : version = None \/ has_flag flags DL_LOOKUP_RETURN_NEWEST = false).

(** The code before the main search only counts the relocation. *)
Lemma lookup_start fuel st :
  search_scopes nm (NewHash._dl_new_hash nm) ref version flags None tc um scopes 0
    (mkL 0xffffffff no_val) (bump_num_relocations w) = Ret st (bump_num_relocations w) ->
  _dl_lookup_symbol_x interfere fuel nm um ref scopes version tc flags None w =
  match sv_s (lk_result st) with
  | None => not_found nm um ref version (bump_num_relocations w)
  | Some _ =>
      match sv_m (lk_result st) with
      | None => Wild
      | Some m =>
      match w_maps w !! m with
      | None => Wild
      | Some lm =>
      (dep ← (if bool_decide (l_type lm = lt_loaded) && has_flag flags DL_LOOKUP_ADD_DEPENDENCY
              then match um with
                   | None => lift Undef
                   | Some um => add_dependency (interfere fuel) um m flags
                   end
              else mret 0);
       if dep <? 0 then
         match fuel with
         | O => lift Diverge
         | S fuel =>
             scope ← (if has_flag flags DL_LOOKUP_GSCOPE_LOCK then
                        match um with
                        | None => lift Undef
                        | Some um => u ← get_map um; mret (dp_scope (l_deps u))
                        end
                      else mret scopes);
             _dl_lookup_symbol_x interfere fuel nm um ref scope version tc flags None
         end
       else
         modify (with_map m (set_used true));;
         mret (Some (Lm m), sv_s (lk_result st))) (bump_num_relocations w)
      end end
  end.
Proof.
  intros Hs. set (w1 := bump_num_relocations w) in *.
  destruct fuel; cbn [_dl_lookup_symbol_x].
  all: rewrite (M_bind_step _ _ _ (w_ph w) w) by done.
  all: rewrite (M_bind_step _ _ _ None w)
    by (unfold lift; destruct (placeholded (w_ph w) =? 0); [done|];
        by rewrite (find_placeholder_none _ _ _ 0 Hph ltac:(lia))).
  all: rewrite (M_bind_step _ _ _ tt w1) by done.
  all: rewrite (M_bind_step _ _ _ tt w1)
    by (destruct Hver as [->| ->]; cbn; [done|by rewrite orb_true_r]).
  all: rewrite (M_bind_step _ _ _ 0%nat w1) by done.
  all: rewrite (M_bind_step _ _ _ _ _ Hs).
  all: destruct (sv_s (lk_result st)) eqn:Hsv; [|done].
  all: rewrite (M_bind_step _ _ _ (lk_result st) w1).
  2,4: unfold resolve_protected; destruct ref as [r|]; [|done];
       destruct Href as (s0 & Hs0 & Hv0);
       rewrite (M_bind_step _ _ _ false w1); [done|];
       rewrite (M_bind_step _ _ _ s0 w1) by (by apply get_sym_bump);
       by rewrite (proj2 (Z.eqb_neq _ _) Hv0).
  all: destruct (sv_m (lk_result st)) as [m|]; [|done]; rewrite Hsv.
  all: destruct (w_maps w !! m) as [lm|] eqn:Hm.
  2,4: unfold mbind, M_bind, get_map; unfold w1; by rewrite bump_maps, Hm.
  all: by rewrite (M_bind_step _ _ _ lm w1) by (unfold get_map, w1; by rewrite bump_maps, Hm).
Qed.

(** The result is an object that can not be unloaded (or no dependency is asked for):
    it is marked as used and returned. *)
Lemma lookup_finish fuel old mid idx lm :
  search_scopes nm (NewHash._dl_new_hash nm) ref version flags None tc um scopes 0
    (mkL 0xffffffff no_val) (bump_num_relocations w)
    = Ret (mkL old (mkVal (Some (SymAt mid idx)) (Some mid))) (bump_num_relocations w) ->
  w_maps w !! mid = Some lm ->
  (l_type lm <> lt_loaded \/ has_flag flags DL_LOOKUP_ADD_DEPENDENCY = false) ->
  _dl_lookup_symbol_x interfere fuel nm um ref scopes version tc flags None w =
  Ret (Some (Lm mid), Some (SymAt mid idx)) (with_map mid (set_used true) (bump_num_relocations w)).
Proof.
  intros Hs Hm Hd. rewrite (lookup_start fuel _ Hs). cbn [lk_result sv_s sv_m]. rewrite Hm.
  replace (bool_decide (l_type lm = lt_loaded) && has_flag flags DL_LOOKUP_ADD_DEPENDENCY) with false.
  2:{ destruct Hd as [Hd|Hd]; [by rewrite bool_decide_eq_false_2|by rewrite Hd, andb_false_r]. }
  done.
Qed.

End Final.

(** ** The theorems *)

(** C11. Interposition: for an ordinary name, the lookup binds to the first object in
    scope order that offers a definition; the scopes and objects behind it are
    not looked at. *)
Theorem first_definition_wins interfere fuel w nm ref version flags tc um before pre m post after mid idx lm :
  nm <> "callback_table"%string -> not_recorded (w_ph w) nm -> plain_ref w ref ->
  (version = None \/ has_flag flags DL_LOOKUP_RETURN_NEWEST = false) ->
  Forall (fun sc => sc <> [] /\ Forall (rejects w nm ref version flags tc) sc) before ->
  Forall (rejects w nm ref version flags tc) pre ->
  provides w nm ref version flags tc m mid idx ->
  w_maps w !! mid = Some lm ->
  (l_type lm <> lt_loaded \/ has_flag flags DL_LOOKUP_ADD_DEPENDENCY = false) ->
  _dl_lookup_symbol_x interfere fuel nm um ref (before ++ (pre ++ m :: post) :: after)
    version tc flags None w =
  Ret (Some (Lm mid), Some (SymAt mid idx)) (with_map mid (set_used true) (bump_num_relocations w)).
Proof.
  intros Hcb Hph Href Hver Hb Hpre Hp Hm Hd.
  destruct (scopes_first (bump_num_relocations w) nm ref version flags tc um before pre m post after
              mid idx (mkL 0xffffffff no_val)) as [old Hs]; [done| | | |].
  - eapply Forall_impl; [exact Hb|]. intros sc [Hne Hsc]. split; [done|].
    eapply Forall_impl; [exact Hsc|]. intros. by apply rejects_bump.
  - eapply Forall_impl; [exact Hpre|]. intros. by apply rejects_bump.
  - by apply provides_bump.
  - by apply (lookup_finish interfere w nm ref version flags tc um _ Hph Href Hver fuel old mid idx lm).
Qed.

Lemma main_map_run w ns m :
  w_ns w !! 0%nat = Some ns -> head (ns_loaded ns) = Some m -> main_map w = Ret (Some m) w.
Proof.
  intros Hns Hm. unfold main_map. rewrite (M_bind_step _ _ _ ns w) by (unfold get_ns; by rewrite Hns).
  by rewrite Hm.
Qed.

(** C9. PLaTypus: [callback_table] is bound to the main program's table whenever
    the main program defines it, whatever the search scopes contain.  No
    library in any scope can interpose its own table. *)
Theorem callback_table_bound_to_main interfere fuel w ref version flags tc um scope scopes ns m mid idx lm :
  not_recorded (w_ph w) "callback_table" -> plain_ref w ref ->
  (version = None \/ has_flag flags DL_LOOKUP_RETURN_NEWEST = false) ->
  w_ns w !! 0%nat = Some ns -> head (ns_loaded ns) = Some m ->
  provides w "callback_table" ref version flags tc m mid idx ->
  w_maps w !! mid = Some lm -> l_type lm = lt_executable ->
  _dl_lookup_symbol_x interfere fuel "callback_table" um ref (scope :: scopes) version tc flags None w =
  Ret (Some (Lm mid), Some (SymAt mid idx)) (with_map mid (set_used true) (bump_num_relocations w)).
Proof.
  intros Hph Href Hver Hns Hhd Hp Hm Hty.
  apply provides_bump in Hp.
  destruct (list_first (bump_num_relocations w) "callback_table" ref version flags tc um [] m mid idx []
              (mkL 0xffffffff no_val) (Forall_nil_2 _) Hp) as [old Hl].
  apply (lookup_finish interfere w "callback_table" ref version flags tc um _ Hph Href Hver fuel old mid idx lm).
  - cbn [search_scopes]. rewrite str_eqb_refl.
    rewrite (M_bind_step _ _ _ (true, mkL old (mkVal (Some (SymAt mid idx)) (Some mid)))
               (bump_num_relocations w)); [done|].
    rewrite (M_bind_step _ _ _ (Some m) (bump_num_relocations w))
      by (apply (main_map_run _ ns); [by autorewrite with frame|done]).
    by rewrite do_lookup_x_0.
  - done.
  - left. by rewrite Hty.
Qed.

(** C10. When no object defines [callback_table] the reference does not fail: it is
    resolved to the static [exp_map], at the load address of the object that
    refers to it, and the reference symbol is kept. *)
Theorem callback_table_never_undefined interfere fuel w r s version flags tc um ulm scopes ns m :
  not_recorded (w_ph w) "callback_table" -> plain_ref w (Some r) ->
  (version = None \/ has_flag flags DL_LOOKUP_RETURN_NEWEST = false) ->
  w_ns w !! 0%nat = Some ns -> head (ns_loaded ns) = Some m ->
  Forall (fun sc => sc <> [] /\ Forall (rejects w "callback_table" (Some r) version flags tc) sc) scopes ->
  rejects w "callback_table" (Some r) version flags tc m ->
  get_sym r w = Ret s w -> ST_BIND s <> STB_WEAK -> dl_debug_unused (w_conf w) = false ->
  w_maps w !! um = Some ulm ->
  _dl_lookup_symbol_x interfere fuel "callback_table" (Some um) (Some r) scopes version tc flags None w =
  Ret (Some LmExp, Some r) (set_exp_addr (l_addr ulm) (bump_num_relocations w)).
Proof.
  intros Hph Href Hver Hns Hhd Hsc Hrej Hs Hw Hdbg Hum.
  set (w1 := bump_num_relocations w).
  assert (Hrun : forall st, exists old, search_scopes "callback_table" (NewHash._dl_new_hash "callback_table")
            (Some r) version flags None tc (Some um) scopes 0 st w1 = Ret (mkL old (lk_result st)) w1).
  { induction Hsc as [|sc scs [Hne Hsc] Hscs IH]; intros st; cbn [search_scopes].
    { exists (lk_old_hash st). by destruct st. }
    rewrite str_eqb_refl.
    destruct (list_rejected w1 "callback_table" (Some r) version flags tc (Some um) [m] st) as [o1 H1].
    { constructor; [|constructor]. by apply rejects_bump. }
    rewrite (M_bind_step _ _ _ (false, mkL o1 (lk_result st)) w1).
    2:{ rewrite (M_bind_step _ _ _ (Some m) w1)
          by (apply (main_map_run _ ns); [unfold w1; by autorewrite with frame|done]).
        by rewrite do_lookup_x_0. }
    destruct (list_rejected w1 "callback_table" (Some r) version flags tc (Some um) sc (mkL o1 (lk_result st)))
      as [o2 H2].
    { eapply Forall_impl; [exact Hsc|]. intros. by apply rejects_bump. }
    erewrite M_bind_step; [|rewrite do_lookup_x_0; [exact H2|done]].
    destruct (IH (mkL o2 (lk_result st))) as [o3 H3]. eauto. }
  destruct (Hrun (mkL 0xffffffff no_val)) as [old Hold].
  rewrite (lookup_start interfere w _ _ version flags tc _ _ Hph Href Hver fuel _ Hold). cbn [lk_result sv_s no_val].
  unfold not_found. fold w1.
  rewrite (M_bind_step _ _ _ (w_conf w1) w1) by done.
  rewrite (M_bind_step _ _ _ true w1)
    by (rewrite (M_bind_step _ _ _ s w1) by (by apply get_sym_bump); by rewrite (proj2 (Z.eqb_neq _ _) Hw)).
  unfold w1 at 1. rewrite bump_conf, Hdbg, str_eqb_refl. cbn [negb andb].
  by rewrite (M_bind_step _ _ _ ulm w1) by (unfold get_map, w1; by rewrite bump_maps, Hum).
Qed.

(** The first entry that holds the name is found. *)
Lemma find_placeholder_hit ph nm i k :
  0 <= k <= i -> i < placeholded ph -> rd (placeholder_symbols ph) i = Ok nm ->
  (forall j n, k <= j < i -> rd (placeholder_symbols ph) j = Ok n -> n <> nm) ->
  find_placeholder (Z.to_nat (placeholded ph - k)) nm ph k = Ok (Some i).
Proof.
  intros Hki Hi Hn. remember (Z.to_nat (i - k)) as d eqn:Hd. revert k Hki Hd.
  induction d as [|d IH]; intros k Hki Hd Hother.
  - assert (k = i) as -> by lia. replace (Z.to_nat (placeholded ph - i)) with
      (S (Z.to_nat (placeholded ph - i - 1))) by lia.
    cbn [find_placeholder]. rewrite (proj2 (Z.leb_gt _ _)) by lia. rewrite Hn. cbn.
    by rewrite str_eqb_refl.
  - replace (Z.to_nat (placeholded ph - k)) with (S (Z.to_nat (placeholded ph - (k + 1)))) by lia.
    cbn [find_placeholder]. rewrite (proj2 (Z.leb_gt _ _)) by lia.
    pose proof (proj1 (rd_Ok _ _ _) Hn) as [_ Hl%lookup_lt_Some].
    destruct (rd_in_range (placeholder_symbols ph) k) as [n Hk]; [lia|]. rewrite Hk. cbn.
    rewrite (proj2 (str_eqb_false nm n)); [|intros ->; by eapply (Hother k); [lia|..]].
    apply IH; [lia|lia|]. intros j n' Hj. apply Hother. lia.
Qed.

(** C12. A name recorded as placeholder [i] (and no earlier one) is answered from the placeholder
    table before any object is searched: the result is the static [fake_map], whose load
    address is the recorded PLT stub, with a symbol of value zero. *)
Theorem recorded_placeholder_answered interfere fuel w nm um ref scopes version tc flags skip i plt :
  0 <= i < placeholded (w_ph w) ->
  rd (placeholder_symbols (w_ph w)) i = Ok nm ->
  (forall j n, 0 <= j < i -> rd (placeholder_symbols (w_ph w)) j = Ok n -> n <> nm) ->
  rd (placeholder_plts (w_ph w)) i = Ok plt ->
  _dl_lookup_symbol_x interfere fuel nm um ref scopes version tc flags skip w =
  Ret (Some LmFake, Some SymFake) (set_fake_addr plt w).
Proof.
  intros Hi Hn Hother Hplt.
  pose proof (find_placeholder_hit (w_ph w) nm i 0 ltac:(lia) ltac:(lia) Hn Hother) as Hf.
  rewrite Z.sub_0_r in Hf.
  destruct fuel; cbn [_dl_lookup_symbol_x].
  all: rewrite (M_bind_step _ _ _ (w_ph w) w) by done.
  all: rewrite (proj2 (Z.eqb_neq (placeholded (w_ph w)) 0)) by lia.
  all: rewrite (M_bind_step _ _ _ (Some i) w) by (unfold lift; by rewrite Hf).
  all: by rewrite (M_bind_step _ _ _ plt w) by (unfold lift; by rewrite Hplt).
Qed.

(** ** Two objects: a program and a library that both define [callback_table] *)
Module Example1.

Definition nul : string := String (Ascii.ascii_of_nat 0) EmptyString.

(** A GNU hash section with one symbol, named [nm]. *)
Definition one_hash (nm : string) : hashtab :=
  let h := NewHash._dl_new_hash nm in
  mkHash 1 (Some [Z.lor (Z.shiftl 1 (Z.land h 63)) (Z.shiftl 1 (Z.land (Z.shiftr h 6) 63))])
    0 6 [1] 1 [Z.lor h 1] [] [].

Definition one_map_with (h : hashtab) (self : mapid) (name : string) (addr : Z) (ty : l_type_t) (sym : string)
  : link_map :=
  mkMap (mkIdent name addr self 0 ty 1 false (bool_decide (ty = lt_executable)) false)
    (mkDyn [mkSym 0 0 0 0 0 0; mkSym 1 0x12 0 7 0x1000 8] (nul +:+ sym +:+ nul) h
       None [] None None None None None)
    (mkDeps None None 0 [] [])
    (mkState false false false false false false false false 0 0)
    (mkCache None 0 None None) no_tls no_segs.

Definition one_map (self : mapid) (name : string) (addr : Z) (ty : l_type_t) (sym : string) : link_map :=
  one_map_with (one_hash sym) self name addr ty sym.

Definition prog : link_map := one_map 0 "" 0x400000 lt_executable "callback_table".
Definition lib : link_map := one_map 1 "libevil.so" 0x7f0000 lt_library "callback_table".
Definition user : link_map := one_map 2 "libc.so" 0x7f8000 lt_library "qsort".

Definition conf : config := mkConfig false false (fun _ => true) (fun _ => true).
Definition empty_tab : unique_sym_table := mkUtab None 0 0.

Definition w0 : world :=
  mkWorld {[0%nat := prog; 1%nat := lib; 2%nat := user]} [mkNs [0; 1; 2]%nat empty_tab]
    init_placeholders 0 0 0 0 ∅ (mkArea 0 0 0 0) conf.

Lemma one_map_wf self name addr ty (sym : string) w bm bs c cs :
  let map := one_map_with (mkHash 1 (Some (w :: bm)) 0 6 (1 :: bs) 1 (c :: cs) [] []) self name addr ty sym in
  sym_name map 1 = Ok sym ->
  (Z.testbit w (Z.land (NewHash._dl_new_hash sym) 63) &&
   Z.testbit w (Z.land (Z.shiftr (NewHash._dl_new_hash sym) 6) 63)) = true ->
  (Z.shiftr c 1 =? Z.shiftr (NewHash._dl_new_hash sym) 1) = true -> Z.land c 1 = 1 ->
  wf_gnu map (w :: bm).
Proof.
  intros map Hn Hbits Hc Hl. zbool.
  assert (Hns : nsyms map = 2) by done.
  assert (Hb : bucket_of map 1 = Some 0) by (unfold bucket_of; rewrite Hn; cbn; by rewrite Z.mod_1_r).
  assert (Hone : forall i, l_gnu_symbias (l_hash map) <= i < nsyms map -> i = 1).
  { intros i Hi. rewrite Hns in Hi. cbn in Hi. lia. }
  split.
  - done.
  - by cbn.
  - intros i ->%Hone. eauto.
  - intros i nm ->%Hone Hnm. rewrite Hn in Hnm. injection Hnm as <-.
    eexists. split; [reflexivity|]. split; [done|]. rewrite Hl, Hns. lia.
  - intros b Hb0. cbn in Hb0. replace b with 0 by lia. exists 1. split; [reflexivity|]. right.
    split; [by cbn|]. split; [done|]. intros i Hi. cbn in Hi. lia.
  - intros i j k Hi Hj Hk _. f_equal. cbn in Hi. rewrite Hns in Hk. lia.
  - intros x Hx. cbn. rewrite Z.land_0_r. by eexists.
  - intros i nm ->%Hone Hnm. rewrite Hn in Hnm. injection Hnm as <-.
    exists w. cbn. by rewrite Z.land_0_r.
Qed.

#[export] Instance prog_indexed : Indexed 0 prog (gnu_order prog).
Proof. eapply gnu_indexed; [reflexivity|]. by apply one_map_wf. Qed.
#[export] Instance lib_indexed : Indexed 1 lib (gnu_order lib).
Proof. eapply gnu_indexed; [reflexivity|]. by apply one_map_wf. Qed.
#[export] Instance user_indexed : Indexed 2 user (gnu_order user).
Proof. eapply gnu_indexed; [reflexivity|]. by apply one_map_wf. Qed.

Lemma prog_provides : provides w0 "callback_table" None None 0 0 0 0 1.
Proof. eapply Provides with (order := gnu_order prog); try done; try apply _. by left. Qed.

Lemma not_recorded_init nm : not_recorded init_placeholders nm.
Proof. split; [by cbn|]. intros i n Hi. cbn in Hi. lia. Qed.

(** The library comes first in the scope, yet the program's table is bound. *)
Lemma callback_table_bound_to_main_witness :
  _dl_lookup_symbol_x (fun _ w => w) 0 "callback_table" (Some 2%nat) None [[1; 0]%nat] None 0 0 None w0 =
  Ret (Some (Lm 0), Some (SymAt 0 1)) (with_map 0 (set_used true) (bump_num_relocations w0)).
Proof.
  apply (callback_table_bound_to_main (fun _ w => w) 0 w0 None None 0 0 (Some 2%nat) [1; 0]%nat []
           (mkNs [0; 1; 2]%nat empty_tab) 0 0 1 prog).
  - apply not_recorded_init.
  - exact I.
  - left. reflexivity.
  - reflexivity.
  - reflexivity.
  - exact prog_provides.
  - reflexivity.
  - reflexivity.
Defined.

Lemma lib_rejects_qsort : rejects w0 "qsort" None None 0 0 1.
Proof. eapply RejNone with (order := gnu_order lib); try done; apply _. Qed.
Lemma user_provides_qsort : provides w0 "qsort" None None 0 0 2 2 1.
Proof. eapply Provides with (order := gnu_order user); try done; try apply _. by left. Qed.

Lemma first_definition_wins_witness :
  _dl_lookup_symbol_x (fun _ w => w) 0 "qsort" (Some 0%nat) None [[1]; [1; 2; 0]]%nat None 0 0 None w0 =
  Ret (Some (Lm 2), Some (SymAt 2 1)) (with_map 2 (set_used true) (bump_num_relocations w0)).
Proof.
  apply (first_definition_wins (fun _ w => w) 0 w0 "qsort" None None 0 0 (Some 0%nat)
           [[1]]%nat [1]%nat 2 [0]%nat [] 2 1 user).
  - discriminate.
  - apply not_recorded_init.
  - exact I.
  - left. reflexivity.
  - repeat constructor; [discriminate|exact lib_rejects_qsort].
  - repeat constructor. exact lib_rejects_qsort.
  - exact user_provides_qsort.
  - reflexivity.
  - right. reflexivity.
Defined.

(** A program without a table of its own, and an object whose symbol 1 is an
    undefined strong reference to [callback_table]. *)
Definition prog1 : link_map := one_map 0 "" 0x400000 lt_executable "main".
Definition refers : link_map :=
  mkMap (mkIdent "libz.so" 0x555000 5 0 lt_library 1 false false false)
    (mkDyn [mkSym 0 0 0 0 0 0; mkSym 1 0x11 0 0 0 0] (nul +:+ "callback_table" +:+ nul) no_hash
       None [] None None None None None)
    (mkDeps None None 0 [] [])
    (mkState false false false false false false false false 0 0)
    (mkCache None 0 None None) no_tls no_segs.
Definition w1 : world :=
  mkWorld {[0%nat := prog1; 2%nat := user; 5%nat := refers]} [mkNs [0; 2; 5]%nat empty_tab]
    init_placeholders 0 0 0 0 ∅ (mkArea 0 0 0 0) conf.
#[export] Instance prog1_indexed : Indexed 0 prog1 (gnu_order prog1).
Proof. eapply gnu_indexed; [reflexivity|]. by apply one_map_wf. Qed.

Lemma prog1_rejects : rejects w1 "callback_table" (Some (SymAt 5 1)) None 0 0 0.
Proof. eapply RejNone with (order := gnu_order prog1); try done; apply _. Qed.
Lemma user_rejects : rejects w1 "callback_table" (Some (SymAt 5 1)) None 0 0 2.
Proof. eapply RejNone with (order := gnu_order user); try done; apply _. Qed.
Lemma refers_rejects : rejects w1 "callback_table" (Some (SymAt 5 1)) None 0 0 5.
Proof. by eapply RejEmpty. Qed.

Lemma callback_table_never_undefined_witness :
  _dl_lookup_symbol_x (fun _ w => w) 0 "callback_table" (Some 5%nat) (Some (SymAt 5 1)) [[0; 2; 5]%nat]
    None 0 0 None w1 =
  Ret (Some LmExp, Some (SymAt 5 1)) (set_exp_addr 0x555000 (bump_num_relocations w1)).
Proof.
  apply (callback_table_never_undefined (fun _ w => w) 0 w1 (SymAt 5 1) (mkSym 1 0x11 0 0 0 0)
           None 0 0 5 refers [[0; 2; 5]%nat] (mkNs [0; 2; 5]%nat empty_tab) 0).
  - apply not_recorded_init.
  - exists (mkSym 1 0x11 0 0 0 0). split; [reflexivity|discriminate].
  - left. reflexivity.
  - reflexivity.
  - reflexivity.
  - constructor; [|constructor]. split; [discriminate|].
    constructor; [exact prog1_rejects|]. constructor; [exact user_rejects|].
    constructor; [exact refers_rejects|constructor].
  - exact prog1_rejects.
  - reflexivity.
  - discriminate.
  - reflexivity.
  - reflexivity.
Defined.

(** After the main program's [placeholder1] was resolved to the name [free]. *)
Definition w2 : world :=
  set_ph (mkPh ("malloc" :: "free" :: replicate 8 EmptyString)%string (0x401020 :: 0x401030 :: replicate 8 0) 2 3) w0.

Lemma recorded_placeholder_answered_witness :
  _dl_lookup_symbol_x (fun _ w => w) 0 "free" (Some 1%nat) None [[1; 0]%nat] None 0 0 None w2 =
  Ret (Some LmFake, Some SymFake) (set_fake_addr 0x401030 w2).
Proof.
  apply (recorded_placeholder_answered (fun _ w => w) 0 w2 "free" (Some 1%nat) None [[1; 0]%nat] None 0 0 None
           1 0x401030).
  - cbn. lia.
  - reflexivity.
  - intros j n Hj. replace j with 0 by lia. intros H. injection H as <-. discriminate.
  - reflexivity.
Defined.

End Example1.
