(* ===== verification/TlsOffset.v ===== *)
(** * The static TLS block

    [_dl_determine_tlsoffset] ([elf/dl-tls.c]) lays out the TLS blocks of the
    objects present at startup below the thread pointer (x86-64 has
    TLS_TCB_AT_TP); [_dl_try_allocate_static_tls] and
    [_dl_allocate_static_tls] ([elf/dl-reloc.c]) take a block from the surplus
    later.  An offset [off] stands for the bytes from [off] down to
    [off - blocksize] below the thread pointer. *)

From S2P Require Import Prelude LinkMap.

(** ** [_dl_determine_tlsoffset] *)
Definition roundup (x y : Z) : Z := u64 (u64 (x + (y - 1)) / y * y).

(** The variables of the loop. *)
Record layout := mkLayout { ly_max_align : Z; ly_freetop : Z; ly_freebottom : Z; ly_offset : Z }.

Definition set_tls_offset (off : Z) (l : tlsinfo) : tlsinfo :=
  mkTls (tl_blocksize l) (tl_align l) (tl_firstbyte_offset l) off (tl_modid l) (tl_need_init l).

(** [-l->l_tls_firstbyte_offset & (l->l_tls_align - 1)] *)
Definition firstbyte (l : tlsinfo) : Z := Z.land (u64 (- tl_firstbyte_offset l)) (u64 (tl_align l - 1)).

(** One round of the loop. *)
Definition layout_step (s : layout) (l : tlsinfo) : layout * tlsinfo :=
  if tl_blocksize l =? 0 then (s, l)
  else
    let fb := firstbyte l in
    let max_align := Z.max (ly_max_align s) (tl_align l) in
    let gap := u64 (ly_freebottom s - ly_freetop s) in
    let in_gap := u64 (roundup (u64 (ly_freetop s + tl_blocksize l - fb)) (tl_align l) + fb) in
    if (tl_blocksize l <=? gap) && (in_gap <=? ly_freebottom s) then
      (mkLayout max_align in_gap (ly_freebottom s) (ly_offset s), set_tls_offset in_gap l)
    else
      let off := u64 (roundup (u64 (ly_offset s + tl_blocksize l - fb)) (tl_align l) + fb) in
      (if u64 (ly_offset s + tl_blocksize l + gap) <? off
       then mkLayout max_align (ly_offset s) (u64 (off - tl_blocksize l)) off
       else mkLayout max_align (ly_freetop s) (ly_freebottom s) off,
       set_tls_offset off l).

Fixpoint layout_loop (s : layout) (ls : list tlsinfo) : layout * list tlsinfo :=
  match ls with
  | [] => (s, [])
  | l :: ls' =>
      let '(s, l) := layout_step s l in
      let '(s, ls') := layout_loop s ls' in (s, l :: ls')
  end.

Section Determine.
(** [TCB_ALIGNMENT], [TLS_TCB_SIZE], the surplus, and the size and alignment of the extra block. *)
Context (TCB_ALIGNMENT TLS_TCB_SIZE static_surplus extra_tls_size extra_tls_align : Z).

(** The loop visits the objects of the base namespace in order; the result is the new area
    (with the alignment of the block), the offset of the extra block, and the objects. *)
Definition _dl_determine_tlsoffset (ls : list tlsinfo) (optional : Z) : tls_area * Z * list tlsinfo :=
  let '(s, ls) := layout_loop (mkLayout TCB_ALIGNMENT 0 0 0) ls in
  let max_align := Z.max (ly_max_align s) extra_tls_align in
  let offset := u64 (roundup (ly_offset s) (if extra_tls_align =? 0 then 1 else extra_tls_align)
                       + extra_tls_size) in
  (mkArea (u64 (roundup (u64 (offset + static_surplus)) max_align + TLS_TCB_SIZE)) offset max_align optional,
   u64 (- offset), ls).

End Determine.

(** ** [_dl_try_allocate_static_tls] *)
Definition NO_TLS_OFFSET : Z := 0.
Definition FORCED_DYNAMIC_TLS_OFFSET : Z := 2 ^ 64 - 1.

Section Surplus.
Context (TLS_TCB_SIZE : Z).

(** The decision: the new area and offset, or failure. *)
Definition static_tls_alloc (ta : tls_area) (l : tlsinfo) (optional : bool) : res (option (tls_area * Z)) :=
  if (tl_offset l =? FORCED_DYNAMIC_TLS_OFFSET) || (ta_align ta <? tl_align l) then mret None
  else
    let freebytes := u64 (ta_size ta - ta_used ta) in
    if freebytes <? TLS_TCB_SIZE then mret None
    else
      let freebytes := freebytes - TLS_TCB_SIZE in
      let blsize := u64 (tl_blocksize l + tl_firstbyte_offset l) in
      if freebytes <? blsize then mret None
      else if tl_align l =? 0 then Undef
      else
        let n := (freebytes - blsize) / tl_align l in
        let use := u64 (freebytes - n * tl_align l - tl_firstbyte_offset l) in
        if optional && (ta_optional ta <? use) then mret None
        else
          let opt := if optional then ta_optional ta - use else ta_optional ta in
          let offset := u64 (ta_used ta + use) in
          mret (Some (mkArea (ta_size ta) offset (ta_align ta) opt, offset)).

(** What initialises the block in the running threads, when the object is already relocated. *)
Context (dl_init_static_tls : mapid -> world -> world).

Definition set_need_tls_init (m : link_map) : link_map :=
  let t := l_tls m in
  set_tls (mkTls (tl_blocksize t) (tl_align t) (tl_firstbyte_offset t) (tl_offset t) (tl_modid t) true) m.

Definition _dl_try_allocate_static_tls (m : mapid) (optional : bool) : M world Z :=
  lm ← get_map m;
  ta ← gets w_area;
  r ← lift (static_tls_alloc ta (l_tls lm) optional);
  match r with
  | None => mret (-1)
  | Some (ta', off) =>
      modify (set_area ta');;
      modify (with_map m (fun lm => set_tls (set_tls_offset off (l_tls lm)) lm));;
      real ← get_map (l_real lm);
      (if l_relocated real then modify (dl_init_static_tls m)
       else modify (with_map m set_need_tls_init));;
      mret 0
  end.

Definition _dl_allocate_static_tls (m : mapid) : M world unit :=
  lm ← get_map m;
  fail ← (if tl_offset (l_tls lm) =? FORCED_DYNAMIC_TLS_OFFSET then mret true
          else r ← _dl_try_allocate_static_tls m false; mret (negb (r =? 0)));
  if (fail : bool) then lift (Signal (l_name lm) "cannot allocate memory in static TLS block")
  else mret tt.

End Surplus.

(** ** Facts *)
Definition wf_tls (l : tlsinfo) : Prop :=
  0 <= tl_blocksize l < 2 ^ 32 /\ 1 <= tl_align l < 2 ^ 32 /\ 0 <= tl_firstbyte_offset l < 2 ^ 64.

Lemma firstbyte_range l : wf_tls l -> 0 <= firstbyte l < tl_align l.
Proof.
  intros (_ & Ha & _). unfold firstbyte. rewrite (u64_small (_ - 1)) by lia.
  pose proof (u64_bound (- tl_firstbyte_offset l)).
  pose proof (land_le_r (u64 (- tl_firstbyte_offset l)) (tl_align l - 1)). lia.
Qed.

(** [roundup] on a value that may have wrapped below zero by less than [y]. *)
Lemma roundup_spec x y :
  1 <= y < 2 ^ 32 -> - y < x < 2 ^ 62 ->
  exists r, roundup (u64 x) y = r /\ x <= r < x + y /\ r mod y = 0 /\ 0 <= r.
Proof.
  intros Hy Hx. exists ((x + (y - 1)) / y * y).
  pose proof (Z.div_mod (x + (y - 1)) y). pose proof (Z.mod_pos_bound (x + (y - 1)) y).
  assert (0 <= (x + (y - 1)) / y) by (apply Z.div_pos; lia).
  split; [|split; [lia|split; [apply Z.mod_mul; lia|lia]]].
  unfold roundup. replace (u64 (u64 x + (y - 1))) with (x + (y - 1)).
  - apply u64_small. lia.
  - unfold u64. rewrite Zplus_mod_idemp_l. symmetry. apply Z.mod_small. lia.
Qed.

(** The next offset for a block after [base] bytes. *)
Lemma block_offset base l :
  wf_tls l -> tl_blocksize l <> 0 -> 0 <= base < 2 ^ 61 ->
  exists off, u64 (roundup (u64 (base + tl_blocksize l - firstbyte l)) (tl_align l) + firstbyte l) = off /\
    base + tl_blocksize l <= off < base + tl_blocksize l + tl_align l /\
    (off - firstbyte l) mod tl_align l = 0.
Proof.
  intros Hwf Hnz Hb. pose proof (firstbyte_range l Hwf) as Hfb. destruct Hwf as (Hs & Ha & _).
  destruct (roundup_spec (base + tl_blocksize l - firstbyte l) (tl_align l) Ha) as (r & Hr & Hx & Hm & Hr0); [lia|].
  rewrite Hr. exists (r + firstbyte l). split; [apply u64_small; lia|]. split; [lia|].
  by replace (r + firstbyte l - firstbyte l) with r by lia.
Qed.

(** The bytes of a block, as distances from the thread pointer. *)
Definition lo (l : tlsinfo) : Z := tl_offset l - tl_blocksize l.
Definition hi (l : tlsinfo) : Z := tl_offset l.
Definition apart (a b : tlsinfo) : Prop :=
  tl_blocksize a = 0 \/ tl_blocksize b = 0 \/ hi a <= lo b \/ hi b <= lo a.

(** The blocks laid out so far lie in the first [ly_offset] bytes, outside the gap. *)
Definition in_layout (s : layout) (l : tlsinfo) : Prop :=
  tl_blocksize l = 0 \/
  (0 <= lo l /\ hi l <= ly_offset s /\ (hi l <= ly_freetop s \/ ly_freebottom s <= lo l) /\
   (tl_offset l - firstbyte l) mod tl_align l = 0).

Definition wf_layout (n : Z) (s : layout) : Prop :=
  0 <= ly_freetop s <= ly_freebottom s /\ ly_freebottom s <= ly_offset s <= n * 2 ^ 33.

Lemma layout_step_spec n s l s' l' :
  0 <= n < 2 ^ 27 -> wf_layout n s -> wf_tls l -> layout_step s l = (s', l') ->
  wf_layout (n + 1) s' /\ in_layout s' l' /\ wf_tls l' /\ ly_offset s <= ly_offset s' /\
  ly_max_align s <= ly_max_align s' /\
  (forall a, in_layout s a -> in_layout s' a /\ apart a l').
Proof.
  intros Hn (Hg & Ho) Hwf. pose proof Hwf as (Hs & Ha & Hfo). unfold layout_step.
  destruct (Z.eqb_spec (tl_blocksize l) 0) as [E|E].
  { intros [= <- <-]. unfold wf_layout, in_layout, apart.
    repeat split; try lia; try tauto. }
  rewrite (u64_small (ly_freebottom s - _)) by lia.
  destruct (block_offset (ly_freetop s) l Hwf E) as (g & Hgap & Hg1 & Hg2); [lia|].
  destruct (block_offset (ly_offset s) l Hwf E) as (o & Hoff & Ho1 & Ho2); [lia|].
  rewrite Hgap, Hoff. rewrite (u64_small (ly_offset s + _ + _)) by lia.
  rewrite (u64_small (o - _)) by lia.
  destruct (_ && _) eqn:Efit.
  - zbool. intros [= <- <-]. unfold wf_layout, in_layout, apart, wf_tls, lo, hi, firstbyte in *. cbn in *.
    repeat split; lia.
  - destruct (Z.ltb_spec (ly_offset s + tl_blocksize l + (ly_freebottom s - ly_freetop s)) o);
      intros [= <- <-]; unfold wf_layout, in_layout, apart, wf_tls, lo, hi, firstbyte in *; cbn in *;
      repeat split; lia.
Qed.

Lemma layout_loop_spec ls : forall n s prev s' ls',
  0 <= n -> n + Z.of_nat (length ls) < 2 ^ 27 -> wf_layout n s -> Forall wf_tls ls ->
  Forall (in_layout s) prev -> ForallOrdPairs apart prev ->
  layout_loop s ls = (s', ls') ->
  wf_layout (n + Z.of_nat (length ls)) s' /\ Forall (in_layout s') (prev ++ ls') /\
  ForallOrdPairs apart (prev ++ ls') /\ ly_max_align s <= ly_max_align s'.
Proof.
  induction ls as [|l ls IH]; intros n s prev s' ls' Hn Hlen Hwf Hls Hin Hap; cbn [layout_loop].
  { intros [= <- <-]. rewrite app_nil_r, Z.add_0_r. done. }
  destruct (layout_step s l) as [s1 l1] eqn:Hstep. destruct (layout_loop s1 ls) as [s2 ls2] eqn:Hloop.
  intros [= <- <-]. apply Forall_cons in Hls as [Hl Hls]. cbn [length] in *.
  destruct (layout_step_spec n s l s1 l1) as (Hwf1 & Hin1 & _ & _ & Hma & Hold); [lia|done..|].
  rewrite Forall_forall in Hin.
  destruct (IH (n + 1) s1 (prev ++ [l1]) s2 ls2) as (Hw & Hi & Hp & Hm); try done; try lia.
  - apply Forall_app. split; [|by constructor].
    apply Forall_forall. intros a Ha. by apply Hold, Hin.
  - clear -Hap Hold Hin. induction Hap as [|a prev Ha Hap IH]; cbn; [repeat constructor|].
    constructor.
    + apply Forall_app. split; [done|]. constructor; [|constructor]. apply Hold, Hin. set_solver.
    + apply IH. intros b Hb. apply Hin. set_solver.
  - rewrite <- app_assoc in Hi, Hp. split; [|split; [done|split; [done|lia]]].
    by replace (n + Z.of_nat (S (length ls))) with (n + 1 + Z.of_nat (length ls)) by lia.
Qed.

Lemma roundup_le x y : 1 <= y < 2 ^ 32 -> 0 <= x < 2 ^ 62 -> x <= roundup x y < x + y.
Proof.
  intros Hy Hx. destruct (roundup_spec x y Hy) as (r & Hr & Hle & _); [lia|].
  rewrite (u64_small x) in Hr by lia. lia.
Qed.

Lemma layout_loop_max_align s ls s' ls' :
  Forall wf_tls ls -> ly_max_align s < 2 ^ 32 -> layout_loop s ls = (s', ls') -> ly_max_align s' < 2 ^ 32.
Proof.
  intros Hls. revert s s' ls'.
  induction Hls as [|l ls (_ & Ha & _) Hls IH]; intros s s' ls' H0; cbn [layout_loop]; [by intros [= <- <-]|].
  destruct (layout_step s l) as [s1 l1] eqn:E1, (layout_loop s1 ls) as [s2 ls2] eqn:E2.
  intros [= <- <-]. apply (IH s1 _ ls2); [|done]. unfold layout_step in E1.
  repeat case_match; simplify_eq; cbn; lia.
Qed.

(** C34.  The layout of static TLS: the blocks of the objects do not overlap,
    each lies between the thread pointer and [dl_tls_static_used], has the alignment
    its segment asks for, and the whole block leaves room for the surplus and the
    thread control block. *)
Theorem static_tls_layout tcb_align tcb_size surplus extra_size extra_align ls optional ta neg ls' :
  Forall wf_tls ls -> Z.of_nat (length ls) < 2 ^ 27 ->
  1 <= tcb_align < 2 ^ 32 -> 0 <= tcb_size < 2 ^ 32 -> 0 <= surplus < 2 ^ 32 ->
  0 <= extra_size < 2 ^ 32 -> 0 <= extra_align < 2 ^ 32 ->
  _dl_determine_tlsoffset tcb_align tcb_size surplus extra_size extra_align ls optional = (ta, neg, ls') ->
  ForallOrdPairs apart ls' /\
  Forall (fun l => tl_blocksize l = 0 \/
    0 <= lo l /\ hi l <= ta_used ta /\ (tl_offset l - firstbyte l) mod tl_align l = 0) ls' /\
  ta_used ta + surplus + tcb_size <= ta_size ta.
Proof.
  intros Hls Hlen Htcb Hts Hsur Hes Hea. unfold _dl_determine_tlsoffset.
  destruct (layout_loop _ ls) as [s ls2] eqn:Hloop. intros [= <- <- <-].
  pose proof (layout_loop_max_align (mkLayout tcb_align 0 0 0) ls s ls2 Hls (proj2 Htcb) Hloop) as Hmax.
  destruct (layout_loop_spec ls 0 (mkLayout tcb_align 0 0 0) [] s ls2) as (Hw & Hi & Hp & Hm);
    [lia|lia|repeat split; cbn; lia|done|constructor|constructor|done|].
  cbn [app ly_max_align] in *.
  destruct Hw as [Hg Ho].
  assert (Hr : ly_offset s <= roundup (ly_offset s) (if extra_align =? 0 then 1 else extra_align)
               < ly_offset s + 2 ^ 32).
  { pose proof (roundup_le (ly_offset s) (if extra_align =? 0 then 1 else extra_align)) as Hr.
    destruct (Z.eqb_spec extra_align 0); lia. }
  rewrite (u64_small (_ + extra_size)) by lia. cbn [ta_used ta_size].
  set (off := roundup (ly_offset s) _ + extra_size) in *.
  pose proof (roundup_le (off + surplus) (Z.max (ly_max_align s) extra_align)) as Hr2.
  rewrite (u64_small (off + surplus)) by lia. rewrite u64_small by lia.
  split; [done|]. split; [|lia].
  eapply Forall_impl; [exact Hi|]. intros l [?|(Hlo & Hhi & _ & Hal)]; [by left|right].
  split; [lia|]. split; [lia|done].
Qed.

(**  Late allocation from the surplus: when
    [_dl_try_allocate_static_tls] succeeds, the new block lies beyond all
    blocks handed out before and before the thread control block, is aligned
    as asked relative to the end of the area, and an optional allocation is
    charged to the optional share.  It fails, without any change, only for one of the reasons in
    the code. *)
Theorem static_tls_from_surplus tcb_size ta l optional :
  wf_tls l -> 0 <= ta_used ta -> ta_used ta <= ta_size ta < 2 ^ 62 -> 0 <= tcb_size < 2 ^ 32 ->
  tl_firstbyte_offset l < 2 ^ 32 -> 0 <= ta_optional ta ->
  match static_tls_alloc tcb_size ta l optional with
  | Ok (Some (ta', off)) =>
      ta_used ta + tl_blocksize l <= off /\ off + tcb_size <= ta_size ta /\
      (ta_size ta - tcb_size - (off + tl_firstbyte_offset l)) mod tl_align l = 0 /\
      ta_used ta' = off /\ ta_size ta' = ta_size ta /\
      ta_optional ta' = (if optional then ta_optional ta - (off - ta_used ta) else ta_optional ta) /\
      0 <= ta_optional ta'
  | Ok None =>
      tl_offset l = FORCED_DYNAMIC_TLS_OFFSET \/ ta_align ta < tl_align l \/
      ta_size ta - ta_used ta < tcb_size + tl_blocksize l + tl_firstbyte_offset l \/
      (optional = true /\ ta_optional ta < tl_blocksize l + tl_align l)
  | _ => False
  end.
Proof.
  intros (Hs & Ha & Hfo) Hu Hsz Ht Hf Ho. unfold static_tls_alloc.
  destruct (Z.eqb_spec (tl_offset l) FORCED_DYNAMIC_TLS_OFFSET) as [?|_]; [by left|].
  destruct (Z.ltb_spec (ta_align ta) (tl_align l)); [right; by left|]. cbn [orb].
  rewrite (u64_small (ta_size ta - _)) by lia.
  destruct (Z.ltb_spec (ta_size ta - ta_used ta) tcb_size); [cbn; lia|].
  rewrite (u64_small (tl_blocksize l + _)) by lia.
  destruct (Z.ltb_spec (ta_size ta - ta_used ta - tcb_size) (tl_blocksize l + tl_firstbyte_offset l)); [cbn; lia|].
  rewrite (proj2 (Z.eqb_neq (tl_align l) 0)) by lia.
  set (free := ta_size ta - ta_used ta - tcb_size) in *.
  set (bl := tl_blocksize l + tl_firstbyte_offset l) in *.
  pose proof (Z.div_mod (free - bl) (tl_align l)) as Hdm. pose proof (Z.mod_pos_bound (free - bl) (tl_align l)) as Hmb.
  assert (0 <= (free - bl) / tl_align l) by (apply Z.div_pos; lia).
  set (n := (free - bl) / tl_align l) in *.
  rewrite (u64_small (free - n * tl_align l - _)) by lia.
  set (use := free - n * tl_align l - tl_firstbyte_offset l) in *.
  destruct (Z.ltb_spec (ta_optional ta) use); destruct optional; cbn [andb]; [cbn; lia|..];
    rewrite (u64_small (ta_used ta + use)) by lia; cbn [mret res_ret ta_used ta_size ta_optional];
    (split; [lia|split; [lia|split; [|lia]]]);
    replace (ta_size ta - tcb_size - (ta_used ta + use + tl_firstbyte_offset l)) with (n * tl_align l) by lia;
    apply Z.mod_mul; lia.
Qed.

(** Three objects: the program, a library with a large alignment, a small one that fits
    the gap. *)
Module Example4.

Definition objs : list tlsinfo :=
  [mkTls 0x10 8 0 0 1 false; mkTls 0x80 64 0 0 2 false; mkTls 0x20 8 4 0 3 false; mkTls 0 0 0 0 0 false].
Definition objs' : list tlsinfo := snd (_dl_determine_tlsoffset 64 2304 1664 32 32 (take 3 objs) 512).
Definition area : tls_area := fst (fst (_dl_determine_tlsoffset 64 2304 1664 32 32 (take 3 objs) 512)).

Lemma wf_objs : Forall wf_tls (take 3 objs).
Proof. unfold wf_tls. repeat constructor; cbn; lia. Qed.

Lemma static_tls_layout_witness :
  ForallOrdPairs apart objs' /\
  Forall (fun l => tl_blocksize l = 0 \/
    0 <= lo l /\ hi l <= ta_used area /\ (tl_offset l - firstbyte l) mod tl_align l = 0) objs' /\
  ta_used area + 1664 + 2304 <= ta_size area.
Proof.
  apply (static_tls_layout 64 2304 1664 32 32 (take 3 objs) 512 area (u64 (- 224)) objs');
    [exact wf_objs|cbn; lia|lia|lia|lia|lia|lia|vm_compute; reflexivity].
Defined.

Lemma static_tls_from_surplus_witness :
  match static_tls_alloc 2304 area (mkTls 0x90 16 0 0 4 false) true with
  | Ok (Some (ta', off)) =>
      ta_used area + 0x90 <= off /\ off + 2304 <= ta_size area /\
      (ta_size area - 2304 - (off + 0)) mod 16 = 0 /\
      ta_used ta' = off /\ ta_size ta' = ta_size area /\
      ta_optional ta' = (ta_optional area - (off - ta_used area)) /\ 0 <= ta_optional ta'
  | Ok None =>
      0 = FORCED_DYNAMIC_TLS_OFFSET \/ ta_align area < 16 \/
      ta_size area - ta_used area < 2304 + 0x90 + 0 \/ (true = true /\ ta_optional area < 0x90 + 16)
  | _ => False
  end.
Proof.
  apply (static_tls_from_surplus 2304 area (mkTls 0x90 16 0 0 4 false) true);
    [unfold wf_tls; cbn; lia|vm_compute; discriminate|vm_compute; split; [discriminate|reflexivity]
    |lia|cbn; lia|vm_compute; discriminate].
Defined.

End Example4.
