(* ===== verification/Reloc.v ===== *)
(** * Relocation processing

    [get_dynsymtab_and_count_from_link_map] and [resolve_map] of
    [elf/dl-reloc.c], with the placeholder logic of PLaTypus, and
    [elf_machine_rela] of [sysdeps/x86_64/dl-machine.h], with the relocation
    types PLaTypus adds.  Diagnostic output is not modelled. *)

From S2P Require Import Prelude LinkMap SymHash UniqueSym Lookup TlsOffset.

(** ** Memory: bytes, little endian *)
Fixpoint load (n : nat) (a : Z) (m : gmap Z Z) : res Z :=
  match n with
  | O => Ok 0
  | S n' => b ← res_of_option (m !! a); r ← load n' (a + 1) m; mret (b + 256 * r)
  end.

Fixpoint store (n : nat) (a v : Z) (m : gmap Z Z) : res (gmap Z Z) :=
  match n with
  | O => Ok m
  | S n' =>
      match m !! a with
      | None => Undef
      | Some _ => store n' (a + 1) (v / 256) (<[a := v mod 256]> m)
      end
  end.

(** [memcpy] of [n] bytes between areas that do not overlap. *)
Fixpoint copy (n : nat) (dst src : Z) (m : gmap Z Z) : res (gmap Z Z) :=
  match n with
  | O => Ok m
  | S n' => b ← load 1 src m; m' ← store 1 dst b m; copy n' (dst + 1) (src + 1) m'
  end.

Definition mem_load (n : nat) (a : Z) : M world Z := fun w => lift (load n a (w_mem w)) w.
Definition mem_store (n : nat) (a v : Z) : M world unit := fun w =>
  (m ← lift (store n a v (w_mem w)); modify (set_mem m)) w.
Definition mem_copy (n : nat) (dst src : Z) : M world unit := fun w =>
  (m ← lift (copy n dst src (w_mem w)); modify (set_mem m)) w.

(** ** Counting the dynamic symbols *)

(** [for (i = 0; i < nbuckets; i++) if (buckets[i] > max_sym) max_sym = buckets[i];] *)
Fixpoint max_bucket (n : nat) (buckets : list Z) (max_sym : Z) {struct n} : res Z :=
  match n with
  | O => Ok max_sym
  | S n' =>
      match buckets with
      | [] => Undef
      | b :: buckets' => max_bucket n' buckets' (if max_sym <? b then b else max_sym)
      end
  end.

(** [for (idx = ...; ; ++idx) if (chains[idx] & 1) ...]: the scan has no bound of
    its own; it ends with the section at the latest. *)
Fixpoint last_of_chain (fuel : nat) (chains : list Z) (idx : Z) : res Z :=
  match fuel with
  | O => Diverge
  | S fuel =>
      c ← rd chains idx;
      if Z.land c 1 =? 0 then last_of_chain fuel chains (u32 (idx + 1)) else Ok idx
  end.

Definition get_dynsymtab_and_count_from_link_map (sysv gnu : option (list Z)) : res Z :=
  match sysv with
  | Some hashtab => rd hashtab 1
  | None =>
      match gnu with
      | None => Ok 0
      | Some gnu =>
          nbuckets ← rd gnu 0;
          symoffset ← rd gnu 1;
          bloom ← rd gnu 2;
          let buckets := drop (Z.to_nat (4 + 2 * bloom)) gnu in
          max_sym ← max_bucket (Z.to_nat nbuckets) buckets 0;
          let chains := drop (Z.to_nat nbuckets) buckets in
          if max_sym <? symoffset then Ok symoffset
          else
            idx ← last_of_chain (S (length gnu)) chains (max_sym - symoffset);
            mret (u32 (symoffset + idx + 1))
      end
  end.

(** ** [resolve_map] *)
Definition R_X86_64_NONE : Z := 0.
Definition R_X86_64_64 : Z := 1.
Definition R_X86_64_PC32 : Z := 2.
Definition R_X86_64_COPY : Z := 5.
Definition R_X86_64_GLOB_DAT : Z := 6.
Definition R_X86_64_JUMP_SLOT : Z := 7.
Definition R_X86_64_RELATIVE : Z := 8.
Definition R_X86_64_32 : Z := 10.
Definition R_X86_64_DTPMOD64 : Z := 16.
Definition R_X86_64_DTPOFF64 : Z := 17.
Definition R_X86_64_TPOFF64 : Z := 18.
Definition R_X86_64_SIZE32 : Z := 32.
Definition R_X86_64_SIZE64 : Z := 33.
Definition R_X86_64_TLSDESC : Z := 36.
Definition R_X86_64_IRELATIVE : Z := 37.
Definition R_X86_64_RELATIVE64 : Z := 38.
Definition R_X86_64_EXPERIMENT : Z := 1337.
Definition R_X86_64_ORMASK : Z := 1338.
Definition R_X86_64_ANDMASK : Z := 1339.
Definition R_X86_64_CALLBACK_TABLE : Z := 1340.
Definition R_X86_64_CALLBACK_MAYBE : Z := 1341.
Definition R_X86_64_DSO_BASE : Z := 1342.

Definition elf_machine_type_class (type : Z) : Z :=
  Z.lor
    (if (type =? R_X86_64_JUMP_SLOT) || (type =? R_X86_64_DTPMOD64) || (type =? R_X86_64_DTPOFF64)
        || (type =? R_X86_64_TPOFF64) || (type =? R_X86_64_TLSDESC)
     then ELF_RTYPE_CLASS_PLT else 0)
    (if type =? R_X86_64_COPY then ELF_RTYPE_CLASS_COPY else 0).

(** ["placeholder"], the character ['0' + n], an underscore. *)
Definition placeholder_prefix (n : Z) : string :=
  "placeholder" +:+ String (Ascii.ascii_of_nat (Z.to_nat (u8 (48 + n)))) "_".

(** [strncpy (dst, src, 47); dst[47] = 0] *)
Definition clip47 (s : string) : string := str_take 47 s.

(** The first symbol of the main program whose name starts with the prefix: what
    follows the prefix in its name.  Symbols with name offset zero are passed over. *)
Fixpoint find_prefixed (strtab prefix : string) (syms : list Sym) (n : nat) {struct n}
  : res (option string) :=
  match n with
  | O => mret None
  | S n' =>
      match syms with
      | [] => Undef
      | s :: syms' =>
          if st_name s =? 0 then find_prefixed strtab prefix syms' n'
          else
            symname ← cstr_at strtab (st_name s);
            if strn_eqb symname prefix (String.length prefix)
            then mret (Some (str_drop (String.length prefix) symname))
            else find_prefixed strtab prefix syms' n'
      end
  end.

(** [version && version->hash != 0 ? version : NULL] *)
Definition effective_version (version : option r_found_version) : option r_found_version :=
  match version with
  | Some v => if ver_hash v =? 0 then None else Some v
  | None => None
  end.

Definition RELOC_FLAGS : Z := Z.lor DL_LOOKUP_ADD_DEPENDENCY DL_LOOKUP_FOR_RELOCATE.

Definition set_search (n : Z) (ph : placeholders) : placeholders :=
  mkPh (placeholder_symbols ph) (placeholder_plts ph) (placeholded ph) n.

(** A placeholder was resolved to [rest]: note the name and go on to the next number. *)
Definition record_placeholder (rest : string) : M world unit :=
  ph ← gets w_ph;
  if search_dlsymed ph <=? 10 then
    syms ← lift (wr (placeholder_symbols ph) (search_dlsymed ph - 1) (clip47 rest));
    modify (set_ph (mkPh syms (placeholder_plts ph) (placeholded ph + 1) (u8 (search_dlsymed ph + 1))))
  else mret tt.

(** [search_dlsymed = 0] *)
Definition stop_placeholders : M world unit := modify (fun w => set_ph (set_search 0 (w_ph w)) w).

Section Resolve.
Context (interfere : nat -> world -> world) (fuel : nat).

Definition lookup (name : string) (l : mapid) (ref : option symref) (scope : list (list mapid))
    (version : option r_found_version) (tc : Z) : M world (option lmref * option symref) :=
  _dl_lookup_symbol_x interfere fuel name (Some l) ref scope version tc RELOC_FLAGS None.

(** The placeholder logic.  [Some] is a return from [resolve_map]. *)
Definition resolve_placeholder (l : mapid) (scope : list (list mapid)) (undef_name : string)
    (version : option r_found_version) (r_type : Z) : M world (option (lmref * option symref)) :=
  ph ← gets w_ph;
  let n := search_dlsymed ph in
  if n =? 0 then mret None
  else
    let prefix := placeholder_prefix n in
    if negb (strn_eqb undef_name prefix (String.length prefix - 1)) then mret None
    else
      m ← main_map;
      match m with
      | None => lift Undef
      | Some m =>
          main ← get_map m;
          nsyms ← lift (match sg_sysv_words (l_segs main) with
                        | Some hashtab => rd hashtab 1
                        | None => get_dynsymtab_and_count_from_link_map
                                    (sg_sysv_words (l_segs main)) (sg_gnu_words (l_segs main))
                        end);
          found ← lift (find_prefixed (l_strtab main) prefix (l_symtab main) (Z.to_nat nsyms));
          match found with
          | None => stop_placeholders;; mret None
          | Some rest =>
              '(lr, found_ref) ← lookup rest l None scope (effective_version version)
                                   (elf_machine_type_class r_type);
              match lr with
              | None => stop_placeholders;; mret None
              | Some lr => record_placeholder rest;; mret (Some (lr, found_ref))
              end
          end
      end.

(** The lookup cache of the object, and the search. *)
Definition resolve_cached (l : mapid) (scope : list (list mapid)) (ref : symref) (undef_name : string)
    (version : option r_found_version) (r_type : Z) : M world (option lmref * option symref) :=
  lm ← get_map l;
  let tc := elf_machine_type_class r_type in
  let c := l_lookup_cache lm in
  if bool_decide (lc_sym c = Some ref) && (tc =? lc_type_class c) then
    modify bump_num_cache_relocations;;
    mret (lc_value c, lc_ret c)
  else
    modify (with_map l (set_cache (mkCache (Some ref) tc (lc_value c) (lc_ret c))));;
    '(lr, ref') ← lookup undef_name l (Some ref) scope (effective_version version) tc;
    modify (with_map l (set_cache (mkCache (Some ref) tc lr ref')));;
    mret (lr, ref').

Definition resolve_map (l : mapid) (scope : list (list mapid)) (ref : symref)
    (version : option r_found_version) (r_type : Z) : M world (option lmref * option symref) :=
  s ← get_sym ref;
  if (ST_BIND s =? STB_LOCAL) || binds_local s then mret (Some (Lm l), Some ref)
  else
    lm ← get_map l;
    undef_name ← lift (cstr_at (l_strtab lm) (st_name s));
    r ← resolve_placeholder l scope undef_name version r_type;
    match r with
    | Some (lr, ref') => mret (Some lr, ref')
    | None =>
        if strn_eqb undef_name "placeholder" 11 then mret (Some (Lm l), Some ref)
        else resolve_cached l scope ref undef_name version r_type
    end.

End Resolve.

(** ** [elf_machine_rela] *)
Record rela := mkRela { r_offset : Z; r_type : Z; r_sym : Z; r_addend : Z }.
#[export] Instance rela_eq_dec : EqDecision rela.
Proof. solve_decision. Defined.

(** Fields read through the pointer [resolve_map] returns; the two static link
    maps are zero except for their address. *)
Definition lm_addr (r : lmref) : M world Z :=
  match r with
  | Lm m => lm ← get_map m; mret (l_addr lm)
  | LmExp => gets w_exp_addr
  | LmFake => gets w_fake_addr
  end.
Definition lm_relocated (r : lmref) : M world bool :=
  match r with Lm m => lm ← get_map m; mret (l_relocated lm) | _ => mret false end.
Definition lm_type (r : lmref) : M world l_type_t :=
  match r with Lm m => lm ← get_map m; mret (l_type lm) | _ => mret lt_executable end.
Definition lm_tls (r : lmref) : M world tlsinfo :=
  match r with Lm m => lm ← get_map m; mret (l_tls lm) | _ => mret no_tls end.

(** [SYMBOL_ADDRESS (sym_map, sym, true)] *)
Definition symbol_address (sym_map : option lmref) (sym : option symref) : M world Z :=
  match sym with
  | None => mret 0
  | Some r =>
      s ← get_sym r;
      base ← (if st_shndx s =? SHN_ABS then mret 0
              else match sym_map with None => lift Undef | Some m => lm_addr m end);
      mret (u64 (base + st_value s))
  end.

(** [for (i = 0; i < 10; ++i) if (placeholder_plts[i] == NULL) { placeholder_plts[i] = v; break; }] *)
Fixpoint record_plt (plts : list Z) (v : Z) : list Z :=
  match plts with
  | [] => []
  | p :: plts' => if p =? 0 then v :: plts' else p :: record_plt plts' v
  end.

(** The address the slot held before relocation, that of the PLT stub, is noted. *)
Definition record_stub (map : link_map) (reloc_addr : Z) : M world unit :=
  ph ← gets w_ph;
  if bool_decide (0 ∈ placeholder_plts ph) then
    old ← mem_load 8 reloc_addr;
    modify (set_ph (mkPh (placeholder_symbols ph) (record_plt (placeholder_plts ph) (u64 (l_addr map + old)))
                      (placeholded ph) (search_dlsymed ph)))
  else mret tt.

Definition hex_digit (d : Z) : string :=
  str_take 1 (str_drop (Z.to_nat (Z.land d 0xf)) "0123456789abcdef").

Definition _dl_reloc_bad_type {A} (map : link_map) (type : Z) (plt : bool) : M world A :=
  let msg := if plt then "unexpected PLT reloc type 0x"%string else "unexpected reloc type 0x"%string in
  let high := if 0xff <? type
              then hex_digit (Z.shiftr type 28) +:+ hex_digit (Z.shiftr type 24) +:+ hex_digit (Z.shiftr type 20)
                   +:+ hex_digit (Z.shiftr type 16) +:+ hex_digit (Z.shiftr type 12) +:+ hex_digit (Z.shiftr type 8)
              else ""%string in
  lift (Signal (l_name map) (msg +:+ high +:+ hex_digit (Z.shiftr type 4) +:+ hex_digit type)).

Section Rela.
Context (interfere : nat -> world -> world) (fuel : nat).
(** The result of calling an IFUNC resolver at an address. *)
Context (call_ifunc : Z -> Z).
(** [TLS_TCB_SIZE], the hook that initialises static TLS, the entry points of the TLS
    descriptor functions and the argument allocated for a dynamic descriptor. *)
Context (TLS_TCB_SIZE : Z) (dl_init_static_tls : mapid -> world -> world).
Context (tlsdesc_undefweak tlsdesc_return tlsdesc_dynamic : Z) (make_tlsdesc_dynamic : lmref -> Z -> Z).
Context (to_mitigate : bool).

(** [CHECK_STATIC_TLS (map, sym_map)] *)
Definition CHECK_STATIC_TLS (sym_map : option lmref) : M world unit :=
  match sym_map with
  | None => lift Undef
  | Some (Lm m) =>
      lm ← get_map m;
      if negb (tl_offset (l_tls lm) =? NO_TLS_OFFSET)
         && negb (tl_offset (l_tls lm) =? FORCED_DYNAMIC_TLS_OFFSET)
      then mret tt
      else _dl_allocate_static_tls TLS_TCB_SIZE dl_init_static_tls m
  | Some _ => lift Undef
  end.

(** [TRY_STATIC_TLS (map, sym_map)] *)
Definition TRY_STATIC_TLS (sym_map : option lmref) : M world bool :=
  match sym_map with
  | None => lift Undef
  | Some (Lm m) =>
      lm ← get_map m;
      if tl_offset (l_tls lm) =? FORCED_DYNAMIC_TLS_OFFSET then mret false
      else if negb (tl_offset (l_tls lm) =? NO_TLS_OFFSET) then mret true
      else r ← _dl_try_allocate_static_tls TLS_TCB_SIZE dl_init_static_tls m true; mret (r =? 0)
  | Some _ => lift Undef
  end.

(** A symbol of type STT_GNU_IFUNC is replaced by what its resolver returns. *)
Definition ifunc_value (mid : mapid) (map : link_map) (sym_map : option lmref) (sym : option symref)
    (skip_ifunc : bool) (value : Z) : M world Z :=
  match sym with
  | None => mret value
  | Some r =>
      s ← get_sym r;
      if (ST_TYPE s =? STT_GNU_IFUNC) && negb (st_shndx s =? SHN_UNDEF) && negb skip_ifunc then
        match sym_map with
        | None => lift Undef
        | Some sm =>
            relocated ← lm_relocated sm;
            ty ← lm_type sm;
            if bool_decide (sm <> Lm mid) && negb relocated && bool_decide (ty = lt_executable)
            then lift (Fatal "IFUNC symbol creates an unsatisfiable circular dependency")
            else mret (call_ifunc value)
        end
      else mret value
  end.

Definition need_sym (sym : option symref) : M world Sym :=
  match sym with None => lift Undef | Some r => get_sym r end.

(** The switch on the relocation type. *)
Definition apply_reloc (mid : mapid) (map : link_map) (reloc : rela) (reloc_addr : Z) (refsym : Sym)
    (is_placeholder skip_ifunc : bool) (sym_map : option lmref) (sym : option symref) (value : Z)
  : M world unit :=
  let ty := r_type reloc in
  if (ty =? R_X86_64_JUMP_SLOT) || (ty =? R_X86_64_GLOB_DAT) then
    when (ty =? R_X86_64_JUMP_SLOT) (modify (with_map mid (set_jump_slot true)));;
    when is_placeholder (record_stub map reloc_addr);;
    mem_store 8 reloc_addr value
  else if (ty =? R_X86_64_CALLBACK_TABLE) || (ty =? R_X86_64_CALLBACK_MAYBE) then
    match sym_map with
    | None => lift Undef
    | Some sm => a ← lm_addr sm; mem_store 8 reloc_addr (u64 (r_addend reloc + a))
    end
  else if ty =? R_X86_64_SIZE64 then
    s ← need_sym sym; mem_store 8 reloc_addr (u64 (st_size s + r_addend reloc))
  else if ty =? R_X86_64_DTPMOD64 then
    match sym_map with
    | None => mret tt
    | Some sm => t ← lm_tls sm; mem_store 8 reloc_addr (tl_modid t)
    end
  else if ty =? R_X86_64_DTPOFF64 then
    match sym with
    | None => mret tt
    | Some r => s ← get_sym r; mem_store 8 reloc_addr (u64 (st_value s + r_addend reloc))
    end
  else if ty =? R_X86_64_TLSDESC then
    match sym with
    | None =>
        mem_store 8 (reloc_addr + 8) (u64 (r_addend reloc));; mem_store 8 reloc_addr tlsdesc_undefweak
    | Some r =>
        static ← TRY_STATIC_TLS sym_map;
        s ← get_sym r;
        match sym_map with
        | None => lift Undef
        | Some sm =>
            if (static : bool) then
              t ← lm_tls sm;
              mem_store 8 (reloc_addr + 8) (u64 (st_value s - tl_offset t + r_addend reloc));;
              mem_store 8 reloc_addr tlsdesc_return
            else
              mem_store 8 (reloc_addr + 8) (make_tlsdesc_dynamic sm (u64 (st_value s + r_addend reloc)));;
              mem_store 8 reloc_addr tlsdesc_dynamic
        end
    end
  else if ty =? R_X86_64_TPOFF64 then
    match sym with
    | None => mret tt
    | Some r =>
        CHECK_STATIC_TLS sym_map;;
        s ← get_sym r;
        match sym_map with
        | None => lift Undef
        | Some sm => t ← lm_tls sm;
                     mem_store 8 reloc_addr (u64 (st_value s + r_addend reloc - tl_offset t))
        end
    end
  else if ty =? R_X86_64_ORMASK then
    mem_store 8 reloc_addr (if to_mitigate then sg_exec_start (l_segs map) else 0)
  else if ty =? R_X86_64_ANDMASK then
    mem_store 8 reloc_addr (if to_mitigate then sg_exec_end (l_segs map) else 0xffffffffffffffff)
  else if (ty =? R_X86_64_64) || (ty =? R_X86_64_DSO_BASE) || (ty =? R_X86_64_EXPERIMENT) then
    mem_store 8 reloc_addr (u64 (value + r_addend reloc))
  else if ty =? R_X86_64_SIZE32 then
    s ← need_sym sym; mem_store 4 reloc_addr (u64 (st_size s + r_addend reloc))
  else if ty =? R_X86_64_32 then
    mem_store 4 reloc_addr (u64 (value + r_addend reloc))
  else if ty =? R_X86_64_PC32 then
    mem_store 4 reloc_addr (u64 (value + r_addend reloc - reloc_addr))
  else if ty =? R_X86_64_COPY then
    match sym with
    | None => mret tt
    | Some r => s ← get_sym r; mem_copy (Z.to_nat (Z.min (st_size s) (st_size refsym))) reloc_addr value
    end
  else if ty =? R_X86_64_IRELATIVE then
    let value := u64 (l_addr map + r_addend reloc) in
    mem_store 8 reloc_addr (if skip_ifunc then value else call_ifunc value)
  else _dl_reloc_bad_type map ty false.

Definition elf_machine_rela (mid : mapid) (scope : list (list mapid)) (reloc : rela) (sym : symref)
    (version : option r_found_version) (reloc_addr : Z) (skip_ifunc : bool) : M world unit :=
  map ← get_map mid;
  s ← get_sym sym;
  name ← lift (cstr_at (l_strtab map) (st_name s));
  let is_placeholder := strn_eqb name "placeholder" 11 in
  let ty := r_type reloc in
  if ty =? R_X86_64_RELATIVE then mem_store 8 reloc_addr (u64 (l_addr map + r_addend reloc))
  else if ty =? R_X86_64_RELATIVE64 then mem_store 8 reloc_addr (u64 (l_addr map + r_addend reloc))
  else if ty =? R_X86_64_NONE then mret tt
  else
    '(sym_map, sym') ← resolve_map interfere fuel mid scope sym version ty;
    value ← symbol_address sym_map sym';
    value ← ifunc_value mid map sym_map sym' skip_ifunc value;
    apply_reloc mid map reloc reloc_addr s is_placeholder skip_ifunc sym_map sym' value.

End Rela.
