(* ===== verification/RelocSpec.v ===== *)
(** * What relocation guarantees

    The memory operations, the count of the dynamic symbols, the mask
    relocations of PLaTypus, and the placeholder table: its invariant, how an
    entry is made, and which placeholders can be used. *)

From S2P Require Import Prelude Mask ElfHash LinkMap SymHash SymHashSpec UniqueSym Lookup LookupSpec TlsOffset Reloc.

(** ** Memory *)
Lemma store_other n : forall a v m m' b,
  store n a v m = Ok m' -> b < a \/ a + Z.of_nat n <= b -> m' !! b = m !! b.
Proof.
  induction n as [|n IH]; intros a v m m' b; cbn [store]; [intros [= <-]; done|].
  destruct (m !! a) as [x|]; [|done]. intros H Hb.
  rewrite (IH _ _ _ _ b H) by lia. apply lookup_insert_ne. lia.
Qed.

(** A word that was stored is read back, up to its width. *)
Lemma store_load n : forall a v m m',
  store n a v m = Ok m' -> load n a m' = Ok (v mod 256 ^ Z.of_nat n).
Proof.
  induction n as [|n IH]; intros a v m m'; cbn [store load].
  - intros [= <-]. by rewrite Z.mod_1_r.
  - destruct (m !! a) as [x|]; [|done]. intros H.
    rewrite (store_other _ _ _ _ _ a H), lookup_insert_eq by lia. cbn [res_of_option mbind res_bind].
    rewrite (IH _ _ _ _ H). cbn [mbind res_bind mret res_ret]. f_equal.
    rewrite Nat2Z.inj_succ, Z.pow_succ_r by lia.
    by rewrite Z.rem_mul_r by lia.
Qed.

Definition mapped (n : nat) (a : Z) (m : gmap Z Z) : Prop :=
  forall b, a <= b < a + Z.of_nat n -> is_Some (m !! b).

Lemma store_mapped n : forall a v m, mapped n a m -> exists m', store n a v m = Ok m'.
Proof.
  induction n as [|n IH]; intros a v m Hm; cbn [store]; [by eexists|].
  destruct (Hm a) as [x ->]; [lia|]. apply IH. intros b Hb.
  rewrite lookup_insert_ne by lia. apply Hm. lia.
Qed.

Lemma store_keeps_mapped n a v m m' k b : store n a v m = Ok m' -> mapped k b m -> mapped k b m'.
Proof.
  revert a v m. induction n as [|n IH]; intros a v m; cbn [store]; [by intros [= <-]|].
  destruct (m !! a) as [x|] eqn:Hx; [|done]. intros H Hm. apply (IH _ _ _ H).
  intros c Hc. destruct (decide (c = a)) as [->|]; [rewrite lookup_insert_eq; by eexists|].
  rewrite lookup_insert_ne by done. by apply Hm.
Qed.

Lemma load_other n a m m' : (forall b, a <= b < a + Z.of_nat n -> m' !! b = m !! b) -> load n a m' = load n a m.
Proof.
  revert a. induction n as [|n IH]; intros a H; cbn [load]; [done|].
  rewrite (H a), (IH (a + 1)) by (intros; try apply H; lia). done.
Qed.

(** ** The count of the dynamic symbols *)
Lemma max_bucket_spec n : forall buckets m0,
  (n <= length buckets)%nat ->
  exists m, max_bucket n buckets m0 = Ok m /\ m0 <= m /\ (m = m0 \/ m ∈ take n buckets) /\
    forall b, b ∈ take n buckets -> b <= m.
Proof.
  induction n as [|n IH]; intros buckets m0 Hn; cbn [max_bucket].
  - exists m0. repeat split; [lia|by left|]. intros b Hb. by apply elem_of_nil in Hb.
  - destruct buckets as [|b buckets]; cbn [length] in Hn; [lia|]. cbn [take].
    destruct (IH buckets (if m0 <? b then b else m0)) as (m & Hm & Hle & Hin & Hmax); [lia|].
    exists m. destruct (Z.ltb_spec m0 b).
    + repeat split; [done|lia|right|].
      * destruct Hin as [->|Hin]; set_solver.
      * intros c [->|Hc]%elem_of_cons; [lia|by apply Hmax].
    + repeat split; [done|lia| |].
      * destruct Hin as [->|Hin]; [by left|right; set_solver].
      * intros c [->|Hc]%elem_of_cons; [lia|by apply Hmax].
Qed.

(** The chain walk stops at the first marked word. *)
Lemma last_of_chain_spec fuel chains idx last :
  0 <= idx <= last -> last < 2 ^ 32 - 1 -> (Z.to_nat (last - idx) < fuel)%nat ->
  (forall i, idx <= i < last -> exists c, rd chains i = Ok c /\ Z.land c 1 = 0) ->
  (exists c, rd chains last = Ok c /\ Z.land c 1 <> 0) ->
  last_of_chain fuel chains idx = Ok last.
Proof.
  revert idx. induction fuel as [|fuel IH]; intros idx Hi Hl Hf Hbefore Hlast; [lia|].
  cbn [last_of_chain]. destruct (Z.eq_dec idx last) as [->|].
  - destruct Hlast as (c & -> & Hc). cbn [mbind res_bind]. by rewrite (proj2 (Z.eqb_neq _ _) Hc).
  - destruct (Hbefore idx) as (c & -> & Hc); [lia|]. cbn [mbind res_bind]. rewrite Hc. cbn [Z.eqb].
    rewrite u32_small by lia. apply IH; try done; try lia. intros i Hi'. apply Hbefore. lia.
Qed.

Section Count.
Context (map : link_map) (bitmask : list Z) (Hwf : wf_gnu map bitmask).
Local Abbreviation bias := (l_gnu_symbias (l_hash map)).
Local Abbreviation nb := (l_nbuckets (l_hash map)).
Local Abbreviation buckets := (l_gnu_buckets (l_hash map)).
Local Abbreviation chain := (l_gnu_chain (l_hash map)).

(** The bucket word of a symbol's bucket is at most the symbol's index. *)
Lemma bucket_start i b :
  bias <= i < nsyms map -> bucket_of map i = Some b ->
  exists s, s ∈ take (Z.to_nat nb) buckets /\ bias <= s <= i /\ bucket_of map s = Some b.
Proof.
  intros Hi Hb. assert (Hr : 0 <= b < nb).
  { unfold bucket_of in Hb. destruct (sym_name map i); try discriminate. injection Hb as <-.
    apply Z.mod_pos_bound, (wg_nbuckets _ _ Hwf). }
  destruct (wg_bucket _ _ Hwf b Hr) as (s & Hs & [[-> Hno]|(Hrange & Hsb & Hbefore)]).
  - by destruct (Hno i Hi).
  - exists s. apply rd_Ok in Hs as [_ Hs]. split.
    + apply list_elem_of_lookup. exists (Z.to_nat b). rewrite lookup_take_lt by lia. done.
    + split; [|done]. split; [lia|]. destruct (Z.le_gt_cases s i); [done|].
      exfalso. apply (Hbefore i); [lia|done].
Qed.

Lemma buckets_length : (Z.to_nat nb <= length buckets)%nat.
Proof.
  pose proof (wg_nbuckets _ _ Hwf). destruct (wg_bucket _ _ Hwf (nb - 1)) as (s & Hs & _); [lia|].
  apply rd_Ok in Hs as [_ Hs%lookup_lt_Some]. lia.
Qed.

Lemma bucket_elem s :
  s ∈ take (Z.to_nat nb) buckets -> s = 0 \/ bias <= s < nsyms map.
Proof.
  intros [k Hk]%list_elem_of_lookup. pose proof (lookup_lt_Some _ _ _ Hk) as Hlt.
  rewrite length_take in Hlt. rewrite lookup_take_lt in Hk by lia.
  destruct (wg_bucket _ _ Hwf (Z.of_nat k)) as (s' & Hs & H); [lia|].
  rewrite (rd_nat _ _ _ Hk) in Hs. injection Hs as <-. lia.
Qed.

Lemma bucket_of_some i : bias <= i < nsyms map -> exists b, bucket_of map i = Some b.
Proof. intros Hi. destruct (wg_named _ _ Hwf i Hi) as [nm Hn]. unfold bucket_of. rewrite Hn. by eexists. Qed.

(** From the largest bucket word on, all symbols share a bucket. *)
Lemma last_bucket m i :
  (forall b, b ∈ take (Z.to_nat nb) buckets -> b <= m) -> bias <= m -> m <= i -> i + 1 < nsyms map ->
  bucket_of map (i + 1) = bucket_of map i.
Proof.
  intros Hmax Hm Hi Hn. destruct (bucket_of_some (i + 1)) as [b Hb]; [lia|].
  destruct (bucket_start (i + 1) b) as (s & Hs & Hr & Hsb); [lia|done|].
  specialize (Hmax s Hs). rewrite Hb.
  rewrite (wg_grouped _ _ Hwf s i (i + 1)) by (lia || congruence). done.
Qed.

Lemma count_walk m : bias <= m < nsyms map -> (forall b, b ∈ take (Z.to_nat nb) buckets -> b <= m) ->
  nsyms map < 2 ^ 32 -> forall fuel, (length chain < fuel)%nat ->
  last_of_chain fuel chain (m - bias) = Ok (nsyms map - 1 - bias).
Proof.
  intros Hm Hmax Hn fuel Hf. pose proof (wg_bias _ _ Hwf) as Hb.
  assert (Hc : forall i, bias <= i < nsyms map -> exists c, rd chain (i - bias) = Ok c /\
            (Z.land c 1 = 0 <-> i + 1 < nsyms map /\ bucket_of map (i + 1) = bucket_of map i)).
  { intros i Hi. destruct (wg_named _ _ Hwf i Hi) as [nm Hnm].
    destruct (wg_chain _ _ Hwf i nm Hi Hnm) as (c & Hc & _ & Hl). eauto. }
  apply last_of_chain_spec; [lia|lia| | |].
  - destruct (Hc (nsyms map - 1)) as (c & Hr & _); [lia|].
    apply rd_Ok in Hr as [_ Hr%lookup_lt_Some]. lia.
  - intros i Hi. destruct (Hc (i + bias)) as (c & Hr & Hl); [lia|].
    replace (i + bias - bias) with i in Hr by lia. exists c. split; [done|]. apply Hl. split; [lia|].
    apply (last_bucket m); done || lia.
  - destruct (Hc (nsyms map - 1)) as (c & Hr & Hl); [lia|].
    replace (nsyms map - 1 - bias) with (nsyms map - 1 - bias) by lia. exists c. split; [done|].
    intros E. apply Hl in E. lia.
Qed.

End Count.

(**  The symbol count PLaTypus derives from a GNU hash section is the
    number of dynamic symbols: for a well-formed section whose words the link map was set
    up from, the largest bucket and its chain lead to the last symbol. *)
Theorem dynsym_count_correct map words h0 bitmask nw :
  _dl_setup_hash (Some words) None h0 = Ok (l_hash map) -> wf_gnu map bitmask ->
  nsyms map < 2 ^ 32 -> rd words 2 = Ok nw -> 0 <= nw < 2 ^ 31 ->
  get_dynsymtab_and_count_from_link_map None (Some words) = Ok (nsyms map).
Proof.
  intros Hset Hwf Hn Hnw Hr. unfold _dl_setup_hash in Hset. inv_res.
  match goal with H : rd words 2 = Ok ?x |- _ => assert (x = nw) as -> by congruence end.
  pose proof (wg_bias _ _ Hwf) as Hb. pose proof (buckets_length _ _ Hwf) as Hlen.
  pose proof (bucket_elem _ _ Hwf) as Helem. pose proof (bucket_start _ _ Hwf) as Hstart.
  pose proof (count_walk _ _ Hwf) as Hwalk. pose proof (bucket_of_some _ _ Hwf) as Hbs.
  injection Hset as Hset. rewrite <- Hset in *.
  cbn [l_nbuckets l_gnu_symbias l_gnu_buckets l_gnu_chain] in *.
  unfold get_dynsymtab_and_count_from_link_map.
  repeat match goal with H : rd words _ = Ok _ |- _ => rewrite H; clear H end. cbn [mbind res_bind].
  rewrite (u32_small (2 * nw)) in * by lia.
  assert (E : drop (Z.to_nat (2 * nw)) (drop 4 words) = drop (Z.to_nat (4 + 2 * nw)) words)
    by (rewrite drop_drop; f_equal; lia).
  rewrite E in *. clear E.
  destruct (max_bucket_spec _ _ 0 Hlen) as (m & Hm & Hm0 & Hin & Hmax). rewrite Hm. cbn [mbind res_bind].
  destruct (Z.ltb_spec m x0) as [Hlt|Hge].
  - f_equal. destruct (Z.eq_dec x0 (nsyms map)); [done|]. exfalso.
    destruct (Hbs x0) as [b Hb']; [lia|]. destruct (Hstart x0 b) as (s & Hs & Hsr & _); [lia|done|].
    specialize (Hmax s Hs). lia.
  - assert (Hmr : x0 <= m < nsyms map) by (destruct Hin as [->|Hin]; [lia|]; destruct (Helem m Hin); lia).
    rewrite Hwalk; [|done|done|done|rewrite !length_drop; lia]. cbn [mbind res_bind mret res_ret].
    f_equal. rewrite u32_small by lia. lia.
Qed.

(** ** The mask relocations *)
Section Masks.
Context (interfere : nat -> world -> world) (fuel : nat) (call_ifunc : Z -> Z) (tcb : Z).
Context (init_static : mapid -> world -> world) (d1 d2 d3 : Z) (mk : lmref -> Z -> Z) (mitigate : bool).

Local Abbreviation rela_step := (elf_machine_rela interfere fuel call_ifunc tcb init_static d1 d2 d3 mk mitigate).

(** The symbol at [i] of the object [mid] is local, named, and no IFUNC. *)
Definition local_sym (w : world) (mid : mapid) (map : link_map) (i : Z) : Prop :=
  w_maps w !! mid = Some map /\
  exists s nm, rd (l_symtab map) i = Ok s /\ cstr_at (l_strtab map) (st_name s) = Ok nm /\
    ST_BIND s = STB_LOCAL /\ ST_TYPE s <> STT_GNU_IFUNC.

(** The relocations that only depend on the object itself. *)
Lemma rela_mask w mid map i scope off addend a type v :
  local_sym w mid map i -> mapped 8 a (w_mem w) -> 0 <= v < 2 ^ 64 ->
  (type = R_X86_64_ORMASK /\ v = (if mitigate then sg_exec_start (l_segs map) else 0) \/
   type = R_X86_64_ANDMASK /\ v = (if mitigate then sg_exec_end (l_segs map) else 0xffffffffffffffff)) ->
  exists m', store 8 a v (w_mem w) = Ok m' /\
    rela_step mid scope (mkRela off type i addend) (SymAt mid i) None a false w = Ret tt (set_mem m' w).
Proof.
  intros (Hmap & s & nm & Hs & Hnm & Hb & Ht) Hm Hv Hty.
  destruct (store_mapped 8 a v (w_mem w) Hm) as [m' Hst]. exists m'. split; [done|].
  unfold elf_machine_rela.
  rewrite (M_bind_step _ _ _ map w) by (unfold get_map; by rewrite Hmap).
  rewrite (M_bind_step _ _ _ s w) by (cbn; rewrite Hmap, Hs; done).
  rewrite (M_bind_step _ _ _ nm w) by (by rewrite Hnm). cbn [r_type].
  assert ((type =? R_X86_64_RELATIVE) = false /\ (type =? R_X86_64_RELATIVE64) = false /\
          (type =? R_X86_64_NONE) = false) as (-> & -> & ->) by (destruct Hty as [[-> _]|[-> _]]; done).
  rewrite (M_bind_step _ _ _ (Some (Lm mid), Some (SymAt mid i)) w).
  2:{ unfold resolve_map. rewrite (M_bind_step _ _ _ s w) by (cbn; rewrite Hmap, Hs; done). by rewrite Hb. }
  assert (exists x, symbol_address (Some (Lm mid)) (Some (SymAt mid i)) w = Ret x w) as [x Hx].
  { unfold symbol_address. rewrite (M_bind_step _ _ _ s w) by (cbn; rewrite Hmap, Hs; done).
    destruct (st_shndx s =? SHN_ABS); [by eexists|]. cbn [lm_addr].
    unfold mbind, M_bind, get_map. rewrite Hmap. by eexists. }
  rewrite (M_bind_step _ _ _ x w Hx).
  rewrite (M_bind_step _ _ _ x w).
  2:{ unfold ifunc_value. rewrite (M_bind_step _ _ _ s w) by (cbn; rewrite Hmap, Hs; done).
      by rewrite (proj2 (Z.eqb_neq _ _) Ht). }
  unfold apply_reloc. cbn [r_type].
  destruct Hty as [[-> Hval]|[-> Hval]]; cbn [Z.eqb Pos.eqb orb R_X86_64_ORMASK R_X86_64_ANDMASK
    R_X86_64_JUMP_SLOT R_X86_64_GLOB_DAT R_X86_64_CALLBACK_TABLE R_X86_64_CALLBACK_MAYBE R_X86_64_SIZE64
    R_X86_64_DTPMOD64 R_X86_64_DTPOFF64 R_X86_64_TLSDESC R_X86_64_TPOFF64];
    unfold mem_store, mbind, M_bind, lift; rewrite <- Hval, Hst; done.
Qed.

Definition or_mask_of (map : link_map) : Z := if mitigate then sg_exec_start (l_segs map) else 0.
Definition and_mask_of (map : link_map) : Z :=
  if mitigate then sg_exec_end (l_segs map) else 0xffffffffffffffff.

(** C6.  The words [or_mask] and [and_mask] of an object hold, once their
    relocations are processed, the masks that were computed when the object
    was mapped; without mitigation they leave every call target unchanged. *)
Theorem mask_words_installed w mid map i j scope scope' off off' add add' a b :
  local_sym w mid map i -> local_sym w mid map j ->
  mapped 8 a (w_mem w) -> mapped 8 b (w_mem w) -> a + 8 <= b \/ b + 8 <= a ->
  0 <= sg_exec_start (l_segs map) < 2 ^ 64 -> 0 <= sg_exec_end (l_segs map) < 2 ^ 64 ->
  exists w',
    (rela_step mid scope (mkRela off R_X86_64_ORMASK i add) (SymAt mid i) None a false;;
     rela_step mid scope' (mkRela off' R_X86_64_ANDMASK j add') (SymAt mid j) None b false) w = Ret tt w' /\
    load 8 a (w_mem w') = Ok (or_mask_of map) /\ load 8 b (w_mem w') = Ok (and_mask_of map) /\
    (mitigate = false -> forall t, 0 <= t < 2 ^ 64 -> masked (or_mask_of map) (and_mask_of map) t = t).
Proof.
  intros Hi Hj Ha Hb Hab Hs He.
  assert (Hor : 0 <= or_mask_of map < 2 ^ 64) by (unfold or_mask_of; destruct mitigate; lia).
  assert (Hand : 0 <= and_mask_of map < 2 ^ 64) by (unfold and_mask_of; destruct mitigate; lia).
  destruct (rela_mask w mid map i scope off add a R_X86_64_ORMASK (or_mask_of map) Hi Ha Hor (or_introl (conj eq_refl eq_refl)))
    as (m1 & Hst1 & Hrun1).
  assert (Hm1 : w_mem (set_mem m1 w) = m1) by (by destruct w).
  destruct (rela_mask (set_mem m1 w) mid map j scope' off' add' b R_X86_64_ANDMASK (and_mask_of map))
    as (m2 & Hst2 & Hrun2).
  { by destruct w. }
  { rewrite Hm1. by eapply store_keeps_mapped. }
  { done. }
  { right. done. }
  exists (set_mem m2 (set_mem m1 w)).
  split; [by rewrite (M_bind_step _ _ _ tt (set_mem m1 w))|].
  assert (Hm2 : w_mem (set_mem m2 (set_mem m1 w)) = m2) by (by destruct w).
  rewrite Hm1 in Hst2. rewrite Hm2. split; [|split].
  - rewrite (load_other 8 a m1 m2) by (intros c Hc; eapply store_other; [exact Hst2|lia]).
    rewrite (store_load _ _ _ _ _ Hst1). f_equal. by apply Z.mod_small.
  - rewrite (store_load _ _ _ _ _ Hst2). f_equal. by apply Z.mod_small.
  - intros Hmit t Ht. unfold or_mask_of, and_mask_of. rewrite Hmit. unfold masked.
    rewrite Z.lor_0_r. change 0xffffffffffffffff with (Z.ones 64). rewrite Z.land_ones by lia.
    by apply Z.mod_small.
Qed.

End Masks.

(** ** What symbol lookup leaves alone

    [same_obj]: what identifies an object, its dynamic section and its segments
    are not changed after it is loaded. *)
Record same_obj (m m' : link_map) : Prop := {
  so_id : l_id m' = l_id m;
  so_dyn : l_dyn m' = l_dyn m;
  so_segs : l_segs m' = l_segs m }.
Definition benign (f : link_map -> link_map) : Prop := forall m, same_obj m (f m).

Create HintDb benign.
Ltac benign := solve [intros [? ? [] [] ? ? ?]; unfold mark_nodelete; try case_match; done].
#[export] Hint Extern 0 (benign _) => benign : benign.

(** A relation between states that holds across every store of the lookup code. *)
Class Harmless (R : world -> world -> Prop) := {
  hl_preorder :: PreOrder R;
  hl_with_map m f w : benign f -> R w (with_map m f w);
  hl_set_ns ns w : R w (set_ns ns w);
  hl_bump w : R w (bump_num_relocations w);
  hl_bump_cache w : R w (bump_num_cache_relocations w);
  hl_exp a w : R w (set_exp_addr a w);
  hl_fake a w : R w (set_fake_addr a w);
  hl_area a w : R w (set_area a w) }.

Section Harmless.
Context (R : world -> world -> Prop) `{!Harmless R}.

Lemma stable_get_map m : stable R (get_map m).
Proof. intros w. unfold get_map. by destruct (w_maps w !! m). Qed.
Lemma stable_get_ns n : stable R (get_ns n).
Proof. intros w. unfold get_ns. by destruct (w_ns w !! n). Qed.
Lemma stable_get_sym r : stable R (get_sym r).
Proof. intros w. destruct r as [m i|]; cbn; [|done]. destruct (w_maps w !! m); [|done]. apply (stable_lift R _ w). Qed.
Lemma stable_with_map m f : benign f -> stable R (modify (with_map m f)).
Proof. intros Hf. apply stable_modify. intros w. by apply hl_with_map. Qed.
Lemma stable_set_unique n t : stable R (set_unique n t).
Proof. intros w. unfold set_unique. destruct (w_ns w !! n); [|done]. apply hl_set_ns. Qed.
Lemma stable_bump : stable R (modify bump_num_relocations).
Proof. apply stable_modify, hl_bump. Qed.
Lemma stable_bump_cache : stable R (modify bump_num_cache_relocations).
Proof. apply stable_modify, hl_bump_cache. Qed.
Lemma stable_exp a : stable R (modify (set_exp_addr a)).
Proof. apply stable_modify. intros w. apply hl_exp. Qed.
Lemma stable_fake a : stable R (modify (set_fake_addr a)).
Proof. apply stable_modify. intros w. apply hl_fake. Qed.
Lemma stable_area a : stable R (modify (set_area a)).
Proof. apply stable_modify. intros w. apply hl_area. Qed.
Lemma stable_load n a : stable R (mem_load n a).
Proof. intros w. unfold mem_load. apply (stable_lift R _ w). Qed.
Hint Resolve stable_get_map stable_get_ns stable_get_sym stable_set_unique stable_bump stable_bump_cache
  stable_exp stable_fake stable_area stable_load : stable.
Hint Extern 1 (stable _ (modify (with_map _ _))) => apply stable_with_map; benign : stable.

Lemma stable_unique a b c d e f g h i : stable R (do_lookup_unique a b c d e f g h i).
Proof. unfold do_lookup_unique. stable_auto. Qed.
Lemma stable_protected a b c d e : stable R (_dl_check_protected_symbol a b c d e).
Proof. unfold _dl_check_protected_symbol. stable_auto. Qed.
Hint Resolve stable_unique stable_protected : stable.
Lemma stable_in_map a b c d e f g h m st : stable R (lookup_in_map a b c d e f g h m st).
Proof. unfold lookup_in_map, gone, take_symbol. stable_auto. Qed.
Hint Resolve stable_in_map : stable.
Lemma stable_list a b c d e f g h l st : stable R (lookup_list a b c d e f g h l st).
Proof. revert st. induction l; intros st; cbn [lookup_list]; stable_auto; auto. Qed.
Hint Resolve stable_list : stable.
Lemma stable_do_lookup a b c d e f g h l i st : stable R (do_lookup_x a b c d e f g h l i st).
Proof. unfold do_lookup_x. stable_auto. Qed.
Lemma stable_main : stable R main_map.
Proof. unfold main_map. stable_auto. Qed.
Hint Resolve stable_do_lookup stable_main : stable.
Lemma stable_scopes a b c d e f g h l i st : stable R (search_scopes a b c d e f g h l i st).
Proof. revert i st. induction l; intros i st; cbn [search_scopes]; stable_auto; auto. Qed.
Lemma stable_scopes_protected a b c d e f l i st : stable R (search_protected a b c d e f l i st).
Proof. revert i st. induction l; intros i st; cbn [search_protected]; stable_auto; auto. Qed.
Hint Resolve stable_scopes stable_scopes_protected : stable.
Lemma stable_resolve_protected a b c d e f g h i j st : stable R (resolve_protected a b c d e f g h i j st).
Proof. unfold resolve_protected. stable_auto. Qed.
Lemma stable_not_found a b c d : stable R (not_found a b c d).
Proof. unfold not_found. stable_auto. Qed.
Hint Resolve stable_resolve_protected stable_not_found : stable.

(** What runs while the locks are released, and the hook that initialises static TLS,
    are assumed to keep to the relation too. *)
Context (interfere : nat -> world -> world) (Hinterfere : forall n w, R w (interfere n w)).

Lemma stable_dependency n a b c : stable R (add_dependency (interfere n) a b c).
Proof.
  assert (stable R (modify (interfere n))) by (apply stable_modify; intros w; apply Hinterfere).
  unfold add_dependency, append_reldep, out_check. stable_auto.
Qed.
Hint Resolve stable_dependency : stable.
Lemma stable_lookup_x n : forall a b c d e f g h, stable R (_dl_lookup_symbol_x interfere n a b c d e f g h).
Proof. induction n; intros; cbn [_dl_lookup_symbol_x]; stable_auto; auto. Qed.
Hint Resolve stable_lookup_x : stable.
Lemma stable_cached fuel l scope ref nm v ty : stable R (resolve_cached interfere fuel l scope ref nm v ty).
Proof. unfold resolve_cached, lookup. stable_auto. Qed.

Context (init_static : mapid -> world -> world) (Hinit : forall m w, R w (init_static m w)).

Lemma stable_try_tls tcb m opt : stable R (_dl_try_allocate_static_tls tcb init_static m opt).
Proof.
  assert (stable R (modify (init_static m))) by (apply stable_modify; intros w; apply Hinit).
  unfold _dl_try_allocate_static_tls. stable_auto.
Qed.
Hint Resolve stable_try_tls : stable.
Lemma stable_alloc_tls tcb m : stable R (_dl_allocate_static_tls tcb init_static m).
Proof. unfold _dl_allocate_static_tls. stable_auto. Qed.
End Harmless.

#[export] Hint Resolve stable_get_map stable_get_ns stable_get_sym stable_set_unique stable_bump stable_bump_cache
  stable_exp stable_fake stable_area stable_load stable_main stable_lookup_x stable_cached stable_try_tls
  stable_alloc_tls : stable.
#[export] Hint Extern 1 (stable _ (modify (with_map _ _))) => apply stable_with_map; [exact _|benign] : stable.

(** ** The placeholder table *)
Definition same_ph (w w' : world) : Prop := w_ph w' = w_ph w.
#[export] Instance same_ph_harmless : Harmless same_ph.
Proof. split; try by intros; destruct w. split; [done|]. intros x y z H1 H2. unfold same_ph in *. congruence. Qed.

Lemma same_ph_store n a v : stable same_ph (mem_store n a v).
Proof. intros w. unfold mem_store. unfold mbind, M_bind, lift. destruct (store n a v (w_mem w)); done || by destruct w. Qed.
Lemma same_ph_copy n a v : stable same_ph (mem_copy n a v).
Proof. intros w. unfold mem_copy. unfold mbind, M_bind, lift. destruct (copy n a v (w_mem w)); done || by destruct w. Qed.
#[export] Hint Resolve same_ph_store same_ph_copy : stable.

Section Placeholders.
Context (interfere : nat -> world -> world) (Hint : forall n w, w_ph (interfere n w) = w_ph w).

(** The table: ten names of at most 47 characters, ten stubs, and the counters in step. *)
Definition wf_ph (ph : placeholders) : Prop :=
  length (placeholder_symbols ph) = 10%nat /\ length (placeholder_plts ph) = 10%nat /\
  0 <= placeholded ph <= 10 /\ (search_dlsymed ph = 0 \/ search_dlsymed ph = placeholded ph + 1) /\
  Forall (fun s => (String.length s <= 47)%nat) (placeholder_symbols ph).

Definition keeps_wf (w w' : world) : Prop := wf_ph (w_ph w) -> wf_ph (w_ph w').
#[export] Instance keeps_wf_preorder : PreOrder keeps_wf.
Proof. split; [by intros w H|]. intros x y z H1 H2 H. by apply H2, H1. Qed.

Lemma keeps_wf_same {A} (m : M world A) : stable same_ph m -> stable keeps_wf m.
Proof.
  intros H w. specialize (H w). unfold same_ph, keeps_wf in *.
  destruct (m w); try done; by rewrite H.
Qed.

Lemma clip47_length s : (String.length (clip47 s) <= 47)%nat.
Proof.
  unfold clip47. generalize 47%nat. intros n. revert s. induction n as [|n IH]; intros s; cbn; [lia|].
  destruct s; cbn; [lia|]. specialize (IH s). lia.
Qed.

Lemma keeps_wf_record rest : stable keeps_wf (record_placeholder rest).
Proof.
  intros w. unfold record_placeholder. rewrite (M_bind_step _ _ _ (w_ph w) w) by done.
  destruct (Z.leb_spec (search_dlsymed (w_ph w)) 10) as [Hle|_]; [|by intros Hw].
  unfold mbind, M_bind, lift, wr.
  destruct (_ && _) eqn:E; cbn; [|done]. zbool. intros (H1 & H2 & H3 & H4 & H5).
  unfold wf_ph. destruct w as [ms ns ph ea fa nr nc me ta cf]. cbn in *.
  destruct H4 as [H4|H4]; [lia|].
  rewrite length_insert. repeat split; try done; try lia.
  - right. unfold u8. rewrite Z.mod_small by lia. lia.
  - apply Forall_insert; [done|]. apply clip47_length.
Qed.

Lemma record_plt_length plts v : length (record_plt plts v) = length plts.
Proof. induction plts; cbn; [done|]. by destruct (_ =? 0); cbn; rewrite ?IHplts. Qed.

Lemma keeps_wf_stub map a : stable keeps_wf (record_stub map a).
Proof.
  intros w. unfold record_stub. rewrite (M_bind_step _ _ _ (w_ph w) w) by done.
  case_bool_decide; [|by intros H1].
  unfold mbind, M_bind, mem_load, lift. destruct (Reloc.load 8 a (w_mem w)); try done.
  intros (H1 & H2 & H3 & H4 & H5). destruct w. unfold wf_ph. cbn in *. by rewrite record_plt_length.
Qed.

(** With a well-formed table and the search on, noting a name never leaves the arrays; a full table is left alone. *)
Lemma record_in_bounds rest w : wf_ph (w_ph w) -> search_dlsymed (w_ph w) <> 0 ->
  exists w', record_placeholder rest w = Ret tt w' /\ wf_ph (w_ph w') /\ (placeholded (w_ph w) = 10 -> w' = w).
Proof.
  intros Hwf Hn. pose proof (keeps_wf_record rest w) as Hk. unfold record_placeholder in *.
  rewrite (M_bind_step _ _ _ (w_ph w) w) in * by done. pose proof Hwf as (L1 & _ & L3 & [L4|L4] & _); [done|].
  destruct (Z.leb_spec (search_dlsymed (w_ph w)) 10) as [Hle|Hgt]; [|by exists w].
  rewrite wr_Ok in * by (rewrite L1; lia). eexists. split; [reflexivity|]. split; [by apply Hk|lia].
Qed.

(** A stub is noted whenever its slot can be read. *)
Lemma stub_in_bounds map a old w : wf_ph (w_ph w) -> Reloc.load 8 a (w_mem w) = Ok old ->
  exists w', record_stub map a w = Ret tt w' /\ wf_ph (w_ph w').
Proof.
  intros Hwf Hl. pose proof (keeps_wf_stub map a w) as Hk. unfold record_stub in *.
  rewrite (M_bind_step _ _ _ (w_ph w) w) in * by done. case_bool_decide; [|by exists w].
  unfold mbind, M_bind, mem_load, lift in *. rewrite Hl in *. eexists. split; [reflexivity|]. by apply Hk.
Qed.

Lemma keeps_wf_stop : stable keeps_wf stop_placeholders.
Proof.
  apply stable_modify. intros w (H1 & H2 & H3 & _ & H5). destruct w. unfold wf_ph. cbn in *.
  repeat split; done || lia.
Qed.

Hint Resolve keeps_wf_same keeps_wf_record keeps_wf_stop : stable.

Lemma keeps_wf_resolve fuel l scope ref v ty :
  stable keeps_wf (resolve_map interfere fuel l scope ref v ty).
Proof.
  unfold resolve_map, resolve_placeholder, resolve_cached, lookup. stable_auto.
Qed.

Hint Resolve keeps_wf_resolve keeps_wf_stub : stable.

(** The hook that initialises static TLS leaves the table alone too. *)
Context (init_static : mapid -> world -> world) (Hinit : forall m w, w_ph (init_static m w) = w_ph w).

Lemma keeps_wf_rela fuel ci tcb d1 d2 d3 mk mit mid scope reloc sym v a skip :
  stable keeps_wf
    (elf_machine_rela interfere fuel ci tcb init_static d1 d2 d3 mk mit mid scope reloc sym v a skip).
Proof.
  unfold elf_machine_rela, apply_reloc, symbol_address, ifunc_value, lm_addr, lm_relocated, lm_type,
    lm_tls, need_sym, TRY_STATIC_TLS, CHECK_STATIC_TLS, _dl_reloc_bad_type.
  stable_auto.
Qed.

End Placeholders.

(** C13.  The placeholder arrays are never written out of bounds and their counters stay
    in step.  Let the table be well formed (ten names of at most 47 characters, ten stubs, the search off
    or one ahead of the number of placeholders, at most ten).  While the search is on, after any lookup that
    returns, noting the name that was found is done without an access outside of the arrays
    and leaves the table well formed, and it changes nothing when the table is full;
    a stub whose slot can be read is noted without such an access too; and whatever
    relocation is processed, whether it succeeds or signals an error, the table is well
    formed afterwards.  (Other threads and the initialisation of static TLS do not write the table.) *)
Theorem placeholder_table_invariant interfere init_static fuel ci tcb d1 d2 d3 mk mit mid scope reloc sym v a
    skip w :
  (forall n w, w_ph (interfere n w) = w_ph w) -> (forall m w, w_ph (init_static m w) = w_ph w) ->
  wf_ph (w_ph w) ->
  (forall name l ref vers tc r w1 rest, search_dlsymed (w_ph w) <> 0 ->
     lookup interfere fuel name l ref scope vers tc w = Ret r w1 ->
     exists w2, record_placeholder rest w1 = Ret tt w2 /\ wf_ph (w_ph w2) /\ (placeholded (w_ph w) = 10 -> w2 = w1)) /\
  (forall map old, Reloc.load 8 a (w_mem w) = Ok old ->
     exists w2, record_stub map a w = Ret tt w2 /\ wf_ph (w_ph w2)) /\
  match elf_machine_rela interfere fuel ci tcb init_static d1 d2 d3 mk mit mid scope reloc sym v a skip w with
  | Ret _ w' | Raise _ _ w' => wf_ph (w_ph w')
  | _ => True
  end.
Proof.
  intros Hi Hs Hw. split; [|split].
  - intros name l ref vers tc r w1 rest Hn Hl.
    pose proof (stable_Ret _ _ _ _ _ (stable_lookup_x same_ph interfere Hi fuel _ _ _ _ _ _ _ _) Hl) as Hsame.
    unfold same_ph in Hsame. rewrite <- Hsame in *. by apply record_in_bounds.
  - intros map old. by apply stub_in_bounds.
  - pose proof (keeps_wf_rela interfere Hi init_static Hs fuel ci tcb d1 d2 d3 mk mit mid scope reloc sym v a skip w) as H.
    destruct (elf_machine_rela _ _ _ _ _ _ _ _ _ _ _ _ _ _ _ _ _ w); try done; by apply H.
Qed.

Lemma str_take_all n s : (String.length s <= n)%nat -> str_take n s = s.
Proof.
  revert s. induction n as [|n IH]; intros s Hs; destruct s as [|c s]; cbn in *; try done; try lia.
  by rewrite IH by lia.
Qed.

(** The run of the placeholder logic on a reference to placeholder [n]. *)
Lemma placeholder_run interfere fuel w l scope undef_name version ty ns m main nsyms rest lr r w1 :
  (forall n w, w_ph (interfere n w) = w_ph w) ->
  wf_ph (w_ph w) -> 0 < search_dlsymed (w_ph w) <= 10 ->
  strn_eqb undef_name (placeholder_prefix (search_dlsymed (w_ph w))) 12 = true ->
  w_ns w !! 0%nat = Some ns -> head (ns_loaded ns) = Some m -> w_maps w !! m = Some main ->
  get_dynsymtab_and_count_from_link_map (sg_sysv_words (l_segs main)) (sg_gnu_words (l_segs main)) = Ok nsyms ->
  find_prefixed (l_strtab main) (placeholder_prefix (search_dlsymed (w_ph w))) (l_symtab main) (Z.to_nat nsyms)
    = Ok (Some rest) -> (String.length rest <= 47)%nat ->
  lookup interfere fuel rest l None scope (effective_version version) (elf_machine_type_class ty) w
    = Ret (Some lr, r) w1 ->
  resolve_placeholder interfere fuel l scope undef_name version ty w =
  Ret (Some (lr, r)) (set_ph (mkPh (<[Z.to_nat (search_dlsymed (w_ph w) - 1) := rest]> (placeholder_symbols (w_ph w)))
                        (placeholder_plts (w_ph w)) (placeholded (w_ph w) + 1) (search_dlsymed (w_ph w) + 1)) w1).
Proof.
  intros Hint (L1 & L2 & L3 & L4 & _) Hn Hpre Hns Hhd Hmain Hcount Hfind Hlen Hlook.
  pose proof (stable_Ret _ _ _ _ _ (stable_lookup_x same_ph interfere Hint fuel _ _ _ _ _ _ _ _) Hlook) as Hsame.
  unfold same_ph in Hsame. unfold resolve_placeholder.
  rewrite (M_bind_step _ _ _ (w_ph w) w) by done. rewrite (proj2 (Z.eqb_neq _ 0)) by lia.
  replace (String.length (placeholder_prefix (search_dlsymed (w_ph w))) - 1)%nat with 12%nat by done.
  rewrite Hpre. cbn [negb].
  rewrite (M_bind_step _ _ _ (Some m) w) by (by eapply main_map_run).
  rewrite (M_bind_step _ _ _ main w) by (unfold get_map; by rewrite Hmain).
  rewrite (M_bind_step _ _ _ nsyms w).
  2:{ unfold get_dynsymtab_and_count_from_link_map in *.
      destruct (sg_sysv_words (l_segs main)); by rewrite Hcount. }
  rewrite (M_bind_step _ _ _ (Some rest) w) by (by rewrite Hfind).
  rewrite (M_bind_step _ _ _ (Some lr, r) w1) by done.
  erewrite M_bind_step; [reflexivity|]. unfold record_placeholder.
  rewrite (M_bind_step _ _ _ (w_ph w1) w1) by done. rewrite Hsame.
  rewrite (proj2 (Z.leb_le _ _)) by lia.
  erewrite M_bind_step; [|rewrite wr_Ok by (rewrite L1; lia); reflexivity].
  unfold modify, clip47. rewrite str_take_all by done. unfold u8. rewrite Z.mod_small by lia. done.
Qed.

(** C14.  A placeholder is registered: when a relocation refers to placeholder
    [n], the next one expected, and the main program has a symbol
    [placeholder<n>_name] whose [name] is defined, the reference is bound to
    that definition, and [name] (of at most 47 characters) is entry [n - 1] of the table
    from then on. *)
Theorem placeholder_registered interfere fuel w l scope ref s lm undef_name version ty ns m main nsyms rest lr r w1 :
  (forall n w, w_ph (interfere n w) = w_ph w) ->
  wf_ph (w_ph w) -> 0 < search_dlsymed (w_ph w) <= 10 ->
  get_sym ref w = Ret s w -> ST_BIND s <> STB_LOCAL -> binds_local s = false ->
  w_maps w !! l = Some lm -> cstr_at (l_strtab lm) (st_name s) = Ok undef_name ->
  strn_eqb undef_name (placeholder_prefix (search_dlsymed (w_ph w))) 12 = true ->
  w_ns w !! 0%nat = Some ns -> head (ns_loaded ns) = Some m -> w_maps w !! m = Some main ->
  get_dynsymtab_and_count_from_link_map (sg_sysv_words (l_segs main)) (sg_gnu_words (l_segs main)) = Ok nsyms ->
  find_prefixed (l_strtab main) (placeholder_prefix (search_dlsymed (w_ph w))) (l_symtab main) (Z.to_nat nsyms)
    = Ok (Some rest) -> (String.length rest <= 47)%nat ->
  lookup interfere fuel rest l None scope (effective_version version) (elf_machine_type_class ty) w
    = Ret (Some lr, r) w1 ->
  exists w', resolve_map interfere fuel l scope ref version ty w = Ret (Some lr, r) w' /\
    wf_ph (w_ph w') /\ placeholded (w_ph w') = search_dlsymed (w_ph w) /\
    rd (placeholder_symbols (w_ph w')) (search_dlsymed (w_ph w) - 1) = Ok rest /\
    search_dlsymed (w_ph w') = search_dlsymed (w_ph w) + 1.
Proof.
  intros Hint Hwf Hn Hs Hloc Hbl Hlm Hname Hpre Hns Hhd Hmain Hcount Hfind Hlen Hlook.
  pose proof (placeholder_run interfere fuel w l scope undef_name version ty ns m main nsyms rest lr r w1
                Hint Hwf Hn Hpre Hns Hhd Hmain Hcount Hfind Hlen Hlook) as Hrun.
  match type of Hrun with _ = Ret _ ?x => exists x;
    assert (Hres : resolve_map interfere fuel l scope ref version ty w = Ret (Some lr, r) x) end.
  { unfold resolve_map. rewrite (M_bind_step _ _ _ s w Hs). rewrite (proj2 (Z.eqb_neq _ _) Hloc), Hbl. cbn [orb].
    rewrite (M_bind_step _ _ _ lm w) by (unfold get_map; by rewrite Hlm).
    rewrite (M_bind_step _ _ _ undef_name w) by (by rewrite Hname).
    by rewrite (M_bind_step _ _ _ _ _ Hrun). }
  split; [exact Hres|].
  pose proof (stable_Ret _ _ _ _ _ (keeps_wf_resolve interfere Hint fuel l scope ref version ty) Hres Hwf) as Hwf'.
  split; [exact Hwf'|]. rewrite set_ph_ph. destruct Hwf as (L1 & _ & L3 & L4 & _).
  cbn [placeholded placeholder_symbols search_dlsymed]. split; [lia|]. split; [|done].
  apply rd_Ok. split; [lia|]. apply list_lookup_insert_eq. lia.
Qed.

(**  The number of a placeholder is one character: [placeholder10] does
    not stand for the tenth placeholder.  When nine are resolved, a reference
    to any name that starts with [placeholder10] is not resolved, and the
    name is taken for one of the first placeholder while that one is pending. *)
Theorem placeholder_ten interfere fuel l scope rest version ty w :
  search_dlsymed (w_ph w) = 10 ->
  resolve_placeholder interfere fuel l scope ("placeholder10" +:+ rest) version ty w = Ret None w /\
  strn_eqb ("placeholder10" +:+ rest) (placeholder_prefix 1) (String.length (placeholder_prefix 1) - 1) = true.
Proof.
  intros H10. split; [|done]. unfold resolve_placeholder.
  rewrite (M_bind_step _ _ _ (w_ph w) w) by done. by rewrite H10.
Qed.

(** ** Concrete objects *)
Module Example5.
Import LookupSpec.Example1.

(** The words of a GNU hash section for the symbol [qsort]. *)
Definition h : Z := NewHash._dl_new_hash "qsort".
Definition bloom : Z := Z.lor (Z.shiftl 1 (Z.land h 63)) (Z.shiftl 1 (Z.land (Z.shiftr h 6) 63)).
Definition words : list Z := [1; 1; 1; 6; bloom mod 2 ^ 32; bloom / 2 ^ 32; 1; Z.lor h 1].
Definition hash : hashtab :=
  match _dl_setup_hash (Some words) None no_hash with Ok h => h | _ => no_hash end.
Definition obj : link_map := one_map_with hash 2 "libc.so" 0x7f8000 lt_library "qsort".
Definition bits : list Z := [bloom; 1 + Z.lor h 1 * 2 ^ 32].

Lemma hash_eq : hash = mkHash 1 (Some bits) 0 6 [1; Z.lor h 1] 1 [Z.lor h 1] [] [].
Proof. vm_compute. reflexivity. Qed.
Lemma obj_wf : wf_gnu obj bits.
Proof. unfold obj. rewrite hash_eq. apply one_map_wf; vm_compute; reflexivity. Qed.

Lemma dynsym_count_correct_witness :
  get_dynsymtab_and_count_from_link_map None (Some words) = Ok 2.
Proof.
  apply (dynsym_count_correct obj words no_hash bits 1).
  - vm_compute. reflexivity.
  - exact obj_wf.
  - vm_compute. reflexivity.
  - reflexivity.
  - lia.
Defined.

(** An object with local symbols [or_mask] and [and_mask] and two words of memory. *)
Definition masks_map : link_map :=
  mkMap (mkIdent "libm.so" 0x7f1224558000 3 0 lt_library 1 false false false)
    (mkDyn [mkSym 0 0 0 0 0 0; mkSym 1 1 0 7 0x100 8; mkSym 9 1 0 7 0x108 8]
       (nul +:+ "or_mask" +:+ nul +:+ "and_mask" +:+ nul) no_hash None [] None None None None None)
    (mkDeps None None 0 [] [])
    (mkState false false false false false false false false 0 0)
    (mkCache None 0 None None) no_tls (mkSegs 0x7f1224558000 0x7f122455ffff 0 0 false None None).
Definition two_words : gmap Z Z := list_to_map ((fun n => (0x5000 + Z.of_nat n, 0)) <$> seq 0 16).
Definition wm : world :=
  mkWorld {[3%nat := masks_map]} [mkNs [3]%nat empty_tab] init_placeholders 0 0 0 0 two_words
    (mkArea 0 0 0 0) conf.

Lemma mapped_two a : 0x5000 <= a <= 0x5008 -> mapped 8 a two_words.
Proof.
  intros Ha b Hb.
  assert (Hall : forallb (fun n => bool_decide (is_Some (two_words !! (0x5000 + Z.of_nat n)))) (seq 0 16) = true)
    by (vm_compute; reflexivity).
  rewrite forallb_forall in Hall. specialize (Hall (Z.to_nat (b - 0x5000))). rewrite bool_decide_eq_true in Hall.
  replace b with (0x5000 + Z.of_nat (Z.to_nat (b - 0x5000))) by lia. apply Hall, in_seq. lia.
Qed.

Lemma mask_words_installed_witness :
  exists w',
    (elf_machine_rela (fun _ w => w) 0 id 2304 (fun _ w => w) 0 0 0 (fun _ _ => 0) true 3 []
       (mkRela 0x100 R_X86_64_ORMASK 1 0) (SymAt 3 1) None 0x5000 false;;
     elf_machine_rela (fun _ w => w) 0 id 2304 (fun _ w => w) 0 0 0 (fun _ _ => 0) true 3 []
       (mkRela 0x108 R_X86_64_ANDMASK 2 0) (SymAt 3 2) None 0x5008 false) wm = Ret tt w' /\
    load 8 0x5000 (w_mem w') = Ok (or_mask_of true masks_map) /\
    load 8 0x5008 (w_mem w') = Ok (and_mask_of true masks_map) /\
    (true = false -> forall t, 0 <= t < 2 ^ 64 -> masked (or_mask_of true masks_map) (and_mask_of true masks_map) t = t).
Proof.
  apply (mask_words_installed (fun _ w => w) 0 id 2304 (fun _ w => w) 0 0 0 (fun _ _ => 0) true wm 3 masks_map).
  - split; [reflexivity|]. eexists _, _. split; [reflexivity|]. split; [reflexivity|]. split; [reflexivity|discriminate].
  - split; [reflexivity|]. eexists _, _. split; [reflexivity|]. split; [reflexivity|]. split; [reflexivity|discriminate].
  - apply mapped_two. lia.
  - apply mapped_two. lia.
  - lia.
  - cbn. lia.
  - cbn. lia.
Defined.

Lemma wf_init : wf_ph init_placeholders.
Proof. repeat split; cbn; try lia; try (right; reflexivity). repeat constructor; cbn; lia. Qed.

(** The table with all ten placeholders noted and the search still on. *)
Definition wfull : world := set_ph (mkPh (replicate 10 "qsort"%string) (replicate 10 0x401000) 10 11) wm.
Lemma wf_full : wf_ph (w_ph wfull).
Proof. repeat split; try (cbn; lia). apply Forall_replicate. cbn. lia. Qed.

Definition wlooked : world :=
  match lookup (fun _ w => w) 0 "qsort" 3 None [] None 0 wfull with Ret _ w => w | _ => wfull end.

Lemma placeholder_table_invariant_witness :
  (exists w2, record_placeholder "bsearch" wlooked = Ret tt w2 /\ wf_ph (w_ph w2) /\ (10 = 10 -> w2 = wlooked)) /\
  (exists w2, record_stub masks_map 0x5000 wfull = Ret tt w2 /\ wf_ph (w_ph w2)) /\
  match elf_machine_rela (fun _ w => w) 0 id 2304 (fun _ w => w) 0 0 0 (fun _ _ => 0) true 3 []
       (mkRela 0x100 R_X86_64_ORMASK 1 0) (SymAt 3 1) None 0x5000 false wfull with
  | Ret _ w' | Raise _ _ w' => wf_ph (w_ph w')
  | _ => True
  end.
Proof.
  destruct (placeholder_table_invariant (fun _ w => w) (fun _ w => w) 0 id 2304 0 0 0 (fun _ _ => 0) true 3 []
    (mkRela 0x100 R_X86_64_ORMASK 1 0) (SymAt 3 1) None 0x5000 false wfull) as (H1 & H2 & H3);
    [intros; reflexivity|intros; reflexivity|exact wf_full|].
  split; [|split; [|exact H3]].
  - apply (H1 "qsort"%string 3%nat None None 0 (Some LmFake, Some SymFake) wlooked "bsearch"%string);
      [discriminate|vm_compute; reflexivity].
  - apply (H2 masks_map 0). vm_compute. reflexivity.
Defined.

(** A program with the symbol [placeholder1_qsort] and an object that refers to [placeholder1_]. *)
Definition bare (self : mapid) (name sym : string) (segs : seginfo) : link_map :=
  mkMap (mkIdent name 0x600000 self 0 lt_library 1 false false false)
    (mkDyn [mkSym 0 0 0 0 0 0; mkSym 1 0x12 0 0 0 0] (nul +:+ sym +:+ nul) no_hash None [] None None None None None)
    (mkDeps None None 0 [] [])
    (mkState false false false false false false false false 0 0)
    (mkCache None 0 None None) no_tls segs.
Definition pmain : link_map := bare 0 "" "placeholder1_qsort" (mkSegs 0 0 0 0 false (Some [1; 2]) None).
Definition puser : link_map := bare 5 "libuser.so" "placeholder1_" no_segs.
Definition wp : world :=
  mkWorld {[0%nat := pmain; 2%nat := user; 5%nat := puser]} [mkNs [0; 2; 5]%nat empty_tab]
    init_placeholders 0 0 0 0 ∅ (mkArea 0 0 0 0) conf.
Definition wp1 : world :=
  match lookup (fun _ w => w) 0 "qsort" 5 None [[0; 2]%nat] None 0 wp with Ret _ w => w | _ => wp end.

Lemma placeholder_registered_witness :
  exists w', resolve_map (fun _ w => w) 0 5 [[0; 2]%nat] (SymAt 5 1) None R_X86_64_GLOB_DAT wp =
    Ret (Some (Lm 2), Some (SymAt 2 1)) w' /\
    wf_ph (w_ph w') /\ placeholded (w_ph w') = 1 /\
    rd (placeholder_symbols (w_ph w')) (1 - 1) = Ok "qsort"%string /\ search_dlsymed (w_ph w') = 1 + 1.
Proof.
  apply (placeholder_registered (fun _ w => w) 0 wp 5 [[0; 2]%nat] (SymAt 5 1) (mkSym 1 0x12 0 0 0 0) puser
           "placeholder1_" None R_X86_64_GLOB_DAT (mkNs [0; 2; 5]%nat empty_tab) 0 pmain 2 "qsort"
           (Lm 2) (Some (SymAt 2 1)) wp1).
  - reflexivity.
  - exact wf_init.
  - cbn. lia.
  - reflexivity.
  - discriminate.
  - reflexivity.
  - reflexivity.
  - reflexivity.
  - reflexivity.
  - reflexivity.
  - reflexivity.
  - reflexivity.
  - reflexivity.
  - reflexivity.
  - cbn. lia.
  - vm_compute. reflexivity.
Defined.

Definition wp10 : world := set_ph (mkPh (replicate 10 "f"%string) (replicate 10 0x401000) 9 10) wp.

Lemma placeholder_ten_witness :
  resolve_placeholder (fun _ w => w) 0 5 [[0; 2]%nat] "placeholder10_free" None R_X86_64_GLOB_DAT wp10 = Ret None wp10 /\
  strn_eqb "placeholder10_free" (placeholder_prefix 1) (String.length (placeholder_prefix 1) - 1) = true.
Proof. apply (placeholder_ten (fun _ w => w) 0 5 [[0; 2]%nat] "_free" None R_X86_64_GLOB_DAT wp10). reflexivity. Defined.

End Example5.
