(* ===== verification/Relocate.v ===== *)
(** * Relocating an object

    The driver around [elf_machine_rela]: the relocation sections and their
    ranges ([elf/dynamic-link.h], [elf/do-rel.h]), DT_RELR, lazy binding, the
    set-up of the PLT and its rewriting ([sysdeps/x86_64/dl-machine.h]), and
    [_dl_relocate_object] with the protection of segments ([elf/dl-reloc.c]).
    x86-64 has relocations with addend only ([ELF_MACHINE_NO_REL]).  Auditing
    and profiling are off: [GLRO(dl_naudit)] and [consider_profiling] are zero. *)

From S2P Require Import Prelude MapSegments MainImage LinkMap SymHash Lookup TlsOffset Reloc.

(** What the dynamic section ([l_info]) and the program headers of an object say
    about relocation; [None] where an entry is missing. *)
Record relinfo := mkRelinfo {
  d_relr : option (list Z);       (* the words of the section DT_RELR, DT_RELRSZ describe *)
  d_rela : option Z;              (* DT_RELA *)
  d_relasz : option Z;            (* DT_RELASZ *)
  d_relacount : option Z;         (* DT_RELACOUNT *)
  d_pltrel : bool;                (* DT_PLTREL *)
  d_jmprel : option Z;            (* DT_JMPREL *)
  d_pltrelsz : option Z;          (* DT_PLTRELSZ *)
  d_pltgot : option Z;            (* DT_PLTGOT *)
  d_x86_plt : option Z;           (* DT_X86_64_PLT *)
  d_x86_pltsz : option Z;         (* DT_X86_64_PLTSZ *)
  d_x86_pltent : option Z;        (* DT_X86_64_PLTENT *)
  d_textrel : bool;               (* DT_TEXTREL *)
  l_phdr : list phdr }.

(** The state: the loader's, the fields [l_mach.plt] and [l_mach.gotplt] of the
    objects, and the calls of [mprotect] made so far (address, length, protection). *)
Record rst := mkR {
  r_w : world;
  r_mach : gmap mapid (Z * Z);
  r_calls : list (Z * Z * Z) }.
Definition set_w (w : world) (s : rst) : rst := mkR w (r_mach s) (r_calls s).
Definition set_mach (m : mapid) (p : Z * Z) (s : rst) : rst := mkR (r_w s) (<[m := p]> (r_mach s)) (r_calls s).
Definition add_call (c : Z * Z * Z) (s : rst) : rst := mkR (r_w s) (r_mach s) (r_calls s ++ [c]).

(** Code that works on the loader's state only. *)
Definition on_w {A} (m : M world A) : M rst A := fun s =>
  match m (r_w s) with
  | Ret a w => Ret a (set_w w s)
  | Raise o e w => Raise o e (set_w w s)
  | Stop e => Stop e
  | Wild => Wild
  | Loop => Loop
  end.

(** [*a += v] *)
Definition add_word (a v : Z) : M world unit := x ← mem_load 8 a; mem_store 8 a (u64 (x + v)).

(** ** DT_RELR *)

(** [for (long int i = 0; (entry >>= 1) != 0; i++) if ((entry & 1) != 0) where[i] += l_addr;] *)
Fixpoint relr_bits (fuel : nat) (entry where_ i l_addr : Z) : M world unit :=
  match fuel with
  | O => lift Diverge
  | S fuel =>
      let entry := Z.shiftr entry 1 in
      if entry =? 0 then mret tt
      else
        when (negb (Z.land entry 1 =? 0)) (add_word (where_ + 8 * i) l_addr);;
        relr_bits fuel entry where_ (i + 1) l_addr
  end.

(** The loop over the section; [where_] is a null pointer until an address was seen. *)
Fixpoint do_relr (l_addr : Z) (r : list Z) (where_ : option Z) : M world unit :=
  match r with
  | [] => mret tt
  | entry :: r =>
      if Z.land entry 1 =? 0 then
        let a := u64 (l_addr + entry) in
        add_word a l_addr;; do_relr l_addr r (Some (a + 8))
      else
        match where_ with
        | None => lift Undef
        | Some a => relr_bits 64 entry a 0 l_addr;; do_relr l_addr r (Some (a + 8 * (8 * 8 - 1)))
        end
  end.

(** ** The ranges to process *)
Record range := mkRange { rg_start : Z; rg_size : Z; rg_nrelative : Z; rg_lazy : bool }.

(** The section DT_RELA describes; with DT_RELR it may have address zero. *)
Definition rela_range (d : relinfo) : res range :=
  match d_rela d with
  | None => Ok (mkRange 0 0 0 false)
  | Some p =>
      if p =? 0 then Ok (mkRange 0 0 0 false)
      else size ← res_of_option (d_relasz d); mret (mkRange p size (default 0 (d_relacount d)) false)
  end.

Definition rela_ranges (d : relinfo) (do_lazy : bool) : res (range * range) :=
  r0 ← rela_range d;
  if d_pltrel d then
    start ← res_of_option (d_jmprel d);
    size ← res_of_option (d_pltrelsz d);
    let r0 := if rg_start r0 =? 0 then mkRange start (rg_size r0) (rg_nrelative r0) false else r0 in
    let r0 := if u64 (rg_start r0 + rg_size r0) =? u64 (start + size)
              then mkRange (rg_start r0) (u64 (rg_size r0 - size)) (rg_nrelative r0) false else r0 in
    if negb do_lazy && (u64 (rg_start r0 + rg_size r0) =? start)
    then mret (mkRange (rg_start r0) (u64 (rg_size r0 + size)) (rg_nrelative r0) false, mkRange 0 0 0 false)
    else mret (r0, mkRange start size 0 do_lazy)
  else mret (r0, mkRange 0 0 0 false).

Inductive plt_rewrite_t := plt_rewrite_none | plt_rewrite_jmp | plt_rewrite_jmpabs.
#[export] Instance plt_rewrite_eq_dec : EqDecision plt_rewrite_t.
Proof. solve_decision. Defined.

Definition SIZEOF_RELA : Z := 24.
Definition JMP32_INSN_OPCODE : Z := 0xe9.
Definition JMP32_INSN_SIZE : Z := 5.
Definition JMPABS_INSN_OPCODE : Z := 0xa100d5.
Definition JMPABS_INSN_SIZE : Z := 11.
Definition INT3_INSN_OPCODE : Z := 0xcc.
Definition RTLD_LAZY : Z := 0x1.
Definition RTLD_NOIFUNC : Z := 0x02000000.

Definition prot_of (flags : Z) : Z :=
  Z.lor (Z.lor (if Z.land flags PF_R =? 0 then 0 else PROT_READ)
               (if Z.land flags PF_W =? 0 then 0 else PROT_WRITE))
        (if Z.land flags PF_X =? 0 then 0 else PROT_EXEC).

(** [for (; pad < plt_end; pad++) *pad = INT3_INSN_OPCODE;]; [n] is [plt_end - pad]. *)
Fixpoint fill_int3 (n : nat) (pad : Z) : M world unit :=
  match n with
  | O => mret tt
  | S n => mem_store 1 pad INT3_INSN_OPCODE;; fill_int3 n (pad + 1)
  end.

(** Where the object is relocated: what the modelled code calls or reads and does not change. *)
Record env := mkEnv {
  e_interfere : nat -> world -> world;   (* the parameters of [elf_machine_rela] *)
  e_fuel : nat;
  e_call_ifunc : Z -> Z;
  e_tcb_size : Z;
  e_init_static_tls : mapid -> world -> world;
  e_tlsdesc : Z * Z * Z;                 (* undefweak, return, dynamic *)
  e_make_tlsdesc_dynamic : lmref -> Z -> Z;
  e_to_mitigate : bool;
  e_info : mapid -> relinfo;             (* the dynamic sections *)
  e_rela_at : Z -> res rela;             (* the entries of the read-only relocation sections, by address *)
  e_mprotect_ok : list (Z * Z * Z) -> bool; (* whether the last of the calls of mprotect succeeds *)
  e_rtld : mapid;                        (* &_dl_rtld_map *)
  e_map_ptr : mapid -> Z;                (* the address of a link map *)
  e_runtime_resolve : Z;                 (* GLRO(dl_x86_64_runtime_resolve) *)
  e_pagesize : Z;
  e_ibt_enabled : bool;
  e_plt_rewrite : plt_rewrite_t;         (* the tunable *)
  e_progname : string }.                 (* how messages name the main program *)

Section Relocate.
Context (E : env).

Definition machine_rela : mapid -> list (list mapid) -> rela -> symref -> option r_found_version -> Z -> bool -> M world unit :=
  let '(undefweak, return_, dynamic) := e_tlsdesc E in
  elf_machine_rela (e_interfere E) (e_fuel E) (e_call_ifunc E) (e_tcb_size E) (e_init_static_tls E)
    undefweak return_ dynamic (e_make_tlsdesc_dynamic E) (e_to_mitigate E).

Definition DSO_FILENAME (name : string) : string := if str_eqb name "" then (e_progname E) else name.

Definition mprotect (addr len prot : Z) : M rst bool :=
  modify (add_call (addr, len, prot));; c ← gets r_calls; mret ((e_mprotect_ok E) c).

(** ** [elf_machine_rela_relative], [elf_machine_lazy_rel] *)
Definition elf_machine_rela_relative (l_addr : Z) (reloc : rela) (reloc_addr : Z) : M world unit :=
  if r_type reloc =? R_X86_64_RELATIVE64 then mem_store 8 reloc_addr (u64 (l_addr + r_addend reloc))
  else
    lift (c_assert (r_type reloc =? R_X86_64_RELATIVE) "ELFW(R_TYPE) (reloc->r_info) == R_X86_64_RELATIVE");;
    mem_store 8 reloc_addr (u64 (l_addr + r_addend reloc)).

(** [&map->l_versions[version[symndx] & 0x7fff]] with DT_VERSYM, null without. *)
Definition version_of (map : link_map) (symndx : Z) : res (option r_found_version) :=
  match l_versyms map with
  | None => Ok None
  | Some version =>
      ndx ← rd version symndx;
      v ← rd (l_versions map) (Z.land ndx 0x7fff);
      mret (Some v)
  end.

Definition elf_machine_lazy_rel (mid : mapid) (scope : list (list mapid)) (l_addr_ : Z) (reloc : rela)
    (skip_ifunc : bool) : M rst unit :=
  let reloc_addr := u64 (l_addr_ + r_offset reloc) in
  map ← on_w (get_map mid);
  if r_type reloc =? R_X86_64_JUMP_SLOT then
    mach ← gets r_mach;
    let '(plt, gotplt) := default (0, 0) (mach !! mid) in
    if plt =? 0 then on_w (add_word reloc_addr l_addr_)
    else on_w (mem_store 8 reloc_addr (u64 (plt + u64 (reloc_addr - gotplt) * 2)))
  else if r_type reloc =? R_X86_64_TLSDESC then
    version ← lift (version_of map (r_sym reloc));
    on_w (machine_rela mid scope reloc (SymAt mid (r_sym reloc)) version reloc_addr skip_ifunc)
  else if r_type reloc =? R_X86_64_IRELATIVE then
    let value := u64 (l_addr map + r_addend reloc) in
    on_w (mem_store 8 reloc_addr (if skip_ifunc then value else (e_call_ifunc E) value))
  else on_w (_dl_reloc_bad_type map (r_type reloc) true).

(** ** [elf_dynamic_do_Rela] *)

(** [for (; relative < r; ++relative) DO_ELF_MACHINE_REL_RELATIVE (...);] *)
Fixpoint relative_loop (n : nat) (l_addr relative : Z) : M rst unit :=
  match n with
  | O => mret tt
  | S n =>
      reloc ← lift ((e_rela_at E) relative);
      on_w (elf_machine_rela_relative l_addr reloc (u64 (l_addr + r_offset reloc)));;
      relative_loop n l_addr (relative + SIZEOF_RELA)
  end.

(** What is done to one entry, lazily or not. *)
Definition process (mid : mapid) (scope : list (list mapid)) (map : link_map) (lazy skip_ifunc : bool) (reloc : rela)
  : M rst unit :=
  if lazy then elf_machine_lazy_rel mid scope (l_addr map) reloc skip_ifunc
  else
    version ← lift (version_of map (r_sym reloc));
    on_w (machine_rela mid scope reloc (SymAt mid (r_sym reloc)) version (u64 (l_addr map + r_offset reloc)) skip_ifunc).

(** [for (; r < end; ++r)]: an IRELATIVE entry is left for later, [r2] and [end2] note
    the first and the last one. *)
Fixpoint entry_loop (n : nat) (mid : mapid) (scope : list (list mapid)) (map : link_map) (lazy skip_ifunc : bool)
    (r end_ : Z) (r2 : option (Z * Z)) : M rst (option (Z * Z)) :=
  if r <? end_ then
    match n with
    | O => lift Diverge
    | S n =>
        reloc ← lift ((e_rela_at E) r);
        if r_type reloc =? R_X86_64_IRELATIVE then
          entry_loop n mid scope map lazy skip_ifunc (r + SIZEOF_RELA) end_
            (Some (match r2 with None => r | Some (first, _) => first end, r))
        else
          process mid scope map lazy skip_ifunc reloc;;
          entry_loop n mid scope map lazy skip_ifunc (r + SIZEOF_RELA) end_ r2
    end
  else mret r2.

(** [for (; r2 <= end2; ++r2) if (... == ELF_MACHINE_IRELATIVE) ...] *)
Fixpoint irelative_loop (n : nat) (mid : mapid) (scope : list (list mapid)) (map : link_map) (lazy skip_ifunc : bool)
    (r2 end2 : Z) : M rst unit :=
  if r2 <=? end2 then
    match n with
    | O => lift Diverge
    | S n =>
        reloc ← lift ((e_rela_at E) r2);
        when (r_type reloc =? R_X86_64_IRELATIVE) (process mid scope map lazy skip_ifunc reloc);;
        irelative_loop n mid scope map lazy skip_ifunc (r2 + SIZEOF_RELA) end2
    end
  else mret tt.

(** The number of entries of a section of [size] bytes. *)
Definition count (size : Z) : nat := Z.to_nat ((size + SIZEOF_RELA - 1) / SIZEOF_RELA).

Definition elf_dynamic_do_Rela (mid : mapid) (scope : list (list mapid)) (rg : range) (skip_ifunc : bool)
  : M rst unit :=
  map ← on_w (get_map mid);
  let r := rg_start rg + SIZEOF_RELA * rg_nrelative rg in
  let end_ := rg_start rg + rg_size rg in
  let n := S (count (rg_size rg)) in
  when (negb (rg_lazy rg) && negb (bool_decide (mid = (e_rtld E))))
    (relative_loop (Z.to_nat (rg_nrelative rg)) (l_addr map) (rg_start rg));;
  r2 ← entry_loop n mid scope map (rg_lazy rg) skip_ifunc r end_ None;
  match r2 with
  | None => mret tt
  | Some (first, last) => irelative_loop n mid scope map (rg_lazy rg) skip_ifunc first last
  end.

(** ** [elf_machine_runtime_setup] *)
Definition elf_machine_runtime_setup (l : mapid) (lazy : bool) : M rst bool :=
  let d := (e_info E) l in
  map ← on_w (get_map l);
  when (bool_decide (is_Some (d_jmprel d)) && lazy)
    (got ← lift (res_of_option (d_pltgot d));
     got1 ← on_w (mem_load 8 (got + 8));
     when (negb (got1 =? 0)) (modify (set_mach l (u64 (got1 + l_addr map), got + 24)));;
     on_w (mem_store 8 (got + 8) ((e_map_ptr E) l));;
     on_w (mem_store 8 (got + 16) (e_runtime_resolve E)));;
  mret lazy.

(** ** Rewriting the PLT *)
Definition rewrite_entry (l_addr pltent : Z) (reloc : rela) : M world unit :=
  value ← mem_load 8 (u64 (l_addr + r_offset reloc));
  let branch_start := u64 (l_addr + r_addend reloc) in
  let branch_start := if (e_ibt_enabled E) then branch_start else ALIGN_DOWN branch_start pltent in
  let disp := u64 (value - branch_start - JMP32_INSN_SIZE) in
  let plt_end := u64 (Z.lor branch_start (pltent - 1) + 1) in
  if u64 (disp + 2 ^ 31) <=? 2 ^ 32 - 1 then
    let pad := u64 (branch_start + JMP32_INSN_SIZE) in
    if plt_end <? pad then mret tt
    else
      mem_store 1 branch_start JMP32_INSN_OPCODE;;
      mem_store 4 (branch_start + 1) disp;;
      fill_int3 (Z.to_nat (plt_end - pad)) pad
  else if negb (bool_decide (e_plt_rewrite E = plt_rewrite_jmpabs)) then mret tt
  else
    let pad := u64 (branch_start + JMPABS_INSN_SIZE) in
    if plt_end <? pad then mret tt
    else
      mem_store 4 branch_start JMPABS_INSN_OPCODE;;
      mem_store 8 (branch_start + 3) value;;
      fill_int3 (Z.to_nat (plt_end - pad)) pad.

Fixpoint rewrite_loop (n : nat) (l_addr pltent reloc reloc_end : Z) : M world unit :=
  if reloc <? reloc_end then
    match n with
    | O => lift Diverge
    | S n =>
        r ← lift ((e_rela_at E) reloc);
        when (r_type r =? R_X86_64_JUMP_SLOT) (rewrite_entry l_addr pltent r);;
        rewrite_loop n l_addr pltent (reloc + SIZEOF_RELA) reloc_end
    end
  else mret tt.

Definition x86_64_rewrite_plt (mid : mapid) : M world unit :=
  let d := (e_info E) mid in
  map ← get_map mid;
  pltent ← lift (res_of_option (d_x86_pltent d));
  start ← lift (res_of_option (d_jmprel d));
  size ← lift (res_of_option (d_pltrelsz d));
  rewrite_loop (S (count size)) (l_addr map) pltent start (start + size).

(** A failure to make the PLT writable is ignored. *)
Definition x86_64_rewrite_plt_in_place (mid : mapid) : M rst unit :=
  let d := (e_info E) mid in
  map ← on_w (get_map mid);
  p ← lift (res_of_option (d_x86_plt d));
  sz ← lift (res_of_option (d_x86_pltsz d));
  let plt := u64 (p + l_addr map) in
  let plt_aligned := ALIGN_DOWN plt (e_pagesize E) in
  let pltsz := u64 (sz + plt - plt_aligned) in
  ok ← mprotect plt_aligned pltsz (Z.lor PROT_WRITE PROT_READ);
  if (ok : bool) then
    on_w (x86_64_rewrite_plt mid);;
    ok ← mprotect plt_aligned pltsz (Z.lor PROT_EXEC PROT_READ);
    if (ok : bool) then mret tt else lift (Signal (DSO_FILENAME (l_name map)) "failed to change PLT back to read-only")
  else mret tt.

Definition x86_64_dynamic_after_reloc (mid : mapid) (lazy : bool) : M rst unit :=
  let d := (e_info E) mid in
  map ← on_w (get_map mid);
  if lazy || bool_decide (e_plt_rewrite E = plt_rewrite_none) || negb (bool_decide (is_Some (d_x86_plt d)))
     || negb (ms_jump_slot (l_st map)) then mret tt
  else if default 0 (d_jmprel d) =? 0 then mret tt
  else
    pltrelsz ← lift (res_of_option (d_pltrelsz d));
    if pltrelsz =? 0 then mret tt
    else
      match d_x86_pltsz d, d_x86_pltent d with
      | Some pltsz, Some pltent =>
          if (pltent <? 16) || (pltsz <? pltent) || negb (pltsz mod pltent =? 0) then mret tt
          else x86_64_rewrite_plt_in_place mid
      | _, _ => mret tt
      end.

(** ** [ELF_DYNAMIC_RELOCATE] *)
Definition ELF_DYNAMIC_RELOCATE (mid : mapid) (scope : list (list mapid)) (lazy skip_ifunc : bool) : M rst unit :=
  edr_lazy ← elf_machine_runtime_setup mid lazy;
  map ← on_w (get_map mid);
  when (negb (bool_decide (mid = (e_rtld E))))
    (on_w (match d_relr ((e_info E) mid) with None => mret tt | Some r => do_relr (l_addr map) r None end));;
  '(r0, r1) ← lift (rela_ranges ((e_info E) mid) edr_lazy);
  elf_dynamic_do_Rela mid scope r0 skip_ifunc;;
  elf_dynamic_do_Rela mid scope r1 skip_ifunc;;
  x86_64_dynamic_after_reloc mid edr_lazy.

(** ** [_dl_relocate_object] *)

(** The segments that are not writable are made so; the result is the list of what to
    restore, the last segment first. *)
Fixpoint make_writable (map : link_map) (phs : list phdr) (textrels : list (Z * Z * Z)) : M rst (list (Z * Z * Z)) :=
  match phs with
  | [] => mret textrels
  | ph :: phs =>
      if (p_type ph =? PT_LOAD) && (Z.land (p_flags ph) PF_W =? 0) then
        let len := u64 (ALIGN_UP (u64 (p_vaddr ph + p_memsz ph)) (e_pagesize E) - ALIGN_DOWN (p_vaddr ph) (e_pagesize E)) in
        let start := u64 (ALIGN_DOWN (p_vaddr ph) (e_pagesize E) + l_addr map) in
        let prot := prot_of (p_flags ph) in
        ok ← mprotect start len (Z.lor prot PROT_WRITE);
        if (ok : bool) then make_writable map phs ((start, len, prot) :: textrels)
        else lift (Signal (l_name map) "cannot make segment writable for relocation")
      else make_writable map phs textrels
  end.

Fixpoint restore (map : link_map) (textrels : list (Z * Z * Z)) : M rst unit :=
  match textrels with
  | [] => mret tt
  | (start, len, prot) :: textrels =>
      ok ← mprotect start len prot;
      if (ok : bool) then restore map textrels
      else lift (Signal (l_name map) "cannot restore segment prot after reloc")
  end.

Definition _dl_relocate_object_no_relro (l : mapid) (scope : list (list mapid)) (reloc_mode : Z) : M rst unit :=
  map ← on_w (get_map l);
  let lazy := negb (Z.land reloc_mode RTLD_LAZY =? 0) in
  let skip_ifunc := negb (Z.land reloc_mode RTLD_NOIFUNC =? 0) in
  let lazy := lazy && negb (sg_bind_now (l_segs map)) in
  textrels ← (if d_textrel ((e_info E) l) then make_writable map (l_phdr ((e_info E) l)) [] else mret []);
  ELF_DYNAMIC_RELOCATE l scope lazy skip_ifunc;;
  on_w (modify (with_map l (set_relocated true)));;
  restore map textrels.

Definition _dl_protect_relro (l : mapid) : M rst unit :=
  map ← on_w (get_map l);
  let g := l_segs map in
  if sg_relro_size g =? 0 then mret tt
  else
    let start := ALIGN_DOWN (u64 (l_addr map + sg_relro_addr g)) (e_pagesize E) in
    let end_ := ALIGN_DOWN (u64 (l_addr map + sg_relro_addr g + sg_relro_size g)) (e_pagesize E) in
    if start =? end_ then mret tt
    else
      ok ← mprotect start (u64 (end_ - start)) PROT_READ;
      if (ok : bool) then mret tt
      else lift (Signal (l_name map) "cannot apply additional memory protection after relocation").

Definition _dl_relocate_object (l : mapid) (scope : list (list mapid)) (reloc_mode : Z) : M rst unit :=
  map ← on_w (get_map l);
  if l_relocated map then mret tt
  else _dl_relocate_object_no_relro l scope reloc_mode;; _dl_protect_relro l.

End Relocate.
