(* ===== verification/RelocateSpec.v ===== *)
(** * What relocating an object does

    DT_RELR moves exactly the words it encodes; every entry of the relocation
    sections is processed once, IFUNC relocations last; a rewritten PLT entry
    branches where its GOT slot pointed; the mask words survive the relocation of the
    whole object; and segment protections are given back. *)

From S2P Require Import Prelude Mask MapSegments MainImage LinkMap SymHash UniqueSym Lookup TlsOffset Reloc RelocSpec Relocate.

(** Run [f] on the elements of a list, one after the other. *)
Fixpoint seqM {S A} (f : A -> M S unit) (l : list A) : M S unit :=
  match l with
  | [] => mret tt
  | x :: l => f x;; seqM f l
  end.

Lemma M_assoc {S A B C} (m : M S A) (k : A -> M S B) (f : B -> M S C) s :
  ((m ≫= k) ≫= f) s = (m ≫= fun a => k a ≫= f) s.
Proof. unfold mbind, M_bind. by destruct (m s). Qed.
Lemma M_bind_ext {S A B} (m : M S A) (k k' : A -> M S B) s :
  (forall a s, k a s = k' a s) -> (m ≫= k) s = (m ≫= k') s.
Proof. intros H. unfold mbind, M_bind. destruct (m s); auto. Qed.
Lemma M_bind_cong {S A B} (m m' : M S A) (k k' : A -> M S B) s :
  m s = m' s -> (forall a s', k a s' = k' a s') -> (m ≫= k) s = (m' ≫= k') s.
Proof. intros Hm Hk. unfold mbind, M_bind. rewrite Hm. destruct (m' s); auto. Qed.
Lemma seqM_app {S A} (f : A -> M S unit) l1 l2 s : seqM f (l1 ++ l2) s = (seqM f l1;; seqM f l2) s.
Proof.
  revert s. induction l1 as [|x l1 IH]; intros s; [done|]. cbn [seqM app].
  rewrite M_assoc. apply M_bind_ext. intros _ s'. apply IH.
Qed.

(** ** DT_RELR *)

(** The addresses a bitmap stands for: bit [i + 1] is the word [i] behind [where_]. *)
Definition relr_bitmap (entry where_ : Z) : list Z :=
  (fun i => where_ + 8 * i) <$> filter (fun i => Z.testbit entry (i + 1) = true) (seqZ 0 63).

(** The addresses the section stands for. *)
Fixpoint relr_decode (l_addr : Z) (r : list Z) (where_ : Z) : list Z :=
  match r with
  | [] => []
  | entry :: r =>
      if Z.even entry then u64 (l_addr + entry) :: relr_decode l_addr r (u64 (l_addr + entry) + 8)
      else relr_bitmap entry where_ ++ relr_decode l_addr r (where_ + 8 * 63)
  end.

Lemma testbit_land1 x i : 0 <= i -> (Z.land (Z.shiftr x i) 1 =? 0) = negb (Z.testbit x i).
Proof.
  intros Hi. rewrite <- (Z.add_0_l i) at 2. rewrite <- Z.shiftr_spec by lia.
  rewrite Z.bit0_odd. change 1 with (Z.ones 1). rewrite Z.land_ones, Zmod_odd by lia. by destruct (Z.odd _).
Qed.

Lemma filter_fmap_seqZ (P : Z -> Prop) `{!forall x, Decision (P x)} (g : Z -> Z) m n :
  0 <= n -> g <$> filter P (seqZ m (n + 1)) =
  (if decide (P m) then [g m] else []) ++ ((fun j => g (j + 1)) <$> filter (fun j => P (j + 1)) (seqZ m n)).
Proof.
  intros Hn. rewrite Z.add_comm, seqZ_app by lia. rewrite filter_app, fmap_app. f_equal.
  - assert (Hm : seqZ m 1 = [m]) by (unfold seqZ; cbn; f_equal; lia). rewrite Hm, filter_cons. by destruct (decide _).
  - rewrite (Z.add_comm m 1), <- fmap_add_seqZ. clear.
    induction (seqZ m n) as [|x l IH]; [done|]. cbn [fmap list_fmap]. rewrite !filter_cons.
    replace (1 + x) with (x + 1) by lia. destruct (decide (P (x + 1))); cbn [fmap list_fmap]; [by f_equal|exact IH].
Qed.

Lemma relr_bits_S n entry a i l_addr : relr_bits (S n) entry a i l_addr =
  if Z.shiftr entry 1 =? 0 then mret tt
  else when (Z.testbit entry 1) (add_word (a + 8 * i) l_addr);; relr_bits n (Z.shiftr entry 1) a (i + 1) l_addr.
Proof. cbn [relr_bits]. rewrite testbit_land1, negb_involutive by lia. done. Qed.

Lemma relr_bits_seq n : forall entry a i l_addr w, 0 <= entry < 2 ^ (Z.of_nat n + 1) ->
  relr_bits (S n) entry a i l_addr w =
  seqM (fun x => add_word x l_addr)
    ((fun j => a + 8 * (i + j)) <$> filter (fun j => Z.testbit entry (j + 1) = true) (seqZ 0 (Z.of_nat n))) w.
Proof.
  induction n as [|n IH]; intros entry a i l_addr w He; rewrite relr_bits_S.
  - rewrite Z.shiftr_div_pow2 by lia. rewrite Z.div_small by lia. done.
  - assert (Hs : 0 <= Z.shiftr entry 1 < 2 ^ (Z.of_nat n + 1)).
    { rewrite Z.shiftr_div_pow2 by lia. replace (Z.of_nat (S n) + 1) with (1 + (Z.of_nat n + 1)) in He by lia.
      rewrite Z.pow_add_r in He by lia. divlia. }
    destruct (Z.eqb_spec (Z.shiftr entry 1) 0) as [H0|Hne].
    + rewrite (filter_ext_in _ (fun _ => False)); [by induction (seqZ 0 (Z.of_nat (S n)))|]. intros j Hj%elem_of_seqZ.
      rewrite <- Z.shiftr_spec, H0, Z.bits_0 by lia. done.
    + rewrite Nat2Z.inj_succ, <- Z.add_1_r, filter_fmap_seqZ by lia. rewrite seqM_app.
      change (0 + 1) with 1. rewrite Z.add_0_r.
      transitivity ((seqM (fun x => add_word x l_addr) (if decide (Z.testbit entry 1 = true) then [a + 8 * i] else []);;
                     relr_bits (S n) (Z.shiftr entry 1) a (i + 1) l_addr) w).
      * case_decide as Hb; [rewrite Hb|rewrite (not_true_is_false _ Hb)]; cbn [when seqM]; [|done].
        rewrite M_assoc. apply M_bind_ext. by intros [] s.
      * apply M_bind_ext. intros _ s. rewrite IH by done. f_equal.
        rewrite (filter_ext_in (fun j => Z.testbit (Z.shiftr entry 1) (j + 1) = true) (fun j => Z.testbit entry (j + 1 + 1) = true)).
        -- apply list_fmap_ext. intros; lia.
        -- intros j Hj%elem_of_seqZ. by rewrite Z.shiftr_spec by lia.
Qed.

Lemma do_relr_seq l_addr r : forall where_ a w, Forall (fun e => 0 <= e < 2 ^ 64) r ->
  where_ = Some a \/ (exists e r', r = e :: r' /\ Z.even e = true) ->
  do_relr l_addr r where_ w = seqM (fun x => add_word x l_addr) (relr_decode l_addr r a) w.
Proof.
  induction r as [|e r IH]; intros where_ a w Hr Hw; [done|]. apply Forall_cons in Hr as [He Hr].
  cbn [do_relr relr_decode].
  assert (Heven : (Z.land e 1 =? 0) = Z.even e).
  { rewrite <- (Z.shiftr_0_r e) at 1. rewrite testbit_land1, Z.bit0_odd by lia. apply Z.negb_odd. }
  rewrite Heven. destruct (Z.even e) eqn:Ee.
  - cbn [seqM]. apply M_bind_ext. intros _ s. apply IH; [done|by left].
  - destruct Hw as [->|(e' & r' & [= <- <-] & ?)]; [|congruence]. rewrite seqM_app, (M_bind_ext _ _ (fun _ => seqM (fun x => add_word x l_addr) (relr_decode l_addr r (a + 8 * 63)))).
    + unfold mbind, M_bind. by rewrite (relr_bits_seq 63) by (cbn; lia).
    + intros _ s. apply IH; [done|by left].
Qed.

Lemma load_mapped n a m : mapped n a m -> exists x, load n a m = Ok x.
Proof.
  revert a. induction n as [|n IH]; intros a Hm; cbn [load]; [by eexists|].
  destruct (Hm a) as [b ->]; [lia|]. destruct (IH (a + 1)) as [x Hx]; [intros c Hc; apply Hm; lia|].
  cbn [res_of_option mbind res_bind]. rewrite Hx. by eexists.
Qed.

Lemma set_mem_mem m w : w_mem (set_mem m w) = m.
Proof. by destruct w. Qed.
Lemma set_mem_set m m' w : set_mem m (set_mem m' w) = set_mem m w.
Proof. by destruct w. Qed.
Lemma set_mem_same w : set_mem (w_mem w) w = w.
Proof. by destruct w. Qed.

Lemma mem_store_ok n a v w : mapped n a (w_mem w) ->
  exists m, mem_store n a v w = Ret tt (set_mem m w) /\ store n a v (w_mem w) = Ok m.
Proof.
  intros Hm. destruct (store_mapped n a v _ Hm) as [m Hs]. exists m. split; [|done].
  unfold mem_store, mbind, M_bind, lift. by rewrite Hs.
Qed.

Lemma add_word_spec a v w : mapped 8 a (w_mem w) ->
  exists m, add_word a v w = Ret tt (set_mem m w) /\
    (forall x, load 8 a (w_mem w) = Ok x -> load 8 a m = Ok (u64 (x + v))) /\
    (forall b, b < a \/ a + 8 <= b -> m !! b = w_mem w !! b) /\
    (forall k b, mapped k b (w_mem w) -> mapped k b m).
Proof.
  intros Hm. destruct (load_mapped 8 a _ Hm) as [x Hx]. destruct (mem_store_ok 8 a (u64 (x + v)) w Hm) as (m & Hs & Hst).
  exists m. split; [|split; [|split]].
  - unfold add_word. rewrite (M_bind_step _ _ _ x w) by (unfold mem_load; by rewrite Hx). done.
  - intros x' Hx'. assert (x' = x) as -> by congruence. rewrite (store_load _ _ _ _ _ Hst). f_equal.
    apply Z.mod_small. apply u64_bound.
  - intros b Hb. by apply (store_other _ _ _ _ _ _ Hst).
  - intros k b Hk. by eapply store_keeps_mapped.
Qed.

(** Words that do not overlap, in ascending order. *)
Definition ascending (l : list Z) : Prop := StronglySorted (fun a b => a + 8 <= b) l.

Lemma add_words_spec v l : forall w, ascending l -> Forall (fun a => mapped 8 a (w_mem w)) l ->
  exists m, seqM (fun a => add_word a v) l w = Ret tt (set_mem m w) /\
    (forall a x, a ∈ l -> load 8 a (w_mem w) = Ok x -> load 8 a m = Ok (u64 (x + v))) /\
    (forall b, (forall a, a ∈ l -> b < a \/ a + 8 <= b) -> m !! b = w_mem w !! b).
Proof.
  induction l as [|a l IH]; intros w Hs Hl; cbn [seqM].
  - exists (w_mem w). rewrite set_mem_same. split; [done|]. split; [intros a x Ha; by apply elem_of_nil in Ha|done].
  - apply StronglySorted_inv in Hs as [Hs Ha]. rewrite Forall_forall in Ha. apply Forall_cons in Hl as [Hm Hl].
    destruct (add_word_spec a v w Hm) as (m1 & H1 & Hx1 & Ho1 & Hk1).
    destruct (IH (set_mem m1 w) Hs) as (m & H2 & Hx2 & Ho2).
    { rewrite set_mem_mem. eapply Forall_impl; [exact Hl|]. intros b. apply Hk1. }
    rewrite set_mem_mem in Hx2, Ho2. rewrite set_mem_set in H2. exists m.
    split; [by rewrite (M_bind_step _ _ _ tt (set_mem m1 w))|]. split.
    + intros b x [->|Hb]%elem_of_cons Hx.
      * rewrite <- (Hx1 x Hx). apply load_other. intros c Hc. apply Ho2. intros b Hb. specialize (Ha b Hb). lia.
      * apply Hx2; [done|]. rewrite <- Hx. apply load_other. intros c Hc. apply Ho1. specialize (Ha b Hb). lia.
    + intros b Hb. rewrite Ho2 by (intros; apply Hb; by right). apply Ho1. apply Hb. by left.
Qed.

(** DT_RELR: the section is decoded as its bitmap encoding says, and exactly the words
    it stands for are moved by the load address, each once; nothing else changes. *)
Theorem relr_relocates l_addr e r w :
  Z.even e = true -> Forall (fun e => 0 <= e < 2 ^ 64) (e :: r) ->
  let words := relr_decode l_addr (e :: r) 0 in
  ascending words -> Forall (fun a => mapped 8 a (w_mem w)) words ->
  exists m, do_relr l_addr (e :: r) None w = Ret tt (set_mem m w) /\
    (forall a x, a ∈ words -> load 8 a (w_mem w) = Ok x -> load 8 a m = Ok (u64 (x + l_addr))) /\
    (forall b, (forall a, a ∈ words -> b < a \/ a + 8 <= b) -> m !! b = w_mem w !! b).
Proof.
  intros He Hr words Hs Hm. rewrite (do_relr_seq l_addr (e :: r) None 0) by eauto. by apply add_words_spec.
Qed.

(** ** The relocation sections *)
Section Order.
Context (E : env).

(** The entries of a section from the address [r] on. *)
Definition rela_table (r : Z) (es : list rela) : Prop :=
  forall i e, es !! i = Some e -> e_rela_at E (r + SIZEOF_RELA * Z.of_nat i) = Ok e.

Definition irelative (e : rela) : Prop := r_type e = R_X86_64_IRELATIVE.
#[export] Instance irelative_dec e : Decision (irelative e).
Proof. apply Z.eq_dec. Defined.

Lemma rela_table_cons r e es : rela_table r (e :: es) -> e_rela_at E r = Ok e /\ rela_table (r + SIZEOF_RELA) es.
Proof.
  intros H. split.
  - rewrite <- (H O e eq_refl). f_equal. lia.
  - intros i x Hi. rewrite <- (H (S i) x Hi). f_equal. unfold SIZEOF_RELA. lia.
Qed.
Lemma rela_table_app r es es' : rela_table r (es ++ es') ->
  rela_table r es /\ rela_table (r + SIZEOF_RELA * Z.of_nat (length es)) es'.
Proof.
  intros H. split; intros i e Hi.
  - apply H. by apply lookup_app_l_Some.
  - rewrite <- (H (length es + i)%nat e).
    + f_equal. unfold SIZEOF_RELA. lia.
    + by rewrite lookup_app_r, Nat.add_comm, Nat.add_sub by lia.
Qed.

(** Which entries [r2] and [end2] point to after the loop. *)
Fixpoint noted (r : Z) (es : list rela) (r2 : option (Z * Z)) : option (Z * Z) :=
  match es with
  | [] => r2
  | e :: es =>
      noted (r + SIZEOF_RELA) es
        (if decide (irelative e) then Some (match r2 with None => r | Some (first, _) => first end, r) else r2)
  end.

Context (mid : mapid) (scope : list (list mapid)) (map : link_map) (lazy skip_ifunc : bool).
Local Abbreviation proc := (process E mid scope map lazy skip_ifunc).

Lemma entry_loop_spec n : forall es r r2 s, rela_table r es -> (length es <= n)%nat ->
  entry_loop E n mid scope map lazy skip_ifunc r (r + SIZEOF_RELA * Z.of_nat (length es)) r2 s =
  (seqM proc (filter (fun e => ~ irelative e) es);; mret (noted r es r2)) s.
Proof.
  induction n as [|n IH]; intros es r r2 s Ht Hn; destruct es as [|e es]; cbn [length] in *; try lia;
    cbn [entry_loop]; (rewrite (proj2 (Z.ltb_ge _ _)) by (unfold SIZEOF_RELA; lia)) ||
                      (rewrite (proj2 (Z.ltb_lt _ _)) by (unfold SIZEOF_RELA; lia)); try done.
  apply rela_table_cons in Ht as [He Ht]. rewrite (M_bind_step _ _ _ e s) by (by rewrite He). cbn [noted].
  replace (r + SIZEOF_RELA * Z.of_nat (S (length es))) with (r + SIZEOF_RELA + SIZEOF_RELA * Z.of_nat (length es))
    by (unfold SIZEOF_RELA; lia).
  destruct (Z.eqb_spec (r_type e) R_X86_64_IRELATIVE) as [Hi|Hi].
  - rewrite filter_cons_False by (intros Hne; by apply Hne). rewrite decide_True by done. apply IH; [done|lia].
  - rewrite filter_cons_True, decide_False by done. cbn [seqM]. rewrite M_assoc. apply M_bind_ext. intros _ s'. apply IH; [done|lia].
Qed.

Lemma irelative_loop_spec n : forall es e r s, rela_table r (e :: es) -> (length es < n)%nat ->
  irelative_loop E n mid scope map lazy skip_ifunc r (r + SIZEOF_RELA * Z.of_nat (length es)) s =
  seqM proc (filter irelative (e :: es)) s.
Proof.
  induction n as [|n IH]; intros es e r s Ht Hn; [lia|].
  apply rela_table_cons in Ht as [He Ht]. cbn [irelative_loop]. rewrite (proj2 (Z.leb_le _ _)) by (unfold SIZEOF_RELA; lia).
  rewrite (M_bind_step _ _ _ e s) by (by rewrite He).
  transitivity ((when (r_type e =? R_X86_64_IRELATIVE) (proc e);; seqM proc (filter irelative es)) s).
  - apply M_bind_ext. intros _ s'. destruct es as [|e' es]; cbn [length].
    + destruct n; cbn [irelative_loop]; by rewrite (proj2 (Z.leb_gt _ _)) by (unfold SIZEOF_RELA; lia).
    + rewrite <- (IH es e' (r + SIZEOF_RELA)) by (try done; cbn [length] in Hn; lia). f_equal. unfold SIZEOF_RELA. lia.
  - rewrite filter_cons. destruct (Z.eqb_spec (r_type e) R_X86_64_IRELATIVE) as [Hi|Hi].
    + by rewrite decide_True.
    + by rewrite decide_False.
Qed.

Lemma noted_some r es : forall f l, exists es1 es2 l', es = es1 ++ es2 /\ Forall (fun e => ~ irelative e) es2 /\
  noted r es (Some (f, l)) = Some (f, l') /\
  (es1 = [] /\ l' = l \/ l' = r + SIZEOF_RELA * (Z.of_nat (length es1) - 1)).
Proof.
  revert r. induction es as [|e es IH]; intros r f l; cbn [noted].
  - exists [], [], l. repeat split; [constructor|by left].
  - destruct (decide (irelative e)) as [Hi|Hi].
    + destruct (IH (r + SIZEOF_RELA) f r) as (es1 & es2 & l' & -> & Hf & -> & Hl). exists (e :: es1), es2, l'.
      repeat split; [done|right]. cbn [length]. unfold SIZEOF_RELA in *. destruct Hl as [[-> ->]| ->]; cbn [length]; lia.
    + destruct (IH (r + SIZEOF_RELA) f l) as (es1 & es2 & l' & -> & Hf & -> & Hl). destruct Hl as [[-> ->]| ->].
      * exists [], (e :: es2), l. repeat split; [by constructor|by left].
      * exists (e :: es1), es2. eexists. repeat split; [done|right]. cbn [length]. unfold SIZEOF_RELA. lia.
Qed.

Lemma rela_filter_none (es : list rela) : Forall (fun e => ~ irelative e) es -> filter irelative es = [].
Proof. induction 1 as [|e es He _ IH]; [done|]. by rewrite filter_cons_False. Qed.

(** Both loops together: the entries in order, those of type IRELATIVE last. *)
Lemma both_loops n es r s : rela_table r es -> (length es <= n)%nat ->
  (r2 ← entry_loop E n mid scope map lazy skip_ifunc r (r + SIZEOF_RELA * Z.of_nat (length es)) None;
   match r2 with
   | None => mret tt
   | Some (first, last) => irelative_loop E n mid scope map lazy skip_ifunc first last
   end) s =
  seqM proc (filter (fun e => ~ irelative e) es ++ filter irelative es) s.
Proof.
  intros Ht Hn. rewrite seqM_app. unfold mbind at 1, M_bind. rewrite entry_loop_spec by done.
  unfold mbind, M_bind. destruct (seqM proc _ s) as [[] s1| | | |]; [|done..]. cbn.
  clear s. revert r Ht Hn. induction es as [|e es IH]; intros r Ht Hn; [done|]. cbn [noted length] in *.
  destruct (decide (irelative e)) as [Hi|Hi].
  - destruct (noted_some (r + SIZEOF_RELA) es r r) as (es1 & es2 & l' & -> & Hf & -> & Hl).
    rewrite app_comm_cons, filter_app, (rela_filter_none es2 Hf), app_nil_r. rewrite app_comm_cons in Ht. apply rela_table_app in Ht as [Ht _].
    rewrite length_app in Hn. rewrite <- (irelative_loop_spec n es1 e r) by (done || lia). f_equal.
    destruct Hl as [[-> ->]| ->]; cbn [length]; unfold SIZEOF_RELA; lia.
  - apply rela_table_cons in Ht as [_ Ht]. rewrite filter_cons_False by done. apply IH; [done|lia].
Qed.
End Order.

Lemma on_w_ret {A} (m : M world A) s a w : m (r_w s) = Ret a w -> on_w m s = Ret a (set_w w s).
Proof. unfold on_w. by intros ->. Qed.
Lemma set_w_same s : set_w (r_w s) s = s.
Proof. by destruct s. Qed.
Lemma on_w_get_map mid map s : w_maps (r_w s) !! mid = Some map -> on_w (get_map mid) s = Ret map s.
Proof. intros H. rewrite (on_w_ret _ _ map (r_w s)), set_w_same; [done|]. unfold get_map. by rewrite H. Qed.

Lemma relative_loop_spec E la rels : forall r s, rela_table E r rels ->
  relative_loop E (length rels) la r s =
  seqM (fun e => on_w (elf_machine_rela_relative la e (u64 (la + r_offset e)))) rels s.
Proof.
  induction rels as [|e rels IH]; intros r s Ht; [done|]. apply rela_table_cons in Ht as [He Ht].
  cbn [length relative_loop seqM]. rewrite (M_bind_step _ _ _ e s) by (by rewrite He).
  apply M_bind_ext. intros _ s'. by apply IH.
Qed.

(** Every entry of a relocation section is processed exactly once: first the [nrelative]
    relative ones (unless the object is the loader, which has done them itself, or the
    section is processed lazily), then the others in order, and the ones that call
    a resolver function (IRELATIVE) after all others. *)
Theorem do_rela_order E mid scope map start lazy skip_ifunc rels es s :
  w_maps (r_w s) !! mid = Some map -> rela_table E start (rels ++ es) ->
  elf_dynamic_do_Rela E mid scope
    (mkRange start (SIZEOF_RELA * Z.of_nat (length (rels ++ es))) (Z.of_nat (length rels)) lazy) skip_ifunc s =
  (when (negb lazy && negb (bool_decide (mid = e_rtld E)))
     (seqM (fun e => on_w (elf_machine_rela_relative (l_addr map) e (u64 (l_addr map + r_offset e)))) rels);;
   seqM (process E mid scope map lazy skip_ifunc)
     (filter (fun e => ~ irelative e) es ++ filter irelative es)) s.
Proof.
  intros Hmap Ht. unfold elf_dynamic_do_Rela. rewrite (M_bind_step _ _ _ map s) by (by apply on_w_get_map).
  cbn [rg_start rg_size rg_nrelative rg_lazy]. rewrite Nat2Z.id. apply rela_table_app in Ht as [Hr He].
  replace (start + SIZEOF_RELA * Z.of_nat (length (rels ++ es)))
    with (start + SIZEOF_RELA * Z.of_nat (length rels) + SIZEOF_RELA * Z.of_nat (length es))
    by (rewrite length_app; unfold SIZEOF_RELA; lia).
  assert (Hn : (length es <= S (count (SIZEOF_RELA * Z.of_nat (length (rels ++ es)))))%nat).
  { unfold count. replace (SIZEOF_RELA * Z.of_nat (length (rels ++ es)) + SIZEOF_RELA - 1) with (23 + Z.of_nat (length (rels ++ es)) * SIZEOF_RELA)
      by (unfold SIZEOF_RELA; lia). rewrite Z.div_add by done. change (23 / SIZEOF_RELA) with 0. rewrite Z.add_0_l, Nat2Z.id, length_app. lia. }
  assert (Hrel : when (negb lazy && negb (bool_decide (mid = e_rtld E))) (relative_loop E (length rels) (l_addr map) start) s =
    when (negb lazy && negb (bool_decide (mid = e_rtld E)))
      (seqM (fun e => on_w (elf_machine_rela_relative (l_addr map) e (u64 (l_addr map + r_offset e)))) rels) s)
    by (destruct (negb lazy && _); cbn [when]; [by apply relative_loop_spec|done]).
  apply M_bind_cong; [exact Hrel|]. intros _ s'. by rewrite <- both_loops with (n := S (count (SIZEOF_RELA * Z.of_nat (length (rels ++ es)))))
    (r := start + SIZEOF_RELA * Z.of_nat (length rels)).
Qed.

Definition in_range (rg : range) (a : Z) : Prop := rg_start rg <= a < rg_start rg + rg_size rg.

(** The layouts of the sections DT_RELA and DT_JMPREL describe: there is no DT_RELA
    (or it has address zero); the PLT relocations follow; they are the end of DT_RELA;
    the sections are apart. *)
Inductive layout (d : relinfo) (start size : Z) : Z -> Z -> Prop :=
| NoRela : d_rela d = None \/ d_rela d = Some 0 -> layout d start size 0 0
| Adjacent p sz : d_rela d = Some p -> d_relasz d = Some sz -> 0 < p -> 0 <= sz -> start = p + sz ->
    layout d start size p sz
| Overlap p sz : d_rela d = Some p -> d_relasz d = Some sz -> 0 < p -> 0 <= sz < 2 ^ 64 -> start + size = p + sz -> p <= start ->
    layout d start size p sz
| Apart p sz : d_rela d = Some p -> d_relasz d = Some sz -> 0 < p -> 0 < sz -> p + sz < 2 ^ 64 ->
    start + size <= p \/ p + sz < start -> layout d start size p sz.

(** The second half of [rela_ranges], where the first range is known. *)
Lemma merge_ranges p sz n start size do_lazy :
  0 < p -> 0 <= sz -> p + sz < 2 ^ 64 -> 0 < start -> 0 <= size -> start + size < 2 ^ 64 ->
  start = p + sz \/ (start + size = p + sz /\ p <= start) \/ (start + size <= p /\ 0 < sz) \/ p + sz < start ->
  exists r0 r1,
    (let r0 := if u64 (p + sz) =? u64 (start + size) then mkRange p (u64 (sz - size)) n false else mkRange p sz n false in
     if negb do_lazy && (u64 (rg_start r0 + rg_size r0) =? start)
     then Ok (mkRange (rg_start r0) (u64 (rg_size r0 + size)) (rg_nrelative r0) false, mkRange 0 0 0 false)
     else Ok (r0, mkRange start size 0 do_lazy)) = Ok (r0, r1) /\
    rg_lazy r0 = false /\ rg_start r0 = p /\ rg_nrelative r0 = n /\
    (do_lazy = true -> r1 = mkRange start size 0 true) /\ (rg_lazy r1 = true -> do_lazy = true) /\
    forall a, (in_range r0 a \/ in_range r1 a <-> p <= a < p + sz \/ start <= a < start + size) /\
      ~ (in_range r0 a /\ in_range r1 a).
Proof.
  intros Hp Hz Hb Hst Hsz Hb' Hl. rewrite !(u64_small (_ + _)) by lia.
  set (sz0 := if p + sz =? start + size then sz - size else sz).
  assert (Hsz0 : 0 <= sz0 /\ p + sz0 < 2 ^ 64).
  { unfold sz0. destruct (Z.eqb_spec (p + sz) (start + size)); lia. }
  cbv zeta. replace (if p + sz =? start + size then mkRange p (u64 (sz - size)) n false else mkRange p sz n false) with (mkRange p sz0 n false).
  2:{ unfold sz0 in *. destruct (Z.eqb_spec (p + sz) (start + size)); [|done]. by rewrite u64_small by lia. }
  cbn [rg_start rg_size rg_nrelative]. rewrite u64_small by lia.
  destruct (negb do_lazy && (p + sz0 =? start)) eqn:Hc.
  - zbool. rewrite u64_small by lia. do 2 eexists. split; [reflexivity|]. cbn.
    split; [done|]. split; [done|]. split; [done|]. split; [by destruct do_lazy|]. split; [done|].
    intros a. unfold in_range. cbn. unfold sz0 in *. destruct (Z.eqb_spec (p + sz) (start + size)); lia.
  - do 2 eexists. split; [reflexivity|]. cbn.
    split; [done|]. split; [done|]. split; [done|]. split; [by intros ->|]. split; [done|].
    intros a. unfold in_range. cbn. unfold sz0 in *. destruct (Z.eqb_spec (p + sz) (start + size)); lia.
Qed.

(** Whatever the layout, the two ranges that are processed cover the relocations of both
    sections and nothing else, without overlap, and only the PLT relocations are
    left to lazy binding. *)
Theorem ranges_cover_sections d do_lazy start size p sz :
  d_pltrel d = true -> d_jmprel d = Some start -> d_pltrelsz d = Some size ->
  0 < start -> 0 <= size -> start + size < 2 ^ 64 -> layout d start size p sz ->
  exists r0 r1, rela_ranges d do_lazy = Ok (r0, r1) /\ rg_lazy r0 = false /\
    (0 < p -> rg_start r0 = p /\ rg_nrelative r0 = default 0 (d_relacount d)) /\
    (do_lazy = true -> r1 = mkRange start size 0 true) /\
    (rg_lazy r1 = true -> do_lazy = true) /\
    forall a, (in_range r0 a \/ in_range r1 a <-> p <= a < p + sz \/ start <= a < start + size) /\
      ~ (in_range r0 a /\ in_range r1 a).
Proof.
  intros Hpr Hj Hs Hst Hsz Hb Hl. unfold rela_ranges. rewrite Hpr, Hj, Hs.
  assert (exists r, rela_range d = Ok r /\ rg_lazy r = false /\ (rg_start r = p /\ rg_size r = sz) /\
            (0 < p -> rg_nrelative r = default 0 (d_relacount d))) as (r & -> & Hlz & [Hr1 Hr2] & Hn).
  { unfold rela_range. destruct Hl as [[Hd|Hd]|p sz Hd Hd' Hp Hz He|p sz Hd Hd' Hp Hz He He'|p sz Hd Hd' Hp Hz Hb' He];
      rewrite Hd; [eexists; split; [reflexivity|]; cbn; (split; [done|]; split; [done|]; lia)..| | |];
      rewrite (proj2 (Z.eqb_neq p 0)), Hd' by lia; by eexists. }
  cbn [mbind res_bind res_of_option mret res_ret].
  assert (Har : p = 0 /\ sz = 0 \/ 0 < p /\ 0 <= sz /\ p + sz < 2 ^ 64 /\
    (start = p + sz \/ (start + size = p + sz /\ p <= start) \/ (start + size <= p /\ 0 < sz) \/ p + sz < start))
    by (destruct Hl; lia).
  set (p' := if p =? 0 then start else p).
  replace (if rg_start r =? 0 then mkRange start (rg_size r) (rg_nrelative r) false else r) with (mkRange p' sz (rg_nrelative r) false).
  2:{ unfold p'. destruct r as [x y z t]. cbn in *. subst. by destruct (_ =? 0). }
  cbn [rg_start rg_size rg_nrelative].
  destruct (merge_ranges p' sz (rg_nrelative r) start size do_lazy) as (r0 & r1 & H0 & H1 & H2 & H3 & H4 & H5 & H6); try done.
  1-4: unfold p'; destruct (Z.eqb_spec p 0); lia.
  exists r0, r1. split; [exact H0|]. split; [done|]. split; [|split; [done|split; [done|]]].
  - intros Hp. rewrite H2, H3. split; [|auto]. unfold p'. by rewrite (proj2 (Z.eqb_neq p 0)) by lia.
  - intros a. rewrite (proj1 (H6 a)). split; [|apply H6]. unfold p'. destruct (Z.eqb_spec p 0); lia.
Qed.

(** ** Rewriting the PLT *)

(** [m]: the instruction at [a] is a direct branch to [t]: [jmp rel32] or [jmpabs]. *)
Definition sext32 (d : Z) : Z := if d <? 2 ^ 31 then d else d - 2 ^ 32.
Inductive branches (m : gmap Z Z) (a t : Z) : Prop :=
| Jmp32 d : m !! a = Some 0xe9 -> load 4 (a + 1) m = Ok d -> t = u64 (a + 5 + sext32 d) -> branches m a t
| Jmpabs : m !! a = Some 0xd5 -> m !! (a + 1) = Some 0 -> m !! (a + 2) = Some 0xa1 -> load 8 (a + 3) m = Ok t ->
    branches m a t.

Lemma store_byte n : forall a v m m' i, store n a v m = Ok m' -> 0 <= i < Z.of_nat n ->
  m' !! (a + i) = Some (v / 256 ^ i mod 256).
Proof.
  induction n as [|n IH]; intros a v m m' i Hs Hi; [lia|]. cbn [store] in Hs. destruct (m !! a); [|done].
  destruct (Z.eq_dec i 0) as [->|].
  - rewrite Z.add_0_r, Z.pow_0_r, Z.div_1_r, (store_other _ _ _ _ _ a Hs) by lia. apply lookup_insert_eq.
  - replace (a + i) with (a + 1 + (i - 1)) by lia. rewrite (IH _ _ _ _ _ Hs) by lia. f_equal. f_equal.
    rewrite Z.div_div by (try apply Z.pow_pos_nonneg; lia). f_equal. rewrite <- (Z.pow_succ_r 256 (i - 1)) by lia. f_equal. lia.
Qed.

(** A range of bytes is overwritten. *)
Definition writes (lo hi : Z) (m m' : gmap Z Z) : Prop :=
  (forall b, b < lo \/ hi <= b -> m' !! b = m !! b) /\ (forall k b, mapped k b m -> mapped k b m').
Lemma writes_trans lo hi lo' hi' m1 m2 m3 l h :
  l <= lo -> l <= lo' -> hi <= h -> hi' <= h -> writes lo hi m1 m2 -> writes lo' hi' m2 m3 -> writes l h m1 m3.
Proof.
  intros ? ? ? ? [H1 K1] [H2 K2]. split; [|by auto]. intros b Hb. rewrite H2, H1 by lia. done.
Qed.
Lemma store_writes n a v m m' : store n a v m = Ok m' -> writes a (a + Z.of_nat n) m m'.
Proof. intros Hs. split; [intros b Hb; by apply (store_other _ _ _ _ _ _ Hs)|]. intros k b. by apply (store_keeps_mapped _ _ _ _ _ _ _ Hs). Qed.
Lemma writes_load n a lo hi m m' : writes lo hi m m' -> a + Z.of_nat n <= lo \/ hi <= a -> load n a m' = load n a m.
Proof. intros [H _] Ha. apply load_other. intros b Hb. apply H. lia. Qed.

(** [n] bytes from [a] on are stored, and the code goes on. *)
Lemma mem_store_bind {B} n a v (k : M world B) w : mapped n a (w_mem w) ->
  exists m, (mem_store n a v;; k) w = k (set_mem m w) /\ store n a v (w_mem w) = Ok m.
Proof.
  intros Hm. destruct (mem_store_ok n a v w Hm) as (m & Hs & Hst). exists m. split; [|done].
  by rewrite (M_bind_step _ _ _ tt (set_mem m w)).
Qed.

Lemma fill_int3_spec n : forall pad w, mapped n pad (w_mem w) ->
  exists m, fill_int3 n pad w = Ret tt (set_mem m w) /\ writes pad (pad + Z.of_nat n) (w_mem w) m.
Proof.
  induction n as [|n IH]; intros pad w Hm; cbn [fill_int3].
  - exists (w_mem w). rewrite set_mem_same. split; [done|]. split; done.
  - destruct (mem_store_bind 1 pad INT3_INSN_OPCODE (fill_int3 n (pad + 1)) w) as (m1 & -> & Hs).
    { intros b Hb. apply Hm. lia. }
    destruct (IH (pad + 1) (set_mem m1 w)) as (m & -> & Hw).
    { rewrite set_mem_mem. apply (store_keeps_mapped _ _ _ _ _ _ _ Hs). intros b Hb. apply Hm. lia. }
    rewrite set_mem_mem in Hw. exists m. rewrite set_mem_set. split; [done|].
    eapply writes_trans; [..|by apply (store_writes _ _ _ _ _ Hs)|exact Hw]; lia.
Qed.

(** Two stores and the padding behind them. *)
Lemma patch_spec n1 v1 n2 a2 v2 b pad end_ w : mapped (Z.to_nat (end_ - b)) b (w_mem w) ->
  b + Z.of_nat n1 <= end_ -> b <= a2 -> a2 + Z.of_nat n2 <= pad -> pad <= end_ ->
  exists m1 m2 m,
    (mem_store n1 b v1;; mem_store n2 a2 v2;; fill_int3 (Z.to_nat (end_ - pad)) pad) w = Ret tt (set_mem m w) /\
    store n1 b v1 (w_mem w) = Ok m1 /\ store n2 a2 v2 m1 = Ok m2 /\ writes pad end_ m2 m /\ writes b end_ (w_mem w) m.
Proof.
  intros Hm H1 H2 H3 H4.
  edestruct (mem_store_bind n1 b v1 (mem_store n2 a2 v2;; fill_int3 (Z.to_nat (end_ - pad)) pad) w) as (m1 & -> & S1); [intros c Hc; apply Hm; lia|].
  pose proof (store_writes _ _ _ _ _ S1) as W1.
  edestruct (mem_store_bind n2 a2 v2 (fill_int3 (Z.to_nat (end_ - pad)) pad) (set_mem m1 w)) as (m2 & -> & S2).
  { rewrite set_mem_mem. apply W1. intros c Hc. apply Hm. lia. }
  rewrite set_mem_mem in S2. rewrite set_mem_set. pose proof (store_writes _ _ _ _ _ S2) as W2.
  destruct (fill_int3_spec (Z.to_nat (end_ - pad)) pad (set_mem m2 w)) as (m & -> & W3).
  { rewrite set_mem_mem. apply W2, W1. intros c Hc. apply Hm. lia. }
  rewrite set_mem_mem in W3. replace (pad + Z.of_nat (Z.to_nat (end_ - pad))) with end_ in W3 by lia.
  exists m1, m2, m. rewrite set_mem_set. repeat (split; [done|]).
  eapply (writes_trans b end_); [..|exact W3]; [lia..|]. eapply writes_trans; [..|exact W1|exact W2]; lia.
Qed.

Section Plt.
Context (E : env) (la k : Z) (Hk : 0 <= k < 64).
Local Abbreviation ent := (2 ^ k).

(** Where the branch of an entry goes, the end of the entry, and whether it is rewritten
    for the target [v]. *)
Definition branch_start (e : rela) : Z :=
  let b := u64 (la + r_addend e) in if e_ibt_enabled E then b else ALIGN_DOWN b ent.
Definition slot_end (b : Z) : Z := (b / ent + 1) * ent.
Definition fits (b v : Z) : Prop := u64 (v - b - 5 + 2 ^ 31) < 2 ^ 32.
#[export] Instance fits_dec b v : Decision (fits b v).
Proof. unfold fits. apply _. Defined.
Definition rewritable (b v : Z) : Prop :=
  fits b v /\ b + 5 <= slot_end b \/ ~ fits b v /\ e_plt_rewrite E = plt_rewrite_jmpabs /\ b + 11 <= slot_end b.

Lemma fits_target b v d : 0 <= v < 2 ^ 64 -> fits b v -> d = u64 (v - b - 5) mod 2 ^ 32 -> v = u64 (b + 5 + sext32 d).
Proof.
  unfold fits, sext32, u64. intros Hv Hf ->. set (x := (v - b - 5) mod 2 ^ 64) in *.
  assert (Hx : 0 <= x < 2 ^ 64) by (apply Z.mod_pos_bound; lia).
  assert (exists q, v = b + 5 + x + q * 2 ^ 64) as [q Hq].
  { exists ((v - b - 5) / 2 ^ 64). unfold x. pose proof (Z.div_mod (v - b - 5) (2 ^ 64) ltac:(lia)). lia. }
  assert (Hy : x < 2 ^ 31 \/ 2 ^ 64 - 2 ^ 31 <= x).
  { rewrite <- (Z.add_mod_idemp_l (v - b - 5)) in Hf by lia. fold x in Hf. divlia. }
  destruct Hy as [Hy|Hy].
  - rewrite (Z.mod_small x) by lia. rewrite (proj2 (Z.ltb_lt _ _)) by lia.
    replace (b + 5 + x) with (v + (- q) * 2 ^ 64) by lia. rewrite Z.mod_add, Z.mod_small by lia. done.
  - assert (Hd : x mod 2 ^ 32 = x - (2 ^ 64 - 2 ^ 32)) by divlia. rewrite Hd. rewrite (proj2 (Z.ltb_ge _ _)) by lia.
    replace (b + 5 + (x - (2 ^ 64 - 2 ^ 32) - 2 ^ 32)) with (v + (- q - 1) * 2 ^ 64) by lia. rewrite Z.mod_add, Z.mod_small by lia. done.
Qed.

Lemma slot_end_lor b : 0 <= b -> slot_end b < 2 ^ 64 -> u64 (Z.lor b (ent - 1) + 1) = slot_end b.
Proof.
  intros Hb Hs. rewrite <- Z.ones_equiv || (replace (ent - 1) with (Z.ones k) by (rewrite Z.ones_equiv; lia)).
  rewrite lor_ones_low by lia. unfold slot_end in *. rewrite u64_small; [lia|].
  assert (0 <= b / ent) by (apply Z.div_pos; lia). assert (0 < ent) by lia. nia.
Qed.

Lemma rewrite_entry_spec e w v :
  let b := branch_start e in
  0 <= b -> slot_end b + 11 < 2 ^ 64 -> 0 <= v < 2 ^ 64 ->
  load 8 (u64 (la + r_offset e)) (w_mem w) = Ok v -> mapped (Z.to_nat (slot_end b - b)) b (w_mem w) ->
  exists m, rewrite_entry E la ent e w = Ret tt (set_mem m w) /\ writes b (slot_end b) (w_mem w) m /\
    (rewritable b v -> branches m b v) /\ (~ rewritable b v -> m = w_mem w).
Proof.
  intros b Hb Hend Hv Hv' Hm. unfold rewrite_entry.
  rewrite (M_bind_step _ _ _ v w) by (unfold mem_load; by rewrite Hv').
  fold (branch_start e). fold b.
  assert (Hbs : b < slot_end b). { unfold slot_end. pose proof (Z.div_mod b ent ltac:(lia)). pose proof (Z.mod_pos_bound b ent ltac:(lia)). lia. }
  rewrite slot_end_lor by lia. unfold JMP32_INSN_SIZE, JMPABS_INSN_SIZE. rewrite !(u64_small (b + _)) by lia.
  assert (Hfit : (u64 (u64 (v - b - 5) + 2 ^ 31) <=? 2 ^ 32 - 1) = bool_decide (fits b v)).
  { assert (Hu : u64 (u64 (v - b - 5) + 2 ^ 31) = u64 (v - b - 5 + 2 ^ 31)) by (unfold u64; by rewrite Z.add_mod_idemp_l by lia).
    rewrite Hu. case_bool_decide as Hf; unfold fits in Hf; [apply Z.leb_le|apply Z.leb_gt]; lia. }
  rewrite Hfit. case_bool_decide as Hf.
  - destruct (Z.ltb_spec (slot_end b) (b + 5)) as [Hlt|Hge].
    { exists (w_mem w). rewrite set_mem_same. repeat split; try done. intros [[_ ?]|[? _]]; [lia|done]. }
    destruct (patch_spec 1 JMP32_INSN_OPCODE 4 (b + 1) (u64 (v - b - 5)) b (b + 5) (slot_end b) w)
      as (m1 & m2 & m & -> & S1 & S2 & W & W'); [done|lia..|].
    exists m. split; [done|]. split; [done|]. split; [intros _|intros Hn; exfalso; apply Hn; by left].
    eapply Jmp32.
    + rewrite (proj1 W), (store_other _ _ _ _ _ _ S2) by lia. rewrite <- (Z.add_0_r b). rewrite (store_byte _ _ _ _ _ _ S1) by lia. done.
    + rewrite (writes_load _ _ _ _ _ _ W) by lia. by rewrite (store_load _ _ _ _ _ S2).
    + by apply fits_target.
  - case_bool_decide as Hj; cbn [negb].
    2:{ exists (w_mem w). rewrite set_mem_same. repeat split; try done. intros [[? _]|(_ & ? & _)]; done. }
    destruct (Z.ltb_spec (slot_end b) (b + 11)) as [Hlt|Hge].
    { exists (w_mem w). rewrite set_mem_same. repeat split; try done. intros [[? _]|(_ & _ & ?)]; [done|lia]. }
    destruct (patch_spec 4 JMPABS_INSN_OPCODE 8 (b + 3) v b (b + 11) (slot_end b) w)
      as (m1 & m2 & m & -> & S1 & S2 & W & W'); [done|lia..|].
    exists m. split; [done|]. split; [done|]. split; [intros _|intros Hn; exfalso; apply Hn; by right].
    assert (Hbyte : forall i, 0 <= i < 3 -> m !! (b + i) = Some (JMPABS_INSN_OPCODE / 256 ^ i mod 256)).
    { intros i Hi. rewrite (proj1 W), (store_other _ _ _ _ _ _ S2) by lia. apply (store_byte _ _ _ _ _ _ S1). lia. }
    apply Jmpabs; [rewrite <- (Z.add_0_r b)| | |]; [by rewrite Hbyte by lia..|].
    rewrite (writes_load _ _ _ _ _ _ W) by lia. rewrite (store_load _ _ _ _ _ S2). f_equal. by apply Z.mod_small.
Qed.

Definition slot_of (e : rela) (a : Z) : Prop := branch_start e <= a < slot_end (branch_start e).
Definition got_of (e : rela) : Z := u64 (la + r_offset e).

(** An entry that can be rewritten: it has room for the longest branch, it and its GOT
    slot are mapped, and the slot holds [v e]. *)
Record plt_entry (v : rela -> Z) (m : gmap Z Z) (e : rela) : Prop := {
  pe_start : 0 <= branch_start e;
  pe_room : branch_start e + 11 <= slot_end (branch_start e) < 2 ^ 64 - 11;
  pe_mapped : mapped (Z.to_nat (slot_end (branch_start e) - branch_start e)) (branch_start e) m;
  pe_value : 0 <= v e < 2 ^ 64;
  pe_got : load 8 (got_of e) m = Ok (v e) }.

(** The slots of two entries do not overlap, and neither GOT slot lies in the other's entry. *)
Definition entries_apart (e e' : rela) : Prop :=
  (forall a, ~ (slot_of e a /\ slot_of e' a)) /\ (forall a, slot_of e a -> ~ (got_of e' <= a < got_of e' + 8)).

Lemma branches_frame m m' b t : (forall a, b <= a < b + 11 -> m' !! a = m !! a) -> branches m b t -> branches m' b t.
Proof.
  intros H [d H1 H2 H3|H1 H2 H3 H4].
  - eapply (Jmp32 _ _ _ d); [by rewrite H by lia| |done]. rewrite <- H2. apply load_other. intros; apply H; lia.
  - apply Jmpabs; [by rewrite H by lia..|]. rewrite <- H4. apply load_other. intros; apply H; lia.
Qed.

Lemma plt_entry_frame v m m' e e' : entries_apart e e' -> writes (branch_start e) (slot_end (branch_start e)) m m' ->
  plt_entry v m e' -> plt_entry v m' e'.
Proof.
  intros [_ Hg] [Hw Hk'] [H1 H2 H3 H4 H5]. split; try done; [by apply Hk'|]. rewrite <- H5. apply load_other.
  intros a Ha. apply Hw. destruct (decide (branch_start e <= a < slot_end (branch_start e))); [|lia]. by destruct (Hg a).
Qed.

Lemma rewrite_entries v es : forall w, Forall (plt_entry v (w_mem w)) es -> StronglySorted entries_apart es ->
  exists m, seqM (rewrite_entry E la ent) es w = Ret tt (set_mem m w) /\
    (forall e, e ∈ es -> (rewritable (branch_start e) (v e) -> branches m (branch_start e) (v e)) /\
       (~ rewritable (branch_start e) (v e) -> forall a, slot_of e a -> m !! a = w_mem w !! a)) /\
    (forall a, (forall e, e ∈ es -> ~ slot_of e a) -> m !! a = w_mem w !! a).
Proof.
  induction es as [|e es IH]; intros w Hes Hap; cbn [seqM].
  - exists (w_mem w). rewrite set_mem_same. split; [done|]. split; [|done]. intros e He. by apply elem_of_nil in He.
  - apply Forall_cons in Hes as [[P1 P2 P3 P4 P5] Hes]. apply StronglySorted_inv in Hap as [Hap Hae].
    destruct (rewrite_entry_spec e w (v e)) as (m1 & H1 & W1 & Y1 & N1); [done|lia|done|done|done|].
    destruct (IH (set_mem m1 w)) as (m & H2 & Y2 & O2); [|done|].
    { rewrite set_mem_mem. rewrite Forall_forall in Hes, Hae |- *. intros e' He'.
      apply (plt_entry_frame v (w_mem w) m1 e e'); [by apply Hae|done|by apply Hes]. }
    rewrite set_mem_mem in Y2, O2. rewrite set_mem_set in H2. rewrite Forall_forall in Hae.
    assert (Hold : forall a, slot_of e a -> m !! a = m1 !! a).
    { intros a Ha. apply O2. intros e' He' Ha'. destruct (Hae e' He') as [Hd _]. by apply (Hd a). }
    exists m. split; [by rewrite (M_bind_step _ _ _ tt (set_mem m1 w))|]. split.
    + intros e' [->|He']%elem_of_cons.
      * split; [intros Hr; apply (branches_frame m1), Y1, Hr; intros a Ha; apply Hold; unfold slot_of; lia|].
        intros Hr a Ha. rewrite Hold by done. by rewrite (N1 Hr).
      * destruct (Y2 e' He') as [Y N]. split; [done|]. intros Hr a Ha. rewrite (N Hr a Ha). apply (proj1 W1).
        destruct (Hae e' He') as [Hd _]. specialize (Hd a). unfold slot_of in *. lia.
    + intros a Ha. rewrite O2 by (intros e' He'; apply Ha; by right). apply (proj1 W1).
      specialize (Ha e ltac:(by left)). unfold slot_of in Ha. lia.
Qed.

Lemma rewrite_loop_spec n : forall es r w, rela_table E r es -> (length es <= n)%nat ->
  rewrite_loop E n la ent r (r + SIZEOF_RELA * Z.of_nat (length es)) w =
  seqM (rewrite_entry E la ent) (filter (fun e => r_type e = R_X86_64_JUMP_SLOT) es) w.
Proof.
  induction n as [|n IH]; intros es r w Ht Hn; destruct es as [|e es]; cbn [length] in *; try lia;
    cbn [rewrite_loop]; (rewrite (proj2 (Z.ltb_ge _ _)) by (unfold SIZEOF_RELA; lia)) ||
                      (rewrite (proj2 (Z.ltb_lt _ _)) by (unfold SIZEOF_RELA; lia)); try done.
  apply rela_table_cons in Ht as [He Ht]. rewrite (M_bind_step _ _ _ e w) by (by rewrite He).
  replace (r + SIZEOF_RELA * Z.of_nat (S (length es))) with (r + SIZEOF_RELA + SIZEOF_RELA * Z.of_nat (length es))
    by (unfold SIZEOF_RELA; lia).
  rewrite filter_cons. destruct (Z.eqb_spec (r_type e) R_X86_64_JUMP_SLOT) as [Hj|Hj].
  - rewrite decide_True by done. cbn [seqM when]. apply M_bind_ext. intros _ w'. apply IH; [done|lia].
  - rewrite decide_False by done. apply IH; [done|lia].
Qed.
End Plt.

(** C16. Rewriting the PLT keeps where calls go: every entry whose target can be reached by a
    direct branch (or by [jmpabs], if the processor has it) becomes a branch to the
    address its GOT slot holds, every other entry stays as it is, and no byte outside
    the entries changes. *)
Theorem plt_rewrite_faithful E mid map k start es v w :
  w_maps w !! mid = Some map -> 0 <= k < 64 ->
  d_x86_pltent (e_info E mid) = Some (2 ^ k) -> d_jmprel (e_info E mid) = Some start ->
  d_pltrelsz (e_info E mid) = Some (SIZEOF_RELA * Z.of_nat (length es)) -> rela_table E start es ->
  let jumps := filter (fun e => r_type e = R_X86_64_JUMP_SLOT) es in
  let la := l_addr map in
  Forall (plt_entry E la k v (w_mem w)) jumps -> StronglySorted (entries_apart E la k) jumps ->
  exists m, x86_64_rewrite_plt E mid w = Ret tt (set_mem m w) /\
    (forall e, e ∈ jumps -> let b := branch_start E la k e in
       (fits b (v e) \/ e_plt_rewrite E = plt_rewrite_jmpabs -> branches m b (v e)) /\
       (~ fits b (v e) -> e_plt_rewrite E <> plt_rewrite_jmpabs -> forall a, slot_of E la k e a -> m !! a = w_mem w !! a)) /\
    (forall a, (forall e, e ∈ jumps -> ~ slot_of E la k e a) -> m !! a = w_mem w !! a).
Proof.
  intros Hmap Hk Hent Hj Hsz Ht jumps la Hes Hap.
  destruct (rewrite_entries E la k Hk v jumps w Hes Hap) as (m & Hrun & Hy & Ho).
  exists m. split; [|split; [|done]].
  - unfold x86_64_rewrite_plt. rewrite Hent, Hj, Hsz. rewrite (M_bind_step _ _ _ map w) by (unfold get_map; by rewrite Hmap).
    cbn [res_of_option]. rewrite !(M_bind_step (lift (Ok _)) _ w _ w) by done. rewrite rewrite_loop_spec; [done|done|].
    unfold count. replace (SIZEOF_RELA * Z.of_nat (length es) + SIZEOF_RELA - 1) with (23 + Z.of_nat (length es) * SIZEOF_RELA)
      by (unfold SIZEOF_RELA; lia). rewrite Z.div_add by done. change (23 / SIZEOF_RELA) with 0. rewrite Z.add_0_l, Nat2Z.id. lia.
  - intros e He b. destruct (Hy e He) as [Y N]. rewrite Forall_forall in Hes. destruct (Hes e He) as [_ Hroom _ _ _].
    fold b in Y, N, Hroom. unfold rewritable in Y, N. destruct (decide (fits b (v e))) as [Hf|Hf].
    + split; [intros _; apply Y; left; split; [done|lia]|done].
    + split; [intros [?|?]; [done|]; apply Y; right; split; [done|]; split; [done|lia]|]. intros _ Hne. apply N. intros [[? _]|(_ & ? & _)]; done.
Qed.
