(* ===== verification/RelocateObject.v ===== *)
(** * Relocating an object, end to end

    What relocation writes where ([frame]), that the mask words hold the masks
    when [_dl_relocate_object] is done, so that the object's calls are confined
    from then on, and what becomes of the segment protections. *)

From S2P Require Import Prelude Mask MapSegments MainImage LinkMap SymHash UniqueSym Lookup TlsOffset Reloc RelocSpec Relocate RelocateSpec.

(** ** Frames *)

(** Only bytes in [A] were written, and every object is still the same object. *)
Record frame (A : Z -> Prop) (w w' : world) : Prop := {
  fr_mem : forall b, ~ A b -> w_mem w' !! b = w_mem w !! b;
  fr_maps : forall m lm, w_maps w !! m = Some lm -> exists lm', w_maps w' !! m = Some lm' /\ same_obj lm lm' }.

Lemma same_obj_refl m : same_obj m m.
Proof. done. Qed.
Lemma same_obj_trans m1 m2 m3 : same_obj m1 m2 -> same_obj m2 m3 -> same_obj m1 m3.
Proof. intros [? ? ?] [? ? ?]. split; congruence. Qed.
#[export] Hint Resolve same_obj_refl same_obj_trans : benign.

Lemma frame_eq A w w' : w_mem w' = w_mem w -> w_maps w' = w_maps w -> frame A w w'.
Proof. intros Hm Hp. split; [by rewrite Hm|]. intros m lm. rewrite Hp. eauto with benign. Qed.
Lemma frame_mono (A B : Z -> Prop) w w' : (forall b, A b -> B b) -> frame A w w' -> frame B w w'.
Proof. intros H [H1 H2]. split; [|done]. intros b Hb. apply H1. auto. Qed.

#[export] Instance frame_harmless A : Harmless (frame A).
Proof.
  split; try (intros; apply frame_eq; by destruct w).
  - split; [intros w; by apply frame_eq|]. intros x y z [M1 P1] [M2 P2]. split.
    + intros b Hb. by rewrite M2, M1.
    + intros m lm H. destruct (P1 m lm H) as (lm1 & H1 & S1). destruct (P2 m lm1 H1) as (lm2 & H2 & S2). eauto with benign.
  - intros m f w Hf. split; [by destruct w|]. intros m' lm Hm. rewrite with_map_maps.
    destruct (decide (m = m')) as [->|].
    + exists (f lm). rewrite lookup_alter_eq, Hm. split; [done|apply Hf].
    + exists lm. rewrite lookup_alter_ne by done. eauto with benign.
Qed.

Lemma frame_set_mem A m w : (forall b, ~ A b -> m !! b = w_mem w !! b) -> frame A w (set_mem m w).
Proof. intros H. split; [by destruct w|]. intros x lm Hx. exists lm. destruct w. eauto with benign. Qed.

Lemma frame_store (A : Z -> Prop) n a v : (forall b, a <= b < a + Z.of_nat n -> A b) -> stable (frame A) (mem_store n a v).
Proof.
  intros HA w. unfold mem_store, mbind, M_bind, lift. destruct (store n a v (w_mem w)) as [m| | | |] eqn:Hs; try done.
  apply frame_set_mem. intros b Hb. apply (store_other _ _ _ _ _ _ Hs).
    destruct (decide (a <= b < a + Z.of_nat n)); [by destruct Hb; apply HA|lia].
Qed.

Lemma copy_other n : forall dst src m m' b, copy n dst src m = Ok m' -> b < dst \/ dst + Z.of_nat n <= b -> m' !! b = m !! b.
Proof.
  induction n as [|n IH]; intros dst src m m' b Hc Hb; [by injection Hc as <-|]. cbn [copy] in Hc.
  apply bind_Ok_inv in Hc as (x & _ & Hc). apply bind_Ok_inv in Hc as (m1 & Hs & Hc).
  rewrite (IH _ _ _ _ b Hc) by lia. apply (store_other _ _ _ _ _ _ Hs). lia.
Qed.
Lemma frame_copy (A : Z -> Prop) n a src : (forall b, a <= b < a + Z.of_nat n -> A b) -> stable (frame A) (mem_copy n a src).
Proof.
  intros HA w. unfold mem_copy, mbind, M_bind, lift. destruct (copy n a src (w_mem w)) as [m| | | |] eqn:Hs; try done.
  apply frame_set_mem. intros b Hb. apply (copy_other _ _ _ _ _ _ Hs).
    destruct (decide (a <= b < a + Z.of_nat n)); [by destruct Hb; apply HA|lia].
Qed.
Lemma frame_ph A ph : stable (frame A) (modify (set_ph ph)).
Proof. apply stable_modify. intros w. apply frame_eq; by destruct w. Qed.
Lemma frame_stop A : stable (frame A) stop_placeholders.
Proof. apply stable_modify. intros w. apply frame_eq; by destruct w. Qed.
#[export] Hint Resolve frame_ph frame_stop : stable.

(** ** What one relocation writes *)

(** The number of bytes an entry writes; [size] is the size of the symbol it names. *)
Definition rela_size (type size : Z) : Z :=
  if type =? R_X86_64_TLSDESC then 16 else if type =? R_X86_64_COPY then size else 8.

Definition extent (map : link_map) (e : rela) (b : Z) : Prop :=
  let a := u64 (l_addr map + r_offset e) in
  if r_type e =? R_X86_64_COPY
  then exists s, rd (l_symtab map) (r_sym e) = Ok s /\ a <= b < a + rela_size (r_type e) (st_size s)
  else a <= b < a + rela_size (r_type e) 0.

Lemma extent_intro map e b s : rd (l_symtab map) (r_sym e) = Ok s ->
  u64 (l_addr map + r_offset e) <= b < u64 (l_addr map + r_offset e) + rela_size (r_type e) (st_size s) -> extent map e b.
Proof.
  intros Hs Hb. unfold extent. destruct (r_type e =? R_X86_64_COPY) eqn:Hc; [eauto|].
  unfold rela_size in *. rewrite Hc in *. done.
Qed.

Section Writes.
Context (E : env) (A : Z -> Prop).
Hypothesis interfere_frame : forall n w, frame A w (e_interfere E n w).
Hypothesis init_frame : forall m w, frame A w (e_init_static_tls E m w).

Lemma frame_resolve l scope ref v ty : stable (frame A) (resolve_map (e_interfere E) (e_fuel E) l scope ref v ty).
Proof. unfold resolve_map, resolve_placeholder, record_placeholder, lookup. stable_auto. Qed.

Lemma frame_apply u r d mid map reloc a refsym ph skip sym_map sym value :
  (forall b, a <= b < a + rela_size (r_type reloc) (st_size refsym) -> A b) ->
  stable (frame A) (apply_reloc (e_call_ifunc E) (e_tcb_size E) (e_init_static_tls E) u r d
    (e_make_tlsdesc_dynamic E) (e_to_mitigate E) mid map reloc a refsym ph skip sym_map sym value).
Proof.
  intros HA. unfold rela_size in HA.
  unfold apply_reloc, lm_addr, lm_tls, need_sym, TRY_STATIC_TLS, CHECK_STATIC_TLS, _dl_reloc_bad_type, record_stub. cbv zeta.
  destruct (Z.eqb_spec (r_type reloc) R_X86_64_TLSDESC) as [Ht|Ht].
  - assert (H1 : forall v, stable (frame A) (mem_store 8 a v)) by (intros v; apply frame_store; intros; apply HA; lia).
    assert (H2 : forall v, stable (frame A) (mem_store 8 (a + 8) v)) by (intros v; apply frame_store; intros; apply HA; lia).
    rewrite Ht. cbn [Z.eqb Pos.eqb orb R_X86_64_JUMP_SLOT R_X86_64_GLOB_DAT R_X86_64_CALLBACK_TABLE
      R_X86_64_CALLBACK_MAYBE R_X86_64_SIZE64 R_X86_64_DTPMOD64 R_X86_64_DTPOFF64 R_X86_64_TLSDESC]. stable_auto.
  - destruct (Z.eqb_spec (r_type reloc) R_X86_64_COPY) as [Hc|Hc].
    + assert (H1 : forall s src, stable (frame A) (mem_copy (Z.to_nat (Z.min (st_size s) (st_size refsym))) a src)).
      { intros s src. apply frame_copy. intros; apply HA; lia. }
      rewrite Hc. cbn [Z.eqb Pos.eqb orb R_X86_64_JUMP_SLOT R_X86_64_GLOB_DAT R_X86_64_CALLBACK_TABLE
        R_X86_64_CALLBACK_MAYBE R_X86_64_SIZE64 R_X86_64_DTPMOD64 R_X86_64_DTPOFF64 R_X86_64_TLSDESC R_X86_64_COPY
        R_X86_64_TPOFF64 R_X86_64_ORMASK R_X86_64_ANDMASK R_X86_64_64 R_X86_64_DSO_BASE R_X86_64_EXPERIMENT
        R_X86_64_SIZE32 R_X86_64_32 R_X86_64_PC32]. stable_auto.
    + assert (H1 : forall v, stable (frame A) (mem_store 8 a v)) by (intros v; apply frame_store; intros; apply HA; lia).
      assert (H2 : forall v, stable (frame A) (mem_store 4 a v)) by (intros v; apply frame_store; intros; apply HA; lia).
      stable_auto.
Qed.

Lemma frame_rela mid scope e v skip w map :
  w_maps w !! mid = Some map -> (forall b, extent map e b -> A b) ->
  match machine_rela E mid scope e (SymAt mid (r_sym e)) v (u64 (l_addr map + r_offset e)) skip w with
  | Ret _ w' | Raise _ _ w' => frame A w w'
  | _ => True
  end.
Proof.
  intros Hmap HA. unfold machine_rela. destruct (e_tlsdesc E) as [[u r] d]. unfold elf_machine_rela.
  rewrite (M_bind_step _ _ _ map w) by (unfold get_map; by rewrite Hmap).
  assert (Hsym : get_sym (SymAt mid (r_sym e)) w = lift (rd (l_symtab map) (r_sym e)) w) by (cbn; by rewrite Hmap).
  destruct (rd (l_symtab map) (r_sym e)) as [s| | | |] eqn:Hs.
  2-5: unfold mbind, M_bind; rewrite Hsym; cbn; done || reflexivity.
  rewrite (M_bind_step _ _ _ s w Hsym). set (a := u64 (l_addr map + r_offset e)) in *.
  assert (HA' : forall b, a <= b < a + rela_size (r_type e) (st_size s) -> A b) by (intros b Hb; by apply HA, (extent_intro _ _ _ s)).
  pose proof (fun ph sm sy vl => frame_apply u r d mid map e a s ph skip sm sy vl HA') as Happ.
  pose proof (frame_resolve mid scope (SymAt mid (r_sym e)) v (r_type e)) as Hres.
  match goal with |- match ?m w with _ => _ end => enough (Hst : stable (frame A) m) by exact (Hst w) end.
  destruct ((r_type e =? R_X86_64_RELATIVE) || (r_type e =? R_X86_64_RELATIVE64)) eqn:Hrel.
  - assert (Hst : forall v, stable (frame A) (mem_store 8 a v)).
    { intros v'. apply frame_store. intros b Hb. apply HA'. unfold rela_size.
      apply orb_true_iff in Hrel as [Hrel|Hrel]; apply Z.eqb_eq in Hrel; rewrite Hrel; cbn; lia. }
    apply orb_true_iff in Hrel as [-> | ->]; stable_auto.
  - apply orb_false_iff in Hrel as [-> ->]. unfold symbol_address, ifunc_value, lm_addr, lm_relocated, lm_type. stable_auto.
Qed.
End Writes.

(** The value a mask relocation of the object stores. *)
Definition mask_value (E : env) (map : link_map) (type : Z) : Z :=
  if type =? R_X86_64_ORMASK then or_mask_of (e_to_mitigate E) map else and_mask_of (e_to_mitigate E) map.
Definition mask_reloc (e : rela) : Prop := r_type e = R_X86_64_ORMASK \/ r_type e = R_X86_64_ANDMASK.

Lemma mem_store_loads a v w w' : 0 <= v < 2 ^ 64 -> mem_store 8 a v w = Ret tt w' -> load 8 a (w_mem w') = Ok v.
Proof.
  intros Hv H. unfold mem_store in H. apply M_bind_Ret_inv in H as (m & w1 & H1 & H2). apply lift_Ret_inv in H1 as [Hs ->].
  injection H2 as <-. rewrite set_mem_mem, (store_load _ _ _ _ _ Hs). f_equal. by apply Z.mod_small.
Qed.

Lemma rela_sets_mask E mid scope e sym v a skip w w' map :
  w_maps w !! mid = Some map -> mask_reloc e -> 0 <= mask_value E map (r_type e) < 2 ^ 64 ->
  machine_rela E mid scope e sym v a skip w = Ret tt w' -> load 8 a (w_mem w') = Ok (mask_value E map (r_type e)).
Proof.
  intros Hmap Hty Hv. unfold machine_rela. destruct (e_tlsdesc E) as [[u r] d]. unfold elf_machine_rela.
  rewrite (M_bind_step _ _ _ map w) by (unfold get_map; by rewrite Hmap). intros H.
  apply M_bind_Ret_inv in H as (s & w1 & _ & H). apply M_bind_Ret_inv in H as (nm & w2 & _ & H).
  assert ((r_type e =? R_X86_64_RELATIVE) = false /\ (r_type e =? R_X86_64_RELATIVE64) = false /\
          (r_type e =? R_X86_64_NONE) = false) as (E1 & E2 & E3) by (destruct Hty as [-> | ->]; done).
  rewrite E1, E2, E3 in H. apply M_bind_Ret_inv in H as ([sm sy] & w3 & _ & H).
  apply M_bind_Ret_inv in H as (x & w4 & _ & H). apply M_bind_Ret_inv in H as (y & w5 & _ & H).
  apply (mem_store_loads a _ w5 w' Hv). rewrite <- H. unfold apply_reloc, mask_value, or_mask_of, and_mask_of.
  destruct Hty as [-> | ->]; reflexivity.
Qed.

Section Object.
Context (E : env) (mid : mapid) (scope : list (list mapid)) (map : link_map).
Hypothesis interfere_frame : forall n w, frame (fun _ => False) w (e_interfere E n w).
Hypothesis init_frame : forall m w, frame (fun _ => False) w (e_init_static_tls E m w).

(** The object is there, as it was at the beginning. *)
Definition present (s : rst) : Prop := exists lm, w_maps (r_w s) !! mid = Some lm /\ same_obj map lm.

Lemma present_frame A s s' : present s -> frame A (r_w s) (r_w s') -> present s'.
Proof. intros (lm & Hl & Hs) [_ Hp]. destruct (Hp mid lm Hl) as (lm' & Hl' & Hs'). exists lm'. eauto with benign. Qed.

Definition word_of (e : rela) : Z := u64 (l_addr map + r_offset e).

Lemma l_addr_same m m' : same_obj m m' -> l_addr m' = l_addr m.
Proof. intros [H _ _]. unfold l_addr. by rewrite H. Qed.
Lemma extent_same m m' e b : same_obj m m' -> extent m' e b <-> extent m e b.
Proof. intros H. unfold extent. rewrite (l_addr_same _ _ H). unfold l_symtab. by rewrite (so_dyn _ _ H). Qed.

Lemma rela_frame skip e v s s' : present s ->
  on_w (machine_rela E mid scope e (SymAt mid (r_sym e)) v (word_of e) skip) s = Ret tt s' ->
  frame (extent map e) (r_w s) (r_w s') /\ r_calls s' = r_calls s /\
  (mask_reloc e -> 0 <= mask_value E map (r_type e) < 2 ^ 64 ->
   load 8 (word_of e) (w_mem (r_w s')) = Ok (mask_value E map (r_type e))).
Proof.
  intros (lm & Hl & Hs) H. unfold on_w, word_of in H.
  assert (Hfr := frame_rela E (extent map e) (fun n w => frame_mono _ _ _ _ (fun b H => False_ind _ H) (interfere_frame n w))
    (fun m w => frame_mono _ _ _ _ (fun b H => False_ind _ H) (init_frame m w)) mid scope e v skip (r_w s) lm Hl
    (fun b => proj1 (extent_same map lm e b Hs))).
  rewrite (l_addr_same _ _ Hs) in Hfr.
  destruct (machine_rela _ _ _ _ _ _ _ _ (r_w s)) as [[] w'| | | |] eqn:Hrun; try done. injection H as <-. cbn [r_w set_w r_calls].
  split; [done|]. split; [done|]. intros Hm Hv.
  assert (Hmv : mask_value E lm (r_type e) = mask_value E map (r_type e)).
  { unfold mask_value, or_mask_of, and_mask_of. by rewrite (so_segs _ _ Hs). }
  rewrite <- Hmv in *. by eapply rela_sets_mask.
Qed.

(** One word is stored, and it is the word of an entry that is no copy. *)
Lemma word_frame e m s s' : r_type e <> R_X86_64_COPY ->
  (forall A : Z -> Prop, (forall b, word_of e <= b < word_of e + 8 -> A b) -> stable (frame A) m) ->
  on_w m s = Ret tt s' -> frame (extent map e) (r_w s) (r_w s') /\ r_calls s' = r_calls s.
Proof.
  intros Hc Hm H. unfold on_w in H.
  assert (Hst : stable (frame (extent map e)) m).
  { apply Hm. intros b Hb. unfold extent. rewrite (proj2 (Z.eqb_neq _ _) Hc). unfold rela_size.
    rewrite (proj2 (Z.eqb_neq _ _) Hc). unfold word_of in Hb. destruct (_ =? _); lia. }
  specialize (Hst (r_w s)). destruct (m (r_w s)) as [[] w'| | | |]; try done. by injection H as <-.
Qed.

(** An entry of the PLT, made ready for lazy binding; masks are refused. *)
Lemma lazy_frame skip e s s' : present s -> elf_machine_lazy_rel E mid scope (l_addr map) e skip s = Ret tt s' ->
  frame (extent map e) (r_w s) (r_w s') /\ r_calls s' = r_calls s /\ ~ mask_reloc e.
Proof.
  intros Hp H. pose proof Hp as (lm & Hl & _). unfold elf_machine_lazy_rel in H.
  rewrite (M_bind_step _ _ _ lm s) in H by (by apply on_w_get_map). fold (word_of e) in H.
  assert (Hw : forall v (A : Z -> Prop), (forall b, word_of e <= b < word_of e + 8 -> A b) ->
    stable (frame A) (mem_store 8 (word_of e) v)) by (intros v A HA; apply frame_store; exact HA).
  destruct (Z.eqb_spec (r_type e) R_X86_64_JUMP_SLOT) as [Ht|_].
  { rewrite (M_bind_step _ _ _ (r_mach s) s) in H by done. destruct (default (0, 0) (r_mach s !! mid)) as [plt gotplt].
    split_and!; [| |unfold mask_reloc; rewrite Ht; by intros []].
    all: destruct (plt =? 0); eapply (word_frame e) in H; [by apply H|by rewrite Ht| |by apply H|by rewrite Ht|by apply Hw].
    all: intros A HA; unfold add_word; stable_auto; by apply Hw. }
  destruct (Z.eqb_spec (r_type e) R_X86_64_TLSDESC) as [Ht|_].
  { apply M_bind_Ret_inv in H as (v & s1 & H1 & H). apply lift_Ret_inv in H1 as [_ ->].
    destruct (rela_frame skip e v s s' Hp H) as (Hf & Hc & _). split_and!; [done|done|].
    unfold mask_reloc. rewrite Ht. by intros []. }
  destruct (Z.eqb_spec (r_type e) R_X86_64_IRELATIVE) as [Ht|_].
  { eapply (word_frame e) in H as [Hf Hc]; [|by rewrite Ht|by apply Hw]. split_and!; [done|done|].
    unfold mask_reloc. rewrite Ht. by intros []. }
  by unfold on_w, _dl_reloc_bad_type in H.
Qed.

(** One entry, processed at once or lazily. *)
Lemma process_frame lz skip e s s' : present s -> process E mid scope map lz skip e s = Ret tt s' ->
  frame (extent map e) (r_w s) (r_w s') /\ r_calls s' = r_calls s /\
  (mask_reloc e -> 0 <= mask_value E map (r_type e) < 2 ^ 64 ->
   load 8 (word_of e) (w_mem (r_w s')) = Ok (mask_value E map (r_type e))).
Proof.
  intros Hp H. unfold process in H. destruct lz.
  - destruct (lazy_frame skip e s s' Hp H) as (Hf & Hc & Hm). done.
  - apply M_bind_Ret_inv in H as (v & s1 & H1 & H). apply lift_Ret_inv in H1 as [_ ->]. by apply (rela_frame skip e v).
Qed.

(** A word that the entries behind do not touch. *)
Definition untouched (a : Z) (e : rela) : Prop := forall b, a <= b < a + 8 -> ~ extent map e b.

Lemma process_keeps lz skip e s s' a x : present s -> process E mid scope map lz skip e s = Ret tt s' -> untouched a e ->
  load 8 a (w_mem (r_w s)) = Ok x -> load 8 a (w_mem (r_w s')) = Ok x.
Proof.
  intros Hp H Hu Hx. destruct (process_frame lz skip e s s' Hp H) as ([Hm _] & _ & _). rewrite <- Hx. apply load_other.
  intros b Hb. by apply Hm, Hu.
Qed.

(** After all entries, the word of a mask relocation that no other entry touches holds the mask. *)
Lemma entries_present lz skip es : forall s s', present s -> seqM (process E mid scope map lz skip) es s = Ret tt s' ->
  present s' /\ r_calls s' = r_calls s /\
  (forall a x, (forall e, e ∈ es -> untouched a e) -> load 8 a (w_mem (r_w s)) = Ok x -> load 8 a (w_mem (r_w s')) = Ok x).
Proof.
  induction es as [|e es IH]; intros s s' Hp H; cbn [seqM] in H.
  - injection H as <-. done.
  - apply M_bind_Ret_inv in H as ([] & s1 & H1 & H). destruct (process_frame lz skip e s s1 Hp H1) as (Hf & Hc & _).
    pose proof (present_frame _ _ _ Hp Hf) as Hp1. destruct (IH s1 s' Hp1 H) as (Hp2 & Hc2 & Hk2).
    split; [done|]. split; [congruence|]. intros a x Hu Hx. apply Hk2; [intros e' He'; apply Hu; by right|].
    apply (process_keeps lz skip e s s1 a x Hp H1); [apply Hu; by left|done].
Qed.

Lemma entries_mask lz skip es s s' o : present s -> seqM (process E mid scope map lz skip) es s = Ret tt s' ->
  o ∈ es -> mask_reloc o -> 0 <= mask_value E map (r_type o) < 2 ^ 64 ->
  (forall e, e ∈ es -> e = o \/ untouched (word_of o) e) ->
  load 8 (word_of o) (w_mem (r_w s')) = Ok (mask_value E map (r_type o)).
Proof.
  revert s. induction es as [|e es IH]; intros s Hp H Ho Hm Hv Hu; [by apply elem_of_nil in Ho|]. cbn [seqM] in H.
  apply M_bind_Ret_inv in H as ([] & s1 & H1 & H). destruct (process_frame lz skip e s s1 Hp H1) as (Hf & _ & Hset).
  pose proof (present_frame _ _ _ Hp Hf) as Hp1.
  destruct (decide (o ∈ es)) as [Hin|Hnin].
  - apply (IH s1); try done. intros e' He'. apply Hu. by right.
  - apply elem_of_cons in Ho as [->|]; [|done]. destruct (entries_present lz skip es s1 s' Hp1 H) as (_ & _ & Hk).
    apply Hk; [|by apply Hset]. intros e' He'. destruct (Hu e') as [->|]; [by right|done|done].
Qed.

Lemma process_same lz skip e lm : same_obj map lm ->
  process E mid scope lm lz skip e = process E mid scope map lz skip e.
Proof. intros H. unfold process, version_of, l_versyms, l_versions. by rewrite (so_dyn _ _ H), (l_addr_same _ _ H). Qed.
Lemma seqM_ext {S A} (f g : A -> M S unit) l s : (forall x, f x = g x) -> seqM f l s = seqM g l s.
Proof. intros H. revert s. induction l as [|x l IH]; intros s; [done|]. cbn [seqM]. rewrite H. apply M_bind_ext. intros _ s'. apply IH. Qed.

(** Steps that keep the object and make no system call. *)
Definition calm {A} (m : M rst A) : Prop := forall s a s', m s = Ret a s' -> present s -> present s' /\ r_calls s' = r_calls s.
Lemma calm_on_w {A} (m : M world A) : stable (frame (fun _ => True)) m -> calm (on_w m).
Proof.
  intros Hm s a s' H Hp. unfold on_w in H. specialize (Hm (r_w s)). destruct (m (r_w s)) as [x w| | | |]; try done.
  injection H as <- <-. split; [|done]. by apply (present_frame (fun _ => True) s).
Qed.
Lemma calm_bind {A B} (m : M rst A) (k : A -> M rst B) : calm m -> (forall a, calm (k a)) -> calm (m ≫= k).
Proof.
  intros Hm Hk s b s' H Hp. apply M_bind_Ret_inv in H as (a & s1 & H1 & H). destruct (Hm _ _ _ H1 Hp) as [Hp1 Hc1].
  destruct (Hk a _ _ _ H Hp1) as [Hp2 Hc2]. split; [done|congruence].
Qed.
Lemma calm_ret {A} (a : A) : calm (mret a).
Proof. intros s x s' H Hp. by injection H as <- <-. Qed.
Lemma calm_seqM {A} (f : A -> M rst unit) l : (forall x, calm (f x)) -> calm (seqM f l).
Proof. intros Hf. induction l as [|x l IH]; cbn [seqM]; [apply calm_ret|]. by apply calm_bind. Qed.

Lemma store_any n a v : stable (frame (fun _ => True)) (mem_store n a v).
Proof. by apply frame_store. Qed.
Hint Resolve store_any : stable.
Lemma add_word_any a v : stable (frame (fun _ => True)) (add_word a v).
Proof. unfold add_word. stable_auto. Qed.
Hint Resolve add_word_any : stable.
Lemma relr_bits_any n : forall e a i la, stable (frame (fun _ => True)) (relr_bits n e a i la).
Proof. induction n; intros; cbn [relr_bits]; stable_auto; auto. Qed.
Hint Resolve relr_bits_any : stable.
Lemma do_relr_any la r : forall wh, stable (frame (fun _ => True)) (do_relr la r wh).
Proof. induction r; intros wh; cbn [do_relr]; stable_auto; auto. Qed.
Lemma relative_any la e a : stable (frame (fun _ => True)) (elf_machine_rela_relative la e a).
Proof. unfold elf_machine_rela_relative. stable_auto. Qed.

(** A range and the entries it holds. *)
Record range_table (rg : range) (rels es : list rela) : Prop := {
  rt_nrel : rg_nrelative rg = Z.of_nat (length rels);
  rt_size : rg_size rg = SIZEOF_RELA * Z.of_nat (length (rels ++ es));
  rt_table : rela_table E (rg_start rg) (rels ++ es) }.

(** The entries in the order in which they are processed. *)
Definition ordered (es : list rela) : list rela := filter (fun e => ~ irelative e) es ++ filter irelative es.

Lemma elem_of_order es e : e ∈ ordered es <-> e ∈ es.
Proof. unfold ordered. rewrite elem_of_app, !list_elem_of_filter. destruct (decide (irelative e)); naive_solver. Qed.

Lemma do_rela_run rg rels es skip s s' : range_table rg rels es -> present s ->
  elf_dynamic_do_Rela E mid scope rg skip s = Ret tt s' ->
  exists s1, present s1 /\ r_calls s1 = r_calls s /\ (rels = [] -> s1 = s) /\
    seqM (process E mid scope map (rg_lazy rg) skip) (ordered es) s1 = Ret tt s'.
Proof.
  intros [Hn Hsz Ht] Hp H. destruct Hp as (lm & Hl & Hs). destruct rg as [st sz n lz]. cbn in *. subst.
  rewrite (do_rela_order E mid scope lm) in H by done. apply M_bind_Ret_inv in H as ([] & s1 & H1 & H).
  assert (Hp : present s) by (by exists lm).
  assert (present s1 /\ r_calls s1 = r_calls s) as [Hp1 Hc1].
  { destruct (negb lz && _); cbn [when] in H1; [|by injection H1 as <-].
    eapply calm_seqM; [|exact H1|done]. intros e. apply calm_on_w, relative_any. }
  exists s1. split; [done|]. split; [done|]. split.
  - intros ->. destruct (negb lz && _); cbn in H1; by injection H1.
  - rewrite <- H. symmetry. apply seqM_ext. intros e. by apply process_same.
Qed.

Lemma calm_modify f : (forall s, r_w (f s) = r_w s) -> (forall s, r_calls (f s) = r_calls s) -> calm (modify f).
Proof. intros Hw Hc s a s' H (lm & Hl & Hs). injection H as _ <-. split; [|apply Hc]. exists lm. by rewrite Hw. Qed.
Lemma calm_lift {A} (r : res A) : calm (lift r).
Proof. intros s a s' H Hp. by apply lift_Ret_inv in H as [_ ->]. Qed.
Lemma calm_when (b : bool) (m : M rst unit) : calm m -> calm (when b m).
Proof. destruct b; cbn [when]; [done|intros _; apply calm_ret]. Qed.

(** The words of the GOT that lazy binding goes through. *)
Lemma runtime_setup_run lz s b s' : present s -> elf_machine_runtime_setup E mid lz s = Ret b s' ->
  b = lz /\ present s' /\ r_calls s' = r_calls s.
Proof.
  intros Hp H. unfold elf_machine_runtime_setup in H. apply M_bind_Ret_inv in H as (lm & s1 & Hm & H).
  destruct (calm_on_w _ (stable_get_map _ mid) _ _ _ Hm Hp) as [Hp1 Hc1].
  apply M_bind_Ret_inv in H as ([] & s2 & Hw & H). injection H as <- <-. split; [done|]. rewrite <- Hc1.
  revert Hw Hp1. apply (calm_when _ _). apply calm_bind; [apply calm_lift|intros got].
  apply calm_bind; [apply calm_on_w; unfold mem_load; stable_auto|intros got1].
  apply calm_bind; [apply calm_when, calm_modify; done|intros _].
  apply calm_bind; [|intros _]; apply calm_on_w, store_any.
Qed.

(** The relocation proper: the entries of DT_RELA at once, those of the PLT as the binding asks for. *)
Lemma dynamic_relocate_run lz skip rg0 rg1 rels es0 es1 s s' :
  e_plt_rewrite E = plt_rewrite_none -> rela_ranges (e_info E mid) lz = Ok (rg0, rg1) ->
  range_table rg0 rels es0 -> range_table rg1 [] es1 -> present s ->
  ELF_DYNAMIC_RELOCATE E mid scope lz skip s = Ret tt s' ->
  exists s1 s2, present s1 /\ r_calls s1 = r_calls s /\
    seqM (process E mid scope map (rg_lazy rg0) skip) (ordered es0) s1 = Ret tt s2 /\
    seqM (process E mid scope map (rg_lazy rg1) skip) (ordered es1) s2 = Ret tt s'.
Proof.
  intros Hplt Hrg H0 H1 Hp H. unfold ELF_DYNAMIC_RELOCATE in H.
  apply M_bind_Ret_inv in H as (b & s0 & Hset & H).
  destruct (runtime_setup_run _ _ _ _ Hp Hset) as (-> & Hp0 & Hc0).
  apply M_bind_Ret_inv in H as (lm & s1 & Hm & H).
  destruct (calm_on_w _ (stable_get_map _ mid) _ _ _ Hm Hp0) as [Hp1 Hc1].
  apply M_bind_Ret_inv in H as ([] & s2 & Hr & H).
  assert (present s2 /\ r_calls s2 = r_calls s1) as [Hp2 Hc2].
  { revert Hr Hp1. apply calm_when, calm_on_w. destruct (d_relr _); [apply do_relr_any|apply stable_ret; exact _]. }
  rewrite Hrg in H. rewrite (M_bind_step _ _ _ (rg0, rg1) s2) in H by done.
  apply M_bind_Ret_inv in H as ([] & s3 & Hd0 & H). apply M_bind_Ret_inv in H as ([] & s4 & Hd1 & H).
  destruct (do_rela_run rg0 rels es0 skip s2 s3 H0 Hp2 Hd0) as (s5 & Hp5 & Hc5 & _ & Hrun0).
  destruct (entries_present _ skip _ _ _ Hp5 Hrun0) as (Hp3 & _ & _).
  destruct (do_rela_run rg1 [] es1 skip s3 s4 H1 Hp3 Hd1) as (s6 & Hp6 & _ & Heq & Hrun1). rewrite Heq in Hrun1 by done.
  exists s5, s3. split; [done|]. split; [congruence|]. split; [done|]. rewrite Hrun1. f_equal.
  unfold x86_64_dynamic_after_reloc in H. apply M_bind_Ret_inv in H as (lm' & s7 & Hm' & H).
  rewrite Hplt in H. rewrite bool_decide_true in H by done. rewrite orb_true_r in H. cbn in H. injection H as <-.
  unfold on_w, get_map in Hm'. destruct (w_maps (r_w s4) !! mid); [|done]. injection Hm' as _ <-. by rewrite set_w_same.
Qed.
End Object.

(** ** Protections *)

(** The segments that are not writable: where they lie and how they are protected. *)
Definition ro_segments (E : env) (la : Z) (phs : list phdr) : list (Z * Z * Z) :=
  (fun ph => (u64 (ALIGN_DOWN (p_vaddr ph) (e_pagesize E) + la),
              u64 (ALIGN_UP (u64 (p_vaddr ph + p_memsz ph)) (e_pagesize E) - ALIGN_DOWN (p_vaddr ph) (e_pagesize E)),
              prot_of (p_flags ph))) <$>
  filter (fun ph => p_type ph = PT_LOAD /\ Z.land (p_flags ph) PF_W = 0) phs.
Definition writable (c : Z * Z * Z) : Z * Z * Z := (c.1, Z.lor c.2 PROT_WRITE).

(** The part of the object that is made read-only for good. *)
Definition relro (E : env) (map : link_map) : list (Z * Z * Z) :=
  let g := l_segs map in
  let start := ALIGN_DOWN (u64 (l_addr map + sg_relro_addr g)) (e_pagesize E) in
  let end_ := ALIGN_DOWN (u64 (l_addr map + sg_relro_addr g + sg_relro_size g)) (e_pagesize E) in
  if (sg_relro_size g =? 0) || (start =? end_) then [] else [(start, u64 (end_ - start), PROT_READ)].

Lemma mprotect_run E a l p s : mprotect E a l p s = Ret (e_mprotect_ok E (r_calls s ++ [(a, l, p)])) (add_call (a, l, p) s).
Proof. done. Qed.

Lemma make_writable_run E map phs : forall acc s tr s', make_writable E map phs acc s = Ret tr s' ->
  r_w s' = r_w s /\ tr = reverse (ro_segments E (l_addr map) phs) ++ acc /\
  r_calls s' = r_calls s ++ (writable <$> ro_segments E (l_addr map) phs).
Proof.
  induction phs as [|ph phs IH]; intros acc s tr s' H; cbn [make_writable] in H.
  - injection H as <- <-. by rewrite app_nil_r.
  - unfold ro_segments in *. rewrite filter_cons.
    destruct ((p_type ph =? PT_LOAD) && (Z.land (p_flags ph) PF_W =? 0)) eqn:Hc.
    + zbool. rewrite decide_True by done. rewrite (M_bind_step _ _ _ _ _ (mprotect_run _ _ _ _ _)) in H.
      destruct (e_mprotect_ok _ _); [|done]. destruct (IH _ _ _ _ H) as (Hw & -> & Hcalls). split; [done|].
      cbn [fmap list_fmap]. rewrite reverse_cons, <- app_assoc. split; [done|].
      rewrite Hcalls. cbn [add_call r_calls]. by rewrite <- app_assoc.
    + rewrite decide_False; [by apply IH|]. intros [H1 H2]. rewrite H1, H2 in Hc. done.
Qed.

Lemma restore_run E map tr : forall s s', restore E map tr s = Ret tt s' -> r_w s' = r_w s /\ r_calls s' = r_calls s ++ tr.
Proof.
  induction tr as [|[[a l] p] tr IH]; intros s s' H; cbn [restore] in H.
  - injection H as <-. by rewrite app_nil_r.
  - rewrite (M_bind_step _ _ _ _ _ (mprotect_run _ _ _ _ _)) in H. destruct (e_mprotect_ok _ _); [|done].
    destruct (IH _ _ H) as (Hw & ->). split; [done|]. cbn. by rewrite <- app_assoc.
Qed.

Lemma protect_relro_run E mid map s s' : w_maps (r_w s) !! mid = Some map -> _dl_protect_relro E mid s = Ret tt s' ->
  r_w s' = r_w s /\ r_calls s' = r_calls s ++ relro E map.
Proof.
  intros Hm H. unfold _dl_protect_relro in H. rewrite (M_bind_step _ _ _ map s) in H by (by apply on_w_get_map). unfold relro.
  destruct (sg_relro_size (l_segs map) =? 0); cbn [orb]; [injection H as <-; by rewrite app_nil_r|].
  destruct (_ =? _); [injection H as <-; by rewrite app_nil_r|].
  rewrite (M_bind_step _ _ _ _ _ (mprotect_run _ _ _ _ _)) in H. destruct (e_mprotect_ok _ _); [|done]. by injection H as <-.
Qed.

(** ** The whole relocation of an object *)

(** Is the PLT bound lazily? *)
Definition lazily (mode : Z) (map : link_map) : bool :=
  negb (Z.land mode RTLD_LAZY =? 0) && negb (sg_bind_now (l_segs map)).

Section Whole.
Context (E : env) (mid : mapid) (scope : list (list mapid)) (map : link_map) (mode : Z).
Hypothesis interfere_frame : forall n w, frame (fun _ => False) w (e_interfere E n w).
Hypothesis init_frame : forall m w, frame (fun _ => False) w (e_init_static_tls E m w).
Hypothesis no_plt_rewrite : e_plt_rewrite E = plt_rewrite_none.
(** The relocation sections of the object. *)
Context (rg0 rg1 : range) (rels es0 es1 : list rela).
Hypothesis Hranges : rela_ranges (e_info E mid) (lazily mode map) = Ok (rg0, rg1).
Hypothesis Htab0 : range_table E rg0 rels es0.
Hypothesis Htab1 : range_table E rg1 [] es1.

Lemma relocate_object_run s s' :
  w_maps (r_w s) !! mid = Some map -> l_relocated map = false ->
  _dl_relocate_object E mid scope mode s = Ret tt s' ->
  let segs := if d_textrel (e_info E mid) then ro_segments E (l_addr map) (l_phdr (e_info E mid)) else [] in
  exists skip s1 s2 s3 lm, present mid map s1 /\
    seqM (process E mid scope map (rg_lazy rg0) skip) (ordered es0) s1 = Ret tt s2 /\
    seqM (process E mid scope map (rg_lazy rg1) skip) (ordered es1) s2 = Ret tt s3 /\
    w_mem (r_w s') = w_mem (r_w s3) /\ w_maps (r_w s') !! mid = Some (set_relocated true lm) /\ same_obj map lm /\
    r_calls s' = r_calls s ++ (writable <$> segs) ++ reverse segs ++ relro E map.
Proof.
  intros Hm Hrel H segs. unfold _dl_relocate_object in H.
  rewrite (M_bind_step _ _ _ map s) in H by (by apply on_w_get_map). rewrite Hrel in H.
  apply M_bind_Ret_inv in H as ([] & s5 & H & Hprot). unfold _dl_relocate_object_no_relro in H.
  rewrite (M_bind_step _ _ _ map s) in H by (by apply on_w_get_map).
  apply M_bind_Ret_inv in H as (tr & s0 & Htr & H).
  assert (Hseg : r_w s0 = r_w s /\ tr = reverse segs /\ r_calls s0 = r_calls s ++ (writable <$> segs)).
  { unfold segs. destruct (d_textrel _); [|injection Htr as <- <-; by rewrite app_nil_r].
    destruct (make_writable_run _ _ _ _ _ _ _ Htr) as (? & -> & ?). by rewrite app_nil_r. }
  destruct Hseg as (Hw0 & -> & Hc0). apply M_bind_Ret_inv in H as ([] & s3 & Hdyn & H).
  assert (Hp0 : present mid map s0) by (exists map; rewrite Hw0; by split).
  destruct (dynamic_relocate_run E mid scope map interfere_frame init_frame _ _ _ _ _ _ _ _ _
    no_plt_rewrite Hranges Htab0 Htab1 Hp0 Hdyn) as (s1 & s2 & Hp1 & Hc1 & Hrun0 & Hrun1).
  destruct (entries_present E mid scope map interfere_frame init_frame _ _ _ _ _ Hp1 Hrun0) as (Hp2 & Hc2 & _).
  destruct (entries_present E mid scope map interfere_frame init_frame _ _ _ _ _ Hp2 Hrun1) as ((lm & Hlm & Hso) & Hc3 & _).
  apply M_bind_Ret_inv in H as ([] & s4 & Hset & H). injection Hset as <-.
  destruct (restore_run _ _ _ _ _ H) as (Hw5 & Hc5).
  assert (Hlm5 : w_maps (r_w s5) !! mid = Some (set_relocated true lm)).
  { rewrite Hw5. cbn [r_w set_w]. rewrite with_map_maps, lookup_alter_eq, Hlm. done. }
  destruct (protect_relro_run _ _ _ _ _ Hlm5 Hprot) as (Hw' & Hc').
  assert (Hso' : same_obj map (set_relocated true lm)).
  { destruct Hso as [A B C]. destruct lm as [? ? ? [] ? ? ?]. split; [exact A|exact B|exact C]. }
  exists (negb (Z.land mode RTLD_NOIFUNC =? 0)), s1, s2, s3, lm. split; [done|]. split; [exact Hrun0|].
  split; [exact Hrun1|]. split; [|split; [by rewrite Hw'|split; [done|]]].
  - rewrite Hw', Hw5. cbn [r_w set_w]. by destruct (r_w s3).
  - rewrite Hc', Hc5. cbn [r_calls set_w]. rewrite Hc3, Hc2, Hc1, Hc0, <- !app_assoc. f_equal. f_equal. f_equal.
    unfold relro. by rewrite (so_segs _ _ Hso'), (l_addr_same _ _ Hso').
Qed.

(** The word of a mask relocation in either section, when both sections have been processed. *)
Lemma sections_mask lz0 lz1 skip s1 s2 s3 o : present mid map s1 ->
  seqM (process E mid scope map lz0 skip) (ordered es0) s1 = Ret tt s2 ->
  seqM (process E mid scope map lz1 skip) (ordered es1) s2 = Ret tt s3 ->
  o ∈ es0 ++ es1 -> mask_reloc o -> 0 <= mask_value E map (r_type o) < 2 ^ 64 ->
  (forall e, e ∈ es0 ++ es1 -> e = o \/ untouched map (word_of map o) e) ->
  load 8 (word_of map o) (w_mem (r_w s3)) = Ok (mask_value E map (r_type o)).
Proof using interfere_frame init_frame.
  intros Hp H0 H1 Ho Hm Hv Hu.
  destruct (entries_present E mid scope map interfere_frame init_frame _ _ _ _ _ Hp H0) as (Hp2 & _ & _).
  destruct (decide (o ∈ es1)) as [Hin|Hnin].
  - apply (entries_mask E mid scope map interfere_frame init_frame lz1 skip (ordered es1) s2 s3 o Hp2 H1); try done.
    + by rewrite elem_of_order.
    + intros e He. rewrite elem_of_order in He. apply Hu, elem_of_app. by right.
  - assert (o ∈ es0) as Ho0 by (by apply elem_of_app in Ho as [|]).
    destruct (entries_present E mid scope map interfere_frame init_frame _ _ _ _ _ Hp2 H1) as (_ & _ & Hk). apply Hk.
    + intros e He. rewrite elem_of_order in He. destruct (Hu e) as [->|Hn]; [apply elem_of_app; by right|by destruct Hnin|done].
    + apply (entries_mask E mid scope map interfere_frame init_frame lz0 skip (ordered es0) s1 s2 o Hp H0); try done.
      * by rewrite elem_of_order.
      * intros e He. rewrite elem_of_order in He. apply Hu, elem_of_app. by left.
Qed.

(** C7. End to end: let an object of the mitigation ([to_mitigate] set) have been placed by
    [place] (code of whole pages, a base between 2^33 and 2^64), let its relocation
    sections contain one ORMASK and one ANDMASK entry whose words no other entry of the
    sections writes, let PLT rewriting (a tunable that is off by default) be off, and let neither other threads
    nor the initialisation of static TLS write to the object.  When [_dl_relocate_object]
    returns, whether the PLT was bound lazily or at once, the two mask words hold the masks
    of the object, so that every instrumented call it makes from then on ends in its own
    window, whatever the target.  (A mask entry among the PLT relocations is refused under lazy binding.) *)
Theorem relocated_object_confined s s' o a pl target size :
  w_maps (r_w s) !! mid = Some map -> l_relocated map = false ->
  e_to_mitigate E = true -> code_size size -> 2 ^ 33 <= target < 2 ^ 64 -> place target size = Ok pl ->
  sg_exec_start (l_segs map) = l_exec_start pl -> sg_exec_end (l_segs map) = l_exec_end pl ->
  o ∈ es0 ++ es1 -> r_type o = R_X86_64_ORMASK -> a ∈ es0 ++ es1 -> r_type a = R_X86_64_ANDMASK ->
  (forall e, e ∈ es0 ++ es1 -> (e = o \/ untouched map (word_of map o) e) /\ (e = a \/ untouched map (word_of map a) e)) ->
  _dl_relocate_object E mid scope mode s = Ret tt s' ->
  exists or_mask and_mask,
    load 8 (word_of map o) (w_mem (r_w s')) = Ok or_mask /\ load 8 (word_of map a) (w_mem (r_w s')) = Ok and_mask /\
    forall t, l_exec_start pl <= masked or_mask and_mask t <= l_exec_end pl.
Proof.
  intros Hm Hrel Hmit Hcs Ht Hpl H1 H2 Ho Hor Ha Hand Hu H.
  destruct (relocate_object_run s s' Hm Hrel H) as (skip & s1 & s2 & s3 & lm & Hp1 & Hrun0 & Hrun1 & Hmem & _).
  destruct (place_spec target size Hcs Ht) as (top & Hp & _ & Hk & Hr & Hs & Htop). rewrite Hpl in Hp. injection Hp as ->.
  cbn [l_exec_start l_exec_end] in *.
  assert (Hb : 2 ^ bitlen (size - 1) <= 2 ^ 32).
  { unfold code_size in Hcs. apply Z.pow_le_mono_r; [lia|]. apply bitlen_le; lia. }
  assert (0 < 2 ^ bitlen (size - 1)) by (apply Z.pow_pos_nonneg; [lia|apply bitlen_nonneg]).
  rewrite Hmem. eexists _, _. split; [|split].
  - apply (sections_mask _ _ skip s1 s2 s3 o Hp1 Hrun0 Hrun1 Ho); [by left| |].
    + unfold mask_value, or_mask_of. rewrite Hor, Hmit. cbn. rewrite H1. lia.
    + intros e He. apply Hu, He.
  - apply (sections_mask _ _ skip s1 s2 s3 a Hp1 Hrun0 Hrun1 Ha); [by right| |].
    + unfold mask_value, and_mask_of. rewrite Hand, Hmit. cbn. rewrite H2. lia.
    + intros e He. apply Hu, He.
  - unfold mask_value, or_mask_of, and_mask_of. rewrite Hor, Hand, Hmit. cbn. rewrite H1, H2. intros t.
    apply masked_window; [apply bitlen_nonneg|done].
Qed.

(** The protections of the segments: relocating an object with text relocations makes
    its read-only segments writable, gives each of them its own protection back, the last
    one first, and then protects the RELRO region; no other protection is changed.
    The object is marked, and a second relocation does nothing. *)
Theorem relocation_protections s s' :
  w_maps (r_w s) !! mid = Some map -> l_relocated map = false ->
  _dl_relocate_object E mid scope mode s = Ret tt s' ->
  let segs := if d_textrel (e_info E mid) then ro_segments E (l_addr map) (l_phdr (e_info E mid)) else [] in
  r_calls s' = r_calls s ++ (writable <$> segs) ++ reverse segs ++ relro E map /\
  forall scope' mode', _dl_relocate_object E mid scope' mode' s' = Ret tt s'.
Proof.
  intros Hm Hrel H segs. destruct (relocate_object_run s s' Hm Hrel H)
    as (skip & s1 & s2 & s3 & lm & _ & _ & _ & _ & Hlm & _ & Hc).
  split; [exact Hc|]. intros scope' mode'. unfold _dl_relocate_object.
  rewrite (M_bind_step _ _ _ (set_relocated true lm) s') by (by apply on_w_get_map).
  by destruct lm as [? ? ? [] ? ? ?].
Qed.
End Whole.

(** Entries that write one word do not touch another word. *)
Lemma untouched_word map a e : r_type e <> R_X86_64_TLSDESC -> r_type e <> R_X86_64_COPY ->
  a + 8 <= word_of map e \/ word_of map e + 8 <= a -> untouched map a e.
Proof.
  intros H1 H2 Ha b Hb Hr. unfold extent, rela_size in Hr.
  rewrite (proj2 (Z.eqb_neq _ _) H1), (proj2 (Z.eqb_neq _ _) H2) in Hr. unfold word_of in Ha. lia.
Qed.

(** ** An object with masks, a text relocation segment, and an IFUNC relocation *)
Module Example13.

Definition base : Z := 0x7f1224558000.
Definition nul : string := String (Ascii.ascii_of_nat 0) EmptyString.
Definition obj : link_map :=
  mkMap (mkIdent "libm.so" base 3 0 lt_library 1 false false false)
    (mkDyn [mkSym 0 0 0 0 0 0; mkSym 1 1 0 7 0x100 8; mkSym 9 1 0 7 0x108 8]
       (nul +:+ "or_mask" +:+ nul +:+ "and_mask" +:+ nul) no_hash None [] None None None None None)
    (mkDeps None None 0 [] []) (mkState false false false false false false false false 0 0)
    (mkCache None 0 None None) no_tls (mkSegs 0x7f1224558000 0x7f122455ffff 0x9000 0x1000 true None None).

(** Two relative relocations, one of them counted by DT_RELACOUNT, the masks, an IFUNC; the last
    entry is the PLT's. *)
Definition table : list rela :=
  [mkRela 0x9010 R_X86_64_RELATIVE 0 0x123; mkRela 0x9020 R_X86_64_IRELATIVE 0 0x40;
   mkRela 0x9000 R_X86_64_ORMASK 1 0; mkRela 0x9008 R_X86_64_ANDMASK 2 0; mkRela 0x9018 R_X86_64_RELATIVE 0 0x456].
Definition rela_at (a : Z) : res rela :=
  if (a - 0x1000) mod 24 =? 0 then rd table ((a - 0x1000) / 24) else Undef.
Definition info : relinfo :=
  mkRelinfo (Some [0x9028; 3]) (Some 0x1000) (Some 96) (Some 1) true (Some 0x1060) (Some 24) None None None None true
    [mkPhdr PT_LOAD (Z.lor PF_R PF_X) 0 0x8000; mkPhdr PT_LOAD (Z.lor PF_R PF_W) 0x9000 0x2000].
Definition E : env :=
  mkEnv (fun _ w => w) 0 (fun v => v + 1) 64 (fun _ w => w) (1, 2, 3) (fun _ _ => 0) true (fun _ => info) rela_at
    (fun _ => true) 9 (fun m => 0x5550000 + Z.of_nat m) 0x7777 4096 false plt_rewrite_none "prog".
Definition mem : gmap Z Z := list_to_map ((fun n => (base + 0x9000 + Z.of_nat n, 0)) <$> seq 0 64).
Definition s0 : rst :=
  mkR (mkWorld {[3%nat := obj]} [mkNs [3%nat] (mkUtab None 0 0)] init_placeholders 0 0 0 0 mem (mkArea 0 0 0 0)
         (mkConfig false false (fun _ => true) (fun _ => true))) ∅ [].
Definition s1 : rst := match _dl_relocate_object E 3 [[3%nat]] 2 s0 with Ret _ s => s | _ => s0 end.

Lemma run : _dl_relocate_object E 3 [[3%nat]] 2 s0 = Ret tt s1.
Proof. vm_compute. reflexivity. Qed.

Lemma table_at : rela_table E 0x1000 table.
Proof.
  intros i e Hi. unfold E, e_rela_at, rela_at, SIZEOF_RELA.
  replace (0x1000 + 24 * Z.of_nat i - 0x1000) with (Z.of_nat i * 24) by lia.
  rewrite Z.mod_mul, Z.div_mul by lia. cbn [Z.eqb]. by apply rd_nat.
Qed.

Lemma ranges : rela_ranges (e_info E 3) (lazily 2 obj) = Ok (mkRange 0x1000 120 1 false, mkRange 0 0 0 false).
Proof. reflexivity. Qed.
Lemma tab0 : range_table E (mkRange 0x1000 120 1 false) (take 1 table) (drop 1 table).
Proof. split; try reflexivity. rewrite take_drop. exact table_at. Qed.
Lemma tab1 : range_table E (mkRange 0 0 0 false) [] [].
Proof. split; try reflexivity. intros i e Hi. done. Qed.
Lemma no_interference : forall n w, frame (fun _ => False) w (e_interfere E n w).
Proof. intros n w. by apply frame_eq. Qed.
Lemma no_tls_hook : forall m w, frame (fun _ => False) w (e_init_static_tls E m w).
Proof. intros n w. by apply frame_eq. Qed.

(** The same object without DF_BIND_NOW, opened with RTLD_LAZY: the entry of the PLT
    is a jump slot, and the GOT is prepared for the resolver. *)
Definition lobj : link_map :=
  mkMap (l_id obj) (l_dyn obj) (l_deps obj) (l_st obj) (l_lookup_cache obj) (l_tls obj)
    (mkSegs 0x7f1224558000 0x7f122455ffff 0x9000 0x1000 false None None).
Definition ltable : list rela :=
  [mkRela 0x9010 R_X86_64_RELATIVE 0 0x123; mkRela 0x9000 R_X86_64_ORMASK 1 0; mkRela 0x9008 R_X86_64_ANDMASK 2 0;
   mkRela 0x9018 R_X86_64_JUMP_SLOT 1 0].
Definition linfo : relinfo :=
  mkRelinfo None (Some 0x1000) (Some 72) (Some 1) true (Some 0x1048) (Some 24) (Some (base + 0x9020)) None None None false [].
Definition LE : env :=
  mkEnv (fun _ w => w) 0 (fun v => v + 1) 64 (fun _ w => w) (1, 2, 3) (fun _ _ => 0) true (fun _ => linfo)
    (fun a => if (a - 0x1000) mod 24 =? 0 then rd ltable ((a - 0x1000) / 24) else Undef)
    (fun _ => true) 9 (fun m => 0x5550000 + Z.of_nat m) 0x7777 4096 false plt_rewrite_none "prog".
Definition l0 : rst :=
  mkR (mkWorld {[3%nat := lobj]} [mkNs [3%nat] (mkUtab None 0 0)] init_placeholders 0 0 0 0 mem (mkArea 0 0 0 0)
         (mkConfig false false (fun _ => true) (fun _ => true))) ∅ [].
Definition l1 : rst := match _dl_relocate_object LE 3 [[3%nat]] 1 l0 with Ret _ s => s | _ => l0 end.

Lemma lrun : _dl_relocate_object LE 3 [[3%nat]] 1 l0 = Ret tt l1.
Proof. vm_compute. reflexivity. Qed.
(** The resolver has been entered in the GOT: the binding is lazy. *)
Lemma lgot : load 8 (base + 0x9030) (w_mem (r_w l1)) = Ok 0x7777.
Proof. vm_compute. reflexivity. Qed.
Lemma lranges : rela_ranges (e_info LE 3) (lazily 1 lobj) = Ok (mkRange 0x1000 72 1 false, mkRange 0x1048 24 0 true).
Proof. reflexivity. Qed.
Lemma ltable_at : rela_table LE 0x1000 ltable.
Proof.
  intros i e Hi. unfold LE, e_rela_at, SIZEOF_RELA.
  replace (0x1000 + 24 * Z.of_nat i - 0x1000) with (Z.of_nat i * 24) by lia.
  rewrite Z.mod_mul, Z.div_mul by lia. cbn [Z.eqb]. by apply rd_nat.
Qed.
Lemma ltab0 : range_table LE (mkRange 0x1000 72 1 false) (take 1 ltable) (take 2 (drop 1 ltable)).
Proof. split; try reflexivity. intros i e Hi. apply ltable_at. by apply (lookup_app_l_Some _ (drop 3 ltable)) in Hi. Qed.
Lemma ltab1 : range_table LE (mkRange 0x1048 24 0 true) [] (drop 3 ltable).
Proof.
  split; try reflexivity. intros i e Hi. cbn [app rg_start] in *. rewrite lookup_drop in Hi. apply ltable_at in Hi.
  rewrite <- Hi. f_equal. unfold SIZEOF_RELA. lia.
Qed.

Lemma relocated_object_confined_witness :
  (exists or_mask and_mask,
    load 8 (base + 0x9000) (w_mem (r_w s1)) = Ok or_mask /\ load 8 (base + 0x9008) (w_mem (r_w s1)) = Ok and_mask /\
    forall t, 0x7f1224558000 <= masked or_mask and_mask t <= 0x7f122455ffff) /\
  (exists or_mask and_mask,
    load 8 (base + 0x9000) (w_mem (r_w l1)) = Ok or_mask /\ load 8 (base + 0x9008) (w_mem (r_w l1)) = Ok and_mask /\
    forall t, 0x7f1224558000 <= masked or_mask and_mask t <= 0x7f122455ffff).
Proof.
  split.
  - apply (relocated_object_confined E 3 [[3%nat]] obj 2 no_interference no_tls_hook eq_refl _ _ _ _ _ ranges tab0 tab1 s0 s1
      (mkRela 0x9000 R_X86_64_ORMASK 1 0) (mkRela 0x9008 R_X86_64_ANDMASK 2 0)
      (mkPlace 0x7f1224558000 0x7f1224558000 0x7f122455ffff) 0x7f1224560000 0x8000).
    1-3, 6-8, 10, 12: reflexivity.
    1: split; [lia|reflexivity].
    1: lia.
    1,2: cbn; set_solver.
    1: intros e He; cbn in He;
       repeat (apply elem_of_cons in He as [->|He]; [split; (left; reflexivity) || (right; apply untouched_word; vm_compute; intuition congruence)|]);
       by apply elem_of_nil in He.
    exact run.
  - apply (relocated_object_confined LE 3 [[3%nat]] lobj 1 no_interference no_tls_hook eq_refl _ _ _ _ _ lranges ltab0 ltab1 l0 l1
      (mkRela 0x9000 R_X86_64_ORMASK 1 0) (mkRela 0x9008 R_X86_64_ANDMASK 2 0)
      (mkPlace 0x7f1224558000 0x7f1224558000 0x7f122455ffff) 0x7f1224560000 0x8000).
    1-3, 6-8, 10, 12: reflexivity.
    1: split; [lia|reflexivity].
    1: lia.
    1,2: cbn; set_solver.
    1: intros e He; cbn in He;
       repeat (apply elem_of_cons in He as [->|He]; [split; (left; reflexivity) || (right; apply untouched_word; vm_compute; intuition congruence)|]);
       by apply elem_of_nil in He.
    exact lrun.
Defined.

Lemma relocation_protections_witness :
  r_calls s1 = [(base, 0x8000, 7); (base, 0x8000, 5); (base + 0x9000, 0x1000, 1)] /\
  _dl_relocate_object E 3 [] 1 s1 = Ret tt s1.
Proof.
  destruct (relocation_protections E 3 [[3%nat]] obj 2 no_interference no_tls_hook eq_refl _ _ _ _ _ ranges tab0 tab1 s0 s1)
    as [H1 H2]; [reflexivity|reflexivity|exact run|].
  split; [rewrite H1; reflexivity|apply H2].
Defined.

Lemma mapped_mem n a : base + 0x9000 <= a -> a + Z.of_nat n <= base + 0x9040 -> mapped n a mem.
Proof.
  intros H1 H2 b Hb.
  assert (Hall : forallb (fun n => bool_decide (is_Some (mem !! (base + 0x9000 + Z.of_nat n)))) (seq 0 64) = true)
    by (vm_compute; reflexivity).
  rewrite forallb_forall in Hall. specialize (Hall (Z.to_nat (b - (base + 0x9000)))). rewrite bool_decide_eq_true in Hall.
  replace b with (base + 0x9000 + Z.of_nat (Z.to_nat (b - (base + 0x9000)))) by lia. apply Hall, in_seq. lia.
Qed.

Lemma decoded : relr_decode base [0x9028; 3] 0 = [base + 0x9028; base + 0x9030].
Proof. vm_compute. reflexivity. Qed.

Lemma relr_relocates_witness :
  exists m, do_relr base [0x9028; 3] None (r_w s0) = Ret tt (set_mem m (r_w s0)) /\
    load 8 (base + 0x9028) m = Ok base /\ load 8 (base + 0x9030) m = Ok base.
Proof.
  destruct (relr_relocates base 0x9028 [3] (r_w s0)) as (m & H & Hx & _).
  - reflexivity.
  - repeat constructor; lia.
  - vm_compute. repeat constructor; discriminate.
  - rewrite decoded. repeat constructor; apply mapped_mem; lia.
  - exists m. rewrite decoded in Hx. split; [exact H|]. split.
    + apply (Hx _ 0); [by left|vm_compute; reflexivity].
    + apply (Hx _ 0); [right; by left|vm_compute; reflexivity].
Defined.

Lemma do_rela_order_witness :
  elf_dynamic_do_Rela E 3 [[3%nat]] (mkRange 0x1000 120 1 false) false s0 =
  (when true (seqM (fun e => on_w (elf_machine_rela_relative base e (u64 (base + r_offset e)))) (take 1 table));;
   seqM (process E 3 [[3%nat]] obj false false)
     [mkRela 0x9000 R_X86_64_ORMASK 1 0; mkRela 0x9008 R_X86_64_ANDMASK 2 0; mkRela 0x9018 R_X86_64_RELATIVE 0 0x456;
      mkRela 0x9020 R_X86_64_IRELATIVE 0 0x40]) s0.
Proof.
  apply (do_rela_order E 3 [[3%nat]] obj 0x1000 false false (take 1 table) (drop 1 table) s0).
  - reflexivity.
  - exact table_at.
Defined.

Lemma ranges_cover_sections_witness :
  exists r0 r1, rela_ranges info false = Ok (r0, r1) /\
    forall a, (in_range r0 a \/ in_range r1 a <-> 0x1000 <= a < 0x1000 + 96 \/ 0x1060 <= a < 0x1060 + 24).
Proof.
  destruct (ranges_cover_sections info false 0x1060 24 0x1000 96) as (r0 & r1 & H & _ & _ & _ & _ & Hc);
    try reflexivity; try lia.
  - by apply Adjacent.
  - exists r0, r1. split; [exact H|]. intros a. apply Hc.
Defined.

(** A PLT with two entries of 16 bytes at [base + 0x7000]: the first target is near, the
    second one out of reach of a 32-bit displacement. *)
Definition jumps : list rela := [mkRela 0x9000 R_X86_64_JUMP_SLOT 0 0x7006; mkRela 0x9008 R_X86_64_JUMP_SLOT 0 0x7016].
Definition info2 : relinfo :=
  mkRelinfo None None None None true (Some 0x1000) (Some 48) None (Some 0x7000) (Some 32) (Some 16) false [].
Definition E2 : env :=
  mkEnv (fun _ w => w) 0 (fun v => v + 1) 64 (fun _ w => w) (1, 2, 3) (fun _ _ => 0) true (fun _ => info2)
    (fun a => if a =? 0x1000 then rd jumps 0 else if a =? 0x1018 then rd jumps 1 else Undef)
    (fun _ => true) 9 (fun m => 0x5550000 + Z.of_nat m) 0x7777 4096 false plt_rewrite_jmp "prog".
Definition target (e : rela) : Z := if r_offset e =? 0x9000 then 0x7f1234567890 else 0x401000.
Definition mem2 : gmap Z Z :=
  list_to_map ((fun n => (base + 0x7000 + Z.of_nat n, 0x90)) <$> seq 0 32) ∪
  list_to_map ((fun n => (base + 0x9000 + Z.of_nat n, 0x7f1234567890 / 256 ^ Z.of_nat n mod 256)) <$> seq 0 8) ∪
  list_to_map ((fun n => (base + 0x9008 + Z.of_nat n, 0x401000 / 256 ^ Z.of_nat n mod 256)) <$> seq 0 8).
Definition w2 : world := set_mem mem2 (r_w s0).

Lemma mapped_mem2 a : base + 0x7000 <= a <= base + 0x7010 -> mapped 16 a mem2.
Proof.
  intros Ha b Hb.
  assert (Hall : forallb (fun n => bool_decide (is_Some (mem2 !! (base + 0x7000 + Z.of_nat n)))) (seq 0 32) = true)
    by (vm_compute; reflexivity).
  rewrite forallb_forall in Hall. specialize (Hall (Z.to_nat (b - (base + 0x7000)))). rewrite bool_decide_eq_true in Hall.
  replace b with (base + 0x7000 + Z.of_nat (Z.to_nat (b - (base + 0x7000)))) by lia. apply Hall, in_seq. lia.
Qed.

Lemma entry_ok e b : branch_start E2 base 4 e = b -> slot_end 4 b = b + 16 -> base + 0x7000 <= b <= base + 0x7010 ->
  0 <= target e < 2 ^ 64 -> load 8 (got_of base e) mem2 = Ok (target e) -> plt_entry E2 base 4 target mem2 e.
Proof.
  intros Hb He Hr Ht Hl. assert (base = 0x7f1224558000) by done. split; rewrite ?Hb, ?He; try done; try lia.
  replace (Z.to_nat (b + 16 - b)) with 16%nat by lia. by apply mapped_mem2.
Qed.

Lemma start0 : branch_start E2 base 4 (mkRela 0x9000 R_X86_64_JUMP_SLOT 0 0x7006) = base + 0x7000.
Proof. vm_compute. reflexivity. Qed.
Lemma start1 : branch_start E2 base 4 (mkRela 0x9008 R_X86_64_JUMP_SLOT 0 0x7016) = base + 0x7010.
Proof. vm_compute. reflexivity. Qed.
Lemma end0 : slot_end 4 (base + 0x7000) = base + 0x7010.
Proof. vm_compute. reflexivity. Qed.
Lemma end1 : slot_end 4 (base + 0x7010) = base + 0x7020.
Proof. vm_compute. reflexivity. Qed.
Lemma got1 : got_of base (mkRela 0x9008 R_X86_64_JUMP_SLOT 0 0x7016) = base + 0x9008.
Proof. vm_compute. reflexivity. Qed.
Lemma near : fits (base + 0x7000) (target (mkRela 0x9000 R_X86_64_JUMP_SLOT 0 0x7006)).
Proof. vm_compute. reflexivity. Qed.
Lemma far : ~ fits (base + 0x7010) (target (mkRela 0x9008 R_X86_64_JUMP_SLOT 0 0x7016)).
Proof. vm_compute. discriminate. Qed.

Lemma plt_rewrite_faithful_witness :
  exists m, x86_64_rewrite_plt E2 3 w2 = Ret tt (set_mem m w2) /\
    branches m (base + 0x7000) 0x7f1234567890 /\ m !! (base + 0x7010) = Some 0x90.
Proof.
  destruct (plt_rewrite_faithful E2 3 obj 4 0x1000 jumps target w2) as (m & H1 & H2 & _).
  - reflexivity.
  - lia.
  - reflexivity.
  - reflexivity.
  - reflexivity.
  - intros [|[|i]] e He; cbn in He; [by injection He as <-..|done].
  - constructor; [|constructor; [|constructor]].
    + apply (entry_ok _ (base + 0x7000)); vm_compute; (reflexivity || (split; (reflexivity || discriminate))).
    + apply (entry_ok _ (base + 0x7010)); vm_compute; (reflexivity || (split; (reflexivity || discriminate))).
  - constructor; [constructor; [constructor|constructor]|]. constructor; [|constructor].
    split; intros a; change (l_addr obj) with base; unfold slot_of; rewrite start0, end0, ?start1, ?got1; lia.
  - exists m. split; [exact H1|]. split.
    + destruct (H2 (mkRela 0x9000 R_X86_64_JUMP_SLOT 0 0x7006)) as [Y _]; [by left|]. change (l_addr obj) with base in Y.
      rewrite start0 in Y. apply Y. left. apply near.
    + destruct (H2 (mkRela 0x9008 R_X86_64_JUMP_SLOT 0 0x7016)) as [_ N]; [right; by left|]. change (l_addr obj) with base in N.
      cbv zeta in N. unfold slot_of in N. rewrite start1, end1 in N.
      assert (Hj : e_plt_rewrite E2 <> plt_rewrite_jmpabs) by discriminate.
      rewrite (N far Hj (base + 0x7010) ltac:(lia)). vm_compute. reflexivity.
Defined.
End Example13.
