(* ===== verification/LoadCmds.v ===== *)
(** * From program headers to mapped segments

    The part of [_dl_map_object_from_fd] ([elf/dl-load.c]) that scans the
    program header table of a file, turns the PT_LOAD entries into load
    commands, checks the file, and calls [_dl_map_segments].  The theorems
    carry the guarantees of [MapSegments] over to what the file itself says. *)

From S2P Require Import Prelude Mask MapSegments MainImage Relocate.

(** [Elf64_Phdr] *)
Record Phdr := mkPh64 {
  ph_type : Z; ph_flags : Z; ph_offset : Z; ph_vaddr : Z; ph_filesz : Z; ph_memsz : Z; ph_align : Z }.

Definition PT_DYNAMIC : Z := 2.
Definition PT_TLS : Z := 7.
Definition PT_GNU_STACK : Z := 0x6474e551.
Definition PT_GNU_RELRO : Z := 0x6474e552.
Definition ET_DYN : Z := 3.
Definition RTLD_OPENEXEC : Z := 0x20000000.
Definition RTLD_AUDIT : Z := 0x08000000.
Definition DEFAULT_STACK_PERMS : Z := Z.lor (Z.lor PF_R PF_W) PF_X.

(** The protections for the eight combinations of flags, four bits each. *)
Definition PF_TO_PROT : Z :=
  Z.lor (Z.lor (Z.lor (Z.lor (Z.lor (Z.lor
    (Z.shiftl PROT_READ (PF_R * 4))
    (Z.shiftl PROT_WRITE (PF_W * 4)))
    (Z.shiftl PROT_EXEC (PF_X * 4)))
    (Z.shiftl (Z.lor PROT_READ PROT_WRITE) (Z.lor PF_R PF_W * 4)))
    (Z.shiftl (Z.lor PROT_READ PROT_EXEC) (Z.lor PF_R PF_X * 4)))
    (Z.shiftl (Z.lor PROT_WRITE PROT_EXEC) (Z.lor PF_W PF_X * 4)))
    (Z.shiftl (Z.lor (Z.lor PROT_READ PROT_WRITE) PROT_EXEC) (Z.lor (Z.lor PF_R PF_W) PF_X * 4)).

Definition loadcmd_prot (flags : Z) : Z :=
  Z.land (Z.shiftr PF_TO_PROT (Z.land flags (Z.lor (Z.lor PF_R PF_W) PF_X) * 4)) 0xf.

Definition powerof2 (x : Z) : bool := Z.land (u64 (x - 1)) x =? 0.

(** The TLS fields of the link map, and what else the scan records. *)
Record tls_phdr := mkTlsPh {
  tp_blocksize : Z; tp_align : Z; tp_firstbyte_offset : Z; tp_initimage_size : Z; tp_initimage : Z }.

Record scan_state := mkScanSt {
  sc_loadcmds : list loadcmd;        (* loadcmds[0 .. nloadcmds - 1] *)
  sc_holes : bool;                   (* has_holes *)
  sc_empty_dynamic : bool;
  sc_align_max : Z;                  (* p_align_max *)
  sc_ld : option (Z * Z * bool);     (* l_ld, l_ldnum, l_ld_readonly *)
  sc_phdr : option Z;                (* l_phdr, [None] for a null pointer *)
  sc_tls : option tls_phdr;
  sc_stack_flags : Z;
  sc_relro : Z * Z }.                (* l_relro_addr, l_relro_size *)

Definition scan_start : scan_state := mkScanSt [] false false 0 None None None DEFAULT_STACK_PERMS (0, 0).

Section Scan.
Context (pagesize : Z).
(** The link map and the loader when a PT_TLS entry is met: whether the object is a
    library, whether [GL(dl_tls_dtv_slotinfo_list)] and [l->l_prev] are null. *)
Context (is_library slotinfo_null prev_null : bool) (mode : Z).

(** The load command of a PT_LOAD entry; [mapalign] is filled in later. *)
Definition loadcmd_of (ph : Phdr) : loadcmd :=
  mkLoad (ALIGN_DOWN (ph_vaddr ph) pagesize) (ALIGN_UP (u64 (ph_vaddr ph + ph_filesz ph)) pagesize)
    (u64 (ph_vaddr ph + ph_filesz ph)) (u64 (ph_vaddr ph + ph_memsz ph)) 0
    (ALIGN_DOWN (ph_offset ph) pagesize) (loadcmd_prot (ph_flags ph)).

(** One entry; [inl] is a jump to [lose] with the message. *)
Definition scan_entry (ph : Phdr) (s : scan_state) : res (string + scan_state) :=
  let '(mkScanSt cmds holes empty amax ld phdr tls stack relro) := s in
  if ph_type ph =? PT_DYNAMIC then
    if ph_filesz ph =? 0 then mret (inr (mkScanSt cmds holes true amax ld phdr tls stack relro))
    else mret (inr (mkScanSt cmds holes empty amax
                      (Some (ph_vaddr ph, ph_memsz ph / 16, Z.land (ph_flags ph) PF_W =? 0)) phdr tls stack relro))
  else if ph_type ph =? PT_PHDR then
    mret (inr (mkScanSt cmds holes empty amax ld (if ph_vaddr ph =? 0 then None else Some (ph_vaddr ph)) tls stack relro))
  else if ph_type ph =? PT_LOAD then
    if negb (Z.land (u64 (ph_vaddr ph - ph_offset ph)) (pagesize - 1) =? 0)
    then mret (inl ERROR_ALIGN)
    else
      let c := loadcmd_of ph in
      let amax := if powerof2 (ph_align ph) && (amax <? ph_align ph) then ph_align ph else amax in
      let holes := match last cmds with
                   | Some c' => if negb (mapend c' =? mapstart c) then true else holes
                   | None => holes
                   end in
      mret (inr (mkScanSt (cmds ++ [c]) holes empty amax ld phdr tls stack relro))
  else if ph_type ph =? PT_TLS then
    if ph_memsz ph =? 0 then mret (inr s)
    else
      let first := if ph_align ph =? 0 then 0 else Z.land (ph_vaddr ph) (u64 (ph_align ph - 1)) in
      c_assert (is_library || negb slotinfo_null || prev_null || negb (Z.land mode RTLD_AUDIT =? 0))
        "l->l_prev == NULL || (mode & __RTLD_AUDIT) != 0";;
      mret (inr (mkScanSt cmds holes empty amax ld phdr
                   (Some (mkTlsPh (ph_memsz ph) (ph_align ph) first (ph_filesz ph) (ph_vaddr ph))) stack relro))
  else if ph_type ph =? PT_GNU_STACK then
    mret (inr (mkScanSt cmds holes empty amax ld phdr tls (ph_flags ph) relro))
  else if ph_type ph =? PT_GNU_RELRO then
    mret (inr (mkScanSt cmds holes empty amax ld phdr tls stack (ph_vaddr ph, ph_memsz ph)))
  else mret (inr s).

Fixpoint scan_table (phs : list Phdr) (s : scan_state) : res (string + scan_state) :=
  match phs with
  | [] => mret (inr s)
  | ph :: phs =>
      r ← scan_entry ph s;
      match r with inl e => mret (inl e) | inr s => scan_table phs s end
  end.

Definition set_mapalign (a : Z) (c : loadcmd) : loadcmd :=
  mkLoad (mapstart c) (mapend c) (dataend c) (allocend c) a (mapoff c) (prot c).

Definition ld_null (s : scan_state) : bool :=
  match sc_ld s with Some (ld, _, _) => ld =? 0 | None => true end.

(** The checks behind the scan; the result is what [_dl_map_segments] is given. *)
Definition check_object (type : Z) (s : scan_state) : string + (list loadcmd * Z * bool) :=
  let cmds := set_mapalign (sc_align_max s) <$> sc_loadcmds s in
  match head cmds, last cmds with
  | Some first, Some last =>
      if negb (type =? ET_DYN) && (Z.land mode RTLD_OPENEXEC =? 0) then inl "cannot dynamically load executable"%string
      else if (ld_null s && (type =? ET_DYN)) || sc_empty_dynamic s
      then inl "object file has no dynamic section"%string
      else inr (cmds, u64 (allocend last - mapstart first), sc_holes s)
  | _, _ => inl "object file has no loadable segments"%string
  end.

(** Scanning, checking and mapping. [Some e] is an error; the link map then says that
    nothing is mapped, if the mapping was begun. *)
Definition map_object (kernel : list event -> event -> Z) (decorate_maps : bool) (name : string) (fd type : Z)
    (header : ehdr) (phs : list Phdr) : M kst (option string) :=
  r ← lift (scan_table phs scan_start);
  match r with
  | inl e => mret (Some e)
  | inr s =>
      match check_object type s with
      | inl e => mret (Some e)
      | inr (cmds, maplength, has_holes) =>
          modify (set_l (fresh_map name 0 (sc_phdr s)));;
          e ← _dl_map_segments kernel pagesize decorate_maps fd header (type =? ET_DYN) cmds maplength has_holes;
          (match e with
           | Some _ => modify (set_map_start 0);; modify (set_map_end 0)
           | None => mret tt
           end);;
          mret e
      end
  end.
End Scan.

(** ** Protections *)

Lemma prot_packed flags : loadcmd_prot flags = prot_of flags.
Proof.
  unfold loadcmd_prot, prot_of.
  assert (Hbit : forall b, Z.land 7 b = b -> Z.land flags b = Z.land (Z.land flags 7) b).
  { intros b Hb. rewrite <- Z.land_assoc. by rewrite Hb. }
  change (Z.lor (Z.lor PF_R PF_W) PF_X) with 7.
  rewrite !(Hbit PF_R), !(Hbit PF_W), !(Hbit PF_X) by reflexivity.
  assert (Hr : 0 <= Z.land flags 7 < 8).
  { change 7 with (Z.ones 3). rewrite Z.land_ones by lia. apply Z.mod_pos_bound. lia. }
  revert Hr. generalize (Z.land flags 7). clear. intros f Hf.
  assert (f = 0 \/ f = 1 \/ f = 2 \/ f = 3 \/ f = 4 \/ f = 5 \/ f = 6 \/ f = 7) as H by lia.
  repeat destruct H as [->|H]; [reflexivity..|]. by subst f.
Qed.

Lemma prot_exec flags : (3 <? loadcmd_prot flags) = negb (Z.land flags PF_X =? 0).
Proof.
  rewrite prot_packed. unfold prot_of.
  destruct (Z.land flags PF_R =? 0), (Z.land flags PF_W =? 0), (Z.land flags PF_X =? 0); reflexivity.
Qed.


(** ** The scan *)
Definition loads_of (phs : list Phdr) : list Phdr := filter (fun ph => ph_type ph = PT_LOAD) phs.

Section ScanSpec.
Context (pagesize : Z) (lib null prev : bool) (mode : Z) (Hlib : lib = true).

Definition aligned (ph : Phdr) : Prop :=
  ph_type ph = PT_LOAD -> Z.land (u64 (ph_vaddr ph - ph_offset ph)) (pagesize - 1) = 0.

(** What one scan adds to the state. *)
Record scanned (phs : list Phdr) (s s' : scan_state) : Prop := {
  sd_cmds : sc_loadcmds s' = sc_loadcmds s ++ (loadcmd_of pagesize <$> loads_of phs);
  sd_empty : sc_empty_dynamic s' = true <->
    sc_empty_dynamic s = true \/ Exists (fun ph => ph_type ph = PT_DYNAMIC /\ ph_filesz ph = 0) phs;
  sd_ld : ~ Exists (fun ph => ph_type ph = PT_DYNAMIC /\ ph_vaddr ph = 0) phs ->
    ld_null s = false \/ Exists (fun ph => ph_type ph = PT_DYNAMIC /\ ph_filesz ph <> 0) phs -> ld_null s' = false }.

Lemma scan_entry_spec ph s : aligned ph ->
  exists s', scan_entry pagesize lib null prev mode ph s = Ok (inr s') /\ scanned [ph] s s'.
Proof.
  intros Ha. destruct s as [cmds holes empty amax ld phdr tls stack relro]. unfold scan_entry.
  assert (Hnl : ph_type ph <> PT_LOAD -> loads_of [ph] = []).
  { intros H. unfold loads_of. by rewrite filter_cons_False. }
  destruct (Z.eqb_spec (ph_type ph) PT_DYNAMIC) as [Hd|Hd].
  { destruct (Z.eqb_spec (ph_filesz ph) 0); eexists; (split; [reflexivity|]); split; unfold ld_null; cbn [sc_loadcmds sc_empty_dynamic sc_ld];
      rewrite ?Hnl, ?app_nil_r, ?Exists_cons, ?Exists_nil by (rewrite Hd; done);
      rewrite ?Z.eqb_neq; naive_solver. }
  assert (He : forall P, ~ Exists (fun ph => ph_type ph = PT_DYNAMIC /\ P ph) [ph]).
  { intros P [[? _]|[]%Exists_nil]%Exists_cons. done. }
  pose proof (He (fun ph => ph_filesz ph = 0)) as He1. pose proof (He (fun ph => ph_filesz ph <> 0)) as He2. clear He.
  destruct (Z.eqb_spec (ph_type ph) PT_PHDR) as [Hp|Hp].
  { eexists; split; [reflexivity|]; split; unfold ld_null; cbn [sc_loadcmds sc_empty_dynamic sc_ld]; rewrite ?Hnl, ?app_nil_r by (rewrite Hp; done); naive_solver. }
  destruct (Z.eqb_spec (ph_type ph) PT_LOAD) as [Hl|Hl].
  { rewrite (Ha Hl). cbn [Z.eqb negb]. eexists; split; [reflexivity|]. split; unfold ld_null; cbn [sc_loadcmds sc_empty_dynamic sc_ld]; [|naive_solver..].
    unfold loads_of. by rewrite filter_cons_True, filter_nil. }
  destruct (Z.eqb_spec (ph_type ph) PT_TLS) as [Ht|Ht].
  { rewrite Hlib. destruct (ph_memsz ph =? 0); eexists; (split; [reflexivity|]); split; unfold ld_null; cbn [sc_loadcmds sc_empty_dynamic sc_ld];
      rewrite ?Hnl, ?app_nil_r by done; naive_solver. }
  destruct (Z.eqb_spec (ph_type ph) PT_GNU_STACK) as [Hs|Hs]; [|destruct (Z.eqb_spec (ph_type ph) PT_GNU_RELRO) as [Hr|Hr]];
    eexists; (split; [reflexivity|]); split; unfold ld_null; cbn [sc_loadcmds sc_empty_dynamic sc_ld]; rewrite ?Hnl, ?app_nil_r by done; naive_solver.
Qed.

Lemma scan_table_spec phs : forall s, Forall aligned phs ->
  exists s', scan_table pagesize lib null prev mode phs s = Ok (inr s') /\ scanned phs s s'.
Proof.
  induction phs as [|ph phs IH]; intros s Ha; cbn [scan_table].
  - exists s. split; [done|]. split; unfold ld_null; cbn [sc_loadcmds sc_empty_dynamic sc_ld]; rewrite ?app_nil_r, ?Exists_nil; naive_solver.
  - apply Forall_cons in Ha as [Hp Ha]. destruct (scan_entry_spec ph s Hp) as (s1 & -> & [C1 E1 L1]).
    destruct (IH s1 Ha) as (s2 & H2 & [C2 E2 L2]). exists s2. split; [done|]. split.
    + rewrite C2, C1, <- app_assoc, <- fmap_app. unfold loads_of. by rewrite <- filter_app.
    + rewrite E2, E1, !Exists_cons, Exists_nil. naive_solver.
    + rewrite !Exists_cons. intros Hn [Hs|[Hs|Hs]].
      * apply L2; [tauto|]. left. apply L1; [rewrite Exists_cons, Exists_nil; tauto|by left].
      * apply L2; [tauto|]. left. apply L1; rewrite !Exists_cons, Exists_nil; tauto.
      * apply L2; [tauto|by right].
Qed.
End ScanSpec.

(** ** Files *)
Lemma align_down x : 0 <= x < 2 ^ 64 -> ALIGN_DOWN x 4096 = x / 4096 * 4096.
Proof. intros Hx. unfold ALIGN_DOWN. change (u64 (- 4096)) with 0xfffffffffffff000. by rewrite land_page. Qed.
Lemma align_up x : 0 <= x < 2 ^ 64 - 4096 -> ALIGN_UP x 4096 = (x + 4095) / 4096 * 4096.
Proof. intros Hx. unfold ALIGN_UP. rewrite u64_small, align_down by lia. f_equal. f_equal. lia. Qed.

(** A shared object: its segments are aligned as the page size asks, the first one
    begins in the first page, it has a dynamic section, and [x] is the first segment with code. *)
Record shared_object (phs : list Phdr) (x : Phdr) : Prop := {
  so_aligned : Forall (aligned 4096) phs;
  so_first : exists f rest, loads_of phs = f :: rest /\ 0 <= ph_vaddr f < 4096;
  so_dynamic : Exists (fun ph => ph_type ph = PT_DYNAMIC /\ ph_filesz ph <> 0) phs;
  so_full : ~ Exists (fun ph => ph_type ph = PT_DYNAMIC /\ ph_filesz ph = 0) phs;
  so_placed : ~ Exists (fun ph => ph_type ph = PT_DYNAMIC /\ ph_vaddr ph = 0) phs;
  so_code : exists pre post, loads_of phs = pre ++ x :: post /\
    Forall (fun ph => Z.land (ph_flags ph) PF_X = 0) pre /\ Z.land (ph_flags x) PF_X <> 0;
  so_range : 0 <= ph_vaddr x /\ 0 < ph_filesz x /\ ph_vaddr x + ph_filesz x <= 2 ^ 28 - 4096 }.

(** What [_dl_map_segments] is given for the file. *)
Definition file_object (name : string) (fd : Z) (header : ehdr) (s : scan_state) : object :=
  let cmds := set_mapalign (sc_align_max s) <$> sc_loadcmds s in
  mkObj name fd (sc_phdr s) header (default (mkLoad 0 0 0 0 0 0 0) (head cmds)) (tail cmds)
    (match head cmds, last cmds with Some f, Some l => u64 (allocend l - mapstart f) | _, _ => 0 end) (sc_holes s).

Section Files.
Context (kernel : list event -> event -> Z) (decorate lib null prev : bool) (mode : Z) (Hlib : lib = true).
Context (name : string) (fd : Z) (header : ehdr) (phs : list Phdr) (x : Phdr) (Hso : shared_object phs x).

Lemma file_scan : exists s, scan_table 4096 lib null prev mode phs scan_start = Ok (inr s) /\
  o_cmds (file_object name fd header s) = set_mapalign (sc_align_max s) <$> (loadcmd_of 4096 <$> loads_of phs) /\
  exists maplength, check_object mode ET_DYN s = inr (o_cmds (file_object name fd header s), maplength, sc_holes s) /\
    o_maplength (file_object name fd header s) = maplength.
Proof.
  destruct Hso as [Ha (f & rest & Hl & Hf) Hd Hnd Hv _ _].
  destruct (scan_table_spec 4096 lib null prev mode Hlib phs scan_start Ha) as (s & Hs & [C Em L]).
  exists s. split; [done|]. cbn [sc_loadcmds scan_start app] in C. unfold file_object, check_object, o_cmds.
  cbn [o_first o_rest o_maplength]. rewrite C, Hl. cbn [fmap list_fmap head tail default].
  split; [done|]. destruct (last (_ :: _)) as [z|] eqn:Hz; [|by apply last_None in Hz].
  eexists. split; [|reflexivity].
  rewrite L by (done || by right). cbn [Z.eqb Pos.eqb ET_DYN negb andb orb].
  destruct (sc_empty_dynamic s); [|done]. exfalso. destruct (proj1 Em eq_refl) as [?|?]; done.
Qed.

Lemma find_exec_first a cmds c post : Forall (fun ph => Z.land (ph_flags ph) PF_X = 0) cmds -> Z.land (ph_flags c) PF_X <> 0 ->
  find_exec_size (set_mapalign a <$> (loadcmd_of 4096 <$> cmds ++ c :: post)) =
  mkMitig (u32 (ALIGN_UP (u64 (ph_vaddr c + ph_filesz c)) 4096 - ALIGN_DOWN (ph_vaddr c) 4096)) (ALIGN_DOWN (ph_vaddr c) 4096).
Proof.
  intros Hp Hc. induction Hp as [|d cmds Hd Hp IH]; cbn [app fmap list_fmap find_exec_size set_mapalign loadcmd_of prot mapstart mapend];
    rewrite prot_exec.
  - by rewrite (proj2 (Z.eqb_neq _ _) Hc).
  - rewrite Hd. exact IH.
Qed.

(** The code of the file fits the conditions of [load]. *)
Lemma file_exec s : sc_loadcmds s = loadcmd_of 4096 <$> loads_of phs ->
  let e := o_exec (file_object name fd header s) in
  code_size (ms_size e) /\ ms_size e <= 2 ^ 28 /\ 0 <= ms_mapstart e < 2 ^ 28 /\
  mapstart (o_first (file_object name fd header s)) = 0 /\
  ms_mapstart e <= ph_vaddr x /\ ph_vaddr x + ph_filesz x <= ms_mapstart e + ms_size e.
Proof.
  intros C e. destruct Hso as [_ (f & rest & Hl & Hf) _ _ _ (pre & post & Hx & Hpre & Hxc) (R1 & R2 & R3)].
  assert (He : e = mkMitig (u32 (ALIGN_UP (u64 (ph_vaddr x + ph_filesz x)) 4096 - ALIGN_DOWN (ph_vaddr x) 4096)) (ALIGN_DOWN (ph_vaddr x) 4096)).
  { rewrite <- (find_exec_first (sc_align_max s) pre x post Hpre Hxc), <- Hx, <- C.
    unfold e, o_exec, file_object, o_cmds. cbn [o_first o_rest]. rewrite C, Hl. done. }
  rewrite He. cbn [ms_size ms_mapstart]. rewrite (u64_small (ph_vaddr x + _)), align_up, align_down by lia.
  rewrite u32_small by divlia.
  split; [split; divlia|]. split; [divlia|]. split; [divlia|]. split; [|divlia].
  unfold file_object. cbn [o_first]. rewrite C, Hl. cbn [fmap list_fmap head default from_option id set_mapalign loadcmd_of mapstart].
  change (ALIGN_DOWN (ph_vaddr f) 4096 = 0). rewrite align_down by lia. rewrite Z.div_small by lia. done.
Qed.

Lemma map_object_load s0 s' :
  map_object 4096 lib null prev mode kernel decorate name fd ET_DYN header phs s0 = Ret None s' ->
  exists sc, scan_table 4096 lib null prev mode phs scan_start = Ok (inr sc) /\
    sc_loadcmds sc = loadcmd_of 4096 <$> loads_of phs /\
    load kernel 4096 decorate (file_object name fd header sc) s0 = Ret None s'.
Proof.
  intros H. destruct file_scan as (sc & Hs & Hc & ml & Hchk & Hml). exists sc. split; [done|].
  destruct (scan_table_spec 4096 lib null prev mode Hlib phs scan_start (so_aligned _ _ Hso)) as (sc' & Hs' & [C _ _]).
  rewrite Hs in Hs'. injection Hs' as <-. split; [done|].
  unfold map_object in H. rewrite Hs in H. rewrite (M_bind_step _ _ _ (inr sc) s0) in H by done. rewrite Hchk in H.
  apply M_bind_Ret_inv in H as ([] & s1 & H1 & H). apply M_bind_Ret_inv in H as (e & s2 & H2 & H).
  apply M_bind_Ret_inv in H as ([] & s3 & H3 & H). injection H as -> <-. injection H3 as <-.
  unfold load. rewrite (M_bind_step _ _ _ tt s1) by done. rewrite Hml. exact H2.
Qed.

(** C5. Loading a shared object confines it: when the file says what [shared_object] asks
    for and it could be mapped, every instrumented call ends in the object's window, which
    lies more than 256 MiB below the address [b] the loader had reached, and
    calls to the code of the file are not changed. *)
Theorem mapped_file_confined s0 s' b :
  map_object 4096 lib null prev mode kernel decorate name fd ET_DYN header phs s0 = Ret None s' ->
  (forall sc, scan_table 4096 lib null prev mode phs scan_start = Ok (inr sc) ->
     base_of kernel 4096 (file_object name fd header sc) s0 b) -> 2 ^ 34 <= b < 2 ^ 64 ->
  let l := k_l s' in
  sm_exec_end l < b - 2 ^ 28 /\
  (forall t, sm_exec_start l <= masked (sm_exec_start l) (sm_exec_end l) t <= sm_exec_end l) /\
  (forall t, sm_addr l + ph_vaddr x <= t < sm_addr l + ph_vaddr x + ph_filesz x ->
     masked (sm_exec_start l) (sm_exec_end l) t = t).
Proof.
  intros H Hb Hr l. destruct (map_object_load s0 s' H) as (sc & Hs & C & Hld). specialize (Hb sc Hs).
  destruct (file_exec sc C) as (E1 & E2 & E3 & E4 & E5 & E6).
  destruct (load_confined kernel 4096 decorate (file_object name fd header sc) s0 s' b Hld) as ((_ & _ & Hw) & Hbel & _ & _ & Hend & Hown).
  - repeat (split; [done|]). eauto.
  - done.
  - split; [done|]. split; [done|]. intros t Ht. apply Hown. unfold l in Ht. lia.
Qed.
End Files.

(** ** A second library, after the one of [MapSegments.Example2] *)
Module Example14.
Import Example2.

Definition phs : list Phdr :=
  [mkPh64 PT_LOAD PF_R 0 0 0x2a00 0x2a00 0x1000;
   mkPh64 PT_LOAD (Z.lor PF_R PF_X) 0x3010 0x3010 0x4af0 0x4af0 0x1000;
   mkPh64 PT_LOAD (Z.lor PF_R PF_W) 0x8200 0x9200 0x1600 0x3e00 0x1000;
   mkPh64 PT_DYNAMIC (Z.lor PF_R PF_W) 0x8300 0x9300 0x1f0 0x1f0 8;
   mkPh64 PT_GNU_STACK (Z.lor PF_R PF_W) 0 0 0 0 16;
   mkPh64 PT_GNU_RELRO PF_R 0x8200 0x9200 0xe00 0xe00 1].
Definition code : Phdr := mkPh64 PT_LOAD (Z.lor PF_R PF_X) 0x3010 0x3010 0x4af0 0x4af0 0x1000.
Definition s' : kst :=
  match map_object 4096 true false false 0 kernel true "libfile.so" 5 ET_DYN (mkEhdr 64 6) phs s1 with Ret _ s => s | _ => s1 end.

Lemma phs_ok : shared_object phs code.
Proof.
  split.
  - repeat (constructor; [intros _; reflexivity|]). constructor.
  - do 2 eexists. split; [reflexivity|]. cbn. lia.
  - do 3 apply Exists_cons_tl. apply Exists_cons_hd. done.
  - intros H. repeat (apply Exists_cons in H as [[? ?]|H]; [discriminate|]). by apply Exists_nil in H.
  - intros H. repeat (apply Exists_cons in H as [[? ?]|H]; [discriminate|]). by apply Exists_nil in H.
  - exists [mkPh64 PT_LOAD PF_R 0 0 0x2a00 0x2a00 0x1000]. eexists. split; [reflexivity|].
    split; [by repeat constructor|]. vm_compute. discriminate.
  - cbn. lia.
Qed.

Lemma mapped_file_confined_witness :
  let l := k_l s' in
  sm_exec_end l < k_addr s1 - 2 ^ 28 /\
  (forall t, sm_exec_start l <= masked (sm_exec_start l) (sm_exec_end l) t <= sm_exec_end l) /\
  masked (sm_exec_start l) (sm_exec_end l) (sm_addr l + 0x3100) = sm_addr l + 0x3100.
Proof.
  destruct (mapped_file_confined kernel true true false false 0 eq_refl "libfile.so" 5 (mkEhdr 64 6) phs code phs_ok
    s1 s' (k_addr s1)) as (H1 & H2 & H3).
  - vm_compute. reflexivity.
  - intros sc _. apply base_next. vm_compute. reflexivity.
  - vm_compute. split; [discriminate|reflexivity].
  - split; [exact H1|]. split; [exact H2|]. apply H3. cbn [ph_vaddr ph_filesz code]. lia.
Defined.
End Example14.
