(* ===== verification/HSearch.v ===== *)
(** * Hash tables of [hsearch_r]

    [__hcreate_r], [__hsearch_r] and [__hdestroy_r] of [misc/hsearch_r.c]:
    an open-addressing table whose size is a prime and whose slots are numbered
    from 1, searched by double hashing downwards.  A table refines a finite
    map of bounded size, for any sequence of searches ([hsearch_refines_map]). *)

From S2P Require Import Prelude Primes OpenAddr.
From Stdlib Require Import Zdivisibility.

Inductive ACTION := FIND | ENTER.
Record ENTRY := mkEntry { key : string; data : Z }.

(** A slot of the table; a zeroed one has a null key. *)
Record _ENTRY := mkSlot { used : Z; entry : option ENTRY }.

Record hsearch_data := mkHtab { ht_table : option (list _ENTRY); ht_size : Z; ht_filled : Z }.

Definition ENOMEM : Z := 12.
Definition ESRCH : Z := 3.
Definition EINVAL : Z := 22.
Definition UINT_MAX : Z := 2 ^ 32 - 1.

(** ** Loops of many rounds

    [rounds p step s] makes up to [p] steps and ends early when [step] gives a result. *)
Fixpoint rounds {S R} (p : positive) (step : S -> S + R) (s : S) : S + R :=
  match p with
  | xH => step s
  | xO p => match rounds p step s with inl s => rounds p step s | inr r => inr r end
  | xI p => match step s with
            | inl s => match rounds p step s with inl s => rounds p step s | inr r => inr r end
            | inr r => inr r
            end
  end.

Section Rounds.
Context {S R : Type} (step : S -> S + R) (Inv : S -> Prop) (Post : R -> Prop) (m : S -> Z).
Context (Hstep : forall s, Inv s ->
  match step s with inl s' => Inv s' /\ m s' < m s | inr r => Post r end).

Lemma rounds_progress p : forall s, Inv s ->
  match rounds p step s with inl s' => Inv s' /\ m s' <= m s - Zpos p | inr r => Post r end.
Proof using Hstep.
  induction p as [p IH|p IH|]; intros s Hs; cbn [rounds].
  - pose proof (Hstep s Hs) as H. destruct (step s) as [s1|r]; [|done]. destruct H as [H1 M1].
    pose proof (IH s1 H1) as H. destruct (rounds p step s1) as [s2|r]; [|done]. destruct H as [H2 M2].
    pose proof (IH s2 H2) as H. destruct (rounds p step s2) as [s3|r]; [|done]. split; [tauto|lia].
  - pose proof (IH s Hs) as H. destruct (rounds p step s) as [s2|r]; [|done]. destruct H as [H2 M2].
    pose proof (IH s2 H2) as H. destruct (rounds p step s2) as [s3|r]; [|done]. split; [tauto|lia].
  - pose proof (Hstep s Hs) as H. destruct (step s); [|done]. split; [tauto|lia].
Qed.

(** With more steps than the measure allows there is a result. *)
Lemma rounds_end p s : (forall s, Inv s -> 0 <= m s) -> Inv s -> m s < Zpos p ->
  exists r, rounds p step s = inr r /\ Post r.
Proof using Hstep.
  intros Hm Hs Hlt. pose proof (rounds_progress p s Hs) as H.
  destruct (rounds p step s) as [s'|r]; [|eauto]. destruct H as [H1 H2]. specialize (Hm _ H1). lia.
Qed.
End Rounds.

(** ** Creation

    One round of the search for the size; [None] is the error [ENOMEM]. *)
Definition size_step (nel : Z) : Z + res (option Z) :=
  if UINT_MAX - 2 <? nel then inr (Ok None)
  else match IsPrime.isprime (u32 nel) with
       | Ok true => inr (Ok (Some nel))
       | Ok false => inl (u64 (nel + 2))
       | _ => inr Diverge
       end.

Definition table_size (nel : Z) : res (option Z) :=
  let nel := if nel <? 3 then 3 else nel in
  match rounds (2 ^ 33) size_step (Z.lor nel 1) with inr r => r | inl _ => Diverge end.

(** [calloc] says whether the memory is available; [None] is a null [htab].  The result is
    the return value, [errno] where it is set, and the structure. *)
Definition __hcreate_r (calloc : Z -> bool) (nel : Z) (htab : option hsearch_data)
    : res (Z * option Z * option hsearch_data) :=
  match htab with
  | None => mret (0, Some EINVAL, None)
  | Some h =>
      if ht_table h is Some _ then mret (0, None, Some h)
      else
        s ← table_size nel;
        match s with
        | None => mret (0, Some ENOMEM, Some h)
        | Some size =>
            if calloc (u32 (size + 1))
            then mret (1, None, Some (mkHtab (Some (replicate (Z.to_nat (u32 (size + 1))) (mkSlot 0 None))) size 0))
            else mret (0, None, Some (mkHtab None size 0))
        end
  end.

Definition __hdestroy_r (htab : option hsearch_data) : option Z * option hsearch_data :=
  match htab with
  | None => (Some EINVAL, None)
  | Some h => (None, Some (mkHtab None (ht_size h) (ht_filled h)))
  end.

(** ** Searching

    A [char] is signed. *)
Definition schar (b : Z) : Z := if b <? 128 then b else b - 256.

(** The loop [while (count-- > 0)] goes through the characters from the last to the first. *)
Definition hash_chars (len : Z) (chars : list Z) : Z :=
  foldr (fun c hval => u32 (u32 (Z.shiftl hval 4) + schar c)) len chars.

Definition hash_key (k : string) : Z :=
  let len := u32 (Z.of_nat (String.length k)) in
  let hval := hash_chars len (take (Z.to_nat len) (bytes_of k)) in
  if hval =? 0 then 1 else hval.

(** [table[idx].used == hval && strcmp (key, table[idx].entry.key) == 0] *)
Definition slot_matches (hval : Z) (k : string) (s : _ENTRY) : res bool :=
  if used s =? hval then
    match entry s with
    | Some it => mret (str_eqb k (key it))
    | None => Undef
    end
  else mret false.

(** The [do] loop. [inl idx]: the key is at [idx]; [inr idx]: it was not found and the search ended at [idx]. *)
Fixpoint probe_loop (fuel : nat) (table : list _ENTRY) (size hval hval2 first_idx : Z) (k : string) (idx : Z) : res (Z + Z) :=
  match fuel with
  | O => Diverge
  | S fuel =>
      let idx := if idx <=? hval2 then u32 (u32 (size + idx) - hval2) else u32 (idx - hval2) in
      if idx =? first_idx then mret (inr idx)
      else
        s ← rd table idx;
        m ← slot_matches hval k s;
        if (m : bool) then mret (inl idx)
        else if used s =? 0 then mret (inr idx)
        else probe_loop fuel table size hval hval2 first_idx k idx
  end.

(** The search up to the decision what to do. *)
Definition find_slot (table : list _ENTRY) (size : Z) (k : string) : res (Z + Z) :=
  let hval := hash_key k in
  if size =? 0 then Undef (* division by zero *) else
  let idx := u32 (hval mod size + 1) in
  s ← rd table idx;
  if used s =? 0 then mret (inr idx)
  else
    m ← slot_matches hval k s;
    if (m : bool) then mret (inl idx)
    else if u32 (size - 2) =? 0 then Undef (* division by zero *)
    else probe_loop (S (Z.to_nat size)) table size hval (u32 (1 + hval mod u32 (size - 2))) idx k idx.

(** The result: the return value, [errno] where it is set, and [*retval] as the index of the
    slot, null for [None]. *)
Record hresult := mkHres { h_ret : Z; h_errno : option Z; h_retval : option Z }.

Definition __hsearch_r (item : ENTRY) (action : ACTION) (htab : hsearch_data) : res (hresult * hsearch_data) :=
  match ht_table htab with
  | None => Undef
  | Some table =>
      f ← find_slot table (ht_size htab) (key item);
      match f with
      | inl idx => mret (mkHres 1 None (Some idx), htab)
      | inr idx =>
          match action with
          | ENTER =>
              if ht_filled htab =? ht_size htab then mret (mkHres 0 (Some ENOMEM) None, htab)
              else
                table ← wr table idx (mkSlot (hash_key (key item)) (Some item));
                mret (mkHres 1 None (Some idx), mkHtab (Some table) (ht_size htab) (u32 (ht_filled htab + 1)))
          | FIND => mret (mkHres 0 (Some ESRCH) None, htab)
          end
      end
  end.

(** What the caller reads through [*retval]. *)
Definition deref (htab : hsearch_data) (r : hresult) : option ENTRY :=
  match ht_table htab, h_retval r with
  | Some t, Some i => match t !! Z.to_nat i with Some s => entry s | None => None end
  | _, _ => None
  end.

(** The functions without [_r] ([misc/hsearch.c]) keep one table. *)
Definition hsearch (item : ENTRY) (action : ACTION) (htab : hsearch_data) : res (option Z * hsearch_data) :=
  '(r, htab) ← __hsearch_r item action htab; mret (h_retval r, htab).
Definition hcreate (calloc : Z -> bool) (nel : Z) (htab : hsearch_data) : res (Z * option Z * option hsearch_data) :=
  __hcreate_r calloc nel (Some htab).
Definition __hdestroy (htab : hsearch_data) : option hsearch_data := (__hdestroy_r (Some htab)).2.

(** ** Table sizes *)
Lemma size_step_spec n nel : 3 <= n -> Z.odd n = true -> n <= nel < 2 ^ 64 -> Z.odd nel = true ->
  (forall q, n <= q < nel -> Z.odd q = true -> ~ Z.prime q) ->
  match size_step nel with
  | inl nel' => nel' = nel + 2 /\ nel <= UINT_MAX - 2 /\ ~ Z.prime nel
  | inr (Ok (Some p)) => p = nel /\ Z.prime nel /\ nel <= UINT_MAX - 2
  | inr (Ok None) => UINT_MAX - 2 < nel
  | inr _ => False
  end.
Proof.
  intros H3 Ho Hr Hn Hq. unfold size_step. destruct (Z.ltb_spec (UINT_MAX - 2) nel) as [|Hle]; [done|].
  unfold UINT_MAX in *. rewrite u32_small by lia.
  destruct (IsPrime.isprime_correct nel ltac:(lia) Hn) as (b & -> & Hb). destruct b.
  - split; [done|]. split; [by apply Hb|lia].
  - rewrite u64_small by lia. split; [done|]. split; [lia|]. intros Hp. by apply Hb in Hp.
Qed.

Lemma lor_1 x : 0 < x -> exists k, Z.lor x 1 = 2 * k + 1 /\ (x = 2 * k \/ x = 2 * k + 1).
Proof.
  destruct x as [|[p|p|]|]; try lia; intros _.
  - exists (Zpos p). split; [done|]. right. lia.
  - exists (Zpos p). split; [done|]. left. lia.
  - exists 0. split; [done|]. by right.
Qed.

Lemma even_not_prime k : 2 < 2 * k -> ~ Z.prime (2 * k).
Proof. intros Hk [_ H]. apply (H 2); [lia|]. exists k. lia. Qed.

Lemma odd_or_even q : exists k, q = 2 * k /\ Z.odd q = false \/ q = 2 * k + 1 /\ Z.odd q = true.
Proof.
  exists (Z.div2 q). pose proof (Z.div2_odd q) as H. destruct (Z.odd q); cbn [Z.b2z] in H; [right|left]; (split; [lia|done]).
Qed.

(** [table_size] gives the least prime from [nel] (at least 3) on, if it is below the bound. *)
Lemma table_size_spec nel : 0 <= nel < 2 ^ 64 ->
  exists r, table_size nel = Ok r /\
  match r with
  | Some p => Z.prime p /\ Z.max nel 3 <= p <= UINT_MAX - 2 /\ forall q, Z.max nel 3 <= q < p -> ~ Z.prime q
  | None => forall q, Z.max nel 3 <= q <= UINT_MAX - 2 -> ~ Z.prime q
  end.
Proof.
  intros Hnel. unfold table_size. replace (if nel <? 3 then 3 else nel) with (Z.max nel 3) by (destruct (Z.ltb_spec nel 3); lia).
  assert (Hx : 3 <= Z.max nel 3 < 2 ^ 64) by lia. revert Hx. generalize (Z.max nel 3). clear nel Hnel. intros x Hx.
  destruct (lor_1 x ltac:(lia)) as (k & -> & Hk).
  set (n := 2 * k + 1). assert (Hn : Z.odd n = true) by (unfold n; by rewrite Z.odd_add_mul_2 || (rewrite Z.add_comm, Z.odd_add_mul_2)).
  set (Inv := fun nel => Z.odd nel = true /\ n <= nel < 2 ^ 64 /\ forall q, n <= q < nel -> ~ Z.prime q).
  set (Post := fun r : res (option Z) => exists r', r = Ok r' /\
    match r' with
    | Some p => Z.prime p /\ x <= p <= UINT_MAX - 2 /\ forall q, x <= q < p -> ~ Z.prime q
    | None => forall q, x <= q <= UINT_MAX - 2 -> ~ Z.prime q
    end).
  assert (Hlow : forall q, x <= q < n -> ~ Z.prime q).
  { intros q Hq. assert (q = 2 * k) as -> by (unfold n in *; lia). apply even_not_prime. lia. }
  destruct (rounds_end size_step Inv Post (fun nel => Z.max 0 (2 ^ 32 - nel))) with (p := (2 ^ 33)%positive) (s := n) as (r & -> & Hr); [|lia| |cbn; unfold n; lia|exact Hr].
  - intros nel (Ho & Hr & Hq).
    pose proof (size_step_spec n nel ltac:(unfold n; lia) Hn Hr Ho (fun q H _ => Hq q H)) as H.
    destruct (size_step nel) as [nel'|[[p|]|? ?|?| |]]; try done.
    + destruct H as (-> & Hu & Hnp). unfold UINT_MAX in Hu. split; [|lia]. split; [|split; [lia|]].
      * by rewrite Z.odd_add, Ho.
      * intros q Hr'. destruct (Z.lt_ge_cases q nel); [apply Hq; lia|].
        destruct (Z.eq_dec q nel) as [->|]; [done|]. assert (q = nel + 1) as -> by lia.
        destruct (odd_or_even nel) as [j [[_ ?]|[-> _]]]; [congruence|].
        replace (2 * j + 1 + 1) with (2 * (j + 1)) by lia. apply even_not_prime. lia.
    + destruct H as (-> & Hp & Hu). exists (Some nel). split; [done|]. split; [done|]. split; [unfold n in *; lia|].
      intros q Hr'. destruct (Z.lt_ge_cases q n); [apply Hlow|apply Hq]; lia.
    + exists None. split; [done|]. intros q Hr'. destruct (Z.lt_ge_cases q n); [apply Hlow|apply Hq]; lia.
  - split; [done|]. split; [|lia]. unfold n.
    assert (2 * k + 1 <> 2 ^ 64) by lia. lia.
Qed.

(** ** The table as an open-addressing table

    Slot [i] of the abstract table is index [i + 1]. *)
Definition slot_of (s : _ENTRY) : option (string * Z) :=
  match entry s with Some it => Some (key it, data it) | None => None end.
Definition slots (t : list _ENTRY) : list (option (string * Z)) := slot_of <$> tail t.

Definition step_of (p : Z) (k : string) : Z := 1 + hash_key k mod (p - 2).
Definition place_of (p : Z) (k : string) (j : nat) : Z :=
  (hash_key k mod p + Z.of_nat j * (p - step_of p k)) mod p.
Definition hprobe (p : Z) (k : string) (j : nat) : nat := Z.to_nat (place_of p k j).

Lemma hash_key_range k : 1 <= hash_key k < 2 ^ 32.
Proof.
  unfold hash_key. set (h := hash_chars _ _). assert (0 <= h < 2 ^ 32).
  { unfold h, hash_chars. destruct (take _ _); [apply u32_bound|apply u32_bound]. }
  destruct (Z.eqb_spec h 0); lia.
Qed.

Lemma step_range p k : 3 <= p -> 0 < step_of p k < p.
Proof. intros Hp. unfold step_of. pose proof (Z.mod_pos_bound (hash_key k) (p - 2)). lia. Qed.

Lemma place_range p k j : 3 <= p -> 0 <= place_of p k j < p.
Proof. intros Hp. apply Z.mod_pos_bound. lia. Qed.

#[export] Instance hprobe_seq p : Z.prime p -> 3 <= p -> ProbeSeq (Z.to_nat p) (hprobe p).
Proof.
  intros Hp H3. split; unfold hprobe.
  - intros k j. pose proof (place_range p k j H3). lia.
  - intros k i j Hi Hj H. pose proof (place_range p k i H3). pose proof (place_range p k j H3).
    pose proof (step_range p k H3). enough (Z.of_nat i = Z.of_nat j) by lia.
    apply (mod_step_inj p Hp (hash_key k mod p) (p - step_of p k)); unfold place_of in *; lia.
Qed.

Definition clean (t : list _ENTRY) : Prop :=
  Forall (fun s => used s = match entry s with Some it => hash_key (key it) | None => 0 end) t.

(** What one visited slot says. *)
Lemma slot_matches_spec k s : used s = match entry s with Some it => hash_key (key it) | None => 0 end ->
  slot_matches (hash_key k) k s = Ok (match slot_of s with Some (k', _) => bool_decide (k' = k) | None => false end) /\
  (used s =? 0) = match slot_of s with Some _ => false | None => true end.
Proof.
  intros Hu. unfold slot_matches, slot_of. pose proof (hash_key_range k). destruct (entry s) as [[k' d]|]; cbn [key data] in *; rewrite Hu.
  - pose proof (hash_key_range k'). split; [|by destruct (Z.eqb_spec (hash_key k') 0); [lia|]].
    unfold str_eqb. destruct (Z.eqb_spec (hash_key k') (hash_key k)); [|rewrite bool_decide_false by congruence; done].
    cbn. f_equal. apply bool_decide_ext. split; congruence.
  - destruct (Z.eqb_spec 0 (hash_key k)); [lia|]. done.
Qed.

Section Search.
Context (p : Z) (Hprime : Z.prime p) (Hp : 3 <= p <= UINT_MAX - 2).
Local Instance : ProbeSeq (Z.to_nat p) (hprobe p) := hprobe_seq p Hprime (proj1 Hp).

Lemma place_S k j :
  let idx := 1 + place_of p k j in
  (if idx <=? step_of p k then u32 (u32 (p + idx) - step_of p k) else u32 (idx - step_of p k)) = 1 + place_of p k (S j).
Proof using Hp.
  intros idx. pose proof (step_range p k (proj1 Hp)) as Hs. pose proof (place_range p k j (proj1 Hp)) as Hr.
  assert (Hn : place_of p k (S j) = (place_of p k j + (p - step_of p k)) mod p).
  { unfold place_of. rewrite (Zplus_mod_idemp_l (hash_key k mod p + _)), Nat2Z.inj_succ. f_equal. lia. }
  rewrite Hn. unfold idx, UINT_MAX, u32 in *. rewrite Zminus_mod_idemp_l. destruct (Z.leb_spec (1 + place_of p k j) (step_of p k)).
  - rewrite !Z.mod_small by lia. lia.
  - rewrite <- (Z.mod_unique_pos (place_of p k j + (p - step_of p k)) p 1 (place_of p k j - step_of p k)) by lia.
    rewrite Z.mod_small by lia. lia.
Qed.

Definition walk_index (k : string) (r : walk_result (V := Z)) : Z + Z :=
  match r with
  | Found i _ => inl (1 + Z.of_nat i)
  | Free i => inr (1 + Z.of_nat i)
  | Full => inr (1 + place_of p k 0)
  end.

Lemma place_probe k j : place_of p k j = Z.of_nat (hprobe p k j).
Proof using Hp. unfold hprobe. pose proof (place_range p k j (proj1 Hp)). lia. Qed.

Lemma place_back k : place_of p k (Z.to_nat p) = place_of p k 0.
Proof using Hp.
  unfold place_of. rewrite Z2Nat.id by lia. rewrite Z.mul_comm, Z.mod_add by lia. f_equal. lia.
Qed.

Lemma place_again k j : (j < Z.to_nat p)%nat -> place_of p k j = place_of p k 0 -> j = 0%nat.
Proof using Hp Hprime.
  intros Hj H. apply (probe_inj (size := Z.to_nat p) (probe := hprobe p) k); [lia|lia|]. unfold hprobe. by rewrite H.
Qed.

Context (t : list _ENTRY) (Hlen : length t = S (Z.to_nat p)) (Hclean : clean t).

Lemma rd_place k j : exists s, rd t (1 + place_of p k j) = Ok s /\ slots t !! hprobe p k j = Some (slot_of s) /\
  used s = match entry s with Some it => hash_key (key it) | None => 0 end.
Proof using Hp Hlen Hclean.
  pose proof (place_range p k j (proj1 Hp)). destruct t as [|s0 t']; [done|].
  destruct (lookup_lt_is_Some_2 t' (hprobe p k j)) as [s Hs]; [unfold hprobe; cbn in Hlen; lia|].
  exists s. split; [|split].
  - apply rd_Ok. split; [lia|]. by replace (Z.to_nat (1 + place_of p k j)) with (S (hprobe p k j)) by (unfold hprobe; lia).
  - unfold slots. cbn [tail]. by rewrite list_lookup_fmap, Hs.
  - apply Forall_cons in Hclean as [_ Hc]. rewrite Forall_lookup in Hc. eauto.
Qed.

Lemma probe_loop_walk n : forall fuel k j, (n + S j = Z.to_nat p)%nat -> (n < fuel)%nat ->
  probe_loop fuel t p (hash_key k) (step_of p k) (1 + place_of p k 0) k (1 + place_of p k j) =
  Ok (walk_index k (walk (hprobe p) n (slots t) k (S j))).
Proof using Hp Hprime Hlen Hclean.
  induction n as [|n IH]; intros [|fuel] k j Hj Hf; try lia; cbn [probe_loop walk]; rewrite place_S.
  - replace (S j) with (Z.to_nat p) by lia. by rewrite place_back, Z.eqb_refl.
  - destruct (Z.eqb_spec (1 + place_of p k (S j)) (1 + place_of p k 0)) as [E|_].
    { assert (S j = 0%nat) by (apply (place_again k); lia). lia. }
    destruct (rd_place k (S j)) as (s & -> & -> & Hu). destruct (slot_matches_spec k s Hu) as [Hm Hz].
    rewrite bind_ret, Hm, bind_ret, Hz. destruct (slot_of s) as [[k' v]|]; cbn [walk_index].
    + destruct (decide (k' = k)); [rewrite bool_decide_true by done|rewrite bool_decide_false by done].
      * cbn [walk_index]. by rewrite place_probe.
      * by rewrite IH by lia.
    + by rewrite place_probe.
Qed.

(** The search follows the walk. *)
Lemma find_slot_walk k : find_slot t p k = Ok (walk_index k (walk (hprobe p) (Z.to_nat p) (slots t) k 0)).
Proof using Hp Hprime Hlen Hclean.
  pose proof Hp as Hp'. unfold UINT_MAX in Hp'. unfold find_slot. rewrite (proj2 (Z.eqb_neq p 0)) by lia. pose proof (Z.mod_pos_bound (hash_key k) p ltac:(lia)) as Hb.
  assert (H0 : u32 (hash_key k mod p + 1) = 1 + place_of p k 0).
  { rewrite u32_small by lia. unfold place_of. rewrite Z.mul_0_l, Z.add_0_r, Z.mod_mod by lia. lia. }
  rewrite H0, (u32_small (p - 2)), (proj2 (Z.eqb_neq (p - 2) 0)) by lia.
  change (1 + hash_key k mod (p - 2)) with (step_of p k). pose proof (step_range p k (proj1 Hp)). rewrite (u32_small (step_of p k)) by lia.
  assert (En : Z.to_nat p = S (Z.to_nat (p - 1))) by lia. rewrite En. cbn [walk].
  destruct (rd_place k 0) as (s & -> & -> & Hu). destruct (slot_matches_spec k s Hu) as [Hm Hz].
  rewrite bind_ret, Hz. destruct (slot_of s) as [[k' v]|]; [|by rewrite place_probe].
  rewrite Hm, bind_ret. destruct (decide (k' = k)); [rewrite bool_decide_true by done|rewrite bool_decide_false by done].
  - by rewrite place_probe.
  - rewrite probe_loop_walk with (n := Z.to_nat (p - 1)) by lia. done.
Qed.
End Search.

(** ** The map a table stands for *)
Fixpoint occupied (l : list (option (string * Z))) : nat :=
  match l with
  | [] => 0
  | Some _ :: l => S (occupied l)
  | None :: l => occupied l
  end.

Lemma occupied_le l : (occupied l <= length l)%nat.
Proof. induction l as [|[x|] l IH]; cbn; lia. Qed.
Lemma occupied_insert l i x : l !! i = Some None -> occupied (<[i := Some x]> l) = S (occupied l).
Proof.
  revert i. induction l as [|y l IH]; intros [|i] H; try done; cbn in H.
  - by injection H as ->.
  - change (<[S i := Some x]> (y :: l)) with (y :: <[i := Some x]> l). destruct y; cbn [occupied]; by rewrite (IH i H).
Qed.
Lemma occupied_full l : (forall i, (i < length l)%nat -> l !! i <> Some None) -> occupied l = length l.
Proof.
  induction l as [|[x|] l IH]; intros H; cbn; [done| |].
  - f_equal. apply IH. intros i Hi. apply (H (S i)). cbn. lia.
  - destruct (H 0%nat); [cbn; lia|done].
Qed.
Lemma occupied_free l i : l !! i = Some None -> (occupied l < length l)%nat.
Proof. intros H. pose proof (occupied_insert l i ("", 0)%string H) as E. pose proof (occupied_le (<[i := Some (""%string, 0)]> l)). rewrite length_insert in *. lia. Qed.

(** [htab] holds exactly the bindings of [m]. *)
Record represents (htab : hsearch_data) (t : list _ENTRY) (m : gmap string Z) : Prop := {
  rp_table : ht_table htab = Some t;
  rp_prime : Z.prime (ht_size htab);
  rp_size : 3 <= ht_size htab <= UINT_MAX - 2;
  rp_length : length t = S (Z.to_nat (ht_size htab));
  rp_clean : clean t;
  rp_wf : wf_table (Z.to_nat (ht_size htab)) (hprobe (ht_size htab)) (slots t);
  rp_map : forall k v, m !! k = Some v <-> exists i, slots t !! i = Some (Some (k, v));
  rp_occupied : occupied (slots t) = size m;
  rp_filled : ht_filled htab = Z.of_nat (size m) }.

(** A search in a map of at most [n] bindings: the entry found and the error. *)
Definition map_search (n : Z) (item : ENTRY) (action : ACTION) (m : gmap string Z) : option ENTRY * option Z * gmap string Z :=
  match m !! key item with
  | Some d => (Some (mkEntry (key item) d), None, m)
  | None =>
      match action with
      | FIND => (None, Some ESRCH, m)
      | ENTER => if Z.of_nat (size m) =? n then (None, Some ENOMEM, m)
                 else (Some item, None, <[key item := data item]> m)
      end
  end.

(** What the caller sees of a search. *)
Definition seen (htab : hsearch_data) (r : hresult) : Z * option ENTRY * option Z := (h_ret r, deref htab r, h_errno r).
Definition shown (r : option ENTRY * option Z) : Z * option ENTRY * option Z :=
  (if r.1 is Some _ then 1 else 0, r.1, r.2).

Fixpoint searches (ops : list (ENTRY * ACTION)) (htab : hsearch_data) : res (list (Z * option ENTRY * option Z) * hsearch_data) :=
  match ops with
  | [] => mret ([], htab)
  | (item, action) :: ops =>
      '(r, htab) ← __hsearch_r item action htab;
      '(rs, htab') ← searches ops htab;
      mret (seen htab r :: rs, htab')
  end.

Fixpoint map_searches (n : Z) (ops : list (ENTRY * ACTION)) (m : gmap string Z) : list (Z * option ENTRY * option Z) :=
  match ops with
  | [] => []
  | (item, action) :: ops => let '(e, err, m) := map_search n item action m in shown (e, err) :: map_searches n ops m
  end.

Lemma slots_enter t i h it : slots (<[S i := mkSlot h (Some it)]> t) = <[i := Some (key it, data it)]> (slots t).
Proof. unfold slots. destruct t as [|s0 t]; [done|]. change (<[S i := mkSlot h (Some it)]> (s0 :: t)) with (s0 :: <[i := mkSlot h (Some it)]> t). cbn [tail]. by rewrite list_fmap_insert. Qed.

Lemma length_slots t n : length t = S n -> length (slots t) = n.
Proof. unfold slots. rewrite length_fmap. destruct t; cbn; lia. Qed.

Lemma slots_clean_insert t i it : clean t -> clean (<[i := mkSlot (hash_key (key it)) (Some it)]> t).
Proof. intros H. by apply Forall_insert. Qed.

Lemma deref_null htab r e : deref htab (mkHres r e None) = None.
Proof. unfold deref. by destruct (ht_table htab). Qed.

(** ** One search *)
Section Refine.
Context (htab : hsearch_data) (t : list _ENTRY) (m : gmap string Z) (Hrep : represents htab t m).
Local Instance : ProbeSeq (Z.to_nat (ht_size htab)) (hprobe (ht_size htab)) :=
  hprobe_seq _ (rp_prime _ _ _ Hrep) (proj1 (rp_size _ _ _ Hrep)).

Lemma deref_slot i k v : slots t !! i = Some (Some (k, v)) ->
  deref htab (mkHres 1 None (Some (1 + Z.of_nat i))) = Some (mkEntry k v).
Proof.
  intros Hi. unfold deref. rewrite (rp_table _ _ _ Hrep). cbn [h_retval].
  replace (Z.to_nat (1 + Z.of_nat i)) with (S i) by lia.
  unfold slots in Hi. destruct t as [|s0 t']; [done|]. cbn [tail] in Hi. rewrite list_lookup_fmap in Hi.
  change ((s0 :: t') !! S i) with (t' !! i).
  destruct (t' !! i) as [s|]; [|done]. cbn in Hi. unfold slot_of in Hi. by destruct (entry s) as [[? ?]|]; simplify_eq/=.
Qed.

(** Storing at the free slot a search ended at adds the binding. *)
Lemma enter_represents item i : m !! key item = None ->
  walk (hprobe (ht_size htab)) (Z.to_nat (ht_size htab)) (slots t) (key item) 0 = Free i ->
  represents (mkHtab (Some (<[S i := mkSlot (hash_key (key item)) (Some item)]> t)) (ht_size htab) (u32 (ht_filled htab + 1)))
    (<[S i := mkSlot (hash_key (key item)) (Some item)]> t) (<[key item := data item]> m).
Proof.
  intros Hno Hw. pose proof (walk_spec _ _ _ (key item) (rp_wf _ _ _ Hrep)) as Hs. rewrite Hw in Hs. destruct Hs as [Hfree _].
  pose proof (lookup_lt_Some _ _ _ Hfree) as Hlt. pose proof (occupied_free _ _ Hfree) as Hoc.
  rewrite (length_slots t _ (rp_length _ _ _ Hrep)) in Hlt, Hoc.
  pose proof (insert_wf _ _ _ (key item) (data item) i (rp_wf _ _ _ Hrep) Hw) as Hins.
  destruct Hrep as [Ht Hpr Hsz Hlen Hcl Hwf Hmap Hocc Hfil]. unfold UINT_MAX in Hsz.
  split; cbn [ht_table ht_size ht_filled]; try done.
  - by rewrite length_insert.
  - by apply slots_clean_insert.
  - by rewrite slots_enter.
  - intros k v. rewrite slots_enter. destruct (decide (k = key item)) as [->|Hne].
    + rewrite lookup_insert_eq. split.
      * intros [= <-]. exists i. by rewrite list_lookup_insert_eq by (by eapply lookup_lt_Some).
      * intros [j Hj]. destruct (decide (j = i)) as [->|].
        { rewrite list_lookup_insert_eq in Hj by (by eapply lookup_lt_Some). congruence. }
        rewrite list_lookup_insert_ne in Hj by done.
        assert (m !! key item = Some v) by (apply Hmap; eauto). congruence.
    + rewrite lookup_insert_ne by done. rewrite Hmap. split; intros [j Hj]; exists j.
      * rewrite list_lookup_insert_ne; [done|]. intros ->. congruence.
      * destruct (decide (j = i)) as [->|]; [|by rewrite list_lookup_insert_ne in Hj].
        rewrite list_lookup_insert_eq in Hj by (by eapply lookup_lt_Some). congruence.
  - by rewrite slots_enter, map_size_insert_None, occupied_insert, Hocc.
  - rewrite Hfil, map_size_insert_None by done. rewrite u32_small by lia. lia.
Qed.

Lemma hsearch_step item action : exists r htab' t',
  __hsearch_r item action htab = Ok (r, htab') /\ ht_size htab' = ht_size htab /\
  let '(e, err, m') := map_search (ht_size htab) item action m in
  represents htab' t' m' /\ seen htab' r = shown (e, err).
Proof.
  unfold __hsearch_r, map_search. rewrite (rp_table _ _ _ Hrep).
  rewrite (find_slot_walk _ (rp_prime _ _ _ Hrep) (rp_size _ _ _ Hrep) t (rp_length _ _ _ Hrep) (rp_clean _ _ _ Hrep)). rewrite bind_ret.
  pose proof (walk_spec _ _ _ (key item) (rp_wf _ _ _ Hrep)) as Hs.
  destruct (walk (hprobe (ht_size htab)) _ (slots t) (key item) 0) as [i v|i|] eqn:Hw; cbn [walk_index].
  - do 3 eexists. split; [reflexivity|]. split; [done|].
    rewrite (proj2 (rp_map _ _ _ Hrep (key item) v)) by eauto. split; [exact Hrep|].
    unfold seen. by rewrite (deref_slot i (key item) v).
  - destruct Hs as [Hfree Hno].
    assert (Hn : m !! key item = None).
    { apply eq_None_not_Some. intros [v [j Hj]%(rp_map _ _ _ Hrep)]. apply Hno. by exists j, v. }
    rewrite Hn. pose proof (occupied_free _ _ Hfree) as Hoc.
    rewrite (length_slots t _ (rp_length _ _ _ Hrep)), (rp_occupied _ _ _ Hrep) in Hoc. pose proof (rp_size _ _ _ Hrep).
    destruct action; [do 3 eexists; split; [reflexivity|]; split; [done|]; split; [exact Hrep|unfold seen; by rewrite deref_null]|].
    rewrite (rp_filled _ _ _ Hrep), (proj2 (Z.eqb_neq (Z.of_nat (size m)) _)) by lia.
    pose proof (lookup_lt_Some _ _ _ Hfree) as Hlt. rewrite (length_slots t _ (rp_length _ _ _ Hrep)) in Hlt.
    rewrite wr_Ok by (rewrite (rp_length _ _ _ Hrep); lia). rewrite bind_ret.
    replace (Z.to_nat (1 + Z.of_nat i)) with (S i) by lia.
    pose proof (enter_represents item i Hn Hw) as Hr. rewrite (rp_filled _ _ _ Hrep) in Hr.
    do 3 eexists. split; [reflexivity|]. split; [done|]. split; [exact Hr|].
    unfold seen, deref. cbn [h_retval h_ret h_errno ht_table]. replace (Z.to_nat (1 + Z.of_nat i)) with (S i) by lia.
    rewrite list_lookup_insert_eq by (rewrite (rp_length _ _ _ Hrep); lia). done.
  - destruct Hs as [Hno Hfull].
    assert (Hn : m !! key item = None).
    { apply eq_None_not_Some. intros [v [j Hj]%(rp_map _ _ _ Hrep)]. apply Hno. by exists j, v. }
    rewrite Hn. assert (Hsz : Z.of_nat (size m) = ht_size htab).
    { rewrite <- (rp_occupied _ _ _ Hrep), occupied_full; rewrite (length_slots t _ (rp_length _ _ _ Hrep)); [|done].
      pose proof (rp_size _ _ _ Hrep). lia. }
    rewrite (rp_filled _ _ _ Hrep), Hsz, Z.eqb_refl.
    destruct action; do 3 eexists; (split; [reflexivity|]; split; [done|]; split; [exact Hrep|unfold seen; by rewrite deref_null]).
Qed.
End Refine.

Lemma searches_refine ops : forall htab t m, represents htab t m ->
  exists htab', searches ops htab = Ok (map_searches (ht_size htab) ops m, htab').
Proof.
  induction ops as [|[item action] ops IH]; intros htab t m Hrep; cbn [searches map_searches]; [by eexists|].
  destruct (hsearch_step htab t m Hrep item action) as (r & htab1 & t1 & -> & Hsz & H).
  destruct (map_search (ht_size htab) item action m) as [[e err] m1]. destruct H as [Hrep1 Hseen].
  destruct (IH htab1 t1 m1 Hrep1) as [htab2 H2]. exists htab2. rewrite bind_ret, H2, bind_ret, Hseen, Hsz. done.
Qed.

Lemma new_represents p : Z.prime p -> 3 <= p <= UINT_MAX - 2 ->
  represents (mkHtab (Some (replicate (S (Z.to_nat p)) (mkSlot 0 None))) p 0) (replicate (S (Z.to_nat p)) (mkSlot 0 None)) ∅.
Proof.
  intros Hp Hr.
  assert (Hs : slots (replicate (S (Z.to_nat p)) (mkSlot 0 None)) = replicate (Z.to_nat p) None).
  { unfold slots. cbn [replicate tail]. rewrite fmap_replicate. done. }
  split; cbn [ht_table ht_size ht_filled]; try done.
  - by rewrite length_replicate.
  - unfold clean. by apply Forall_replicate.
  - rewrite Hs. apply empty_wf.
  - intros k v. rewrite Hs, lookup_empty. split; [done|]. by intros [i [? _]%lookup_replicate_1].
  - rewrite Hs, map_size_empty. clear. by induction (Z.to_nat p).
Qed.

Lemma hcreate_spec calloc nel h : ht_table h = None -> 0 <= nel <= 4294967291 ->
  exists p, Z.prime p /\ Z.max nel 3 <= p <= UINT_MAX - 2 /\ (forall q, Z.max nel 3 <= q < p -> ~ Z.prime q) /\
  __hcreate_r calloc nel (Some h) =
    Ok (if calloc (p + 1) then (1, None, Some (mkHtab (Some (replicate (S (Z.to_nat p)) (mkSlot 0 None))) p 0))
        else (0, None, Some (mkHtab None p 0))).
Proof.
  intros Hn Hnel. destruct (table_size_spec nel ltac:(lia)) as ([p|] & Hs & H).
  - destruct H as (Hp & Hr & Hl). exists p. split; [done|]. split; [done|]. split; [done|].
    unfold UINT_MAX in Hr. unfold __hcreate_r. rewrite Hn, Hs, bind_ret, u32_small by lia.
    replace (Z.to_nat (p + 1)) with (S (Z.to_nat p)) by lia. by destruct (calloc (p + 1)).
  - destruct (H 4294967291); [unfold UINT_MAX; lia|].
    pose proof HigherPrime.primes_prime as Hf. rewrite Forall_forall in Hf. apply Hf. apply list_elem_of_In. cbn. tauto.
Qed.

(** Sizes of tables: [hcreate_r] ends for every request, with a table that has the
    least prime number of slots that is not below the request (and not below 3), or an error
    of [calloc]; only requests above the largest prime below [UINT_MAX - 2] are refused. *)
Theorem hcreate_least_prime calloc nel h : ht_table h = None -> 0 <= nel < 2 ^ 64 ->
  if nel <=? 4294967291
  then exists p, Z.prime p /\ Z.max nel 3 <= p <= UINT_MAX - 2 /\ (forall q, Z.max nel 3 <= q < p -> ~ Z.prime q) /\
    __hcreate_r calloc nel (Some h) =
      Ok (if calloc (p + 1) then (1, None, Some (mkHtab (Some (replicate (S (Z.to_nat p)) (mkSlot 0 None))) p 0))
          else (0, None, Some (mkHtab None p 0)))
  else __hcreate_r calloc nel (Some h) = Ok (0, Some ENOMEM, Some h).
Proof.
  intros Hn Hnel. destruct (Z.leb_spec nel 4294967291) as [Hle|Hgt]; [apply hcreate_spec; [done|lia]|].
  destruct (table_size_spec nel ltac:(lia)) as ([p|] & Hs & H).
  - exfalso. destruct H as (Hp & Hr & _). unfold UINT_MAX in Hr.
    assert (p = 4294967292 \/ p = 4294967293) as [->| ->] by lia.
    + by apply (even_not_prime 2147483646).
    + apply (proj2 Hp 9241); [lia|]. by exists 464773.
  - unfold __hcreate_r. by rewrite Hn, Hs, bind_ret.
Qed.

(** C39. A table is a map of bounded size: after [hcreate_r] every sequence of searches returns
    what the same searches in a finite map return, with as many bindings at most as the
    table has slots.  In particular an entry that was entered is found, the first [ENTER] of a key
    decides its data, [ENOMEM] means that the table is full, and no search fails to end. *)
Theorem hsearch_refines_map calloc nel h h' ops : ht_table h = None -> 0 <= nel <= 4294967291 ->
  __hcreate_r calloc nel (Some h) = Ok (1, None, Some h') ->
  nel <= ht_size h' /\ exists h'', searches ops h' = Ok (map_searches (ht_size h') ops ∅, h'').
Proof.
  intros Hn Hnel H. destruct (hcreate_spec calloc nel h Hn Hnel) as (p & Hp & Hr & _ & Hc). rewrite Hc in H.
  destruct (calloc (p + 1)); [|done]. injection H as <-. split; [cbn; lia|].
  apply (searches_refine ops _ _ ∅ (new_represents p Hp ltac:(lia))).
Qed.

(** ** A table for four entries *)
Module Example15.
Definition h0 : hsearch_data := mkHtab None 0 0.
Definition ops : list (ENTRY * ACTION) :=
  [(mkEntry "alpha" 1, ENTER); (mkEntry "beta" 2, ENTER); (mkEntry "alpha" 9, ENTER); (mkEntry "gamma" 0, FIND);
   (mkEntry "gamma" 3, ENTER); (mkEntry "delta" 4, ENTER); (mkEntry "eta" 5, ENTER); (mkEntry "theta" 6, ENTER); (mkEntry "gamma" 0, FIND)]%string.
Definition h5 : hsearch_data :=
  match __hcreate_r (fun _ => true) 4 (Some h0) with Ok (_, _, Some h) => h | _ => h0 end.

Lemma hcreate_least_prime_witness : exists p, Z.prime p /\ 4 <= p <= UINT_MAX - 2 /\ (forall q, 4 <= q < p -> ~ Z.prime q) /\
  __hcreate_r (fun _ => true) 4 (Some h0) = Ok (1, None, Some (mkHtab (Some (replicate (S (Z.to_nat p)) (mkSlot 0 None))) p 0)).
Proof. apply (hcreate_least_prime (fun _ => true) 4 h0); [reflexivity|lia]. Defined.

Lemma hsearch_refines_map_witness : 4 <= ht_size h5 /\
  exists h'', searches ops h5 = Ok
    ([(1, Some (mkEntry "alpha" 1), None); (1, Some (mkEntry "beta" 2), None); (1, Some (mkEntry "alpha" 1), None);
      (0, None, Some ESRCH); (1, Some (mkEntry "gamma" 3), None); (1, Some (mkEntry "delta" 4), None);
      (1, Some (mkEntry "eta" 5), None); (0, None, Some ENOMEM); (1, Some (mkEntry "gamma" 3), None)]%string, h'').
Proof. apply (hsearch_refines_map (fun _ => true) 4 h0 h5 ops); [reflexivity|lia|vm_compute; reflexivity]. Defined.
End Example15.
