(* ===== verification/DynTls.v ===== *)
(** * Dynamic thread-local storage

    The module ids, the slotinfo list and the DTVs of the threads
    ([elf/dl-tls.c]), with the parts of [elf/dl-open.c] and [elf/dl-close.c] that
    publish and withdraw modules.  A pointer [dtv] is modelled by the array it points
    into: [d_len] is [dtv[-1].counter], [d_gen] is [dtv[0].counter] and [d_ent] holds
    [dtv[1]], [dtv[2]], ... at the same indices (index 0 is not used).

    Memory from [malloc] is a map from addresses to blocks; [free] of an address
    that is not in it has no meaning.  Stores into TLS blocks are recorded in the order in
    which they are made. *)

From S2P Require Import Prelude LinkMap TlsOffset LoadCmds.

(** ** State *)
Record dtv_pointer := mkPtr { val : Z; to_free : Z }.
Definition TLS_DTV_UNALLOCATED : Z := 2 ^ 64 - 1.
Definition unallocated : dtv_pointer := mkPtr TLS_DTV_UNALLOCATED 0.

Record dtv := mkDtv { d_addr : Z; d_len : Z; d_gen : Z; d_ent : list dtv_pointer }.

Record slotinfo := mkSI { si_gen : Z; si_map : option mapid }.
#[export] Instance slotinfo_eq_dec : EqDecision slotinfo.
Proof. solve_decision. Defined.

(** The fields of a link map this code uses. *)
Record tmod := mkMod {
  tm_tls : tlsinfo;
  tm_initimage : list Z;           (* l_tls_initimage_size bytes at l_tls_initimage *)
  tm_in_slotinfo : bool;
  tm_ns : Z;
  tm_initial : bool }.             (* l_type is lt_executable or lt_library *)
Definition tm_modid (m : tmod) : Z := tl_modid (tm_tls m).
Definition tm_offset (m : tmod) : Z := tl_offset (tm_tls m).
Definition tm_blocksize (m : tmod) : Z := tl_blocksize (tm_tls m).

(** [th_tcb] is the thread pointer. *)
Record thread := mkThread { th_tcb : Z; th_dtv : dtv }.

(** What a block of memory was requested for; the program does not keep it. *)
Inductive purpose := ForDtv (t : Z) | ForTls (t : Z) (m : mapid) | ForSlots.
Record mblock := mkBlock { mb_size : Z; mb_for : purpose }.

Record tls_state := mkTls {
  ts_list : list (list slotinfo);  (* GL(dl_tls_dtv_slotinfo_list); len is the length of a block *)
  ts_max : Z;                      (* GL(dl_tls_max_dtv_idx) *)
  ts_gaps : bool;                  (* GL(dl_tls_dtv_gaps) *)
  ts_nelem : Z;                    (* GL(dl_tls_static_nelem) *)
  ts_gen : Z;                      (* GL(dl_tls_generation) *)
  ts_limit : Z;                    (* _dl_tls_initial_modid_limit *)
  ts_initial_dtv : Z;              (* GL(dl_initial_dtv) *)
  ts_mods : gmap mapid tmod;
  ts_threads : gmap Z thread;
  ts_heap : gmap Z mblock;
  ts_writes : list (Z * list Z) }.

Definition set_list (x : list (list slotinfo)) (s : tls_state) : tls_state :=
  mkTls x (ts_max s) (ts_gaps s) (ts_nelem s) (ts_gen s) (ts_limit s) (ts_initial_dtv s) (ts_mods s) (ts_threads s) (ts_heap s) (ts_writes s).
Definition set_max (x : Z) (s : tls_state) : tls_state :=
  mkTls (ts_list s) x (ts_gaps s) (ts_nelem s) (ts_gen s) (ts_limit s) (ts_initial_dtv s) (ts_mods s) (ts_threads s) (ts_heap s) (ts_writes s).
Definition set_gaps (x : bool) (s : tls_state) : tls_state :=
  mkTls (ts_list s) (ts_max s) x (ts_nelem s) (ts_gen s) (ts_limit s) (ts_initial_dtv s) (ts_mods s) (ts_threads s) (ts_heap s) (ts_writes s).
Definition set_generation (x : Z) (s : tls_state) : tls_state :=
  mkTls (ts_list s) (ts_max s) (ts_gaps s) (ts_nelem s) x (ts_limit s) (ts_initial_dtv s) (ts_mods s) (ts_threads s) (ts_heap s) (ts_writes s).
Definition set_limit (x : Z) (s : tls_state) : tls_state :=
  mkTls (ts_list s) (ts_max s) (ts_gaps s) (ts_nelem s) (ts_gen s) x (ts_initial_dtv s) (ts_mods s) (ts_threads s) (ts_heap s) (ts_writes s).
Definition set_initial_dtv (x : Z) (s : tls_state) : tls_state :=
  mkTls (ts_list s) (ts_max s) (ts_gaps s) (ts_nelem s) (ts_gen s) (ts_limit s) x (ts_mods s) (ts_threads s) (ts_heap s) (ts_writes s).
Definition set_mods (x : gmap mapid tmod) (s : tls_state) : tls_state :=
  mkTls (ts_list s) (ts_max s) (ts_gaps s) (ts_nelem s) (ts_gen s) (ts_limit s) (ts_initial_dtv s) x (ts_threads s) (ts_heap s) (ts_writes s).
Definition set_threads (x : gmap Z thread) (s : tls_state) : tls_state :=
  mkTls (ts_list s) (ts_max s) (ts_gaps s) (ts_nelem s) (ts_gen s) (ts_limit s) (ts_initial_dtv s) (ts_mods s) x (ts_heap s) (ts_writes s).
Definition set_heap (x : gmap Z mblock) (s : tls_state) : tls_state :=
  mkTls (ts_list s) (ts_max s) (ts_gaps s) (ts_nelem s) (ts_gen s) (ts_limit s) (ts_initial_dtv s) (ts_mods s) (ts_threads s) x (ts_writes s).
Definition add_write (w : Z * list Z) (s : tls_state) : tls_state :=
  mkTls (ts_list s) (ts_max s) (ts_gaps s) (ts_nelem s) (ts_gen s) (ts_limit s) (ts_initial_dtv s) (ts_mods s) (ts_threads s) (ts_heap s) (ts_writes s ++ [w]).

Definition get_mod (m : mapid) : M tls_state tmod := s ← gets ts_mods; lift (res_of_option (s !! m)).
Definition put_mod (m : mapid) (x : tmod) : M tls_state unit := modify (fun s => set_mods (<[m := x]> (ts_mods s)) s).
Definition get_thread (t : Z) : M tls_state thread := s ← gets ts_threads; lift (res_of_option (s !! t)).
Definition put_dtv (t : Z) (d : dtv) : M tls_state unit :=
  th ← get_thread t; modify (fun s => set_threads (<[t := mkThread (th_tcb th) d]> (ts_threads s)) s).

Definition with_tls (f : tlsinfo -> tlsinfo) (m : tmod) : tmod :=
  mkMod (f (tm_tls m)) (tm_initimage m) (tm_in_slotinfo m) (tm_ns m) (tm_initial m).
Definition with_modid (i : Z) (l : tlsinfo) : tlsinfo :=
  LinkMap.mkTls (tl_blocksize l) (tl_align l) (tl_firstbyte_offset l) (tl_offset l) i (tl_need_init l).
Definition with_need_init (b : bool) (l : tlsinfo) : tlsinfo :=
  LinkMap.mkTls (tl_blocksize l) (tl_align l) (tl_firstbyte_offset l) (tl_offset l) (tl_modid l) b.
Definition with_in_slotinfo (m : tmod) : tmod :=
  mkMod (tm_tls m) (tm_initimage m) true (tm_ns m) (tm_initial m).

Definition dtv_at (d : dtv) (i : Z) : res dtv_pointer := if i <? 1 then Undef else rd (d_ent d) i.
Definition set_dtv_at (d : dtv) (i : Z) (p : dtv_pointer) : res dtv :=
  if i <? 1 then Undef else e ← wr (d_ent d) i p; mret (mkDtv (d_addr d) (d_len d) (d_gen d) e).
Definition set_dtv_gen (d : dtv) (g : Z) : dtv := mkDtv (d_addr d) (d_len d) g (d_ent d).

Definition DTV_SURPLUS : Z := 14.
Definition TLS_SLOTINFO_SURPLUS : Z := 62.
Definition sizeof_dtv_t : Z := 16.

(** ** Memory *)
Section Memory.
(** [malloc]: the address of a new block of the given size, zero when there is no memory. *)
Context (malloc : gmap Z mblock -> Z -> Z).

Definition c_malloc (n : Z) (for_ : purpose) : M tls_state Z :=
  h ← gets ts_heap;
  let p := malloc h n in
  if p =? 0 then mret 0
  else modify (set_heap (<[p := mkBlock n for_]> h));; mret p.

Definition c_free (p : Z) : M tls_state unit :=
  if p =? 0 then mret tt
  else
    h ← gets ts_heap;
    match h !! p with
    | Some _ => modify (set_heap (delete p h))
    | None => lift Undef
    end.

(** [realloc]: the new block may be where the old one was. *)
Definition c_realloc (p n : Z) (for_ : purpose) : M tls_state Z :=
  h ← gets ts_heap;
  match h !! p with
  | None => lift Undef
  | Some _ =>
      let q := malloc (delete p h) n in
      if q =? 0 then mret 0
      else modify (set_heap (<[q := mkBlock n for_]> (delete p h)));; mret q
  end.

Definition oom {A} : M tls_state A := lift (Fatal "cannot allocate memory for thread-local data: ABORT").

(** ** Module ids *)

(** [while (result - disp < runp->len)]: [rest] is the block from [result - disp] on.  The
    result says whether an unused entry was found. *)
Fixpoint scan_block (max : Z) (rest : list slotinfo) (result : Z) : res (Z * bool) :=
  match rest with
  | [] => mret (result, false)
  | s :: rest =>
      match si_map s with
      | None => mret (result, true)
      | Some _ =>
          c_assert (result + 1 <=? max + 1) "result <= GL(dl_tls_max_dtv_idx) + 1";;
          scan_block max rest (result + 1)
      end
  end.

(** The loop over the list; an unused entry is given to [l] with generation 0. *)
Fixpoint find_gap (max : Z) (l : mapid) (blocks : list (list slotinfo)) (disp result : Z) : res (Z * list (list slotinfo)) :=
  match blocks with
  | [] => mret (result, [])
  | b :: rest =>
      '(result, found) ← scan_block max (drop (Z.to_nat (result - disp)) b) result;
      if (found : bool) then mret (result, <[Z.to_nat (result - disp) := mkSI 0 (Some l)]> b :: rest)
      else '(result, rest) ← find_gap max l rest (disp + Z.of_nat (length b)) result; mret (result, b :: rest)
  end.

Definition _dl_assign_tls_modid (l : mapid) : M tls_state unit :=
  s ← gets id;
  lm ← get_mod l;
  result ←
    (if ts_gaps s then
       let result := ts_nelem s + 1 in
       result ←
         (if result <=? ts_max s then
            match ts_list s with
            | [] => lift Undef
            | _ => '(result, blocks) ← lift (find_gap (ts_max s) l (ts_list s) 0 result);
                   modify (set_list blocks);; mret result
            end
          else mret result);
       if ts_max s <? result then
         lift (c_assert (result =? ts_max s + 1) "result == GL(dl_tls_max_dtv_idx) + 1");;
         modify (set_gaps false);; modify (set_max (ts_max s + 1));; mret (ts_max s + 1)
       else mret result
     else modify (set_max (ts_max s + 1));; mret (ts_max s + 1));
  put_mod l (with_tls (with_modid result) lm).

Definition used_slots (b : list slotinfo) : Z := Z.of_nat (length (filter (fun s => si_map s <> None) b)).

Definition _dl_count_modids (s : tls_state) : Z :=
  if ts_gaps s then foldr (fun b n => used_slots b + n) 0 (ts_list s) else ts_max s.

(** [_dl_tls_initial_modid_limit_setup]: the first index from 1 on whose entry is not an initial object. *)
Fixpoint modid_limit (mods : gmap mapid tmod) (b : list slotinfo) (idx : Z) : res Z :=
  match b with
  | [] => mret idx
  | s :: b =>
      match si_map s with
      | None => mret idx
      | Some m => x ← res_of_option (mods !! m);
                  if tm_initial x then modid_limit mods b (idx + 1) else mret idx
      end
  end.
Definition _dl_tls_initial_modid_limit_setup : M tls_state unit :=
  s ← gets id;
  match ts_list s with
  | [] => lift Undef
  | b :: _ => r ← lift (modid_limit (ts_mods s) (tail b) 1); modify (set_limit r)
  end.

(** The entry [idx] of the list, which is extended by a block when [idx] is the first one behind it. *)
Definition new_slots : list slotinfo := replicate (Z.to_nat TLS_SLOTINFO_SURPLUS) (mkSI 0 None).

Fixpoint has_slot (blocks : list (list slotinfo)) (idx : Z) : bool :=
  match blocks with
  | [] => false
  | b :: rest => (idx <? Z.of_nat (length b)) || has_slot rest (idx - Z.of_nat (length b))
  end.
Fixpoint set_slot (blocks : list (list slotinfo)) (idx : Z) (x : slotinfo) : list (list slotinfo) :=
  match blocks with
  | [] => []
  | b :: rest =>
      if idx <? Z.of_nat (length b) then <[Z.to_nat idx := x]> b :: rest
      else b :: set_slot rest (idx - Z.of_nat (length b)) x
  end.
Definition list_len (blocks : list (list slotinfo)) : Z := Z.of_nat (length (concat blocks)).

Definition _dl_add_to_slotinfo (l : mapid) (do_add : bool) : M tls_state bool :=
  lm ← get_mod l;
  if (tm_blocksize lm =? 0) || tm_in_slotinfo lm then mret false
  else
    blocks ← gets ts_list;
    (if bool_decide (blocks = []) then lift Undef
     else if has_slot blocks (tm_modid lm) then mret tt
     else
       lift (c_assert (tm_modid lm - list_len blocks =? 0) "idx == 0");;
       p ← c_malloc (16 + TLS_SLOTINFO_SURPLUS * 16) ForSlots;
       if p =? 0 then lift (Signal "dlopen" "cannot create TLS data structures")
       else modify (set_list (blocks ++ [new_slots])));;
    (if do_add then
       modify (fun s => set_list (set_slot (ts_list s) (tm_modid lm) (mkSI (u64 (ts_gen s + 1)) (Some l))) s);;
       put_mod l (with_in_slotinfo lm)
     else mret tt);;
    mret true.

(** ** Withdrawing a module ([elf/dl-close.c]) *)

(** [while (idx - disp > lim)]: the last used entry below [lim + n]. *)
Fixpoint last_used (n : nat) (b : list slotinfo) (lim : Z) : res (option Z) :=
  match n with
  | O => mret None
  | S n =>
      s ← rd b (lim + Z.of_nat n);
      match si_map s with
      | Some _ => mret (Some (lim + Z.of_nat n))
      | None => last_used n b lim
      end
  end.

(** The result: the value returned, the list, [GL(dl_tls_max_dtv_idx)] and [GL(dl_tls_dtv_gaps)]. *)
Fixpoint remove_slotinfo (nelem gen max : Z) (gaps should_be_there : bool) (idx : Z) (blocks : list (list slotinfo)) (disp : Z)
    : res (bool * list (list slotinfo) * Z * bool) :=
  match blocks with
  | [] => Undef
  | b :: next =>
      let len := Z.of_nat (length b) in
      let search idx (b : list slotinfo) next max gaps :=
        let lim := if disp =? 0 then 1 + nelem else 0 in
        u ← last_used (Z.to_nat (idx - disp - lim)) b lim;
        match u with
        | Some j => mret (true, b :: next, disp + j, gaps)
        | None => mret (false, b :: next, max, gaps)
        end in
      if len <=? idx - disp then
        match next with
        | [] => c_assert (negb should_be_there) "! should_be_there";; search idx b next max gaps
        | _ =>
            '(found, next, max, gaps) ← remove_slotinfo nelem gen max gaps should_be_there idx next (disp + len);
            if (found : bool) then mret (true, b :: next, max, gaps)
            else search (disp + len) b next max gaps
        end
      else
        old ← rd b (idx - disp);
        let b := match si_map old with
                 | Some _ => <[Z.to_nat (idx - disp) := mkSI (u64 (gen + 1)) None]> b
                 | None => b
                 end in
        if negb (idx =? max) then mret (true, b :: next, max, true)
        else search idx b next max gaps
  end.

(** What [_dl_close_worker] does for an object with TLS; [init_called] is [l_init_called]. *)
Definition close_tls (l : mapid) (init_called : bool) : M tls_state unit :=
  s ← gets id;
  lm ← get_mod l;
  match ts_list s with
  | [] => mret tt
  | _ =>
      '(found, blocks, max, gaps) ← lift (remove_slotinfo (ts_nelem s) (ts_gen s) (ts_max s) (ts_gaps s)
                                           init_called (tm_modid lm) (ts_list s) 0);
      modify (set_list blocks);; modify (set_gaps gaps);;
      modify (set_max (if (found : bool) then max else ts_nelem s))
  end.

(** The new generation, for [_dl_close_worker] and [update_tls_slotinfo]. *)
Definition bump_generation (wrapped : string) : M tls_state Z :=
  g ← gets ts_gen;
  let newgen := u64 (g + 1) in
  if newgen =? 0 then lift (Fatal wrapped)
  else modify (set_generation newgen);; mret newgen.

(** ** The DTV of a thread *)
Definition no_pointer : dtv_pointer := mkPtr 0 0.

(** [allocate_dtv]; [false] when there is no memory.  The thread gets the new array. *)
Definition allocate_dtv (t tcb : Z) : M tls_state bool :=
  max_modid ← gets ts_max;
  let dtv_length := u64 (max_modid + DTV_SURPLUS) in
  p ← c_malloc ((dtv_length + 2) * sizeof_dtv_t) (ForDtv t);
  if p =? 0 then mret false
  else
    let d := mkDtv p dtv_length 0 (replicate (Z.to_nat (dtv_length + 1)) no_pointer) in
    modify (fun s => set_threads (<[t := mkThread tcb d]> (ts_threads s)) s);;
    mret true.

(** [malloc_complete] is [__rtld_malloc_is_complete ()]. *)
Context (malloc_complete : bool).

Definition _dl_resize_dtv (t : Z) (d : dtv) (max_modid : Z) : M tls_state dtv :=
  let newsize := u64 (max_modid + DTV_SURPLUS) in
  let oldsize := d_len d in
  (if newsize <? oldsize then lift Undef else mret tt);;
  initial ← gets ts_initial_dtv;
  newp ←
    (if d_addr d =? initial then
       p ← c_malloc ((2 + newsize) * sizeof_dtv_t) (ForDtv t);
       if p =? 0 then oom
       else
         (if malloc_complete then mret tt else modify (set_initial_dtv p));;
         mret p
     else
       p ← c_realloc (d_addr d) ((2 + newsize) * sizeof_dtv_t) (ForDtv t);
       if p =? 0 then oom else mret p);
  mret (mkDtv newp newsize (d_gen d)
          (take (Z.to_nat (oldsize + 1)) (d_ent d) ++ replicate (Z.to_nat (newsize - oldsize)) no_pointer)).

(** The bytes of a module: its image, and zeros. *)
Definition init_bytes (m : tmod) : list Z :=
  tm_initimage m ++ replicate (Z.to_nat (tm_blocksize m - Z.of_nat (length (tm_initimage m)))) 0.

Definition is_static (off : Z) : bool := negb ((off =? NO_TLS_OFFSET) || (off =? FORCED_DYNAMIC_TLS_OFFSET)).

(** One entry of the loop of [_dl_allocate_tls_init]. *)
Definition init_slot (t : Z) (main_thread : bool) (modid : Z) (s : slotinfo) (m : mapid) : M tls_state unit :=
  generation ← gets ts_gen;
  lift (c_assert (si_gen s <=? generation) "listp->slotinfo[cnt].gen <= GL(dl_tls_generation)");;
  lm ← get_mod m;
  th ← get_thread t;
  d ← lift (set_dtv_at (th_dtv th) (tm_modid lm) unallocated);
  put_dtv t d;;
  if negb (is_static (tm_offset lm)) then mret tt
  else
    lift (c_assert (tm_modid lm =? modid) "map->l_tls_modid == total + cnt");;
    lift (c_assert (Z.of_nat (length (tm_initimage lm)) <=? tm_blocksize lm) "map->l_tls_blocksize >= map->l_tls_initimage_size");;
    lift (c_assert (tm_blocksize lm <=? tm_offset lm) "(size_t) map->l_tls_offset >= map->l_tls_blocksize");;
    let dest := u64 (th_tcb th - tm_offset lm) in
    d ← lift (set_dtv_at d (tm_modid lm) (mkPtr dest 0));
    put_dtv t d;;
    if negb (tm_ns lm =? 0) && main_thread then mret tt
    else
      modify (add_write (dest, init_bytes lm));;
      if main_thread then put_mod m (with_tls (with_need_init false) lm) else mret tt.

(** The loop over one block: [modid] is [total + cnt].  The result is [total + cnt] and [maxgen] behind it. *)
Fixpoint init_slots (t : Z) (main_thread : bool) (max : Z) (b : list slotinfo) (modid maxgen : Z) : M tls_state (Z * Z) :=
  match b with
  | [] => mret (modid, maxgen)
  | s :: b =>
      if max <? modid then mret (modid, maxgen)
      else match si_map s with
           | None => init_slots t main_thread max b (modid + 1) maxgen
           | Some m => init_slot t main_thread modid s m;;
                       init_slots t main_thread max b (modid + 1) (Z.max maxgen (si_gen s))
           end
  end.

Fixpoint init_blocks (t : Z) (main_thread : bool) (max : Z) (blocks : list (list slotinfo)) (total maxgen : Z) : M tls_state Z :=
  match blocks with
  | [] => lift (Fatal "listp != NULL")
  | b :: rest =>
      '(total, maxgen) ← (if total =? 0 then init_slots t main_thread max (tail b) 1 maxgen
                           else init_slots t main_thread max b total maxgen);
      if max <? total then mret maxgen else init_blocks t main_thread max rest total maxgen
  end.

Definition _dl_allocate_tls_init (t : Z) (main_thread : bool) : M tls_state unit :=
  th ← get_thread t;
  max ← gets ts_max;
  (if d_len (th_dtv th) <? max then d ← _dl_resize_dtv t (th_dtv th) max; put_dtv t d else mret tt);;
  blocks ← gets ts_list;
  maxgen ← (if bool_decide (blocks = []) then lift Undef else init_blocks t main_thread max blocks 0 0);
  th ← get_thread t;
  put_dtv t (set_dtv_gen (th_dtv th) maxgen).

(** [_dl_allocate_tls] with memory for the thread. *)
Definition _dl_allocate_tls (t tcb : Z) : M tls_state bool :=
  ok ← allocate_dtv t tcb;
  if (ok : bool) then _dl_allocate_tls_init t false;; mret true else mret false.

(** [_dl_deallocate_tls] for a thread whose memory the caller keeps. *)
Fixpoint free_entries (es : list dtv_pointer) : M tls_state unit :=
  match es with
  | [] => mret tt
  | e :: es => c_free (to_free e);; free_entries es
  end.
Definition _dl_deallocate_tls (t : Z) : M tls_state unit :=
  th ← get_thread t;
  free_entries (tail (d_ent (th_dtv th)));;
  initial ← gets ts_initial_dtv;
  (if d_addr (th_dtv th) =? initial then mret tt else c_free (d_addr (th_dtv th)));;
  modify (fun s => set_threads (delete t (ts_threads s)) s).

(** ** Access *)
Definition allocate_dtv_entry (t : Z) (m : mapid) (alignment size : Z) : M tls_state dtv_pointer :=
  if powerof2 alignment && (alignment <=? 16) then
    p ← c_malloc size (ForTls t m); mret (mkPtr p p)
  else
    let alloc_size := u64 (size + alignment) in
    if alloc_size <? size then mret no_pointer
    else
      start ← c_malloc alloc_size (ForTls t m);
      if start =? 0 then mret no_pointer
      else mret (mkPtr (roundup start alignment) start).

Definition allocate_and_init (t : Z) (m : mapid) (lm : tmod) : M tls_state dtv_pointer :=
  result ← allocate_dtv_entry t m (tl_align (tm_tls lm)) (tm_blocksize lm);
  if val result =? 0 then oom
  else modify (add_write (val result, init_bytes lm));; mret result.

(** One entry of the loop of [_dl_update_slotinfo]; the result is the map when the entry was updated. *)
Definition update_slot (t new_gen max_modid modid : Z) (s : slotinfo) : M tls_state (option (option mapid)) :=
  th ← get_thread t;
  let d := th_dtv th in
  if new_gen <? si_gen s then mret None
  else if si_gen s <=? d_gen d then mret None
  else if (d_len d <? modid) && bool_decide (si_map s = None) then mret None
  else
    d ← (if d_len d <? modid then
           d ← _dl_resize_dtv t d max_modid;
           lift (c_assert (modid <=? d_len d) "modid <= dtv[-1].counter");;
           put_dtv t d;; mret d
         else mret d);
    e ← lift (dtv_at d modid);
    c_free (to_free e);;
    d ← lift (set_dtv_at d modid unallocated);
    put_dtv t d;;
    mret (Some (si_map s)).

(** [the_map] is the last component. *)
Fixpoint update_slots (t new_gen req_modid max_modid : Z) (b : list slotinfo) (modid : Z) (the_map : option mapid) : M tls_state (option mapid) :=
  match b with
  | [] => mret the_map
  | s :: b =>
      if max_modid <? modid then mret the_map
      else
        u ← update_slot t new_gen max_modid modid s;
        update_slots t new_gen req_modid max_modid b (modid + 1)
          (match u with Some m => if modid =? req_modid then m else the_map | None => the_map end)
  end.

Fixpoint update_blocks (t new_gen req_modid max_modid : Z) (blocks : list (list slotinfo)) (total : Z) (the_map : option mapid) : M tls_state (option mapid) :=
  match blocks with
  | [] => mret the_map
  | b :: rest =>
      the_map ← (if total =? 0 then update_slots t new_gen req_modid max_modid (tail b) 1 the_map
                 else update_slots t new_gen req_modid max_modid b total the_map);
      let total := total + Z.of_nat (length b) in
      if max_modid <? total then mret the_map
      else update_blocks t new_gen req_modid max_modid rest total the_map
  end.

Definition _dl_update_slotinfo (t req_modid new_gen : Z) : M tls_state (option mapid) :=
  th ← get_thread t;
  if d_gen (th_dtv th) <? new_gen then
    max_modid ← gets ts_max;
    lift (c_assert (req_modid <=? max_modid) "max_modid >= req_modid");;
    blocks ← gets ts_list;
    the_map ← (if bool_decide (blocks = []) then lift Undef
               else update_blocks t new_gen req_modid max_modid blocks 0 None);
    th ← get_thread t;
    put_dtv t (set_dtv_gen (th_dtv th) new_gen);;
    mret the_map
  else mret None.

Definition tls_get_addr_adjust (from_dtv ti_offset : Z) : Z := u64 (from_dtv + ti_offset).

(** [while (idx >= listp->len)] *)
Fixpoint slot_of (blocks : list (list slotinfo)) (idx : Z) : res slotinfo :=
  match blocks with
  | [] => Undef
  | b :: rest => if Z.of_nat (length b) <=? idx then slot_of rest (idx - Z.of_nat (length b)) else rd b idx
  end.

Definition tls_get_addr_tail (t ti_module ti_offset : Z) (the_map : option mapid) : M tls_state Z :=
  blocks ← gets ts_list;
  m ← (match the_map with
       | Some m => mret m
       | None => s ← lift (slot_of blocks ti_module); lift (res_of_option (si_map s))
       end);
  lm ← get_mod m;
  if is_static (tm_offset lm) then
    th ← get_thread t;
    let p := u64 (th_tcb th - tm_offset lm) in
    d ← lift (set_dtv_at (th_dtv th) ti_module (mkPtr p 0));
    put_dtv t d;;
    mret (tls_get_addr_adjust p ti_offset)
  else
    (if tm_offset lm =? NO_TLS_OFFSET then put_mod m (with_tls (set_tls_offset FORCED_DYNAMIC_TLS_OFFSET) lm) else mret tt);;
    result ← allocate_and_init t m lm;
    th ← get_thread t;
    d ← lift (set_dtv_at (th_dtv th) ti_module result);
    put_dtv t d;;
    lift (c_assert (negb (to_free result =? 0)) "result.to_free != NULL");;
    mret (tls_get_addr_adjust (val result) ti_offset).

Definition update_get_addr (t ti_module ti_offset gen : Z) : M tls_state Z :=
  the_map ← _dl_update_slotinfo t ti_module gen;
  th ← get_thread t;
  p ← lift (dtv_at (th_dtv th) ti_module);
  if val p =? TLS_DTV_UNALLOCATED then tls_get_addr_tail t ti_module ti_offset the_map
  else mret (tls_get_addr_adjust (val p) ti_offset).

(** [active] is [_dl_tls_allocate_active ()]: some thread is in [malloc] for a DTV. *)
Definition __tls_get_addr (active : bool) (t ti_module ti_offset : Z) : M tls_state Z :=
  th ← get_thread t;
  s ← gets id;
  if negb (d_gen (th_dtv th) =? ts_gen s) && negb (active && (ti_module <? ts_limit s))
  then update_get_addr t ti_module ti_offset (ts_gen s)
  else
    p ← lift (dtv_at (th_dtv th) ti_module);
    if val p =? TLS_DTV_UNALLOCATED then tls_get_addr_tail t ti_module ti_offset None
    else mret (tls_get_addr_adjust (val p) ti_offset).

(** The block of the module in this thread, zero when it is not known or not allocated. *)
Definition _dl_tls_get_addr_soft (t : Z) (l : mapid) : M tls_state Z :=
  lm ← get_mod l;
  if tm_modid lm =? 0 then mret 0
  else
    th ← get_thread t;
    s ← gets id;
    let d := th_dtv th in
    stale ←
      (if negb (d_gen d =? ts_gen s) then
         if d_len d <=? tm_modid lm then mret true
         else si ← lift (slot_of (ts_list s) (tm_modid lm)); mret (d_gen d <? si_gen si)
       else mret false);
    if (stale : bool) then mret 0
    else
      p ← lift (dtv_at d (tm_modid lm));
      mret (if val p =? TLS_DTV_UNALLOCATED then 0 else val p).

(** ** Publishing modules ([elf/dl-open.c]) *)
Definition init_one_static_tls (th : thread) (lm : tmod) (s : tls_state) : tls_state :=
  add_write (u64 (th_tcb th - tm_offset lm), init_bytes lm) s.
Definition _dl_init_static_tls (l : mapid) : M tls_state unit :=
  lm ← get_mod l;
  ths ← gets ts_threads;
  modify (fun s => foldr (fun th s => init_one_static_tls th lm s) s (map_to_list ths).*2).

Fixpoint resize_tls_slotinfo (ls : list mapid) (any_tls : bool) : M tls_state bool :=
  match ls with
  | [] => mret any_tls
  | l :: ls => r ← _dl_add_to_slotinfo l false; resize_tls_slotinfo ls (if (r : bool) then true else any_tls)
  end.

Fixpoint add_all (ls : list mapid) : M tls_state unit :=
  match ls with
  | [] => mret tt
  | l :: ls => _dl_add_to_slotinfo l true;; add_all ls
  end.

(** The second pass, for modules in the static block; [t] is the thread that calls [dlopen]. *)
Fixpoint init_static_all (t newgen : Z) (ls : list mapid) : M tls_state unit :=
  match ls with
  | [] => mret tt
  | l :: ls =>
      lm ← get_mod l;
      (if tl_need_init (tm_tls lm) && (0 <? tm_blocksize lm) then
         put_mod l (with_tls (with_need_init false) lm);;
         _dl_update_slotinfo t (tm_modid lm) newgen;;
         _dl_init_static_tls l;;
         lm ← get_mod l;
         lift (c_assert (negb (tl_need_init (tm_tls lm))) "imap->l_need_tls_init == 0")
       else mret tt);;
      init_static_all t newgen ls
  end.

Definition update_tls_slotinfo (t : Z) (ls : list mapid) : M tls_state unit :=
  add_all ls;;
  newgen ← bump_generation "TLS generation counter wrapped!  Please report this.";
  init_static_all t newgen ls.

End Memory.
