(* ===== verification/TlsSlots.v ===== *)
(** * The slotinfo list as one array

    The blocks of [GL(dl_tls_dtv_slotinfo_list)] are searched, extended and cleared
    block by block; the lemmas here say what that does to the array the blocks form together. *)

From S2P Require Import Prelude LinkMap TlsOffset LoadCmds DynTls.
(** ** The slotinfo list as an array *)
Lemma list_len_cons b blocks : list_len (b :: blocks) = Z.of_nat (length b) + list_len blocks.
Proof. unfold list_len. cbn [concat]. rewrite length_app. lia. Qed.
Lemma list_len_nonneg blocks : 0 <= list_len blocks.
Proof. unfold list_len. lia. Qed.

Lemma has_slot_spec blocks : forall idx, 0 <= idx -> has_slot blocks idx = (idx <? list_len blocks).
Proof.
  induction blocks as [|b blocks IH]; intros idx Hi; cbn [has_slot].
  - symmetry. apply Z.ltb_ge. exact Hi.
  - rewrite list_len_cons. pose proof (list_len_nonneg blocks). destruct (Z.ltb_spec idx (Z.of_nat (length b))); cbn [orb].
    + symmetry. apply Z.ltb_lt. lia.
    + rewrite IH by lia. destruct (Z.ltb_spec (idx - Z.of_nat (length b)) (list_len blocks));
        symmetry; [apply Z.ltb_lt|apply Z.ltb_ge]; lia.
Qed.

Lemma concat_set_slot blocks x : forall idx, 0 <= idx ->
  concat (set_slot blocks idx x) = <[Z.to_nat idx := x]> (concat blocks).
Proof.
  induction blocks as [|b blocks IH]; intros idx Hi; cbn [set_slot concat]; [done|].
  destruct (Z.ltb_spec idx (Z.of_nat (length b))); cbn [concat].
  - rewrite insert_app_l by lia. done.
  - rewrite IH by lia. replace (Z.to_nat idx) with (length b + Z.to_nat (idx - Z.of_nat (length b)))%nat by lia.
    by rewrite insert_app_r.
Qed.

Lemma lengths_set_slot blocks x : forall idx, length <$> set_slot blocks idx x = length <$> blocks.
Proof.
  induction blocks as [|b blocks IH]; intros idx; cbn [set_slot]; [done|].
  destruct (idx <? Z.of_nat (length b)); cbn; [by rewrite length_insert|]. f_equal. apply IH.
Qed.

Lemma slot_of_spec blocks : forall idx, 0 <= idx -> slot_of blocks idx = rd (concat blocks) idx.
Proof.
  induction blocks as [|b blocks IH]; intros idx Hi; cbn [slot_of concat].
  - unfold rd. by destruct (idx <? 0).
  - unfold rd. rewrite (proj2 (Z.ltb_ge idx 0)) by lia. destruct (Z.leb_spec (Z.of_nat (length b)) idx).
    + rewrite IH by lia. unfold rd. rewrite (proj2 (Z.ltb_ge _ 0)) by lia. rewrite lookup_app_r by lia. do 2 f_equal. lia.
    + by rewrite lookup_app_l by lia.
Qed.

(** ** Assigning *)
Lemma scan_block_spec max rest : forall r r' found, scan_block max rest r = Ok (r', found) ->
  exists n, r' = r + Z.of_nat n /\ (n <= length rest)%nat /\ Forall (fun s => si_map s <> None) (take n rest) /\
  if (found : bool) then exists s, rest !! n = Some s /\ si_map s = None else n = length rest.
Proof.
  induction rest as [|s rest IH]; intros r r' found H; cbn [scan_block] in H.
  - injection H as <- <-. exists 0%nat. split; [lia|]. split; [done|]. by split; [constructor|].
  - destruct (si_map s) as [m|] eqn:Hs.
    + apply bind_Ok_inv in H as ([] & _ & H). apply IH in H as (n & -> & Hn & Hf & Hend).
      exists (S n). split; [lia|]. split; [cbn; lia|]. split; [cbn; constructor; [by rewrite Hs|done]|].
      destruct found; [exact Hend|cbn; lia].
    + injection H as <- <-. exists 0%nat. split; [lia|]. split; [cbn; lia|]. split; [constructor|]. by exists s.
Qed.

Lemma find_gap_spec max l blocks : forall disp r r' blocks', disp <= r ->
  find_gap max l blocks disp r = Ok (r', blocks') ->
  r <= r' /\
  ((exists s, concat blocks !! Z.to_nat (r' - disp) = Some s /\ si_map s = None /\
      concat blocks' = <[Z.to_nat (r' - disp) := mkSI 0 (Some l)]> (concat blocks)) \/
   (blocks' = blocks /\ disp + list_len blocks <= r')) /\
  (forall i s, r <= i < r' -> concat blocks !! Z.to_nat (i - disp) = Some s -> si_map s <> None) /\
  length <$> blocks' = length <$> blocks.
Proof.
  induction blocks as [|b blocks IH]; intros disp r r' blocks' Hd H; cbn [find_gap] in H.
  - injection H as <- <-. split; [lia|]. split; [right; split; [done|unfold list_len; cbn; lia]|]. split; [lia|done].
  - apply bind_Ok_inv in H as ([r1 found] & H1 & H). apply scan_block_spec in H1 as (n & -> & Hn & Hf & Hend).
    rewrite length_drop in Hn.
    assert (Hskip : forall i s, r <= i < r + Z.of_nat n -> concat (b :: blocks) !! Z.to_nat (i - disp) = Some s -> si_map s <> None).
    { intros i s Hi Hs. rewrite Forall_lookup in Hf. apply (Hf (Z.to_nat (i - r))).
      rewrite lookup_take_lt by lia. rewrite lookup_drop. cbn [concat] in Hs.
      rewrite lookup_app_l in Hs by lia. rewrite <- Hs. f_equal. lia. }
    destruct found.
    + destruct Hend as (s & Hs & Hm). injection H as <- <-. rewrite lookup_drop in Hs. split; [lia|].
      pose proof (lookup_lt_Some _ _ _ Hs) as Hl.
      replace (Z.to_nat (r - disp) + n)%nat with (Z.to_nat (r + Z.of_nat n - disp)) in * by lia.
      split; [left|split; [done|]].
      * exists s. cbn [concat]. rewrite lookup_app_l by done. split; [done|]. split; [done|]. by rewrite insert_app_l.
      * cbn. f_equal. by rewrite length_insert.
    + apply bind_Ok_inv in H as ([r2 bs] & H2 & H). injection H as <- <-. rewrite length_drop in Hend.
      apply IH in H2 as (Hle & Hcase & Hrest & Hlen); [|lia]. split; [lia|]. split; [|split].
      * destruct Hcase as [(s & Hs & Hm & Hc)|[-> Hc]].
        -- left. exists s. cbn [concat]. rewrite lookup_app_r by lia.
           replace (Z.to_nat (r2 - disp) - length b)%nat with (Z.to_nat (r2 - (disp + Z.of_nat (length b)))) by lia.
           split; [done|]. split; [done|]. rewrite Hc.
           replace (Z.to_nat (r2 - disp)) with (length b + Z.to_nat (r2 - (disp + Z.of_nat (length b))))%nat by lia.
           by rewrite insert_app_r.
        -- right. split; [done|]. rewrite list_len_cons. lia.
      * intros i s Hi Hs. destruct (Z.lt_ge_cases i (r + Z.of_nat n)); [apply (Hskip i s); [lia|done]|].
        apply (Hrest i); [lia|]. cbn [concat] in Hs. rewrite lookup_app_r in Hs by lia. rewrite <- Hs. f_equal. lia.
      * cbn. by rewrite Hlen.
Qed.

(** ** Withdrawing *)
Lemma last_used_slot_spec n b lim : forall r, last_used n b lim = Ok r ->
  match r with
  | Some j => lim <= j < lim + Z.of_nat n /\ 0 <= j /\ (exists s, b !! Z.to_nat j = Some s /\ si_map s <> None) /\
      forall i s, j < i < lim + Z.of_nat n -> b !! Z.to_nat i = Some s -> si_map s = None
  | None => forall i s, lim <= i < lim + Z.of_nat n -> b !! Z.to_nat i = Some s -> si_map s = None
  end.
Proof.
  induction n as [|n IH]; intros r H; cbn [last_used] in H; [injection H as <-; lia|].
  apply bind_Ok_inv in H as (s & Hs & H). apply rd_Ok in Hs as [Hn Hs]. destruct (si_map s) as [m|] eqn:Hm.
  - injection H as <-. split; [lia|]. split; [done|]. split; [exists s; by rewrite Hm|]. lia.
  - apply IH in H. assert (Htop : forall i s', i = lim + Z.of_nat n -> b !! Z.to_nat i = Some s' -> si_map s' = None) by congruence.
    destruct r as [j|].
    + destruct H as (Hj & Hj0 & Hu & Hno). split; [lia|]. split; [done|]. split; [done|]. intros i s' Hi Hs'.
      destruct (Z.eq_dec i (lim + Z.of_nat n)); [by eapply Htop|]. apply (Hno i); [lia|done].
    + intros i s' Hi Hs'. destruct (Z.eq_dec i (lim + Z.of_nat n)); [by eapply Htop|]. apply (H i); [lia|done].
Qed.

Definition clear_slot (gen : Z) (n : nat) (f : list slotinfo) : list slotinfo :=
  match f !! n with
  | Some s => match si_map s with Some _ => <[n := mkSI (u64 (gen + 1)) None]> f | None => f end
  | None => f
  end.

Lemma length_clear_slot gen n f : length (clear_slot gen n f) = length f.
Proof. unfold clear_slot. destruct (f !! n) as [s|]; [|done]. destruct (si_map s); [apply length_insert|done]. Qed.
Lemma clear_slot_app_l gen n f g : (n < length f)%nat -> clear_slot gen n (f ++ g) = clear_slot gen n f ++ g.
Proof.
  intros Hn. unfold clear_slot. rewrite lookup_app_l by done. destruct (f !! n) as [s|]; [|done].
  destruct (si_map s); [by rewrite insert_app_l|done].
Qed.
Lemma clear_slot_app_r gen n f g : clear_slot gen (length f + n) (f ++ g) = f ++ clear_slot gen n g.
Proof.
  unfold clear_slot. rewrite lookup_app_r by lia. replace (length f + n - length f)%nat with n by lia.
  destruct (g !! n) as [s|]; [|done]. destruct (si_map s); [by rewrite insert_app_r|done].
Qed.
Lemma clear_slot_none gen n f : (length f <= n)%nat -> clear_slot gen n f = f.
Proof. intros Hn. unfold clear_slot. by rewrite lookup_ge_None_2. Qed.
Lemma clear_slot_cleared gen n f s : clear_slot gen n f !! n = Some s -> si_map s = None.
Proof.
  unfold clear_slot. destruct (f !! n) as [s'|] eqn:Hs; [|congruence]. destruct (si_map s') eqn:Hm; [|congruence].
  rewrite list_lookup_insert_eq by (by eapply lookup_lt_Some). by intros [= <-].
Qed.
Lemma clear_slot_other gen n f i : i <> n -> clear_slot gen n f !! i = f !! i.
Proof.
  intros Hi. unfold clear_slot. destruct (f !! n) as [s'|]; [|done]. destruct (si_map s'); [|done]. by rewrite list_lookup_insert_ne.
Qed.

(** What the search in a block found, [lo] being the first index it looks at. *)
Definition searched (lo idx disp max : Z) (f : list slotinfo) (found : bool) (max' : Z) : Prop :=
  if found then lo <= max' < idx /\ (exists s, f !! Z.to_nat (max' - disp) = Some s /\ si_map s <> None) /\
    forall i s, max' < i < idx -> f !! Z.to_nat (i - disp) = Some s -> si_map s = None
  else max' = max /\ forall i s, lo <= i < idx -> f !! Z.to_nat (i - disp) = Some s -> si_map s = None.

Lemma search_spec lim b next idx disp max gaps found blocks' max' gaps' : 0 <= lim -> disp <= idx -> idx - disp <= Z.of_nat (length b) ->
  (u ← last_used (Z.to_nat (idx - disp - lim)) b lim;
   match u with
   | Some j => mret (true, b :: next, disp + j, gaps)
   | None => mret (false, b :: next, max, gaps)
   end : res (bool * list (list slotinfo) * Z * bool)) = Ok (found, blocks', max', gaps') ->
  blocks' = b :: next /\ gaps' = gaps /\ searched (disp + lim) idx disp max (concat (b :: next)) found max'.
Proof.
  intros Hlim Hd Hlen H. apply bind_Ok_inv in H as (u & Hu & H). apply last_used_slot_spec in Hu. cbn [concat].
  destruct u as [j|]; injection H as <- <- <- <-; (split; [done|]; split; [done|]); unfold searched.
  - destruct Hu as (Hj & Hj0 & (s & Hs & Hm) & Hno). split; [lia|]. split.
    + exists s. split; [|done]. rewrite lookup_app_l by lia. rewrite <- Hs. f_equal. lia.
    + intros i s' Hi Hs'. rewrite lookup_app_l in Hs' by lia. apply (Hno (i - disp)); [lia|done].
  - split; [done|]. intros i s' Hi Hs'. rewrite lookup_app_l in Hs' by lia. apply (Hu (i - disp)); [lia|done].
Qed.

Lemma last_used_overrun n b lim r : 0 <= lim -> last_used (S n) b lim = Ok r -> lim + Z.of_nat n < Z.of_nat (length b).
Proof.
  intros Hl H. cbn [last_used] in H. apply bind_Ok_inv in H as (s & [_ Hs]%rd_Ok & _). apply lookup_lt_Some in Hs. lia.
Qed.

Lemma search_in_range lim b idx disp r : 0 <= lim <= Z.of_nat (length b) -> disp <= idx ->
  last_used (Z.to_nat (idx - disp - lim)) b lim = Ok r -> idx - disp <= Z.of_nat (length b).
Proof.
  intros Hlim Hd H. destruct (Z.to_nat (idx - disp - lim)) as [|n] eqn:En; [lia|].
  apply last_used_overrun in H; lia.
Qed.

Lemma searched_extend lo lo' idx idx' disp d' max f g found max' :
  searched lo idx (disp + Z.of_nat (length f)) max g found max' -> lo = disp + Z.of_nat (length f) ->
  lo' <= lo -> 0 <= disp -> d' = disp -> idx' = idx ->
  (found = false -> forall i s, lo' <= i < lo -> (f ++ g) !! Z.to_nat (i - disp) = Some s -> si_map s = None) ->
  searched lo' idx' d' max (f ++ g) found max'.
Proof.
  intros H -> Hlo Hd -> -> Hf. unfold searched in *. destruct found.
  - destruct H as (H1 & (s & Hs & Hm) & Hno). split; [lia|]. split.
    + exists s. split; [|done]. rewrite lookup_app_r by lia. rewrite <- Hs. f_equal. lia.
    + intros i s' Hi Hs'. rewrite lookup_app_r in Hs' by lia. apply (Hno i s'); [lia|]. rewrite <- Hs'. f_equal. lia.
  - destruct H as [-> Hno]. split; [done|]. intros i s' Hi Hs'.
    destruct (Z.lt_ge_cases i (disp + Z.of_nat (length f))); [apply (Hf eq_refl i s'); [lia|done]|].
    rewrite lookup_app_r in Hs' by lia. apply (Hno i s'); [lia|]. rewrite <- Hs'. f_equal. lia.
Qed.

Lemma remove_spec nelem gen max gaps sb idx blocks : forall disp found blocks' max' gaps', 0 <= nelem -> 0 <= disp <= idx ->
  (disp = 0 -> exists b r, blocks = b :: r /\ 1 + nelem <= Z.of_nat (length b)) ->
  remove_slotinfo nelem gen max gaps sb idx blocks disp = Ok (found, blocks', max', gaps') ->
  length <$> blocks' = length <$> blocks /\ concat blocks' = clear_slot gen (Z.to_nat (idx - disp)) (concat blocks) /\
  ((idx - disp < list_len blocks /\ idx <> max /\ found = true /\ max' = max /\ gaps' = true) \/
   ((idx - disp < list_len blocks -> idx = max) /\ gaps' = gaps /\
    searched (disp + (if disp =? 0 then 1 + nelem else 0)) idx disp max (concat blocks') found max')).
Proof.
  induction blocks as [|b next IH]; intros disp found blocks' max' gaps' Hn Hd Hfirst H; cbn [remove_slotinfo] in H; [done|].
  set (lim := if disp =? 0 then 1 + nelem else 0) in *. rewrite list_len_cons. pose proof (list_len_nonneg next).
  assert (Hlim : 0 <= lim <= Z.of_nat (length b)).
  { unfold lim. destruct (Z.eqb_spec disp 0) as [->|]; [|lia]. destruct Hfirst as (b' & r & [= <- <-] & ?); [done|]. lia. }
  assert (Hpos : 0 < disp + Z.of_nat (length b)) by (unfold lim in Hlim; destruct (Z.eqb_spec disp 0); lia).
  destruct (Z.leb_spec (Z.of_nat (length b)) (idx - disp)) as [Hge|Hlt].
  - destruct next as [|b2 next].
    + apply bind_Ok_inv in H as ([] & _ & H). pose proof H as H'. apply bind_Ok_inv in H' as (u & Hu & _).
      pose proof (search_in_range lim b idx disp u Hlim ltac:(lia) Hu).
      apply search_spec in H as (-> & -> & Hs); [|lia..]. split; [done|]. split.
      { rewrite clear_slot_none; [done|]. cbn [concat]. rewrite app_nil_r. lia. }
      right. split; [unfold list_len; cbn; lia|]. done.
    + apply bind_Ok_inv in H as ([[[f n'] mx] gp] & H1 & H).
      apply IH in H1 as (L1 & C1 & R1); [|lia|lia|lia].
      rewrite list_len_cons in R1. rewrite (list_len_cons b2 next).
      rewrite (proj2 (Z.eqb_neq (disp + Z.of_nat (length b)) 0)), Z.add_0_r in R1 by lia.
      assert (C : forall bs, bs = b :: n' -> length <$> bs = length <$> b :: b2 :: next /\
        concat bs = clear_slot gen (Z.to_nat (idx - disp)) (concat (b :: b2 :: next))).
      { intros bs ->. split; [cbn in *; by rewrite L1|]. cbn [concat] in *. rewrite C1.
        replace (Z.to_nat (idx - disp)) with (length b + Z.to_nat (idx - (disp + Z.of_nat (length b))))%nat by lia.
        by rewrite clear_slot_app_r. }
      destruct f.
      * injection H as <- <- <- <-. destruct (C _ eq_refl) as [C2 C3]. split; [done|]. split; [done|].
        destruct R1 as [(?&?&?&?&?)|(E & G & S)]; [left; repeat split; try done; lia|right].
        split; [intros; apply E; lia|]. split; [done|].
        eapply searched_extend; [exact S|..]; try done; lia.
      * destruct R1 as [(?&?&?&?&?)|(E & G & S)]; [done|]. destruct S as [-> S].
        apply search_spec in H as (-> & -> & Hs); [|lia..]. destruct (C _ eq_refl) as [C2 C3]. split; [done|]. split; [done|].
        right. split; [intros; apply E; lia|]. split; [done|]. unfold searched in *. cbn [concat] in *.
        assert (Hup : forall i s, disp + Z.of_nat (length b) <= i < idx -> (b ++ concat n') !! Z.to_nat (i - disp) = Some s -> si_map s = None).
        { intros i s' Hi Hs'. rewrite lookup_app_r in Hs' by lia. apply (S i s'); [lia|]. rewrite <- Hs'. f_equal. lia. }
        destruct found.
        -- destruct Hs as (S1 & S2 & S3). split; [lia|]. split; [done|]. intros i s' Hi Hs'.
           destruct (Z.lt_ge_cases i (disp + Z.of_nat (length b))); [apply (S3 i s')|apply (Hup i s')]; (lia || done).
        -- destruct Hs as (S1 & S3). split; [done|]. intros i s' Hi Hs'.
           destruct (Z.lt_ge_cases i (disp + Z.of_nat (length b))); [apply (S3 i s')|apply (Hup i s')]; (lia || done).
  - apply bind_Ok_inv in H as (old & Ho & H). apply rd_Ok in Ho as [_ Ho].
    set (b' := match si_map old with Some _ => _ | None => b end) in H.
    assert (Hb' : b' = clear_slot gen (Z.to_nat (idx - disp)) b). { unfold b', clear_slot. by rewrite Ho. }
    assert (Hl : length b' = length b) by (rewrite Hb'; apply length_clear_slot).
    assert (C : forall bs, bs = b' :: next -> length <$> bs = length <$> b :: next /\
      concat bs = clear_slot gen (Z.to_nat (idx - disp)) (concat (b :: next))).
    { intros bs ->. cbn. rewrite Hl. split; [done|]. by rewrite clear_slot_app_l, Hb' by lia. }
    destruct (Z.eqb_spec idx max) as [->|Hne]; cbn [negb] in H.
    + apply search_spec in H as (-> & -> & Hs); [|lia..]. destruct (C _ eq_refl) as [C1 C2]. split; [done|]. split; [done|].
      right. done.
    + injection H as <- <- <- <-. destruct (C _ eq_refl) as [C1 C2]. split; [done|]. split; [done|]. left. repeat split; try done. lia.
Qed.
