(* ===== verification/DynTlsSpec.v ===== *)
(** * Dynamic thread-local storage: threads

    What a thread's DTV promises ([knows]): the entry of a module is not
    allocated, or it is the block of this thread for this module.  The lemmas say that
    every operation of a thread keeps the promise for all modules up to the
    generation it reaches, and that [__tls_get_addr] returns the block. *)

From S2P Require Import Prelude LinkMap TlsOffset LoadCmds DynTls TlsSlots.

(** ** Outcomes

    The operations of a thread return, or end the process because there is no memory. *)
Definition no_memory : string := "cannot allocate memory for thread-local data: ABORT".

Definition wp {A} (m : M tls_state A) (Q : A -> tls_state -> Prop) (s : tls_state) : Prop :=
  match m s with Ret a s' => Q a s' | Stop e => e = no_memory | _ => False end.

Lemma wp_bind {A B} (m : M tls_state A) (k : A -> M tls_state B) Q s :
  wp m (fun a => wp (k a) Q) s -> wp (m ≫= k) Q s.
Proof. unfold wp, mbind, M_bind. by destruct (m s). Qed.
Lemma wp_ret {A} (a : A) (Q : A -> tls_state -> Prop) s : Q a s -> wp (mret a) Q s.
Proof. done. Qed.
Lemma wp_gets {A} (f : tls_state -> A) (Q : A -> tls_state -> Prop) s : Q (f s) s -> wp (gets f) Q s.
Proof. done. Qed.
Lemma wp_modify f (Q : unit -> tls_state -> Prop) s : Q tt (f s) -> wp (modify f) Q s.
Proof. done. Qed.
Lemma wp_lift {A} (r : res A) a (Q : A -> tls_state -> Prop) s : r = Ok a -> Q a s -> wp (lift r) Q s.
Proof. by intros ->. Qed.
Lemma wp_assert b w (Q : unit -> tls_state -> Prop) s : b = true -> Q tt s -> wp (lift (c_assert b w)) Q s.
Proof. by intros ->. Qed.
Lemma wp_oom {A} (Q : A -> tls_state -> Prop) s : wp oom Q s.
Proof. done. Qed.
Lemma wp_mono {A} (m : M tls_state A) (Q Q' : A -> tls_state -> Prop) s :
  wp m Q s -> (forall a s', Q a s' -> Q' a s') -> wp m Q' s.
Proof. unfold wp. destruct (m s); auto. Qed.

Lemma wp_at {A} (m : M tls_state A) (Q : A -> tls_state -> Prop) s s0 : s0 = s -> wp m Q s0 -> wp m Q s.
Proof. by intros ->. Qed.

(** ** Memory *)

(** What [malloc] promises: a block of its own, aligned for every type. *)
Class Malloc (malloc : gmap Z mblock -> Z -> Z) : Prop := {
  malloc_new : forall h n, 0 < n -> malloc h n <> 0 ->
    0 < malloc h n /\ malloc h n + n < 2 ^ 64 /\ malloc h n mod 16 = 0 /\
    forall q b, h !! q = Some b -> malloc h n + n <= q \/ q + mb_size b <= malloc h n }.

Record heap_ok (h : gmap Z mblock) : Prop := {
  hp_range : forall p b, h !! p = Some b -> 0 < p /\ 0 < mb_size b /\ p + mb_size b < 2 ^ 64;
  hp_apart : forall p q b b', h !! p = Some b -> h !! q = Some b' -> p <> q -> p + mb_size b <= q \/ q + mb_size b' <= p }.

Lemma heap_ok_insert malloc `{!Malloc malloc} h n u : heap_ok h -> 0 < n -> malloc h n <> 0 ->
  heap_ok (<[malloc h n := mkBlock n u]> h) /\ h !! malloc h n = None.
Proof.
  intros [Hr Ha] Hn Hp. destruct (malloc_new h n Hn Hp) as (P0 & P1 & _ & P2).
  assert (Hnone : h !! malloc h n = None).
  { destruct (h !! malloc h n) as [b|] eqn:Hb; [|done]. destruct (Hr _ _ Hb) as (_ & ? & _). destruct (P2 _ _ Hb); lia. }
  split; [|done]. split.
  - intros p b [[<- <-]|[_ Hb]]%lookup_insert_Some; [cbn; lia|eauto].
  - intros p q b b' [[<- <-]|[? Hb]]%lookup_insert_Some [[<- <-]|[? Hb']]%lookup_insert_Some Hne; cbn [mb_size] in *; [done|..].
    + destruct (P2 _ _ Hb'); lia.
    + destruct (P2 _ _ Hb); lia.
    + eauto.
Qed.

Lemma heap_ok_delete h p : heap_ok h -> heap_ok (delete p h).
Proof.
  intros [Hr Ha]. split.
  - intros q b [_ Hb]%lookup_delete_Some. eauto.
  - intros q q' b b' [_ Hb]%lookup_delete_Some [_ Hb']%lookup_delete_Some. eauto.
Qed.

(** The thread a block belongs to. *)
Definition of_thread (u : purpose) : option Z :=
  match u with ForDtv t => Some t | ForTls t _ => Some t | ForSlots => None end.

(** Only blocks of thread [t] differ. *)
Definition others_same (t : Z) (h h' : gmap Z mblock) : Prop :=
  forall p b, of_thread (mb_for b) <> Some t -> h !! p = Some b <-> h' !! p = Some b.

Lemma others_refl t h : others_same t h h.
Proof. done. Qed.
Lemma others_trans t h1 h2 h3 : others_same t h1 h2 -> others_same t h2 h3 -> others_same t h1 h3.
Proof. intros H1 H2 p b Hb. by rewrite (H1 p b Hb), (H2 p b Hb). Qed.
Lemma others_insert t h p n u : h !! p = None -> of_thread u = Some t -> others_same t h (<[p := mkBlock n u]> h).
Proof.
  intros Hn Hu q b Hb. destruct (decide (q = p)) as [->|Hne]; [|by rewrite lookup_insert_ne].
  rewrite lookup_insert_eq. split; [congruence|]. intros [= <-]. done.
Qed.
Lemma others_delete t h p b : h !! p = Some b -> of_thread (mb_for b) = Some t -> others_same t h (delete p h).
Proof.
  intros Hp Hu q c Hc. destruct (decide (q = p)) as [->|Hne]; [|by rewrite lookup_delete_ne].
  rewrite lookup_delete_eq. split; [|done]. intros E. simplify_eq.
Qed.

(** ** What a thread knows *)
Definition tls_slot (s : tls_state) (i : Z) : option slotinfo :=
  if i <? 1 then None else concat (ts_list s) !! Z.to_nat i.

(** [e] may be the entry of thread [t] for the module [m]. *)
Inductive entry_ok (h : gmap Z mblock) (t tcb : Z) (m : mapid) (x : tmod) (e : dtv_pointer) : Prop :=
| entry_unallocated : e = unallocated -> entry_ok h t tcb m x e
| entry_static : is_static (tm_offset x) = true -> e = mkPtr (u64 (tcb - tm_offset x)) 0 -> entry_ok h t tcb m x e
| entry_dynamic sz : tm_offset x = FORCED_DYNAMIC_TLS_OFFSET -> to_free e <> 0 ->
    h !! to_free e = Some (mkBlock sz (ForTls t m)) ->
    to_free e <= val e -> val e + tm_blocksize x <= to_free e + sz -> entry_ok h t tcb m x e.

(** [sync i g] says that the thread has seen generation [g] of slot [i]. *)
Record knows (s : tls_state) (sync : Z -> Z -> Prop) (t : Z) (th : thread) (h : gmap Z mblock) : Prop := {
  kn_len : 0 <= d_len (th_dtv th) < 2 ^ 62 /\ Z.of_nat (length (d_ent (th_dtv th))) = d_len (th_dtv th) + 1;
  kn_cur : forall i si m x, tls_slot s i = Some si -> si_map si = Some m -> ts_mods s !! m = Some x ->
    tm_in_slotinfo x = true -> sync i (si_gen si) ->
    exists e, d_ent (th_dtv th) !! Z.to_nat i = Some e /\ entry_ok h t (th_tcb th) m x e;
  kn_own : forall i e, d_ent (th_dtv th) !! S i = Some e -> to_free e <> 0 ->
    val e <> TLS_DTV_UNALLOCATED /\ exists sz m, h !! to_free e = Some (mkBlock sz (ForTls t m));
  kn_inj : forall i j e e', d_ent (th_dtv th) !! S i = Some e -> d_ent (th_dtv th) !! S j = Some e' ->
    to_free e = to_free e' -> to_free e <> 0 -> i = j;
  kn_all : forall p sz m, h !! p = Some (mkBlock sz (ForTls t m)) -> exists i e, d_ent (th_dtv th) !! S i = Some e /\ to_free e = p;
  kn_addr : d_addr (th_dtv th) = ts_initial_dtv s \/ exists sz, h !! d_addr (th_dtv th) = Some (mkBlock sz (ForDtv t)) }.

(** The state with another DTV for [t] and another heap. *)
Definition sp (s : tls_state) (t : Z) (th : thread) (h : gmap Z mblock) : tls_state :=
  set_threads (<[t := th]> (ts_threads s)) (set_heap h s).

Lemma sp_sp s t th h th' h' : sp (sp s t th h) t th' h' = sp s t th' h'.
Proof. unfold sp, set_threads, set_heap. cbn. by rewrite insert_insert_eq. Qed.
Lemma sp_heap s t th h h' : set_heap h' (sp s t th h) = sp s t th h'.
Proof. done. Qed.
Lemma sp_same s t th : ts_threads s !! t = Some th -> sp s t th (ts_heap s) = s.
Proof. intros H. unfold sp. rewrite insert_id by done. by destruct s. Qed.

Lemma wp_get_thread s t th h (Q : thread -> tls_state -> Prop) : Q th (sp s t th h) -> wp (get_thread t) Q (sp s t th h).
Proof. intros H. unfold wp, get_thread, mbind, M_bind, gets. cbn. by rewrite lookup_insert_eq. Qed.
Lemma wp_put_dtv s t th h d (Q : unit -> tls_state -> Prop) :
  Q tt (sp s t (mkThread (th_tcb th) d) h) -> wp (put_dtv t d) Q (sp s t th h).
Proof.
  intros H. unfold put_dtv. apply wp_bind, wp_get_thread, wp_modify. unfold sp, set_threads in *. cbn [ts_threads ts_list ts_max ts_gaps ts_nelem ts_gen ts_limit ts_initial_dtv ts_mods ts_heap ts_writes] in *.
  by rewrite insert_insert_eq.
Qed.

(** ** Operations on one DTV *)
Section Thread.
Context (malloc : gmap Z mblock -> Z -> Z) `{!Malloc malloc}.

Lemma wp_malloc s t th h n u (Q : Z -> tls_state -> Prop) : heap_ok h -> 0 < n ->
  Q 0 (sp s t th h) ->
  (forall p, p <> 0 -> 0 < p -> p + n < 2 ^ 64 -> h !! p = None -> heap_ok (<[p := mkBlock n u]> h) ->
     Q p (sp s t th (<[p := mkBlock n u]> h))) ->
  wp (c_malloc malloc n u) Q (sp s t th h).
Proof.
  intros Hh Hn H0 H. unfold c_malloc. apply wp_bind, wp_gets. change (ts_heap (sp s t th h)) with h.
  destruct (Z.eqb_spec (malloc h n) 0) as [_|Hp]; [by apply wp_ret|].
  destruct (heap_ok_insert malloc h n u Hh Hn Hp) as [Hok Hnone]. destruct (malloc_new h n Hn Hp) as (P0 & P1 & _ & _).
  apply wp_bind, wp_modify, wp_ret. rewrite sp_heap. by apply H.
Qed.

Lemma wp_free s t th h p (Q : unit -> tls_state -> Prop) : (p <> 0 -> is_Some (h !! p)) ->
  Q tt (sp s t th (if p =? 0 then h else delete p h)) -> wp (c_free p) Q (sp s t th h).
Proof.
  intros Hp H. unfold c_free. destruct (Z.eqb_spec p 0) as [|Hne]; [done|].
  apply wp_bind, wp_gets. change (ts_heap (sp s t th h)) with h. destruct (Hp Hne) as [b ->]. by apply wp_modify.
Qed.

Definition dtv_blocks_same (t : Z) (h h' : gmap Z mblock) : Prop :=
  forall p sz m, h !! p = Some (mkBlock sz (ForTls t m)) <-> h' !! p = Some (mkBlock sz (ForTls t m)).

(** Blocks in use stay where they are. *)
Definition kept (d d' : dtv) : Prop := forall i e, d_ent d' !! i = Some e -> to_free e <> 0 -> d_ent d !! i = Some e.

Lemma kept_refl d : kept d d.
Proof. by intros i e. Qed.
Lemma kept_trans d1 d2 d3 : kept d1 d2 -> kept d2 d3 -> kept d1 d3.
Proof. intros H1 H2 i e Hi Hf. apply H1; auto. Qed.
Lemma kept_cleared d k a n g : kept d (mkDtv a n g (<[k := unallocated]> (d_ent d))).
Proof. intros i e [(_ & <- & _)|[_ H]]%list_lookup_insert_Some Hf; done. Qed.
Lemma kept_extended d a n g k : kept d (mkDtv a n g (d_ent d ++ replicate k no_pointer)).
Proof. intros i e [H|[_ [-> _]%lookup_replicate]]%lookup_app_Some Hf; done. Qed.

Lemma knows_resized s sync t th h h' a n : knows s sync t th h -> dtv_blocks_same t h h' ->
  d_len (th_dtv th) <= n < 2 ^ 62 -> (a = ts_initial_dtv s \/ exists sz, h' !! a = Some (mkBlock sz (ForDtv t))) ->
  knows s sync t (mkThread (th_tcb th) (mkDtv a n (d_gen (th_dtv th))
    (d_ent (th_dtv th) ++ replicate (Z.to_nat (n - d_len (th_dtv th))) no_pointer))) h'.
Proof.
  intros [[L1 L2] C O I A D] Hh Hn Ha.
  assert (Hold : forall i e, (d_ent (th_dtv th) ++ replicate (Z.to_nat (n - d_len (th_dtv th))) no_pointer) !! i = Some e ->
    to_free e <> 0 -> d_ent (th_dtv th) !! i = Some e).
  { intros i e [?|[_ [-> _]%lookup_replicate]]%lookup_app_Some Hf; done. }
  split; cbn [th_dtv th_tcb d_len d_ent d_addr].
  - rewrite length_app, length_replicate. lia.
  - intros i si m x Hs Hm Hx Hin Hsy. destruct (C i si m x Hs Hm Hx Hin Hsy) as (e & He & Hok). exists e.
    split; [by apply lookup_app_l_Some|]. destruct Hok as [?|? ?|sz ? ? ? ? ?];
      [by apply entry_unallocated|by apply entry_static|]. eapply entry_dynamic; eauto. by apply Hh.
  - intros i e He Hf. destruct (O i e (Hold _ _ He Hf) Hf) as (Hv & sz & m & Hb). split; [done|]. exists sz, m. by apply Hh.
  - intros i j e e' He He' Hf Hne. apply (I i j e e'); auto. apply Hold; congruence.
  - intros p sz m Hp. apply Hh in Hp. destruct (A p sz m Hp) as (i & e & He & Hf). exists i, e. split; [|done]. by apply lookup_app_l_Some.
  - done.
Qed.

Lemma wp_resize s sync t th h max (Q : dtv -> tls_state -> Prop) : knows s sync t th h -> heap_ok h ->
  d_len (th_dtv th) <= max -> max < 2 ^ 61 ->
  (forall d h', d_len d = max + DTV_SURPLUS -> d_gen d = d_gen (th_dtv th) ->
     knows s sync t (mkThread (th_tcb th) d) h' -> heap_ok h' -> others_same t h h' -> kept (th_dtv th) d ->
     Q d (sp s t th h')) ->
  wp (_dl_resize_dtv malloc true t (th_dtv th) max) Q (sp s t th h).
Proof.
  intros K Hh Hl Hm HQ. unfold _dl_resize_dtv, DTV_SURPLUS in *. pose proof (kn_len _ _ _ _ _ K) as [L1 L2].
  rewrite (u64_small (max + 14)) by lia. rewrite (proj2 (Z.ltb_ge (max + 14) _)) by lia.
  rewrite (firstn_all2 (d_ent (th_dtv th))) by lia.
  assert (Hfin : forall p h', p <> 0 -> heap_ok h' -> others_same t h h' -> dtv_blocks_same t h h' ->
    h' !! p = Some (mkBlock ((2 + (max + 14)) * sizeof_dtv_t) (ForDtv t)) ->
    Q (mkDtv p (max + 14) (d_gen (th_dtv th)) (d_ent (th_dtv th) ++ replicate (Z.to_nat (max + 14 - d_len (th_dtv th))) no_pointer)) (sp s t th h')).
  { intros p h' Hp Hh' Ho Hb Hp'. apply HQ; try done; [|apply kept_extended]. apply (knows_resized s sync t th h h'); try done; [lia|]. right. eauto. }
  apply wp_bind, wp_ret, wp_bind, wp_gets, wp_bind. change (ts_initial_dtv (sp s t th h)) with (ts_initial_dtv s).
  destruct (Z.eqb_spec (d_addr (th_dtv th)) (ts_initial_dtv s)) as [Hi|Hi].
  - apply wp_bind. apply wp_malloc; [done|unfold sizeof_dtv_t; lia|by apply wp_oom|].
    intros p Hp _ _ Hnone Hok. rewrite (proj2 (Z.eqb_neq p 0)) by done. apply wp_bind, wp_ret, wp_ret, wp_ret.
    apply Hfin; [done|done|by apply others_insert| |by rewrite lookup_insert_eq].
    intros q sz m. destruct (decide (q = p)) as [->|]; [|by rewrite lookup_insert_ne]. rewrite Hnone, lookup_insert_eq. done.
  - destruct (kn_addr _ _ _ _ _ K) as [|[sz Hold]]; [done|]. unfold c_realloc.
    apply wp_bind, wp_bind, wp_gets. change (ts_heap (sp s t th h)) with h. rewrite Hold.
    set (h1 := delete (d_addr (th_dtv th)) h). set (n := (2 + (max + 14)) * sizeof_dtv_t).
    destruct (Z.eqb_spec (malloc h1 n) 0) as [_|Hp]; [by apply wp_ret, wp_oom|].
    destruct (heap_ok_insert malloc h1 n (ForDtv t)) as [Hok Hnone]; [by apply heap_ok_delete|unfold n, sizeof_dtv_t; lia|done|].
    apply wp_bind, wp_modify, wp_ret. rewrite (proj2 (Z.eqb_neq (malloc h1 n) 0)) by done. apply wp_ret, wp_ret. rewrite sp_heap.
    apply Hfin; [done|done| | |by rewrite lookup_insert_eq].
    + eapply others_trans; [by eapply others_delete|by apply others_insert].
    + intros q sz' m. destruct (decide (q = malloc h1 n)) as [->|].
      * rewrite lookup_insert_eq. split; [|done]. intros Hq. destruct (decide (malloc h1 n = d_addr (th_dtv th))) as [E|E]; [congruence|].
        assert (h !! malloc h1 n = None) by (rewrite <- Hnone; symmetry; apply lookup_delete_ne; congruence). congruence.
      * rewrite lookup_insert_ne by done. unfold h1. destruct (decide (q = d_addr (th_dtv th))) as [->|];
          [rewrite lookup_delete_eq; split; congruence|by rewrite lookup_delete_ne].
Qed.
(** An entry that is given back. *)
Lemma knows_cleared s (sync sync' : Z -> Z -> Prop) t th h k e : knows s sync t th h -> heap_ok h -> 1 <= k ->
  d_ent (th_dtv th) !! Z.to_nat k = Some e -> (forall i g, 1 <= i -> sync' i g -> sync i g \/ i = k) ->
  knows s sync' t (mkThread (th_tcb th) (mkDtv (d_addr (th_dtv th)) (d_len (th_dtv th)) (d_gen (th_dtv th))
    (<[Z.to_nat k := unallocated]> (d_ent (th_dtv th))))) (if to_free e =? 0 then h else delete (to_free e) h).
Proof.
  intros [[L1 L2] C O I A D] Hok0 Hk He Hsync.
  destruct (Z.to_nat k) as [|k'] eqn:Ek; [lia|]. set (h' := if to_free e =? 0 then h else delete (to_free e) h).
  assert (Hh : forall p b, h' !! p = Some b <-> h !! p = Some b /\ (to_free e = 0 \/ p <> to_free e)).
  { intros p b. unfold h'. destruct (Z.eqb_spec (to_free e) 0); [tauto|]. rewrite lookup_delete_Some. intuition congruence. }
  assert (Hent : forall i e', <[S k' := unallocated]> (d_ent (th_dtv th)) !! S i = Some e' -> to_free e' <> 0 ->
    i <> k' /\ d_ent (th_dtv th) !! S i = Some e').
  { intros i e' Hi Hf. destruct (decide (i = k')) as [->|Hne]; [|split; [done|]; by rewrite list_lookup_insert_ne in Hi by congruence].
    rewrite list_lookup_insert_eq in Hi by (by eapply lookup_lt_Some). injection Hi as <-. done. }
  assert (Hother : forall i e', i <> k' -> d_ent (th_dtv th) !! S i = Some e' -> to_free e' <> 0 -> to_free e = 0 \/ to_free e' <> to_free e).
  { intros i e' Hi He' Hf. right. intros E. apply Hi. apply (I i k' e' e); auto. }
  split; cbn [th_dtv th_tcb d_len d_ent d_addr].
  - by rewrite length_insert.
  - intros i si m x Hs Hm Hx Hin Hsy. assert (Hi : 1 <= i) by (unfold tls_slot in Hs; destruct (Z.ltb_spec i 1); [done|lia]).
    destruct (Z.eq_dec i k) as [->|Hne].
    + exists unallocated. rewrite Ek, list_lookup_insert_eq by (by eapply lookup_lt_Some). split; [done|by apply entry_unallocated].
    + destruct (Hsync i (si_gen si) Hi Hsy) as [Hsy'|]; [|done].
      destruct (C i si m x Hs Hm Hx Hin Hsy') as (e' & He' & Hok). exists e'. rewrite list_lookup_insert_ne by lia. split; [done|].
      destruct Hok as [?|? ?|sz ? Hf Hb ? ?]; [by apply entry_unallocated|by apply entry_static|].
      eapply entry_dynamic; eauto. apply Hh. split; [done|].
      destruct (Z.to_nat i) as [|i'] eqn:Ei; [lia|]. apply (Hother i'); [lia|done|done].
  - intros i e' Hi Hf. destruct (Hent i e' Hi Hf) as [Hne He']. destruct (O i e' He' Hf) as (Hv & sz & m & Hb).
    split; [done|]. exists sz, m. apply Hh. split; [done|]. by apply (Hother i).
  - intros i j e1 e2 Hi Hj Hf Hne. destruct (Hent i e1 Hi Hne) as [_ H1]. destruct (Hent j e2 Hj ltac:(congruence)) as [_ H2].
    by apply (I i j e1 e2).
  - intros p sz m [Hp Hpe]%Hh. destruct (A p sz m Hp) as (i & e' & He' & Hf). destruct (decide (i = k')) as [->|Hne].
    + exfalso. rewrite He in He'. injection He' as ->. destruct Hpe as [E|E]; [|congruence].
      destruct (hp_range h Hok0 p _ Hp). lia.
    + exists i, e'. split; [|done]. by rewrite list_lookup_insert_ne by congruence.
  - destruct D as [D|[sz D]]; [by left|right]. exists sz. apply Hh. split; [done|].
    destruct (Z.eq_dec (to_free e) 0); [by left|right]. intros E. destruct (O k' e He ltac:(done)) as (_ & sz' & m & Hb). congruence.
Qed.

Lemma dtv_at_ok d i : 1 <= i <= d_len d -> Z.of_nat (length (d_ent d)) = d_len d + 1 ->
  exists e, dtv_at d i = Ok e /\ d_ent d !! Z.to_nat i = Some e.
Proof.
  intros Hi Hl. destruct (rd_in_range (d_ent d) i ltac:(lia)) as [e He]. exists e. unfold dtv_at.
  rewrite (proj2 (Z.ltb_ge i 1)) by lia. split; [done|]. by apply rd_Ok in He as [_ He].
Qed.
Lemma set_dtv_at_ok d i p : 1 <= i <= d_len d -> Z.of_nat (length (d_ent d)) = d_len d + 1 ->
  set_dtv_at d i p = Ok (mkDtv (d_addr d) (d_len d) (d_gen d) (<[Z.to_nat i := p]> (d_ent d))).
Proof. intros Hi Hl. unfold set_dtv_at. rewrite (proj2 (Z.ltb_ge i 1)) by lia. by rewrite wr_Ok by lia. Qed.

(** ** Catching up with a generation *)
Section Update.
Context (s : tls_state) (t old new : Z) (Hmax : ts_max s < 2 ^ 61).

(** Slots below [k] are up to date with generation [new]. *)
Definition upto (k i g : Z) : Prop := g <= old \/ i < k /\ g <= new.

(** The state of the loop in front of slot [k]. *)
Record updating (k : Z) (th0 : thread) (h0 : gmap Z mblock) (th : thread) (h : gmap Z mblock) : Prop := {
  up_knows : knows s (upto k) t th h;
  up_heap : heap_ok h;
  up_others : others_same t h0 h;
  up_tcb : th_tcb th = th_tcb th0;
  up_gen : d_gen (th_dtv th) = old;
  up_kept : kept (th_dtv th0) (th_dtv th) }.

Lemma update_slot_wp th0 h0 th h k si (Q : option (option mapid) -> tls_state -> Prop) :
  updating k th0 h0 th h -> 1 <= k <= ts_max s -> tls_slot s k = Some si ->
  (forall th' h' u, updating (k + 1) th0 h0 th' h' -> u = None \/ u = Some (si_map si) -> Q u (sp s t th' h')) ->
  wp (update_slot malloc true t new (ts_max s) k si) Q (sp s t th h).
Proof using Malloc0 Hmax.
  intros [K Hh Ho Ht Hg Hkp] Hk Hsi HQ. unfold update_slot. apply wp_bind, wp_get_thread. rewrite Hg.
  assert (Hskip : ~ (old < si_gen si <= new) \/ si_map si = None -> updating (k + 1) th0 h0 th h).
  { intros Hs. split; try done. destruct K as [L C O I A D]. split; try done.
    intros i si' m x Hs' Hm Hx Hin Hsy. apply (C i si' m x Hs' Hm Hx Hin). destruct Hsy as [?|[? ?]]; [by left|].
    destruct (Z.eq_dec i k) as [->|]; [|right; lia]. assert (si' = si) as -> by congruence. destruct Hs; [left; lia|congruence]. }
  destruct (Z.ltb_spec new (si_gen si)); [apply wp_ret, HQ; [apply Hskip; left; lia|by left]|].
  destruct (Z.leb_spec (si_gen si) old); [apply wp_ret, HQ; [apply Hskip; left; lia|by left]|].
  destruct ((d_len (th_dtv th) <? k) && bool_decide (si_map si = None)) eqn:Hsk.
  { apply andb_true_iff in Hsk as [_ Hsk]. apply bool_decide_eq_true in Hsk. apply wp_ret, HQ; [apply Hskip; by right|by left]. }
  clear Hsk Hskip.
  assert (Hset : forall th1 h1, knows s (upto k) t th1 h1 -> heap_ok h1 -> others_same t h0 h1 -> th_tcb th1 = th_tcb th0 ->
    d_gen (th_dtv th1) = old -> kept (th_dtv th0) (th_dtv th1) -> k <= d_len (th_dtv th1) ->
    wp (e ← lift (dtv_at (th_dtv th1) k); c_free (to_free e);; d ← lift (set_dtv_at (th_dtv th1) k unallocated);
        put_dtv t d;; mret (Some (si_map si))) Q (sp s t th1 h1)).
  { intros th1 h1 K1 Hh1 Ho1 Ht1 Hg1 Hkp1 Hk1. pose proof (kn_len _ _ _ _ _ K1) as [L1 L2].
    destruct (dtv_at_ok (th_dtv th1) k ltac:(lia) L2) as (e & He & Hle).
    apply wp_bind, (wp_lift _ _ _ _ He), wp_bind.
    destruct (Z.to_nat k) as [|k'] eqn:Ek; [lia|].
    assert (Hown : to_free e <> 0 -> exists sz m, h1 !! to_free e = Some (mkBlock sz (ForTls t m))).
    { intros Hf. by destruct (kn_own _ _ _ _ _ K1 k' e Hle Hf) as [_ ?]. }
    apply wp_free; [intros Hf; destruct (Hown Hf) as (? & ? & ->); by eexists|].
    apply wp_bind, (wp_lift _ _ _ _ (set_dtv_at_ok (th_dtv th1) k unallocated ltac:(lia) L2)), wp_bind, wp_put_dtv, wp_ret.
    apply HQ; [|by right]. rewrite <- Ek in Hle. split; try done.
    - apply (knows_cleared s (upto k)); try done; [lia|]. intros i g Hi [?|[? ?]]; [by left; left|].
      destruct (Z.eq_dec i k) as [->|]; [by right|]. left. right. lia.
    - destruct (to_free e =? 0); [done|by apply heap_ok_delete].
    - destruct (Z.eqb_spec (to_free e) 0) as [|Hf]; [done|]. destruct (Hown Hf) as (sz & m & Hb).
      eapply others_trans; [done|]. by eapply others_delete.
    - eapply kept_trans; [done|apply kept_cleared]. }
  apply wp_bind. destruct (Z.ltb_spec (d_len (th_dtv th)) k) as [Hlt|Hge].
  - apply wp_bind. apply (wp_resize s (upto k) t th h); [done|done|lia|done|].
    intros d h' Hd Hdg K' Hh' Ho' Hkp'. apply wp_bind, wp_assert; [apply Z.leb_le; unfold DTV_SURPLUS in Hd; lia|].
    apply wp_bind, wp_put_dtv, wp_ret. apply (Hset (mkThread (th_tcb th) d) h'); try done.
    + by eapply others_trans.
    + cbn. congruence.
    + by eapply kept_trans.
    + cbn. unfold DTV_SURPLUS in Hd. lia.
  - apply wp_ret. by apply Hset.
Qed.

Lemma updating_le k k' th0 h0 th h : k <= k' -> updating k' th0 h0 th h -> updating k th0 h0 th h.
Proof using.
  intros Hk [[L C O I A D] Hh Ho Ht Hg Hkp]. split; try done. split; try done. intros i si m x Hs Hm Hx Hin [?|[? ?]].
  - apply (C i si m x); auto. by left.
  - apply (C i si m x); auto. right. lia.
Qed.

(** The map an update returns, if any, is the one of the requested slot. *)
Definition map_of_slot (req : Z) (mp : option mapid) : Prop :=
  mp = None \/ exists si, tls_slot s req = Some si /\ mp = si_map si.

Lemma update_slots_wp req b : forall th0 h0 th h k mp (Q : option mapid -> tls_state -> Prop),
  updating k th0 h0 th h -> 1 <= k -> (forall n si, b !! n = Some si -> tls_slot s (k + Z.of_nat n) = Some si) -> map_of_slot req mp ->
  (forall th' h' k' mp', updating k' th0 h0 th' h' -> map_of_slot req mp' -> k' = k + Z.of_nat (length b) \/ ts_max s < k' ->
     Q mp' (sp s t th' h')) ->
  wp (update_slots malloc true t new req (ts_max s) b k mp) Q (sp s t th h).
Proof using Malloc0 Hmax.
  induction b as [|si b IH]; intros th0 h0 th h k mp Q U Hk Hb Hmp HQ; cbn [update_slots].
  - apply wp_ret. apply (HQ th h k); try done. left. cbn. lia.
  - destruct (Z.ltb_spec (ts_max s) k) as [Hgt|Hle].
    { apply wp_ret. apply (HQ th h k); try done. by right. }
    assert (Hsi : tls_slot s k = Some si). { rewrite <- (Hb 0%nat si eq_refl). f_equal. lia. }
    apply wp_bind. apply (update_slot_wp th0 h0 th h k si); [done|lia|done|]. intros th' h' u U' Hu.
    apply (IH th0 h0 th' h' (k + 1)); [done|lia| | |].
    + intros n si' Hn. rewrite <- (Hb (S n) si' Hn). f_equal. lia.
    + destruct Hu as [->| ->]; [done|]. destruct (Z.eqb_spec k req) as [<-|]; [|done]. right. by exists si.
    + intros th2 h2 k2 mp2 U2 Hmp2 Hk2. apply (HQ th2 h2 k2); try done. cbn [length]. destruct Hk2; [left; lia|by right].
Qed.

Lemma update_blocks_wp req blocks : forall th0 h0 th h total mp (Q : option mapid -> tls_state -> Prop),
  updating (Z.max 1 total) th0 h0 th h -> 0 <= total -> (total = 0 -> exists b r, blocks = b :: r /\ b <> []) ->
  drop (Z.to_nat total) (concat (ts_list s)) = concat blocks -> total <= list_len (ts_list s) -> map_of_slot req mp ->
  (forall th' h' k' mp', updating k' th0 h0 th' h' -> map_of_slot req mp' -> list_len (ts_list s) <= k' \/ ts_max s < k' ->
     Q mp' (sp s t th' h')) ->
  wp (update_blocks malloc true t new req (ts_max s) blocks total mp) Q (sp s t th h).
Proof using Malloc0 Hmax.
  induction blocks as [|b blocks IH]; intros th0 h0 th h total mp Q U Ht0 Hfirst Hd Hlen Hmp HQ; cbn [update_blocks].
  - apply wp_ret. apply (HQ th h (Z.max 1 total)); try done. left. unfold list_len in *.
    assert (length (drop (Z.to_nat total) (concat (ts_list s))) = 0%nat) by (by rewrite Hd). rewrite length_drop in *. lia.
  - assert (Hat : forall n si, b !! n = Some si -> concat (ts_list s) !! (Z.to_nat total + n)%nat = Some si).
    { intros n si Hn. rewrite <- lookup_drop, Hd. cbn [concat]. by apply lookup_app_l_Some. }
    assert (Hbl : total + Z.of_nat (length b) <= list_len (ts_list s)).
    { unfold list_len in *. assert (E : length (drop (Z.to_nat total) (concat (ts_list s))) = length (concat (b :: blocks))) by (by rewrite Hd).
      rewrite length_drop in E. cbn [concat] in E. rewrite length_app in E. lia. }
    assert (Hnext : forall th1 h1 k1 mp1, updating k1 th0 h0 th1 h1 -> map_of_slot req mp1 -> 0 < total + Z.of_nat (length b) ->
      k1 = total + Z.of_nat (length b) \/ ts_max s < k1 ->
      wp (if ts_max s <? total + Z.of_nat (length b) then mret mp1
          else update_blocks malloc true t new req (ts_max s) blocks (total + Z.of_nat (length b)) mp1) Q (sp s t th1 h1)).
    { intros th1 h1 k1 mp1 U1 Hmp1 Hpos Hk1. destruct (Z.ltb_spec (ts_max s) (total + Z.of_nat (length b))).
      - apply wp_ret. apply (HQ th1 h1 k1); try done. right. lia.
      - apply (IH th0 h0 th1 h1); try done; [|lia|lia|].
        + apply (updating_le _ k1); [lia|done].
        + replace (Z.to_nat (total + Z.of_nat (length b))) with (Z.to_nat total + length b)%nat by lia.
          rewrite <- drop_drop, Hd. cbn [concat]. by rewrite drop_app_length. }
    apply wp_bind. destruct (Z.eqb_spec total 0) as [->|Hne].
    + destruct Hfirst as (b' & r & [= <- <-] & Hb); [done|]. destruct b as [|s0 b]; [done|]. cbn [tail].
      apply (update_slots_wp req b th0 h0 th h); [done|lia| |done|].
      * intros n si Hn. unfold tls_slot. rewrite (proj2 (Z.ltb_ge (1 + Z.of_nat n) 1)) by lia.
        rewrite <- (Hat (S n) si Hn). f_equal. lia.
      * intros th1 h1 k1 mp1 U1 Hmp1 Hk1. apply (Hnext th1 h1 k1 mp1 U1 Hmp1); cbn [length] in *; lia.
    + replace (Z.max 1 total) with total in U by lia.
      apply (update_slots_wp req b th0 h0 th h); [done|lia| |done|].
      * intros n si Hn. unfold tls_slot. rewrite (proj2 (Z.ltb_ge (total + Z.of_nat n) 1)) by lia.
        rewrite <- (Hat n si Hn). f_equal. lia.
      * intros th1 h1 k1 mp1 U1 Hmp1 Hk1. apply (Hnext th1 h1 k1 mp1 U1 Hmp1); lia.
Qed.
End Update.

(** ** The slots *)
Definition mod_ok (x : tmod) : Prop := 0 < tm_blocksize x < 2 ^ 64 /\ 0 <= tl_align (tm_tls x) < 2 ^ 64.

Record slots_ok (s : tls_state) : Prop := {
  so_first : exists b r, ts_list s = b :: r /\ 1 + ts_nelem s <= Z.of_nat (length b);
  so_max : 0 <= ts_nelem s <= ts_max s /\ ts_max s < 2 ^ 61;
  so_map : forall i si m, tls_slot s i = Some si -> si_map si = Some m -> i <= ts_max s /\ exists x, ts_mods s !! m = Some x /\ tm_modid x = i;
  so_in : forall m x, ts_mods s !! m = Some x -> tm_in_slotinfo x = true ->
    mod_ok x /\ exists si, tls_slot s (tm_modid x) = Some si /\ si_map si = Some m }.

Lemma tls_slot_range s i si : tls_slot s i = Some si -> 1 <= i < list_len (ts_list s).
Proof.
  unfold tls_slot, list_len. destruct (Z.ltb_spec i 1); [done|]. intros H1%lookup_lt_Some. lia.
Qed.

Lemma update_slotinfo_wp s t th h req new (Q : option mapid -> tls_state -> Prop) : slots_ok s ->
  knows s (fun _ g => g <= d_gen (th_dtv th)) t th h -> heap_ok h -> req <= ts_max s ->
  (forall th' h' mp, knows s (fun _ g => g <= d_gen (th_dtv th')) t th' h' -> heap_ok h' -> others_same t h h' ->
     th_tcb th' = th_tcb th -> d_gen (th_dtv th') = Z.max (d_gen (th_dtv th)) new -> kept (th_dtv th) (th_dtv th') -> map_of_slot s req mp -> Q mp (sp s t th' h')) ->
  wp (_dl_update_slotinfo malloc true t req new) Q (sp s t th h).
Proof using Malloc0.
  intros [(b & r & Hlist & Hb) [Hn Hm] Hmap Hin] K Hh Hreq HQ. unfold _dl_update_slotinfo. apply wp_bind, wp_get_thread.
  destruct (Z.ltb_spec (d_gen (th_dtv th)) new) as [Hlt|Hge].
  - apply wp_bind, wp_gets, wp_bind. change (ts_max (sp s t th h)) with (ts_max s). apply wp_assert; [by apply Z.leb_le|].
    apply wp_bind, wp_gets, wp_bind. change (ts_list (sp s t th h)) with (ts_list s).
    rewrite bool_decide_false by (by rewrite Hlist).
    apply (update_blocks_wp s t (d_gen (th_dtv th)) new ltac:(lia) req (ts_list s) th h th h); [|lia| |done|apply list_len_nonneg|by left|].
    + split; try done; [|apply kept_refl]. destruct K as [L C O I A D]. split; try done. intros i si m x Hs Hsm Hx Hi Hsy.
      apply (C i si m x); try done. apply tls_slot_range in Hs. destruct Hsy as [?|[? ?]]; [done|lia].
    + intros _. exists b, r. split; [done|]. destruct b; [cbn in Hb; lia|done].
    + intros th' h' k mp [K' Hh' Ho Ht Hg Hkp] Hmp Hk. apply wp_bind, wp_get_thread, wp_bind, wp_put_dtv, wp_ret.
      apply HQ; cbn [th_dtv th_tcb set_dtv_gen d_gen]; try done; [|lia].
      destruct K' as [L C O I A D]. split; try done. cbn [th_dtv th_tcb set_dtv_gen d_gen d_ent].
      intros i si m x Hs Hsm Hx Hi Hsy. apply (C i si m x); try done. pose proof (tls_slot_range _ _ _ Hs).
      destruct (Hmap i si m Hs Hsm) as [Hi' _]. right. lia.
  - apply wp_ret. apply HQ; try done; [lia|apply kept_refl|by left].
Qed.

(** The fields of the state a thread does not change. *)
Definition same_loader (s s' : tls_state) : Prop :=
  ts_list s' = ts_list s /\ ts_max s' = ts_max s /\ ts_gaps s' = ts_gaps s /\ ts_nelem s' = ts_nelem s /\
  ts_gen s' = ts_gen s /\ ts_limit s' = ts_limit s /\ ts_initial_dtv s' = ts_initial_dtv s.

(** Where the blocks of a module are is decided once, by the first use or by the loader. *)
Definition decided (m : mapid) (x x' : tmod) : Prop :=
  x' = x \/ tm_offset x = NO_TLS_OFFSET /\ exists o, x' = with_tls (set_tls_offset o) x.

Lemma knows_decided s s' sync t th h m x x' : knows s sync t th h -> same_loader s s' -> ts_mods s !! m = Some x ->
  ts_mods s' = <[m := x']> (ts_mods s) -> decided m x x' -> knows s' sync t th h.
Proof using.
  intros [L C O I A D] (El & _ & _ & _ & _ & _ & Ei) Hx Hm Hd. split; try done; [|by rewrite Ei].
  intros i si m' y Hs Hsm Hy Hin Hsy. unfold tls_slot in Hs. rewrite El in Hs. rewrite Hm in Hy.
  apply lookup_insert_Some in Hy as [[<- <-]|[_ Hy]]; [|by apply (C i si m' y)].
  destruct Hd as [->|[Ho [o ->]]]; [by apply (C i si m x)|].
  destruct (C i si m x Hs Hsm Hx Hin Hsy) as (e & He & Hok). exists e. split; [done|].
  destruct Hok as [?|H1 ?|sz H1 ? ? ? ?]; [by apply entry_unallocated|..]; rewrite Ho in H1; done.
Qed.

(** ** The block of a module *)

(** An unallocated entry that is filled. *)
Lemma knows_filled s sync t th h i e e' sz m : knows s sync t th h -> heap_ok h -> 1 <= i ->
  d_ent (th_dtv th) !! Z.to_nat i = Some e -> to_free e = 0 ->
  let h' := if to_free e' =? 0 then h else <[to_free e' := mkBlock sz (ForTls t m)]> h in
  (to_free e' <> 0 -> h !! to_free e' = None /\ val e' <> TLS_DTV_UNALLOCATED) ->
  (forall si m' x', tls_slot s i = Some si -> si_map si = Some m' -> ts_mods s !! m' = Some x' -> entry_ok h' t (th_tcb th) m' x' e') ->
  knows s sync t (mkThread (th_tcb th) (mkDtv (d_addr (th_dtv th)) (d_len (th_dtv th)) (d_gen (th_dtv th))
    (<[Z.to_nat i := e']> (d_ent (th_dtv th))))) h'.
Proof using.
  intros [[L1 L2] C O I A D] Hok0 Hi He Hf h' Hnew Hok. destruct (Z.to_nat i) as [|i'] eqn:Ei; [lia|].
  pose proof (lookup_lt_Some _ _ _ He) as Hlt.
  assert (Hh : forall p b, h !! p = Some b -> h' !! p = Some b).
  { intros p b Hp. unfold h'. destruct (Z.eqb_spec (to_free e') 0) as [|Hne]; [done|]. destruct (Hnew Hne) as [Hn _].
    rewrite lookup_insert_ne; [done|congruence]. }
  assert (Hfree : forall j f, d_ent (th_dtv th) !! S j = Some f -> to_free f <> 0 -> to_free e' <> 0 -> to_free f <> to_free e').
  { intros j f Hj Hf' Hne E. destruct (Hnew Hne) as [Hn _]. destruct (O j f Hj Hf') as (_ & ? & ? & Hb). congruence. }
  split; cbn [th_dtv th_tcb d_len d_ent d_addr].
  - by rewrite length_insert.
  - intros j si m' x' Hs Hm Hx Hin Hsy. destruct (Z.eq_dec j i) as [->|Hne].
    + exists e'. rewrite Ei, list_lookup_insert_eq by done. split; [done|]. by apply (Hok si).
    + destruct (C j si m' x' Hs Hm Hx Hin Hsy) as (f & Hj & Hfo). exists f. apply tls_slot_range in Hs.
      rewrite list_lookup_insert_ne by lia. split; [done|].
      destruct Hfo as [?|? ?|sz' ? ? Hb ? ?]; [by apply entry_unallocated|by apply entry_static|]. eapply entry_dynamic; eauto.
  - intros j f Hj Hf'. destruct (decide (j = i')) as [->|Hne].
    + rewrite list_lookup_insert_eq in Hj by done. injection Hj as <-. destruct (Hnew Hf') as [_ Hv]. split; [done|].
      exists sz, m. unfold h'. rewrite (proj2 (Z.eqb_neq _ _) Hf'). by rewrite lookup_insert_eq.
    + rewrite list_lookup_insert_ne in Hj by congruence. destruct (O j f Hj Hf') as (Hv & sz' & m' & Hb). split; [done|]. eauto.
  - intros j k f g Hj Hk Hfg Hne.
    apply list_lookup_insert_Some in Hj as [(H1 & <- & _)|[Hj' Hj]], Hk as [(H2 & <- & _)|[Hk' Hk]]; [lia|..].
    + destruct (Hfree k g Hk ltac:(congruence) Hne). congruence.
    + destruct (Hfree j f Hj Hne ltac:(congruence)). congruence.
    + by apply (I j k f g).
  - intros p sz' m' Hp. unfold h' in Hp.
    assert (Hold : h !! p = Some (mkBlock sz' (ForTls t m')) -> exists j f, <[S i' := e']> (d_ent (th_dtv th)) !! S j = Some f /\ to_free f = p).
    { intros Hp'. destruct (A p sz' m' Hp') as (j & f & Hj & Hfp). exists j, f. split; [|done].
      rewrite list_lookup_insert_ne; [done|]. intros [= <-]. rewrite He in Hj. injection Hj as <-.
      destruct (hp_range h Hok0 p _ Hp'). lia. }
    destruct (Z.eqb_spec (to_free e') 0) as [|Hne]; [by apply Hold|].
    apply lookup_insert_Some in Hp as [[<- _]|[_ Hp]]; [|by apply Hold]. exists i', e'. by rewrite list_lookup_insert_eq.
  - destruct D as [D|[sz' D]]; [by left|right]. exists sz'. by apply Hh.
Qed.

Lemma roundup_in x y n : 0 < y < 2 ^ 64 -> 0 <= x -> x + (n + y) < 2 ^ 64 -> 0 <= n ->
  x <= roundup x y /\ roundup x y + n <= x + (n + y) /\ roundup x y mod y = 0.
Proof using.
  intros Hy Hx Hn H0. unfold roundup. rewrite (u64_small (x + (y - 1))) by lia.
  pose proof (Z.div_mod (x + (y - 1)) y ltac:(lia)). pose proof (Z.mod_pos_bound (x + (y - 1)) y ltac:(lia)).
  rewrite u64_small by nia. split; [lia|]. split; [lia|]. apply Z.mod_mul. lia.
Qed.

(** A new block for the module, or the end of the process. *)
Lemma allocate_and_init_wp s t th h m x (Q : dtv_pointer -> tls_state -> Prop) : heap_ok h -> mod_ok x ->
  (forall e sz, to_free e <> 0 -> h !! to_free e = None -> heap_ok (<[to_free e := mkBlock sz (ForTls t m)]> h) ->
     0 < to_free e -> to_free e <= val e -> val e + tm_blocksize x <= to_free e + sz -> to_free e + sz < 2 ^ 64 ->
     Q e (sp (add_write (val e, init_bytes x) s) t th (<[to_free e := mkBlock sz (ForTls t m)]> h))) ->
  wp (allocate_and_init malloc t m x) Q (sp s t th h).
Proof using Malloc0.
  intros Hh [Hbs Hal] HQ. unfold allocate_and_init, allocate_dtv_entry. apply wp_bind.
  destruct (powerof2 (tl_align (tm_tls x)) && (tl_align (tm_tls x) <=? 16)) eqn:Hsmall.
  - apply wp_bind. apply wp_malloc; [done|lia|by apply wp_ret, wp_oom|].
    intros p Hp Hp0 Hpr Hnone Hok. apply wp_ret. cbn [val]. rewrite (proj2 (Z.eqb_neq p 0)) by done.
    apply wp_bind, wp_modify, wp_ret. apply (HQ (mkPtr p p) (tm_blocksize x)); cbn [val to_free]; try done; lia.
  - assert (Ha : 0 < tl_align (tm_tls x)).
    { destruct (Z.eq_dec (tl_align (tm_tls x)) 0) as [E|]; [|lia]. by rewrite E in Hsmall. }
    destruct (Z.ltb_spec (u64 (tm_blocksize x + tl_align (tm_tls x))) (tm_blocksize x)) as [|Hno]; [by apply wp_ret, wp_oom|].
    assert (Hsum : u64 (tm_blocksize x + tl_align (tm_tls x)) = tm_blocksize x + tl_align (tm_tls x)).
    { unfold u64 in *. destruct (Z.lt_ge_cases (tm_blocksize x + tl_align (tm_tls x)) (2 ^ 64)); [by apply Z.mod_small; lia|].
      rewrite <- (Z.mod_unique_pos (tm_blocksize x + tl_align (tm_tls x)) (2 ^ 64) 1 (tm_blocksize x + tl_align (tm_tls x) - 2 ^ 64)) in Hno by lia. lia. }
    rewrite Hsum. apply wp_bind. apply wp_malloc; [done|lia|by apply wp_ret, wp_oom|].
    intros p Hp Hp0 Hpr Hnone Hok. rewrite (proj2 (Z.eqb_neq p 0)) by done. apply wp_ret. cbn [val].
    destruct (roundup_in p (tl_align (tm_tls x)) (tm_blocksize x)) as (R1 & R2 & _); [lia..|].
    rewrite (proj2 (Z.eqb_neq (roundup p (tl_align (tm_tls x))) 0)) by lia.
    apply wp_bind, wp_modify, wp_ret.
    apply (HQ (mkPtr (roundup p (tl_align (tm_tls x))) p) (tm_blocksize x + tl_align (tm_tls x))); cbn [val to_free]; try done; lia.
Qed.

(** What an access leaves behind: [e] is the entry of [t] for [m]; the thread was [th] and the heap [h]. *)
Record accessed (s : tls_state) (t : Z) (th : thread) (h : gmap Z mblock) (m : mapid) (x : tmod) (e : dtv_pointer) (s' : tls_state) : Prop := {
  ac_loader : same_loader s s';
  ac_thread : exists th' x', ts_threads s' = <[t := th']> (ts_threads s) /\ th_tcb th' = th_tcb th /\
    d_gen (th_dtv th) <= d_gen (th_dtv th') <= Z.max (d_gen (th_dtv th)) (ts_gen s) /\
    knows s' (fun _ g => g <= d_gen (th_dtv th')) t th' (ts_heap s') /\
    ts_mods s' = <[m := x']> (ts_mods s) /\ decided m x x' /\
    d_ent (th_dtv th') !! Z.to_nat (tm_modid x) = Some e /\ entry_ok (ts_heap s') t (th_tcb th) m x' e;
  ac_served : is_static (tm_offset x) = true /\ e = mkPtr (u64 (th_tcb th - tm_offset x)) 0 \/ to_free e <> 0;
  ac_heap : heap_ok (ts_heap s');
  ac_others : others_same t h (ts_heap s');
  ac_writes : (ts_writes s' = ts_writes s /\ (to_free e <> 0 -> d_ent (th_dtv th) !! Z.to_nat (tm_modid x) = Some e)) \/
    (ts_writes s' = ts_writes s ++ [(val e, init_bytes x)] /\ to_free e <> 0) }.

Lemma accessed_after s t th h th1 h1 m x e s' : accessed s t th1 h1 m x e s' -> th_tcb th1 = th_tcb th ->
  d_gen (th_dtv th) <= d_gen (th_dtv th1) <= Z.max (d_gen (th_dtv th)) (ts_gen s) -> others_same t h h1 -> kept (th_dtv th) (th_dtv th1) ->
  accessed s t th h m x e s'.
Proof using.
  intros [Al (th' & x' & T1 & T2 & T3 & T4 & T5 & T6 & T7 & T8) As Ah Ao Aw] Ht Hg Ho Hk. split; try done.
  - exists th', x'. rewrite <- Ht. split; [done|]. split; [congruence|]. split; [lia|]. done.
  - by rewrite <- Ht.
  - by eapply others_trans.
  - destruct Aw as [[Hw He]|Hw]; [left|by right]. split; [done|]. intros Hf. apply Hk; auto.
Qed.

Lemma same_loader_refl s : same_loader s s.
Proof using. by repeat split. Qed.
Lemma decided_refl m x : decided m x x.
Proof using. by left. Qed.

Lemma sp_set_mods s t th h x : set_mods x (sp s t th h) = sp (set_mods x s) t th h.
Proof using. done. Qed.

Section Access.
Context (s : tls_state) (t : Z) (m : mapid) (x : tmod) (si : slotinfo).
Context (Hs : slots_ok s) (Hx : ts_mods s !! m = Some x) (Hin : tm_in_slotinfo x = true).
Context (Hsi : tls_slot s (tm_modid x) = Some si) (Hsm : si_map si = Some m).

Lemma modid_range : 1 <= tm_modid x < list_len (ts_list s) /\ tm_modid x <= ts_max s.
Proof using Hs Hsi Hsm.
  split; [by eapply tls_slot_range|]. by destruct (so_map s Hs _ _ _ Hsi Hsm).
Qed.

Lemma slot_lookup : slot_of (ts_list s) (tm_modid x) = Ok si.
Proof using Hs Hsi Hsm.
  pose proof modid_range. rewrite slot_of_spec by lia. apply rd_Ok. split; [lia|]. unfold tls_slot in Hsi.
  by rewrite (proj2 (Z.ltb_ge (tm_modid x) 1)) in Hsi by lia.
Qed.

Lemma tail_wp th h e0 off mp (Q : Z -> tls_state -> Prop) :
  knows s (fun _ g => g <= d_gen (th_dtv th)) t th h -> heap_ok h ->
  d_ent (th_dtv th) !! Z.to_nat (tm_modid x) = Some e0 -> val e0 = TLS_DTV_UNALLOCATED -> mp = None \/ mp = Some m ->
  (forall e s', accessed s t th h m x e s' -> Q (tls_get_addr_adjust (val e) off) s') ->
  wp (tls_get_addr_tail malloc t (tm_modid x) off mp) Q (sp s t th h).
Proof using Malloc0 Hs Hx Hin Hsi Hsm.
  intros K Hh He0 Hv Hmp HQ. pose proof modid_range as [Hm1 Hm2]. destruct (so_in s Hs m x Hx Hin) as [Hmod _].
  pose proof (kn_len _ _ _ _ _ K) as [L1 L2]. pose proof (lookup_lt_Some _ _ _ He0) as Hlt.
  assert (Hf0 : to_free e0 = 0).
  { destruct (Z.eq_dec (to_free e0) 0) as [|Hf]; [done|]. destruct (Z.to_nat (tm_modid x)) as [|i'] eqn:Ei; [lia|].
    by destruct (kn_own _ _ _ _ _ K i' e0 He0 Hf). }
  unfold tls_get_addr_tail. apply wp_bind, wp_gets, wp_bind. change (ts_list (sp s t th h)) with (ts_list s).
  assert (Hget : forall Q', Q' m (sp s t th h) -> wp (match mp with Some m => mret m | None => s0 ← lift (slot_of (ts_list s) (tm_modid x)); lift (res_of_option (si_map s0)) end) Q' (sp s t th h)).
  { intros Q' H. destruct Hmp as [->| ->]; [|done]. apply wp_bind, (wp_lift _ _ _ _ slot_lookup). rewrite Hsm. done. }
  apply Hget. apply wp_bind. unfold get_mod at 1. apply wp_bind, wp_gets.
  change (ts_mods (sp s t th h)) with (ts_mods s). rewrite Hx. apply (wp_lift _ x); [done|].
  destruct (is_static (tm_offset x)) eqn:Hst.
  - apply wp_bind, wp_get_thread, wp_bind.
    apply (wp_lift _ _ _ _ (set_dtv_at_ok (th_dtv th) (tm_modid x) (mkPtr (u64 (th_tcb th - tm_offset x)) 0) ltac:(lia) L2)).
    apply wp_bind, wp_put_dtv, wp_ret. apply (HQ (mkPtr (u64 (th_tcb th - tm_offset x)) 0)).
    set (e := mkPtr (u64 (th_tcb th - tm_offset x)) 0).
    split; [by repeat split| |by left|done|done|by left].
    eexists _, x. split; [reflexivity|]. split; [done|]. split; [cbn; lia|]. split; [|split; [by rewrite insert_id|]]; [|split; [by left|]].
    + apply (knows_decided s _ _ _ _ _ m x x); [|by repeat split|done|by rewrite insert_id|by left].
      apply (knows_filled s _ t th h (tm_modid x) e0 e 0 m K Hh ltac:(lia) He0 Hf0); [done|].
      intros si' m' x' Hs' Hm' Hx'. rewrite Hsi in Hs'. injection Hs' as <-. rewrite Hsm in Hm'. injection Hm' as <-.
      rewrite Hx in Hx'. injection Hx' as <-. by apply entry_static.
    + cbn [th_dtv d_ent]. rewrite list_lookup_insert_eq by done. split; [done|]. by apply entry_static.
  - set (x' := if tm_offset x =? NO_TLS_OFFSET then with_tls (set_tls_offset FORCED_DYNAMIC_TLS_OFFSET) x else x).
    assert (Hd : decided m x x').
    { unfold x'. destruct (Z.eqb_spec (tm_offset x) NO_TLS_OFFSET); [right; eauto|by left]. }
    assert (Ho' : tm_offset x' = FORCED_DYNAMIC_TLS_OFFSET).
    { unfold x', is_static in *. destruct (Z.eqb_spec (tm_offset x) NO_TLS_OFFSET); [done|].
      destruct (Z.eqb_spec (tm_offset x) FORCED_DYNAMIC_TLS_OFFSET); done. }
    assert (Hb' : tm_blocksize x' = tm_blocksize x) by (unfold x'; by destruct (tm_offset x =? NO_TLS_OFFSET)).
    set (s1 := set_mods (<[m := x']> (ts_mods s)) s).
    assert (K1 : knows s1 (fun _ g => g <= d_gen (th_dtv th)) t th h).
    { apply (knows_decided s _ _ _ _ _ m x x' K); done. }
    apply wp_bind.
    assert (Hput : forall Q' : unit -> tls_state -> Prop, Q' tt (sp s1 t th h) ->
      wp (if tm_offset x =? NO_TLS_OFFSET then put_mod m (with_tls (set_tls_offset FORCED_DYNAMIC_TLS_OFFSET) x) else mret tt) Q' (sp s t th h)).
    { intros Q' H. unfold s1, x' in H. destruct (tm_offset x =? NO_TLS_OFFSET); [exact H|].
      rewrite insert_id in H by done. apply wp_ret. by destruct s. }
    apply Hput. apply wp_bind. apply (allocate_and_init_wp s1 t th h m x); [done|done|].
    intros e sz Hf Hnone Hok Hp0 Hlo Hhi Htop. apply wp_bind, wp_get_thread, wp_bind.
    apply (wp_lift _ _ _ _ (set_dtv_at_ok (th_dtv th) (tm_modid x) e ltac:(lia) L2)).
    apply wp_bind, wp_put_dtv, wp_bind, wp_assert; [by rewrite (proj2 (Z.eqb_neq _ _) Hf)|]. apply wp_ret, HQ.
    assert (Hve : val e <> TLS_DTV_UNALLOCATED) by (unfold TLS_DTV_UNALLOCATED; destruct Hmod; lia).
    assert (Heok : entry_ok (<[to_free e := mkBlock sz (ForTls t m)]> h) t (th_tcb th) m x' e).
    { eapply entry_dynamic; [done|done|by rewrite lookup_insert_eq|done|lia]. }
    split; [by repeat split| |by right|done|by apply others_insert|by right].
    eexists _, x'. split; [reflexivity|]. split; [done|]. split; [cbn; lia|]. split; [|split; [done|]]; [|split; [done|]].
    + pose proof (knows_filled s1 _ t th h (tm_modid x) e0 e sz m K1 Hh ltac:(lia) He0 Hf0) as K2. cbn [to_free] in K2.
      rewrite (proj2 (Z.eqb_neq _ _) Hf) in K2.
      destruct K2 as [L C O I A D]; [done| |by split].
      intros si' m' y Hs' Hm' Hy. change (tls_slot s1 (tm_modid x)) with (tls_slot s (tm_modid x)) in Hs'.
      rewrite Hsi in Hs'. injection Hs' as <-. rewrite Hsm in Hm'. injection Hm' as <-.
      unfold s1 in Hy. cbn [set_mods ts_mods] in Hy. rewrite lookup_insert_eq in Hy. by injection Hy as <-.
    + cbn [th_dtv d_ent]. rewrite list_lookup_insert_eq by done. done.
Qed.

(** Reading the entry once the thread knows the module. *)
Lemma read_wp th h off mp (Q : Z -> tls_state -> Prop) :
  knows s (fun _ g => g <= d_gen (th_dtv th)) t th h -> heap_ok h -> si_gen si <= d_gen (th_dtv th) -> mp = None \/ mp = Some m ->
  (forall e s', accessed s t th h m x e s' -> Q (tls_get_addr_adjust (val e) off) s') ->
  wp (p ← lift (dtv_at (th_dtv th) (tm_modid x));
      if val p =? TLS_DTV_UNALLOCATED then tls_get_addr_tail malloc t (tm_modid x) off mp
      else mret (tls_get_addr_adjust (val p) off)) Q (sp s t th h).
Proof using Malloc0 Hs Hx Hin Hsi Hsm.
  intros K Hh Hg Hmp HQ. pose proof modid_range as [Hm1 Hm2]. pose proof (kn_len _ _ _ _ _ K) as [L1 L2].
  destruct (kn_cur _ _ _ _ _ K _ si m x Hsi Hsm Hx Hin Hg) as (e & He & Hok). pose proof (lookup_lt_Some _ _ _ He) as Hlt.
  destruct (dtv_at_ok (th_dtv th) (tm_modid x) ltac:(lia) L2) as (e' & He1 & He2). assert (e' = e) as -> by congruence.
  apply wp_bind, (wp_lift _ _ _ _ He1). destruct (Z.eqb_spec (val e) TLS_DTV_UNALLOCATED) as [Hv|Hv]; [by apply (tail_wp th h e)|].
  apply wp_ret, HQ. split; [by repeat split| | |done|done|by left].
  - exists th, x. split; [done|]. split; [done|]. split; [lia|]. split; [|split; [by rewrite insert_id|]]; [|split; [by left|done]].
    apply (knows_decided s _ _ _ _ _ m x x); [done|done|done|by rewrite insert_id|by left].
  - destruct Hok as [->|? ->|]; [done|by left|by right].
Qed.

(** [__tls_get_addr] returns the address in the block of the thread for the module in the slot. *)
Lemma get_addr_wp th active off (Q : Z -> tls_state -> Prop) : ts_threads s !! t = Some th ->
  knows s (fun _ g => g <= d_gen (th_dtv th)) t th (ts_heap s) -> heap_ok (ts_heap s) ->
  d_gen (th_dtv th) <= ts_gen s -> si_gen si <= ts_gen s -> (tm_modid x < ts_limit s -> si_gen si <= d_gen (th_dtv th)) ->
  (forall e s', accessed s t th (ts_heap s) m x e s' -> Q (tls_get_addr_adjust (val e) off) s') ->
  wp (__tls_get_addr malloc true active t (tm_modid x) off) Q s.
Proof using Malloc0 Hs Hx Hin Hsi Hsm.
  intros Ht K Hh Hdg Hsg Hlim HQ. pose proof modid_range as [Hm1 Hm2]. unfold __tls_get_addr. apply (wp_at _ _ _ _ (sp_same s t th Ht)).
  apply wp_bind, wp_get_thread, wp_bind, wp_gets. rewrite (sp_same s t th Ht). cbn [id].
  destruct (negb (d_gen (th_dtv th) =? ts_gen s) && negb (active && (tm_modid x <? ts_limit s))) eqn:Hup.
  - unfold update_get_addr. apply (wp_at _ _ _ _ (sp_same s t th Ht)), wp_bind.
    apply (update_slotinfo_wp s t th (ts_heap s)); [done|done|done|done|].
    intros th' h' mp K' Hh' Ho Htcb Hg Hk Hmp. apply wp_bind, wp_get_thread.
    apply read_wp; [done|done|lia| |].
    + destruct Hmp as [->|(si' & Hsi' & ->)]; [by left|right]. congruence.
    + intros e s' Hac. apply HQ. by apply (accessed_after s t th (ts_heap s) th' h'); [|done|lia|..].
  - apply (wp_at _ _ _ _ (sp_same s t th Ht)). apply read_wp; [done|done| |by left|done].
    destruct (Z.eqb_spec (d_gen (th_dtv th)) (ts_gen s)) as [->|]; [done|]. cbn [negb andb] in Hup.
    apply Hlim. destruct active; [|done]. cbn in Hup. apply negb_false_iff, Z.ltb_lt in Hup. done.
Qed.
End Access.
End Thread.
