(* ===== verification/DynTlsThread.v ===== *)
(** * Dynamic thread-local storage: start and end of a thread

    [_dl_allocate_tls] gives a new thread a DTV that knows every module up to
    the newest generation in the slots; [_dl_deallocate_tls] gives back exactly the memory of
    the thread. *)

From S2P Require Import Prelude LinkMap TlsOffset LoadCmds DynTls TlsSlots DynTlsSpec.

(** ** The end of a thread *)
Lemma free_entries_wp s t th es : forall h (Q : unit -> tls_state -> Prop), heap_ok h ->
  (forall i e, es !! i = Some e -> to_free e <> 0 -> exists sz m, h !! to_free e = Some (mkBlock sz (ForTls t m))) ->
  (forall i j e e', es !! i = Some e -> es !! j = Some e' -> to_free e = to_free e' -> to_free e <> 0 -> i = j) ->
  (forall h', heap_ok h' -> others_same t h h' ->
     (forall p b, h' !! p = Some b <-> h !! p = Some b /\ forall i e, es !! i = Some e -> to_free e <> p) -> Q tt (sp s t th h')) ->
  wp (free_entries es) Q (sp s t th h).
Proof.
  induction es as [|e es IH]; intros h Q Hh Hown Hinj HQ; cbn [free_entries].
  - apply wp_ret, HQ; try done. intros p b. split; [|tauto]. intros H. split; [done|]. intros i e H'. by rewrite lookup_nil in H'.
  - apply wp_bind. apply wp_free; [intros Hf; destruct (Hown 0%nat e eq_refl Hf) as (sz & m & ->); by eexists|].
    assert (Hlook : forall p b, (if to_free e =? 0 then h else delete (to_free e) h) !! p = Some b <-> h !! p = Some b /\ to_free e <> p).
    { intros p b. destruct (Z.eqb_spec (to_free e) 0) as [E|E].
      - split; [|tauto]. intros H. split; [done|]. destruct (hp_range h Hh p b H). lia.
      - rewrite lookup_delete_Some. tauto. }
    apply IH.
    + destruct (to_free e =? 0); [done|by apply heap_ok_delete].
    + intros i e' Hi Hf. destruct (Hown (S i) e' Hi Hf) as (sz & m & Hb). exists sz, m. apply Hlook. split; [done|].
      intros E. pose proof (Hinj 0%nat (S i) e e' eq_refl Hi E ltac:(congruence)). lia.
    + intros i j e1 e2 Hi Hj Ef Hne. pose proof (Hinj (S i) (S j) e1 e2 Hi Hj Ef Hne). lia.
    + intros h' Hh' Ho Hlook'. apply HQ; [done| |].
      * destruct (Z.eqb_spec (to_free e) 0) as [E|E]; [done|]. destruct (Hown 0%nat e eq_refl E) as (sz & m & Hb).
        eapply others_trans; [by eapply others_delete|done].
      * intros p b. rewrite Hlook', Hlook. split.
        -- intros [[H1 H2] H3]. split; [done|]. intros [|i] e' He'; [by injection He' as <-|by apply (H3 i)].
        -- intros [H1 H2]. split; [split; [done|by apply (H2 0%nat)]|]. intros i e' He'. by apply (H2 (S i)).
Qed.

(** The thread ends with the memory of its blocks given back, each block once. *)
Lemma deallocate_wp s sync t th (Q : unit -> tls_state -> Prop) : ts_threads s !! t = Some th ->
  knows s sync t th (ts_heap s) -> heap_ok (ts_heap s) ->
  (forall h', heap_ok h' -> others_same t (ts_heap s) h' -> (forall p sz m, h' !! p <> Some (mkBlock sz (ForTls t m))) ->
     Q tt (set_threads (delete t (ts_threads s)) (set_heap h' s))) ->
  wp (_dl_deallocate_tls t) Q s.
Proof.
  intros Ht [L C O I A D] Hh HQ. apply (wp_at _ _ _ _ (sp_same s t th Ht)). unfold _dl_deallocate_tls.
  apply wp_bind, wp_get_thread, wp_bind.
  assert (Htail : forall i, tail (d_ent (th_dtv th)) !! i = d_ent (th_dtv th) !! S i) by (intros i; by destruct (d_ent (th_dtv th))).
  apply free_entries_wp; [done| | |].
  - intros i e Hi Hf. rewrite Htail in Hi. by destruct (O i e Hi Hf).
  - intros i j e e'. rewrite !Htail. eauto.
  - intros h' Hh' Ho Hlook. apply wp_bind, wp_gets. change (ts_initial_dtv (sp s t th h')) with (ts_initial_dtv s).
    assert (Hnone : forall p sz m, h' !! p <> Some (mkBlock sz (ForTls t m))).
    { intros p sz m [Hp Hne]%Hlook. destruct (A p sz m Hp) as (i & e & Hi & Hf). apply (Hne i e); [by rewrite Htail|done]. }
    assert (Hend : forall h1, set_threads (delete t (ts_threads (sp s t th h1))) (sp s t th h1) = set_threads (delete t (ts_threads s)) (set_heap h1 s)).
    { intros h1. unfold sp, set_threads, set_heap. cbn [ts_list ts_max ts_gaps ts_nelem ts_gen ts_limit ts_initial_dtv ts_mods ts_threads ts_heap ts_writes].
      by rewrite delete_insert_eq. }
    apply wp_bind. destruct (Z.eqb_spec (d_addr (th_dtv th)) (ts_initial_dtv s)) as [Hi|Hi].
    + apply wp_ret, wp_modify. rewrite Hend. by apply HQ.
    + destruct D as [D|[sz D]]; [done|].
      assert (D' : h' !! d_addr (th_dtv th) = Some (mkBlock sz (ForDtv t))).
      { apply Hlook. split; [done|]. intros i e Hie Hf. rewrite Htail in Hie.
        assert (Hp : 0 < d_addr (th_dtv th)) by (by destruct (hp_range _ Hh _ _ D)).
        destruct (O i e Hie ltac:(lia)) as (_ & sz' & m & Hb). congruence. }
      apply wp_free; [by rewrite D'|]. destruct (hp_range _ Hh _ _ D) as [Hp _].
      rewrite (proj2 (Z.eqb_neq (d_addr (th_dtv th)) 0)) by lia. apply wp_modify. rewrite Hend. apply HQ.
      * by apply heap_ok_delete.
      * eapply others_trans; [done|]. by eapply others_delete.
      * intros p sz' m [_ H]%lookup_delete_Some. by apply (Hnone p sz' m).
Qed.

(** ** The start of a thread *)
Definition wlp {A} (m : M tls_state A) (Q : A -> tls_state -> Prop) (s : tls_state) : Prop := forall a s', m s = Ret a s' -> Q a s'.

Lemma wlp_bind {A B} (m : M tls_state A) (k : A -> M tls_state B) Q s : wlp m (fun a => wlp (k a) Q) s -> wlp (m ≫= k) Q s.
Proof. intros H b s' Hb. apply M_bind_Ret_inv in Hb as (a & s1 & H1 & H2). by apply (H a s1). Qed.
Lemma wlp_ret {A} (a : A) (Q : A -> tls_state -> Prop) s : Q a s -> wlp (mret a) Q s.
Proof. intros H b s' [= <- <-]. done. Qed.
Lemma wlp_gets {A} (f : tls_state -> A) (Q : A -> tls_state -> Prop) s : Q (f s) s -> wlp (gets f) Q s.
Proof. intros H b s' [= <- <-]. done. Qed.
Lemma wlp_modify f (Q : unit -> tls_state -> Prop) s : Q tt (f s) -> wlp (modify f) Q s.
Proof. intros H b s' [= <- <-]. done. Qed.
Lemma wlp_lift {A} (r : res A) (Q : A -> tls_state -> Prop) s : (forall a, r = Ok a -> Q a s) -> wlp (lift r) Q s.
Proof. intros H b s' [Hb ->]%lift_Ret_inv. auto. Qed.
Lemma wlp_assert b w (Q : unit -> tls_state -> Prop) s : (b = true -> Q tt s) -> wlp (lift (c_assert b w)) Q s.
Proof. intros H. apply wlp_lift. intros [] Ha. apply H. by destruct b. Qed.
Lemma wlp_get_mod m (Q : tmod -> tls_state -> Prop) s : (forall x, ts_mods s !! m = Some x -> Q x s) -> wlp (get_mod m) Q s.
Proof. intros H. apply wlp_bind, wlp_gets, wlp_lift. intros x Hx. apply H. by destruct (ts_mods s !! m); simplify_eq/=. Qed.
Lemma wlp_get_thread t (Q : thread -> tls_state -> Prop) s : (forall th, ts_threads s !! t = Some th -> Q th s) -> wlp (get_thread t) Q s.
Proof. intros H. apply wlp_bind, wlp_gets, wlp_lift. intros x Hx. apply H. by destruct (ts_threads s !! t); simplify_eq/=. Qed.
Lemma wlp_put_dtv t d (Q : unit -> tls_state -> Prop) s :
  (forall th, ts_threads s !! t = Some th -> Q tt (set_threads (<[t := mkThread (th_tcb th) d]> (ts_threads s)) s)) -> wlp (put_dtv t d) Q s.
Proof. intros H. apply wlp_bind, wlp_get_thread. intros th Hth. apply wlp_modify. auto. Qed.

Definition set_writes (w : list (Z * list Z)) (s : tls_state) : tls_state :=
  mkTls (ts_list s) (ts_max s) (ts_gaps s) (ts_nelem s) (ts_gen s) (ts_limit s) (ts_initial_dtv s) (ts_mods s) (ts_threads s) (ts_heap s) w.

Section Start.
Context (s : tls_state) (t tcb : Z) (h : gmap Z mblock) (Hs : slots_ok s).

(** The new DTV in front of slot [k]. *)
Record starting (k maxgen : Z) (d : dtv) : Prop := {
  sg_len : ts_max s <= d_len d < 2 ^ 62 /\ Z.of_nat (length (d_ent d)) = d_len d + 1;
  sg_free : forall i e, d_ent d !! i = Some e -> to_free e = 0;
  sg_cur : forall i si m x, i < k -> tls_slot s i = Some si -> si_map si = Some m -> ts_mods s !! m = Some x ->
    si_gen si <= maxgen /\ exists e, d_ent d !! Z.to_nat i = Some e /\ entry_ok h t tcb m x e;
  sg_gen : 0 <= maxgen /\ (maxgen = 0 \/ maxgen <= ts_gen s) }.

Definition sst (w : list (Z * list Z)) (d : dtv) : tls_state := sp (set_writes w s) t (mkThread tcb d) h.

Lemma wlp_put w d d' (Q : unit -> tls_state -> Prop) : Q tt (sst w d') -> wlp (put_dtv t d') Q (sst w d).
Proof using.
  intros H. apply wlp_put_dtv. intros th Hth. unfold sst, sp, set_threads in *. cbn in Hth. rewrite lookup_insert_eq in Hth. injection Hth as <-.
  cbn [ts_list ts_max ts_gaps ts_nelem ts_gen ts_limit ts_initial_dtv ts_mods ts_threads ts_heap ts_writes] in *. by rewrite insert_insert_eq.
Qed.

Lemma starting_set k maxgen g d si m x e : starting k maxgen d -> tls_slot s k = Some si -> si_map si = Some m -> ts_mods s !! m = Some x ->
  si_gen si <= ts_gen s -> 1 <= k -> to_free e = 0 -> entry_ok h t tcb m x e -> g = Z.max maxgen (si_gen si) ->
  starting (k + 1) g (mkDtv (d_addr d) (d_len d) (d_gen d) (<[Z.to_nat k := e]> (d_ent d))).
Proof using Hs.
  intros [[L1 L2] F C G] Hsi Hm Hx Hg Hk Hf Hok ->. destruct (so_map s Hs k si m Hsi Hm) as [Hmax _]. split; cbn [d_len d_ent].
  - by rewrite length_insert.
  - intros i e' [(_ & <- & _)|[_ H]]%list_lookup_insert_Some; eauto.
  - intros i si' m' x' Hi Hsi' Hm' Hx'. destruct (Z.eq_dec i k) as [->|Hne].
    + rewrite Hsi in Hsi'. injection Hsi' as <-. rewrite Hm in Hm'. injection Hm' as <-. rewrite Hx in Hx'. injection Hx' as <-.
      split; [lia|]. exists e. rewrite list_lookup_insert_eq by lia. done.
    + destruct (C i si' m' x' ltac:(lia) Hsi' Hm' Hx') as (H1 & e' & H2 & H3). split; [lia|]. exists e'.
      apply tls_slot_range in Hsi'. rewrite list_lookup_insert_ne by lia. done.
  - lia.
Qed.

Lemma set_dtv_at_inv d i p d' : set_dtv_at d i p = Ok d' -> d' = mkDtv (d_addr d) (d_len d) (d_gen d) (<[Z.to_nat i := p]> (d_ent d)).
Proof using.
  unfold set_dtv_at. destruct (i <? 1); [done|]. unfold wr. destruct (_ && _); [|done]. by intros [= <-].
Qed.

Lemma init_slot_wlp k maxgen w d si m (Q : unit -> tls_state -> Prop) : starting k maxgen d ->
  tls_slot s k = Some si -> si_map si = Some m -> 1 <= k ->
  (forall w' d', starting (k + 1) (Z.max maxgen (si_gen si)) d' -> d_addr d' = d_addr d -> Q tt (sst w' d')) ->
  wlp (init_slot t false k si m) Q (sst w d).
Proof using Hs.
  intros S Hsi Hm Hk HQ. destruct (so_map s Hs k si m Hsi Hm) as [_ (x & Hx & Hid)]. unfold init_slot.
  apply wlp_bind, wlp_gets, wlp_bind, wlp_assert. intros Hg%Z.leb_le. change (ts_gen (sst w d)) with (ts_gen s) in Hg.
  apply wlp_bind, wlp_get_mod. intros x' Hx'. change (ts_mods (sst w d)) with (ts_mods s) in Hx'. assert (x' = x) as -> by congruence.
  rewrite Hid. apply wlp_bind, wlp_get_thread. intros th Hth. unfold sst, sp in Hth. cbn in Hth. rewrite lookup_insert_eq in Hth. injection Hth as <-.
  cbn [th_dtv th_tcb]. apply wlp_bind, wlp_lift. intros d1 ->%set_dtv_at_inv. apply wlp_bind, wlp_put.
  destruct (is_static (tm_offset x)) eqn:Hst; cbn [negb].
  - apply wlp_bind, wlp_assert. intros _. apply wlp_bind, wlp_assert. intros _. apply wlp_bind, wlp_assert. intros _.
    apply wlp_bind, wlp_lift. intros d2 ->%set_dtv_at_inv. cbn [d_addr d_len d_gen d_ent]. apply wlp_bind, wlp_put.
    rewrite andb_false_r. apply wlp_bind, wlp_modify, wlp_ret. rewrite list_insert_insert_eq.
    apply (HQ (w ++ [(u64 (tcb - tm_offset x), init_bytes x)])); [|done].
    apply (starting_set k maxgen _ d si m x); try done. by apply entry_static.
  - apply wlp_ret, HQ; [|done]. apply (starting_set k maxgen _ d si m x); try done. by apply entry_unallocated.
Qed.

Lemma init_slots_wlp b : forall k maxgen w d (Q : Z * Z -> tls_state -> Prop), starting k maxgen d -> 1 <= k ->
  (forall n si, b !! n = Some si -> tls_slot s (k + Z.of_nat n) = Some si) ->
  (forall k' g w' d', starting k' g d' -> d_addr d' = d_addr d -> k' = k + Z.of_nat (length b) \/ ts_max s < k' -> Q (k', g) (sst w' d')) ->
  wlp (init_slots t false (ts_max s) b k maxgen) Q (sst w d).
Proof using Hs.
  induction b as [|si b IH]; intros k maxgen w d Q St Hk Hb HQ; cbn [init_slots].
  - apply wlp_ret. apply HQ; try done. left. cbn. lia.
  - destruct (Z.ltb_spec (ts_max s) k); [apply wlp_ret, HQ; try done; by right|].
    assert (Hsi : tls_slot s k = Some si). { rewrite <- (Hb 0%nat si eq_refl). f_equal. lia. }
    assert (Hb' : forall n si', b !! n = Some si' -> tls_slot s (k + 1 + Z.of_nat n) = Some si').
    { intros n si' Hn. rewrite <- (Hb (S n) si' Hn). f_equal. lia. }
    destruct (si_map si) as [m|] eqn:Hm.
    + apply wlp_bind. apply (init_slot_wlp k maxgen); try done. intros w' d' S' Ha.
      apply IH; try done; [lia|]. intros k' g w2 d2 S2 Ha2 Hk2. apply HQ; [done|congruence|]. cbn [length]. lia.
    + apply IH; try done; [|lia|].
      * destruct St as [L F C G]. split; try done. intros i si' m x Hi Hsi' Hm' Hx. apply (C i si' m x); try done.
        destruct (Z.eq_dec i k) as [->|]; [congruence|lia].
      * intros k' g w2 d2 S2 Ha2 Hk2. apply HQ; [done|done|]. cbn [length]. lia.
Qed.

Lemma init_blocks_wlp blocks : forall total maxgen w d (Q : Z -> tls_state -> Prop), starting (Z.max 1 total) maxgen d -> 0 <= total ->
  (total = 0 -> exists b r, blocks = b :: r /\ b <> []) -> drop (Z.to_nat total) (concat (ts_list s)) = concat blocks \/ ts_max s < total ->
  (forall k' g w' d', starting k' g d' -> d_addr d' = d_addr d -> ts_max s < k' -> Q g (sst w' d')) ->
  wlp (init_blocks t false (ts_max s) blocks total maxgen) Q (sst w d).
Proof using Hs.
  induction blocks as [|b blocks IH]; intros total maxgen w d Q St Ht0 Hfirst Hd HQ; cbn [init_blocks].
  - apply wlp_lift. done.
  - apply wlp_bind.
    assert (Hat : forall n si, total <= ts_max s -> b !! n = Some si -> concat (ts_list s) !! (Z.to_nat total + n)%nat = Some si).
    { intros n si Hle Hn. destruct Hd as [Hd|]; [|lia]. rewrite <- lookup_drop, Hd. cbn [concat]. by apply lookup_app_l_Some. }
    assert (Hnext : forall k g w' d', starting k g d' -> d_addr d' = d_addr d -> 1 <= k ->
      k = total + Z.of_nat (length b) \/ ts_max s < k ->
      wlp (if ts_max s <? k then mret g else init_blocks t false (ts_max s) blocks k g) Q (sst w' d')).
    { intros k g w' d' St' Ha Hk1 Hk. destruct (Z.ltb_spec (ts_max s) k); [apply wlp_ret; by apply (HQ k)|].
      apply IH; [|lia|lia| |].
      - replace (Z.max 1 k) with k by lia. done.
      - destruct Hk as [->|]; [|lia]. destruct Hd as [Hd|]; [left|right; lia].
        replace (Z.to_nat (total + Z.of_nat (length b))) with (Z.to_nat total + length b)%nat by lia.
        rewrite <- drop_drop, Hd. cbn [concat]. by rewrite drop_app_length.
      - intros k' g' w2 d2 St2 Ha2 Hk2. apply (HQ k'); [done|congruence|done]. }
    destruct (Z.eqb_spec total 0) as [->|Hne].
    + destruct Hfirst as (b' & r & [= <- <-] & Hb); [done|]. destruct b as [|s0 b]; [done|]. cbn [tail].
      apply init_slots_wlp; [done|lia| |].
      * intros n si Hn. unfold tls_slot. rewrite (proj2 (Z.ltb_ge (1 + Z.of_nat n) 1)) by lia.
        pose proof (so_max s Hs). rewrite <- (Hat (S n) si ltac:(lia) Hn). f_equal. lia.
      * intros k' g w' d' St' Ha Hk. apply Hnext; try done; cbn [length] in *; pose proof (so_max s Hs); lia.
    + replace (Z.max 1 total) with total in St by lia. destruct (Z.lt_ge_cases (ts_max s) total) as [Hgt|Hle].
      * assert (E : forall b, init_slots t false (ts_max s) b total maxgen = mret (total, maxgen)).
        { intros [|? ?]; cbn [init_slots]; [done|]. by rewrite (proj2 (Z.ltb_lt _ _) Hgt). }
        rewrite E. apply wlp_ret. by apply Hnext; [..|lia|right].
      * apply init_slots_wlp; [done|lia| |].
        -- intros n si Hn. unfold tls_slot. rewrite (proj2 (Z.ltb_ge (total + Z.of_nat n) 1)) by lia.
           rewrite <- (Hat n si ltac:(lia) Hn). f_equal. lia.
        -- intros k' g w' d' St' Ha Hk. apply Hnext; try done; lia.
Qed.
End Start.

(** A new thread knows the modules up to the newest generation in the slots. *)
Lemma allocate_tls_wlp malloc `{!Malloc malloc} s t tcb (Q : bool -> tls_state -> Prop) : slots_ok s -> heap_ok (ts_heap s) ->
  ts_threads s !! t = None -> (forall p sz m, ts_heap s !! p <> Some (mkBlock sz (ForTls t m))) -> 0 <= ts_gen s -> Q false s ->
  (forall s' d h', same_loader s s' -> ts_mods s' = ts_mods s -> ts_threads s' = <[t := mkThread tcb d]> (ts_threads s) -> ts_heap s' = h' ->
     knows s' (fun _ g => g <= d_gen d) t (mkThread tcb d) h' -> heap_ok h' -> others_same t (ts_heap s) h' -> 0 <= d_gen d <= ts_gen s ->
     (forall i si m, tls_slot s i = Some si -> si_map si = Some m -> si_gen si <= d_gen d) -> Q true s') ->
  wlp (_dl_allocate_tls malloc true t tcb) Q s.
Proof.
  intros Hs Hh Ht Hno Hg0 Hfail HQ. unfold _dl_allocate_tls, allocate_dtv. pose proof (so_max s Hs) as Hmax.
  apply wlp_bind, wlp_bind, wlp_gets, wlp_bind. unfold c_malloc. apply wlp_bind, wlp_gets.
  unfold DTV_SURPLUS. rewrite (u64_small (ts_max s + 14)) by lia. set (n := (ts_max s + 14 + 2) * sizeof_dtv_t).
  destruct (Z.eqb_spec (malloc (ts_heap s) n) 0) as [E|Hp]; [by apply wlp_ret, wlp_ret, wlp_ret|].
  destruct (heap_ok_insert malloc (ts_heap s) n (ForDtv t) Hh ltac:(unfold n, sizeof_dtv_t; lia) Hp) as [Hok Hnone].
  apply wlp_bind, wlp_modify, wlp_ret. rewrite (proj2 (Z.eqb_neq _ _) Hp). apply wlp_bind, wlp_modify, wlp_ret.
  set (p := malloc (ts_heap s) n) in *. set (h := <[p := mkBlock n (ForDtv t)]> (ts_heap s)) in *.
  set (d0 := mkDtv p (ts_max s + 14) 0 (replicate (Z.to_nat (ts_max s + 14 + 1)) no_pointer)).
  assert (St : starting s t tcb h 1 0 d0).
  { split; cbn [d0 d_len d_ent]; [rewrite length_replicate; lia| | |lia].
    - intros i e [-> _]%lookup_replicate. done.
    - intros i si m x Hi Hsi. apply tls_slot_range in Hsi. lia. }
  apply wlp_bind. unfold _dl_allocate_tls_init.
  assert (Hst : set_threads (<[t := mkThread tcb d0]> (ts_threads s)) (set_heap h s) = sst s t tcb h (ts_writes s) d0) by (by destruct s).
  change (ts_threads (set_heap h s)) with (ts_threads s). rewrite Hst.
  apply wlp_bind, wlp_get_thread. intros th Hth. unfold sst, sp in Hth. cbn in Hth. rewrite lookup_insert_eq in Hth. injection Hth as <-.
  apply wlp_bind, wlp_gets. change (ts_max (sst s t tcb h (ts_writes s) d0)) with (ts_max s).
  cbn [th_dtv d0 d_len]. rewrite (proj2 (Z.ltb_ge (ts_max s + 14) (ts_max s))) by lia. apply wlp_bind, wlp_ret, wlp_bind, wlp_gets.
  change (ts_list (sst s t tcb h (ts_writes s) d0)) with (ts_list s). destruct (so_first s Hs) as (b & r & Hl & Hb).
  apply wlp_bind. rewrite bool_decide_false by (by rewrite Hl).
  apply (init_blocks_wlp s t tcb h Hs (ts_list s) 0 0 (ts_writes s) d0); [done|lia| |by left|].
  { intros _. exists b, r. split; [done|]. destruct b; [cbn in Hb; lia|done]. }
  intros k g w d [[L1 L2] F C G] Ha Hk. apply wlp_bind, wlp_get_thread. intros th Hth. unfold sst, sp in Hth. cbn in Hth.
  rewrite lookup_insert_eq in Hth. injection Hth as <-. cbn [th_dtv]. apply wlp_put, wlp_ret.
  assert (Hall : forall i si m, tls_slot s i = Some si -> si_map si = Some m -> si_gen si <= g).
  { intros i si m Hsi Hm. destruct (so_map s Hs i si m Hsi Hm) as [Hi (x & Hx & _)]. by destruct (C i si m x ltac:(lia) Hsi Hm Hx). }
  apply (HQ _ (set_dtv_gen d g) h); try done; cbn [set_dtv_gen d_gen].
  - split; cbn [th_dtv th_tcb set_dtv_gen d_len d_ent d_addr].
    + lia.
    + intros i si m x Hsi Hm Hx _ _. change (tls_slot (sst s t tcb h w (set_dtv_gen d g)) i) with (tls_slot s i) in Hsi.
      change (ts_mods (sst s t tcb h w (set_dtv_gen d g))) with (ts_mods s) in Hx.
      destruct (so_map s Hs i si m Hsi Hm) as [Hi _]. by destruct (C i si m x ltac:(lia) Hsi Hm Hx) as [_ ?].
    + intros i e He Hf. by rewrite (F _ e He) in Hf.
    + intros i j e e' He _ _ Hf. by rewrite (F _ e He) in Hf.
    + intros q sz m [[<- [=]]|[_ Hq]]%lookup_insert_Some. by apply Hno in Hq.
    + right. exists n. rewrite Ha. cbn [d0 d_addr]. unfold h. by rewrite lookup_insert_eq.
  - by apply others_insert.
  - lia.
Qed.
