(* ===== verification/DynTlsLoader.v ===== *)
(** * Dynamic thread-local storage: the loader

    What assigning, publishing and withdrawing a module does to the array of slots, to the
    largest module id and to the flag for gaps. *)

From S2P Require Import Prelude LinkMap TlsOffset LoadCmds DynTls TlsSlots DynTlsSpec DynTlsThread.

(** The slot [i] of another array of slots. *)
Lemma tls_slot_list s s' i : concat (ts_list s') = concat (ts_list s) -> tls_slot s' i = tls_slot s i.
Proof. unfold tls_slot. by intros ->. Qed.
Lemma tls_slot_insert s s' i n x : 1 <= n < list_len (ts_list s) -> concat (ts_list s') = <[Z.to_nat n := x]> (concat (ts_list s)) ->
  tls_slot s' i = if decide (i = n) then Some x else tls_slot s i.
Proof.
  unfold tls_slot, list_len. intros Hn ->. destruct (Z.ltb_spec i 1); [case_decide; [lia|done]|].
  case_decide as E; [subst i; apply list_lookup_insert_eq; lia|apply list_lookup_insert_ne; lia].
Qed.
Lemma tls_slot_app s s' i new : concat (ts_list s') = concat (ts_list s) ++ new ->
  tls_slot s' i = if decide (1 <= i /\ list_len (ts_list s) <= i) then new !! Z.to_nat (i - list_len (ts_list s)) else tls_slot s i.
Proof.
  unfold tls_slot, list_len. intros ->. destruct (Z.ltb_spec i 1); [case_decide; [lia|done]|]. case_decide.
  - rewrite lookup_app_r by lia. f_equal. lia.
  - by rewrite lookup_app_l by lia.
Qed.

Lemma list_len_lengths l l' : length <$> l' = length <$> l -> list_len l' = list_len l.
Proof.
  revert l'. induction l as [|b l IH]; intros [|b' l'] H; try done. cbn in H. injection H as H1 H2.
  rewrite !list_len_cons, H1. f_equal. by apply IH.
Qed.

Lemma first_lengths (l l' : list (list slotinfo)) n : length <$> l' = length <$> l -> (exists b r, l = b :: r /\ n <= Z.of_nat (length b)) ->
  exists b r, l' = b :: r /\ n <= Z.of_nat (length b).
Proof. intros H (b & r & -> & Hb). destruct l' as [|b' r']; [done|]. injection H as H1 _. exists b', r'. by rewrite H1. Qed.

(** ** Assigning an id *)
Record assigned (s : tls_state) (m : mapid) (x : tmod) (i : Z) (s' : tls_state) : Prop := {
  as_mods : ts_mods s' = <[m := with_tls (with_modid i) x]> (ts_mods s);
  as_lengths : length <$> ts_list s' = length <$> ts_list s;
  as_range : ts_nelem s < i <= ts_max s';
  as_free : forall si m', tls_slot s i = Some si -> si_map si <> Some m';
  as_slots : concat (ts_list s') = concat (ts_list s) \/
    i < list_len (ts_list s) /\ concat (ts_list s') = <[Z.to_nat i := mkSI 0 (Some m)]> (concat (ts_list s));
  as_max : (ts_max s' = ts_max s /\ tls_slot s' i = Some (mkSI 0 (Some m)) /\ ts_gaps s = true) \/ (ts_max s' = ts_max s + 1 /\ i = ts_max s + 1 /\ ts_gaps s' = false);
  as_same : ts_nelem s' = ts_nelem s /\ ts_gen s' = ts_gen s /\ ts_limit s' = ts_limit s /\ ts_initial_dtv s' = ts_initial_dtv s /\
    ts_threads s' = ts_threads s /\ ts_heap s' = ts_heap s }.

Lemma slot_above s i si m : slots_ok s -> ts_max s < i -> tls_slot s i = Some si -> si_map si <> Some m.
Proof. intros Hs Hi Hsi Hm. destruct (so_map s Hs i si m Hsi Hm). lia. Qed.

Lemma assigned_top s m x s1 : slots_ok s -> same_loader s (set_gaps (ts_gaps s) s1) -> ts_gaps s1 = false -> ts_mods s1 = ts_mods s ->
  ts_threads s1 = ts_threads s -> ts_heap s1 = ts_heap s ->
  assigned s m x (ts_max s + 1) (set_mods (<[m := with_tls (with_modid (ts_max s + 1)) x]> (ts_mods s1)) (set_max (ts_max s + 1) s1)).
Proof.
  intros Hs (E1 & E2 & _ & E4 & E5 & E6 & E7) Hg Hm Ht Hh. pose proof (so_max s Hs).
  cbn [set_gaps ts_list ts_max ts_nelem ts_gen ts_limit ts_initial_dtv] in *.
  split; cbn [set_mods set_max ts_list ts_max ts_gaps ts_nelem ts_gen ts_limit ts_initial_dtv ts_mods ts_threads ts_heap].
  - by rewrite Hm.
  - by rewrite E1.
  - lia.
  - intros si m' Hsi. eapply slot_above; eauto; lia.
  - left. by rewrite E1.
  - by right.
  - done.
Qed.

Lemma assign_spec s m x : slots_ok s -> ts_mods s !! m = Some x -> (ts_gaps s = true -> ts_max s < list_len (ts_list s)) ->
  wlp (_dl_assign_tls_modid m) (fun _ s' => exists i, assigned s m x i s') s.
Proof.
  intros Hs Hx Hgap. unfold _dl_assign_tls_modid. pose proof (so_max s Hs) as [Hn Hm].
  apply wlp_bind, wlp_gets, wlp_bind, wlp_get_mod. intros x' Hx'. assert (x' = x) as -> by congruence. apply wlp_bind. cbn [id].
  destruct (ts_gaps s) eqn:Hgs.
  - destruct (Z.leb_spec (ts_nelem s + 1) (ts_max s)) as [Hle|Hgt].
    + apply wlp_bind. destruct (so_first s Hs) as (b & r & Hl & Hb). rewrite Hl. rewrite <- Hl.
      apply wlp_bind, wlp_lift. intros [i blocks'] Hf.
      apply find_gap_spec in Hf as (F1 & F2 & F3 & F4); [|lia]. rewrite Z.sub_0_r in F2.
      apply wlp_bind, wlp_modify, wlp_ret. destruct (Z.ltb_spec (ts_max s) i) as [Hi|Hi].
      * apply wlp_bind, wlp_assert. intros ->%Z.eqb_eq. apply wlp_bind, wlp_modify, wlp_bind, wlp_modify, wlp_ret, wlp_modify.
        exists (ts_max s + 1). split; cbn [set_mods set_max set_gaps set_list ts_max ts_nelem ts_gaps ts_mods ts_list]; try done; try lia.
        -- intros si m' Hsi. eapply slot_above; eauto; lia.
        -- destruct F2 as [(s0 & H0 & _ & Hc)|[-> _]]; [right|by left]. split; [|done]. apply lookup_lt_Some in H0. unfold list_len. lia.
      * destruct F2 as [(s0 & H0 & Hm0 & Hc)|[_ Hlen]]; [|specialize (Hgap eq_refl); lia].
        apply wlp_ret, wlp_modify. exists i. pose proof (lookup_lt_Some _ _ _ H0) as Hlt.
        assert (Hr : 1 <= i < list_len (ts_list s)) by (unfold list_len; lia).
        split; cbn [set_mods set_max set_gaps set_list ts_max ts_nelem ts_gaps ts_mods ts_list]; try done; try lia.
        -- intros si m' Hsi. unfold tls_slot in Hsi. rewrite (proj2 (Z.ltb_ge i 1)) in Hsi by lia. congruence.
        -- right. split; [lia|done].
        -- left. split; [done|]. split; [|done]. erewrite (tls_slot_insert s); [|exact Hr|exact Hc]. by rewrite decide_True.
    + apply wlp_bind, wlp_ret. rewrite (proj2 (Z.ltb_lt (ts_max s) (ts_nelem s + 1))) by lia.
      apply wlp_bind, wlp_assert. intros _. apply wlp_bind, wlp_modify, wlp_bind, wlp_modify, wlp_ret, wlp_modify.
      exists (ts_max s + 1). by apply (assigned_top s m x (set_gaps false s)).
  - apply wlp_bind, wlp_modify, wlp_ret, wlp_modify. exists (ts_max s + 1). by apply (assigned_top s m x s).
Qed.

(** ** Publishing *)
Definition published (s : tls_state) (m : mapid) (x : tmod) (l : list (list slotinfo)) (h : gmap Z mblock) : tls_state :=
  set_mods (<[m := with_in_slotinfo x]> (ts_mods s)) (set_list (set_slot l (tm_modid x) (mkSI (u64 (ts_gen s + 1)) (Some m))) (set_heap h s)).

(** The list with room for slot [i]. *)
Definition room (s : tls_state) (i : Z) (l : list (list slotinfo)) (h : gmap Z mblock) : Prop :=
  l = ts_list s /\ h = ts_heap s /\ i < list_len (ts_list s) \/
  l = ts_list s ++ [new_slots] /\ i = list_len (ts_list s) /\ heap_ok h /\
    exists p n, ts_heap s !! p = None /\ h = <[p := mkBlock n ForSlots]> (ts_heap s).

Lemma room_len s i l h : room s i l h -> i < list_len l.
Proof.
  intros [(-> & _ & ?)|(-> & -> & _)]; [done|]. unfold list_len. rewrite concat_app, length_app. change (length (concat [new_slots])) with 62%nat. lia.
Qed.

Lemma add_spec malloc `{!Malloc malloc} s m x do_add : slots_ok s -> heap_ok (ts_heap s) -> ts_mods s !! m = Some x -> mod_ok x ->
  tm_in_slotinfo x = false -> 1 <= tm_modid x ->
  wlp (_dl_add_to_slotinfo malloc m do_add) (fun _ s' => exists l h, room s (tm_modid x) l h /\
    s' = if (do_add : bool) then published s m x l h else set_list l (set_heap h s)) s.
Proof.
  intros Hs Hh Hx [Hb _] Hin Hi. unfold _dl_add_to_slotinfo. apply wlp_bind, wlp_get_mod. intros x' Hx'. assert (x' = x) as -> by congruence.
  rewrite (proj2 (Z.eqb_neq (tm_blocksize x) 0)), Hin by lia. cbn [orb]. apply wlp_bind, wlp_gets, wlp_bind.
  destruct (so_first s Hs) as (b & r & Hl & Hbl). rewrite bool_decide_false by (by rewrite Hl).
  assert (Hfin : forall l h, room s (tm_modid x) l h ->
    wlp ((if do_add then modify (fun s => set_list (set_slot (ts_list s) (tm_modid x) (mkSI (u64 (ts_gen s + 1)) (Some m))) s);; put_mod m (with_in_slotinfo x) else mret tt);; mret true)
      (fun _ s' => exists l h, room s (tm_modid x) l h /\ s' = if do_add then published s m x l h else set_list l (set_heap h s)) (set_list l (set_heap h s))).
  { intros l h Hr. apply wlp_bind. destruct do_add.
    - apply wlp_bind, wlp_modify, wlp_modify, wlp_ret. exists l, h. done.
    - apply wlp_ret, wlp_ret. exists l, h. done. }
  assert (Hsame : set_list (ts_list s) (set_heap (ts_heap s) s) = s) by (by destruct s).
  rewrite has_slot_spec by lia. destruct (Z.ltb_spec (tm_modid x) (list_len (ts_list s))) as [Hlt|Hge].
  - apply wlp_ret. rewrite <- Hsame. apply Hfin. by left.
  - apply wlp_bind, wlp_assert. intros Hz%Z.eqb_eq. apply wlp_bind. unfold c_malloc. apply wlp_bind, wlp_gets.
    set (n := 16 + TLS_SLOTINFO_SURPLUS * 16). destruct (Z.eqb_spec (malloc (ts_heap s) n) 0) as [E|Hp].
    + apply wlp_ret. cbn [Z.eqb]. apply wlp_lift. done.
    + destruct (heap_ok_insert malloc (ts_heap s) n ForSlots Hh ltac:(unfold n, TLS_SLOTINFO_SURPLUS; lia) Hp) as [Hok Hnone].
      apply wlp_bind, wlp_modify, wlp_ret. rewrite (proj2 (Z.eqb_neq _ _) Hp). apply wlp_modify. apply Hfin.
      right. split; [done|]. split; [lia|]. split; [done|]. eauto.
Qed.

(** ** Withdrawing *)
Definition withdrawn (s : tls_state) (i : Z) (l : list (list slotinfo)) (max : Z) (gaps : bool) : tls_state :=
  set_max max (set_gaps gaps (set_list l s)).

Lemma close_spec s m x ic : slots_ok s -> ts_mods s !! m = Some x -> 1 <= tm_modid x ->
  wlp (close_tls m ic) (fun _ s' => exists l max gaps, s' = withdrawn s (tm_modid x) l max gaps /\
    length <$> l = length <$> ts_list s /\ concat l = clear_slot (ts_gen s) (Z.to_nat (tm_modid x)) (concat (ts_list s)) /\
    ((max = ts_max s /\ tm_modid x <> ts_max s) \/
     ((tm_modid x < list_len (ts_list s) -> tm_modid x = ts_max s) /\
      (max = ts_nelem s \/ ts_nelem s < max < tm_modid x /\ exists si, concat l !! Z.to_nat max = Some si /\ si_map si <> None) /\
      forall i si, max < i < tm_modid x -> concat l !! Z.to_nat i = Some si -> si_map si = None))) s.
Proof.
  intros Hs Hx Hi. unfold close_tls. pose proof (so_max s Hs) as [Hn Hm]. destruct (so_first s Hs) as (b & r & Hl & Hb).
  apply wlp_bind, wlp_gets, wlp_bind, wlp_get_mod. intros x' Hx'. assert (x' = x) as -> by congruence. cbn [id].
  rewrite Hl. rewrite <- Hl. apply wlp_bind, wlp_lift. intros [[[found l] max] gaps] Hr.
  apply remove_spec in Hr as (R1 & R2 & R3); [|lia|lia|intros _; eauto]. rewrite Z.sub_0_r in *.
  apply wlp_bind, wlp_modify, wlp_bind, wlp_modify, wlp_modify. do 3 eexists. split; [reflexivity|]. split; [done|]. split; [done|].
  destruct R3 as [(? & ? & -> & -> & ->)|(E & -> & S)]; [by left|right]. split; [done|]. rewrite Z.eqb_refl, Z.add_0_l in S.
  unfold searched in S. destruct found.
  - destruct S as (S1 & (si & S2 & S3) & S4). rewrite Z.sub_0_r in S2. split; [right; split; [lia|by exists si]|].
    intros i si' Hi' Hsi'. apply (S4 i si' Hi'). by rewrite Z.sub_0_r.
  - destruct S as [_ S]. split; [by left|]. intros i si' Hi' Hsi'. apply (S i si' ltac:(lia)). by rewrite Z.sub_0_r.
Qed.
