(* ===== verification/DynTlsMachine.v ===== *)
(** * Dynamic thread-local storage: loader and threads together

    The state machine in which the loader publishes and withdraws modules while
    threads start, end and use thread-local variables, and its invariant.  The steps of the loader are
    those of [dl_open_worker_begin] and [_dl_close_worker], which run one at a time; accesses
    of other threads may come between any two of them. *)

From S2P Require Import Prelude LinkMap TlsOffset LoadCmds DynTls TlsSlots DynTlsSpec DynTlsThread DynTlsLoader.

(** ** The invariant *)

(** What happens to the modules of a [dlopen]: they get their ids, are published
    one by one, or, when it fails, are withdrawn one by one. *)
Inductive lmode := Mapping | Publishing | Dropping.
#[export] Instance lmode_eq_dec : EqDecision lmode.
Proof. solve_decision. Defined.

(** The phase of the loader: whether [GL(dl_load_tls_lock)] is held, whether slots were changed since
    the last new generation, and which modules have an id but are not published. *)
Record lphase := mkPhase { lp_locked : bool; lp_dirty : bool; lp_mode : lmode; lp_pending : list mapid }.

Record thread_ok (s : tls_state) (t : Z) (th : thread) : Prop := {
  tk_knows : knows s (fun _ g => g <= d_gen (th_dtv th)) t th (ts_heap s);
  tk_gen : 0 <= d_gen (th_dtv th) <= ts_gen s;
  tk_limit : forall i si, i < ts_limit s -> tls_slot s i = Some si -> si_gen si <= d_gen (th_dtv th) }.

(** A module that has an id and waits to be published. *)
Definition waiting (s : tls_state) (m : mapid) (x : tmod) : Prop :=
  ts_mods s !! m = Some x /\ mod_ok x /\ tm_in_slotinfo x = false /\ tm_initial x = false /\ ts_nelem s < tm_modid x /\
  forall si m', tls_slot s (tm_modid x) = Some si -> si_map si = Some m' -> m' = m.

Record Inv (s : tls_state) (p : lphase) : Prop := {
  iv_slots : slots_ok s;
  iv_heap : heap_ok (ts_heap s);
  iv_gen : 0 <= ts_gen s < 2 ^ 64;
  iv_gens : forall i si, tls_slot s i = Some si -> 0 <= si_gen si <= ts_gen s + (if lp_dirty p then 1 else 0);
  iv_top : ts_max s = ts_nelem s \/ (exists si m, tls_slot s (ts_max s) = Some si /\ si_map si = Some m) \/
    (exists m x, m ∈ lp_pending p /\ ts_mods s !! m = Some x /\ tm_modid x = ts_max s);
  iv_pend : forall m, m ∈ lp_pending p -> exists x, waiting s m x;
  iv_dist : forall m m' x x', m ∈ lp_pending p -> m' ∈ lp_pending p -> ts_mods s !! m = Some x -> ts_mods s !! m' = Some x' ->
    tm_modid x = tm_modid x' -> m = m';
  iv_fresh : lp_mode p <> Dropping -> forall m x, m ∈ lp_pending p -> ts_mods s !! m = Some x ->
    tm_modid x <= ts_max s /\ (lp_mode p = Mapping -> ts_gaps s = true -> exists si, tls_slot s (tm_modid x) = Some si /\ si_map si = Some m);
  iv_limit : forall i, 1 <= i < ts_limit s -> exists si m x, tls_slot s i = Some si /\ si_map si = Some m /\
    ts_mods s !! m = Some x /\ tm_initial x = true /\ tm_in_slotinfo x = true;
  iv_threads : forall t th, ts_threads s !! t = Some th -> thread_ok s t th;
  iv_owner : forall q sz t m, ts_heap s !! q = Some (mkBlock sz (ForTls t m)) -> is_Some (ts_threads s !! t) }.

Lemma knows_slots s s' sync t th h h' : knows s sync t th h -> ts_initial_dtv s' = ts_initial_dtv s ->
  (forall i si m x, tls_slot s' i = Some si -> si_map si = Some m -> ts_mods s' !! m = Some x -> tm_in_slotinfo x = true ->
     sync i (si_gen si) -> tls_slot s i = Some si /\ ts_mods s !! m = Some x) ->
  (forall p b, of_thread (mb_for b) = Some t -> h !! p = Some b <-> h' !! p = Some b) ->
  knows s' sync t th h'.
Proof.
  intros [L C O I A D] Hi Hsl Hh. split; try done.
  - intros i si m x Hs Hm Hx Hin Hsy. destruct (Hsl i si m x Hs Hm Hx Hin Hsy) as [Hs0 Hx0].
    destruct (C i si m x Hs0 Hm Hx0 Hin Hsy) as (e & He & Hok). exists e. split; [done|].
    destruct Hok as [?|? ?|sz ? ? Hb ? ?]; [by apply entry_unallocated|by apply entry_static|].
    eapply entry_dynamic; eauto. by apply Hh.
  - intros i e He Hf. destruct (O i e He Hf) as (Hv & sz & m & Hb). split; [done|]. exists sz, m. by apply Hh.
  - intros q sz m Hq. apply (A q sz m). by apply Hh.
  - rewrite Hi. destruct D as [D|[sz D]]; [by left|right]. exists sz. by apply Hh.
Qed.

(** A pending module that is not in the slots makes the only reason why the largest id is behind the list. *)
Lemma max_in_list s p : Inv s p -> lp_mode p = Mapping -> ts_gaps s = true -> ts_max s < list_len (ts_list s).
Proof.
  intros I Hset Hg. destruct (so_first s (iv_slots _ _ I)) as (b & r & Hl & Hb).
  assert (Hlen : Z.of_nat (length b) <= list_len (ts_list s)) by (rewrite Hl, list_len_cons; pose proof (list_len_nonneg r); lia).
  destruct (iv_top _ _ I) as [E|[(si & m & Hsi & _)|(m & x & Hp & Hx & E)]]; [lia|apply tls_slot_range in Hsi; lia|].
  destruct (iv_fresh _ _ I ltac:(congruence) m x Hp Hx) as [_ Hm]. destruct (Hm Hset Hg) as (si & Hsi & _). apply tls_slot_range in Hsi. lia.
Qed.

(** ** Assigning *)
Section Assign.
Context (s : tls_state) (p : lphase) (m : mapid) (x : tmod) (i : Z) (s' : tls_state).
Context (I : Inv s p) (Hset : lp_mode p = Mapping) (Hm : ts_mods s !! m = None) (Hok : mod_ok x).
Context (Hin : tm_in_slotinfo x = false) (Hini : tm_initial x = false) (Hmax : ts_max s + 1 < 2 ^ 61).
Let s1 := set_mods (<[m := x]> (ts_mods s)) s.
Context (Ha : assigned s1 m x i s').

Lemma assign_mods m' : ts_mods s' !! m' = if decide (m' = m) then Some (with_tls (with_modid i) x) else ts_mods s !! m'.
Proof using Ha.
  rewrite (as_mods _ _ _ _ _ Ha). cbn [s1 set_mods ts_mods]. rewrite insert_insert_eq.
  case_decide; [subst; by rewrite lookup_insert_eq|by rewrite lookup_insert_ne].
Qed.
Lemma assign_old m' x' : ts_mods s !! m' = Some x' -> m' <> m /\ ts_mods s' !! m' = Some x'.
Proof using Ha Hm. intros H. assert (m' <> m) by congruence. split; [done|]. rewrite assign_mods. by rewrite decide_False. Qed.

Lemma assign_slot j si : tls_slot s' j = Some si -> tls_slot s j = Some si \/ j = i /\ si = mkSI 0 (Some m).
Proof using Ha I.
  intros H. destruct (as_slots _ _ _ _ _ Ha) as [E|[Hl E]]; [left; by rewrite <- (tls_slot_list s s' j E)|].
  pose proof (as_range _ _ _ _ _ Ha) as [Hr _]. pose proof (so_max s (iv_slots _ _ I)). cbn in Hr.
  rewrite (tls_slot_insert s s' j i _ ltac:(cbn in Hl; lia) E) in H. case_decide; [right; split; [done|congruence]|by left].
Qed.
Lemma assign_slot_old j si m' : tls_slot s j = Some si -> si_map si = Some m' -> tls_slot s' j = Some si.
Proof using Ha I.
  intros H Hsm. destruct (as_slots _ _ _ _ _ Ha) as [E|[Hl E]]; [by rewrite (tls_slot_list s s' j E)|].
  pose proof (as_range _ _ _ _ _ Ha) as [Hr _]. pose proof (so_max s (iv_slots _ _ I)). cbn in Hr.
  rewrite (tls_slot_insert s s' j i _ ltac:(cbn in Hl; lia) E). case_decide; [|done]. subst j.
  by destruct (as_free _ _ _ _ _ Ha si m' H).
Qed.
Lemma assign_max : ts_max s <= ts_max s' <= ts_max s + 1.
Proof using Ha. destruct (as_max _ _ _ _ _ Ha) as [(E & _)|(E & _)]; cbn in E; lia. Qed.

(** No other pending module has the id. *)
Lemma assign_other m' x' : m' ∈ lp_pending p -> ts_mods s !! m' = Some x' -> tm_modid x' <> i.
Proof using Ha I Hset.
  intros Hp Hx' E. destruct (iv_fresh _ _ I ltac:(congruence) m' x' Hp Hx') as [Hle Hg].
  destruct (as_max _ _ _ _ _ Ha) as [(_ & _ & Hgt)|(_ & Hi & _)].
  - destruct (Hg Hset Hgt) as (si & Hsi & Hsm). rewrite E in Hsi. by destruct (as_free _ _ _ _ _ Ha si m' Hsi).
  - cbn in Hi. lia.
Qed.

Lemma assign_slots_ok : slots_ok s'.
Proof using Ha I Hm Hin Hini Hmax Hok.
  destruct (iv_slots _ _ I) as [F M P N]. destruct (as_same _ _ _ _ _ Ha) as (S1 & S2 & S3 & S4 & S5 & S6).
  cbn in S1. pose proof assign_max. pose proof (as_range _ _ _ _ _ Ha) as Hr. cbn in Hr. split.
  - rewrite S1. apply (first_lengths (ts_list s)); [apply (as_lengths _ _ _ _ _ Ha)|done].
  - lia.
  - intros j si m' [Hj|[-> ->]]%assign_slot Hsm.
    + destruct (P j si m' Hj Hsm) as [Hle (x' & Hx' & Hid)]. split; [lia|]. exists x'. by destruct (assign_old m' x' Hx').
    + injection Hsm as <-. split; [lia|]. eexists. rewrite assign_mods, decide_True by done. done.
  - intros m' x' Hx' Hi'. rewrite assign_mods in Hx'. case_decide as E.
    { injection Hx' as <-. cbn in Hi'. congruence. }
    destruct (N m' x' Hx' Hi') as (Hk & si & Hsi & Hsm). split; [done|]. exists si. split; [|done]. by eapply assign_slot_old.
Qed.

Lemma assign_inv : Inv s' (mkPhase (lp_locked p) (lp_dirty p) Mapping (m :: lp_pending p)).
Proof using Ha I Hset Hm Hok Hin Hini Hmax.
  pose proof (as_same _ _ _ _ _ Ha) as (S1 & S2 & S3 & S4 & S5 & S6). cbn [s1 set_mods ts_nelem ts_gen ts_limit ts_initial_dtv ts_threads ts_heap] in *.
  pose proof (as_range _ _ _ _ _ Ha) as Hr. cbn [s1 set_mods ts_nelem] in Hr. pose proof assign_max as Hmx.
  split; cbn [lp_dirty lp_mode lp_pending].
  - apply assign_slots_ok.
  - rewrite S6. apply (iv_heap _ _ I).
  - rewrite S2. apply (iv_gen _ _ I).
  - intros j si [Hj|[-> ->]]%assign_slot; rewrite S2; [by apply (iv_gens _ _ I j)|]. cbn. pose proof (iv_gen _ _ I). destruct (lp_dirty p); lia.
  - destruct (as_max _ _ _ _ _ Ha) as [(E & _)|(E & Ei & _)]; cbn in E.
    + rewrite E, S1. destruct (iv_top _ _ I) as [?|[(si & m' & Hsi & Hsm)|(m' & x' & Hp & Hx & Hid)]]; [by left|right; left|right; right].
      * exists si, m'. split; [|done]. by eapply assign_slot_old.
      * exists m', x'. split; [by right|]. by destruct (assign_old m' x' Hx).
    + right. right. exists m, (with_tls (with_modid i) x). rewrite assign_mods, decide_True by done. cbn in Ei. split; [by left|]. split; [done|]. cbn. lia.
  - intros m' [->|Hp]%elem_of_cons.
    + exists (with_tls (with_modid i) x). split; [by rewrite assign_mods, decide_True|]. split; [done|]. split; [done|]. split; [done|].
      split; [cbn; lia|]. intros si m' [Hj|[_ ->]]%assign_slot Hsm; [|by injection Hsm]. by destruct (as_free _ _ _ _ _ Ha si m' Hj).
    + destruct (iv_pend _ _ I m' Hp) as (x' & Hx' & W1 & W2 & W3 & W4 & W5). destruct (assign_old m' x' Hx') as [_ Hx2].
      exists x'. split; [done|]. split; [done|]. split; [done|]. split; [done|]. split; [lia|].
      intros si m2 [Hj|[E _]]%assign_slot Hsm; [by eapply W5|]. by destruct (assign_other m' x' Hp Hx').
  - assert (Hcase : forall m1 x1, m1 ∈ m :: lp_pending p -> ts_mods s' !! m1 = Some x1 ->
      m1 = m /\ tm_modid x1 = i \/ m1 <> m /\ m1 ∈ lp_pending p /\ ts_mods s !! m1 = Some x1).
    { intros m1 x1 H1 Hx1. rewrite assign_mods in Hx1. case_decide as E; [left; split; [done|by injection Hx1 as <-]|].
      right. apply elem_of_cons in H1 as [?|?]; [done|]. done. }
    intros m1 m2 x1 x2 H1 H2 Hx1 Hx2 E. destruct (Hcase m1 x1 H1 Hx1) as [[-> E1]|(N1 & P1 & X1)], (Hcase m2 x2 H2 Hx2) as [[-> E2]|(N2 & P2 & X2)]; [done|..].
    + destruct (assign_other m2 x2 P2 X2). congruence.
    + destruct (assign_other m1 x1 P1 X1). congruence.
    + by eapply (iv_dist _ _ I).
  - intros _ m1 x1 H1 Hx1. rewrite assign_mods in Hx1. case_decide as E.
    + subst m1. injection Hx1 as <-. split; [cbn; lia|]. intros _ Hg.
      destruct (as_max _ _ _ _ _ Ha) as [(_ & Hsl & _)|(_ & _ & Hg')]; [by eexists|congruence].
    + apply elem_of_cons in H1 as [?|H1]; [done|]. destruct (iv_fresh _ _ I ltac:(congruence) m1 x1 H1 Hx1) as [Hle Hg]. split; [lia|].
      intros _ Hg'. destruct (as_max _ _ _ _ _ Ha) as [(_ & _ & Hgt)|(_ & _ & Hgf)]; [|congruence].
      destruct (Hg Hset Hgt) as (si & Hsi & Hsm). exists si. split; [|done]. by eapply assign_slot_old.
  - rewrite S3. intros j Hj. destruct (iv_limit _ _ I j Hj) as (si & m1 & x1 & L1 & L2 & L3 & L4).
    exists si, m1, x1. split; [by eapply assign_slot_old|]. split; [done|]. split; [by destruct (assign_old m1 x1 L3)|done].
  - rewrite S5. intros t th Hth. destruct (iv_threads _ _ I t th Hth) as [K G T]. split.
    + rewrite S6. eapply knows_slots; [exact K|done| |done]. intros j si m1 x1 [Hj|[-> ->]]%assign_slot Hsm Hx1 Hi1 _.
      * rewrite assign_mods in Hx1. case_decide; [|done]. injection Hx1 as <-. cbn in Hi1. congruence.
      * injection Hsm as <-. rewrite assign_mods, decide_True in Hx1 by done. injection Hx1 as <-. cbn in Hi1. congruence.
    + by rewrite S2.
    + intros j si Hj [Hsi|[-> ->]]%assign_slot; [apply (T j); [by rewrite <- S3|done]|]. cbn. lia.
  - rewrite S5, S6. apply (iv_owner _ _ I).
Qed.
End Assign.

(** ** Publishing *)
Section Room.
Context (s : tls_state) (p : lphase) (i : Z) (l : list (list slotinfo)) (h : gmap Z mblock).
Context (I : Inv s p) (Hroom : room s i l h).
Let s' := set_list l (set_heap h s).

Lemma room_slot j si : tls_slot s' j = Some si -> tls_slot s j = Some si \/ si = mkSI 0 None.
Proof using Hroom.
  destruct Hroom as [(-> & -> & _)|(-> & Hi & _)]; [by left|].
  rewrite (tls_slot_app s s' j new_slots); [|unfold s'; cbn [set_list ts_list]; rewrite concat_app; cbn [concat]; by rewrite app_nil_r].
  case_decide; [|by left]. intros [-> _]%lookup_replicate. by right.
Qed.
Lemma room_slot_old j si : tls_slot s j = Some si -> tls_slot s' j = Some si.
Proof using Hroom.
  intros H. destruct Hroom as [(-> & -> & _)|(-> & Hi & _)]; [done|].
  rewrite (tls_slot_app s s' j new_slots); [|unfold s'; cbn [set_list ts_list]; rewrite concat_app; cbn [concat]; by rewrite app_nil_r].
  rewrite decide_False; [done|]. apply tls_slot_range in H. lia.
Qed.
Lemma room_heap q b : of_thread (mb_for b) <> None -> ts_heap s !! q = Some b <-> h !! q = Some b.
Proof using Hroom.
  intros Hb. destruct Hroom as [(_ & -> & _)|(_ & _ & _ & q' & n & Hnone & ->)]; [done|].
  destruct (decide (q = q')) as [->|]; [|by rewrite lookup_insert_ne]. rewrite lookup_insert_eq, Hnone. split; [done|]. by intros [= <-].
Qed.

Lemma room_slots_ok : slots_ok s'.
Proof using I Hroom.
  destruct (iv_slots _ _ I) as [(b & r & Hl & Hb) M P N]. split.
  - destruct Hroom as [(-> & _)|(-> & _)]; cbn [s' set_list set_heap ts_list ts_nelem]; [eauto|]. exists b, (r ++ [new_slots]). by rewrite Hl.
  - done.
  - intros j si m [Hj| ->]%room_slot Hsm; [|done]. by apply (P j si m).
  - intros m x Hx Hin. destruct (N m x Hx Hin) as (? & si & Hsi & ?). split; [done|]. exists si. split; [by apply room_slot_old|done].
Qed.

Lemma room_inv : Inv s' p.
Proof using I Hroom.
  split.
  - apply room_slots_ok.
  - destruct Hroom as [(_ & -> & _)|(_ & _ & Hh & _)]; [apply (iv_heap _ _ I)|done].
  - apply (iv_gen _ _ I).
  - intros j si [Hj| ->]%room_slot; [by apply (iv_gens _ _ I j)|]. pose proof (iv_gen _ _ I). cbn. destruct (lp_dirty p); lia.
  - destruct (iv_top _ _ I) as [?|[(si & m & Hsi & Hsm)|?]]; [by left|right; left|by right; right].
    exists si, m. split; [by apply room_slot_old|done].
  - intros m Hm. destruct (iv_pend _ _ I m Hm) as (x & W0 & W1 & W2 & W3 & W4 & W5). exists x. repeat (split; [done|]).
    intros si m' [Hj| ->]%room_slot Hsm; [by eapply W5|done].
  - apply (iv_dist _ _ I).
  - intros Hset m x Hm Hx. destruct (iv_fresh _ _ I Hset m x Hm Hx) as [H1 H2]. split; [done|]. intros Hmp Hg.
    destruct (H2 Hmp Hg) as (si & Hsi & Hsm). exists si. split; [by apply room_slot_old|done].
  - intros j Hj. destruct (iv_limit _ _ I j Hj) as (si & m & x & L1 & L2). exists si, m, x. split; [by apply room_slot_old|done].
  - intros t th Hth. destruct (iv_threads _ _ I t th Hth) as [K G T]. split; [|done|].
    + eapply knows_slots; [exact K|done| |].
      * intros j si m x [Hj| ->]%room_slot Hsm Hx Hin _; done.
      * intros q b Hb. apply room_heap. by rewrite Hb.
    + intros j si Hj [Hsi| ->]%room_slot; [by apply (T j)|]. cbn. lia.
  - intros q sz t m Hq. apply (iv_owner _ _ I q sz t m). by apply room_heap.
Qed.
End Room.

(** The phase after module [m] was published or withdrawn. *)
Definition settled (mode : lmode) (m : mapid) (p : lphase) : lphase :=
  let rest := filter (fun m' => m' <> m) (lp_pending p) in
  mkPhase (lp_locked p) true (if decide (rest = []) then Mapping else mode) rest.

Lemma settled_pending mode m p m' : m' ∈ lp_pending (settled mode m p) <-> m' ∈ lp_pending p /\ m' <> m.
Proof. unfold settled. cbn [lp_pending]. rewrite list_elem_of_filter. tauto. Qed.
Lemma settled_mode mode m p m' : m' ∈ lp_pending (settled mode m p) -> lp_mode (settled mode m p) = mode.
Proof. unfold settled. cbn [lp_mode lp_pending]. intros Hm'. case_decide as E; [|done]. rewrite E in Hm'. by apply elem_of_nil in Hm'. Qed.

Section Publish.
Context (s : tls_state) (p : lphase) (m : mapid) (x : tmod).
Context (I : Inv s p) (Hw : waiting s m x) (Hp : m ∈ lp_pending p) (Hlen : tm_modid x < list_len (ts_list s)) (Hgen : ts_gen s + 1 < 2 ^ 64) (Hmode : lp_mode p <> Dropping).
Let s' := published s m x (ts_list s) (ts_heap s).

Lemma waiting_range : 1 <= tm_modid x.
Proof using I Hw. destruct Hw as (_ & _ & _ & _ & H & _). pose proof (so_max s (iv_slots _ _ I)). lia. Qed.

Lemma publish_slot j : tls_slot s' j = if decide (j = tm_modid x) then Some (mkSI (ts_gen s + 1) (Some m)) else tls_slot s j.
Proof using I Hw Hlen Hgen.
  pose proof waiting_range. pose proof (iv_gen _ _ I). rewrite <- (u64_small (ts_gen s + 1)) by lia.
  apply tls_slot_insert; [lia|]. unfold s', published. cbn [set_mods set_list ts_list]. apply concat_set_slot. lia.
Qed.
Lemma publish_mods m' : ts_mods s' !! m' = if decide (m' = m) then Some (with_in_slotinfo x) else ts_mods s !! m'.
Proof using. cbn. case_decide; [subst; by rewrite lookup_insert_eq|by rewrite lookup_insert_ne]. Qed.

(** The slot was free. *)
Lemma publish_used j si m' : tls_slot s j = Some si -> si_map si = Some m' -> m' <> m -> tls_slot s' j = Some si.
Proof using I Hw Hlen Hgen.
  intros Hj Hsm Hne. rewrite publish_slot. case_decide; [|done]. subst j. destruct Hw as (_ & _ & _ & _ & _ & W). by destruct Hne; eapply W.
Qed.

Lemma publish_slots_ok : slots_ok s'.
Proof using I Hw Hp Hlen Hgen Hmode.
  destruct (iv_slots _ _ I) as [F M P N]. pose proof Hw as (W0 & W1 & W2 & W3 & W4 & W5).
  pose proof waiting_range as W6. split.
  - apply (first_lengths (ts_list s)); [apply lengths_set_slot|done].
  - done.
  - intros j si m'. rewrite publish_slot. case_decide as E.
    + subst j. intros [= <-] [= <-]. destruct (iv_fresh _ _ I Hmode m x Hp W0) as [Hle _]. split; [done|].
      eexists. rewrite publish_mods, decide_True by done. done.
    + intros Hj Hsm. destruct (P j si m' Hj Hsm) as [Hle (x' & Hx' & Hid)]. split; [done|]. exists x'.
      rewrite publish_mods. case_decide; [subst m'; congruence|done].
  - intros m' x' Hx' Hi'. rewrite publish_mods in Hx'. case_decide as E.
    + injection Hx' as <-. subst m'. split; [done|]. eexists. rewrite publish_slot. by rewrite decide_True.
    + destruct (N m' x' Hx' Hi') as (? & si & Hsi & Hsm). split; [done|]. exists si. split; [|done]. by eapply publish_used.
Qed.

Lemma publish_inv : Inv s' (settled Publishing m p).
Proof using I Hw Hp Hlen Hgen Hmode.
  pose proof Hw as (W0 & W1 & W2 & W3 & W4 & W5). pose proof (iv_gen _ _ I) as Hg. split.
  - apply publish_slots_ok.
  - apply (iv_heap _ _ I).
  - done.
  - intros j si. rewrite publish_slot. change (ts_gen s') with (ts_gen s). cbn [settled lp_dirty]. case_decide as E.
    + intros [= <-]. cbn. lia.
    + intros Hj. pose proof (iv_gens _ _ I j si Hj). destruct (lp_dirty p); lia.
  - change (ts_max s') with (ts_max s). change (ts_nelem s') with (ts_nelem s).
    destruct (iv_top _ _ I) as [?|[(si & m' & Hsi & Hsm)|(m' & x' & Hp' & Hx & Hid)]]; [by left|right; left|].
    + destruct (decide (m' = m)) as [->|]; [|exists si, m'; split; [by eapply publish_used|done]].
      destruct (so_map s (iv_slots _ _ I) _ si m Hsi Hsm) as [_ (x' & Hx' & Hid)]. assert (x' = x) as -> by congruence.
      eexists _, m. rewrite publish_slot, decide_True by done. done.
    + destruct (decide (m' = m)) as [->|Hne].
      * right. left. assert (x' = x) as -> by congruence. eexists _, m. rewrite publish_slot, decide_True by done. done.
      * right. right. exists m', x'. split; [by apply settled_pending|]. rewrite publish_mods, decide_False by done. done.
  - intros m' [Hp' Hne]%settled_pending. destruct (iv_pend _ _ I m' Hp') as (x' & V0 & V1 & V2 & V3 & V4 & V5). exists x'.
    split; [by rewrite publish_mods, decide_False|]. repeat (split; [done|]). intros si m2. rewrite publish_slot. case_decide as E; [|by apply V5].
    destruct Hne. by apply (iv_dist _ _ I m' m x' x).
  - intros m1 m2 x1 x2 [P1 N1]%settled_pending [P2 N2]%settled_pending. rewrite !publish_mods, !decide_False by done. by apply (iv_dist _ _ I).
  - intros _ m' x' Hp' Hx'. pose proof (settled_mode _ _ _ _ Hp') as Hmd. apply settled_pending in Hp' as [Hp' Hne].
    rewrite publish_mods, decide_False in Hx' by done. destruct (iv_fresh _ _ I Hmode m' x' Hp' Hx') as [Hle _]. split; [done|].
    rewrite Hmd. done.
  - intros j Hj. destruct (iv_limit _ _ I j Hj) as (si & m' & x' & L1 & L2 & L3 & L4 & L5). assert (m' <> m) by congruence.
    exists si, m', x'. split; [by eapply publish_used|]. split; [done|]. by rewrite publish_mods, decide_False.
  - intros t th Hth. destruct (iv_threads _ _ I t th Hth) as [K G T]. split; [|done|].
    + eapply knows_slots; [exact K|done| |done]. intros j si m' x'. rewrite publish_slot, publish_mods.
      case_decide as E; [intros [= <-] [= <-] _ _ Hsy; cbn in Hsy; lia|]. intros Hj Hsm Hx' _ _. split; [done|].
      case_decide; [subst m'|done]. destruct (so_map s (iv_slots _ _ I) j si m Hj Hsm) as [_ (x2 & Hx2 & Hid)]. congruence.
    + intros j si Hj. rewrite publish_slot. case_decide as E; [|by apply (T j)]. exfalso. subst j.
      pose proof waiting_range. destruct (iv_limit _ _ I (tm_modid x) ltac:(cbn in Hj; lia)) as (si' & m' & x' & L1 & L2 & L3 & L4 & L5).
      assert (m' = m) as -> by (by eapply W5). congruence.
  - apply (iv_owner _ _ I).
Qed.
End Publish.

(** ** Withdrawing *)
Section Withdraw.
Context (s : tls_state) (p : lphase) (m : mapid) (x : tmod) (l : list (list slotinfo)) (max : Z) (gaps : bool).
Context (I : Inv s p) (Hx : ts_mods s !! m = Some x) (Hid : 1 <= tm_modid x) (Hini : tm_initial x = false) (Hgen : ts_gen s + 1 < 2 ^ 64).
Context (Hown : forall si m', tls_slot s (tm_modid x) = Some si -> si_map si = Some m' -> m' = m).
Context (Hlen : length <$> l = length <$> ts_list s).
Context (Hl : concat l = clear_slot (ts_gen s) (Z.to_nat (tm_modid x)) (concat (ts_list s))).
Context (Hmax : (max = ts_max s /\ tm_modid x <> ts_max s) \/
  ((tm_modid x < list_len (ts_list s) -> tm_modid x = ts_max s) /\
   (max = ts_nelem s \/ ts_nelem s < max < tm_modid x /\ exists si, concat l !! Z.to_nat max = Some si /\ si_map si <> None) /\
   forall i si, max < i < tm_modid x -> concat l !! Z.to_nat i = Some si -> si_map si = None)).
Let s' := set_mods (delete m (ts_mods s)) (withdrawn s (tm_modid x) l max gaps).

Lemma withdraw_slot j si : tls_slot s' j = Some si ->
  j <> tm_modid x /\ tls_slot s j = Some si \/ j = tm_modid x /\ si_map si = None /\ (tls_slot s j = Some si \/ si_gen si = ts_gen s + 1).
Proof using I Hid Hl Hgen.
  unfold tls_slot. cbn [s' set_mods withdrawn set_max set_gaps set_list ts_list]. rewrite Hl. destruct (Z.ltb_spec j 1) as [|Hj1]; [done|].
  intros H. destruct (Z.eq_dec j (tm_modid x)) as [->|Hne]; [right|left; by rewrite clear_slot_other in H by lia].
  split; [done|]. split; [by eapply clear_slot_cleared|]. unfold clear_slot in H.
  destruct (concat (ts_list s) !! Z.to_nat (tm_modid x)) as [s0|] eqn:E0; [|congruence].
  destruct (si_map s0); [|left; congruence]. rewrite list_lookup_insert_eq in H by (by eapply lookup_lt_Some). injection H as <-.
  right. cbn. pose proof (iv_gen _ _ I). apply u64_small. lia.
Qed.
Lemma withdraw_used j si m' : tls_slot s' j = Some si -> si_map si = Some m' -> tls_slot s j = Some si /\ m' <> m.
Proof using I Hid Hl Hx Hgen.
  intros [[Hne Hj]|(_ & ? & _)]%withdraw_slot Hsm; [|congruence]. split; [done|]. intros ->.
  destruct (so_map s (iv_slots _ _ I) j si m Hj Hsm) as [_ (x' & Hx' & E)]. congruence.
Qed.
Lemma withdraw_other j si m' : tls_slot s j = Some si -> si_map si = Some m' -> m' <> m -> tls_slot s' j = Some si.
Proof using Hid Hl Hown.
  intros Hj Hsm Hne. assert (Hjx : j <> tm_modid x) by (intros ->; destruct Hne; by eapply Hown).
  unfold tls_slot in *. cbn [s' set_mods withdrawn set_max set_gaps set_list ts_list]. rewrite Hl.
  destruct (Z.ltb_spec j 1); [done|]. by rewrite clear_slot_other by lia.
Qed.
Lemma withdraw_mods m' : m' <> m -> ts_mods s' !! m' = ts_mods s !! m'.
Proof using. intros H. cbn. by rewrite lookup_delete_ne. Qed.
Lemma withdraw_mods_Some m' x' : ts_mods s' !! m' = Some x' -> m' <> m /\ ts_mods s !! m' = Some x'.
Proof using. cbn. rewrite lookup_delete_Some. naive_solver. Qed.

Lemma withdraw_slots_ok : slots_ok s'.
Proof using I Hx Hid Hl Hlen Hmax Hown Hgen.
  destruct (iv_slots _ _ I) as [F M P N]. split.
  - apply (first_lengths (ts_list s)); done.
  - cbn. destruct Hmax as [[-> _]|(_ & [->|[? (si & Hsi & Hu)]] & _)]; [done|lia|].
    destruct (si_map si) as [m'|] eqn:Hsm; [|done]. destruct (withdraw_used max si m') as [Hj _]; [|done|].
    + unfold tls_slot. by rewrite (proj2 (Z.ltb_ge max 1)) by lia.
    + destruct (P max si m' Hj Hsm). lia.
  - intros j si m' Hj Hsm. destruct (withdraw_used j si m' Hj Hsm) as [Hj0 Hne].
    destruct (P j si m' Hj0 Hsm) as [Hle (x' & Hx' & Hi')]. split; [|exists x'; by rewrite withdraw_mods].
    change (ts_max s') with max. destruct Hmax as [[-> _]|(Hin & _ & Hno)]; [done|].
    destruct (Z.le_gt_cases j max) as [|Hgt]; [done|]. exfalso. apply tls_slot_range in Hj0 as Hr.
    assert (Hjx : j <> tm_modid x) by (intros ->; destruct Hne; by eapply Hown).
    assert (Hlt : j < tm_modid x). { destruct (Z.lt_ge_cases (tm_modid x) (list_len (ts_list s))); [specialize (Hin ltac:(done))|]; lia. }
    rewrite (Hno j si) in Hsm; [done|lia|]. unfold tls_slot in Hj. by rewrite (proj2 (Z.ltb_ge j 1)) in Hj by lia.
  - intros m' x' [Hne Hx']%withdraw_mods_Some Hi'. destruct (N m' x' Hx' Hi') as (? & si & Hsi & Hsm). split; [done|].
    exists si. split; [|done]. by eapply withdraw_other.
Qed.

Lemma withdraw_inv : Inv s' (settled Dropping m p).
Proof using I Hx Hid Hini Hl Hlen Hmax Hown Hgen.
  pose proof (iv_gen _ _ I) as Hg. split.
  - apply withdraw_slots_ok.
  - apply (iv_heap _ _ I).
  - done.
  - intros j si Hj. change (ts_gen s') with (ts_gen s). cbn [settled lp_dirty].
    assert (Hold : tls_slot s j = Some si -> 0 <= si_gen si <= ts_gen s + 1). { intros H. pose proof (iv_gens _ _ I j si H). destruct (lp_dirty p); lia. }
    apply withdraw_slot in Hj as [[_ Hj]|(_ & _ & [Hj|E])]; [auto|auto|lia].
  - change (ts_max s') with max. change (ts_nelem s') with (ts_nelem s). destruct Hmax as [[E0 Hne]|(_ & [?|[Hr (si & Hsi & Hsm)]] & _)]; [|by left|].
    + rewrite E0. destruct (iv_top _ _ I) as [?|[(si & m' & Hsi & Hsm)|(m' & x' & Hp' & Hx' & E)]]; [by left|right; left|right; right].
      * exists si, m'. split; [|done]. eapply withdraw_other; [done|done|]. intros ->.
        destruct (so_map s (iv_slots _ _ I) _ si m Hsi Hsm) as [_ (x' & Hx' & E)]. congruence.
      * assert (m' <> m) by congruence. exists m', x'. split; [by apply settled_pending|]. by rewrite withdraw_mods.
    + right. left. destruct (si_map si) as [m'|] eqn:E; [|done]. exists si, m'. split; [|done].
      pose proof (so_max s (iv_slots _ _ I)). unfold tls_slot. by rewrite (proj2 (Z.ltb_ge max 1)) by lia.
  - intros m' [Hp' Hne]%settled_pending. destruct (iv_pend _ _ I m' Hp') as (x' & V0 & V1 & V2 & V3 & V4 & V5). exists x'.
    split; [by rewrite withdraw_mods|]. repeat (split; [done|]). intros si m2 Hj Hsm.
    destruct (withdraw_used _ si m2 Hj Hsm) as [Hj0 _]. by eapply V5.
  - intros m1 m2 x1 x2 [P1 N1]%settled_pending [P2 N2]%settled_pending. rewrite !withdraw_mods by done. by apply (iv_dist _ _ I).
  - intros Hmd m' x' Hp' _. by rewrite (settled_mode _ _ _ _ Hp') in Hmd.
  - intros j Hj. destruct (iv_limit _ _ I j Hj) as (si & m' & x' & L1 & L2 & L3 & L4 & L5). assert (m' <> m) by congruence.
    exists si, m', x'. split; [by eapply withdraw_other|]. split; [done|]. by rewrite withdraw_mods.
  - intros t th Hth. destruct (iv_threads _ _ I t th Hth) as [K G T]. split; [|done|].
    + eapply knows_slots; [exact K|done| |done]. intros j si m' x' Hj Hsm [Hne Hx']%withdraw_mods_Some _ _.
      by destruct (withdraw_used j si m' Hj Hsm).
    + intros j si Hj. change (ts_limit s') with (ts_limit s) in Hj.
      intros [[_ Hsi]|(-> & _ & Hsi)]%withdraw_slot; [by apply (T j)|]. exfalso.
      destruct (iv_limit _ _ I (tm_modid x) ltac:(lia)) as (si' & m' & x' & L1 & L2 & L3 & L4 & L5).
      assert (m' = m) as -> by (by eapply Hown). congruence.
  - apply (iv_owner _ _ I).
Qed.
End Withdraw.

(** ** Steps of threads *)
Lemma decided_same m x x' : decided m x x' -> tm_modid x' = tm_modid x /\ tm_in_slotinfo x' = tm_in_slotinfo x /\
  tm_initial x' = tm_initial x /\ (mod_ok x -> mod_ok x').
Proof. intros [->|[_ [o ->]]]; done. Qed.

Section ThreadStep.
Context (s : tls_state) (p : lphase) (s' : tls_state) (I : Inv s p).
Context (Hl : same_loader s s').
Context (Hnew : forall m x', ts_mods s' !! m = Some x' -> exists x, ts_mods s !! m = Some x /\ decided m x x').
Context (Hold : forall m x, ts_mods s !! m = Some x -> exists x', ts_mods s' !! m = Some x' /\ decided m x x').

Lemma thread_slot i : tls_slot s' i = tls_slot s i.
Proof using Hl. apply tls_slot_list. by destruct Hl as [-> _]. Qed.

Lemma thread_slots_ok : slots_ok s'.
Proof using I Hl Hnew Hold.
  destruct (iv_slots _ _ I) as [F M P N]. destruct Hl as (E1 & E2 & E3 & E4 & E5 & E6 & E7). split; rewrite ?E1, ?E2, ?E4; try done.
  - intros i si m. rewrite thread_slot. intros Hsi Hm. destruct (P i si m Hsi Hm) as (Hle & x & Hx & Hid). split; [done|].
    destruct (Hold m x Hx) as (x' & Hx' & Hd). exists x'. split; [done|]. destruct (decided_same m x x' Hd) as (-> & _). done.
  - intros m x' Hx' Hin. destruct (Hnew m x' Hx') as (x & Hx & Hd). destruct (decided_same m x x' Hd) as (D1 & D2 & D3 & D4).
    rewrite D1. setoid_rewrite thread_slot. rewrite D2 in Hin. destruct (N m x Hx Hin) as [Hok Hsi]. auto.
Qed.

Lemma thread_inv : heap_ok (ts_heap s') -> (forall t th, ts_threads s' !! t = Some th -> thread_ok s' t th) ->
  (forall q sz t m, ts_heap s' !! q = Some (mkBlock sz (ForTls t m)) -> is_Some (ts_threads s' !! t)) -> Inv s' p.
Proof using I Hl Hnew Hold.
  intros Hh Hth Hown. pose proof Hl as (E1 & E2 & E3 & E4 & E5 & E6 & E7). split; rewrite ?E2, ?E3, ?E4, ?E5, ?E6; try done.
  - apply thread_slots_ok.
  - apply (iv_gen _ _ I).
  - intros i si. rewrite thread_slot. apply (iv_gens _ _ I).
  - setoid_rewrite thread_slot. destruct (iv_top _ _ I) as [?|[?|(m & x & Hp & Hx & Hid)]]; [by left|by right; left|right; right].
    destruct (Hold m x Hx) as (x' & Hx' & Hd). exists m, x'. destruct (decided_same m x x' Hd) as (-> & _). done.
  - intros m Hm. destruct (iv_pend _ _ I m Hm) as (x & V0 & V1 & V2 & V3 & V4 & V5). destruct (Hold m x V0) as (x' & Hx' & Hd).
    destruct (decided_same m x x' Hd) as (D1 & D2 & D3 & D4). exists x'. split; [done|]. split; [auto|]. rewrite D1, D2, D3, E4.
    repeat (split; [done|]). setoid_rewrite thread_slot. done.
  - intros m m' x' y' Hm Hm' Hx' Hy'. destruct (Hnew m x' Hx') as (x & Hx & Hd). destruct (Hnew m' y' Hy') as (y & Hy & Hd').
    destruct (decided_same m x x' Hd) as (-> & _). destruct (decided_same m' y y' Hd') as (-> & _). by apply (iv_dist _ _ I).
  - intros Hmd m x' Hm Hx'. destruct (Hnew m x' Hx') as (x & Hx & Hd). destruct (decided_same m x x' Hd) as (-> & _).
    setoid_rewrite thread_slot. by apply (iv_fresh _ _ I).
  - intros i Hi. destruct (iv_limit _ _ I i Hi) as (si & m & x & L1 & L2 & L3 & L4 & L5). destruct (Hold m x L3) as (x' & Hx' & Hd).
    destruct (decided_same m x x' Hd) as (D1 & D2 & D3 & D4). exists si, m, x'. rewrite thread_slot, D2, D3. done.
Qed.

(** A thread that does nothing still knows what it knew. *)
Lemma thread_other t th : thread_ok s t th -> knows s' (fun _ g => g <= d_gen (th_dtv th)) t th (ts_heap s') -> thread_ok s' t th.
Proof using Hl.
  intros [K G T] K'. destruct Hl as (E1 & E2 & E3 & E4 & E5 & E6 & E7). split; [done|by rewrite E5|].
  rewrite E6. setoid_rewrite thread_slot. done.
Qed.
Lemma thread_bystander t0 t th : thread_ok s t th -> t <> t0 -> others_same t0 (ts_heap s) (ts_heap s') -> thread_ok s' t th.
Proof using I Hl Hnew Hold.
  intros Hok Hne Ho. apply thread_other; [done|]. pose proof Hl as (E1 & _ & _ & _ & _ & _ & E7).
  destruct (tk_knows _ _ _ Hok) as [L C O J A D].
  assert (Hh : forall q b, of_thread (mb_for b) = Some t -> ts_heap s !! q = Some b <-> ts_heap s' !! q = Some b).
  { intros q b Hb. apply Ho. rewrite Hb. congruence. }
  split; try done.
  - intros i si m x' Hs Hm Hx' Hin Hsy. rewrite thread_slot in Hs. destruct (Hnew m x' Hx') as (x & Hx & Hd).
    destruct (decided_same m x x' Hd) as (_ & D2 & _). rewrite D2 in Hin.
    destruct (C i si m x Hs Hm Hx Hin Hsy) as (e & He & Hk). exists e. split; [done|].
    destruct Hd as [->|[Hoff [o ->]]].
    + destruct Hk as [?|? ?|sz ? ? Hb ? ?]; [by apply entry_unallocated|by apply entry_static|]. eapply entry_dynamic; eauto. by apply Hh.
    + destruct Hk as [?|H1 ?|sz H1 ? ? ? ?]; [by apply entry_unallocated|..]; rewrite Hoff in H1; done.
  - intros i e He Hf. destruct (O i e He Hf) as (Hv & sz & m & Hb). split; [done|]. exists sz, m. by apply Hh.
  - intros q sz m Hq. apply (A q sz m). by apply Hh.
  - rewrite E7. destruct D as [D|[sz D]]; [by left|right]. exists sz. by apply Hh.
Qed.
End ThreadStep.

(** ** The machine *)
Section Machine.
Context (malloc : gmap Z mblock -> Z -> Z) `{!Malloc malloc}.

(** A module other threads may use: its slot belongs to a generation that has been announced. *)
Definition usable (s : tls_state) (m : mapid) (x : tmod) : Prop :=
  ts_mods s !! m = Some x /\ tm_in_slotinfo x = true /\ exists si, tls_slot s (tm_modid x) = Some si /\ si_gen si <= ts_gen s.

Inductive step : tls_state * lphase -> tls_state * lphase -> Prop :=
| step_lock s d mo pe : step (s, mkPhase false d mo pe) (s, mkPhase true d mo pe)
| step_unlock s mo pe : step (s, mkPhase true false mo pe) (s, mkPhase false false mo pe)
(* _dl_map_object_from_fd gives an object with TLS its id; a link map is a new one when no memory remembers it *)
| step_assign s d pe m x s' :
    ts_mods s !! m = None -> (forall q sz t, ts_heap s !! q <> Some (mkBlock sz (ForTls t m))) ->
    mod_ok x -> tm_in_slotinfo x = false -> tm_initial x = false -> ts_max s + 1 < 2 ^ 61 ->
    _dl_assign_tls_modid m (set_mods (<[m := x]> (ts_mods s)) s) = Ret tt s' ->
    step (s, mkPhase true d Mapping pe) (s', mkPhase true d Mapping (m :: pe))
(* relocation may give it a place in the static block *)
| step_static s p m x o :
    lp_locked p = true -> ts_mods s !! m = Some x -> tm_offset x = NO_TLS_OFFSET -> is_static o = true ->
    step (s, p) (set_mods (<[m := with_tls (set_tls_offset o) x]> (ts_mods s)) s, p)
(* resize_tls_slotinfo *)
| step_resize s p m r s' :
    lp_locked p = true -> m ∈ lp_pending p -> _dl_add_to_slotinfo malloc m false s = Ret r s' -> step (s, p) (s', p)
(* update_tls_slotinfo *)
| step_add s p m r s' :
    lp_locked p = true -> lp_mode p <> Dropping -> m ∈ lp_pending p -> ts_gen s + 1 < 2 ^ 64 ->
    _dl_add_to_slotinfo malloc m true s = Ret r s' -> step (s, p) (s', settled Publishing m p)
| step_bump s mo pe d w g s' :
    bump_generation w s = Ret g s' -> step (s, mkPhase true d mo pe) (s', mkPhase true false mo pe)
| step_update s p t th req r s' :
    lp_locked p = true -> ts_threads s !! t = Some th -> _dl_update_slotinfo malloc true t req (ts_gen s) s = Ret r s' -> step (s, p) (s', p)
| step_init_static s p m s' :
    lp_locked p = true -> _dl_init_static_tls m s = Ret tt s' -> step (s, p) (s', p)
(* _dl_close_worker, for an object of a dlopen that failed and for a published one *)
| step_drop s p m ic s' :
    lp_locked p = true -> lp_mode p <> Publishing -> m ∈ lp_pending p -> ts_gen s + 1 < 2 ^ 64 ->
    close_tls m ic s = Ret tt s' -> step (s, p) (set_mods (delete m (ts_mods s')) s', settled Dropping m p)
| step_close s d m x ic s' :
    ts_mods s !! m = Some x -> tm_in_slotinfo x = true -> tm_initial x = false -> ts_gen s + 1 < 2 ^ 64 ->
    close_tls m ic s = Ret tt s' ->
    step (s, mkPhase true d Mapping []) (set_mods (delete m (ts_mods s')) s', mkPhase true true Mapping [])
(* threads; the start of a thread takes the lock *)
| step_start s d mo pe t tcb b s' :
    ts_threads s !! t = None -> _dl_allocate_tls malloc true t tcb s = Ret b s' ->
    step (s, mkPhase false d mo pe) (s', mkPhase false d mo pe)
| step_exit s p t th s' :
    ts_threads s !! t = Some th -> _dl_deallocate_tls t s = Ret tt s' -> step (s, p) (s', p)
| step_access s p t th m x active off a s' :
    ts_threads s !! t = Some th -> usable s m x ->
    __tls_get_addr malloc true active t (tm_modid x) off s = Ret a s' -> step (s, p) (s', p).

Definition idle : lphase := mkPhase false false Mapping [].

(** The state when the program is started: no thread has a DTV yet.  The modules that are there at that time are those [init_tls] entered
    in the list of slots; instead of running it, every state with a consistent list is taken as a start, and the first thread is
    started by a step of the machine like any other. *)
Definition ready (s : tls_state) : Prop := Inv s idle /\ ts_threads s = ∅.

Definition reachable (s : tls_state) (p : lphase) : Prop := exists s0, ready s0 /\ rtc step (s0, idle) (s, p).

(** ** The invariant holds *)
Lemma inv_phase s p p' : Inv s p -> lp_dirty p' = lp_dirty p -> lp_mode p' = lp_mode p -> lp_pending p' = lp_pending p -> Inv s p'.
Proof using. intros [] E1 E2 E3. split; rewrite ?E1, ?E2, ?E3; done. Qed.

Lemma inv_bump s p w g s' : Inv s p -> bump_generation w s = Ret g s' -> Inv s' (mkPhase true false (lp_mode p) (lp_pending p)).
Proof using.
  intros I H. unfold bump_generation in H. rewrite (M_bind_step _ _ _ (ts_gen s) s) in H by done.
  destruct (Z.eqb_spec (u64 (ts_gen s + 1)) 0) as [|Hne]; [done|]. injection H as <- <-.
  pose proof (iv_gen _ _ I) as Hg.
  assert (E : u64 (ts_gen s + 1) = ts_gen s + 1).
  { apply u64_small. destruct (Z.eq_dec (ts_gen s) (2 ^ 64 - 1)) as [E|]; [|lia]. rewrite E in Hne. done. }
  rewrite E. destruct I. split; try done.
  - destruct iv_slots0. by split.
  - change (0 <= ts_gen s + 1 < 2 ^ 64). destruct (Z.eq_dec (ts_gen s) (2 ^ 64 - 1)) as [E'|]; [|lia]. rewrite E' in Hne. done.
  - intros i si Hi. cbn. pose proof (iv_gens0 i si Hi). destruct (lp_dirty p); lia.
  - intros t th Hth. destruct (iv_threads0 t th Hth) as [K G T]. split; [|cbn; lia|done].
    eapply knows_slots; [exact K|done| |done]. done.
Qed.

Lemma same_mods s s' : ts_mods s' = ts_mods s ->
  (forall m x', ts_mods s' !! m = Some x' -> exists x, ts_mods s !! m = Some x /\ decided m x x') /\
  (forall m x, ts_mods s !! m = Some x -> exists x', ts_mods s' !! m = Some x' /\ decided m x x').
Proof using. intros ->. split; intros m x Hx; exists x; (split; [done|by left]). Qed.
Lemma one_mod s s' m x x' : ts_mods s !! m = Some x -> ts_mods s' = <[m := x']> (ts_mods s) -> decided m x x' ->
  (forall m x', ts_mods s' !! m = Some x' -> exists x, ts_mods s !! m = Some x /\ decided m x x') /\
  (forall m x, ts_mods s !! m = Some x -> exists x', ts_mods s' !! m = Some x' /\ decided m x x').
Proof using.
  intros Hx -> Hd. split; intros m1 x1.
  - intros [[<- <-]|[_ H]]%lookup_insert_Some; [by eexists|]. exists x1. split; [done|by left].
  - intros H. destruct (decide (m1 = m)) as [->|Hne]; [|exists x1; rewrite lookup_insert_ne by done; split; [done|by left]].
    exists x'. rewrite lookup_insert_eq. split; [done|congruence].
Qed.

Lemma wp_wlp {A} (m : M tls_state A) (Q : A -> tls_state -> Prop) s : wp m Q s -> wlp m Q s.
Proof using. intros H a s' Ha. unfold wp in H. by rewrite Ha in H. Qed.

Lemma inv_access s p t th m x active off (Q : Z -> tls_state -> Prop) : Inv s p -> ts_threads s !! t = Some th -> usable s m x ->
  (forall e s', accessed s t th (ts_heap s) m x e s' -> Inv s' p -> Q (tls_get_addr_adjust (val e) off) s') ->
  wp (__tls_get_addr malloc true active t (tm_modid x) off) Q s.
Proof using Malloc0.
  intros I Ht (Hx & Hin & si & Hsi & Hsg) HQ. destruct (iv_threads _ _ I t th Ht) as [K G T].
  destruct (so_in s (iv_slots _ _ I) m x Hx Hin) as (_ & si' & Hsi' & Hsm). assert (si' = si) as -> by congruence.
  apply (get_addr_wp malloc s t m x si (iv_slots _ _ I) Hx Hin Hsi Hsm th); [done|done|apply (iv_heap _ _ I)|lia|done|by intros; apply (T (tm_modid x))|].
  intros e s' Ha. apply (HQ e s' Ha). destruct Ha as [Hl (th' & x' & E1 & E2 & E3 & K' & E4 & Hd & _) _ Hh Ho _].
  destruct (one_mod s s' m x x' Hx E4 Hd) as [Hnew Hold].
  apply (thread_inv s p s' I Hl Hnew Hold); [done| |].
  - intros t' th0. rewrite E1. intros [[<- <-]|[Hne Ht']]%lookup_insert_Some.
    + pose proof Hl as (_ & _ & _ & _ & Eg & El & _). split; [done|rewrite Eg; lia|]. intros i si' Hi Hs'. rewrite El in Hi.
      rewrite (thread_slot s s' Hl) in Hs'. specialize (T i si' Hi Hs'). lia.
    + apply (thread_bystander s p s' I Hl Hnew Hold t); [by apply (iv_threads _ _ I)|done|done].
  - intros q sz t' m' Hq. rewrite E1. destruct (decide (t' = t)) as [->|Hne]; [by rewrite lookup_insert_eq|].
    rewrite lookup_insert_ne by done. apply (iv_owner _ _ I q sz t' m'). apply Ho; [|done]. cbn. congruence.
Qed.

Lemma inv_update_wp s p t th req : Inv s p -> ts_threads s !! t = Some th -> req <= ts_max s ->
  wp (_dl_update_slotinfo malloc true t req (ts_gen s)) (fun _ s' => Inv s' p /\ same_loader s s' /\ ts_mods s' = ts_mods s /\ is_Some (ts_threads s' !! t)) s.
Proof using Malloc0.
  intros I Ht Hreq. destruct (iv_threads _ _ I t th Ht) as [K G T]. apply (wp_at _ _ _ _ (sp_same s t th Ht)).
  apply (update_slotinfo_wp malloc s t th (ts_heap s)); [apply (iv_slots _ _ I)|done|apply (iv_heap _ _ I)|done|].
  intros th' h' mp K' Hh' Ho Htcb Hg _ _. split; [|split; [done|split; [done|cbn; rewrite lookup_insert_eq; by eexists]]].
  destruct (same_mods s (sp s t th' h') eq_refl) as [Hnew Hold]. assert (Hl : same_loader s (sp s t th' h')) by done.
  apply (thread_inv s p _ I Hl Hnew Hold); [done| |].
  - intros t' th0. cbn. intros [[<- <-]|[Hne Ht']]%lookup_insert_Some.
    + split; [by eapply knows_slots; [exact K'|..]|cbn; lia|]. intros i si' Hi Hs'. specialize (T i si' Hi Hs'). lia.
    + apply (thread_bystander s p _ I Hl Hnew Hold t); [by apply (iv_threads _ _ I)|done|done].
  - intros q sz t' m' Hq. cbn. destruct (decide (t' = t)) as [->|Hne]; [by rewrite lookup_insert_eq|].
    rewrite lookup_insert_ne by done. apply (iv_owner _ _ I q sz t' m'). apply Ho; [|done]. cbn. congruence.
Qed.

Lemma inv_update s p t th req r s' : Inv s p -> ts_threads s !! t = Some th ->
  _dl_update_slotinfo malloc true t req (ts_gen s) s = Ret r s' -> Inv s' p.
Proof using Malloc0.
  intros I Ht H. destruct (Z.le_gt_cases req (ts_max s)) as [Hreq|Hreq].
  - pose proof (inv_update_wp s p t th req I Ht Hreq) as W. unfold wp in W. rewrite H in W. apply W.
  - assert (W : wlp (_dl_update_slotinfo malloc true t req (ts_gen s)) (fun _ s' => Inv s' p) s).
    { apply wlp_bind, wlp_get_thread. intros th0 _. destruct (d_gen (th_dtv th0) <? ts_gen s); [|by apply wlp_ret].
      apply wlp_bind, wlp_gets, wlp_bind, wlp_assert. intros Hle%Z.leb_le. lia. }
    by eapply W.
Qed.

Lemma inv_start s p t tcb b s' : Inv s p -> ts_threads s !! t = None -> _dl_allocate_tls malloc true t tcb s = Ret b s' -> Inv s' p.
Proof using Malloc0.
  intros I Ht H. eapply (allocate_tls_wlp malloc s t tcb (fun _ s' => Inv s' p)); [..|exact H].
  - apply (iv_slots _ _ I).
  - apply (iv_heap _ _ I).
  - done.
  - intros q sz m Hq. destruct (iv_owner _ _ I q sz t m Hq). congruence.
  - apply (iv_gen _ _ I).
  - done.
  - intros s1 d h' Hl Hm Eth <- K Hh Ho Hg Hall. destruct (same_mods s s1 Hm) as [Hnew Hold].
    apply (thread_inv s p s1 I Hl Hnew Hold); [done| |].
    + intros t' th0. rewrite Eth. intros [[<- <-]|[Hne Ht']]%lookup_insert_Some.
      * pose proof Hl as (_ & _ & _ & _ & Eg & El & _). split; [done|rewrite Eg; done|]. intros i si Hi Hs'. rewrite El in Hi.
        rewrite (thread_slot s s1 Hl) in Hs'. pose proof (tls_slot_range _ _ _ Hs').
        destruct (iv_limit _ _ I i ltac:(lia)) as (si' & m & x & L1 & L2 & _). assert (si' = si) as -> by congruence. by eapply Hall.
      * apply (thread_bystander s p s1 I Hl Hnew Hold t); [by apply (iv_threads _ _ I)|done|done].
    + intros q sz t' m' Hq. rewrite Eth. destruct (decide (t' = t)) as [->|Hne]; [by rewrite lookup_insert_eq|].
      rewrite lookup_insert_ne by done. apply (iv_owner _ _ I q sz t' m'). apply Ho; [|done]. cbn. congruence.
Qed.

Lemma inv_exit s p t th (Q : unit -> tls_state -> Prop) : Inv s p -> ts_threads s !! t = Some th ->
  (forall s', Inv s' p -> others_same t (ts_heap s) (ts_heap s') -> (forall q sz m, ts_heap s' !! q <> Some (mkBlock sz (ForTls t m))) ->
     ts_threads s' = delete t (ts_threads s) -> Q tt s') ->
  wp (_dl_deallocate_tls t) Q s.
Proof using.
  intros I Ht HQ. destruct (iv_threads _ _ I t th Ht) as [K G T]. eapply (deallocate_wp s _ t th); [done|exact K|apply (iv_heap _ _ I)|].
  intros h' Hh' Ho Hno. set (s' := set_threads (delete t (ts_threads s)) (set_heap h' s)).
  apply HQ; [|done|done|done]. destruct (same_mods s s' eq_refl) as [Hnew Hold]. assert (Hl : same_loader s s') by done.
  apply (thread_inv s p s' I Hl Hnew Hold); [done| |].
  - intros t' th0. cbn. intros [Hne Ht']%lookup_delete_Some. apply (thread_bystander s p s' I Hl Hnew Hold t); [by apply (iv_threads _ _ I)|congruence|done].
  - intros q sz t' m' Hq. cbn. destruct (decide (t' = t)) as [->|Hne]; [by apply Hno in Hq|].
    rewrite lookup_delete_ne by done. apply (iv_owner _ _ I q sz t' m'). apply Ho; [|done]. cbn. congruence.
Qed.

Lemma inv_drop s p m x ic s' : Inv s p -> ts_mods s !! m = Some x -> 1 <= tm_modid x -> tm_initial x = false -> ts_gen s + 1 < 2 ^ 64 ->
  (forall si m', tls_slot s (tm_modid x) = Some si -> si_map si = Some m' -> m' = m) ->
  close_tls m ic s = Ret tt s' -> Inv (set_mods (delete m (ts_mods s')) s') (settled Dropping m p).
Proof using.
  intros I Hx Hid Hini Hgen Hown H. apply (close_spec s m x ic (iv_slots _ _ I) Hx Hid) in H as (l & max & gaps & -> & H1 & H2 & H3).
  by apply (withdraw_inv s p m x l max gaps).
Qed.

Lemma inv_add s p m r s' b : Inv s p -> m ∈ lp_pending p -> _dl_add_to_slotinfo malloc m b s = Ret r s' ->
  ts_gen s + 1 < 2 ^ 64 \/ b = false -> lp_mode p <> Dropping \/ b = false -> Inv s' (if b then settled Publishing m p else p).
Proof using Malloc0.
  intros I Hp H Hgen Hmode. destruct (iv_pend _ _ I m Hp) as (x & Hw). pose proof Hw as (W0 & W1 & W2 & W3 & W4 & W5).
  pose proof (so_max s (iv_slots _ _ I)) as Hmx.
  apply (add_spec malloc s m x b (iv_slots _ _ I) (iv_heap _ _ I) W0 W1 W2 ltac:(lia)) in H as (l & h & Hroom & ->).
  pose proof (room_inv s p (tm_modid x) l h I Hroom) as I2. destruct b; [|done].
  destruct Hgen as [Hgen|]; [|done]. destruct Hmode as [Hmode|]; [|done].
  set (s2 := set_list l (set_heap h s)) in *.
  assert (Hw2 : waiting s2 m x).
  { repeat (split; [done|]). intros si m' [Hj| ->]%(room_slot s (tm_modid x) l h Hroom) Hsm; [by eapply W5|done]. }
  exact (publish_inv s2 p m x I2 Hw2 Hp (room_len _ _ _ _ Hroom) Hgen Hmode).
Qed.

Lemma inv_writes s p ws : Inv s p -> Inv (set_writes ws s) p.
Proof using.
  intros I. assert (Hl : same_loader s (set_writes ws s)) by done. destruct (same_mods s (set_writes ws s) eq_refl) as [Hnew Hold].
  apply (thread_inv s p _ I Hl Hnew Hold); [apply (iv_heap _ _ I)| |apply (iv_owner _ _ I)].
  intros t th Ht. apply (thread_other s _ Hl); [by apply (iv_threads _ _ I)|]. destruct (iv_threads _ _ I t th Ht) as [K _ _].
  by eapply knows_slots; [exact K|..].
Qed.

Lemma inv_static s p m x o : Inv s p -> ts_mods s !! m = Some x -> tm_offset x = NO_TLS_OFFSET ->
  Inv (set_mods (<[m := with_tls (set_tls_offset o) x]> (ts_mods s)) s) p.
Proof using.
  intros I Hx Ho. set (s' := set_mods _ s). assert (Hl : same_loader s s') by done.
  assert (Hd : decided m x (with_tls (set_tls_offset o) x)) by (right; eauto).
  destruct (one_mod s s' m x _ Hx eq_refl Hd) as [Hnew Hold].
  apply (thread_inv s p _ I Hl Hnew Hold); [apply (iv_heap _ _ I)| |apply (iv_owner _ _ I)].
  intros t th Ht. apply (thread_other s _ Hl); [by apply (iv_threads _ _ I)|]. destruct (iv_threads _ _ I t th Ht) as [K _ _].
  by apply (knows_decided s s' _ t th _ m x _ K Hl Hx eq_refl Hd).
Qed.

Lemma init_static_writes s m s' : _dl_init_static_tls m s = Ret tt s' -> exists ws, s' = set_writes ws s.
Proof using.
  intros H. assert (W : wlp (_dl_init_static_tls m) (fun _ s' => exists ws, s' = set_writes ws s) s).
  { apply wlp_bind, wlp_get_mod. intros x _. apply wlp_bind, wlp_gets, wlp_modify.
    induction ((map_to_list (ts_threads s)).*2) as [|th ths [ws E]]; cbn [foldr]; [exists (ts_writes s); by destruct s|].
    rewrite E. by eexists. }
  by eapply W.
Qed.

Lemma step_inv c c' : step c c' -> Inv c.1 c.2 -> Inv c'.1 c'.2.
Proof using Malloc0.
  intros H I. destruct H; cbn [fst snd] in *.
  - by eapply inv_phase.
  - by eapply inv_phase.
  - set (s1 := set_mods (<[m := x]> (ts_mods s)) s) in *.
    assert (Hs1 : slots_ok s1).
    { destruct (iv_slots _ _ I) as [F M P N]. split; try done.
      - intros i si m' Hsi Hsm. destruct (P i si m' Hsi Hsm) as (? & x' & Hx' & ?). split; [done|]. exists x'. split; [|done].
        cbn. rewrite lookup_insert_ne; [done|congruence].
      - intros m' x'. cbn. intros [[<- <-]|[_ Hx']]%lookup_insert_Some Hi; [congruence|by apply (N m' x')]. }
    destruct (assign_spec s1 m x Hs1) with (a := tt) (s' := s') as (i & Ha); [by cbn; rewrite lookup_insert_eq| |done|].
    + intros Hg. by apply (max_in_list s _ I).
    + by apply (assign_inv s (mkPhase true d Mapping pe) m x i s').
  - by apply inv_static.
  - apply (inv_add s p m r s' false I); auto.
  - apply (inv_add s p m r s' true I); auto.
  - by apply (inv_bump s (mkPhase true d mo pe) w g s').
  - by eapply inv_update.
  - destruct (init_static_writes s m s' ltac:(done)) as [ws ->]. by apply inv_writes.
  - destruct (iv_pend _ _ I m ltac:(done)) as (x & W0 & W1 & W2 & W3 & W4 & W5). pose proof (so_max s (iv_slots _ _ I)).
    apply (inv_drop s p m x ic); [done|done|lia|done|done|done|done].
  - destruct (so_in s (iv_slots _ _ I) m x ltac:(done) ltac:(done)) as (_ & si & Hsi & Hsm).
    apply (inv_drop s (mkPhase true d Mapping []) m x ic); try done.
    + apply tls_slot_range in Hsi. lia.
    + intros si' m' Hsi' Hsm'. congruence.
  - by eapply inv_start.
  - eapply (wp_wlp _ (fun _ s' => Inv s' p)); [|done]. by apply (inv_exit s p t th).
  - eapply (wp_wlp _ (fun _ s' => Inv s' p)); [|done]. by apply (inv_access s p t th m x).
Qed.

Lemma reachable_inv s p : reachable s p -> Inv s p.
Proof using Malloc0.
  intros (s0 & [I _] & H). change (Inv (s, p).1 (s, p).2). remember (s0, idle) as c eqn:Ec.
  assert (Hc : Inv c.1 c.2) by (by rewrite Ec). clear Ec I. induction H as [c|c c1 c2 H _ IH]; [done|].
  apply IH. by eapply step_inv.
Qed.
End Machine.
