(* ===== verification/DynTlsSafety.v ===== *)
(** * Dynamic thread-local storage: theorems

    Whatever the loader and the threads do, in any order: an access returns the block of
    the thread for the module, blocks of different threads or modules do not overlap, and the end of a
    thread gives back its blocks. *)

From S2P Require Import Prelude LinkMap TlsOffset LoadCmds DynTls TlsSlots DynTlsSpec DynTlsThread DynTlsLoader DynTlsMachine.

(** ** Access *)

(** The access of thread [t] to the variable at [off] of module [m] returned [a]: it is in
    the static block of the thread, or in a block of memory that was requested for this thread and this
    module, which is large enough for the module; a new block holds the module's initial
    image. *)
Definition served (s : tls_state) (t : Z) (th : thread) (m : mapid) (x : tmod) (off a : Z) (s' : tls_state) : Prop :=
  exists th' e, ts_threads s' !! t = Some th' /\ d_ent (th_dtv th') !! Z.to_nat (tm_modid x) = Some e /\ a = u64 (val e + off) /\
  (is_static (tm_offset x) = true /\ val e = u64 (th_tcb th - tm_offset x) \/
   exists sz, ts_heap s' !! to_free e = Some (mkBlock sz (ForTls t m)) /\ to_free e <= val e /\ val e + tm_blocksize x <= to_free e + sz /\
     (d_ent (th_dtv th) !! Z.to_nat (tm_modid x) = Some e /\ ts_writes s' = ts_writes s \/
      ts_writes s' = ts_writes s ++ [(val e, init_bytes x)])).

Lemma accessed_served s t th m x e off s' : accessed s t th (ts_heap s) m x e s' -> served s t th m x off (tls_get_addr_adjust (val e) off) s'.
Proof.
  intros [Hl (th' & x' & E1 & E2 & E3 & K' & E4 & Hd & E5 & Hok) Hsv Hh Ho Hw]. exists th', e. rewrite E1, lookup_insert_eq.
  split; [done|]. split; [done|]. split; [done|]. destruct Hsv as [[Hst ->]|Hf]; [by left|right].
  destruct Hok as [->|_ ->|sz _ _ Hb H1 H2]; [done|done|]. exists sz. split; [done|]. split; [done|].
  split; [by destruct Hd as [->|[_ [o ->]]]|]. destruct Hw as [[Hw He]|[Hw _]]; [left; auto|by right].
Qed.

(** C35. A thread gets its own block: in every state the loader and the threads can reach, [__tls_get_addr] for a
    module that is loaded returns an address in the block of the calling thread for
    this very module, never in a block of a module that had the same id before or of another thread, and
    allocates and initialises that block when it is used for the first time; the only other outcome is
    that the process ends for lack of memory. *)
Theorem tls_access_own_block malloc `{!Malloc malloc} s p t th m x active off :
  reachable malloc s p -> ts_threads s !! t = Some th -> usable s m x ->
  match __tls_get_addr malloc true active t (tm_modid x) off s with
  | Ret a s' => served s t th m x off a s' /\ reachable malloc s' p
  | Stop e => e = no_memory
  | _ => False
  end.
Proof.
  intros Hr Ht Hu. pose proof (reachable_inv malloc s p Hr) as I.
  pose proof (inv_access malloc s p t th m x active off (fun a s' => served s t th m x off a s') I Ht Hu
    (fun e s' Ha _ => accessed_served s t th m x e off s' Ha)) as W. unfold wp in W.
  destruct (__tls_get_addr malloc true active t (tm_modid x) off s) as [a s'| |e| |] eqn:E; try done.
  split; [done|]. destruct Hr as (s0 & H0 & Hr). exists s0. split; [done|]. eapply rtc_r; [exact Hr|]. by eapply step_access.
Qed.

(** ** Separation *)

(** Blocks are apart: in every reachable state two DTV entries with memory of their own, of different threads
    or of different modules, refer to memory requested for the thread in question, and the two pieces of memory do not
    overlap. *)
Theorem tls_blocks_apart malloc `{!Malloc malloc} s p t th i e t' th' i' e' :
  reachable malloc s p -> ts_threads s !! t = Some th -> ts_threads s !! t' = Some th' ->
  d_ent (th_dtv th) !! S i = Some e -> d_ent (th_dtv th') !! S i' = Some e' -> to_free e <> 0 -> to_free e' <> 0 -> (t, i) <> (t', i') ->
  exists sz m sz' m', ts_heap s !! to_free e = Some (mkBlock sz (ForTls t m)) /\ ts_heap s !! to_free e' = Some (mkBlock sz' (ForTls t' m')) /\
    (to_free e + sz <= to_free e' \/ to_free e' + sz' <= to_free e).
Proof.
  intros Hr Ht Ht' He He' Hf Hf' Hne. pose proof (reachable_inv malloc s p Hr) as I.
  destruct (iv_threads _ _ I t th Ht) as [K _ _]. destruct (iv_threads _ _ I t' th' Ht') as [K' _ _].
  destruct (kn_own _ _ _ _ _ K i e He Hf) as (_ & sz & m & Hb). destruct (kn_own _ _ _ _ _ K' i' e' He' Hf') as (_ & sz' & m' & Hb').
  exists sz, m, sz', m'. split; [done|]. split; [done|].
  apply (hp_apart _ (iv_heap _ _ I) _ _ _ _ Hb Hb'). intros E. destruct (decide (t = t')) as [->|Ht0].
  - assert (th' = th) as -> by congruence. apply Hne. f_equal. by apply (kn_inj _ _ _ _ _ K i i' e e').
  - congruence.
Qed.

(** ** The end of a thread *)
Definition no_stop {A} (m : M tls_state A) : Prop := forall s w, m s <> Stop w.
Lemma no_stop_bind {A B} (m : M tls_state A) (k : A -> M tls_state B) : no_stop m -> (forall a, no_stop (k a)) -> no_stop (m ≫= k).
Proof. intros H1 H2 s w. unfold mbind, M_bind. specialize (H1 s). destruct (m s) as [a s'|? ? ?|e| |]; try done; [apply H2|]. by destruct (H1 e). Qed.
Lemma no_stop_gets {A} (f : tls_state -> A) : no_stop (gets f).
Proof. done. Qed.
Lemma no_stop_modify f : no_stop (modify f).
Proof. done. Qed.
Lemma no_stop_free q : no_stop (c_free q).
Proof. unfold c_free. destruct (q =? 0); [done|]. apply no_stop_bind; [done|]. intros h. by destruct (h !! q). Qed.
Lemma no_stop_get_thread t : no_stop (get_thread t).
Proof. apply no_stop_bind; [done|]. intros ths. by destruct (ths !! t). Qed.
Lemma no_stop_deallocate t : no_stop (_dl_deallocate_tls t).
Proof.
  apply no_stop_bind; [apply no_stop_get_thread|]. intros th. apply no_stop_bind.
  - induction (tail (d_ent (th_dtv th))) as [|e es IH]; cbn [free_entries]; [done|]. apply no_stop_bind; [apply no_stop_free|done].
  - intros _. apply no_stop_bind; [done|]. intros init. apply no_stop_bind; [|done]. destruct (_ =? _); [done|apply no_stop_free].
Qed.

(** The end of a thread: [_dl_deallocate_tls] always returns (it never frees a block twice or one it does not own),
    afterwards no memory of a TLS block of the thread is left, and the blocks of all other threads are as before. *)
Theorem tls_exit_frees_blocks malloc `{!Malloc malloc} s p t th :
  reachable malloc s p -> ts_threads s !! t = Some th ->
  exists s', _dl_deallocate_tls t s = Ret tt s' /\ reachable malloc s' p /\
    (forall q sz m, ts_heap s' !! q <> Some (mkBlock sz (ForTls t m))) /\
    (forall q sz t' m, t' <> t -> ts_heap s !! q = Some (mkBlock sz (ForTls t' m)) <-> ts_heap s' !! q = Some (mkBlock sz (ForTls t' m))).
Proof.
  intros Hr Ht. pose proof (reachable_inv malloc s p Hr) as I.
  pose proof (inv_exit s p t th (fun _ s' => others_same t (ts_heap s) (ts_heap s') /\ forall q sz m, ts_heap s' !! q <> Some (mkBlock sz (ForTls t m))) I Ht
    (fun s' _ Ho Hn _ => conj Ho Hn)) as W. unfold wp in W. pose proof (no_stop_deallocate t s) as Hns.
  destruct (_dl_deallocate_tls t s) as [[] s'| |e| |] eqn:E; try done; [|by destruct (Hns e)].
  destruct W as [Ho Hn]. exists s'. split; [done|]. split; [|split; [done|]].
  - destruct Hr as (s0 & H0 & Hr). exists s0. split; [done|]. eapply rtc_r; [exact Hr|]. by eapply step_exit.
  - intros q sz t' m Hne. apply Ho. cbn. congruence.
Qed.

(** ** Module ids *)

(** Ids are unique: in every reachable state two modules in the slots have different ids. *)
Theorem tls_modids_unique malloc `{!Malloc malloc} s p m x m' x' :
  reachable malloc s p -> ts_mods s !! m = Some x -> ts_mods s !! m' = Some x' ->
  tm_in_slotinfo x = true -> tm_in_slotinfo x' = true -> tm_modid x = tm_modid x' -> m = m' /\ 1 <= tm_modid x <= ts_max s.
Proof.
  intros Hr Hx Hx' Hi Hi' E. pose proof (iv_slots _ _ (reachable_inv malloc s p Hr)) as Hs.
  destruct (so_in s Hs m x Hx Hi) as (_ & si & Hsi & Hsm). destruct (so_in s Hs m' x' Hx' Hi') as (_ & si' & Hsi' & Hsm').
  rewrite E, Hsi' in Hsi. injection Hsi as ->. split; [congruence|]. destruct (so_map s Hs _ _ _ Hsi' Hsm') as [Hle _].
  apply tls_slot_range in Hsi'. lia.
Qed.

(** ** A failed [dlopen] at the end of the list *)
Lemma remove_overrun nelem gen max gaps idx blocks : forall disp, 0 <= disp -> blocks <> [] -> disp + list_len blocks < idx ->
  (disp = 0 -> exists b r, blocks = b :: r /\ 1 + nelem <= Z.of_nat (length b)) -> 0 <= nelem ->
  remove_slotinfo nelem gen max gaps false idx blocks disp = Undef.
Proof.
  induction blocks as [|b next IH]; intros disp Hd Hne Hlt Hfirst Hn; [done|]. rewrite list_len_cons in Hlt.
  pose proof (list_len_nonneg next). cbn [remove_slotinfo]. rewrite (proj2 (Z.leb_le (Z.of_nat (length b)) (idx - disp))) by lia.
  set (lim := if disp =? 0 then 1 + nelem else 0).
  assert (Hlim : 0 <= lim <= Z.of_nat (length b)).
  { unfold lim. destruct (Z.eqb_spec disp 0) as [->|]; [|lia]. destruct Hfirst as (b' & r & [= <- <-] & ?); [done|]. lia. }
  destruct next as [|b2 next].
  - unfold c_assert. cbn [negb]. rewrite bind_ret.
    destruct (Z.to_nat (idx - disp - lim)) as [|n] eqn:En; [unfold list_len in Hlt; cbn in Hlt; lia|]. cbn [last_used].
    assert (E : rd b (lim + Z.of_nat n) = Undef).
    { unfold rd. rewrite (proj2 (Z.ltb_ge _ 0)) by lia. rewrite lookup_ge_None_2; [done|]. unfold list_len in Hlt. cbn in Hlt. lia. }
    by rewrite E.
  - rewrite IH; [done|lia|done|lia| |lia]. intros E. destruct (Z.eqb_spec disp 0) as [->|]; [|lia]. unfold lim in Hlim. lia.
Qed.

(** Memory behind the list is read: when a [dlopen] fails and a module that is withdrawn has an id more than one behind the end of
    the slotinfo list (the list is only extended after the objects are relocated), the search for the last used
    slot begins behind the array. *)
Theorem failed_open_reads_behind_list s m x : slots_ok s -> ts_mods s !! m = Some x ->
  list_len (ts_list s) < tm_modid x -> close_tls m false s = Wild.
Proof.
  intros Hs Hx Hlt. destruct (so_first s Hs) as (b & r & Hl & Hb). pose proof (so_max s Hs).
  unfold close_tls. rewrite (M_bind_step _ _ _ s s) by done. rewrite (M_bind_step _ _ _ x s); [|unfold get_mod; rewrite (M_bind_step _ _ _ (ts_mods s) s) by done; by rewrite Hx].
  rewrite Hl. rewrite <- Hl.
  assert (E : remove_slotinfo (ts_nelem s) (ts_gen s) (ts_max s) (ts_gaps s) false (tm_modid x) (ts_list s) 0 = Undef).
  { apply remove_overrun; [lia|by rewrite Hl|lia|eauto|lia]. }
  unfold id. rewrite E. done.
Qed.

(** ** Instances *)
Module Example16.
(** An allocator that puts a new block behind all others. *)
Definition heap_end (h : gmap Z mblock) : Z := map_fold (fun p b e => Z.max e (p + mb_size b)) 16 h.
Definition bump_malloc (h : gmap Z mblock) (n : Z) : Z :=
  let p := (heap_end h + 15) / 16 * 16 in if p + n <? 2 ^ 64 then p else 0.

Lemma heap_end_spec h : 16 <= heap_end h /\ forall q b, h !! q = Some b -> q + mb_size b <= heap_end h.
Proof.
  unfold heap_end. apply (map_fold_weak_ind (fun e m => 16 <= e /\ forall q b, m !! q = Some b -> q + mb_size b <= e)).
  - split; [done|]. intros q b. by rewrite lookup_empty.
  - intros i x m r _ [H1 H2]. split; [lia|]. intros q b [[-> ->]|[_ Hb]]%lookup_insert_Some; [lia|]. specialize (H2 q b Hb). lia.
Qed.

#[export] Instance bump_malloc_ok : Malloc bump_malloc.
Proof.
  split. intros h n Hn. unfold bump_malloc. destruct (heap_end_spec h) as [H1 H2].
  set (p := (heap_end h + 15) / 16 * 16). assert (Hp : heap_end h <= p) by (unfold p; pose proof (Z.div_mod (heap_end h + 15) 16); pose proof (Z.mod_pos_bound (heap_end h + 15) 16); lia).
  destruct (Z.ltb_spec (p + n) (2 ^ 64)); [|done]. intros _. split; [lia|]. split; [lia|]. split; [apply Z_mod_mult|].
  intros q b Hb. right. specialize (H2 q b Hb). lia.
Qed.

(** The program (module 1) has thread-local variables in the static block; module 5 is a plugin. *)
Definition program : tmod := mkMod (LinkMap.mkTls 48 16 0 64 1 false) [1; 2; 3] true 0 true.
Definition plugin : tmod := mkMod (LinkMap.mkTls 32 16 0 NO_TLS_OFFSET 0 false) [7; 8] false 0 false.
Definition s0 : tls_state :=
  mkTls [mkSI 0 None :: mkSI 1 (Some 1%nat) :: replicate 62 (mkSI 0 None)] 1 false 1 1 2 0 {[ 1%nat := program ]} ∅ ∅ [].

Lemma s0_slot i si : tls_slot s0 i = Some si -> i = 1 /\ si = mkSI 1 (Some 1%nat) \/ si = mkSI 0 None.
Proof.
  unfold tls_slot. destruct (Z.ltb_spec i 1); [done|]. cbn [s0 ts_list concat]. rewrite app_nil_r.
  destruct (Z.to_nat i) as [|[|n]] eqn:E; [lia|left|right]; cbn [lookup list_lookup] in *.
  - split; [lia|]. congruence.
  - by apply lookup_replicate in H0 as [-> _].
Qed.
Lemma s0_mod m x : ts_mods s0 !! m = Some x -> m = 1%nat /\ x = program.
Proof. cbn [s0 ts_mods]. by intros [<- <-]%lookup_singleton_Some. Qed.

Lemma s0_ready : ready s0.
Proof.
  split; [|done]. split; cbn [lp_dirty lp_mode lp_pending idle].
  - split.
    + eexists _, _. split; [done|]. vm_compute. congruence.
    + done.
    + intros i si m [[-> ->]| ->]%s0_slot Hm; [|done]. injection Hm as <-. split; [done|]. by exists program.
    + intros m x [-> ->]%s0_mod _. split; [by split|]. by exists (mkSI 1 (Some 1%nat)).
  - split; intros p b; cbn; by rewrite lookup_empty.
  - done.
  - intros i si [[-> ->]| ->]%s0_slot; by vm_compute.
  - by left.
  - intros m Hm. by apply elem_of_nil in Hm.
  - intros m m' x x' Hm. by apply elem_of_nil in Hm.
  - intros _ m x Hm. by apply elem_of_nil in Hm.
  - intros i Hi. change (1 <= i < 2) in Hi. assert (i = 1) as -> by lia. by exists (mkSI 1 (Some 1%nat)), 1%nat, program.
  - intros t th. cbn. by rewrite lookup_empty.
  - intros q sz t m. cbn. by rewrite lookup_empty.
Qed.

(** The state after an operation that returned. *)
Definition returned {A} (o : outcome tls_state A) : bool := match o with Ret _ _ => true | _ => false end.
Definition after {A} (m : M tls_state A) (s : tls_state) : tls_state := match m s with Ret _ s' => s' | _ => s end.
Lemma after_spec {A} (m : M tls_state A) s : returned (m s) = true -> exists a, m s = Ret a (after m s).
Proof. unfold after. destruct (m s); try done. eauto. Qed.
Lemma after_unit (m : M tls_state unit) s : returned (m s) = true -> m s = Ret tt (after m s).
Proof. intros [[] H]%after_spec. done. Qed.

(** Two threads start, the plugin is loaded, both threads use its variable at offset 8. *)
Definition locked : lphase := mkPhase true false Mapping [].
Definition s1 := after (_dl_allocate_tls bump_malloc true 100 0x100000) s0.
Definition s2 := after (_dl_allocate_tls bump_malloc true 101 0x200000) s1.
Definition s3 := after (_dl_assign_tls_modid 5%nat) (set_mods (<[5%nat := plugin]> (ts_mods s2)) s2).
Definition s4 := after (_dl_add_to_slotinfo bump_malloc 5%nat true) s3.
Definition s5 := after (bump_generation "wrapped") s4.
Definition s6 := after (__tls_get_addr bump_malloc true false 100 2 8) s5.
Definition s7 := after (__tls_get_addr bump_malloc true false 101 2 8) s6.

Definition plugin2 : tmod := mkMod (LinkMap.mkTls 32 16 0 NO_TLS_OFFSET 2 false) [7; 8] true 0 false.

Lemma s2_reachable : reachable bump_malloc s2 idle.
Proof.
  exists s0. split; [apply s0_ready|]. eapply rtc_l; [|eapply rtc_l; [|apply rtc_refl]].
  - destruct (after_spec (_dl_allocate_tls bump_malloc true 100 0x100000) s0) as [b E]; [by vm_compute|]. by apply (step_start _ s0 false Mapping [] 100 0x100000 b s1).
  - destruct (after_spec (_dl_allocate_tls bump_malloc true 101 0x200000) s1) as [b E]; [by vm_compute|].
    apply (step_start _ s1 false Mapping [] 101 0x200000 b s2); [by vm_compute|exact E].
Qed.

Definition no_tls_blocks (h : gmap Z mblock) : bool :=
  forallb (fun '(_, b) => match mb_for b with ForTls _ _ => false | _ => true end) (map_to_list h).
Lemma no_tls_blocks_spec h : no_tls_blocks h = true -> forall q sz t m, h !! q <> Some (mkBlock sz (ForTls t m)).
Proof.
  intros H q sz t m Hq. apply elem_of_map_to_list, list_elem_of_In in Hq.
  unfold no_tls_blocks in H. rewrite forallb_forall in H. by apply H in Hq.
Qed.

Lemma s3_reachable : reachable bump_malloc s3 (mkPhase true false Mapping [5%nat]).
Proof.
  destruct s2_reachable as (z & Hz & Hr). exists z. split; [done|]. etrans; [exact Hr|].
  eapply rtc_l; [apply step_lock|]. eapply rtc_l; [|apply rtc_refl].
  apply (step_assign _ s2 false [] 5%nat plugin s3); [by vm_compute|intros q sz t; apply no_tls_blocks_spec; by vm_compute|by vm_compute|done|done|by vm_compute|].
  apply after_unit. by vm_compute.
Qed.

Lemma s5_reachable : reachable bump_malloc s5 idle.
Proof.
  destruct s3_reachable as (z & Hz & Hr). exists z. split; [done|]. etrans; [exact Hr|].
  eapply rtc_l.
  { destruct (after_spec (_dl_add_to_slotinfo bump_malloc 5%nat true) s3) as [b E]; [by vm_compute|].
    apply (step_add _ s3 (mkPhase true false Mapping [5%nat]) 5%nat b s4); [done|done|by left|by vm_compute|exact E]. }
  eapply rtc_l.
  { destruct (after_spec (bump_generation "wrapped") s4) as [g E]; [by vm_compute|].
    exact (step_bump _ s4 Mapping [] true "wrapped" g s5 E). }
  eapply rtc_l; [apply step_unlock|]. apply rtc_refl.
Qed.

Lemma s5_usable : usable s5 5%nat plugin2.
Proof. split; [by vm_compute|]. split; [done|]. exists (mkSI 2 (Some 5%nat)). by vm_compute. Qed.

Definition thread_of (s : tls_state) (t : Z) : thread :=
  match ts_threads s !! t with Some th => th | None => mkThread 0 (mkDtv 0 0 0 []) end.

(** The first access of thread 100 allocates the block, at 560. *)
Lemma tls_access_own_block_witness :
  served s5 100 (thread_of s5 100) 5%nat plugin2 8 568 s6 /\ reachable bump_malloc s6 idle.
Proof.
  pose proof (tls_access_own_block bump_malloc s5 idle 100 (thread_of s5 100) 5%nat plugin2 false 8 s5_reachable ltac:(by vm_compute) s5_usable) as H.
  change (tm_modid plugin2) with 2 in H.
  destruct (after_spec (__tls_get_addr bump_malloc true false 100 2 8) s5 ltac:(by vm_compute)) as [a E]. rewrite E in H.
  assert (a = 568) as -> by (cut (Some a = Some 568); [congruence|]; transitivity (match __tls_get_addr bump_malloc true false 100 2 8 s5 with Ret a _ => Some a | _ => None end); [by rewrite E|by vm_compute]).
  exact H.
Defined.

Lemma s6_usable : usable s6 5%nat (with_tls (set_tls_offset FORCED_DYNAMIC_TLS_OFFSET) plugin2).
Proof. split; [by vm_compute|]. split; [done|]. exists (mkSI 2 (Some 5%nat)). by vm_compute. Qed.
Lemma s7_reachable : reachable bump_malloc s7 idle.
Proof.
  destruct s5_reachable as (z & Hz & Hr). exists z. split; [done|]. etrans; [exact Hr|]. eapply rtc_l; [|eapply rtc_l; [|apply rtc_refl]].
  - destruct (after_spec (__tls_get_addr bump_malloc true false 100 2 8) s5 ltac:(by vm_compute)) as [a E].
    apply (step_access _ s5 idle 100 (thread_of s5 100) 5%nat plugin2 false 8 a s6); [vm_compute; reflexivity|apply s5_usable|exact E].
  - destruct (after_spec (__tls_get_addr bump_malloc true false 101 2 8) s6 ltac:(by vm_compute)) as [a E].
    apply (step_access _ s6 idle 101 (thread_of s6 101) 5%nat (with_tls (set_tls_offset FORCED_DYNAMIC_TLS_OFFSET) plugin2) false 8 a s7); [vm_compute; reflexivity|apply s6_usable|exact E].
Qed.

Lemma tls_blocks_apart_witness : exists sz m sz' m',
  ts_heap s7 !! 560 = Some (mkBlock sz (ForTls 100 m)) /\ ts_heap s7 !! 592 = Some (mkBlock sz' (ForTls 101 m')) /\ (560 + sz <= 592 \/ 592 + sz' <= 560).
Proof.
  apply (tls_blocks_apart bump_malloc s7 idle 100 (thread_of s7 100) 1 (mkPtr 560 560) 101 (thread_of s7 101) 1 (mkPtr 592 592) s7_reachable);
    [by vm_compute..|done|done|done].
Defined.

Lemma tls_exit_frees_blocks_witness : ts_heap s7 !! 560 = Some (mkBlock 32 (ForTls 100 5%nat)) /\
  exists s', _dl_deallocate_tls 100 s7 = Ret tt s' /\ reachable bump_malloc s' idle /\
    (forall q sz m, ts_heap s' !! q <> Some (mkBlock sz (ForTls 100 m))) /\
    (forall q sz t' m, t' <> 100 -> ts_heap s7 !! q = Some (mkBlock sz (ForTls t' m)) <-> ts_heap s' !! q = Some (mkBlock sz (ForTls t' m))).
Proof.
  split; [by vm_compute|].
  apply (tls_exit_frees_blocks bump_malloc s7 idle 100 (thread_of s7 100) s7_reachable). by vm_compute.
Defined.

Lemma tls_modids_unique_witness : 5%nat = 5%nat /\ 1 <= tm_modid plugin2 <= ts_max s5.
Proof.
  apply (tls_modids_unique bump_malloc s5 idle 5%nat plugin2 5%nat plugin2 s5_reachable); by vm_compute.
Defined.

(** A process whose slots are all in use gets two plugins in one [dlopen], which fails before the list is extended:
    the ids are 2 and 3, the list has two entries. *)
Definition opening : tmod := mkMod (LinkMap.mkTls 32 16 0 NO_TLS_OFFSET 0 false) [] false 0 false.
Definition full : tls_state := mkTls [[mkSI 0 None; mkSI 1 (Some 1%nat)]] 1 false 1 1 2 0 {[ 1%nat := program ]} ∅ ∅ [].
Definition opened : tls_state := after (_dl_assign_tls_modid 5%nat ;; _dl_assign_tls_modid 6%nat)
  (set_mods (<[6%nat := opening]> (<[5%nat := opening]> (ts_mods full))) full).

Lemma opened_ok : slots_ok opened.
Proof.
  assert (Hsl : forall i si, tls_slot opened i = Some si -> i = 1 /\ si = mkSI 1 (Some 1%nat)).
  { intros i si. unfold tls_slot. destruct (Z.ltb_spec i 1); [done|]. change (concat (ts_list opened)) with [mkSI 0 None; mkSI 1 (Some 1%nat)].
    destruct (Z.to_nat i) as [|[|[|n]]] eqn:E; try done; [lia|]. intros [= <-]. split; [lia|done]. }
  split.
  - by eexists _, _.
  - by vm_compute.
  - intros i si m [-> ->]%Hsl [= <-]. split; [by vm_compute|]. by exists program.
  - assert (E : ts_mods opened = <[6%nat := with_tls (with_modid 3) opening]> (<[5%nat := with_tls (with_modid 2) opening]> {[ 1%nat := program ]})) by (by vm_compute).
    intros m x. rewrite E. intros [[<- <-]|[_ [[<- <-]|[_ [<- <-]%lookup_singleton_Some]]%lookup_insert_Some]]%lookup_insert_Some Hin; try done.
    split; [by split|]. by exists (mkSI 1 (Some 1%nat)).
Qed.

Lemma failed_open_reads_behind_list_witness : close_tls 6%nat false opened = Wild.
Proof. apply (failed_open_reads_behind_list opened 6%nat (with_tls (with_modid 3) opening) opened_ok); by vm_compute. Defined.
End Example16.
