(* ===== verification/SortMaps.v ===== *)
(** * Sorting objects by their dependencies

    [dfs_traversal], [_dl_sort_maps_dfs], [_dl_sort_maps_original] and
    [_dl_sort_maps] of [elf/dl-sort-maps.c].  The bit [l_visited] of the
    objects is the set [d_vis]; the array that is filled from its end is
    [d_rpo], with the capacity of the array checked at each store. *)

From S2P Require Import Prelude LinkMap.

(** What the sort reads of the objects. *)
Record graph := mkGraph {
  g_initfini : mapid -> option (list mapid);
  g_reldeps : mapid -> option (list mapid);
  g_faked : mapid -> bool;
  g_main : mapid -> bool;
  g_proxy : mapid -> bool;      (* map != map->l_real *)
  g_idx : mapid -> Z }.

(** ** The depth-first sort *)

(** The state of the traversal; [d_rel] is [None] when [do_reldeps] is a null pointer. *)
Record dst := mkDst { d_vis : gset mapid; d_rpo : list mapid; d_rel : option bool }.

Section Dfs.
Context (g : graph) (nmaps : nat).

Definition visit (m : mapid) (st : dst) : dst := mkDst ({[m]} ∪ d_vis st) (d_rpo st) (d_rel st).
Definition found_reldeps (st : dst) : dst := mkDst (d_vis st) (d_rpo st) (Some true).

(** [*rpo -= 1; **rpo = map;] *)
Definition put (m : mapid) (st : dst) : res dst :=
  if (nmaps <=? length (d_rpo st))%nat then Undef
  else Ok (mkDst (d_vis st) (m :: d_rpo st) (d_rel st)).

(** The loop over a list of dependencies. *)
Fixpoint each_dep (f : mapid -> dst -> res dst) (deps : list mapid) (st : dst) : res dst :=
  match deps with
  | [] => Ok st
  | dep :: deps' =>
      st ← (if bool_decide (dep ∈ d_vis st) || g_main g dep then Ok st else f dep st);
      each_dep f deps' st
  end.

Fixpoint dfs_traversal (fuel : nat) (map : mapid) (st : dst) : res dst :=
  match fuel with
  | O => Diverge
  | S fuel =>
      if bool_decide (map ∈ d_vis st) || g_faked g map then Ok st
      else
        st ← each_dep (dfs_traversal fuel) (default [] (g_initfini g map)) (visit map st);
        st ← match d_rel st, g_reldeps g map with
             | Some _, Some l => each_dep (dfs_traversal fuel) (reverse l) (found_reldeps st)
             | _, _ => Ok st
             end;
        put map st
  end.

(** [for (i = nmaps - 1; i >= 0; i--)], on the reversed array, leaving the loop when all
    objects are placed. *)
Fixpoint dfs_all (fuel : nat) (rmaps : list mapid) (st : dst) : res dst :=
  match rmaps with
  | [] => Ok st
  | m :: rmaps' =>
      st ← dfs_traversal fuel m st;
      if bool_decide (length (d_rpo st) = nmaps) then Ok st else dfs_all fuel rmaps' st
  end.

(** One pass over the array [maps]. *)
Definition dfs_pass (vis : gset mapid) (maps : list mapid) (rel : option bool) : res dst :=
  st ← dfs_all (S nmaps) (reverse maps) (mkDst (vis ∖ list_to_set maps) [] rel);
  _ ← c_assert (bool_decide (length (d_rpo st) = nmaps)) "rpo_head == rpo";
  mret st.

End Dfs.

(** Move [first] to the front: [memmove (&maps[1], maps, i); maps[0] = first_map]. *)
Definition force (first : mapid) (maps : list mapid) : res (list mapid) :=
  if bool_decide (head maps = Some first) then Ok maps
  else match list_find (fun m => m = first) maps with
       | Some (i, _) => Ok (first :: delete i maps)
       | None => Undef
       end.

Definition _dl_sort_maps_dfs (g : graph) (vis : gset mapid) (maps : list mapid) (force_first for_fini : bool)
  : res (list mapid) :=
  let nmaps := length maps in
  match maps with
  | [] => Undef
  | first_map :: _ =>
      st ← dfs_pass g nmaps vis maps (if for_fini then Some false else None);
      maps ← match d_rel st with
             | Some true =>
                 st2 ← dfs_pass g nmaps (d_vis st) (d_rpo st) None;
                 mret (d_rpo st2)
             | _ => mret (d_rpo st)
             end;
      if force_first then force first_map maps else mret maps
  end.

(** ** Correctness of the traversal *)

(** [edge b u v]: [v] is a dependency of [u] that the sort has to respect; with [b] the
    relocation dependencies count too.  An object is listed among its own
    dependencies, which means nothing. *)
Definition edge (g : graph) (b : bool) (u v : mapid) : Prop :=
  (v ∈ default [] (g_initfini g u) \/ (b = true /\ v ∈ default [] (g_reldeps g u))) /\
  g_main g v = false /\ g_faked g v = false /\ v <> u.

(** Every object is followed by its dependencies. *)
Fixpoint topo (g : graph) (b : bool) (l : list mapid) : Prop :=
  match l with
  | [] => True
  | u :: l' => (forall v, edge g b u v -> v ∈ l') /\ topo g b l'
  end.

Section Correct.
Context (g : graph) (D : gset mapid).

Definition reldeps_on (st : dst) : bool := bool_decide (is_Some (d_rel st)).

(** The traversal stays among the objects of [D]. *)
Definition closed (b : bool) : Prop := forall u v, u ∈ D -> edge g b u v -> v ∈ D.

Definition good (st : dst) : Prop :=
  NoDup (d_rpo st) /\ (forall x, x ∈ d_rpo st -> x ∈ d_vis st /\ x ∈ D).

(** [st'] extends [st] by the objects [new]. *)
Definition extends (st st' : dst) (new : list mapid) : Prop :=
  d_rpo st' = new ++ d_rpo st /\ (forall x, x ∈ d_vis st' <-> x ∈ new \/ x ∈ d_vis st) /\
  (forall x, x ∈ new -> x ∉ d_vis st) /\ reldeps_on st' = reldeps_on st.

(** The objects entered but not placed yet all have a rank of at least [k]. *)
Definition pending (rank : mapid -> nat) (k : nat) (st : dst) : Prop :=
  forall x, x ∈ d_vis st -> x ∈ D -> x ∈ d_rpo st \/ (k <= rank x)%nat.

Definition ranked (rank : mapid -> nat) (b : bool) : Prop :=
  forall u v, u ∈ D -> edge g b u v -> (rank v < rank u)%nat.

Lemma extends_refl st : extends st st [].
Proof. repeat split; set_solver. Qed.

Lemma extends_trans st1 st2 st3 n1 n2 :
  extends st1 st2 n1 -> extends st2 st3 n2 -> extends st1 st3 (n2 ++ n1).
Proof.
  intros (H1 & H2 & H3 & H4) (K1 & K2 & K3 & K4). split; [by rewrite K1, H1, app_assoc|].
  split; [set_solver|]. split; [set_solver|congruence].
Qed.

Lemma unvisited_mono st st' new : extends st st' new -> (size (D ∖ d_vis st') <= size (D ∖ d_vis st))%nat.
Proof. intros (_ & H & _). apply subseteq_size. set_solver. Qed.

(** The result of one call of the traversal on [u]. *)
Definition traversed (u : mapid) (st st' : dst) (new : list mapid) : Prop :=
  extends st st' new /\ good st' /\ (u ∈ d_vis st' \/ g_faked g u = true) /\
  forall rank k, ranked rank (reldeps_on st) -> pending rank k st ->
    (g_faked g u = false -> (rank u < k)%nat) ->
    topo g (reldeps_on st) (d_rpo st) ->
    topo g (reldeps_on st) (d_rpo st') /\ pending rank k st'.

Definition walks (fuel : nat) (f : mapid -> dst -> res dst) : Prop := forall u st,
  good st -> u ∈ D \/ g_faked g u = true -> closed (reldeps_on st) ->
  (size (D ∖ d_vis st) < fuel)%nat -> exists st' new, f u st = Ok st' /\ traversed u st st' new.

Lemma each_dep_spec fuel f l : walks fuel f -> forall st,
  good st -> closed (reldeps_on st) -> (size (D ∖ d_vis st) < fuel)%nat ->
  (forall v, v ∈ l -> g_main g v = false -> g_faked g v = false -> v ∈ D) ->
  exists st' new, each_dep g f l st = Ok st' /\ extends st st' new /\ good st' /\
    (forall v, v ∈ l -> g_main g v = false -> g_faked g v = false -> v ∈ d_vis st') /\
    forall rank k, ranked rank (reldeps_on st) -> pending rank k st ->
      (forall v, v ∈ l -> g_main g v = false -> g_faked g v = false -> v ∉ d_vis st -> (rank v < k)%nat) ->
      topo g (reldeps_on st) (d_rpo st) ->
      topo g (reldeps_on st) (d_rpo st') /\ pending rank k st'.
Proof.
  intros Hf. induction l as [|v l IH]; intros st Hg Hcl Hsz HD; cbn [each_dep].
  { exists st, []. split_and!; [done|apply extends_refl|done|set_solver|done]. }
  destruct (bool_decide (v ∈ d_vis st) || g_main g v) eqn:E; cbn [mbind res_bind].
  - destruct (IH st) as (st' & new & He & Hx & Hg' & Hv & Ht); try done; [set_solver|].
    exists st', new. split; [done|]. split; [done|]. split; [done|]. split.
    + intros x [->|Hx']%elem_of_cons Hm Hfk; [|by apply Hv]. apply orb_true_iff in E as [E|E]; [|congruence].
      apply bool_decide_eq_true in E. apply Hx. by right.
    + intros rank k Hr Hp Hk. apply Ht; [done|done|]. intros x Hx'. apply Hk. set_solver.
  - zbool. destruct (Hf v st) as (st1 & n1 & He1 & Hx1 & Hg1 & Hv1 & Ht1); try done.
    { destruct (g_faked g v) eqn:Efk; [by right|left]. apply HD; [set_solver|done|done]. }
    rewrite He1. cbn [mbind res_bind]. pose proof (unvisited_mono _ _ _ Hx1).
    assert (Hrel : reldeps_on st1 = reldeps_on st) by apply Hx1.
    destruct (IH st1) as (st' & n2 & He & Hx & Hg' & Hv & Ht); [done|by rewrite Hrel|lia|set_solver|].
    exists st', (n2 ++ n1). split; [done|]. split; [by eapply extends_trans|]. split; [done|]. split.
    + intros x [->|Hx']%elem_of_cons Hm Hfk; [|by apply Hv]. apply Hx. right.
      destruct Hv1 as [Hv1|Hv1]; [done|congruence].
    + intros rank k Hr Hp Hk Htopo. rewrite Hrel in Ht.
      destruct (Ht1 rank k Hr Hp) as [Htopo1 Hp1]; [intros Hfk; apply Hk; set_solver|done|].
      apply Ht; [done|done| |done]. intros x Hx' Hm Hfk Hnv. apply Hk; [set_solver|done|done|].
      intros Hv'. apply Hnv, Hx1. by right.
Qed.

Lemma good_size st u : good st -> u ∈ D -> u ∉ d_rpo st -> (length (d_rpo st) < size D)%nat.
Proof.
  intros [Hn Hin] Hu Hno. rewrite <- (size_list_to_set (C := gset mapid) (d_rpo st)) by done.
  apply subset_size. split; [set_solver|]. intros Hs. apply Hno. set_solver.
Qed.

(** The two loops over dependencies in a call on [u], which is already marked. *)
Lemma deps_spec fuel u st0 :
  walks fuel (dfs_traversal g (size D) fuel) -> good st0 -> u ∈ D -> u ∈ d_vis st0 -> closed (reldeps_on st0) ->
  (size (D ∖ d_vis st0) < fuel)%nat ->
  exists st2 new,
    (st ← each_dep g (dfs_traversal g (size D) fuel) (default [] (g_initfini g u)) st0;
     match d_rel st, g_reldeps g u with
     | Some _, Some l => each_dep g (dfs_traversal g (size D) fuel) (reverse l) (found_reldeps st)
     | _, _ => Ok st
     end) = Ok st2 /\ extends st0 st2 new /\ good st2 /\
    (forall v, edge g (reldeps_on st0) u v -> v ∈ d_vis st2) /\
    forall rank, ranked rank (reldeps_on st0) -> pending rank (rank u) st0 ->
      topo g (reldeps_on st0) (d_rpo st0) ->
      topo g (reldeps_on st0) (d_rpo st2) /\ pending rank (rank u) st2.
Proof.
  intros IH Hg0 HuD Huv Hcl Hsz0.
  destruct (each_dep_spec fuel (dfs_traversal g (size D) fuel) (default [] (g_initfini g u)) IH st0)
    as (st1 & n1 & He1 & Hx1 & Hg1 & Hv1 & Ht1); try done.
  { intros v Hv Hm Hf. destruct (decide (v = u)) as [->|]; [done|]. apply (Hcl u v HuD). split; [by left|done]. }
  rewrite He1. cbn [mbind res_bind].
  assert (Hrel1 : reldeps_on st1 = reldeps_on st0) by apply Hx1.
  assert (Ht1' : forall rank, ranked rank (reldeps_on st0) -> pending rank (rank u) st0 ->
            topo g (reldeps_on st0) (d_rpo st0) ->
            topo g (reldeps_on st0) (d_rpo st1) /\ pending rank (rank u) st1).
  { intros rank Hr Hp Ht. apply Ht1; try done. intros v Hv Hm Hf Hnv. apply Hr; [done|].
    split; [by left|]. split_and!; [done|done|]. by intros ->. }
  destruct (d_rel st1) as [r|] eqn:Er; [destruct (g_reldeps g u) as [l|] eqn:El|].
  - assert (Hon : reldeps_on st0 = true) by (rewrite <- Hrel1; unfold reldeps_on; by rewrite Er).
    assert (Hrel1' : reldeps_on (found_reldeps st1) = reldeps_on st0) by (by rewrite Hon).
    pose proof (unvisited_mono _ _ _ Hx1).
    destruct (each_dep_spec fuel (dfs_traversal g (size D) fuel) (reverse l) IH (found_reldeps st1))
      as (st2 & n2 & He2 & Hx2 & Hg2 & Hv2 & Ht2); [done|by rewrite Hrel1'|cbn; lia| |].
    { intros v Hv Hm Hf. rewrite elem_of_reverse in Hv. destruct (decide (v = u)) as [->|]; [done|].
      apply (Hcl u v HuD). split; [right; split; [done|rewrite El; exact Hv]|done]. }
    exists st2, (n2 ++ n1). split; [done|].
    assert (Hx2' : extends st1 st2 n2).
    { destruct Hx2 as (X1 & X2 & X3 & X4). split_and!; try done. congruence. }
    split; [by eapply extends_trans|]. split; [done|]. split.
    + intros v [[Hv|[_ Hv]] (Hm & Hf & _)].
      * apply Hx2'. right. by apply Hv1.
      * rewrite El in Hv. apply Hv2; [by rewrite elem_of_reverse|done|done].
    + intros rank Hr Hp Ht. destruct (Ht1' rank Hr Hp Ht) as [Htt Hpp]. rewrite Hrel1' in Ht2.
      apply Ht2; try done. intros v Hv Hm Hf Hnv. rewrite elem_of_reverse in Hv. apply Hr; [done|].
      split; [right; split; [done|rewrite El; exact Hv]|]. split_and!; [done|done|]. intros ->. apply Hnv. cbn.
      apply Hx1. by right.
  - exists st1, n1. split_and!; try done. intros v [[Hv|[_ Hv]] (Hm & Hf & _)]; [by apply Hv1|].
    rewrite El in Hv. set_solver.
  - exists st1, n1. split_and!; try done. intros v [[Hv|[Hb Hv]] (Hm & Hf & _)]; [by apply Hv1|].
    exfalso. rewrite <- Hrel1 in Hb. unfold reldeps_on in Hb. by rewrite Er in Hb.
Qed.

Lemma dfs_traversal_spec fuel : walks fuel (dfs_traversal g (size D) fuel).
Proof.
  induction fuel as [|fuel IH]; intros u st Hg Hu Hcl Hsz; [lia|]. cbn [dfs_traversal].
  destruct (bool_decide (u ∈ d_vis st) || g_faked g u) eqn:E.
  { exists st, []. split; [done|]. split; [apply extends_refl|]. split; [done|]. split; [|done].
    apply orb_true_iff in E as [E|E]; [left; by apply bool_decide_eq_true in E|by right]. }
  zbool. assert (HuD : u ∈ D) by (destruct Hu; [done|congruence]).
  set (st0 := visit u st).
  assert (Hg0 : good st0) by (destruct Hg as [? Hg]; split; [done|]; cbn; set_solver).
  assert (Hsz0 : (size (D ∖ d_vis st0) < fuel)%nat).
  { assert (size (D ∖ d_vis st0) < size (D ∖ d_vis st))%nat; [|lia]. apply subset_size. cbn.
    split; [set_solver|]. intros Hs. assert (u ∈ D ∖ ({[u]} ∪ d_vis st)) by (apply Hs; set_solver). set_solver. }
  destruct (deps_spec fuel u st0 IH Hg0 HuD ltac:(cbn; set_solver) Hcl Hsz0) as (st2 & new & Hrun & Hx & Hg2 & Hv & Ht).
  rewrite <- bind_assoc, Hrun. cbn [mbind res_bind]. destruct Hx as (X1 & X2 & X3 & X4).
  assert (Hno : u ∉ d_rpo st2).
  { rewrite X1. intros [Hin|Hin]%elem_of_app; [apply (X3 u Hin); cbn; set_solver|].
    destruct Hg as [_ Hg]. cbn in Hin. by destruct (Hg u Hin). }
  pose proof (good_size st2 u Hg2 HuD Hno). unfold put.
  rewrite (proj2 (Nat.leb_gt _ _)) by lia.
  eexists _, (u :: new). split; [reflexivity|]. unfold traversed, extends. cbn [d_rpo d_vis].
  split; [split_and!|split; [|split]].
  - by rewrite X1.
  - intros x. rewrite X2. cbn. set_solver.
  - intros x [->|Hx]%elem_of_cons; [done|]. specialize (X3 x Hx). cbn in X3. set_solver.
  - done.
  - destruct Hg2 as [Hn Hi]. split; cbn; [by constructor|]. intros x [->|Hx]%elem_of_cons; [|by apply Hi].
    split; [|done]. apply X2. right. cbn. set_solver.
  - left. apply X2. right. cbn. set_solver.
  - intros rank k Hr Hp Hk Htopo. destruct (Ht rank Hr) as [Ht2 Hp2]; [|done|].
    { intros x Hx HxD. cbn in Hx. rewrite elem_of_union, elem_of_singleton in Hx.
      destruct Hx as [->|Hx]; [by right|]. destruct (Hp x Hx HxD) as [|Hkx]; [by left|right].
      specialize (Hk ltac:(done)). lia. }
    split.
    + split; [|done]. intros v Hev. destruct (Hp2 v (Hv v Hev)) as [|Hle]; [by apply (Hcl u)|done|].
      specialize (Hr u v HuD Hev). cbn in *. lia.
    + intros x Hx HxD. cbn. rewrite X2 in Hx. cbn in Hx. rewrite X1.
      destruct (decide (x ∈ d_vis st)) as [Hvis|Hvis].
      * destruct (Hp x Hvis HxD); [left; cbn; set_solver|by right].
      * left. cbn. set_solver.
Qed.

(** Between two calls at the top level everything entered is placed. *)
Definition settled (st : dst) : Prop := forall x, x ∈ d_vis st -> x ∈ D -> x ∈ d_rpo st.

Lemma dfs_all_spec fuel rmaps : forall st,
  good st -> settled st -> closed (reldeps_on st) -> (size (D ∖ d_vis st) < fuel)%nat ->
  (forall m, m ∈ rmaps -> m ∈ D /\ g_faked g m = false) ->
  exists st', dfs_all g (size D) fuel rmaps st = Ok st' /\ good st' /\ settled st' /\
    reldeps_on st' = reldeps_on st /\
    (length (d_rpo st') = size D \/ forall m, m ∈ rmaps -> m ∈ d_rpo st') /\
    (forall x, x ∈ d_rpo st -> x ∈ d_rpo st') /\
    forall rank, ranked rank (reldeps_on st) -> topo g (reldeps_on st) (d_rpo st) ->
      topo g (reldeps_on st) (d_rpo st').
Proof.
  induction rmaps as [|m rmaps IH]; intros st Hg Hs Hcl Hsz Hin; cbn [dfs_all].
  { exists st. split_and!; try done. right. set_solver. }
  destruct (Hin m) as [HmD Hmf]; [set_solver|].
  destruct (dfs_traversal_spec fuel m st) as (st1 & new & Hrun & Hx & Hg1 & Hv & Ht); try done; [by left|].
  rewrite Hrun. cbn [mbind res_bind].
  assert (Hs1 : settled st1).
  { destruct Hx as (X1 & X2 & _). intros x Hx HxD. rewrite X1. apply X2 in Hx. apply elem_of_app.
    destruct Hx; [by left|right; by apply Hs]. }
  assert (Hm1 : m ∈ d_rpo st1) by (destruct Hv; [by apply Hs1|congruence]).
  assert (Htop : forall rank, ranked rank (reldeps_on st) -> topo g (reldeps_on st) (d_rpo st) ->
            topo g (reldeps_on st) (d_rpo st1)).
  { intros rank Hr Htp. apply (Ht rank (S (rank m))); try done; [|intros; lia].
    intros x Hx' HxD. left. by apply Hs. }
  assert (Hrel : reldeps_on st1 = reldeps_on st) by apply Hx.
  assert (Hsub : forall x, x ∈ d_rpo st -> x ∈ d_rpo st1) by (destruct Hx as (-> & _); set_solver).
  case_bool_decide as Hlen.
  - exists st1. split_and!; try done. by left.
  - pose proof (unvisited_mono _ _ _ Hx).
    destruct (IH st1) as (st' & Hr & G' & S' & R' & L' & B' & T'); [done|done|by rewrite Hrel|lia|set_solver|].
    exists st'. split_and!; try done; [congruence| |auto|].
    + destruct L' as [|L']; [by left|right]. intros x [->|Hx']%elem_of_cons; auto.
    + intros rank Hrk Htp. rewrite Hrel in T'. by apply (T' rank), (Htop rank).
Qed.

End Correct.

(** One pass places every object once and, without cycles, before its dependencies. *)
Lemma dfs_pass_spec g vis maps rel :
  NoDup maps -> (forall m, m ∈ maps -> g_faked g m = false) ->
  closed g (list_to_set maps) (bool_decide (is_Some rel)) ->
  exists st, dfs_pass g (length maps) vis maps rel = Ok st /\ d_rpo st ≡ₚ maps /\
    reldeps_on st = bool_decide (is_Some rel) /\
    forall rank, ranked g (list_to_set maps) rank (bool_decide (is_Some rel)) ->
      topo g (bool_decide (is_Some rel)) (d_rpo st).
Proof.
  intros Hnd Hfk Hcl. set (D := list_to_set maps : gset mapid) in *.
  assert (HD : size D = length maps) by (by apply size_list_to_set).
  set (st0 := mkDst (vis ∖ D) [] rel).
  destruct (dfs_all_spec g D (S (size D)) (reverse maps) st0)
    as (st & Hrun & [Hn Hi] & Hs & Hrel & Hlen & _ & Ht).
  - split; [constructor|]. intros x Hx. by apply elem_of_nil in Hx.
  - intros x Hx HxD. cbn in Hx. set_solver.
  - done.
  - assert (size (D ∖ d_vis st0) <= size D)%nat by (apply subseteq_size; set_solver). lia.
  - intros m Hm. rewrite elem_of_reverse in Hm. split; [set_solver|by apply Hfk].
  - assert (Hperm : d_rpo st ≡ₚ maps).
    { apply NoDup_Permutation; [done|done|]. intros x. split.
      - intros Hx. apply Hi in Hx as [_ Hx]. set_solver.
      - intros Hx. destruct Hlen as [Hlen|Hall]; [|apply Hall; by rewrite elem_of_reverse].
        assert (Heq : list_to_set (d_rpo st) ≡ D).
        { apply set_subseteq_size_equiv; [intros y Hy; apply elem_of_list_to_set in Hy; by apply Hi|].
          rewrite size_list_to_set by done. lia. }
        apply (elem_of_list_to_set (C := gset mapid)). rewrite Heq. set_solver. }
    exists st. split; [|split; [done|split; [done|]]].
    + unfold dfs_pass. fold D. rewrite <- HD. fold st0. rewrite Hrun. cbn [mbind res_bind].
      rewrite bool_decide_eq_true_2; [done|]. rewrite Hperm. done.
    + intros rank Hr. by apply (Ht rank).
Qed.

(** ** The flag for relocation dependencies *)

(** As long as the flag is clear, no object placed has relocation dependencies. *)
Definition quiet (g : graph) (st st' : dst) : Prop :=
  d_rel st' = Some false ->
  d_rel st = Some false /\
  ((forall u, u ∈ d_rpo st -> g_reldeps g u = None) -> forall u, u ∈ d_rpo st' -> g_reldeps g u = None).

#[export] Instance quiet_preorder g : PreOrder (quiet g).
Proof.
  split; [by intros st|]. intros s1 s2 s3 H1 H2 H3. destruct (H2 H3) as [E2 K2]. destruct (H1 E2) as [E1 K1].
  split; [done|]. auto.
Qed.

Lemma each_dep_quiet g f l : (forall u st st', f u st = Ok st' -> quiet g st st') ->
  forall st st', each_dep g f l st = Ok st' -> quiet g st st'.
Proof.
  intros Hf. induction l as [|v l IH]; intros st st'; cbn [each_dep]; [by intros [= <-]|].
  intros H. apply bind_Ok_inv in H as (st1 & H1 & H2). etrans; [|by apply IH].
  destruct (_ || _); [by injection H1 as <-|by eapply Hf].
Qed.

Lemma dfs_quiet g n fuel : forall u st st', dfs_traversal g n fuel u st = Ok st' -> quiet g st st'.
Proof.
  induction fuel as [|fuel IH]; intros u st st'; cbn [dfs_traversal]; [done|].
  destruct (_ || _); [by intros [= <-]|]. intros H. apply bind_Ok_inv in H as (st1 & H1 & H).
  apply bind_Ok_inv in H as (st2 & H2 & H3).
  apply (each_dep_quiet _ _ _ IH) in H1. unfold put in H3. destruct (_ <=? _)%nat; [done|]. injection H3 as <-.
  intros E. cbn in E. destruct (d_rel st1) as [b|] eqn:Eb.
  - destruct (g_reldeps g u) as [l|] eqn:El.
    + apply (each_dep_quiet _ _ _ IH) in H2. destruct (H2 E) as [E' _]. discriminate.
    + injection H2 as <-. destruct (H1 ltac:(congruence)) as [E1 K1]. split; [done|].
      intros Hst x [->|Hx]%elem_of_cons; [done|]. by apply K1.
  - injection H2 as <-. congruence.
Qed.

Lemma dfs_all_quiet g n fuel l : forall st st', dfs_all g n fuel l st = Ok st' -> quiet g st st'.
Proof.
  induction l as [|m l IH]; intros st st'; cbn [dfs_all]; [by intros [= <-]|].
  intros H. apply bind_Ok_inv in H as (st1 & H1 & H2). etrans; [by eapply dfs_quiet|].
  case_bool_decide; [by injection H2 as <-|by apply IH].
Qed.

(** ** Moving the first object back *)
Lemma topo_delete g b f : forall l i, topo g b l -> (forall u, u ∈ l -> ~ edge g b u f) -> l !! i = Some f ->
  topo g b (delete i l) /\ forall v, edge g b f v -> v ∈ delete i l.
Proof.
  induction l as [|u l IH]; intros i Ht Hno Hi; [done|]. destruct Ht as [Hu Ht].
  destruct i as [|i].
  - injection Hi as ->. done.
  - change (l !! i = Some f) in Hi. change (delete (S i) (u :: l)) with (u :: delete i l).
    destruct (IH i Ht) as [Htd Hf]; [set_solver|done|]. split; [split; [|done]|].
    + intros v Hv. specialize (Hu v Hv). destruct (decide (v = f)) as [->|Hne].
      { exfalso. by apply (Hno u); [left|]. }
      apply list_elem_of_lookup in Hu as [j Hj]. apply list_elem_of_lookup.
      destruct (decide (j < i)%nat); [exists j; by rewrite list_lookup_delete_lt|].
      destruct (decide (j = i)) as [->|]; [congruence|].
      exists (j - 1)%nat. rewrite list_lookup_delete_ge by lia. by replace (S (j - 1)) with j by lia.
    + intros v Hv. right. by apply Hf.
Qed.

Lemma force_spec f l :
  f ∈ l -> exists l', force f l = Ok l' /\ l' ≡ₚ l /\ head l' = Some f /\
    forall g b, topo g b l -> (forall u, u ∈ l -> ~ edge g b u f) -> topo g b l'.
Proof.
  intros Hf. unfold force. case_bool_decide as Hh; [by exists l|].
  destruct (list_find (fun m => m = f) l) as [[i x]|] eqn:E.
  - apply list_find_Some in E as (Hi & -> & _). exists (f :: delete i l).
    split; [done|]. split; [by rewrite <- (delete_Permutation l i f)|]. split; [done|].
    intros g b Ht Hno. destruct (topo_delete g b f l i Ht Hno Hi). done.
  - exfalso. apply list_find_None in E. rewrite Forall_forall in E. by apply (E f).
Qed.

Lemma topo_static g l : topo g true l -> topo g false l.
Proof.
  induction l as [|u l IH]; [done|]. intros [Hu Ht]. split; [|by apply IH].
  intros v [[Hv|[? _]] Hm]; [|discriminate]. apply Hu. split; [by left|done].
Qed.

(** The depth-first sort: a permutation, in topological order when there is no cycle. *)
Lemma sort_maps_dfs_spec g vis maps force_first for_fini :
  maps <> [] -> NoDup maps -> (forall m, m ∈ maps -> g_faked g m = false) ->
  closed g (list_to_set maps) for_fini ->
  exists maps', _dl_sort_maps_dfs g vis maps force_first for_fini = Ok maps' /\ maps' ≡ₚ maps /\
    (force_first = true -> head maps' = head maps) /\
    forall rank, ranked g (list_to_set maps) rank false ->
      (force_first = true -> forall u f, u ∈ maps -> head maps = Some f -> ~ edge g false u f) ->
      topo g false maps'.
Proof.
  intros Hne Hnd Hfk Hcl. destruct maps as [|f maps0]; [done|]. set (maps := f :: maps0) in *.
  assert (Hpass : exists sorted,
    (st ← dfs_pass g (length maps) vis maps (if for_fini then Some false else None);
     match d_rel st with
     | Some true => st2 ← dfs_pass g (length maps) (d_vis st) (d_rpo st) None; mret (d_rpo st2)
     | _ => mret (d_rpo st)
     end) = Ok sorted /\ sorted ≡ₚ maps /\
    forall rank, ranked g (list_to_set maps) rank false -> topo g false sorted).
  { destruct (dfs_pass_spec g vis maps (if for_fini then Some false else None)) as (st & Hst & Hperm & Hrel & Htopo);
      [done|done|by destruct for_fini|].
    rewrite Hst. cbn [mbind res_bind].
    assert (Hnorel : d_rel st = Some false -> forall u, u ∈ maps -> g_reldeps g u = None).
    { intros E u Hu. unfold dfs_pass in Hst. apply bind_Ok_inv in Hst as (st1 & H1 & H2).
      apply bind_Ok_inv in H2 as (? & _ & [= ->]).
      apply dfs_all_quiet in H1. apply (H1 E); [set_solver|]. by rewrite Hperm. }
    destruct (d_rel st) as [[|]|] eqn:Erel.
    - destruct (dfs_pass_spec g (d_vis st) (d_rpo st) None) as (st2 & Hst2 & Hperm2 & _ & Htopo2).
      + by rewrite Hperm.
      + intros m Hm. apply Hfk. by rewrite <- Hperm.
      + intros u v Hu [[Hv|[? _]] Hmf]; [|discriminate]. rewrite (list_to_set_perm_L _ _ Hperm) in *.
        apply (Hcl u v Hu). split; [by left|done].
      + exists (d_rpo st2). replace (length maps) with (length (d_rpo st)) by (by rewrite Hperm).
        rewrite Hst2. split; [done|]. split; [by etrans|].
        intros rank Hr. apply (Htopo2 rank). by rewrite (list_to_set_perm_L _ _ Hperm).
    - exists (d_rpo st). split; [done|]. split; [done|]. intros rank Hr.
      assert (Hb : bool_decide (is_Some (if for_fini then Some false else None)) = true).
      { rewrite <- Hrel. unfold reldeps_on. by rewrite Erel. }
      rewrite Hb in Htopo. apply (topo_static g (d_rpo st)), (Htopo rank). intros u v Hu [[Hv|[_ Hv]] Hmf].
      + apply Hr; [done|]. split; [by left|done].
      + rewrite Hnorel in Hv by (done || set_solver). set_solver.
    - exists (d_rpo st). split; [done|]. split; [done|]. intros rank Hr.
      assert (Hb : bool_decide (is_Some (if for_fini then Some false else None)) = false).
      { rewrite <- Hrel. unfold reldeps_on. by rewrite Erel. }
      rewrite Hb in Htopo. by apply (Htopo rank). }
  destruct Hpass as (sorted & Hrun & Hperm & Htopo).
  assert (Heq : _dl_sort_maps_dfs g vis maps force_first for_fini =
                if force_first then force f sorted else Ok sorted).
  { unfold _dl_sort_maps_dfs. unfold maps at 1. rewrite <- bind_assoc, Hrun. done. }
  rewrite Heq. destruct force_first.
  - destruct (force_spec f sorted) as (l' & Hl & Hp & Hh & Ht); [rewrite Hperm; set_solver|].
    exists l'. split; [done|]. split; [by etrans|]. split; [done|].
    intros rank Hr Hno. apply Ht; [by apply (Htopo rank)|]. intros u Hu. apply Hno; [done|by rewrite <- Hperm|done].
  - exists sorted. split_and!; try done. intros rank Hr _. by apply (Htopo rank).
Qed.

(** ** The original sort *)
Section Original.
Context (g : graph) (for_fini : bool) (nmaps : nat).

(** [thisp] has to come after [m]: it is a dependency of [m], or (for destructors) a relocation
    dependency that does not close a cycle with a link-time one. *)
Definition depends (thisp m : mapid) : bool :=
  bool_decide (thisp ∈ default [] (g_initfini g m))
  || (for_fini && bool_decide (thisp ∈ default [] (g_reldeps g m))
      && negb (bool_decide (m ∈ default [] (g_initfini g thisp)))).

(** [while (k > i) { ... --k; }] *)
Fixpoint last_dependent (maps : list mapid) (thisp : mapid) (i k : nat) : option nat :=
  match k with
  | O => None
  | S k' =>
      if (k <=? i)%nat then None
      else match maps !! k with
           | Some m => if depends thisp m then Some k else last_dependent maps thisp i k'
           | None => last_dependent maps thisp i k'
           end
  end.

(** [memmove (&a[i], &a[i + 1], k - i); a[k] = x] *)
Definition move {A} (a : list A) (i k : nat) (x : A) : list A :=
  take i a ++ (drop (S i) (take (S k) a) ++ [x]) ++ drop (S k) a.

(** [memset (&seen[i], 0, nmaps - i)] *)
Definition clear (seen : list Z) (i : nat) : list Z := take i seen ++ replicate (length seen - i) 0.

Record ost := mkOst { o_maps : list mapid; o_seen : list Z; o_i : nat }.

(** One round of [while (1)]; [None] is the [break]. *)
Definition orig_step (st : ost) : res (option ost) :=
  let i := o_i st in
  thisp ← res_of_option (o_maps st !! i);
  c ← res_of_option (o_seen st !! i);
  let seen := <[i := u16 (c + 1)]> (o_seen st) in
  let skip := if (S i =? nmaps)%nat then None else Some (mkOst (o_maps st) (clear seen (S i)) (S i)) in
  if for_fini && (g_proxy g thisp || (g_idx g thisp =? -1)) then mret skip
  else
    match last_dependent (o_maps st) thisp i (nmaps - 1) with
    | None => mret skip
    | Some k =>
        let maps := move (o_maps st) i k thisp in
        c1 ← res_of_option (seen !! S i);
        if Z.of_nat (nmaps - i) <? c1 then mret (Some (mkOst maps (clear seen (S i)) (S i)))
        else mret (Some (mkOst maps (move seen i k (u16 (c + 1))) i))
    end.

Fixpoint orig_loop (fuel : nat) (st : ost) : res (list mapid) :=
  match fuel with
  | O => Diverge
  | S fuel => r ← orig_step st; match r with None => mret (o_maps st) | Some st => orig_loop fuel st end
  end.

End Original.

(** Rounds the loop takes at most. *)
Definition orig_fuel (n : nat) : nat := S (n * S (n * S n)).

Definition _dl_sort_maps_original (g : graph) (maps : list mapid) (force_first for_fini : bool)
  : res (list mapid) :=
  let sort l := if (length l <=? 1)%nat then mret l
                else orig_loop g for_fini (length l) (orig_fuel (length l)) (mkOst l (replicate (length l) 0) 0) in
  match force_first, maps with
  | false, _ => sort maps
  | true, [] => Undef
  | true, m :: rest => rest ← sort rest; mret (m :: rest)
  end.

(** ** [_dl_sort_maps_init] and [_dl_sort_maps] *)
Inductive dso_sort_algorithm := dso_sort_algorithm_original | dso_sort_algorithm_dfs.

Definition _dl_sort_maps_init (algorithm : Z) : dso_sort_algorithm :=
  if algorithm =? 1 then dso_sort_algorithm_original else dso_sort_algorithm_dfs.

Definition _dl_sort_maps (algo : dso_sort_algorithm) (g : graph) (vis : gset mapid) (maps : list mapid)
    (force_first for_fini : bool) : res (list mapid) :=
  match algo with
  | dso_sort_algorithm_original => _dl_sort_maps_original g maps force_first for_fini
  | dso_sort_algorithm_dfs => _dl_sort_maps_dfs g vis maps force_first for_fini
  end.

(** C19.  The default sort (any setting of the tunable but 1, which selects the original
    algorithm) is a topological sort: for a non-empty array of different objects, none of them faked, whose
    dependencies are among the objects to sort, the result is a permutation of them (so no
    object is lost or listed twice, and the array is never overrun, even when
    there are cycles); with [force_first] the first object stays first; and if the
    DT_NEEDED dependencies have no cycle, every object comes before all its
    dependencies, provided that with [force_first] no object depends on the first one. *)
Theorem sort_maps_topological algorithm g vis maps force_first for_fini :
  algorithm <> 1 -> maps <> [] -> NoDup maps -> (forall m, m ∈ maps -> g_faked g m = false) ->
  closed g (list_to_set maps) for_fini ->
  exists maps', _dl_sort_maps (_dl_sort_maps_init algorithm) g vis maps force_first for_fini = Ok maps' /\
    maps' ≡ₚ maps /\ (force_first = true -> head maps' = head maps) /\
    forall rank, ranked g (list_to_set maps) rank false ->
      (force_first = true -> forall u f, u ∈ maps -> head maps = Some f -> ~ edge g false u f) ->
      topo g false maps'.
Proof.
  intros Ha. unfold _dl_sort_maps_init. rewrite (proj2 (Z.eqb_neq _ _) Ha). apply sort_maps_dfs_spec.
Qed.

(** ** The original sort ends *)
Definition zsum (l : list Z) : Z := foldr Z.add 0 l.

Lemma zsum_app l1 l2 : zsum (l1 ++ l2) = zsum l1 + zsum l2.
Proof. induction l1 as [|x l1 IH]; cbn in *; [done|]. unfold zsum in *. lia. Qed.
Lemma zsum_replicate n : zsum (replicate n 0) = 0.
Proof. induction n as [|n IH]; cbn; [done|]. unfold zsum in *. lia. Qed.
Lemma zsum_perm l1 l2 : l1 ≡ₚ l2 -> zsum l1 = zsum l2.
Proof. induction 1; cbn in *; unfold zsum in *; lia. Qed.
Lemma zsum_bound l k : Forall (fun x => x <= k) l -> 0 <= k -> zsum l <= Z.of_nat (length l) * k.
Proof. induction 1 as [|x l Hx Hl IH]; intros Hk; cbn in *; [lia|]. unfold zsum in *. lia. Qed.

(** The moved part of an array is a permutation of what it was. *)
Lemma drop_move {A} (a : list A) i k x :
  a !! i = Some x -> (i < k < length a)%nat -> drop i (move a i k x) ≡ₚ drop i a.
Proof.
  intros Hi Hk. unfold move. rewrite drop_app_ge, length_take by (rewrite length_take; lia).
  replace (i - i `min` length a)%nat with 0%nat by lia. rewrite drop_0.
  rewrite (drop_S a x i Hi). rewrite <- (take_drop (S k) a) at 3.
  rewrite (drop_app_le (take (S k) a)) by (rewrite length_take; lia).
  rewrite Permutation_app_comm with (l := drop (S i) (take (S k) a)). done.
Qed.

Lemma move_perm {A} (a : list A) i k x :
  a !! i = Some x -> (i < k < length a)%nat -> move a i k x ≡ₚ a.
Proof.
  intros Hi Hk. rewrite <- (take_drop i (move a i k x)), (drop_move a i k x Hi Hk).
  unfold move. rewrite take_app_le, take_take by (rewrite length_take; lia).
  rewrite Nat.min_id. by rewrite take_drop.
Qed.

Section Ends.
Context (g : graph) (for_fini : bool) (n : nat) (Hn : Z.of_nat n < 2 ^ 15).

(** The counts of the objects still to place are bounded, that of the current one more so. *)
Definition orig_inv (st : ost) : Prop :=
  length (o_maps st) = n /\ length (o_seen st) = n /\ (o_i st < n)%nat /\
  Forall (fun c => 0 <= c <= Z.of_nat (n - o_i st) + 1) (drop (o_i st) (o_seen st)) /\
  (forall c, o_seen st !! o_i st = Some c -> c <= Z.of_nat (n - o_i st)).

Local Abbreviation N := (Z.of_nat n).
Definition orig_meas (st : ost) : Z :=
  (N - Z.of_nat (o_i st) - 1) * (N * (N + 1) + 1) + (N * (N + 1) - zsum (drop (o_i st) (o_seen st))).

Lemma last_dependent_range maps x i k k' :
  last_dependent g for_fini maps x i k = Some k' -> (i < k' <= k)%nat.
Proof.
  induction k as [|k IH]; cbn [last_dependent]; [done|].
  destruct (Nat.leb_spec (S k) i); [done|]. destruct (maps !! S k) as [m|].
  - destruct (depends g for_fini x m); [intros [= <-]; lia|]. intros H'. apply IH in H'. lia.
  - intros H'. apply IH in H'. lia.
Qed.

(** Going on to the next position. *)
Lemma orig_next maps seen i :
  length maps = n -> length seen = n -> (S i < n)%nat -> orig_inv (mkOst maps (clear seen (S i)) (S i)).
Proof.
  intros Hm Hs Hi. unfold orig_inv. cbn [o_maps o_seen o_i].
  assert (Hd : drop (S i) (clear seen (S i)) = replicate (n - S i) 0).
  { unfold clear. rewrite drop_app_ge, length_take by (rewrite length_take; lia).
    rewrite Hs. replace (S i - S i `min` n)%nat with 0%nat by lia. done. }
  split_and!; [done| |done| |].
  - unfold clear. rewrite length_app, length_take, length_replicate. lia.
  - rewrite Hd. apply Forall_replicate. lia.
  - intros c Hc. assert (Hc' : drop (S i) (clear seen (S i)) !! 0%nat = Some c) by (by rewrite lookup_drop, Nat.add_0_r).
    rewrite Hd in Hc'. apply lookup_replicate in Hc' as [-> _]. lia.
Qed.

Lemma orig_meas_next maps seen i st :
  length seen = n -> o_i st = i -> (S i < n)%nat -> zsum (drop i (o_seen st)) <= N * (N + 1) ->
  orig_meas (mkOst maps (clear seen (S i)) (S i)) < orig_meas st.
Proof.
  intros Hs Hst Hi Hz. unfold orig_meas. cbn [o_seen o_i]. rewrite Hst.
  assert (Hd : zsum (drop (S i) (clear seen (S i))) = 0).
  { unfold clear. rewrite drop_app_ge, length_take by (rewrite length_take; lia).
    rewrite Hs. replace (S i - S i `min` n)%nat with 0%nat by lia. apply zsum_replicate. }
  rewrite Hd. nia.
Qed.

Lemma orig_step_spec st :
  orig_inv st -> exists r, orig_step g for_fini n st = Ok r /\
    match r with
    | None => True
    | Some st' => orig_inv st' /\ o_maps st' ≡ₚ o_maps st /\ orig_meas st' < orig_meas st
    end /\ 0 <= orig_meas st.
Proof.
  intros (Hm & Hs & Hi & Hall & Hcur). set (i := o_i st) in *.
  destruct (lookup_lt_is_Some_2 (o_maps st) i) as [x Hx]; [lia|].
  destruct (lookup_lt_is_Some_2 (o_seen st) i) as [c Hc]; [lia|].
  specialize (Hcur c Hc).
  assert (Hc0 : 0 <= c).
  { rewrite Forall_lookup in Hall. apply (Hall 0%nat c). rewrite lookup_drop, Nat.add_0_r. done. }
  assert (Hu : u16 (c + 1) = c + 1) by (unfold u16; apply Z.mod_small; lia).
  assert (Hsum : zsum (drop i (o_seen st)) < N * (N + 1)).
  { rewrite (drop_S _ c i Hc) in Hall |- *. apply Forall_cons in Hall as [_ Hall].
    assert (Hb : zsum (drop (S i) (o_seen st)) <= Z.of_nat (length (drop (S i) (o_seen st))) * (Z.of_nat (n - i) + 1))
      by (apply zsum_bound; [eapply Forall_impl; [exact Hall|cbn; lia]|lia]).
    rewrite length_drop, Hs in Hb. cbn [zsum foldr]. fold (zsum (drop (S i) (o_seen st))). nia. }
  set (seen := <[i := c + 1]> (o_seen st)).
  assert (Hseen : length seen = n) by (unfold seen; by rewrite length_insert).
  assert (Hskip : match (if (S i =? n)%nat then None else Some (mkOst (o_maps st) (clear seen (S i)) (S i))) with
                  | None => True
                  | Some st' => orig_inv st' /\ o_maps st' ≡ₚ o_maps st /\ orig_meas st' < orig_meas st end).
  { destruct (Nat.eqb_spec (S i) n); [done|]. split; [apply orig_next; done || lia|]. split; [done|].
    apply orig_meas_next; try done; lia. }
  assert (Hpos : 0 <= orig_meas st) by (unfold orig_meas; fold i; nia).
  unfold orig_step. fold i. rewrite Hx, Hc. cbn [res_of_option mbind res_bind]. rewrite Hu. fold seen.
  destruct (for_fini && _); [by eexists|].
  destruct (last_dependent g for_fini (o_maps st) x i (n - 1)) as [k|] eqn:Ek; [|by eexists].
  apply last_dependent_range in Ek.
  destruct (lookup_lt_is_Some_2 seen (S i)) as [c1 Hc1]; [lia|]. rewrite Hc1. cbn [res_of_option mbind res_bind].
  assert (Hlm : length (move (o_maps st) i k x) = n) by (rewrite (move_perm _ i k x Hx) by lia; done).
  destruct (Z.ltb_spec (Z.of_nat (n - i)) c1) as [Hlt|Hge]; eexists; (split; [reflexivity|]); (split; [|done]).
  - split; [apply orig_next; done || lia|]. split; [apply move_perm; done || lia|].
    apply orig_meas_next; done || lia.
  - assert (Hsi : seen !! i = Some (c + 1)) by (apply list_lookup_insert_eq; lia).
    assert (Hls : length (move seen i k (c + 1)) = n) by (rewrite (move_perm _ i k _ Hsi) by lia; done).
    pose proof (drop_move seen i k (c + 1) Hsi ltac:(lia)) as Hperm.
    assert (Hds : drop i seen = (c + 1) :: drop (S i) (o_seen st)).
    { rewrite (drop_S seen (c + 1) i Hsi). unfold seen. by rewrite drop_insert_lt by lia. }
    split; [|split; [apply move_perm; done || lia|]].
    + unfold orig_inv. cbn [o_maps o_seen o_i]. split_and!; try done.
      * rewrite Hperm, Hds. rewrite (drop_S _ c i Hc) in Hall. apply Forall_cons in Hall as [_ Hall].
        constructor; [lia|done].
      * intros c' Hc'. unfold move in Hc'.
        rewrite lookup_app_r, length_take in Hc' by (rewrite length_take; lia).
        replace (i - i `min` length seen)%nat with 0%nat in Hc' by lia.
        rewrite lookup_app_l in Hc' by (rewrite length_app; cbn; lia).
        rewrite lookup_app_l in Hc' by (rewrite length_drop, length_take; lia).
        rewrite lookup_drop, Nat.add_0_r, lookup_take_lt in Hc' by lia. congruence.
    + unfold orig_meas. cbn [o_seen o_i]. fold i. rewrite (zsum_perm _ _ Hperm), Hds.
      rewrite (drop_S _ c i Hc). cbn [zsum foldr]. lia.
Qed.

Lemma orig_loop_spec fuel : forall st,
  orig_inv st -> orig_meas st < Z.of_nat fuel ->
  exists l, orig_loop g for_fini n fuel st = Ok l /\ l ≡ₚ o_maps st.
Proof.
  induction fuel as [|fuel IH]; intros st Hinv Hf; destruct (orig_step_spec st Hinv) as (r & Hr & Hst & Hp); [lia|].
  cbn [orig_loop]. rewrite Hr. cbn [mbind res_bind]. destruct r as [st'|]; [|by eexists].
  destruct Hst as (Hinv' & Hperm & Hlt). destruct (IH st' Hinv') as (l & Hl & Hpl); [lia|].
  exists l. split; [done|]. by rewrite Hpl.
Qed.

End Ends.

(** The older sort ends with a permutation of the array. *)
Lemma sort_maps_original_spec g maps force_first for_fini :
  maps <> [] -> Z.of_nat (length maps) < 2 ^ 15 ->
  exists maps', _dl_sort_maps_original g maps force_first for_fini = Ok maps' /\ maps' ≡ₚ maps /\
    (force_first = true -> head maps' = head maps).
Proof.
  intros Hne Hlen. unfold _dl_sort_maps_original.
  assert (Hsort : forall l, Z.of_nat (length l) < 2 ^ 15 -> exists l',
    (if (length l <=? 1)%nat then mret l
     else orig_loop g for_fini (length l) (orig_fuel (length l)) (mkOst l (replicate (length l) 0) 0)) = Ok l' /\
    l' ≡ₚ l).
  { intros l Hl. destruct (Nat.leb_spec (length l) 1); [by exists l|].
    apply (orig_loop_spec g for_fini (length l) Hl (orig_fuel (length l)) (mkOst l (replicate (length l) 0) 0)).
    - unfold orig_inv. cbn [o_maps o_seen o_i]. rewrite length_replicate, drop_0.
      split_and!; [done|done|lia|apply Forall_replicate; lia|].
      intros c Hc. apply lookup_replicate in Hc as [-> _]. lia.
    - unfold orig_meas, orig_fuel. cbn [o_seen o_i]. rewrite drop_0, zsum_replicate. nia. }
  destruct force_first.
  - destruct maps as [|m rest]; [done|]. cbn [length] in Hlen.
    destruct (Hsort rest) as (l & Hl & Hp); [lia|]. rewrite Hl. cbn [mbind res_bind]. eexists.
    split; [reflexivity|]. split; [by rewrite Hp|done].
  - destruct (Hsort maps Hlen) as (l & Hl & Hp). exists l. done.
Qed.

(** C20.  The older sort always ends and only reorders: whatever the
    dependencies are, cycles included, the counters make the loop stop within
    [orig_fuel] rounds, with a permutation of the array; and with
    [force_first] the first object is not moved. *)
Theorem sort_maps_original_ends g maps force_first for_fini :
  maps <> [] -> Z.of_nat (length maps) < 2 ^ 15 ->
  exists maps', _dl_sort_maps_original g maps force_first for_fini = Ok maps' /\ maps' ≡ₚ maps /\
    (force_first = true -> head maps' = head maps).
Proof. apply sort_maps_original_spec. Qed.

(** Both sorts, as far as they promise the same. *)
Lemma sort_maps_spec algo g vis maps force_first for_fini :
  maps <> [] -> NoDup maps -> (forall m, m ∈ maps -> g_faked g m = false) -> closed g (list_to_set maps) for_fini ->
  Z.of_nat (length maps) < 2 ^ 15 ->
  exists maps', _dl_sort_maps algo g vis maps force_first for_fini = Ok maps' /\ maps' ≡ₚ maps /\ (force_first = true -> head maps' = head maps) /\
    (algo = dso_sort_algorithm_dfs -> forall rank, ranked g (list_to_set maps) rank false ->
      (force_first = true -> forall u f, u ∈ maps -> head maps = Some f -> ~ edge g false u f) -> topo g false maps').
Proof.
  intros Hne Hnd Hf Hc Hl. destruct algo; cbn [_dl_sort_maps].
  - destruct (sort_maps_original_spec g maps force_first for_fini Hne Hl) as (m' & E & P & H). by exists m'.
  - destruct (sort_maps_dfs_spec g vis maps force_first for_fini Hne Hnd Hf Hc) as (m' & E & P & H & T). exists m'. by split_and!.
Qed.

(** ** A program and three libraries *)
Module Example6.

(** 0 needs 1 and 2, 2 needs 3 and 1, 1 needs 3; 3 has a relocation dependency on 2. *)
Definition g : graph :=
  mkGraph (fun m => nth m [Some [0; 1; 2]; Some [1; 3]; Some [2; 3; 1]; Some [3]]%nat None)
    (fun m => if decide (m = 3%nat) then Some [2%nat] else None)
    (fun _ => false) (fun m => bool_decide (m = 0%nat)) (fun _ => false) (fun m => Z.of_nat m).
Definition objs : list mapid := [0; 1; 2; 3]%nat.
Definition rank (m : mapid) : nat := nth m [3; 1; 2; 0]%nat 0%nat.

Example sorted_dfs : _dl_sort_maps_dfs g ∅ objs true true = Ok [0; 2; 1; 3]%nat.
Proof. vm_compute. reflexivity. Qed.

Lemma objs_closed : closed g (list_to_set objs) true.
Proof.
  intros u v Hu [Hv _]. rewrite elem_of_list_to_set in Hu |- *.
  repeat (apply elem_of_cons in Hu as [->|Hu]); [..|by apply elem_of_nil in Hu];
    cbn in Hv; unfold objs; set_solver.
Qed.

Lemma objs_ranked : ranked g (list_to_set objs) rank false.
Proof.
  intros u v Hu (Hv & _ & _ & Hne). rewrite elem_of_list_to_set in Hu.
  destruct Hv as [Hv|[? _]]; [|discriminate].
  repeat (apply elem_of_cons in Hu as [->|Hu]); [..|by apply elem_of_nil in Hu]; cbn in Hv;
    repeat (apply elem_of_cons in Hv as [->|Hv]); try (by apply elem_of_nil in Hv); cbn; lia || done.
Qed.

Lemma sort_maps_topological_witness :
  exists maps', _dl_sort_maps (_dl_sort_maps_init 2) g ∅ objs true true = Ok maps' /\ maps' ≡ₚ objs /\
    (true = true -> head maps' = head objs) /\
    forall rank, ranked g (list_to_set objs) rank false ->
      (true = true -> forall u f, u ∈ objs -> head objs = Some f -> ~ edge g false u f) ->
      topo g false maps'.
Proof.
  apply (sort_maps_topological 2 g ∅ objs true true).
  - discriminate.
  - discriminate.
  - apply (bool_decide_unpack _). vm_compute. exact I.
  - intros m _. reflexivity.
  - exact objs_closed.
Defined.

Lemma sort_maps_original_ends_witness :
  exists maps', _dl_sort_maps_original g objs true true = Ok maps' /\ maps' ≡ₚ objs /\
    (true = true -> head maps' = head objs).
Proof. apply (sort_maps_original_ends g objs true true); [discriminate|cbn; lia]. Defined.

(** The order found respects all dependencies. *)
Example sorted_topo : topo g false [0; 2; 1; 3]%nat.
Proof.
  destruct (dfs_pass_spec g ∅ objs None) as (st & Hst & _ & _ & Ht).
  - apply (bool_decide_unpack _). vm_compute. exact I.
  - intros m _. reflexivity.
  - intros u v Hu [[Hv|[? _]] Hm]; [|discriminate]. apply (objs_closed u v Hu). split; [by left|done].
  - specialize (Ht rank objs_ranked). vm_compute in Hst. injection Hst as <-. exact Ht.
Qed.

End Example6.
