(* ===== verification/InitFini.v ===== *)
(** * Constructors and destructors

    [call_init] and [_dl_init] ([elf/dl-init.c]), [_dl_call_fini]
    ([elf/dl-call_fini.c]) and [_dl_fini] ([elf/dl-fini.c]).  The functions
    called are recorded by address; auditing callbacks and debugging output
    are not modelled. *)

From S2P Require Import Prelude LinkMap SortMaps.

(** A namespace: the objects of [_ns_loaded] in order, and whether it belongs to auditing. *)
Record nsinfo := mkNsinfo { n_loaded : list mapid; n_auditing : bool }.

Record ist := mkI {
  i_maps : gmap mapid link_map;
  i_initfirst : option mapid;       (* GL(dl_initfirst) *)
  i_ns : list nsinfo;
  i_starting_up : bool;             (* _dl_starting_up *)
  i_trace : list Z }.

Definition i_get (m : mapid) : M ist link_map := fun s =>
  match i_maps s !! m with Some lm => Ret lm s | None => Wild end.
Definition i_set (m : mapid) (f : link_map -> link_map) : M ist unit :=
  modify (fun s => mkI (alter f m (i_maps s)) (i_initfirst s) (i_ns s) (i_starting_up s) (i_trace s)).
(** Call the functions at these addresses, in this order. *)
Definition calls (fs : list Z) : M ist unit :=
  modify (fun s => mkI (i_maps s) (i_initfirst s) (i_ns s) (i_starting_up s) (i_trace s ++ fs)).
Definition clear_initfirst : M ist unit :=
  modify (fun s => mkI (i_maps s) None (i_ns s) (i_starting_up s) (i_trace s)).
Definition started : M ist unit :=
  modify (fun s => mkI (i_maps s) (i_initfirst s) (i_ns s) false (i_trace s)).

(** ** Constructors *)

(** DT_INIT, then the array in order. *)
Definition init_functions (l : link_map) : list Z :=
  match dy_init (l_dyn l) with Some p => [u64 (l_addr l + p)] | None => [] end
  ++ default [] (dy_init_array (l_dyn l)).

Definition call_init (m : mapid) : M ist unit :=
  l ← i_get m;
  if bool_decide (m <> l_real l) then mret tt
  else
    lift (c_assert (l_relocated l || bool_decide (l_type l = lt_executable))
            "l->l_relocated || l->l_type == lt_executable");;
    if l_init_called l then mret tt
    else
      i_set m (set_init_called true);;
      if str_eqb (l_name l) "" && bool_decide (l_type l = lt_executable) then mret tt
      else calls (init_functions l).

(** [i = nlist; while (i-- > 0) call_init (main_map->l_initfini[i]);] *)
Fixpoint init_loop (ms : list mapid) : M ist unit :=
  match ms with
  | [] => mret tt
  | m :: ms' => call_init m;; init_loop ms'
  end.

Definition _dl_init (main : mapid) : M ist unit :=
  l ← i_get main;
  first ← gets i_initfirst;
  (match first with
   | Some f => call_init f;; clear_initfirst
   | None => mret tt
   end);;
  calls (default [] (dy_preinit_array (l_dyn l)));;
  l ← i_get main;
  let nlist := length (dp_searchlist (l_deps l)) in
  match l_initfini l with
  | Some initfini =>
      if (length initfini <? nlist)%nat then lift Undef
      else init_loop (reverse (take nlist initfini))
  | None => if (nlist =? 0)%nat then mret tt else lift Undef
  end;;
  started.

(** ** Destructors *)

(** The array from its end, then DT_FINI. *)
Definition fini_functions (l : link_map) : list Z :=
  reverse (default [] (dy_fini_array (l_dyn l)))
  ++ match dy_fini (l_dyn l) with Some p => [u64 (l_addr l + p)] | None => [] end.

Definition _dl_call_fini (m : mapid) : M ist unit :=
  i_set m (set_init_called false);;
  l ← i_get m;
  calls (fini_functions l).

(** What the sort sees of the objects. *)
Definition graph_of (ms : gmap mapid link_map) : graph :=
  mkGraph (fun m => ms !! m ≫= l_initfini) (fun m => ms !! m ≫= l_reldeps)
    (fun m => match ms !! m with Some l => l_faked l | None => false end)
    (fun m => match ms !! m with Some l => l_main_map l | None => false end)
    (fun m => match ms !! m with Some l => bool_decide (m <> l_real l) | None => false end)
    (fun m => match ms !! m with Some l => l_idx l | None => 0 end).

Definition visited_of (ms : gmap mapid link_map) : gset mapid :=
  dom (filter (fun '(_, l) => l_visited l = true) ms).

(** [maps[i] = l; l->l_idx = i; ++i; ++l->l_direct_opencount;] for the objects that are
    not proxies. *)
Fixpoint collect (ms : list mapid) (i : Z) : M ist (list mapid) :=
  match ms with
  | [] => mret []
  | m :: ms' =>
      l ← i_get m;
      if bool_decide (m = l_real l) then
        i_set m (fun l => set_opencount (u32 (l_direct_opencount l + 1)) (set_idx i l));;
        rest ← collect ms' (i + 1);
        mret (m :: rest)
      else collect ms' i
  end.

Fixpoint run_fini (ms : list mapid) : M ist unit :=
  match ms with
  | [] => mret tt
  | m :: ms' =>
      l ← i_get m;
      (if l_init_called l then _dl_call_fini m else mret tt);;
      i_set m (fun l => set_opencount (u32 (l_direct_opencount l - 1)) l);;
      run_fini ms'
  end.

(** The body of the loop over the namespaces. *)
Definition fini_ns (algo : dso_sort_algorithm) (do_audit : bool) (nsid : nat) (ns : nsinfo) : M ist unit :=
  if (length (n_loaded ns) =? 0)%nat || negb (Bool.eqb (n_auditing ns) do_audit) then mret tt
  else
    maps ← collect (n_loaded ns) 0;
    lift (c_assert (negb (nsid =? 0)%nat || (length maps =? length (n_loaded ns))%nat)
            "ns != LM_ID_BASE || i == nloaded");;
    lift (c_assert ((nsid =? 0)%nat || (length maps =? length (n_loaded ns))%nat
                    || (length maps =? length (n_loaded ns) - 1)%nat)
            "ns == LM_ID_BASE || i == nloaded || i == nloaded - 1");;
    ms ← gets i_maps;
    sorted ← lift (_dl_sort_maps algo (graph_of ms) (visited_of ms) maps (nsid =? 0)%nat true);
    run_fini sorted.

(** [for (ns = GL(dl_nns) - 1; ns >= 0; --ns)] *)
Fixpoint fini_all (algo : dso_sort_algorithm) (do_audit : bool) (n : nat) : M ist unit :=
  match n with
  | O => mret tt
  | S n' =>
      nss ← gets i_ns;
      ns ← lift (res_of_option (nss !! n'));
      fini_ns algo do_audit n' ns;;
      fini_all algo do_audit n'
  end.

Definition _dl_fini (algo : dso_sort_algorithm) (naudit : Z) : M ist unit :=
  nss ← gets i_ns;
  fini_all algo false (length nss);;
  if 0 <? naudit then fini_all algo true (length nss) else mret tt.

(** ** Order *)
Lemma topo_split g b l u v : topo g b l -> u ∈ l -> edge g b u v ->
  exists l1 l2 l3, l = l1 ++ u :: l2 ++ v :: l3.
Proof.
  induction l as [|x l IH]; intros Ht Hu He; [by apply elem_of_nil in Hu|]. destruct Ht as [Hx Ht].
  apply elem_of_cons in Hu as [->|Hu].
  - apply Hx, list_elem_of_split in He as (l2 & l3 & ->). by exists [], l2, l3.
  - destruct (IH Ht Hu He) as (l1 & l2 & l3 & ->). by exists (x :: l1), l2, l3.
Qed.

(** ** Constructors *)

(** What [call_init] calls for an object: nothing for one whose constructors ran and for the unnamed main program. *)
Definition inits (l : link_map) : list Z :=
  if l_init_called l || str_eqb (l_name l) "" && bool_decide (l_type l = lt_executable) then [] else init_functions l.

(** An object that can be initialised: it is no proxy, and it is relocated or the main program. *)
Definition known (s : ist) (m : mapid) (l : link_map) : Prop :=
  i_maps s !! m = Some l /\ l_real l = m /\ (l_relocated l = true \/ l_type l = lt_executable).

Definition ran (s : ist) (m : mapid) (l : link_map) : ist :=
  mkI (<[m := set_init_called true l]> (i_maps s)) (i_initfirst s) (i_ns s) (i_starting_up s)
    (i_trace s ++ inits l).

Lemma alter_insert_eq (ms : gmap mapid link_map) m l f : ms !! m = Some l -> alter f m ms = <[m := f l]> ms.
Proof.
  intros H. apply map_eq. intros k. destruct (decide (k = m)) as [->|Hne].
  - by rewrite lookup_alter_eq, lookup_insert_eq, H.
  - by rewrite lookup_alter_ne, lookup_insert_ne by done.
Qed.

Lemma set_init_called_same l : l_init_called l = true -> set_init_called true l = l.
Proof. destruct l as [? ? ? [] ? ? ?]. cbn. by intros ->. Qed.

(** Constructors run once: nothing is called for an object whose constructors ran. *)
Lemma call_init_run s m l : known s m l -> call_init m s = Ret tt (ran s m l).
Proof.
  intros (Hm & Hr & Hrel). unfold call_init.
  rewrite (M_bind_step _ _ _ l s) by (unfold i_get; by rewrite Hm).
  rewrite Hr, bool_decide_eq_false_2 by tauto.
  rewrite (M_bind_step _ _ _ tt s).
  2:{ unfold c_assert. destruct Hrel as [->| ->]; [done|]. rewrite bool_decide_eq_true_2 by done.
      by rewrite orb_true_r. }
  unfold ran, inits. destruct (l_init_called l) eqn:Hi.
  - rewrite set_init_called_same, insert_id, app_nil_r by done. by destruct s.
  - unfold i_set, calls, modify. unfold mbind, M_bind. rewrite (alter_insert_eq _ _ _ _ Hm). cbn [orb].
    destruct (str_eqb (l_name l) "" && bool_decide (l_type l = lt_executable)); [by rewrite app_nil_r|done].
Qed.

(** The objects [ms] and their link maps in [s]. *)
Fixpoint ran_all (s : ist) (ms : list (mapid * link_map)) : ist :=
  match ms with
  | [] => s
  | (m, l) :: ms' => ran_all (ran s m l) ms'
  end.

Lemma init_loop_run ms : forall s,
  NoDup (fst <$> ms) -> Forall (fun ml => known s (fst ml) (snd ml)) ms ->
  init_loop (fst <$> ms) s = Ret tt (ran_all s ms).
Proof.
  induction ms as [|[m l] ms IH]; intros s Hnd Hall; [done|]. cbn [fmap list_fmap fst init_loop ran_all].
  apply Forall_cons in Hall as [Hm Hall]. cbn in Hnd. apply NoDup_cons in Hnd as [Hno Hnd].
  rewrite (M_bind_step _ _ _ tt (ran s m l)) by (by apply call_init_run).
  apply IH; [done|]. rewrite Forall_forall in Hall |- *. intros [m' l'] Hin.
  destruct (Hall (m', l') Hin) as (H1 & H2 & H3). split; [|done]. cbn in *.
  rewrite lookup_insert_ne; [done|]. intros ->. apply Hno. by apply (list_elem_of_fmap_2 fst) in Hin.
Qed.

Lemma ran_all_trace ms : forall s, i_trace (ran_all s ms) = i_trace s ++ concat ((fun ml => inits (snd ml)) <$> ms).
Proof.
  induction ms as [|[m l] ms IH]; intros s; cbn [ran_all]; [by rewrite app_nil_r|].
  rewrite IH. cbn. by rewrite <- app_assoc.
Qed.
Lemma ran_all_first ms : forall s, i_initfirst (ran_all s ms) = i_initfirst s.
Proof. induction ms as [|[m l] ms IH]; intros s; cbn [ran_all]; [done|]. by rewrite IH. Qed.

Lemma ran_all_called ms : forall s m l, (m, l) ∈ ms -> NoDup (fst <$> ms) ->
  i_maps (ran_all s ms) !! m = Some (set_init_called true l).
Proof.
  induction ms as [|[m' l'] ms IH]; intros s m l Hin Hnd; [by apply elem_of_nil in Hin|].
  cbn [ran_all]. cbn in Hnd. apply NoDup_cons in Hnd as [Hno Hnd].
  apply elem_of_cons in Hin as [[= -> ->]|Hin]; [|by apply IH].
  assert (Hkeep : forall s, i_maps (ran_all s ms) !! m' = i_maps s !! m').
  { clear -Hno. induction ms as [|[x y] ms IH]; intros s; [done|]. cbn [ran_all]. rewrite IH.
    - cbn. apply lookup_insert_ne. intros ->. apply Hno. cbn. set_solver.
    - intros H. apply Hno. cbn. set_solver. }
  rewrite Hkeep. cbn. apply lookup_insert_eq.
Qed.

(** The object marked DF_1_INITFIRST, if there is one, and what is left to be called for an object after it. *)
Definition first_inits (first : option (mapid * link_map)) : list Z := match first with Some (_, l) => inits l | None => [] end.
Definition later (first : option (mapid * link_map)) (ml : mapid * link_map) : list Z :=
  if decide (fst <$> first = Some (fst ml)) then [] else inits (snd ml).
Definition after_first (first : option (mapid * link_map)) (ml : mapid * link_map) : mapid * link_map :=
  if decide (fst <$> first = Some (fst ml)) then (fst ml, set_init_called true (snd ml)) else ml.
Lemma after_first_key first ml : fst (after_first first ml) = fst ml.
Proof. unfold after_first. by destruct (decide _). Qed.
Lemma after_first_inits first ml : inits (snd (after_first first ml)) = later first ml.
Proof. unfold after_first, later. destruct (decide _); [|done]. unfold inits. by destruct (snd ml) as [? ? ? [] ? ? ?]. Qed.
Lemma after_first_called first ml : set_init_called true (snd (after_first first ml)) = set_init_called true (snd ml).
Proof. unfold after_first. destruct (decide _); [|done]. by destruct (snd ml) as [? ? ? [] ? ? ?]. Qed.

(** The start of [_dl_init]: the first object. *)
Definition first_run (first : option (mapid * link_map)) (s : ist) : ist :=
  match first with
  | Some (f, l) => mkI (i_maps (ran s f l)) None (i_ns s) (i_starting_up s) (i_trace s ++ inits l)
  | None => s
  end.
Lemma first_run_known first s ml : (forall f l, first = Some (f, l) -> known s f l) -> known s (fst ml) (snd ml) ->
  known (first_run first s) (fst (after_first first ml)) (snd (after_first first ml)).
Proof.
  intros Hf (Hm & Hr & Hrel). destruct first as [[f l]|]; cbn [first_run]; [|done]. destruct (Hf f l eq_refl) as (Hfm & _). unfold after_first.
  cbn [fmap option_fmap option_map fst]. unfold known. cbn [i_maps ran]. destruct (decide (Some f = Some (fst ml))) as [[= E]|Hne]; cbn [fst snd].
  - rewrite <- E in *. assert (l = snd ml) as -> by congruence. split; [by rewrite lookup_insert_eq|]. by destruct (snd ml) as [? ? ? [] ? ? ?].
  - split; [|done]. rewrite lookup_insert_ne; [done|congruence].
Qed.

Lemma concat_split {A B} (f : A -> list B) l1 a l2 b l3 :
  concat (f <$> (l1 ++ a :: l2 ++ b :: l3)) =
  concat (f <$> l1) ++ f a ++ concat (f <$> l2) ++ f b ++ concat (f <$> l3).
Proof. by rewrite fmap_app, concat_app, fmap_cons, fmap_app, concat_cons, concat_app, fmap_cons, concat_cons. Qed.

(** Split a list of pairs where its keys split. *)
Lemma split_keys {A} (ms : list (mapid * A)) u v lu lv l1 l2 l3 :
  NoDup (fst <$> ms) -> fst <$> ms = l1 ++ u :: l2 ++ v :: l3 -> (u, lu) ∈ ms -> (v, lv) ∈ ms ->
  exists m1 m2 m3, ms = m1 ++ (u, lu) :: m2 ++ (v, lv) :: m3.
Proof.
  intros Hnd Heq Hu Hv.
  assert (Hkey : forall x y z, (x, y) ∈ ms -> (x, z) ∈ ms -> y = z).
  { clear -Hnd. induction ms as [|[k e] ms IH]; intros x y z Hy Hz; [by apply elem_of_nil in Hy|].
    cbn in Hnd. apply NoDup_cons in Hnd as [Hno Hnd].
    apply elem_of_cons in Hy. apply elem_of_cons in Hz. destruct Hy as [Hy|Hy], Hz as [Hz|Hz]; simplify_eq; try done.
    - destruct Hno. by apply (list_elem_of_fmap_2 fst) in Hz.
    - destruct Hno. by apply (list_elem_of_fmap_2 fst) in Hy.
    - by eapply IH. }
  apply fmap_app_inv in Heq as (m1 & m' & -> & Hm' & ->).
  symmetry in Hm'. apply fmap_cons_inv in Hm' as ([u' lu'] & m'' & -> & Hm'' & ->).
  symmetry in Hm''. apply fmap_app_inv in Hm'' as (m2 & m3' & -> & Hm3 & ->).
  symmetry in Hm3. apply fmap_cons_inv in Hm3 as ([v' lv'] & m3 & -> & -> & ->). cbn [fst] in *.
  exists m1, m2, m3. rewrite (Hkey u' lu lu'), (Hkey v' lv lv') by (done || set_solver). done.
Qed.

Lemma init_run s main lmain initfini ms first :
  i_maps s !! main = Some lmain -> i_initfirst s = fst <$> first -> (forall f l, first = Some (f, l) -> known s f l) -> l_initfini lmain = Some initfini ->
  (length (dp_searchlist (l_deps lmain)) <= length initfini)%nat -> take (length (dp_searchlist (l_deps lmain))) initfini = fst <$> ms ->
  NoDup (fst <$> ms) -> Forall (fun ml => known s (fst ml) (snd ml)) ms ->
  exists s', _dl_init main s = Ret tt s' /\ i_initfirst s' = None /\
    i_trace s' = i_trace s ++ first_inits first ++ default [] (dy_preinit_array (l_dyn lmain)) ++ concat (later first <$> reverse ms) /\
    forall m l, (m, l) ∈ ms -> i_maps s' !! m = Some (set_init_called true l).
Proof.
  intros Hmain Hfirst Hf Hif Hlen Htake Hnd Hall. set (s0 := first_run first s). set (ms' := after_first first <$> ms).
  assert (Hkeys : fst <$> ms' = fst <$> ms) by (unfold ms'; rewrite <- list_fmap_compose; apply list_fmap_ext; intros ? ? _; apply after_first_key).
  assert (Hnd' : NoDup (fst <$> reverse ms')) by (by rewrite fmap_reverse, reverse_Permutation, Hkeys).
  set (pre := default [] (dy_preinit_array (l_dyn lmain))). set (s1 := mkI (i_maps s0) (i_initfirst s0) (i_ns s0) (i_starting_up s0) (i_trace s0 ++ pre)). set (s2 := ran_all s1 (reverse ms')).
  assert (Hmain0 : exists lm, i_maps s0 !! main = Some lm /\ l_dyn lm = l_dyn lmain /\ l_deps lm = l_deps lmain).
  { unfold s0. destruct first as [[f l]|]; cbn [first_run]; [|by exists lmain]. cbn [i_maps ran]. destruct (Hf f l eq_refl) as (Hfm & _).
    destruct (decide (f = main)) as [->|]; [rewrite lookup_insert_eq|rewrite lookup_insert_ne by done; by exists lmain]. assert (l = lmain) as -> by congruence.
    eexists. split; [reflexivity|]. by destruct lmain as [? ? ? [] ? ? ?]. }
  assert (Hrun0 : (match fst <$> first with Some f => call_init f;; clear_initfirst | None => mret tt end) s = Ret tt s0).
  { unfold s0. destruct first as [[f l]|]; [|done]. cbn [fmap option_fmap option_map fst first_run]. by rewrite (M_bind_step _ _ _ _ _ (call_init_run s f l (Hf f l eq_refl))). }
  destruct Hmain0 as (lm & Hlm & Ed & Ep). exists (mkI (i_maps s2) (i_initfirst s2) (i_ns s2) false (i_trace s2)). split; [|split; [|split]].
  - unfold _dl_init. rewrite (M_bind_step _ _ _ lmain s) by (unfold i_get; by rewrite Hmain). rewrite (M_bind_step _ _ _ (fst <$> first) s) by (unfold gets; by rewrite Hfirst).
    rewrite (M_bind_step _ _ _ tt s0 Hrun0). rewrite (M_bind_step _ _ _ tt s1) by done. rewrite (M_bind_step _ _ _ lm s1) by (unfold i_get; cbn; by rewrite Hlm).
    unfold l_initfini in *. rewrite Ep, Hif, (proj2 (Nat.ltb_ge _ _)) by lia. rewrite Htake, <- Hkeys, <- fmap_reverse. rewrite (M_bind_step _ _ _ tt s2); [done|].
    apply init_loop_run; [done|]. apply Forall_reverse. unfold ms'. rewrite Forall_fmap. eapply Forall_impl; [exact Hall|]. intros ml Hml. apply (first_run_known first s ml Hf Hml).
  - cbn. unfold s2. rewrite ran_all_first. unfold s1, s0. cbn. destruct first as [[f l]|]; [done|]. exact Hfirst.
  - cbn. unfold s2. rewrite ran_all_trace. unfold s1, ms'. cbn [i_trace]. rewrite <- fmap_reverse, <- list_fmap_compose.
    rewrite (list_fmap_ext ((fun ml => inits (snd ml)) ∘ after_first first) (later first) (reverse ms)) by (intros ? ? _; apply after_first_inits).
    rewrite <- app_assoc. unfold s0. destruct first as [[f l]|]; cbn [first_run first_inits i_trace]; by rewrite <- ?app_assoc.
  - intros m l Hin. cbn. pose proof (after_first_key first (m, l)) as Hk. pose proof (after_first_called first (m, l)) as Hc. cbn in Hk, Hc. rewrite <- Hk, <- Hc.
    apply ran_all_called; [|done]. rewrite elem_of_reverse. apply list_elem_of_fmap. exists (m, l). split; [by destruct (after_first first (m, l))|done].
Qed.

(** Two entries in this order. *)
Lemma concat_in_order {A} (f : A -> list Z) pre l1 a l2 b l3 : exists t1 t2 t3, pre ++ concat (f <$> (l1 ++ a :: l2 ++ b :: l3)) = t1 ++ f a ++ t2 ++ f b ++ t3.
Proof. rewrite concat_split. exists (pre ++ concat (f <$> l1)), (concat (f <$> l2)), (concat (f <$> l3)). by rewrite <- !app_assoc. Qed.

(** C26.  Startup runs the constructors in dependency order.  Let [l_initfini] of the main program be there and, up to the length of the search
    list, list different objects that are no proxies and are relocated (or the main program), each of them before its
    dependencies, and let the object marked DF_1_INITFIRST, if there is one, be relocated and no proxy.  Then
    [_dl_init] runs, in this order, the constructors of the object marked DF_1_INITFIRST, the pre-initialisers, and the
    constructors (DT_INIT, then DT_INIT_ARRAY in order) of all other objects, so that those of an object other than the marked one
    come after those of all its dependencies; an object whose constructors ran before is
    left out, as is the unnamed main program itself; every object is marked afterwards, and no object is marked as the first one any more. *)
Theorem constructors_in_order s main lmain initfini ms first :
  i_maps s !! main = Some lmain -> i_initfirst s = fst <$> first -> (forall f l, first = Some (f, l) -> known s f l) -> l_initfini lmain = Some initfini ->
  (length (dp_searchlist (l_deps lmain)) <= length initfini)%nat ->
  take (length (dp_searchlist (l_deps lmain))) initfini = fst <$> ms ->
  NoDup (fst <$> ms) -> Forall (fun ml => known s (fst ml) (snd ml)) ms ->
  topo (graph_of (i_maps s)) false (fst <$> ms) ->
  exists s', _dl_init main s = Ret tt s' /\ i_initfirst s' = None /\
    i_trace s' = i_trace s ++ first_inits first ++ default [] (dy_preinit_array (l_dyn lmain))
                 ++ concat (later first <$> reverse ms) /\
    (forall m l, (m, l) ∈ ms -> i_maps s' !! m = Some (set_init_called true l)) /\
    forall u lu v lv, (u, lu) ∈ ms -> (v, lv) ∈ ms -> edge (graph_of (i_maps s)) false u v -> fst <$> first <> Some u ->
      exists t1 t2 t3, i_trace s' = t1 ++ inits lv ++ t2 ++ inits lu ++ t3.
Proof.
  intros Hmain Hfirst Hf Hif Hlen Htake Hnd Hall Htopo.
  destruct (init_run s main lmain initfini ms first Hmain Hfirst Hf Hif Hlen Htake Hnd Hall) as (s' & Hrun & Hnone & Htrace & Hcalled).
  exists s'. do 4 (split; [done|]). intros u lu v lv Hu Hv He Hne. rewrite Htrace. set (pre := default [] _).
  assert (Hlu : later first (u, lu) = inits lu) by (unfold later; by rewrite decide_False).
  destruct (decide (fst <$> first = Some v)) as [Hfv|Hfv].
  - destruct first as [[f l]|]; [|done]. injection Hfv as ->. assert (l = lv) as -> by (destruct (Hf v l eq_refl) as (Hl & _); rewrite Forall_forall in Hall; destruct (Hall _ Hv) as (Hl' & _); cbn in Hl'; congruence).
    apply list_elem_of_split in Hu as (m1 & m2 & ->). cbn [first_inits]. rewrite reverse_app, reverse_cons, <- app_assoc. cbn [app]. rewrite fmap_app, concat_app, fmap_cons, concat_cons, Hlu.
    exists (i_trace s), (pre ++ concat (later (Some (v, lv)) <$> reverse m2)), (concat (later (Some (v, lv)) <$> reverse m1)). by rewrite <- !app_assoc.
  - assert (Hlv : later first (v, lv) = inits lv) by (unfold later; by rewrite decide_False).
    destruct (topo_split _ _ _ u v Htopo) as (l1 & l2 & l3 & Hsplit); [by apply (list_elem_of_fmap_2 fst) in Hu|done|].
    destruct (split_keys ms u v lu lv l1 l2 l3) as (m1 & m2 & m3 & ->); try done.
    assert (Hrev : reverse (m1 ++ (u, lu) :: m2 ++ (v, lv) :: m3) = reverse m3 ++ (v, lv) :: reverse m2 ++ (u, lu) :: reverse m1).
    { rewrite reverse_app, reverse_cons, reverse_app, reverse_cons. by rewrite <- !app_assoc. }
    destruct (concat_in_order (later first) (i_trace s ++ first_inits first ++ pre) (reverse m3) (v, lv) (reverse m2) (u, lu) (reverse m1)) as (t1 & t2 & t3 & E).
    rewrite <- !app_assoc in E. rewrite Hlu, Hlv in E. rewrite Hrev. by exists t1, t2, t3.
Qed.

(** ** Destructors *)

(** What stays the same of an object while the open counts and indices change. *)
Definition core (s : ist) (m : mapid) : option (ident * dyninfo * deps) :=
  (fun l => (l_id l, l_dyn l, l_deps l)) <$> i_maps s !! m.
Definition init_called (s : ist) (m : mapid) : bool :=
  match i_maps s !! m with Some l => l_init_called l | None => false end.
Definition opencount (s : ist) (m : mapid) : Z :=
  match i_maps s !! m with Some l => l_direct_opencount l | None => 0 end.
Definition finis (s : ist) (m : mapid) : list Z :=
  match i_maps s !! m with
  | Some l => if l_init_called l then fini_functions l else []
  | None => []
  end.

(** The objects are loaded and are not proxies. *)
Definition present (s : ist) (m : mapid) : Prop := exists l, i_maps s !! m = Some l /\ l_real l = m.

Lemma core_present s s' m : core s' m = core s m -> present s m -> present s' m.
Proof.
  unfold core. intros Hc (l & Hl & Hr). rewrite Hl in Hc. destruct (i_maps s' !! m) as [l'|] eqn:E; [|done].
  cbn in Hc. injection Hc as H1 _ _. exists l'. split; [done|]. unfold l_real in *. congruence.
Qed.

(** A change of one object that keeps its core. *)
Lemma i_set_run m f s l : i_maps s !! m = Some l ->
  i_set m f s = Ret tt (mkI (<[m := f l]> (i_maps s)) (i_initfirst s) (i_ns s) (i_starting_up s) (i_trace s)).
Proof. intros H. unfold i_set, modify. by rewrite (alter_insert_eq _ _ _ _ H). Qed.

Lemma collect_run ms : forall i s,
  NoDup ms -> Forall (present s) ms ->
  exists s1, collect ms i s = Ret ms s1 /\ i_trace s1 = i_trace s /\ i_ns s1 = i_ns s /\
    (forall m, core s1 m = core s m /\ init_called s1 m = init_called s m) /\
    forall m, opencount s1 m = if decide (m ∈ ms) then u32 (opencount s m + 1) else opencount s m.
Proof.
  induction ms as [|m ms IH]; intros i s Hnd Hp; cbn [collect].
  { exists s. split_and!; done. }
  apply NoDup_cons in Hnd as [Hno Hnd]. apply Forall_cons in Hp as [(l & Hl & Hr) Hp].
  rewrite (M_bind_step _ _ _ l s) by (unfold i_get; by rewrite Hl).
  rewrite bool_decide_eq_true_2 by done.
  rewrite (M_bind_step _ _ _ _ _ (i_set_run m _ s l Hl)).
  set (s0 := mkI _ _ _ _ _). 
  assert (Hc0 : forall x, core s0 x = core s x /\ init_called s0 x = init_called s x).
  { intros x. unfold core, init_called, s0. cbn [i_maps]. destruct (decide (x = m)) as [->|].
    - rewrite lookup_insert_eq, Hl. by destruct l as [? ? ? [] ? ? ?].
    - by rewrite lookup_insert_ne. }
  assert (Ho0 : forall x, opencount s0 x = if decide (x = m) then u32 (opencount s x + 1) else opencount s x).
  { intros x. unfold opencount, s0. cbn [i_maps]. destruct (decide (x = m)) as [->|].
    - rewrite lookup_insert_eq, Hl. by destruct l as [? ? ? [] ? ? ?].
    - by rewrite lookup_insert_ne. }
  destruct (IH (i + 1) s0 Hnd) as (s1 & H1 & Ht & Hn & Hc & Ho).
  { eapply Forall_impl; [exact Hp|]. intros x Hx. by apply (core_present s); [apply Hc0|]. }
  rewrite (M_bind_step _ _ _ ms s1) by done. exists s1. split_and!; try done.
  - intros x. destruct (Hc x) as [-> ->]. apply Hc0.
  - intros x. rewrite Ho, !Ho0. destruct (decide (x = m)) as [->|Hne].
    + rewrite decide_False by done. rewrite decide_True by set_solver. done.
    + destruct (decide (x ∈ ms)); [by rewrite decide_True by set_solver|].
      rewrite decide_False by set_solver. done.
Qed.

(** The functions called do not depend on the open counts. *)
Lemma finis_core s s' m : core s' m = core s m -> init_called s' m = init_called s m -> finis s' m = finis s m.
Proof.
  unfold core, init_called, finis, fini_functions, l_addr. intros Hc Hi.
  destruct (i_maps s' !! m), (i_maps s !! m); try done. cbn in Hc. injection Hc as -> -> _. by rewrite Hi.
Qed.

Lemma run_fini_run ms : forall s,
  NoDup ms -> Forall (present s) ms ->
  exists s1, run_fini ms s = Ret tt s1 /\ i_trace s1 = i_trace s ++ concat (finis s <$> ms) /\
    (forall m, m ∈ ms -> init_called s1 m = false /\ opencount s1 m = u32 (opencount s m - 1)) /\
    forall m, m ∉ ms -> i_maps s1 !! m = i_maps s !! m.
Proof.
  induction ms as [|m ms IH]; intros s Hnd Hp; cbn [run_fini].
  { exists s. split_and!; try done. - by rewrite app_nil_r. - intros m Hm. by apply elem_of_nil in Hm. }
  apply NoDup_cons in Hnd as [Hno Hnd]. apply Forall_cons in Hp as [(l & Hl & Hr) Hp].
  rewrite (M_bind_step _ _ _ l s) by (unfold i_get; by rewrite Hl).
  set (s0 := mkI (<[m := set_opencount (u32 (l_direct_opencount l - 1)) (set_init_called false l)]> (i_maps s))
               (i_initfirst s) (i_ns s) (i_starting_up s) (i_trace s ++ finis s m)).
  assert (Hstep : ((if l_init_called l then _dl_call_fini m else mret tt);;
            i_set m (fun l => set_opencount (u32 (l_direct_opencount l - 1)) l)) s = Ret tt s0).
  { unfold s0, finis. rewrite Hl. destruct (l_init_called l) eqn:Ei.
    - rewrite (M_bind_step _ _ _ tt (mkI (<[m := set_init_called false l]> (i_maps s)) (i_initfirst s) (i_ns s)
        (i_starting_up s) (i_trace s ++ fini_functions l))).
      + rewrite (i_set_run m _ _ (set_init_called false l)) by apply lookup_insert_eq. cbn [i_maps i_initfirst i_ns i_starting_up i_trace].
        rewrite insert_insert_eq. by destruct l as [? ? ? [] ? ? ?].
      + unfold _dl_call_fini. rewrite (M_bind_step _ _ _ _ _ (i_set_run m _ s l Hl)).
        erewrite M_bind_step; [|unfold i_get; cbn [i_maps]; rewrite lookup_insert_eq; reflexivity].
        unfold calls, modify. cbn [i_maps i_initfirst i_ns i_starting_up i_trace]. by destruct l as [? ? ? [] ? ? ?].
    - rewrite (M_bind_step _ _ _ tt s) by done. rewrite (i_set_run m _ s l Hl), app_nil_r.
      destruct l as [? ? ? [] ? ? ?]. cbn in *. by rewrite Ei. }
  assert (Hassoc : forall (a b c : M ist unit), (a;; b;; c) s = ((a;; b);; c) s).
  { intros a b c. unfold mbind, M_bind. by destruct (a s). }
  rewrite Hassoc, (M_bind_step _ _ _ _ _ Hstep).
  assert (Hother : forall x, x ∈ ms -> i_maps s0 !! x = i_maps s !! x).
  { intros x Hx. unfold s0. cbn [i_maps]. apply lookup_insert_ne. by intros ->. }
  destruct (IH s0 Hnd) as (s1 & H1 & Ht & Hin & Hout).
  { rewrite Forall_forall in Hp |- *. intros x Hx. destruct (Hp x Hx) as (lx & Hlx & Hrx).
    exists lx. by rewrite Hother. }
  exists s1. split; [done|]. split; [|split].
  - rewrite Ht. unfold s0 at 1. cbn [i_trace]. rewrite <- app_assoc. cbn [fmap list_fmap concat]. do 3 f_equal.
    apply list_fmap_ext. intros i x Hx%list_elem_of_lookup_2. unfold finis. by rewrite Hother.
  - intros x [->|Hx]%elem_of_cons.
    + unfold init_called, opencount. rewrite Hout by done. unfold s0. cbn [i_maps].
      rewrite lookup_insert_eq, Hl. by destruct l as [? ? ? [] ? ? ?].
    + destruct (Hin x Hx) as [-> ->]. unfold opencount. by rewrite Hother.
  - intros x Hx. rewrite Hout by set_solver. unfold s0. cbn [i_maps]. apply lookup_insert_ne. set_solver.
Qed.

(** The dependency edges only depend on the cores. *)
Lemma edge_core s s' b u v :
  (forall m, core s' m = core s m) ->
  edge (graph_of (i_maps s')) b u v <-> edge (graph_of (i_maps s)) b u v.
Proof.
  intros Hc. unfold edge, graph_of. cbn. pose proof (Hc u) as Hu. pose proof (Hc v) as Hv. unfold core in *.
  unfold l_initfini, l_reldeps, l_main_map, l_faked.
  destruct (i_maps s' !! u), (i_maps s !! u), (i_maps s' !! v), (i_maps s !! v); try done; cbn in *;
    simplify_eq; repeat match goal with H : _ = _ |- _ => rewrite H; clear H end; done.
Qed.

Lemma topo_core s s' b l : (forall m, core s' m = core s m) ->
  topo (graph_of (i_maps s')) b l -> topo (graph_of (i_maps s)) b l.
Proof.
  intros Hc. induction l as [|u l IH]; [done|]. intros [Hu Ht]. split; [|by apply IH].
  intros v Hv. apply Hu. by apply (edge_core s s').
Qed.

(**  Exit runs the destructors in dependency order: for the objects of
    the base namespace, whose first one is the main program, with their
    dependencies among them and no cycle of DT_NEEDED entries, every object
    that was initialised has its DT_FINI_ARRAY (from the end) and DT_FINI run
    exactly once, before those of all its dependencies, the main program's
    first; afterwards no object counts as initialised and the open counts are
    what they were. *)
Theorem destructors_in_order s ns f rest rank :
  n_loaded ns = f :: rest -> n_auditing ns = false -> NoDup (n_loaded ns) ->
  Forall (present s) (n_loaded ns) ->
  (forall m, m ∈ n_loaded ns -> g_faked (graph_of (i_maps s)) m = false) ->
  g_main (graph_of (i_maps s)) f = true ->
  closed (graph_of (i_maps s)) (list_to_set (n_loaded ns)) true ->
  ranked (graph_of (i_maps s)) (list_to_set (n_loaded ns)) rank false ->
  (forall m, m ∈ n_loaded ns -> 0 <= opencount s m < 2 ^ 32 - 1) ->
  exists s' order, fini_ns dso_sort_algorithm_dfs false 0 ns s = Ret tt s' /\
    order ≡ₚ n_loaded ns /\ head order = Some f /\
    i_trace s' = i_trace s ++ concat (finis s <$> order) /\
    topo (graph_of (i_maps s)) false order /\
    forall m, m ∈ n_loaded ns -> init_called s' m = false /\ opencount s' m = opencount s m.
Proof.
  intros Hl Haud Hnd Hp Hfk Hmain Hcl Hrk Hopen.
  destruct (collect_run (n_loaded ns) 0 s Hnd Hp) as (s1 & Hcol & Htr & _ & Hcore & Hop).
  assert (Hc1 : forall m, core s1 m = core s m) by apply Hcore.
  destruct (sort_maps_dfs_spec (graph_of (i_maps s1)) (visited_of (i_maps s1)) (n_loaded ns) true true)
    as (order & Hsort & Hperm & Hhead & Htopo).
  { by rewrite Hl. }
  { done. }
  { intros m Hm. specialize (Hfk m Hm). pose proof (Hc1 m) as Hm1. unfold core in Hm1. cbn in *. unfold l_faked in *.
    destruct (i_maps s1 !! m), (i_maps s !! m); try done. cbn in Hm1. by injection Hm1 as -> _ _. }
  { intros u v Hu He. apply (Hcl u v Hu). by apply (edge_core s s1). }
  assert (Hto : topo (graph_of (i_maps s)) false order).
  { apply (topo_core s s1); [done|]. apply (Htopo rank).
    - intros u v Hu He. apply (Hrk u v Hu). by apply (edge_core s s1).
    - intros _ u f' Hu Hf' He. rewrite Hl in Hf'. injection Hf' as <-.
      apply (edge_core s s1) in He; [|done]. destruct He as (_ & He & _). congruence. }
  destruct (run_fini_run order s1) as (s2 & Hrun & Htr2 & Hin & _).
  { by rewrite Hperm. }
  { apply Forall_forall. intros m Hm. rewrite Hperm in Hm. apply (core_present s); [done|].
    rewrite Forall_forall in Hp. by apply Hp. }
  exists s2, order. split_and!; try done.
  - assert (Hlen : (length (n_loaded ns) =? 0)%nat = false) by (by rewrite Hl).
    unfold fini_ns. rewrite Haud, Hlen. cbn [orb negb Bool.eqb].
    rewrite (M_bind_step _ _ _ _ _ Hcol).
    rewrite (M_bind_step _ _ _ tt s1) by (by rewrite !Nat.eqb_refl).
    rewrite (M_bind_step _ _ _ tt s1) by done.
    rewrite (M_bind_step _ _ _ (i_maps s1) s1) by done.
    rewrite (M_bind_step _ _ _ order s1) by (unfold lift; cbn [_dl_sort_maps Nat.eqb]; by rewrite Hsort).
    done.
  - rewrite Hhead by done. by rewrite Hl.
  - rewrite Htr2, Htr. do 2 f_equal. apply list_fmap_ext. intros i m _. apply finis_core; apply Hcore.
  - intros m Hm. destruct (Hin m) as [Hi Ho]; [by rewrite Hperm|]. split; [done|].
    rewrite Ho, Hop, decide_True by done. specialize (Hopen m Hm).
    rewrite (u32_small (_ + 1)) by lia. rewrite u32_small by lia. lia.
Qed.

(** ** A program with two libraries *)
Module Example7.

Definition obj (self : mapid) (name : string) (ty : l_type_t) (main called : bool) (needed search : list mapid)
    (init : option Z) (inita finia : list Z) (fini : option Z) : link_map :=
  mkMap (mkIdent name (0x10000 * Z.of_nat self) self 0 ty 1 false main false)
    (mkDyn [] "" no_hash None [] init (Some inita) None (Some finia) fini)
    (mkDeps (Some needed) None 0 search [])
    (mkState false true called false false false false false 0 1)
    (mkCache None 0 None None) no_tls no_segs.

(** 0 needs 1 and 2, 1 needs 2. *)
Definition o0 (c : bool) := obj 0 "" lt_executable true c [0; 1; 2]%nat [0; 1; 2]%nat None [] [0xe1; 0xe2] None.
Definition o1 (c : bool) := obj 1 "liba.so" lt_library false c [1; 2]%nat [] (Some 0x100) [0xa1; 0xa2] [0xb1; 0xb2] (Some 0x200).
Definition o2 (c : bool) := obj 2 "libc.so" lt_library false c [2]%nat [] None [0xc1] [0xd1] None.
Definition st (c : bool) : ist :=
  mkI {[0%nat := o0 c; 1%nat := o1 c; 2%nat := o2 c]} None [mkNsinfo [0; 1; 2]%nat false] true [].

Lemma edges c b u v : edge (graph_of (i_maps (st c))) b u v -> (u = 0 /\ (v = 1 \/ v = 2) \/ u = 1 /\ v = 2)%nat.
Proof.
  intros (Hv & Hm & _ & Hne).
  assert (Hr : g_reldeps (graph_of (i_maps (st c))) u = None).
  { destruct u as [|[|[|u]]]; try (by destruct c). cbn. rewrite !lookup_insert_ne by done. by rewrite lookup_singleton_ne. }
  rewrite Hr in Hv. destruct Hv as [Hv|[_ Hv]]; [|by apply elem_of_nil in Hv].
  destruct u as [|[|[|u]]].
  - assert (v ∈ [0; 1; 2]%nat) by (by destruct c). set_solver.
  - assert (v ∈ [1; 2]%nat) by (by destruct c). set_solver.
  - assert (v ∈ [2]%nat) by (by destruct c). set_solver.
  - exfalso. revert Hv. cbn. rewrite !lookup_insert_ne by done. rewrite lookup_singleton_ne by done.
    apply not_elem_of_nil.
Qed.

(** Library 1, which needs library 2, is marked DF_1_INITFIRST: its constructors run first. *)
Definition stf : ist := mkI (i_maps (st false)) (Some 1%nat) (i_ns (st false)) true [].
Definition objs : list (mapid * link_map) := [(0%nat, o0 false); (1%nat, o1 false); (2%nat, o2 false)].
Lemma constructors_in_order_witness :
  exists s', _dl_init 0 stf = Ret tt s' /\ i_initfirst s' = None /\
    i_trace s' = [] ++ inits (o1 false) ++ [] ++ concat (later (Some (1%nat, o1 false)) <$> reverse objs) /\
    (forall m l, (m, l) ∈ objs -> i_maps s' !! m = Some (set_init_called true l)) /\
    forall u lu v lv, (u, lu) ∈ objs -> (v, lv) ∈ objs ->
      edge (graph_of (i_maps stf)) false u v -> Some 1%nat <> Some u ->
      exists t1 t2 t3, i_trace s' = t1 ++ inits lv ++ t2 ++ inits lu ++ t3.
Proof.
  apply (constructors_in_order stf 0 (o0 false) [0; 1; 2]%nat objs (Some (1%nat, o1 false))).
  - reflexivity.
  - reflexivity.
  - intros f l [= <- <-]. repeat split; left; reflexivity.
  - reflexivity.
  - cbn. lia.
  - reflexivity.
  - apply (bool_decide_unpack _). vm_compute. exact I.
  - repeat constructor.
  - repeat split; intros v Hv; apply edges in Hv; set_solver by lia.
Defined.

(** The functions called: the library without dependencies first. *)
Example constructors_trace :
  concat (later None <$> reverse objs) = [0xc1; 0x10100; 0xa1; 0xa2] /\
  inits (o1 false) ++ concat (later (Some (1%nat, o1 false)) <$> reverse objs) = [0x10100; 0xa1; 0xa2; 0xc1].
Proof. split; reflexivity. Qed.

Definition rank (m : mapid) : nat := (2 - m)%nat.

Lemma destructors_in_order_witness :
  exists s' order, fini_ns dso_sort_algorithm_dfs false 0 (mkNsinfo [0; 1; 2]%nat false) (st true) = Ret tt s' /\
    order ≡ₚ [0; 1; 2]%nat /\ head order = Some 0%nat /\
    i_trace s' = [] ++ concat (finis (st true) <$> order) /\
    topo (graph_of (i_maps (st true))) false order /\
    forall m, m ∈ [0; 1; 2]%nat -> init_called s' m = false /\ opencount s' m = opencount (st true) m.
Proof.
  apply (destructors_in_order (st true) (mkNsinfo [0; 1; 2]%nat false) 0 [1; 2]%nat rank).
  - reflexivity.
  - reflexivity.
  - apply (bool_decide_unpack _). vm_compute. exact I.
  - repeat constructor; eexists; split; reflexivity.
  - intros m Hm. cbn [n_loaded] in Hm.
    repeat (apply elem_of_cons in Hm as [->|Hm]; [reflexivity|]). by apply elem_of_nil in Hm.
  - reflexivity.
  - intros u v Hu He. apply edges in He. rewrite elem_of_list_to_set. cbn [n_loaded]. set_solver by lia.
  - intros u v Hu He. apply edges in He. unfold rank. lia.
  - intros m Hm. cbn [n_loaded] in Hm.
    repeat (apply elem_of_cons in Hm as [->|Hm]; [vm_compute; split; [discriminate|reflexivity]|]).
    by apply elem_of_nil in Hm.
Defined.

Example destructors_trace :
  match fini_ns dso_sort_algorithm_dfs false 0 (mkNsinfo [0; 1; 2]%nat false) (st true) with
  | Ret _ s => i_trace s
  | _ => []
  end = [0xe2; 0xe1; 0xb2; 0xb1; 0x10200; 0xd1].
Proof. vm_compute. reflexivity. Qed.

End Example7.
