(* ===== verification/Deps.v ===== *)
(** * Dependencies

    [_dl_map_object_deps] ([elf/dl-deps.c]): the objects that an object needs are opened and put into its search list;
    auxiliary objects and filtees come in front of the object that names them.

    Opening a file ([_dl_map_object]) and the substitution of dynamic string tokens are parameters.  Debugging output and the
    modes of opening are not modelled, and errors carry no [errno]. *)

From S2P Require Import Prelude LinkMap SortMaps.

(** ** State *)

(** Entries of the dynamic section. *)
Inductive d_tag := DT_NEEDED | DT_AUXILIARY | DT_FILTER | DT_OTHER.
#[export] Instance d_tag_eq_dec : EqDecision d_tag.
Proof. solve_decision. Defined.
Record dynent := mkDynent { de_tag : d_tag; de_name : string }.

(** What is fixed when an object is mapped; [o_dyn] ends before [DT_NULL]. *)
Record dobj := mkDobj {
  o_name : string;
  o_type : l_type_t;
  o_ns : nat;
  o_faked : bool;
  o_main : bool;
  o_proxy : bool;                    (* l_real is another object *)
  o_dyn : list dynent;
  o_ldnum : Z }.

(** [l_searchlist.r_list], [l_initfini] and the rest of the array of [l_initfini], [l_reldeps] *)
Record dlists := mkLists {
  dl_searchlist : option (list mapid);
  dl_initfini : option (list mapid);
  dl_copy : list mapid;
  dl_reldeps : option (list mapid) }.

Record dmap := mkD {
  d_obj : dobj;
  d_lists : dlists;
  d_reserved : bool;
  d_prev : option mapid;
  d_next : option mapid;
  d_idx : Z }.

Definition with_lists (x : dlists) (l : dmap) : dmap := mkD (d_obj l) x (d_reserved l) (d_prev l) (d_next l) (d_idx l).
Definition with_reserved (b : bool) (l : dmap) : dmap := mkD (d_obj l) (d_lists l) b (d_prev l) (d_next l) (d_idx l).
Definition with_prev (p : option mapid) (l : dmap) : dmap := mkD (d_obj l) (d_lists l) (d_reserved l) p (d_next l) (d_idx l).
Definition with_next (p : option mapid) (l : dmap) : dmap := mkD (d_obj l) (d_lists l) (d_reserved l) (d_prev l) p (d_idx l).
Definition with_initfini (i : list mapid) (copy : list mapid) (l : dmap) : dmap :=
  with_lists (mkLists (dl_searchlist (d_lists l)) (Some i) copy (dl_reldeps (d_lists l))) l.
Definition with_search (r : list mapid) (l : dmap) : dmap :=
  with_lists (mkLists (Some r) (dl_initfini (d_lists l)) (dl_copy (d_lists l)) (dl_reldeps (d_lists l))) l.
Definition with_reldeps (r : list mapid) (l : dmap) : dmap :=
  with_lists (mkLists (dl_searchlist (d_lists l)) (dl_initfini (d_lists l)) (dl_copy (d_lists l)) (Some r)) l.

(** A namespace: the first object of the list linked by [l_next], the number of objects, and [libc_map]. *)
Record dns := mkDns { dn_loaded : option mapid; dn_nloaded : Z; dn_libc : option mapid }.

(** [ds_allocs] counts the requests for memory. *)
Record dstate := mkDS { ds_maps : gmap mapid dmap; ds_ns : list dns; ds_allocs : nat }.
Definition set_dmaps (x : gmap mapid dmap) (s : dstate) : dstate := mkDS x (ds_ns s) (ds_allocs s).
Definition set_allocs (n : nat) (s : dstate) : dstate := mkDS (ds_maps s) (ds_ns s) n.

Definition d_get (m : mapid) : M dstate dmap := fun s =>
  match ds_maps s !! m with Some l => Ret l s | None => Wild end.
Definition d_set (m : mapid) (f : dmap -> dmap) : M dstate unit := modify (fun s => set_dmaps (alter f m (ds_maps s)) s).

(** ** The list of all objects *)
Fixpoint last_object (fuel : nat) (l : mapid) : M dstate mapid :=
  match fuel with
  | O => lift Diverge
  | S fuel => x ← d_get l; match d_next x with None => mret l | Some n => last_object fuel n end
  end.

(** The list has as many elements as there are objects at most.  The lock and [l_serial] are left out. *)
Definition _dl_add_to_namespace_list (new : mapid) (nsid : nat) : M dstate unit :=
  s ← gets id;
  ns ← lift (res_of_option (ds_ns s !! nsid));
  match dn_loaded ns with
  | Some l => l ← last_object (S (size (ds_maps s))) l; d_set new (with_prev (Some l));; d_set l (with_next (Some new))
  | None => modify (fun s => mkDS (ds_maps s) (<[nsid := mkDns (Some new) (dn_nloaded ns) (dn_libc ns)]> (ds_ns s)) (ds_allocs s))
  end;;
  modify (fun s => mkDS (ds_maps s) (alter (fun ns => mkDns (dn_loaded ns) (dn_nloaded ns + 1) (dn_libc ns)) nsid (ds_ns s)) (ds_allocs s)).

(** An element of the list; the list is in order of the pointers [next]. *)
Record node := mkNode { n_done : bool; n_map : mapid }.

Section Deps.
(** Whether the n-th request for memory succeeds. *)
Context (alloc_ok : nat -> bool).
(** [_dl_map_object (loader, name, type, .., nsid)] *)
Context (map_object : mapid -> string -> l_type_t -> nat -> M dstate mapid).
(** [_dl_dst_count], [_dl_dst_substitute], [__libc_enable_secure] *)
Context (dst_count : string -> Z) (dst_substitute : mapid -> string -> string) (enable_secure : bool).
(** The sort of the objects. *)
Context (algo : dso_sort_algorithm) (visited : gset mapid) (trace_mode : bool).

Definition alloc : M dstate bool := fun s => Ret (alloc_ok (ds_allocs s)) (set_allocs (S (ds_allocs s)) s).

Definition openaux (l : mapid) (name : string) : M dstate mapid :=
  x ← d_get l;
  map_object l name (if bool_decide (o_type (d_obj x) = lt_executable) then lt_library else o_type (d_obj x)) (o_ns (d_obj x)).

(** [None]: the entry is skipped. *)
Definition expand_dst (l : mapid) (str : string) (fatal : bool) : res (option string) :=
  if dst_count str =? 0 then Ok (Some str)
  else if enable_secure then Signal str "DST not allowed in SUID/SGID programs"
  else
    let r := dst_substitute l str in
    if bool_decide (r = "") then
      if fatal then Signal str "empty dynamic string token substitution" else Ok None
    else Ok (Some r).

(** ** Loading the dependencies of one object *)

(** While the entries of [l] are read, the list is [pre ++ p_ins ++ l :: p_rest]: [p_ins] are the auxiliary objects put in front of
    [l]; [p_needed] is the array [needed] with its size. *)
Record progress := mkProgress {
  p_ins : list node;
  p_rest : list node;
  p_nlist : Z;
  p_needed : option (list mapid) }.

Definition remember (dep : mapid) (ldnum : Z) (p : progress) : res progress :=
  match p_needed p with
  | None => Ok p
  | Some ds => if Z.of_nat (length ds) <? ldnum then Ok (mkProgress (p_ins p) (p_rest p) (p_nlist p) (Some (ds ++ [dep]))) else Undef
  end.

(** [aux] is moved in front of [l] in the list of all objects. *)
Definition relink (aux l : mapid) : M dstate unit :=
  a ← d_get aux;
  match d_prev a with Some p => d_set p (with_next (d_next a)) | None => mret tt end;;
  a ← d_get aux;
  match d_next a with Some n => d_set n (with_prev (d_prev a)) | None => mret tt end;;
  x ← d_get l;
  d_set aux (with_prev (d_prev x));;
  d_set l (with_prev (Some aux));;
  a ← d_get aux;
  match d_prev a with Some p => d_set p (with_next (Some aux)) | None => mret tt end;;
  d_set aux (with_next (Some l)).

(** The first element of the list that is [m] is taken out. *)
Fixpoint take_out (m : mapid) (ns : list node) : option (list node) :=
  match ns with
  | [] => None
  | n :: ns => if bool_decide (n_map n = m) then Some ns else rest ← take_out m ns; Some (n :: rest)
  end.

Definition needed_entry (l : mapid) (ldnum : Z) (name : string) (p : progress) : M dstate ((string * string) + progress) :=
  r ← catch (openaux l name);
  match r with
  | inl e => mret (inl e)
  | inr dep =>
      x ← d_get dep;
      p ← (if d_reserved x then mret p
           else d_set dep (with_reserved true);; mret (mkProgress (p_ins p) (p_rest p ++ [mkNode false dep]) (p_nlist p + 1) (p_needed p)));
      p ← lift (remember dep ldnum p);
      mret (inr p)
  end.

Definition aux_entry (l : mapid) (ldnum : Z) (tag : d_tag) (name : string) (p : progress) : M dstate ((string * string) + progress) :=
  r ← catch (openaux l name);
  match r with
  | inl e => if bool_decide (tag = DT_AUXILIARY) then mret (inr p) else mret (inl e)
  | inr aux =>
      p ← lift (remember aux ldnum p);
      x ← d_get aux;
      if d_reserved x then
        match take_out aux (p_rest p) with
        | Some rest => relink aux l;; mret (inr (mkProgress (p_ins p ++ [mkNode false aux]) rest (p_nlist p) (p_needed p)))
        | None => mret (inr p)
        end
      else
        d_set aux (with_reserved true);;
        relink aux l;;
        mret (inr (mkProgress (p_ins p ++ [mkNode false aux]) (p_rest p) (p_nlist p + 1) (p_needed p)))
  end.

Definition entry (l : mapid) (ldnum : Z) (d : dynent) (p : progress) : M dstate ((string * string) + progress) :=
  match de_tag d with
  | DT_NEEDED =>
      name ← lift (expand_dst l (de_name d) false);
      match name with None => mret (inr p) | Some name => needed_entry l ldnum name p end
  | DT_OTHER => mret (inr p)
  | tag =>
      name ← lift (expand_dst l (de_name d) (bool_decide (tag = DT_AUXILIARY)));
      match name with None => mret (inr p) | Some name => aux_entry l ldnum tag name p end
  end.

(** [for (d = l->l_ld; d->d_tag != DT_NULL; ++d)]; an error comes with what was done before it. *)
Fixpoint entries (l : mapid) (ldnum : Z) (ds : list dynent) (p : progress) : M dstate (option (string * string) * progress) :=
  match ds with
  | [] => mret (None, p)
  | d :: ds =>
      r ← entry l ldnum d p;
      match r with inl e => mret (Some e, p) | inr p => entries l ldnum ds p end
  end.

(** The array [l_initfini] of an object that is only a dependency: the object, its dependencies, a null pointer and the same again. *)
Definition store_needed (map l : mapid) (p : progress) : M dstate unit :=
  match p_needed p with
  | None => mret tt
  | Some ds =>
      ok ← alloc;
      x ← d_get map;
      if (ok : bool) then d_set l (with_initfini (l :: ds) (l :: ds))
      else lift (Signal (o_name (d_obj x)) "cannot allocate dependency list")
  end.

Fixpoint skip_done (pre rest : list node) : list node * list node :=
  match rest with
  | n :: rest => if n_done n then skip_done (pre ++ [n]) rest else (pre, n :: rest)
  | [] => (pre, [])
  end.

Definition has_deps (o : dobj) : bool := existsb (fun d => negb (bool_decide (de_tag d = DT_OTHER))) (o_dyn o).

(** [for (runp = known; runp; )]: [pre] are the elements before [runp]. *)
Fixpoint deps_loop (fuel : nat) (map : mapid) (pre rest : list node) (nlist : Z) : M dstate (option (string * string) * list node * Z) :=
  match fuel with
  | O => lift Diverge
  | S fuel =>
      match rest with
      | [] => mret (None, pre, nlist)
      | n :: rest =>
          let l := n_map n in
          x ← d_get l;
          needed ← (if bool_decide (dl_searchlist (d_lists x) = None) && bool_decide (dl_initfini (d_lists x) = None) && bool_decide (l <> map) && (0 <? o_ldnum (d_obj x))
                    then ok ← alloc;
                         m ← d_get map;
                         if (ok : bool) then mret (Some []) else lift (Signal (o_name (d_obj m)) "cannot allocate dependency buffer")
                    else mret None);
          let p := mkProgress [] rest nlist needed in
          '(err, p) ← (if has_deps (d_obj x) then entries l (o_ldnum (d_obj x)) (o_dyn (d_obj x)) p else mret (None, p));
          match err with
          | Some e => mret (Some e, pre ++ p_ins p ++ mkNode true l :: p_rest p, p_nlist p)
          | None =>
              (match p_needed p with
               | Some ds => if Z.of_nat (length ds) <? o_ldnum (d_obj x) then mret tt else lift Undef
               | None => mret tt
               end);;
              store_needed map l p;;
              match p_ins p with
              | [] => let '(pre, rest) := skip_done (pre ++ [mkNode true l]) (p_rest p) in deps_loop fuel map pre rest (p_nlist p)
              | ins => deps_loop fuel map pre (ins ++ mkNode true l :: p_rest p) (p_nlist p)
              end
          end
      end
  end.

(** ** The search list *)

Fixpoint preload (ms : list mapid) : M dstate unit :=
  match ms with
  | [] => mret tt
  | m :: ms => d_get m;; d_set m (with_reserved true);; preload ms
  end.

(** The objects of the list without faked ones; the marks are cleared. *)
Fixpoint flatten (ns : list node) : M dstate (list mapid) :=
  match ns with
  | [] => mret []
  | n :: ns =>
      x ← d_get (n_map n);
      d_set (n_map n) (with_reserved false);;
      r ← flatten ns;
      mret (if trace_mode && o_faked (d_obj x) then r else n_map n :: r)
  end.

Fixpoint mark (b : bool) (ms : list mapid) : M dstate unit :=
  match ms with
  | [] => mret tt
  | m :: ms => d_set m (with_reserved b);; mark b ms
  end.

(** Relocation dependencies that are dependencies now.  [done] are the ones kept so far; after the array could not be allocated, the
    next one tries again. *)
Fixpoint unreserved (ms : list mapid) : M dstate (list mapid) :=
  match ms with
  | [] => mret []
  | m :: ms => x ← d_get m; r ← unreserved ms; mret (if d_reserved x then r else m :: r)
  end.
Fixpoint prune_reldeps (done ms : list mapid) : M dstate (option (list mapid)) :=
  match ms with
  | [] => mret None
  | m :: ms =>
      x ← d_get m;
      if d_reserved x then
        ok ← alloc;
        if (ok : bool) then r ← unreserved ms; mret (Some (done ++ r)) else prune_reldeps (done ++ [m]) ms
      else prune_reldeps (done ++ [m]) ms
  end.

Definition reldeps_without (map : mapid) (r : list mapid) : M dstate (option (list mapid)) :=
  x ← d_get map;
  match dl_reldeps (d_lists x) with
  | None => mret None
  | Some ds =>
      mark true r;;
      d_set map (with_reserved false);;
      rd ← prune_reldeps [] ds;
      mark false r;;
      mret rd
  end.

Definition dgraph (ms : gmap mapid dmap) : graph :=
  mkGraph (fun m => l ← ms !! m; dl_initfini (d_lists l)) (fun m => l ← ms !! m; dl_reldeps (d_lists l))
    (fun m => match ms !! m with Some l => o_faked (d_obj l) | None => false end)
    (fun m => match ms !! m with Some l => o_main (d_obj l) | None => false end)
    (fun m => match ms !! m with Some l => o_proxy (d_obj l) | None => false end)
    (fun m => match ms !! m with Some l => d_idx l | None => 0 end).

(** The object itself goes to the front. *)
Fixpoint index_of (m : mapid) (r : list mapid) : option nat :=
  match r with
  | [] => None
  | x :: r => if bool_decide (x = m) then Some 0%nat else S <$> index_of m r
  end.
Definition to_front (map : mapid) (r : list mapid) : res (list mapid) :=
  match index_of map r with
  | Some i => Ok (map :: take i r ++ drop (S i) r)
  | None => Fatal "map_index < nlist"
  end.

Definition search_list (map : mapid) (known : list node) (nlist : Z) : M dstate unit :=
  x ← d_get map;
  (if bool_decide (is_Some (dl_initfini (d_lists x))) && bool_decide (o_type (d_obj x) = lt_loaded)
   then lift (c_assert (bool_decide (dl_searchlist (d_lists x) = None)) "map->l_searchlist.r_list == NULL") else mret tt);;
  ok ← alloc;
  (if (ok : bool) then mret tt else lift (Signal (o_name (d_obj x)) "cannot allocate symbol search list"));;
  r ← flatten known;
  (if Z.of_nat (length r) <=? nlist then mret tt else lift Undef);;
  d_set map (with_search r);;
  rd ← reldeps_without map r;
  l_initfini ← lift (to_front map r);
  s ← gets id;
  first ← lift (res_of_option (head l_initfini));
  f ← d_get first;
  ns ← lift (res_of_option (ds_ns s !! o_ns (d_obj f)));
  sorted ← lift (_dl_sort_maps algo (dgraph (ds_maps s)) visited l_initfini (negb (bool_decide (dn_libc ns = Some first))) false);
  d_set map (with_initfini sorted (if Z.of_nat (length r) =? nlist then r else []));;
  match rd with None => mret tt | Some rd => d_set map (with_reldeps rd) end.

Definition _dl_map_object_deps (fuel : nat) (map : mapid) (preloads : list mapid) : M dstate unit :=
  preload (map :: preloads);;
  '(err, known, nlist) ← deps_loop fuel map [] (mkNode false <$> map :: preloads) (1 + Z.of_nat (length preloads));
  search_list map known nlist;;
  match err with None => mret tt | Some (o, e) => lift (Signal o e) end.

End Deps.
