(* ===== verification/DepsSpec.v ===== *)
(** * Dependencies: the list of objects

    The loop of [_dl_map_object_deps] ends when filters are not circular; its list has every object once, is closed under
    dependencies, and has filtees and auxiliary objects in front of the objects that name them. *)

From S2P Require Import Prelude LinkMap SortMaps Deps.

(** ** Order in a list *)
Definition before (L : list mapid) (a b : mapid) : Prop := [a; b] `sublist_of` L.

Lemma sublist_filter_mono (P : mapid -> Prop) `{!forall x, Decision (P x)} (l1 l2 : list mapid) : l1 `sublist_of` l2 -> filter P l1 `sublist_of` filter P l2.
Proof.
  induction 1 as [|x l1 l2 Hs IH|x l1 l2 Hs IH]; [done| |]; rewrite ?filter_cons; destruct (decide (P x)); try done; [by apply sublist_skip|by apply sublist_cons].
Qed.
Lemma before_mono L L' a b : L `sublist_of` L' -> before L a b -> before L' a b.
Proof. intros H1 H2. unfold before in *. by etrans. Qed.
Lemma before_in L a b : before L a b -> a ∈ L /\ b ∈ L.
Proof. intros H. apply sublist_subseteq in H. split; apply H; [left|right; left]. Qed.
Lemma before_split L1 L2 a b : a ∈ L1 -> b ∈ L2 -> before (L1 ++ L2) a b.
Proof. intros Ha Hb. apply (sublist_app [a] L1 [b] L2); by apply singleton_sublist_l. Qed.

Lemma split_unique (x : mapid) p q : forall p' q', NoDup (p ++ x :: q) -> p ++ x :: q = p' ++ x :: q' -> p = p' /\ q = q'.
Proof.
  induction p as [|y p IH]; intros [|y' p'] q' Hnd E; cbn in *.
  - by injection E as ->.
  - injection E as -> ->. apply NoDup_cons in Hnd as [Hn _]. exfalso. apply Hn. set_solver.
  - injection E as -> <-. apply NoDup_cons in Hnd as [Hn _]. exfalso. apply Hn. set_solver.
  - injection E as <- E2. apply NoDup_cons in Hnd as [_ Hnd]. destruct (IH p' q' Hnd E2) as [-> ->]. done.
Qed.

(** Moving [x] forward keeps what is before something else. *)
Lemma before_move A B1 B2 l x a b : NoDup (A ++ l :: B1 ++ x :: B2) -> b <> x -> before (A ++ l :: B1 ++ x :: B2) a b -> before (A ++ x :: l :: B1 ++ B2) a b.
Proof.
  intros Hnd Hb Hab. set (rest := l :: B1 ++ B2).
  assert (Efil : filter (fun y => y <> x) (A ++ l :: B1 ++ x :: B2) = A ++ rest).
  { assert (Hx : forall y, y ∈ A ++ l :: B1 \/ y ∈ B2 -> y <> x).
    { intros y Hy ->. replace (A ++ l :: B1 ++ x :: B2) with ((A ++ l :: B1) ++ x :: B2) in Hnd by (by rewrite <- app_assoc).
      apply NoDup_app in Hnd as (_ & N2 & [N3 _]%NoDup_cons). destruct Hy as [Hy|Hy]; [|done]. apply (N2 x Hy). by left. }
    unfold rest. rewrite filter_app, filter_cons, filter_app, filter_cons, decide_True, decide_False by (try tauto; apply Hx; left; set_solver).
    rewrite !filter_every; [done|..]; intros y Hy; apply Hx; set_solver. }
  destruct (decide (a = x)) as [->|Ha].
  - assert (Hbin : b ∈ rest).
    { apply sublist_cons_l in Hab as (k1 & k2 & E & Hk%singleton_sublist_l).
      replace (A ++ l :: B1 ++ x :: B2) with ((A ++ l :: B1) ++ x :: B2) in * by (by rewrite <- app_assoc).
      destruct (split_unique x _ _ _ _ Hnd E) as [_ <-]. unfold rest. set_solver. }
    apply (before_mono (x :: rest)); [by apply sublist_inserts_l|]. apply (before_split [x] rest); [left|done].
  - apply (sublist_filter_mono (fun y => y <> x)) in Hab. rewrite Efil, !filter_cons, !decide_True in Hab by done.
    apply (before_mono (A ++ rest)); [|done]. apply sublist_app; [done|]. by apply sublist_cons.
Qed.

(** ** Taking an element out of the list *)
Definition maps_of (ns : list node) : list mapid := n_map <$> ns.
Lemma take_out_Some m ns r : take_out m ns = Some r -> exists b n c, ns = b ++ n :: c /\ n_map n = m /\ r = b ++ c.
Proof.
  revert r. induction ns as [|n ns IH]; intros r; cbn [take_out]; [done|]. case_bool_decide as E.
  - intros [= <-]. by exists [], n, ns.
  - destruct (take_out m ns) as [r'|]; [|done]. cbn. intros [= <-]. destruct (IH r' eq_refl) as (b & n' & c & -> & E' & ->). by exists (n :: b), n', c.
Qed.
Lemma take_out_None m ns : take_out m ns = None -> m ∉ maps_of ns.
Proof.
  induction ns as [|n ns IH]; cbn [take_out maps_of]; [by intros _ ?%elem_of_nil|]. case_bool_decide as E; [done|].
  destruct (take_out m ns); [done|]. intros _ [?|Hin]%elem_of_cons; [congruence|by apply IH].
Qed.

(** ** Opening files *)
Section Spec.
Context (map_object : mapid -> string -> l_type_t -> nat -> M dstate mapid).
Context (dst_count : string -> Z) (dst_substitute : mapid -> string -> string) (enable_secure : bool).
(** The dynamic sections of all objects, and the object a name stands for in another one. *)
Context (dyn : mapid -> list dynent) (opens : mapid -> string -> option mapid).

Definition obj_ok (s : dstate) (m : mapid) (x : dmap) : Prop :=
  o_dyn (d_obj x) = dyn m /\ Z.of_nat (length (dyn m)) < o_ldnum (d_obj x) /\ (o_ns (d_obj x) < length (ds_ns s))%nat /\ o_faked (d_obj x) = false.

(** Objects are added, the others stay as they are, apart from their place in the list of all objects. *)
Record grown (s s' : dstate) : Prop := {
  gr_old : forall m x, ds_maps s !! m = Some x -> exists x', ds_maps s' !! m = Some x' /\ d_obj x' = d_obj x /\ d_lists x' = d_lists x /\ d_reserved x' = d_reserved x;
  gr_new : forall m x', ds_maps s !! m = None -> ds_maps s' !! m = Some x' -> d_reserved x' = false /\ d_lists x' = mkLists None None [] None /\ obj_ok s' m x';
  gr_ns : length (ds_ns s') = length (ds_ns s) }.

(** What [_dl_map_object] promises: a name stands for the same object at all times, and the only effect is that the object is mapped when
    it is not there. *)
Class Opener : Prop := open_spec : forall l name ty nsid s x, ds_maps s !! l = Some x -> obj_ok s l x -> nsid = o_ns (d_obj x) ->
  match map_object l name ty nsid s with
  | Ret m s' => opens l name = Some m /\ is_Some (ds_maps s' !! m) /\ grown s s'
  | Raise _ _ s' => opens l name = None /\ grown s s'
  | _ => False
  end.

Definition is_aux (d : dynent) : bool := bool_decide (de_tag d = DT_AUXILIARY) || bool_decide (de_tag d = DT_FILTER).
Definition expanded (l : mapid) (d : dynent) : res (option string) :=
  expand_dst dst_count dst_substitute enable_secure l (de_name d) (bool_decide (de_tag d = DT_AUXILIARY)).
(** The object that an entry stands for. *)
Definition found (l : mapid) (d : dynent) : option mapid :=
  if bool_decide (de_tag d = DT_OTHER) then None else match expanded l d with Ok (Some n) => opens l n | _ => None end.
(** An entry whose object can not be opened although it is necessary. *)
Definition failing (l : mapid) (d : dynent) : Prop :=
  (de_tag d = DT_NEEDED \/ de_tag d = DT_FILTER) /\ exists n, expanded l d = Ok (Some n) /\ opens l n = None.

(** ** The invariant of the loop *)
Context (s0 : dstate) (D : list mapid).
Definition old_lists (m : mapid) : dlists := match ds_maps s0 !! m with Some x => d_lists x | None => mkLists None None [] None end.

Definition satisfied (L : list mapid) (l : mapid) (d : dynent) : Prop :=
  forall m, found l d = Some m -> m ∈ L /\ (is_aux d = true -> before L m l \/ m = l).

(** The arrays of an object: those from before, or the array of its dependencies. *)
Definition lists_ok (L : list mapid) (m : mapid) (ls : dlists) : Prop :=
  ls = old_lists m \/
  m ∈ L /\ dl_searchlist (old_lists m) = None /\ dl_initfini (old_lists m) = None /\
    exists ds, ls = mkLists None (Some (m :: ds)) (m :: ds) (dl_reldeps (old_lists m)) /\ forall v, v ∈ ds -> v ∈ L.

(** [cur] is the object whose entries are read, with those that are not read yet. *)
Record linv (s : dstate) (ns : list node) (nlist : Z) (cur : option (mapid * list dynent)) : Prop := {
  li_nodup : NoDup (maps_of ns);
  li_len : nlist = Z.of_nat (length ns);
  li_known : forall m, m ∈ maps_of ns -> m ∈ D /\ is_Some (ds_maps s !! m);
  li_marks : forall m x, ds_maps s !! m = Some x -> d_reserved x = bool_decide (m ∈ maps_of ns);
  li_obj : forall m x, ds_maps s !! m = Some x -> obj_ok s m x;
  li_lists : forall m x, ds_maps s !! m = Some x -> lists_ok (maps_of ns) m (d_lists x);
  li_old : forall m, is_Some (ds_maps s0 !! m) -> is_Some (ds_maps s !! m);
  li_done : forall n, n ∈ ns -> n_done n = true -> forall d, d ∈ dyn (n_map n) ->
    satisfied (maps_of ns) (n_map n) d \/ exists todo, cur = Some (n_map n, todo) /\ d ∈ todo }.

Lemma obj_ok_ns s s' m x : length (ds_ns s') = length (ds_ns s) -> obj_ok s m x -> obj_ok s' m x.
Proof. unfold obj_ok. by intros ->. Qed.

Lemma linv_grown s s' ns n cur : linv s ns n cur -> grown s s' -> linv s' ns n cur.
Proof.
  intros [A1 A2 A3 A4 A5 A6 A7 A8] [G1 G2 G3]. split; try done.
  - intros m Hm. destruct (A3 m Hm) as [? [x Hx]]. destruct (G1 m x Hx) as (x' & Hx' & _). split; [done|by eexists].
  - intros m x' Hx'. destruct (ds_maps s !! m) as [x|] eqn:Hx.
    + destruct (G1 m x Hx) as (x2 & Hx2 & _ & _ & Er). assert (x2 = x') as -> by congruence. rewrite Er. by apply A4.
    + destruct (G2 m x' Hx Hx') as (-> & _). symmetry. apply bool_decide_eq_false_2. intros Hm. destruct (A3 m Hm) as [_ [? ?]]. congruence.
  - intros m x' Hx'. destruct (ds_maps s !! m) as [x|] eqn:Hx; [|by apply (G2 m x')].
    destruct (G1 m x Hx) as (x2 & Hx2 & Eo & _ & _). assert (x2 = x') as -> by congruence. destruct (A5 m x Hx) as (B1 & B2 & B3 & B4). unfold obj_ok. rewrite Eo, G3. done.
  - intros m x' Hx'. destruct (ds_maps s !! m) as [x|] eqn:Hx.
    + destruct (G1 m x Hx) as (x2 & Hx2 & _ & El & _). assert (x2 = x') as -> by congruence. rewrite El. by apply A6.
    + destruct (G2 m x' Hx Hx') as (_ & -> & _). left. unfold old_lists. destruct (ds_maps s0 !! m) eqn:E0; [|done].
      destruct (A7 m ltac:(by eexists)) as [? ?]. congruence.
  - intros m Hm. destruct (A7 m Hm) as [x Hx]. destruct (G1 m x Hx) as (x' & Hx' & _). by eexists.
Qed.

Lemma satisfied_mono L L' l d : L `sublist_of` L' -> satisfied L l d -> satisfied L' l d.
Proof.
  intros Hs H m Hm. destruct (H m Hm) as [H1 H2]. split; [by apply (sublist_subseteq L L')|]. intros Ha. destruct (H2 Ha); [left; by eapply before_mono|by right].
Qed.
Lemma lists_ok_mono L L' m ls : L ⊆ L' -> lists_ok L m ls -> lists_ok L' m ls.
Proof. intros Hs [?|(H1 & H2 & H3 & ds & H4 & H5)]; [by left|right]. split; [auto|]. split; [done|]. split; [done|]. exists ds. auto. Qed.

Definition reserve (x : mapid) (s : dstate) : dstate := set_dmaps (alter (with_reserved true) x (ds_maps s)) s.
Lemma reserve_lookup x s m y : ds_maps (reserve x s) !! m = Some y -> exists y0, ds_maps s !! m = Some y0 /\ y = if decide (m = x) then with_reserved true y0 else y0.
Proof.
  cbn. destruct (decide (m = x)) as [->|Hn]; [rewrite lookup_alter_eq|rewrite lookup_alter_ne by done].
  - destruct (ds_maps s !! x); [|done]. intros [= <-]. eauto.
  - eauto.
Qed.
Lemma reserve_is_Some x s m : is_Some (ds_maps s !! m) -> is_Some (ds_maps (reserve x s) !! m).
Proof. intros [y Hy]. cbn. destruct (decide (m = x)) as [->|]; [rewrite lookup_alter_eq, Hy|rewrite lookup_alter_ne by done]; by eexists. Qed.

(** A new object gets a place anywhere in the list. *)
Lemma linv_insert s A B n cur x y : linv s (A ++ B) n cur -> x ∈ D -> ds_maps s !! x = Some y -> d_reserved y = false ->
  linv (reserve x s) (A ++ mkNode false x :: B) (n + 1) cur.
Proof.
  intros [A1 A2 A3 A4 A5 A6 A7 A8] HD Hy Hr.
  assert (Hx : x ∉ maps_of (A ++ B)). { specialize (A4 x y Hy). rewrite Hr in A4. symmetry in A4. by apply bool_decide_eq_false in A4. }
  assert (Hsub : maps_of (A ++ B) `sublist_of` maps_of (A ++ mkNode false x :: B)).
  { unfold maps_of. rewrite !fmap_app. apply sublist_app; [done|]. cbn. by apply sublist_cons. }
  assert (Hin : forall m, m ∈ maps_of (A ++ mkNode false x :: B) <-> m = x \/ m ∈ maps_of (A ++ B)).
  { intros m. unfold maps_of. rewrite !fmap_app, !elem_of_app. cbn. rewrite elem_of_cons. tauto. }
  split.
  - unfold maps_of in *. rewrite fmap_app in *. cbn. rewrite <- Permutation_middle. apply NoDup_cons. done.
  - rewrite A2, !length_app. cbn. lia.
  - intros m [->|Hm]%Hin; [split; [done|apply reserve_is_Some; by eexists]|]. destruct (A3 m Hm). split; [done|by apply reserve_is_Some].
  - intros m z (z0 & Hz0 & ->)%reserve_lookup. destruct (decide (m = x)) as [->|Hn].
    + cbn. symmetry. apply bool_decide_eq_true_2, Hin. by left.
    + rewrite (A4 m z0 Hz0). apply bool_decide_ext. rewrite Hin. tauto.
  - intros m z (z0 & Hz0 & ->)%reserve_lookup. pose proof (A5 m z0 Hz0). by destruct (decide (m = x)).
  - intros m z (z0 & Hz0 & ->)%reserve_lookup. pose proof (A6 m z0 Hz0) as Hl. apply (lists_ok_mono (maps_of (A ++ B))); [by apply sublist_subseteq|]. by destruct (decide (m = x)).
  - intros m Hm. apply reserve_is_Some. auto.
  - intros k Hk Hd d Hdd. assert (Hk' : k ∈ A ++ B) by (rewrite elem_of_app, elem_of_cons in Hk; destruct Hk as [?|[->|?]]; [set_solver|done|set_solver]).
    destruct (A8 k Hk' Hd d Hdd); [left; by eapply satisfied_mono|by right].
Qed.

(** An object behind [n0] is moved in front of it. *)
Lemma linv_move s A n0 B1 nx B2 n cur : linv s (A ++ n0 :: B1 ++ nx :: B2) n cur -> linv s (A ++ mkNode false (n_map nx) :: n0 :: B1 ++ B2) n cur.
Proof.
  intros [A1 A2 A3 A4 A5 A6 A7 A8]. set (x := n_map nx).
  assert (Hperm : maps_of (A ++ mkNode false x :: n0 :: B1 ++ B2) ≡ₚ maps_of (A ++ n0 :: B1 ++ nx :: B2)).
  { unfold maps_of. rewrite !fmap_app. cbn. rewrite !fmap_app. cbn. fold x. apply Permutation_app_head. rewrite <- (Permutation_middle (n_map <$> B1)). constructor. }
  assert (Hin : forall m, m ∈ maps_of (A ++ mkNode false x :: n0 :: B1 ++ B2) <-> m ∈ maps_of (A ++ n0 :: B1 ++ nx :: B2)) by (intros m; by rewrite Hperm).
  split.
  - by rewrite Hperm.
  - rewrite A2. f_equal. rewrite !length_app. cbn. rewrite !length_app. cbn. lia.
  - intros m Hm. apply A3. by apply Hin.
  - intros m y Hy. rewrite (A4 m y Hy). apply bool_decide_ext. by rewrite Hin.
  - done.
  - intros m y Hy. apply (lists_ok_mono (maps_of (A ++ n0 :: B1 ++ nx :: B2))); [intros k; apply Hin|auto].
  - done.
  - intros k Hk Hd d Hdd. assert (Hk' : k ∈ A ++ n0 :: B1 ++ nx :: B2) by (rewrite elem_of_app, elem_of_cons in Hk; destruct Hk as [?|[->|?]]; [set_solver|done|set_solver]).
    destruct (A8 k Hk' Hd d Hdd) as [Hs|]; [left|by right]. intros m Hm. destruct (Hs m Hm) as [H1 H2]. split; [by apply Hin|]. intros Ha.
    destruct (H2 Ha) as [Hb|]; [left|by right]. unfold maps_of in *. rewrite fmap_app in *. cbn in *. rewrite fmap_app in *. cbn in *. fold x in Hb, A1.
    apply before_move; [done| |done]. intros Ekx.
    (* the element that was moved is not done *)
    assert (Hnk : k ∈ A ++ n0 :: B1 ++ B2) by (rewrite elem_of_app, elem_of_cons in Hk; destruct Hk as [?|[->|?]]; [set_solver|done|set_solver]).
    replace ((n_map <$> A) ++ n_map n0 :: (n_map <$> B1) ++ x :: (n_map <$> B2)) with ((n_map <$> (A ++ n0 :: B1)) ++ x :: (n_map <$> B2)) in A1
      by (rewrite fmap_app; cbn; by rewrite <- app_assoc).
    apply NoDup_app in A1 as (_ & N2 & [N3 _]%NoDup_cons). rewrite <- Ekx in *.
    assert (Hsplit : k ∈ A ++ n0 :: B1 \/ k ∈ B2) by set_solver. destruct Hsplit as [Hi|Hi]; [apply (N2 (n_map k)); [by apply list_elem_of_fmap_2|by left]|apply N3; by apply list_elem_of_fmap_2].
Qed.

Lemma linv_read s ns n l d ds : linv s ns n (Some (l, d :: ds)) -> satisfied (maps_of ns) l d -> linv s ns n (Some (l, ds)).
Proof.
  intros [A1 A2 A3 A4 A5 A6 A7 A8] Hs. split; try done. intros k Hk Hd d' Hd'. destruct (A8 k Hk Hd d' Hd') as [?|(todo & [= E <-] & Ht)]; [by left|].
  apply elem_of_cons in Ht as [->|Ht]; [left; by rewrite <- E|right]. exists ds. by rewrite E.
Qed.

(** ** Running the primitives *)
Lemma d_get_run m s x : ds_maps s !! m = Some x -> d_get m s = Ret x s.
Proof. unfold d_get. by intros ->. Qed.

Lemma grown_refl s : grown s s.
Proof. split; [eauto|congruence|done]. Qed.
Lemma grown_trans s1 s2 s3 : grown s1 s2 -> grown s2 s3 -> grown s1 s3.
Proof.
  intros [A1 A2 A3] [B1 B2 B3]. split; [| |congruence].
  - intros m x Hx. destruct (A1 m x Hx) as (y & Hy & E1 & E2 & E3). destruct (B1 m y Hy) as (z & Hz & E4 & E5 & E6). exists z. split; [done|]. split_and!; congruence.
  - intros m z Hm Hz. destruct (ds_maps s2 !! m) as [y|] eqn:Hy; [|by apply B2].
    destruct (A2 m y Hm Hy) as (R & E & O). destruct (B1 m y Hy) as (z' & Hz' & E4 & E5 & E6). assert (z' = z) as -> by congruence.
    split; [congruence|]. split; [congruence|]. apply (obj_ok_ns s2); [done|]. unfold obj_ok in *. by rewrite E4.
Qed.

(** A change of links. *)
Lemma grown_link s m f : (forall x, d_obj (f x) = d_obj x /\ d_lists (f x) = d_lists x /\ d_reserved (f x) = d_reserved x) -> grown s (set_dmaps (alter f m (ds_maps s)) s).
Proof.
  intros Hf. split; [| |done]; cbn.
  - intros k x Hx. destruct (decide (k = m)) as [->|]; [rewrite lookup_alter_eq, Hx|rewrite lookup_alter_ne by done; eauto]. eexists. split; [done|]. apply Hf.
  - intros k x' Hk. destruct (decide (k = m)) as [->|]; [rewrite lookup_alter_eq, Hk|rewrite lookup_alter_ne by done]; [done|congruence].
Qed.
Lemma grown_is_Some s s' m : grown s s' -> is_Some (ds_maps s !! m) -> is_Some (ds_maps s' !! m).
Proof. intros G [x Hx]. destruct (gr_old _ _ G m x Hx) as (x' & ? & _). by eexists. Qed.

Lemma link_opt s (o : option mapid) f : (forall x, d_obj (f x) = d_obj x /\ d_lists (f x) = d_lists x /\ d_reserved (f x) = d_reserved x) ->
  exists s', match o with Some p => d_set p f | None => mret tt end s = Ret tt s' /\ grown s s'.
Proof. intros Hf. destruct o as [p|]; [|exists s; split; [done|apply grown_refl]]. eexists. split; [done|by apply grown_link]. Qed.

Lemma relink_spec aux l s : is_Some (ds_maps s !! aux) -> is_Some (ds_maps s !! l) -> exists s', relink aux l s = Ret tt s' /\ grown s s'.
Proof.
  intros Ha Hl. unfold relink. pose proof Ha as [a Hx]. rewrite (M_bind_step _ _ _ _ _ (d_get_run _ _ _ Hx)).
  destruct (link_opt s (d_prev a) (with_next (d_next a))) as (s1 & E1 & G1); [done|]. rewrite (M_bind_step _ _ _ _ _ E1).
  destruct (grown_is_Some s s1 aux G1 Ha) as [a1 Ha1]. rewrite (M_bind_step _ _ _ _ _ (d_get_run _ _ _ Ha1)).
  destruct (link_opt s1 (d_next a1) (with_prev (d_prev a1))) as (s2 & E2 & G2); [done|]. rewrite (M_bind_step _ _ _ _ _ E2).
  assert (G12 : grown s s2) by (by eapply grown_trans). destruct (grown_is_Some s s2 l G12 Hl) as [x Hx2]. rewrite (M_bind_step _ _ _ _ _ (d_get_run _ _ _ Hx2)).
  set (s3 := set_dmaps (alter (with_prev (d_prev x)) aux (ds_maps s2)) s2). rewrite (M_bind_step _ _ _ tt s3) by done.
  set (s4 := set_dmaps (alter (with_prev (Some aux)) l (ds_maps s3)) s3). rewrite (M_bind_step _ _ _ tt s4) by done.
  assert (G4 : grown s s4) by (eapply grown_trans; [exact G12|]; apply (grown_trans s2 s3 s4); [by apply (grown_link s2 aux (with_prev (d_prev x)))|by apply (grown_link s3 l (with_prev (Some aux)))]).
  destruct (grown_is_Some s s4 aux G4 Ha) as [a4 Ha4]. rewrite (M_bind_step _ _ _ _ _ (d_get_run _ _ _ Ha4)).
  destruct (link_opt s4 (d_prev a4) (with_next (Some aux))) as (s5 & E5 & G5); [done|]. rewrite (M_bind_step _ _ _ _ _ E5).
  eexists. split; [done|]. eapply grown_trans; [exact G4|]. eapply grown_trans; [exact G5|]. by apply grown_link.
Qed.

(** ** The work that is left *)
Context (weight : mapid -> nat).
Definition isdone (ns : list node) (m : mapid) : bool := existsb (fun n => bool_decide (n_map n = m) && n_done n) ns.
Definition load (ns : list node) (m : mapid) : nat := if isdone ns m then 0 else weight m.
Definition left_over (ns : list node) : nat := sum_list_with (load ns) D.

Lemma left_over_ext ns ns' : (forall m, isdone ns' m = isdone ns m) -> left_over ns' = left_over ns.
Proof. intros H. unfold left_over. induction D as [|m D' IH]; [done|]. cbn. unfold load at 1 3. by rewrite H, IH. Qed.
Lemma left_over_change ns ns' x : NoDup D -> (forall m, m <> x -> isdone ns' m = isdone ns m) -> (left_over ns' <= left_over ns + weight x)%nat.
Proof.
  intros Hnd H. unfold left_over. induction D as [|m D' IH]; [cbn; lia|]. apply NoDup_cons in Hnd as [Hm Hnd]. cbn.
  destruct (decide (m = x)) as [->|Hn].
  - assert (Hrest : sum_list_with (load ns') D' = sum_list_with (load ns) D').
    { clear IH Hnd. induction D' as [|k D2 IH]; [done|]. cbn. rewrite IH by set_solver. unfold load at 1 3. rewrite H; [done|]. intros ->. apply Hm. by left. }
    rewrite Hrest. unfold load at 1. destruct (isdone ns' x); lia.
  - specialize (IH Hnd). unfold load at 1 3. rewrite H by done. lia.
Qed.
(** An object that was not done is done. *)
Lemma left_over_done ns ns' x : x ∈ D -> isdone ns x = false -> isdone ns' x = true -> (forall m, m <> x -> isdone ns' m = isdone ns m) -> (left_over ns' + weight x <= left_over ns)%nat.
Proof.
  intros Hin H0 H1 H. unfold left_over. induction D as [|m D' IH]; [by apply elem_of_nil in Hin|]. cbn.
  assert (Hle : (sum_list_with (load ns') D' <= sum_list_with (load ns) D')%nat).
  { clear IH Hin. induction D' as [|k D2 IH]; [done|]. cbn. unfold load at 1 3. destruct (decide (k = x)) as [->|Hk]; [rewrite H0, H1; lia|]. rewrite H by done. lia. }
  unfold load at 1 3. destruct (decide (m = x)) as [->|Hn]; [rewrite H0, H1; lia|]. rewrite H by done. apply elem_of_cons in Hin as [?|Hin]; [done|]. specialize (IH Hin). lia.
Qed.

Lemma isdone_app ns1 ns2 m : isdone (ns1 ++ ns2) m = isdone ns1 m || isdone ns2 m.
Proof. apply existsb_app. Qed.
Lemma isdone_cons n ns m : isdone (n :: ns) m = (bool_decide (n_map n = m) && n_done n) || isdone ns m.
Proof. done. Qed.

(** ** The entries of an object *)
Context (Hopener : Opener).
Context (Hdst : forall l d, d ∈ dyn l -> exists n, expanded l d = Ok n).
Context (HDnd : NoDup D) (HD : forall l d m, l ∈ D -> d ∈ dyn l -> found l d = Some m -> m ∈ D).
(** What an entry may put behind the current element again. *)
Definition cost (l : mapid) (d : dynent) : nat := if is_aux d then match found l d with Some a => weight a | None => 0 end else 0.
Context (Hweight : forall l, l ∈ D -> (sum_list_with (cost l) (dyn l) < weight l)%nat).

Definition nodes (pre : list node) (l : mapid) (p : progress) : list node := pre ++ p_ins p ++ mkNode true l :: p_rest p.
Record pinv (pre : list node) (l : mapid) (ds : list dynent) (s : dstate) (p : progress) : Prop := {
  pi_inv : linv s (nodes pre l p) (p_nlist p) (Some (l, ds));
  pi_ins : Forall (fun n => n_done n = false) (p_ins p);
  pi_needed : forall ns, p_needed p = Some ns -> (length ns + length ds <= length (dyn l))%nat /\ forall v, v ∈ ns -> v ∈ maps_of (nodes pre l p) }.

Lemma catch_open l name s x : ds_maps s !! l = Some x -> obj_ok s l x -> exists r s', catch (openaux map_object l name) s = Ret r s' /\ grown s s' /\
  match r with inl _ => opens l name = None | inr m => opens l name = Some m /\ is_Some (ds_maps s' !! m) end.
Proof using Hopener.
  intros Hx Hok. unfold catch, openaux. rewrite (M_bind_step _ _ _ _ _ (d_get_run _ _ _ Hx)).
  pose proof (open_spec l name (if bool_decide (o_type (d_obj x) = lt_executable) then lt_library else o_type (d_obj x)) (o_ns (d_obj x)) s x Hx Hok eq_refl) as H.
  destruct (map_object _ _ _ _ s) as [m s'|o e s'| | |]; try done.
  - destruct H as (H1 & H2 & H3). exists (inr m), s'. done.
  - destruct H as (H1 & H3). by exists (inl (o, e)), s'.
Qed.

Definition remembered (dep : mapid) (p : progress) : progress := mkProgress (p_ins p) (p_rest p) (p_nlist p) ((fun ds => ds ++ [dep]) <$> p_needed p).
Lemma remember_spec dep ldnum p : (forall ns, p_needed p = Some ns -> Z.of_nat (length ns) < ldnum) -> remember dep ldnum p = Ok (remembered dep p).
Proof using.
  intros H. unfold remember, remembered. destruct p as [i r n [ds|]]; cbn in *; [|done]. by rewrite (proj2 (Z.ltb_lt _ _)) by (by apply H).
Qed.

Lemma cur_in pre l p : l ∈ maps_of (nodes pre l p).
Proof using. unfold maps_of, nodes. rewrite !fmap_app. apply elem_of_app. right. apply elem_of_app. right. left. Qed.

(** After an entry was read. *)
Lemma pinv_read pre l d ds s p p' m : linv s (nodes pre l p') (p_nlist p') (Some (l, d :: ds)) -> satisfied (maps_of (nodes pre l p')) l d -> m ∈ maps_of (nodes pre l p') ->
  (forall v, v ∈ maps_of (nodes pre l p) -> v ∈ maps_of (nodes pre l p')) ->
  Forall (fun n => n_done n = false) (p_ins p') -> p_needed p' = (fun ns => ns ++ [m]) <$> p_needed p ->
  (forall ns, p_needed p = Some ns -> (length ns + length (d :: ds) <= length (dyn l))%nat /\ forall v, v ∈ ns -> v ∈ maps_of (nodes pre l p)) -> pinv pre l ds s p'.
Proof using.
  intros I Hs Hm Hmono Hins En Hn. split; [by apply linv_read in I|done|]. intros ns E. rewrite En in E. destruct (p_needed p) as [ns0|]; [|done]. injection E as <-.
  destruct (Hn ns0 eq_refl) as [H1 H2]. cbn in H1. rewrite length_app. cbn. split; [lia|]. intros v [Hv|Hv%list_elem_of_singleton]%elem_of_app; [auto|by subst].
Qed.

(** Without auxiliary objects and filters, objects are put only at the end of the list. *)
Definition appended (l : mapid) (ds : list dynent) (seen : list mapid) (p p' : progress) : Prop :=
  p_ins p' = p_ins p /\ exists new, p_rest p' = p_rest p ++ (mkNode false <$> new) /\ forall m, m ∈ new -> (m ∉ seen) /\ exists d, d ∈ ds /\ found l d = Some m.
Lemma appended_same l ds seen p p' : p_ins p' = p_ins p -> p_rest p' = p_rest p -> appended l ds seen p p'.
Proof using. intros E1 E2. split; [done|]. exists []. split; [by rewrite E2, app_nil_r|]. by intros m ?%elem_of_nil. Qed.
Lemma appended_trans l d ds seen seen' p p1 p2 : (forall m, m ∈ seen -> m ∈ seen') -> appended l [d] seen p p1 -> appended l ds seen' p1 p2 -> appended l (d :: ds) seen p p2.
Proof using.
  intros Hs [A1 (n1 & A2 & A3)] [B1 (n2 & B2 & B3)]. split; [congruence|]. exists (n1 ++ n2). split; [by rewrite B2, A2, fmap_app, app_assoc|].
  intros m [Hm|Hm]%elem_of_app.
  - destruct (A3 m Hm) as (? & d' & ->%list_elem_of_singleton & ?). split; [done|]. exists d. split; [left|done].
  - destruct (B3 m Hm) as (? & d' & ? & ?). split; [auto|]. exists d'. split; [by right|done].
Qed.

Section Entry.
Context (pre : list node) (l : mapid) (ldnum : Z) (d : dynent) (ds : list dynent) (s : dstate) (p : progress).
Context (I : pinv pre l (d :: ds) s p) (Hd : d ∈ dyn l) (Hld : Z.of_nat (length (dyn l)) < ldnum).

Definition after_entry (r : (string * string) + progress) (s' : dstate) : Prop :=
  match r with
  | inl _ => failing l d /\ linv s' (nodes pre l p) (p_nlist p) (Some (l, d :: ds))
  | inr p' => pinv pre l ds s' p' /\ (left_over (nodes pre l p') <= left_over (nodes pre l p) + cost l d)%nat /\
      (forall m, m ∈ maps_of (nodes pre l p) -> m ∈ maps_of (nodes pre l p')) /\ (p_needed p = None -> p_needed p' = None) /\
      (is_aux d = false -> appended l [d] (maps_of (nodes pre l p)) p p')
  end.

Lemma cur_known : l ∈ D /\ exists x, ds_maps s !! l = Some x /\ obj_ok s l x.
Proof using I.
  destruct (li_known _ _ _ _ (pi_inv _ _ _ _ _ I) l (cur_in pre l p)) as [? [x Hx]]. split; [done|]. exists x. split; [done|]. by apply (li_obj _ _ _ _ (pi_inv _ _ _ _ _ I)).
Qed.
Lemma needed_room ns : p_needed p = Some ns -> Z.of_nat (length ns) < ldnum.
Proof using I Hld. intros E. destruct (pi_needed _ _ _ _ _ I ns E) as [H _]. cbn in H. lia. Qed.

(** Entries that stand for nothing. *)
Lemma skip_entry s' : grown s s' -> found l d = None -> after_entry (inr p) s'.
Proof using I.
  intros G Hf. destruct I as [J1 J2 J3]. split; [|split; [lia|split; [done|split; [done|intros _; by apply appended_same]]]]. split; [|done|intros ns E; destruct (J3 ns E) as [H1 H2]; split; [cbn in H1; lia|done]].
  apply (linv_read _ _ _ _ d); [by apply (linv_grown s)|]. intros m. congruence.
Qed.

Lemma needed_entry_spec name : de_tag d = DT_NEEDED -> expanded l d = Ok (Some name) -> exists r s', needed_entry map_object l ldnum name p s = Ret r s' /\ after_entry r s'.
Proof using I Hd Hld Hopener HD HDnd.
  intros Ht He. unfold needed_entry. destruct cur_known as (HlD & xl & Hxl & Hok). destruct (catch_open l name s xl Hxl Hok) as (r & s1 & E & G & Hr). rewrite (M_bind_step _ _ _ _ _ E).
  pose proof (linv_grown _ _ _ _ _ (pi_inv _ _ _ _ _ I) G) as I1. destruct r as [err|dep].
  { exists (inl err), s1. split; [done|]. split; [|done]. split; [by left|]. by exists name. }
  destruct Hr as [Ho [y Hy]]. rewrite (M_bind_step _ _ _ _ _ (d_get_run _ _ _ Hy)).
  assert (Hf : found l d = Some dep) by (unfold found; rewrite bool_decide_eq_false_2 by congruence; by rewrite He).
  assert (Haux : is_aux d = false) by (unfold is_aux; rewrite !bool_decide_eq_false_2 by congruence; done).
  assert (Hdep : dep ∈ D) by (by apply (HD l d dep)).
  assert (Hsat : forall L, dep ∈ L -> satisfied L l d) by (intros L HL m Hm; split; [by assert (m = dep) as -> by congruence|by rewrite Haux]).
  destruct (d_reserved y) eqn:Er.
  - rewrite (M_bind_step _ _ _ p s1) by done. rewrite (remember_spec dep ldnum p) by apply needed_room. rewrite (M_bind_step _ _ _ (remembered dep p) s1) by done.
    exists (inr (remembered dep p)), s1. split; [done|].
    assert (Hin : dep ∈ maps_of (nodes pre l p)) by (apply (bool_decide_eq_true_1 (dep ∈ _)); rewrite <- (li_marks _ _ _ _ I1 dep y Hy); done).
    split; [|split; [unfold nodes; cbn; lia|split; [done|split; [cbn; by intros ->|intros _; by apply appended_same]]]]. apply (pinv_read pre l d ds s1 p _ dep); try done; [by apply Hsat|apply (pi_ins _ _ _ _ _ I)|apply (pi_needed _ _ _ _ _ I)].
  - set (p1 := mkProgress (p_ins p) (p_rest p ++ [mkNode false dep]) (p_nlist p + 1) (p_needed p)). rewrite (M_bind_step _ _ _ p1 (reserve dep s1)) by done.
    rewrite (remember_spec dep ldnum p1) by apply needed_room. rewrite (M_bind_step _ _ _ (remembered dep p1) (reserve dep s1)) by done.
    exists (inr (remembered dep p1)), (reserve dep s1). split; [done|].
    assert (En : nodes pre l p1 = nodes pre l p ++ [mkNode false dep]) by (unfold nodes; cbn; by rewrite <- !app_assoc).
    assert (I2 : linv (reserve dep s1) (nodes pre l p1) (p_nlist p + 1) (Some (l, d :: ds))).
    { rewrite En. apply (linv_insert s1 _ [] _ _ dep y); [by rewrite app_nil_r|done|done|done]. }
    assert (Hin : dep ∈ maps_of (nodes pre l p1)) by (unfold maps_of; rewrite En, fmap_app; apply elem_of_app; right; left).
    assert (Hmem : forall v, v ∈ maps_of (nodes pre l p) -> v ∈ maps_of (nodes pre l (remembered dep p1))).
    { intros v Hv. change (v ∈ maps_of (nodes pre l p1)). unfold maps_of in *. rewrite En, fmap_app. apply elem_of_app. by left. }
    split; [|split; [|split; [done|split; [cbn; by intros ->|intros _]]]].
    + apply (pinv_read pre l d ds (reserve dep s1) p (remembered dep p1) dep); try done; [by apply Hsat|apply (pi_ins _ _ _ _ _ I)|apply (pi_needed _ _ _ _ _ I)].
    + change (nodes pre l (remembered dep p1)) with (nodes pre l p1). rewrite En. rewrite (left_over_ext (nodes pre l p)); [lia|]. intros m.
      rewrite isdone_app. cbn. by rewrite andb_false_r, !orb_false_r.
    + split; [done|]. exists [dep]. split; [done|]. intros m ->%list_elem_of_singleton. split; [|exists d; split; [left|done]].
      apply (bool_decide_eq_false_1 (dep ∈ _)). rewrite <- (li_marks _ _ _ _ I1 dep y Hy). done.
Qed.

Lemma aux_entry_spec name : is_aux d = true -> expanded l d = Ok (Some name) -> exists r s', aux_entry map_object l ldnum (de_tag d) name p s = Ret r s' /\ after_entry r s'.
Proof using I Hd Hld Hopener HD HDnd.
  intros Haux He. unfold aux_entry. destruct cur_known as (HlD & xl & Hxl & Hok). destruct (catch_open l name s xl Hxl Hok) as (r & s1 & E & G & Hr). rewrite (M_bind_step _ _ _ _ _ E).
  assert (Htag : de_tag d = DT_AUXILIARY \/ de_tag d = DT_FILTER).
  { unfold is_aux in Haux. apply orb_true_iff in Haux as [H|H]; apply bool_decide_eq_true in H; auto. }
  assert (Hfe : found l d = opens l name) by (unfold found; rewrite bool_decide_eq_false_2 by (intros E0; destruct Htag; congruence); by rewrite He).
  pose proof (linv_grown _ _ _ _ _ (pi_inv _ _ _ _ _ I) G) as I1. destruct r as [err|aux].
  { case_bool_decide as Ea; [exists (inr p), s1; split; [done|]; apply skip_entry; [done|congruence]|].
    exists (inl err), s1. split; [done|]. split; [|done]. split; [right; by destruct Htag|]. by exists name. }
  destruct Hr as [Ho Hy1]. assert (Hf : found l d = Some aux) by congruence. clear Hfe.
  assert (Hau : aux ∈ D) by (by apply (HD l d aux)).
  assert (Hl1 : is_Some (ds_maps s1 !! l)) by (apply (grown_is_Some s); [done|by eexists]).
  rewrite (remember_spec aux ldnum p) by apply needed_room. rewrite (M_bind_step _ _ _ (remembered aux p) s1) by done.
  pose proof Hy1 as [y Hy]. rewrite (M_bind_step _ _ _ _ _ (d_get_run _ _ _ Hy)). cbn [remembered p_rest p_ins p_nlist p_needed].
  assert (Hsat : forall L, aux ∈ L -> before L aux l \/ aux = l -> satisfied L l d) by (intros L HL HB m Hm; by assert (m = aux) as -> by congruence).
  pose proof (pi_ins _ _ _ _ _ I) as Hins.
  assert (Hins' : Forall (fun n => n_done n = false) (p_ins p ++ [mkNode false aux])) by (apply Forall_app; split; [done|by apply Forall_singleton]).
  assert (Hbef : forall r, before (maps_of (pre ++ (p_ins p ++ [mkNode false aux]) ++ mkNode true l :: r)) aux l).
  { intros r. unfold maps_of. rewrite app_assoc, fmap_app. apply before_split; [rewrite !fmap_app; apply elem_of_app; right; apply elem_of_app; right; left|left]. }
  assert (Hcost : cost l d = weight aux) by (unfold cost; by rewrite Haux, Hf).
  destruct (d_reserved y) eqn:Er.
  - destruct (take_out aux (p_rest p)) as [rest|] eqn:Et.
    + apply take_out_Some in Et as (B1 & nx & B2 & Erest & Ex & ->). destruct (relink_spec aux l s1 Hy1 Hl1) as (s2 & E2 & G2). rewrite (M_bind_step _ _ _ _ _ E2).
      set (p' := mkProgress (p_ins p ++ [mkNode false aux]) (B1 ++ B2) (p_nlist p) ((fun ns => ns ++ [aux]) <$> p_needed p)). exists (inr p'), s2. split; [done|].
      assert (En : nodes pre l p = (pre ++ p_ins p) ++ mkNode true l :: B1 ++ nx :: B2) by (unfold nodes; by rewrite Erest, <- app_assoc).
      assert (En' : nodes pre l p' = (pre ++ p_ins p) ++ mkNode false (n_map nx) :: mkNode true l :: B1 ++ B2) by (unfold nodes; cbn; by rewrite Ex, <- !app_assoc).
      assert (I2 : linv s2 (nodes pre l p') (p_nlist p) (Some (l, d :: ds))).
      { rewrite En'. apply linv_move. rewrite <- En. by apply (linv_grown s1). }
      assert (Hmem : forall v, v ∈ maps_of (nodes pre l p) -> v ∈ maps_of (nodes pre l p')).
      { intros v Hv. unfold maps_of in *. rewrite En in Hv. rewrite En'. rewrite !fmap_app in *. cbn in *. rewrite !fmap_app in *. cbn in *.
        rewrite !elem_of_app, !elem_of_cons, ?elem_of_app, ?elem_of_cons in *. clear -Hv. tauto. }
      split; [|split; [|split; [done|split; [cbn; by intros ->|congruence]]]].
      * apply (pinv_read pre l d ds s2 p p' aux); try done; [apply Hsat| |apply (pi_needed _ _ _ _ _ I)].
        -- apply (before_in _ _ _ (Hbef (B1 ++ B2))).
        -- left. apply Hbef.
        -- apply (before_in _ _ _ (Hbef (B1 ++ B2))).
      * rewrite Hcost. apply (left_over_change _ _ aux HDnd). intros m Hm. rewrite En, En', !isdone_app, !isdone_cons, !isdone_app, !isdone_cons.
        rewrite Ex, (bool_decide_eq_false_2 (aux = m)) by congruence. cbn [n_map n_done andb orb]. rewrite (bool_decide_eq_false_2 (aux = m)) by congruence. done.
    + apply take_out_None in Et. set (p' := mkProgress (p_ins p) (p_rest p) (p_nlist p) ((fun ns => ns ++ [aux]) <$> p_needed p)). exists (inr p'), s1. split; [done|].
      assert (Hin : aux ∈ maps_of (nodes pre l p)) by (apply (bool_decide_eq_true_1 (aux ∈ _)); rewrite <- (li_marks _ _ _ _ I1 aux y Hy); done).
      split; [|split; [unfold nodes; cbn; lia|split; [done|split; [cbn; by intros ->|congruence]]]]. apply (pinv_read pre l d ds s1 p p' aux); try done; [apply Hsat; [done|]|apply (pi_needed _ _ _ _ _ I)].
      change (nodes pre l p') with (nodes pre l p). unfold maps_of, nodes in *. rewrite app_assoc, fmap_app in *. apply elem_of_app in Hin as [Hin|Hin].
      * left. apply before_split; [done|left].
      * apply elem_of_cons in Hin as [->|Hin]; [by right|done].
  - rewrite (M_bind_step _ _ _ tt (reserve aux s1)) by done.
    destruct (relink_spec aux l (reserve aux s1)) as (s2 & E2 & G2); [by apply reserve_is_Some|by apply reserve_is_Some|]. rewrite (M_bind_step _ _ _ _ _ E2).
    set (p' := mkProgress (p_ins p ++ [mkNode false aux]) (p_rest p) (p_nlist p + 1) ((fun ns => ns ++ [aux]) <$> p_needed p)). exists (inr p'), s2. split; [done|].
    assert (En : nodes pre l p = (pre ++ p_ins p) ++ mkNode true l :: p_rest p) by (unfold nodes; by rewrite <- app_assoc).
    assert (En' : nodes pre l p' = (pre ++ p_ins p) ++ mkNode false aux :: mkNode true l :: p_rest p) by (unfold nodes; cbn; by rewrite <- !app_assoc).
    assert (I2 : linv s2 (nodes pre l p') (p_nlist p + 1) (Some (l, d :: ds))).
    { apply (linv_grown (reserve aux s1)); [|done]. rewrite En'. apply (linv_insert s1 _ _ _ _ aux y); [by rewrite <- En|done|done|done]. }
    assert (Hmem : forall v, v ∈ maps_of (nodes pre l p) -> v ∈ maps_of (nodes pre l p')).
    { intros v Hv. unfold maps_of in *. rewrite En in Hv. rewrite En'. rewrite !fmap_app in *. cbn in *. rewrite !elem_of_app, !elem_of_cons in *. clear -Hv. tauto. }
    split; [|split; [|split; [done|split; [cbn; by intros ->|congruence]]]].
    + apply (pinv_read pre l d ds s2 p p' aux); try done; [apply Hsat| |apply (pi_needed _ _ _ _ _ I)].
      * apply (before_in _ _ _ (Hbef (p_rest p))).
      * left. apply Hbef.
      * apply (before_in _ _ _ (Hbef (p_rest p))).
    + rewrite (left_over_ext (nodes pre l p)); [lia|]. intros m. rewrite En, En', !isdone_app, !isdone_cons. cbn [n_done]. by rewrite andb_false_r.
Qed.

Lemma entry_spec : exists r s', entry map_object dst_count dst_substitute enable_secure l ldnum d p s = Ret r s' /\ after_entry r s'.
Proof using I Hd Hld Hopener HD HDnd Hdst.
  destruct (Hdst l d Hd) as [n En]. assert (Hskip : expanded l d = Ok None -> found l d = None) by (intros E; unfold found; rewrite E; by case_bool_decide).
  unfold entry. unfold expanded in En. destruct (de_tag d) eqn:Et; cbn [bool_decide] in En.
  - rewrite (bool_decide_eq_false_2 (DT_NEEDED = DT_AUXILIARY)) in En by done. rewrite En. rewrite (M_bind_step _ _ _ n s) by done.
    destruct n as [name|]; [apply needed_entry_spec; [done|]|exists (inr p), s; split; [done|]; apply skip_entry; [apply grown_refl|apply Hskip]];
      unfold expanded; by rewrite Et, (bool_decide_eq_false_2 (DT_NEEDED = DT_AUXILIARY)).
  - rewrite En. rewrite (M_bind_step _ _ _ n s) by done.
    destruct n as [name|]; [rewrite <- Et; apply aux_entry_spec; [unfold is_aux; by rewrite Et|]|exists (inr p), s; split; [done|]; apply skip_entry; [apply grown_refl|apply Hskip]];
      unfold expanded; by rewrite Et.
  - rewrite En. rewrite (M_bind_step _ _ _ n s) by done.
    destruct n as [name|]; [rewrite <- Et; apply aux_entry_spec; [unfold is_aux; by rewrite Et|]|exists (inr p), s; split; [done|]; apply skip_entry; [apply grown_refl|apply Hskip]];
      unfold expanded; by rewrite Et.
  - exists (inr p), s. split; [done|]. apply skip_entry; [apply grown_refl|]. unfold found. by rewrite Et.
Qed.
End Entry.

Lemma entries_spec pre l ldnum : Z.of_nat (length (dyn l)) < ldnum -> forall ds s p, pinv pre l ds s p -> (forall d, d ∈ ds -> d ∈ dyn l) ->
  exists err p' s', entries map_object dst_count dst_substitute enable_secure l ldnum ds p s = Ret (err, p') s' /\
    (forall m, m ∈ maps_of (nodes pre l p) -> m ∈ maps_of (nodes pre l p')) /\ (p_needed p = None -> p_needed p' = None) /\
    ((forall d, d ∈ ds -> is_aux d = false) -> appended l ds (maps_of (nodes pre l p)) p p') /\
    match err with
    | None => pinv pre l [] s' p' /\ (left_over (nodes pre l p') <= left_over (nodes pre l p) + sum_list_with (cost l) ds)%nat
    | Some _ => (exists d, d ∈ dyn l /\ failing l d) /\ exists todo, linv s' (nodes pre l p') (p_nlist p') (Some (l, todo))
    end.
Proof using Hopener HD HDnd Hdst.
  intros Hld. induction ds as [|d ds IH]; intros s p I Hin; cbn [entries].
  - exists None, p, s. split; [done|]. split; [done|]. split; [done|]. split; [intros _; by apply appended_same|]. split; [done|]. cbn. lia.
  - destruct (entry_spec pre l ldnum d ds s p I ltac:(apply Hin; by left) Hld) as (r & s1 & E & A). rewrite (M_bind_step _ _ _ _ _ E). destruct r as [err|p1].
    + destruct A as [A1 A2]. exists (Some err), p, s1. split; [done|]. split; [done|]. split; [done|]. split; [intros _; by apply appended_same|]. split; [exists d; split; [apply Hin; by left|done]|eauto].
    + destruct A as (I1 & L1 & M1 & N1 & O1). destruct (IH s1 p1 I1 ltac:(intros d' Hd'; apply Hin; by right)) as (err & p2 & s2 & E2 & M2 & N2 & O2 & A2). exists err, p2, s2. split; [done|].
      split; [auto|]. split; [auto|]. split.
      { intros Hno. apply (appended_trans l d ds _ (maps_of (nodes pre l p1)) p p1 p2 M1); [apply O1, Hno; left|apply O2; intros d' Hd'; apply Hno; by right]. }
      destruct err; [done|]. destruct A2 as [I2 L2]. split; [done|]. cbn. lia.
Qed.

(** ** One element of the list *)
Context (alloc_ok : nat -> bool) (Halloc : forall n, alloc_ok n = true).

Lemma alloc_run s : alloc alloc_ok s = Ret true (set_allocs (S (ds_allocs s)) s).
Proof using Halloc. unfold alloc. by rewrite Halloc. Qed.
Lemma grown_allocs s n : grown s (set_allocs n s).
Proof using. split; cbn; [eauto|congruence|done]. Qed.

Lemma skip_done_spec rest : forall pre, Forall (fun n => n_done n = true) pre ->
  let '(pre', rest') := skip_done pre rest in
  pre' ++ rest' = pre ++ rest /\ Forall (fun n => n_done n = true) pre' /\ match rest' with [] => True | n :: _ => n_done n = false end.
Proof using.
  induction rest as [|n rest IH]; intros pre Hp; cbn [skip_done]; [by split_and!|]. destruct (n_done n) eqn:E; [|by split_and!].
  specialize (IH (pre ++ [n]) ltac:(apply Forall_app; split; [done|by apply Forall_singleton])). destruct (skip_done (pre ++ [n]) rest) as [pre' rest']. by rewrite <- app_assoc in IH.
Qed.

(** The element becomes the current one. *)
Lemma linv_start s pre n rest nl : linv s (pre ++ n :: rest) nl None -> linv s (pre ++ mkNode true (n_map n) :: rest) nl (Some (n_map n, dyn (n_map n))).
Proof using.
  intros [A1 A2 A3 A4 A5 A6 A7 A8]. assert (E : maps_of (pre ++ mkNode true (n_map n) :: rest) = maps_of (pre ++ n :: rest)) by (unfold maps_of; by rewrite !fmap_app).
  split; rewrite ?E; try done.
  - rewrite A2, !length_app. done.
  - intros k Hk Hd d Hdd. rewrite elem_of_app, elem_of_cons in Hk. destruct Hk as [Hk|[->|Hk]]; [| |].
    + destruct (A8 k ltac:(apply elem_of_app; by left) Hd d Hdd) as [?|(? & ? & _)]; [by left|done].
    + right. by eexists.
    + destruct (A8 k ltac:(apply elem_of_app; right; by right) Hd d Hdd) as [?|(? & ? & _)]; [by left|done].
Qed.
Lemma linv_end s ns nl l : linv s ns nl (Some (l, [])) -> linv s ns nl None.
Proof using.
  intros [A1 A2 A3 A4 A5 A6 A7 A8]. split; try done. intros k Hk Hd d Hdd. destruct (A8 k Hk Hd d Hdd) as [?|(todo & [= _ <-] & ?%elem_of_nil)]; [by left|done].
Qed.

(** The array of the dependencies is stored. *)
Lemma linv_store s ns nl cur l nd : linv s ns nl cur -> l ∈ maps_of ns -> dl_searchlist (old_lists l) = None -> dl_initfini (old_lists l) = None ->
  (forall v, v ∈ nd -> v ∈ maps_of ns) -> linv (set_dmaps (alter (with_initfini (l :: nd) (l :: nd)) l (ds_maps s)) s) ns nl cur.
Proof using.
  intros [A1 A2 A3 A4 A5 A6 A7 A8] Hl Ho1 Ho2 Hnd.
  assert (Hlk : forall m y, alter (with_initfini (l :: nd) (l :: nd)) l (ds_maps s) !! m = Some y -> exists y0, ds_maps s !! m = Some y0 /\ d_obj y = d_obj y0 /\ d_reserved y = d_reserved y0 /\
    (m = l /\ d_lists y = mkLists (dl_searchlist (d_lists y0)) (Some (l :: nd)) (l :: nd) (dl_reldeps (d_lists y0)) \/ m <> l /\ y = y0)).
  { intros m y Hy. destruct (decide (m = l)) as [->|Hn]; [rewrite lookup_alter_eq in Hy|rewrite lookup_alter_ne in Hy by done].
    - destruct (ds_maps s !! l) as [y0|]; [|done]. injection Hy as <-. exists y0. split; [done|]. split; [done|]. split; [done|]. by left.
    - exists y. split; [done|]. split; [done|]. split; [done|]. by right. }
  assert (His : forall m, is_Some (ds_maps s !! m) -> is_Some (alter (with_initfini (l :: nd) (l :: nd)) l (ds_maps s) !! m)).
  { intros m [y Hy]. destruct (decide (m = l)) as [->|Hn]; [rewrite lookup_alter_eq, Hy|rewrite lookup_alter_ne by done]; by eexists. }
  split; try done.
  - intros m Hm. destruct (A3 m Hm). split; [done|]. by apply His.
  - intros m y (y0 & Hy0 & _ & -> & _)%Hlk. by apply A4.
  - intros m y (y0 & Hy0 & E & _ & _)%Hlk. pose proof (A5 m y0 Hy0) as B. unfold obj_ok in *. by rewrite E.
  - intros m y (y0 & Hy0 & _ & _ & [[-> E]|[_ ->]])%Hlk; [|by apply A6]. right. split; [done|]. split; [done|]. split; [done|]. exists nd. split; [|done]. rewrite E.
    destruct (A6 l y0 Hy0) as [->|(_ & _ & _ & ds & -> & _)]; [by rewrite Ho1|done].
  - intros m Hm. apply His. auto.
Qed.

Lemma isdone_not_in ns m : m ∉ maps_of ns -> isdone ns m = false.
Proof using.
  intros Hm. induction ns as [|n ns IH]; [done|]. cbn in Hm. apply not_elem_of_cons in Hm as [Hm1 Hm2]. rewrite isdone_cons, bool_decide_eq_false_2 by (intros E; by apply Hm1).
  by apply IH.
Qed.

(** When an object has no entries of interest, they are all satisfied. *)
Lemma no_deps s ns nl l o : has_deps o = false -> o_dyn o = dyn l -> linv s ns nl (Some (l, dyn l)) -> linv s ns nl (Some (l, [])).
Proof using.
  intros Hno Ed [A1 A2 A3 A4 A5 A6 A7 A8]. split; try done. intros k Hk Hd d Hdd. left. destruct (A8 k Hk Hd d Hdd) as [?|(todo & [= E <-] & Ht)]; [done|].
  assert (Hot : de_tag d = DT_OTHER).
  { destruct (decide (de_tag d = DT_OTHER)) as [|Hn]; [done|]. exfalso. assert (has_deps o = true); [|congruence]. unfold has_deps. rewrite Ed. apply existsb_exists.
    exists d. split; [by apply list_elem_of_In|]. by rewrite bool_decide_eq_false_2. }
  intros m Hm. unfold found in Hm. by rewrite Hot in Hm.
Qed.

(** Everything about the end of the loop that does not depend on how it was left. *)
Definition loop_result (ms : list mapid) (err : option (string * string)) (ns : list node) (nl : Z) (s : dstate) : Prop :=
  (forall m, m ∈ ms -> m ∈ maps_of ns) /\
  match err with
  | None => linv s ns nl None /\ Forall (fun n => n_done n = true) ns
  | Some _ => (exists l d, l ∈ D /\ d ∈ dyn l /\ failing l d) /\ exists cur, linv s ns nl cur
  end.

Lemma element_spec map pre n rest nl s x needed s1 : linv s (pre ++ n :: rest) nl None -> n_done n = false -> ds_maps s !! n_map n = Some x ->
  grown s s1 -> (needed = None \/ needed = Some [] /\ dl_searchlist (d_lists x) = None /\ dl_initfini (d_lists x) = None) -> map ∈ maps_of (pre ++ n :: rest) ->
  let l := n_map n in let p0 := mkProgress [] rest nl needed in
  exists err p s2, (if has_deps (d_obj x) then entries map_object dst_count dst_substitute enable_secure l (o_ldnum (d_obj x)) (o_dyn (d_obj x)) p0 else mret (None, p0)) s1 = Ret (err, p) s2 /\
    (forall m, m ∈ maps_of (pre ++ n :: rest) -> m ∈ maps_of (nodes pre l p)) /\
    ((forall d, d ∈ dyn l -> is_aux d = false) -> appended l (dyn l) (maps_of (pre ++ n :: rest)) p0 p) /\
    match err with
    | Some _ => loop_result [] err (nodes pre l p) (p_nlist p) s2
    | None => pinv pre l [] s2 p /\ (forall ds, p_needed p = Some ds -> Z.of_nat (length ds) < o_ldnum (d_obj x)) /\ (left_over (nodes pre l p) < left_over (pre ++ n :: rest))%nat /\
        exists s3, store_needed alloc_ok map l p s2 = Ret tt s3 /\ linv s3 (nodes pre l p) (p_nlist p) None
    end.
Proof using Hopener HD HDnd Hdst Hweight Halloc.
  intros I Hu Hx G Hnd Hmap l p0. assert (Hl : l ∈ maps_of (pre ++ n :: rest)) by (unfold maps_of; rewrite fmap_app; apply elem_of_app; right; left).
  destruct (li_known _ _ _ _ I l Hl) as [HlD _]. destruct (li_obj _ _ _ _ I l x Hx) as (Ed & Eld & _).
  assert (En0 : nodes pre l p0 = pre ++ mkNode true l :: rest) by done. assert (Em0 : maps_of (nodes pre l p0) = maps_of (pre ++ n :: rest)) by (unfold maps_of; rewrite En0, !fmap_app; done).
  pose proof (linv_grown _ _ _ _ _ (linv_start s pre n rest nl I) G) as I1. fold l in I1.
  assert (P0 : pinv pre l (dyn l) s1 p0).
  { split; [by rewrite En0|by constructor|]. cbn. intros ds E. destruct Hnd as [->|(-> & _)]; [done|]. injection E as <-. cbn. split; [lia|]. by intros v ?%elem_of_nil. }
  assert (Hdec : (left_over (nodes pre l p0) + weight l <= left_over (pre ++ n :: rest))%nat).
  { rewrite En0. pose proof (li_nodup _ _ _ _ I) as Hnod. unfold maps_of in Hnod. rewrite fmap_app in Hnod. apply NoDup_app in Hnod as (_ & N2 & [N3 _]%NoDup_cons).
    assert (Hp : isdone pre l = false) by (apply isdone_not_in; intros Hin; apply (N2 l Hin); left). assert (Hr : isdone rest l = false) by (by apply isdone_not_in).
    apply left_over_done; [done| | |].
    - rewrite isdone_app, isdone_cons, Hp, Hr, Hu. by rewrite andb_false_r.
    - rewrite isdone_app, isdone_cons. cbn. rewrite bool_decide_eq_true_2 by done. by rewrite orb_true_r.
    - intros m Hm. rewrite !isdone_app, !isdone_cons. cbn. fold l. by rewrite (bool_decide_eq_false_2 (l = m)) by congruence. }
  assert (Hrun : exists err p s2, (if has_deps (d_obj x) then entries map_object dst_count dst_substitute enable_secure l (o_ldnum (d_obj x)) (o_dyn (d_obj x)) p0 else mret (None, p0)) s1 = Ret (err, p) s2 /\
    (forall m, m ∈ maps_of (nodes pre l p0) -> m ∈ maps_of (nodes pre l p)) /\ (needed = None -> p_needed p = None) /\
    ((forall d, d ∈ dyn l -> is_aux d = false) -> appended l (dyn l) (maps_of (nodes pre l p0)) p0 p) /\
    match err with
    | None => pinv pre l [] s2 p /\ (left_over (nodes pre l p) <= left_over (nodes pre l p0) + sum_list_with (cost l) (dyn l))%nat
    | Some _ => (exists d, d ∈ dyn l /\ failing l d) /\ exists todo, linv s2 (nodes pre l p) (p_nlist p) (Some (l, todo))
    end).
  { destruct (has_deps (d_obj x)) eqn:Eh; [rewrite Ed; by apply (entries_spec pre l (o_ldnum (d_obj x)) Eld)|].
    exists None, p0, s1. split; [done|]. split; [done|]. split; [done|]. split; [intros _; by apply appended_same|]. split; [|lia]. destruct P0 as [Q1 Q2 Q3]. split; [by apply (no_deps _ _ _ _ (d_obj x))|done|].
    intros ds E. destruct (Q3 ds E) as [? ?]. split; [cbn; lia|done]. }
  destruct Hrun as (err & p & s2 & E & M & Nn & O & A). rewrite Em0 in M, O. exists err, p, s2. split; [done|]. split; [done|]. split; [done|]. destruct err as [err|].
  - destruct A as [(d & Hd & Hfail) (todo & J)]. split; [by intros m ?%elem_of_nil|]. split; [by exists l, d|eauto].
  - destruct A as [J Hle]. split; [done|]. split; [intros ds Eds; destruct (pi_needed _ _ _ _ _ J ds Eds) as [Hn _]; cbn in Hn; lia|].
    split; [pose proof (Hweight l HlD); lia|]. unfold store_needed. pose proof (pi_inv _ _ _ _ _ J) as K.
    destruct (p_needed p) as [ds|] eqn:Eds; [|exists s2; split; [done|]; by apply (linv_end _ _ _ l)].
    destruct Hnd as [Hnd|(_ & Hsl & Hif)]; [by specialize (Nn Hnd)|]. rewrite (M_bind_step _ _ _ _ _ (alloc_run s2)). set (s2' := set_allocs (S (ds_allocs s2)) s2).
    pose proof (linv_grown _ s2' _ _ _ K (grown_allocs s2 _)) as K'. destruct (li_known _ _ _ _ K' map (M map Hmap)) as [_ [xm Hxm]].
    rewrite (M_bind_step _ _ _ _ _ (d_get_run _ _ _ Hxm)). eexists. split; [reflexivity|]. apply (linv_end _ _ _ l).
    assert (Hold : old_lists l = d_lists x).
    { destruct (li_lists _ _ _ _ I l x Hx) as [->|(_ & _ & _ & ds' & E' & _)]; [done|]. rewrite E' in Hif. done. }
    apply linv_store; [done|apply M, Hl|by rewrite Hold|by rewrite Hold|]. intros v Hv. by apply (pi_needed _ _ _ _ _ J ds Eds).
Qed.

Lemma loop_result_mono ms ms' err ns nl s : (forall m, m ∈ ms' -> m ∈ maps_of ns) -> loop_result ms err ns nl s -> loop_result ms' err ns nl s.
Proof using. intros H [_ A]. by split. Qed.

(** The loop as a queue: the first element goes to the processed ones, what it needs and is not known goes to the end. *)
Definition queue_step (queue : list mapid -> list mapid -> Prop) : Prop := forall pre l rest new, queue pre (l :: rest) ->
  (forall m, m ∈ new -> (m ∉ pre ++ l :: rest) /\ exists d, d ∈ dyn l /\ found l d = Some m) ->
  (forall d m, d ∈ dyn l -> found l d = Some m -> m ∈ pre ++ l :: rest ++ new) -> queue (pre ++ [l]) (rest ++ new).
Definition in_order (pre rest : list node) (err : option (string * string)) (ns : list node) : Prop :=
  (forall l d, l ∈ D -> d ∈ dyn l -> is_aux d = false) -> err = None -> Forall (fun n => n_done n = false) rest ->
  forall queue, queue_step queue -> queue (maps_of pre) (maps_of rest) -> queue (maps_of ns) [].

Lemma skip_done_none pre rest : Forall (fun n => n_done n = false) rest -> skip_done pre rest = (pre, rest).
Proof using. intros H. destruct H as [|n rest Hn _]; [done|]. cbn. by rewrite Hn. Qed.
Lemma maps_of_app ns1 ns2 : maps_of (ns1 ++ ns2) = maps_of ns1 ++ maps_of ns2.
Proof using. apply fmap_app. Qed.
Lemma maps_of_fresh ms : maps_of (mkNode false <$> ms) = ms.
Proof using. unfold maps_of. rewrite <- list_fmap_compose. apply list_fmap_id. Qed.

(** A turn of the loop is a step of the queue. *)
Lemma in_order_step pre n rest nl needed p s err ns : let l := n_map n in l ∈ D -> linv s (nodes pre l p) (p_nlist p) None ->
  ((forall d, d ∈ dyn l -> is_aux d = false) -> appended l (dyn l) (maps_of (pre ++ n :: rest)) (mkProgress [] rest nl needed) p) ->
  (p_ins p = [] -> in_order (pre ++ [mkNode true l]) (p_rest p) err ns) -> in_order pre (n :: rest) err ns.
Proof using.
  intros l HlD I Happ Hnext Hno He Hun queue Hstep Hq. destruct (Happ (fun d => Hno l d HlD)) as [Ei (new & Er & Hnew)]. cbn in Ei, Er.
  apply Forall_cons in Hun as [_ Hun]. apply (Hnext Ei Hno He); [rewrite Er; apply Forall_app; split; [done|]; by apply Forall_fmap, Forall_true|done|].
  rewrite Er, !maps_of_app, maps_of_fresh. rewrite maps_of_app in Hnew. apply Hstep; [done|done|].
  intros d m Hd Hf. destruct (li_done _ _ _ _ I (mkNode true l)) with (d := d) as [Hs|(? & ? & _)]; [unfold nodes; rewrite Ei; apply elem_of_app; right; left|done|done| |done].
  destruct (Hs m Hf) as [Hm _]. unfold nodes in Hm. rewrite Ei, Er, maps_of_app in Hm. cbn in Hm. by rewrite fmap_app, <- list_fmap_compose, list_fmap_id in Hm.
Qed.

Lemma deps_loop_spec map fuel : forall pre rest nl s, linv s (pre ++ rest) nl None -> map ∈ maps_of (pre ++ rest) ->
  Forall (fun n => n_done n = true) pre -> match rest with [] => True | n :: _ => n_done n = false end -> (left_over (pre ++ rest) < fuel)%nat ->
  exists err ns nl' s', deps_loop alloc_ok map_object dst_count dst_substitute enable_secure fuel map pre rest nl s = Ret (err, ns, nl') s' /\
    loop_result (maps_of (pre ++ rest)) err ns nl' s' /\ in_order pre rest err ns.
Proof using Hopener HD HDnd Hdst Hweight Halloc.
  induction fuel as [|fuel IH]; intros pre rest nl s I Hmap Hpre Hhd Hfuel; [lia|]. cbn [deps_loop]. destruct rest as [|n rest].
  { rewrite app_nil_r in *. exists None, pre, nl, s. split; [done|]. split; [split; [done|by split]|]. by intros _ _ _ queue _ Hq. }
  set (l := n_map n) in *. assert (Hl : l ∈ maps_of (pre ++ n :: rest)) by (unfold maps_of; rewrite fmap_app; apply elem_of_app; right; left).
  destruct (li_known _ _ _ _ I l Hl) as [HlD [x Hx]]. rewrite (M_bind_step _ _ _ _ _ (d_get_run _ _ _ Hx)).
  destruct (li_known _ _ _ _ I map Hmap) as [_ [xm Hxm]].
  assert (Hbuf : exists needed s1, (if bool_decide (dl_searchlist (d_lists x) = None) && bool_decide (dl_initfini (d_lists x) = None) && bool_decide (l <> map) && (0 <? o_ldnum (d_obj x))
      then ok ← alloc alloc_ok; m ← d_get map; if (ok : bool) then mret (Some ([] : list mapid)) else lift (Signal (o_name (d_obj m)) "cannot allocate dependency buffer")
      else mret None) s = Ret needed s1 /\ grown s s1 /\
      (needed = None \/ needed = Some [] /\ dl_searchlist (d_lists x) = None /\ dl_initfini (d_lists x) = None)).
  { destruct (bool_decide (dl_searchlist (d_lists x) = None)) eqn:E1; [|exists None, s; split; [done|]; split; [apply grown_refl|by left]].
    destruct (bool_decide (dl_initfini (d_lists x) = None)) eqn:E2; [|exists None, s; split; [done|]; split; [apply grown_refl|by left]].
    apply bool_decide_eq_true in E1. apply bool_decide_eq_true in E2.
    destruct (bool_decide (l <> map) && (0 <? o_ldnum (d_obj x))) eqn:E3; rewrite <- andb_assoc, E3; cbn [andb]; [|exists None, s; split; [done|]; split; [apply grown_refl|by left]].
    rewrite (M_bind_step _ _ _ _ _ (alloc_run s)). rewrite (M_bind_step _ _ _ xm (set_allocs (S (ds_allocs s)) s)) by (by apply d_get_run).
    exists (Some []), (set_allocs (S (ds_allocs s)) s). split; [done|]. split; [apply grown_allocs|by right]. }
  destruct Hbuf as (needed & s1 & Eb & Gb & Hnd). rewrite (M_bind_step _ _ _ _ _ Eb).
  destruct (element_spec map pre n rest nl s x needed s1 I Hhd Hx Gb Hnd Hmap) as (err & p & s2 & E2 & M2 & O2 & A2). fold l in E2, M2, O2, A2. rewrite (M_bind_step _ _ _ _ _ E2).
  destruct err as [e|].
  { exists (Some e), (nodes pre l p), (p_nlist p), s2. split; [done|]. split; [by apply (loop_result_mono [])|]. by intros _ ?. }
  destruct A2 as (P2 & B2 & L2 & s3 & E3 & I3).
  assert (Ebd : match p_needed p with Some ds => if Z.of_nat (length ds) <? o_ldnum (d_obj x) then mret tt else lift Undef | None => mret tt end s2 = Ret tt s2).
  { destruct (p_needed p) as [ds|]; [|done]. by rewrite (proj2 (Z.ltb_lt _ _) (B2 ds eq_refl)). }
  rewrite (M_bind_step _ _ _ _ _ Ebd), (M_bind_step _ _ _ _ _ E3).
  assert (Hnext : forall pre' rest', pre' ++ rest' = nodes pre l p -> Forall (fun n => n_done n = true) pre' -> match rest' with [] => True | n :: _ => n_done n = false end ->
    exists err ns nl' s', deps_loop alloc_ok map_object dst_count dst_substitute enable_secure fuel map pre' rest' (p_nlist p) s3 = Ret (err, ns, nl') s' /\
      loop_result (maps_of (pre ++ n :: rest)) err ns nl' s' /\ in_order pre' rest' err ns).
  { intros pre' rest' En Hp' Hh'. destruct (IH pre' rest' (p_nlist p) s3) as (err & ns & nl' & s' & E & [R1 R2] & O); rewrite ?En; try done; [by apply M2|lia|].
    exists err, ns, nl', s'. split; [done|]. rewrite En in R1. split; [split; [auto|done]|done]. }
  assert (Hord : forall err ns, (p_ins p = [] -> in_order (pre ++ [mkNode true l]) (p_rest p) err ns) -> in_order pre (n :: rest) err ns) by (intros; by apply (in_order_step pre n rest nl needed p s3)).
  destruct (p_ins p) as [|a ins] eqn:Ei.
  - pose proof (skip_done_spec (p_rest p) (pre ++ [mkNode true l])) as Hsk. pose proof (skip_done_none (pre ++ [mkNode true l]) (p_rest p)) as Hsn.
    destruct (skip_done (pre ++ [mkNode true l]) (p_rest p)) as [pre' rest'].
    destruct Hsk as (K1 & K2 & K3); [apply Forall_app; split; [done|by apply Forall_singleton]|].
    destruct (Hnext pre' rest') as (err & ns & nl' & s' & E & R & O); try done; [rewrite K1; unfold nodes; by rewrite Ei, <- app_assoc|].
    exists err, ns, nl', s'. split; [done|]. split; [done|]. apply Hord. intros _ Hno He Hun. injection (Hsn Hun) as -> ->. by apply O.
  - destruct (Hnext pre ((a :: ins) ++ mkNode true l :: p_rest p)) as (err & ns & nl' & s' & E & R & O); [unfold nodes; by rewrite Ei|done| |].
    { pose proof (pi_ins _ _ _ _ _ P2) as Hins. rewrite Ei in Hins. by apply Forall_cons in Hins as [? _]. }
    exists err, ns, nl', s'. split; [done|]. split; [done|]. by apply Hord.
Qed.
End Spec.
