(* ===== verification/DepsSearch.v ===== *)
(** * Dependencies: the search list

    The array of the objects, its sorted copy, and the theorems on [_dl_map_object_deps]. *)

From S2P Require Import Prelude LinkMap SortMaps Deps DepsSpec.

(** ** Sorting objects with dependencies outside the array

    Such dependencies do no harm when they were sorted before. *)
Section Outside.
Context (g : graph) (maps : list mapid) (nmaps : nat).
Definition restrict : graph :=
  mkGraph (fun u => filter (fun v => v ∈ maps) <$> g_initfini g u) (g_reldeps g) (g_faked g) (g_main g) (g_proxy g) (g_idx g).

Definition steady (f : mapid -> dst -> res dst) : Prop := forall v st st', d_rel st = None -> f v st = Ok st' -> d_vis st ⊆ d_vis st' /\ d_rel st' = None.

Lemma each_dep_steady f deps : steady f -> forall st st', d_rel st = None -> each_dep g f deps st = Ok st' -> d_vis st ⊆ d_vis st' /\ d_rel st' = None.
Proof.
  intros Hf. induction deps as [|v deps IH]; intros st st' Hr; cbn [each_dep]; [by intros [= <-]|].
  intros (st1 & H1 & H2)%bind_Ok_inv. assert (Hs : d_vis st ⊆ d_vis st1 /\ d_rel st1 = None).
  { destruct (bool_decide (v ∈ d_vis st) || g_main g v); [by injection H1 as <-|by apply (Hf v)]. }
  destruct Hs as [K1 K2]. destruct (IH st1 st' K2 H2) as [K3 K4]. split; [set_solver|done].
Qed.
Lemma dfs_steady fuel : steady (dfs_traversal g nmaps fuel).
Proof.
  induction fuel as [|fuel IH]; intros v st st' Hr; cbn [dfs_traversal]; [done|]. destruct (bool_decide (v ∈ d_vis st) || g_faked g v); [by intros [= <-]|].
  intros (st1 & H1 & H2)%bind_Ok_inv. destruct (each_dep_steady _ _ IH (visit v st) st1 Hr H1) as [K1 K2]. rewrite K2 in H2.
  rewrite bind_ret in H2. unfold put in H2. destruct (nmaps <=? length (d_rpo st1))%nat; [done|]. injection H2 as <-. cbn in *. split; [set_solver|done].
Qed.
Lemma dfs_all_steady fuel rmaps : forall st st', d_rel st = None -> dfs_all g nmaps fuel rmaps st = Ok st' -> d_rel st' = None.
Proof.
  induction rmaps as [|m rmaps IH]; intros st st' Hr; cbn [dfs_all]; [by intros [= <-]|]. intros (st1 & H1 & H2)%bind_Ok_inv.
  destruct (dfs_steady fuel m st st1 Hr H1) as [_ K]. case_bool_decide; [by injection H2 as <-|by apply (IH st1)].
Qed.

Lemma each_dep_restrict (V : gset mapid) f f' deps : steady f -> (forall v, v ∈ deps -> v ∈ maps \/ v ∈ V) ->
  (forall v st, v ∈ maps -> V ⊆ d_vis st -> d_rel st = None -> f v st = f' v st) ->
  forall st, V ⊆ d_vis st -> d_rel st = None -> each_dep g f deps st = each_dep restrict f' (filter (fun v => v ∈ maps) deps) st.
Proof.
  intros Hf Hin Heq. induction deps as [|v deps IH]; intros st HV Hr; [done|]. specialize (IH (fun v' Hv' => Hin v' ltac:(by right))).
  rewrite filter_cons. cbn [each_dep]. destruct (decide (v ∈ maps)) as [Hv|Hv].
  - cbn [each_dep restrict g_main]. destruct (bool_decide (v ∈ d_vis st) || g_main g v); [by apply IH|]. rewrite <- (Heq v st Hv HV Hr).
    destruct (f v st) as [st1| | | |] eqn:E; try done. destruct (Hf v st st1 Hr E) as [K1 K2]. rewrite !bind_ret. apply IH; [set_solver|done].
  - destruct (Hin v ltac:(by left)) as [|Hvis]; [done|]. rewrite bool_decide_eq_true_2 by set_solver. apply IH; done.
Qed.

Context (V : gset mapid) (Hout : forall u v, u ∈ maps -> v ∈ default [] (g_initfini g u) -> v ∈ maps \/ v ∈ V).

Lemma dfs_restrict fuel : forall v st, v ∈ maps -> V ⊆ d_vis st -> d_rel st = None -> dfs_traversal g nmaps fuel v st = dfs_traversal restrict nmaps fuel v st.
Proof using Hout.
  induction fuel as [|fuel IH]; intros v st Hv HV Hr; cbn [dfs_traversal]; [done|]. cbn [restrict g_faked].
  destruct (bool_decide (v ∈ d_vis st) || g_faked g v); [done|].
  assert (Ed : default [] (g_initfini restrict v) = filter (fun v => v ∈ maps) (default [] (g_initfini g v))) by (cbn; by destruct (g_initfini g v)).
  rewrite Ed. rewrite <- (each_dep_restrict V (dfs_traversal g nmaps fuel) _ _ (dfs_steady fuel) (fun w Hw => Hout v w Hv Hw) IH (visit v st)); [|cbn; set_solver|done].
  destruct (each_dep g _ _ (visit v st)) as [st1| | | |] eqn:E; try done. destruct (each_dep_steady _ _ (dfs_steady fuel) (visit v st) st1 Hr E) as [_ K2]. rewrite !bind_ret, K2. done.
Qed.
Lemma dfs_all_restrict fuel rmaps : (forall m, m ∈ rmaps -> m ∈ maps) -> forall st, V ⊆ d_vis st -> d_rel st = None ->
  dfs_all g nmaps fuel rmaps st = dfs_all restrict nmaps fuel rmaps st.
Proof using Hout.
  induction rmaps as [|m rmaps IH]; intros Hin st HV Hr; [done|]. cbn [dfs_all]. rewrite <- (dfs_restrict fuel m st) by (done || apply Hin; by left).
  destruct (dfs_traversal g nmaps fuel m st) as [st1| | | |] eqn:E; try done. rewrite !bind_ret. destruct (dfs_steady fuel m st st1 Hr E) as [K1 K2].
  case_bool_decide; [done|]. apply IH; [intros m' Hm'; apply Hin; by right|set_solver|done].
Qed.
End Outside.

Lemma sort_outside_spec algo g vis maps force_first : maps <> [] -> NoDup maps -> (forall m, m ∈ maps -> g_faked g m = false) ->
  (forall u v, u ∈ maps -> v ∈ default [] (g_initfini g u) -> v ∈ maps \/ v ∈ vis) -> Z.of_nat (length maps) < 2 ^ 15 ->
  exists maps', _dl_sort_maps algo g vis maps force_first false = Ok maps' /\ maps' ≡ₚ maps /\ (force_first = true -> head maps' = head maps).
Proof.
  intros Hne Hnd Hf Hout Hlen. destruct algo.
  - cbn [_dl_sort_maps]. by apply sort_maps_original_spec.
  - assert (E : _dl_sort_maps dso_sort_algorithm_dfs g vis maps force_first false = _dl_sort_maps dso_sort_algorithm_dfs (restrict g maps) vis maps force_first false).
    { cbn [_dl_sort_maps]. unfold _dl_sort_maps_dfs. destruct maps as [|m0 ms]; [done|]. set (maps := m0 :: ms) in *. unfold dfs_pass.
      rewrite <- (dfs_all_restrict g maps (length maps) (vis ∖ list_to_set maps)); [| |intros m Hm; rewrite elem_of_reverse in Hm; exact Hm|done|done].
      { destruct (dfs_all g _ _ _ _) as [st| | | |] eqn:Ea; try done. rewrite !bind_ret. destruct (c_assert _ _); try done. rewrite !bind_ret.
        assert (Er : d_rel st = None) by (eapply (dfs_all_steady g (length maps)); [|exact Ea]; done). by rewrite Er. }
      intros u v Hu Hv. destruct (decide (v ∈ maps)) as [|Hn]; [by left|]. destruct (Hout u v Hu Hv) as [?|?]; [by left|right]. apply elem_of_difference. split; [done|].
      by rewrite elem_of_list_to_set. }
    rewrite E. destruct (sort_maps_spec dso_sort_algorithm_dfs (restrict g maps) vis maps force_first false) as (maps' & E' & P & H & _); try done; [|eauto].
    intros u v _ [[Hv|[? _]] _]; [|done]. cbn in Hv. destruct (g_initfini g u); [|by apply elem_of_nil in Hv]. cbn in Hv. apply list_elem_of_filter in Hv as [Hv _]. by apply elem_of_list_to_set.
Qed.

(** ** Marks *)

(** The states differ in the marks, which are [f] in the second one. *)
Definition marks (f : mapid -> bool) (s s' : dstate) : Prop := ds_ns s' = ds_ns s /\ forall m, ds_maps s' !! m = with_reserved (f m) <$> ds_maps s !! m.

Lemma marks_ext f f' s s' : (forall m, f m = f' m) -> marks f s s' -> marks f' s s'.
Proof. intros Hf [H1 H2]. split; [done|]. intros m. by rewrite H2, Hf. Qed.
Lemma marks_self f s : (forall m x, ds_maps s !! m = Some x -> d_reserved x = f m) -> marks f s s.
Proof. intros Hf. split; [done|]. intros m. destruct (ds_maps s !! m) as [x|] eqn:E; [|done]. cbn. rewrite <- (Hf m x E). by destruct x. Qed.
Lemma marks_set f s s' m b : marks f s s' -> marks (fun k => if decide (k = m) then b else f k) s (set_dmaps (alter (with_reserved b) m (ds_maps s')) s').
Proof.
  intros [H1 H2]. split; [done|]. intros k. cbn. destruct (decide (k = m)) as [->|Hn]; [rewrite lookup_alter_eq|rewrite lookup_alter_ne by done].
  - rewrite H2. by destruct (ds_maps s !! m).
  - apply H2.
Qed.
Lemma marks_allocs f s s' n : marks f s s' -> marks f s (set_allocs n s').
Proof. by intros [H1 H2]. Qed.
Lemma marks_is_Some f s s' m : marks f s s' -> is_Some (ds_maps s !! m) -> is_Some (ds_maps s' !! m).
Proof. intros [_ H] [x Hx]. rewrite H, Hx. by eexists. Qed.

Lemma decide_cons (k m : mapid) r (a c : bool) :
  (if decide (k ∈ r) then a else if decide (k = m) then a else c) = if decide (k ∈ m :: r) then a else c.
Proof. destruct (decide (k ∈ r)), (decide (k = m)), (decide (k ∈ m :: r)); try done; exfalso; set_solver. Qed.

Lemma mark_spec b r : forall f s s', marks f s s' -> exists s'', mark b r s' = Ret tt s'' /\ marks (fun m => if decide (m ∈ r) then b else f m) s s''.
Proof.
  induction r as [|m r IH]; intros f s s' Hm; cbn [mark]; [exists s'; split; [done|]; eapply marks_ext; [|exact Hm]; done|].
  rewrite (M_bind_step _ _ _ tt (set_dmaps (alter (with_reserved b) m (ds_maps s')) s')) by done.
  destruct (IH _ s _ (marks_set f s s' m b Hm)) as (s'' & E & H). exists s''. split; [done|]. eapply marks_ext; [|exact H]. intros k. cbn.
  apply decide_cons.
Qed.

Lemma preload_spec ms : forall f s s', marks f s s' -> (forall m, m ∈ ms -> is_Some (ds_maps s !! m)) ->
  exists s'', preload ms s' = Ret tt s'' /\ marks (fun m => if decide (m ∈ ms) then true else f m) s s''.
Proof.
  induction ms as [|m ms IH]; intros f s s' Hm Hin; cbn [preload]; [exists s'; split; [done|]; eapply marks_ext; [|exact Hm]; done|].
  destruct (marks_is_Some f s s' m Hm (Hin m ltac:(by left))) as [x Hx]. rewrite (M_bind_step _ _ _ _ _ (d_get_run _ _ _ Hx)).
  rewrite (M_bind_step _ _ _ tt (set_dmaps (alter (with_reserved true) m (ds_maps s')) s')) by done.
  destruct (IH _ s _ (marks_set f s s' m true Hm) ltac:(intros k Hk; apply Hin; by right)) as (s'' & E & H). exists s''. split; [done|]. eapply marks_ext; [|exact H]. intros k. cbn.
  apply decide_cons.
Qed.

Lemma flatten_spec ns : forall f s s', marks f s s' -> (forall m, m ∈ maps_of ns -> is_Some (ds_maps s !! m)) ->
  exists s'', flatten false ns s' = Ret (maps_of ns) s'' /\ marks (fun m => if decide (m ∈ maps_of ns) then false else f m) s s''.
Proof.
  induction ns as [|n ns IH]; intros f s s' Hm Hin; cbn [flatten]; [exists s'; split; [done|]; eapply marks_ext; [|exact Hm]; done|].
  destruct (marks_is_Some f s s' (n_map n) Hm (Hin (n_map n) ltac:(by left))) as [x Hx]. rewrite (M_bind_step _ _ _ _ _ (d_get_run _ _ _ Hx)).
  rewrite (M_bind_step _ _ _ tt (set_dmaps (alter (with_reserved false) (n_map n) (ds_maps s')) s')) by done.
  destruct (IH _ s _ (marks_set f s s' (n_map n) false Hm) ltac:(intros k Hk; apply Hin; by right)) as (s'' & E & H). rewrite (M_bind_step _ _ _ _ _ E). exists s''.
  split; [done|]. eapply marks_ext; [|exact H]. intros k. cbn [maps_of fmap list_fmap].
  apply decide_cons.
Qed.

(** ** Relocation dependencies *)
Lemma unreserved_spec ms f s s' : marks f s s' -> (forall m, m ∈ ms -> is_Some (ds_maps s !! m)) -> unreserved ms s' = Ret (filter (fun m => f m = false) ms) s'.
Proof.
  intros Hm. induction ms as [|m ms IH]; intros Hin; [done|]. cbn [unreserved]. destruct (Hin m ltac:(by left)) as [x Hx].
  assert (Hx' : ds_maps s' !! m = Some (with_reserved (f m) x)) by (by rewrite (proj2 Hm), Hx). rewrite (M_bind_step _ _ _ _ _ (d_get_run _ _ _ Hx')).
  rewrite (M_bind_step _ _ _ _ _ (IH (fun k Hk => Hin k ltac:(by right)))). cbn [with_reserved d_reserved]. rewrite filter_cons.
  destruct (f m); [by rewrite decide_False|by rewrite decide_True].
Qed.

Section Search.
Context (alloc_ok : nat -> bool) (Halloc : forall n, alloc_ok n = true).

Lemma prune_spec ms : forall done f s s', marks f s s' -> (forall m, m ∈ ms -> is_Some (ds_maps s !! m)) ->
  exists rd s'', prune_reldeps alloc_ok done ms s' = Ret rd s'' /\ marks f s s'' /\
    match rd with None => forall m, m ∈ ms -> f m = false | Some r => r = done ++ filter (fun m => f m = false) ms end.
Proof using Halloc.
  induction ms as [|m ms IH]; intros done f s s' Hm Hin; cbn [prune_reldeps].
  - exists None, s'. split; [reflexivity|]. split; [exact Hm|]. by intros m ?%elem_of_nil.
  - destruct (Hin m ltac:(by left)) as [x Hx].
    assert (Hx' : ds_maps s' !! m = Some (with_reserved (f m) x)) by (by rewrite (proj2 Hm), Hx). rewrite (M_bind_step _ _ _ _ _ (d_get_run _ _ _ Hx')).
    cbn [with_reserved d_reserved]. destruct (f m) eqn:Ef.
    + rewrite (M_bind_step _ _ _ _ _ (alloc_run alloc_ok Halloc s')). pose proof (marks_allocs f s s' (S (ds_allocs s')) Hm) as Hm'.
      rewrite (M_bind_step _ _ _ _ _ (unreserved_spec ms f s _ Hm' (fun k Hk => Hin k ltac:(by right)))).
      eexists _, _. split; [reflexivity|]. split; [exact Hm'|]. rewrite filter_cons, decide_False by congruence. reflexivity.
    + destruct (IH (done ++ [m]) f s s' Hm (fun k Hk => Hin k ltac:(by right))) as (rd & s'' & E & Hm' & Hr). exists rd, s''. split; [exact E|]. split; [exact Hm'|].
      destruct rd as [r|].
      * rewrite Hr, filter_cons, decide_True, <- app_assoc by exact Ef. reflexivity.
      * intros k [->|Hk]%elem_of_cons; [exact Ef|auto].
Qed.

Definition kept_reldeps (map : mapid) (r ds : list mapid) : list mapid := filter (fun m => m ∉ r \/ m = map) ds.

Lemma reldeps_spec map r s s' x : marks (fun _ => false) s s' -> ds_maps s !! map = Some x ->
  (forall ds m, dl_reldeps (d_lists x) = Some ds -> m ∈ ds -> is_Some (ds_maps s !! m)) ->
  exists rd s'', reldeps_without alloc_ok map r s' = Ret rd s'' /\ marks (fun _ => false) s s'' /\
    match dl_reldeps (d_lists x) with
    | None => rd = None
    | Some ds => match rd with None => kept_reldeps map r ds = ds | Some ds' => ds' = kept_reldeps map r ds end
    end.
Proof using Halloc.
  intros Hm Hx Hin. unfold reldeps_without. assert (Hx' : ds_maps s' !! map = Some (with_reserved false x)) by (by rewrite (proj2 Hm), Hx).
  rewrite (M_bind_step _ _ _ _ _ (d_get_run _ _ _ Hx')). cbn [with_reserved d_lists]. destruct (dl_reldeps (d_lists x)) as [ds|] eqn:Ed; [|by exists None, s'].
  destruct (mark_spec true r (fun _ => false) s s' Hm) as (s1 & E1 & M1). rewrite (M_bind_step _ _ _ _ _ E1).
  set (s2 := set_dmaps (alter (with_reserved false) map (ds_maps s1)) s1). rewrite (M_bind_step _ _ _ tt s2) by done.
  pose proof (marks_set _ s s1 map false M1) as M2. fold s2 in M2. set (f := fun k => if decide (k = map) then false else if decide (k ∈ r) then true else false) in M2.
  destruct (prune_spec ds [] f s s2 M2 (fun m Hm' => Hin ds m eq_refl Hm')) as (rd & s3 & E3 & M3 & Hr). rewrite (M_bind_step _ _ _ _ _ E3).
  destruct (mark_spec false r f s s3 M3) as (s4 & E4 & M4). rewrite (M_bind_step _ _ _ _ _ E4). exists rd, s4. split; [done|].
  assert (Hf : forall m, f m = false <-> m ∉ r \/ m = map) by (intros m; unfold f; destruct (decide (m = map)), (decide (m ∈ r)); split; try tauto; try done; by intros [?|?]).
  split; [eapply marks_ext; [|exact M4]; intros m; unfold f; by destruct (decide (m ∈ r)), (decide (m = map))|].
  unfold kept_reldeps. destruct rd as [r'|].
  - rewrite Hr. cbn [app]. apply filter_ext_in. intros m _. apply Hf.
  - apply filter_every. intros m Hm'. by apply Hf, Hr.
Qed.

(** ** The object in front *)
Lemma index_of_spec m r : m ∈ r -> exists i, index_of m r = Some i /\ r !! i = Some m.
Proof using.
  induction r as [|x r IH]; [by intros ?%elem_of_nil|]. intros Hin. cbn [index_of]. case_bool_decide as E; [exists 0%nat; by rewrite E|].
  apply elem_of_cons in Hin as [?|Hin]; [done|]. destruct (IH Hin) as (i & -> & Hi). by exists (S i).
Qed.
Lemma to_front_spec m r : m ∈ r -> exists r', to_front m r = Ok r' /\ r' ≡ₚ r /\ head r' = Some m.
Proof using.
  intros Hin. destruct (index_of_spec m r Hin) as (i & Ei & Hi). unfold to_front. rewrite Ei. eexists. split; [reflexivity|]. split; [|done].
  rewrite <- (take_drop_middle r i m Hi) at 3. by rewrite Permutation_middle.
Qed.

Context (dst_count : string -> Z) (dst_substitute : mapid -> string -> string) (enable_secure : bool).
Context (dyn : mapid -> list dynent) (opens : mapid -> string -> option mapid) (s0 : dstate) (D : list mapid).
#[local] Abbreviation linv := (linv dst_count dst_substitute enable_secure dyn opens s0 D).

(** What an object with a search list looks like afterwards. *)
Record searched (map : mapid) (L : list mapid) (s s' : dstate) : Prop := {
  se_marks : forall m x, ds_maps s' !! m = Some x -> d_reserved x = false;
  se_map : exists x x' i, ds_maps s !! map = Some x /\ ds_maps s' !! map = Some x' /\ d_obj x' = d_obj x /\
    dl_searchlist (d_lists x') = Some L /\ dl_initfini (d_lists x') = Some i /\ i ≡ₚ L /\
    (forall n, ds_ns s !! o_ns (d_obj x) = Some n -> dn_libc n <> Some map -> head i = Some map) /\
    dl_reldeps (d_lists x') = kept_reldeps map L <$> dl_reldeps (d_lists x);
  se_others : forall m, m <> map -> ds_maps s' !! m = with_reserved false <$> ds_maps s !! m }.

Lemma sort_step algo visited map ns nl s cur s2 x x1 front first :
  linv s ns nl cur -> ds_maps s !! map = Some x -> (forall m, ds_maps s2 !! m = if decide (m = map) then Some x1 else with_reserved false <$> ds_maps s !! m) ->
  d_obj x1 = d_obj x -> dl_initfini (d_lists x1) = dl_initfini (d_lists x) -> front ≡ₚ maps_of ns -> front <> [] -> Z.of_nat (length ns) < 2 ^ 15 ->
  (forall m v, v ∈ default [] (dl_initfini (old_lists s0 m)) -> v ∈ visited) ->
  exists sorted, _dl_sort_maps algo (dgraph (ds_maps s2)) visited front first false = Ok sorted /\ sorted ≡ₚ front /\ (first = true -> head sorted = head front).
Proof using.
  intros I Hx Hs2 Eo Ei Pf Hne Hlen Hvis. apply sort_outside_spec; [done|rewrite Pf; apply (li_nodup _ _ _ _ _ _ _ _ _ _ _ I)| | |].
  - intros m Hm. cbn. rewrite Hs2. destruct (decide (m = map)); [rewrite Eo; apply (li_obj _ _ _ _ _ _ _ _ _ _ _ I map x Hx)|]. destruct (ds_maps s !! m) as [y|] eqn:Ey; [|done].
    cbn. apply (li_obj _ _ _ _ _ _ _ _ _ _ _ I m y Ey).
  - intros u v Hu Hv. rewrite Pf in *. cbn in Hv. rewrite Hs2 in Hv.
    assert (Hu' : exists y, ds_maps s !! u = Some y /\ v ∈ default [] (dl_initfini (d_lists y))).
    { destruct (decide (u = map)) as [->|]; [exists x; split; [done|]; cbn in Hv; by rewrite Ei in Hv|]. destruct (ds_maps s !! u) as [y|]; [by exists y|by apply elem_of_nil in Hv]. }
    destruct Hu' as (y & Hy & Hv'). destruct (li_lists _ _ _ _ _ _ _ _ _ _ _ I u y Hy) as [Ey|(Hul & _ & _ & ds & Ed & Hds)].
    + right. rewrite Ey in Hv'. by apply (Hvis u).
    + left. rewrite Ed in Hv'. cbn in Hv'. apply elem_of_cons in Hv' as [->|Hv']; [done|auto].
  - replace (length front) with (length ns); [done|]. rewrite Pf. unfold maps_of. by rewrite length_fmap.
Qed.

Lemma search_list_spec algo visited map ns nl s cur :
  linv s ns nl cur -> map ∈ maps_of ns -> dl_searchlist (old_lists s0 map) = None -> Z.of_nat (length ns) < 2 ^ 15 ->
  (forall m v, v ∈ default [] (dl_initfini (old_lists s0 m)) -> v ∈ visited) ->
  (forall ds m, dl_reldeps (old_lists s0 map) = Some ds -> m ∈ ds -> is_Some (ds_maps s0 !! m)) ->
  exists s', search_list alloc_ok algo visited false map ns nl s = Ret tt s' /\ searched map (maps_of ns) s s'.
Proof using Halloc.
  intros I Hmap Hsl Hlen Hvis Hrel. set (L := maps_of ns) in *. destruct (li_known _ _ _ _ _ _ _ _ _ _ _ I map Hmap) as [_ [x Hx]].
  unfold search_list. rewrite (M_bind_step _ _ _ _ _ (d_get_run _ _ _ Hx)).
  pose proof (li_lists _ _ _ _ _ _ _ _ _ _ _ I map x Hx) as Hls.
  assert (Hnone : dl_searchlist (d_lists x) = None /\ dl_reldeps (d_lists x) = dl_reldeps (old_lists s0 map)) by (destruct Hls as [->|(_ & _ & _ & ds & -> & _)]; done).
  destruct Hnone as [Hn1 Hn2]. rewrite (M_bind_step _ _ _ tt s) by (destruct (_ && _); [by rewrite Hn1|done]).
  rewrite (M_bind_step _ _ _ _ _ (alloc_run alloc_ok Halloc s)). set (sa := set_allocs (S (ds_allocs s)) s). rewrite (M_bind_step _ _ _ tt sa) by done.
  assert (M0 : marks (fun m => bool_decide (m ∈ L)) s sa) by (apply marks_allocs, marks_self; apply (li_marks _ _ _ _ _ _ _ _ _ _ _ I)).
  destruct (flatten_spec ns _ s sa M0 (fun m Hm => proj2 (li_known _ _ _ _ _ _ _ _ _ _ _ I m Hm))) as (s1 & E1 & M1). rewrite (M_bind_step _ _ _ _ _ E1). fold L in M1 |- *.
  assert (M1' : marks (fun _ => false) s s1) by (eapply marks_ext; [|exact M1]; intros m; cbn; destruct (decide (m ∈ L)); [done|by rewrite bool_decide_eq_false_2]). clear M1.
  assert (El : length L = length ns) by (apply length_fmap).
  rewrite (M_bind_step _ _ _ tt s1) by (rewrite El, (li_len _ _ _ _ _ _ _ _ _ _ _ I), Z.leb_refl; done).
  set (b1 := set_dmaps (alter (with_search L) map (ds_maps s1)) s1). rewrite (M_bind_step _ _ _ tt b1) by done.
  set (x1 := with_search L (with_reserved false x)).
  assert (Hb1 : forall m, ds_maps b1 !! m = if decide (m = map) then Some x1 else with_reserved false <$> ds_maps s !! m).
  { intros m. cbn. destruct (decide (m = map)) as [->|Hn]; [rewrite lookup_alter_eq, (proj2 M1'), Hx; done|rewrite lookup_alter_ne by done; apply M1']. }
  assert (Mb : marks (fun _ => false) b1 b1).
  { apply marks_self. intros m y. rewrite Hb1. destruct (decide (m = map)); [by intros [= <-]|]. destruct (ds_maps s !! m); [|done]. by intros [= <-]. }
  destruct (reldeps_spec map L b1 b1 x1 Mb) as (rd & s2 & E2 & M2 & Hrd); [rewrite Hb1; by rewrite decide_True| |].
  { cbn. rewrite Hn2. intros ds m Ed Hm. rewrite Hb1. destruct (decide (m = map)); [by eexists|]. destruct (li_old _ _ _ _ _ _ _ _ _ _ _ I m (Hrel ds m Ed Hm)) as [y ->]. by eexists. }
  rewrite (M_bind_step _ _ _ _ _ E2). destruct (to_front_spec map L Hmap) as (front & Ef & Pf & Hf). rewrite (M_bind_step _ _ _ front s2) by (by rewrite Ef).
  rewrite (M_bind_step _ _ _ s2 s2) by done. rewrite Hf. rewrite (M_bind_step _ _ _ map s2) by done.
  assert (Hs2 : forall m, ds_maps s2 !! m = if decide (m = map) then Some x1 else with_reserved false <$> ds_maps s !! m).
  { intros m. rewrite (proj2 M2), Hb1. destruct (decide (m = map)); [done|]. by destruct (ds_maps s !! m). }
  assert (Hx2 : ds_maps s2 !! map = Some x1) by (rewrite Hs2; by rewrite decide_True). rewrite (M_bind_step _ _ _ _ _ (d_get_run _ _ _ Hx2)).
  assert (Ens : ds_ns s2 = ds_ns s) by (rewrite (proj1 M2); cbn; by rewrite (proj1 M1')). cbn [x1 with_search with_lists with_reserved d_obj].
  destruct (li_obj _ _ _ _ _ _ _ _ _ _ _ I map x Hx) as (_ & _ & Hns & _). destruct (lookup_lt_is_Some_2 (ds_ns s) (o_ns (d_obj x)) Hns) as [nsd Hnsd].
  rewrite (M_bind_step _ _ _ nsd s2) by (by rewrite Ens, Hnsd).
  destruct (sort_step algo visited map ns nl s cur s2 x x1 front (negb (bool_decide (dn_libc nsd = Some map)))) as (sorted & Es & Ps & Hs); try done; [by intros ->|].
  rewrite (M_bind_step _ _ _ sorted s2) by (by rewrite Es). set (copy := if _ : bool then L else []).
  set (b3 := set_dmaps (alter (with_initfini sorted copy) map (ds_maps s2)) s2). rewrite (M_bind_step _ _ _ tt b3) by done.
  exists (match rd with None => b3 | Some r => set_dmaps (alter (with_reldeps r) map (ds_maps b3)) b3 end). split; [by destruct rd|].
  assert (Hfin : forall m, ds_maps (match rd with None => b3 | Some r => set_dmaps (alter (with_reldeps r) map (ds_maps b3)) b3 end) !! m =
    if decide (m = map) then Some (match rd with None => with_initfini sorted copy x1 | Some r => with_reldeps r (with_initfini sorted copy x1) end) else with_reserved false <$> ds_maps s !! m).
  { intros m. destruct (decide (m = map)) as [->|Hn].
    - destruct rd; cbn; by rewrite ?lookup_alter_eq, Hx2.
    - destruct rd; cbn; rewrite ?lookup_alter_ne by done; rewrite Hs2; by rewrite decide_False. }
  split.
  - intros m y. rewrite Hfin. destruct (decide (m = map)); [by destruct rd; intros [= <-]|]. destruct (ds_maps s !! m); [|done]. by intros [= <-].
  - eexists x, _, sorted. split; [done|]. split; [rewrite Hfin; by rewrite decide_True|]. split_and!; try (by destruct rd).
    + rewrite Ps. done.
    + intros n Hn Hlibc. assert (n = nsd) as -> by congruence. rewrite bool_decide_eq_false_2 in Hs by done. rewrite Hs by done. done.
    + cbn in Hrd. destruct (dl_reldeps (d_lists x)) as [ds|] eqn:Ed; [|subst rd; cbn; by rewrite Ed]. destruct rd as [r|]; cbn; [by rewrite Hrd|by rewrite Ed, Hrd].
  - intros m Hn. rewrite Hfin. by rewrite decide_False.
Qed.
End Search.

(** ** The whole function *)
Section Theorems.
Context (map_object : mapid -> string -> l_type_t -> nat -> M dstate mapid).
Context (dst_count : string -> Z) (dst_substitute : mapid -> string -> string) (enable_secure : bool).
Context (dyn : mapid -> list dynent) (opens : mapid -> string -> option mapid).
#[local] Abbreviation found := (found dst_count dst_substitute enable_secure opens).
#[local] Abbreviation failing := (failing dst_count dst_substitute enable_secure opens).
#[local] Abbreviation expanded := (expanded dst_count dst_substitute enable_secure).

(** A loader before an object is searched: no marks are left, and objects that have dependencies were sorted. *)
Record dwf (visited : gset mapid) (s : dstate) : Prop := {
  dw_obj : forall m x, ds_maps s !! m = Some x -> obj_ok dyn s m x /\ d_reserved x = false;
  dw_sorted : forall m x v, ds_maps s !! m = Some x -> v ∈ default [] (dl_initfini (d_lists x)) -> v ∈ visited;
  dw_reldeps : forall m x ds v, ds_maps s !! m = Some x -> dl_reldeps (d_lists x) = Some ds -> v ∈ ds -> is_Some (ds_maps s !! v) }.

(** The objects that may come into play: a set that is closed under dependencies, with weights that show that filters are not circular. *)
Record universe (D : list mapid) (weight : mapid -> nat) : Prop := {
  un_nodup : NoDup D;
  un_size : Z.of_nat (length D) < 2 ^ 15;
  un_closed : forall l d m, l ∈ D -> d ∈ dyn l -> found l d = Some m -> m ∈ D;
  un_names : forall l d, d ∈ dyn l -> exists n, expanded l d = Ok n;
  un_weight : forall l, l ∈ D -> (sum_list_with (cost dst_count dst_substitute enable_secure opens weight l) (dyn l) < weight l)%nat }.

Lemma linv_init visited s D ms s1 : dwf visited s -> NoDup ms -> (forall m, m ∈ ms -> m ∈ D /\ is_Some (ds_maps s !! m)) ->
  marks (fun m => if decide (m ∈ ms) then true else false) s s1 ->
  linv dst_count dst_substitute enable_secure dyn opens s D s1 (mkNode false <$> ms) (Z.of_nat (length ms)) None.
Proof.
  intros Wf Hnd Hin [M1 M2]. assert (E : maps_of (mkNode false <$> ms) = ms) by (unfold maps_of; rewrite <- list_fmap_compose; apply list_fmap_id).
  assert (Hlk : forall m y, ds_maps s1 !! m = Some y -> exists x, ds_maps s !! m = Some x /\ y = with_reserved (if decide (m ∈ ms) then true else false) x).
  { intros m y. rewrite M2. destruct (ds_maps s !! m) as [x|]; [|done]. intros [= <-]. eauto. }
  split; rewrite ?E; try done.
  - by rewrite length_fmap.
  - intros m Hm. destruct (Hin m Hm) as [? [x Hx]]. split; [done|]. rewrite M2, Hx. by eexists.
  - intros m y (x & Hx & ->)%Hlk. cbn. by destruct (decide (m ∈ ms)); [rewrite bool_decide_eq_true_2|rewrite bool_decide_eq_false_2].
  - intros m y (x & Hx & ->)%Hlk. destruct (dw_obj _ _ Wf m x Hx) as [Ho _]. unfold obj_ok in *. cbn. by rewrite M1.
  - intros m y (x & Hx & ->)%Hlk. left. unfold old_lists. by rewrite Hx.
  - intros m [x Hx]. rewrite M2, Hx. by eexists.
  - intros n (m & -> & _)%list_elem_of_fmap. done.
Qed.

(** The search list and the arrays of dependencies. *)
Record arranged (D : list mapid) (map : mapid) (ms : list mapid) (s : dstate) (L : list mapid) (s' : dstate) : Prop := {
  ar_nodup : NoDup L;
  ar_start : forall m, m ∈ ms -> m ∈ L;
  ar_known : forall m, m ∈ L -> m ∈ D;
  ar_marks : forall m y, ds_maps s' !! m = Some y -> d_reserved y = false;
  ar_map : exists x i, ds_maps s' !! map = Some x /\ dl_searchlist (d_lists x) = Some L /\ dl_initfini (d_lists x) = Some i /\ i ≡ₚ L;
  ar_lists : forall m y, m <> map -> ds_maps s' !! m = Some y -> lists_ok s L m (d_lists y) }.

(** Without auxiliary objects and filters, the list is what a queue gives. *)
Definition in_queue_order (D ms L : list mapid) : Prop := (forall l d, l ∈ D -> d ∈ dyn l -> is_aux d = false) ->
  forall queue, queue_step dst_count dst_substitute enable_secure dyn opens queue -> queue [] ms -> queue L [].

Lemma object_deps_spec alloc_ok algo visited D weight fuel map preloads s x0 : Opener map_object dyn opens -> (forall n, alloc_ok n = true) ->
  dwf visited s -> universe D weight -> NoDup (map :: preloads) -> (forall m, m ∈ map :: preloads -> m ∈ D /\ is_Some (ds_maps s !! m)) ->
  ds_maps s !! map = Some x0 -> dl_searchlist (d_lists x0) = None -> (sum_list_with weight D < fuel)%nat ->
  exists L, match _dl_map_object_deps alloc_ok map_object dst_count dst_substitute enable_secure algo visited false fuel map preloads s with
  | Ret _ s' => arranged D map (map :: preloads) s L s' /\ (forall l d m, l ∈ L -> d ∈ dyn l -> found l d = Some m -> m ∈ L /\ (is_aux d = true -> before L m l \/ m = l)) /\ in_queue_order D (map :: preloads) L
  | Raise _ _ s' => arranged D map (map :: preloads) s L s' /\ exists l d, l ∈ D /\ d ∈ dyn l /\ failing l d
  | _ => False
  end.
Proof.
  intros Hop Hal Wf [U1 U2 U3 U4 U5] Hnd Hin Hx0 Hs0 Hfuel. unfold _dl_map_object_deps.
  destruct (preload_spec (map :: preloads) (fun _ => false) s s) as (s1 & E1 & M1); [apply marks_self; intros m x Hx; by apply (dw_obj _ _ Wf m x)|by intros m Hm; apply Hin|].
  rewrite (M_bind_step _ _ _ _ _ E1). pose proof (linv_init visited s D _ s1 Wf Hnd Hin M1) as I1.
  assert (Em : maps_of (mkNode false <$> map :: preloads) = map :: preloads) by (unfold maps_of; rewrite <- list_fmap_compose; apply list_fmap_id).
  replace (1 + Z.of_nat (length preloads)) with (Z.of_nat (length (map :: preloads))) by (cbn; lia).
  destruct (deps_loop_spec map_object dst_count dst_substitute enable_secure dyn opens s D weight Hop U4 U1 U3 U5 alloc_ok Hal map fuel [] (mkNode false <$> map :: preloads) (Z.of_nat (length (map :: preloads))) s1) as (err & ns & nl & s2 & E2 & R2 & O2); cbn [app].
  - exact I1.
  - rewrite Em. left.
  - constructor.
  - done.
  - assert (Hle : forall l, (sum_list_with (load weight (mkNode false <$> map :: preloads)) l <= sum_list_with weight l)%nat).
    { induction l as [|m l IH]; [done|]. cbn [sum_list_with]. unfold load at 1. destruct (isdone _ m); lia. }
    unfold left_over. pose proof (Hle D). lia.
  - rewrite (M_bind_step _ _ _ _ _ E2). destruct R2 as [R1 R2]. cbn [app] in R1. rewrite Em in R1.
    assert (Hcur : exists cur, linv dst_count dst_substitute enable_secure dyn opens s D s2 ns nl cur) by (destruct err; [by destruct R2|destruct R2; eauto]).
    destruct Hcur as [cur I2]. set (L := maps_of ns) in *.
    assert (Hlen : Z.of_nat (length ns) < 2 ^ 15).
    { assert (length L <= length D)%nat; [|unfold L, maps_of in *; rewrite length_fmap in *; lia].
      apply submseteq_length, NoDup_submseteq; [apply (li_nodup _ _ _ _ _ _ _ _ _ _ _ I2)|]. intros m Hm. apply (li_known _ _ _ _ _ _ _ _ _ _ _ I2 m Hm). }
    destruct (search_list_spec alloc_ok Hal dst_count dst_substitute enable_secure dyn opens s D algo visited map ns nl s2 cur I2) as (s3 & E3 & S3); try done.
    { apply R1. left. }
    { unfold old_lists. by rewrite Hx0. }
    { intros m v. unfold old_lists. destruct (ds_maps s !! m) as [y|] eqn:Ey; [by apply (dw_sorted _ _ Wf m)|by intros ?%elem_of_nil]. }
    { intros ds m. unfold old_lists. rewrite Hx0. by apply (dw_reldeps _ _ Wf map x0). }
    fold L in S3. exists L. assert (A : arranged D map (map :: preloads) s L s3).
    { destruct S3 as [S1 (x & x' & i & Hx & Hx' & _ & B1 & B2 & B3 & _) S2]. split; try done.
      - apply (li_nodup _ _ _ _ _ _ _ _ _ _ _ I2).
      - intros m Hm. apply (li_known _ _ _ _ _ _ _ _ _ _ _ I2 m Hm).
      - by exists x', i.
      - intros m y Hm Hy. rewrite S2 in Hy by done. destruct (ds_maps s2 !! m) as [y2|] eqn:Ey2; [|done]. injection Hy as <-. apply (li_lists _ _ _ _ _ _ _ _ _ _ _ I2 m y2 Ey2). }
    rewrite (M_bind_step _ _ _ _ _ E3). destruct err as [[o e]|].
    + destruct R2 as [Hfail _]. done.
    + destruct R2 as [I3 Hall]. split; [done|]. split; [|intros Hno queue Hq Hq0; refine (O2 Hno eq_refl _ queue Hq _); [by apply Forall_fmap, Forall_true|by rewrite Em]]. intros l d m Hl Hd Hm. apply list_elem_of_fmap in Hl as (n & -> & Hn). rewrite Forall_forall in Hall.
      destruct (li_done _ _ _ _ _ _ _ _ _ _ _ I3 n Hn (Hall n Hn) d Hd) as [Hs|(? & ? & _)]; [|done]. by apply Hs.
Qed.
(** C17. The dependencies of an object are collected completely, under these conditions: memory is always available; the program is not
    traced (ldd); a name stands for the same object at all times and opening it has no other effect than mapping that object, or raises
    ([Opener]); the loader starts without marks ([dwf]); the objects that may come into play are fewer than 2^15, closed under dependencies,
    the tokens in their names can be expanded, and filters are not circular ([universe], whose weights also bound the fuel); the object
    has no search list yet.  (Without memory or with a name that can not be expanded an error is raised that leaves marks.)
    Then [_dl_map_object_deps] returns, or raises because a needed object or a filtee is missing.  In both cases the search list has
    the object, the preloaded objects and only objects that can be reached, each of them once; the array of [l_initfini] has the same
    objects; no marks are left.  When it returns, every dependency of an object in the list is in the list, and auxiliary objects and
    filtees are in front of the objects that name them. *)
Theorem dependencies_complete alloc_ok algo visited D weight fuel map preloads s x0 : Opener map_object dyn opens -> (forall n, alloc_ok n = true) ->
  dwf visited s -> universe D weight -> NoDup (map :: preloads) -> (forall m, m ∈ map :: preloads -> m ∈ D /\ is_Some (ds_maps s !! m)) ->
  ds_maps s !! map = Some x0 -> dl_searchlist (d_lists x0) = None -> (sum_list_with weight D < fuel)%nat ->
  exists L, match _dl_map_object_deps alloc_ok map_object dst_count dst_substitute enable_secure algo visited false fuel map preloads s with
  | Ret _ s' => arranged D map (map :: preloads) s L s' /\ forall l d m, l ∈ L -> d ∈ dyn l -> found l d = Some m -> m ∈ L /\ (is_aux d = true -> before L m l \/ m = l)
  | Raise _ _ s' => arranged D map (map :: preloads) s L s' /\ exists l d, l ∈ D /\ d ∈ dyn l /\ failing l d
  | _ => False
  end.
Proof.
  intros Hop Hal Wf U Hnd Hin Hx0 Hs0 Hfuel. destruct (object_deps_spec alloc_ok algo visited D weight fuel map preloads s x0 Hop Hal Wf U Hnd Hin Hx0 Hs0 Hfuel) as [L H].
  exists L. destruct (_dl_map_object_deps _ _ _ _ _ _ _ _ _ _ _ s); try done. by destruct H as (? & ? & _).
Qed.
End Theorems.
