(* ===== verification/DepsOrder.v ===== *)
(** * Dependencies: the order of the search list

    Without auxiliary objects and filters the search list is in order of distance: a breadth-first search. *)

From S2P Require Import Prelude LinkMap SortMaps Deps DepsSpec DepsSearch.

Section Order.
Context (dst_count : string -> Z) (dst_substitute : mapid -> string -> string) (enable_secure : bool).
Context (dyn : mapid -> list dynent) (opens : mapid -> string -> option mapid).
#[local] Abbreviation found := (found dst_count dst_substitute enable_secure opens).
#[local] Abbreviation queue_step := (queue_step dst_count dst_substitute enable_secure dyn opens).

(** ** Distance *)
Context (roots : list mapid).
(** Objects that are at most [k] steps away from the first ones. *)
Inductive within : nat -> mapid -> Prop :=
  | within_root k m : m ∈ roots -> within k m
  | within_step k l d m : within k l -> d ∈ dyn l -> found l d = Some m -> within (S k) m.

Lemma within_S k m : within k m -> within (S k) m.
Proof using. induction 1 as [k m H|k l d m H IH Hd Hf]; [by apply within_root|by apply (within_step _ l d)]. Qed.
Lemma within_le j k m : (j <= k)%nat -> within j m -> within k m.
Proof using. induction 1 as [|k _ IH]; [done|]. intros H. by apply within_S, IH. Qed.

(** Nothing comes before something that is nearer. *)
Definition by_distance (L : list mapid) : Prop := forall a b k, before L a b -> within k b -> within k a.

(** ** The queue *)

(** The queue has objects at distance [k], then objects at distance [k + 1]; nothing nearer is missing. *)
Definition level (k : nat) (pre now later : list mapid) : Prop :=
  (forall m, m ∈ pre ++ now -> within k m) /\ (forall m, m ∈ later -> within (S k) m) /\ (forall m, within k m -> m ∈ pre ++ now).
Definition served (pre rest : list mapid) : Prop := forall l d m, l ∈ pre -> d ∈ dyn l -> found l d = Some m -> m ∈ pre ++ rest.
Definition bfs (pre rest : list mapid) : Prop :=
  by_distance (pre ++ rest) /\ served pre rest /\ exists k now later, rest = now ++ later /\ level k pre now later.

Lemma level_next k pre later : served pre later -> level k pre [] later -> level (S k) pre later [].
Proof using.
  intros Hs (L1 & L2 & L3). rewrite app_nil_r in *. split; [|split; [by intros m ?%elem_of_nil|]].
  - intros m [Hm|Hm]%elem_of_app; [by apply within_S, L1|auto].
  - intros m Hm. inversion Hm as [? ? H|? l d ? H Hd Hf]; subst; [apply elem_of_app; left; apply L3; by apply within_root|]. apply (Hs l d); [by apply L3|done|done].
Qed.

Lemma before_app_inv L N a b : before (L ++ N) a b -> before L a b \/ (a ∈ L ++ N /\ b ∈ N).
Proof using.
  intros H. pose proof (before_in _ _ _ H) as [Ha _]. unfold before in *. apply sublist_app_r in H as (k1 & k2 & E & H1 & H2).
  destruct k2 as [|x k2]; [left; rewrite app_nil_r in E; by subst|]. right. split; [done|]. apply (sublist_subseteq _ _ H2).
  assert (Hl : last [a; b] = last (x :: k2)) by (rewrite E, last_app_cons; done). apply last_Some_elem_of. by rewrite <- Hl.
Qed.

Lemma bfs_step : queue_step bfs.
Proof using.
  intros pre l rest new (Hd & Hs & k & now & later & E & Hlv) Hnew Hall.
  assert (Hex : exists k now later, rest = now ++ later /\ level k pre (l :: now) later).
  { destruct now as [|l' now]; [|injection E as -> ->; by exists k, now, later]. cbn in E. exists (S k), rest, []. rewrite app_nil_r. split; [done|].
    rewrite E. apply level_next; [by rewrite E in Hs|]. done. }
  clear k now later E Hlv. destruct Hex as (k & now & later & -> & L1 & L2 & L3).
  assert (Hl : within k l) by (apply L1; set_solver).
  assert (Hin : forall m, m ∈ (pre ++ l :: now ++ later) ++ new -> within (S k) m).
  { intros m [Hm|Hm]%elem_of_app.
    - replace (pre ++ l :: now ++ later) with ((pre ++ l :: now) ++ later) in Hm by (by rewrite <- app_assoc). apply elem_of_app in Hm as [Hm|Hm]; [by apply within_S, L1|auto].
    - destruct (Hnew m Hm) as (_ & d & Hdd & Hf). by apply (within_step k l d). }
  assert (Es : (pre ++ [l]) ++ (now ++ later) ++ new = (pre ++ l :: now ++ later) ++ new) by (rewrite <- !app_assoc; cbn; by rewrite <- !app_assoc). split; [|split].
  - rewrite Es. intros a b j [Hb|[Ha Hb]]%before_app_inv Hj; [by apply (Hd a b j)|]. destruct (Nat.le_gt_cases (S k) j) as [Hk|Hk]; [apply (within_le (S k)); auto|].
    exfalso. destruct (Hnew b Hb) as [Hn _]. apply Hn. assert (b ∈ pre ++ l :: now) by (apply L3, (within_le j); [lia|done]). set_solver.
  - intros m d x Hm Hdd Hf. rewrite Es. apply elem_of_app in Hm as [Hm| ->%list_elem_of_singleton].
    + apply elem_of_app. left. by apply (Hs m d).
    + specialize (Hall d x Hdd Hf). set_solver.
  - exists k, now, (later ++ new). split; [by rewrite app_assoc|]. replace (pre ++ l :: now) with ((pre ++ [l]) ++ now) in * by (by rewrite <- app_assoc).
    split; [done|]. split; [|done]. intros m Hm. apply Hin. set_solver.
Qed.

Lemma bfs_start : bfs [] roots.
Proof using.
  split; [|split; [by intros l d m ?%elem_of_nil|]].
  - intros a b k [Ha _]%before_in _. by apply within_root.
  - exists 0%nat, roots, []. rewrite app_nil_r. split; [done|]. split; [intros m Hm; by apply within_root|]. split; [by intros m ?%elem_of_nil|].
    intros m Hm. inversion Hm. done.
Qed.

Definition exact_order (L : list mapid) : Prop := by_distance L /\ forall m, m ∈ L <-> exists k, within k m.
Lemma bfs_end L : bfs L [] -> exact_order L.
Proof using.
  intros (Hd & Hs & k & now & later & E & L1 & _ & L3). symmetry in E. apply app_eq_nil in E as [-> ->]. unfold served in Hs. rewrite app_nil_r in *. split; [done|].
  intros m. split; [intros Hm; exists k; auto|]. intros [j Hm]. induction Hm as [j m Hr|j l d m _ IH Hdd Hf]; [|by apply (Hs l d)].
  apply L3. by apply within_root.
Qed.
End Order.

(** ** The search list *)
Section Theorems.
Context (map_object : mapid -> string -> l_type_t -> nat -> M dstate mapid).
Context (dst_count : string -> Z) (dst_substitute : mapid -> string -> string) (enable_secure : bool).
Context (dyn : mapid -> list dynent) (opens : mapid -> string -> option mapid).

End Theorems.
