(* ===== verification/DepsExamples.v ===== *)
(** * Dependencies: a small file system

    Witnesses, and inputs on which [_dl_map_object_deps] goes wrong. *)

From S2P Require Import Prelude LinkMap SortMaps Deps DepsSpec DepsSearch DepsOrder.

Module Example18.
(** ** Files *)
Definition need (n : string) : dynent := mkDynent DT_NEEDED n.
Definition auxiliary (n : string) : dynent := mkDynent DT_AUXILIARY n.
Definition filter_of (n : string) : dynent := mkDynent DT_FILTER n.

Definition file := (string * (mapid * list dynent))%type.
Definition file_named (fs : list file) (name : string) : option (mapid * list dynent) := snd <$> List.find (fun f => bool_decide (fst f = name)) fs.
Definition dyn_of (fs : list file) (m : mapid) : list dynent := match List.find (fun f => bool_decide (fst (snd f) = m)) fs with Some f => snd (snd f) | None => [] end.
Definition opens_of (fs : list file) (l : mapid) (name : string) : option mapid := fst <$> file_named fs name.

Definition object (fs : list file) (m : mapid) (ty : l_type_t) (nsid : nat) : dmap :=
  mkD (mkDobj "" ty nsid false false false (dyn_of fs m) (Z.of_nat (length (dyn_of fs m)) + 1)) (mkLists None None [] None) false None None 0.

(** An object is found under its name or made; [link] enters it into the list of its namespace. *)
Definition open_file (fs : list file) (link : mapid -> nat -> M dstate unit) (l : mapid) (name : string) (ty : l_type_t) (nsid : nat) : M dstate mapid :=
  match file_named fs name with
  | None => lift (Signal name "cannot open shared object file")
  | Some (m, _) =>
      s ← gets ds_maps;
      if bool_decide (is_Some (s !! m)) then mret m
      else modify (fun s => set_dmaps (<[m := object fs m ty nsid]> (ds_maps s)) s);; link m nsid;; mret m
  end.
Definition unlinked (m : mapid) (nsid : nat) : M dstate unit := mret tt.

#[local] Instance open_file_opener fs : Opener (open_file fs unlinked) (dyn_of fs) (opens_of fs).
Proof.
  intros l name ty nsid s x Hx Hok ->. unfold open_file, opens_of. destruct (file_named fs name) as [[m d]|]; cbn [fmap option_fmap option_map fst].
  - rewrite (M_bind_step _ _ _ (ds_maps s) s) by done. case_bool_decide as Hm; cbn.
    + split; [done|]. split; [done|]. apply grown_refl.
    + set (x' := object fs m ty (o_ns (d_obj x))). change (Some m = Some m /\ is_Some (<[m := x']> (ds_maps s) !! m) /\ grown (dyn_of fs) s (set_dmaps (<[m := x']> (ds_maps s)) s)).
      split; [done|]. split; [rewrite lookup_insert_eq; by eexists|]. split; cbn; [| |done].
      * intros k y Hy. destruct (decide (k = m)) as [->|]; [exfalso; apply Hm; by eexists|]. rewrite lookup_insert_ne by done. eauto.
      * intros k y Hk Hy. destruct (decide (k = m)) as [->|Hn]; [|rewrite lookup_insert_ne in Hy by done; congruence]. rewrite lookup_insert_eq in Hy. injection Hy as <-.
        split; [done|]. split; [done|]. destruct Hok as (_ & _ & Hns & _). split; [done|]. cbn. split; [lia|done].
  - split; [done|]. apply grown_refl.
Qed.

(** ** A filter

    Object 1 needs 2 and 3; object 3 is a filter for 4, and everything needs libc (5). *)
Definition fs : list file :=
  [("a.so"%string, (1%nat, [need "b.so"; need "c.so"; need "libc.so"])); ("b.so"%string, (2%nat, [need "libc.so"]));
   ("c.so"%string, (3%nat, [filter_of "d.so"; need "libc.so"])); ("d.so"%string, (4%nat, [need "libc.so"])); ("libc.so"%string, (5%nat, []))].
Definition s0 : dstate := mkDS {[ 1%nat := object fs 1 lt_loaded 0 ]} [mkDns (Some 1%nat) 1 None] 0.
#[local] Abbreviation deps files link alloc_ok fuel map s :=
  (_dl_map_object_deps alloc_ok (open_file files link) (fun _ => 0) (fun _ n => n) false dso_sort_algorithm_dfs ∅ false fuel map [] s).
Definition search_of (s : dstate) (m : mapid) : option (list mapid) := x ← ds_maps s !! m; dl_searchlist (d_lists x).

Example searching_1 : match deps fs unlinked (fun _ => true) 20 1%nat s0 with
  | Ret _ s' => search_of s' 1 = Some [1; 2; 4; 3; 5]%nat /\ (x ← ds_maps s' !! 1%nat; dl_initfini (d_lists x)) = Some [1; 2; 3; 4; 5]%nat
  | _ => False end.
Proof. vm_compute. split; reflexivity. Qed.

Definition D18 : list mapid := [1; 2; 3; 4; 5]%nat.
Definition weight18 (m : mapid) : nat := if decide (m = 3%nat) then 2 else 1.
Definition closed_here (files : list file) (D : list mapid) (w : mapid -> nat) : bool :=
  forallb (fun l => forallb (fun d => match found (fun _ => 0) (fun _ n => n) false (opens_of files) l d with Some m => bool_decide (m ∈ D) | None => true end) (dyn_of files l)
    && (sum_list_with (cost (fun _ => 0%Z) (fun _ n => n) false (opens_of files) w l) (dyn_of files l) <? w l)%nat) D.

Lemma universe_by files D w : bool_decide (NoDup D) = true -> (Z.of_nat (length D) <? 2 ^ 15) = true -> closed_here files D w = true ->
  universe (fun _ => 0) (fun _ n => n) false (dyn_of files) (opens_of files) D w.
Proof.
  intros H1%bool_decide_eq_true H2%Z.ltb_lt H3. unfold closed_here in H3. rewrite forallb_forall in H3. split; [done|done| |by intros l d _; eexists|].
  - intros l d m Hl Hd Hf. apply list_elem_of_In in Hl. specialize (H3 l Hl). apply andb_true_iff in H3 as [H3 _]. rewrite forallb_forall in H3.
    apply list_elem_of_In in Hd. specialize (H3 d Hd). rewrite Hf in H3. by apply bool_decide_eq_true in H3.
  - intros l Hl. apply list_elem_of_In in Hl. specialize (H3 l Hl). apply andb_true_iff in H3 as [_ H3]. by apply Nat.ltb_lt in H3.
Qed.
Lemma no_aux_by files D : forallb (fun l => forallb (fun d => negb (is_aux d)) (dyn_of files l)) D = true -> forall l d, l ∈ D -> d ∈ dyn_of files l -> is_aux d = false.
Proof.
  intros H l d Hl Hd. rewrite forallb_forall in H. apply list_elem_of_In in Hl. specialize (H l Hl). rewrite forallb_forall in H. apply list_elem_of_In in Hd.
  by apply negb_true_iff, H.
Qed.
Lemma dwf_single files m ty : dwf (dyn_of files) ∅ (mkDS {[ m := object files m ty 0 ]} [mkDns (Some m) 1 None] 0).
Proof.
  split; cbn [ds_maps]; intros k x; intros; rewrite lookup_singleton_Some in *; destruct_and?; subst; cbn in *.
  - split; [|done]. split; [done|]. cbn. split; [lia|]. split; [lia|done].
  - by apply elem_of_nil in H0.
  - done.
Qed.

Lemma dependencies_complete_witness : exists L, match deps fs unlinked (fun _ => true) 20 1%nat s0 with
  | Ret _ s' => arranged D18 1%nat [1%nat] s0 L s' /\ forall l d m, l ∈ L -> d ∈ dyn_of fs l -> found (fun _ => 0) (fun _ n => n) false (opens_of fs) l d = Some m -> m ∈ L /\ (is_aux d = true -> before L m l \/ m = l)
  | Raise _ _ s' => arranged D18 1%nat [1%nat] s0 L s' /\ exists l d, l ∈ D18 /\ d ∈ dyn_of fs l /\ failing (fun _ => 0) (fun _ n => n) false (opens_of fs) l d
  | _ => False
  end.
Proof.
  apply (dependencies_complete (open_file fs unlinked) (fun _ => 0) (fun _ n => n) false (dyn_of fs) (opens_of fs) (fun _ => true) dso_sort_algorithm_dfs ∅ D18 weight18 20 1%nat [] s0 (object fs 1 lt_loaded 0)).
  - apply open_file_opener.
  - reflexivity.
  - apply dwf_single.
  - apply universe_by; vm_compute; reflexivity.
  - apply (bool_decide_eq_true_1 _). vm_compute. reflexivity.
  - intros m Hm. apply list_elem_of_singleton in Hm as ->. split; [left|by eexists].
  - reflexivity.
  - reflexivity.
  - apply (bool_decide_eq_true_1 _). vm_compute. reflexivity.
Defined.

(** ** A diamond *)
Definition diamond : list file :=
  [("a.so"%string, (1%nat, [need "b.so"; need "c.so"])); ("b.so"%string, (2%nat, [need "d.so"; need "e.so"])); ("c.so"%string, (3%nat, [need "e.so"; need "a.so"]));
   ("d.so"%string, (4%nat, [need "c.so"])); ("e.so"%string, (5%nat, []))].
Definition diamond_start : dstate := mkDS {[ 1%nat := object diamond 1 lt_loaded 0 ]} [mkDns (Some 1%nat) 1 None] 0.

Example searching_diamond : match deps diamond unlinked (fun _ => true) 20 1%nat diamond_start with Ret _ s' => search_of s' 1 = Some [1; 2; 3; 4; 5]%nat | _ => False end.
Proof. vm_compute. reflexivity. Qed.


(** ** Circular auxiliary objects

    Each of two objects is an auxiliary object of the other one; they take turns at being put in front. *)
Definition circular : list file := [("a.so"%string, (1%nat, [auxiliary "b.so"])); ("b.so"%string, (2%nat, [auxiliary "a.so"]))].
Definition circular_start : dstate := mkDS {[ 1%nat := object circular 1 lt_loaded 0 ]} [mkDns (Some 1%nat) 1 None] 0.
#[local] Abbreviation turns fuel rest cnt s := (deps_loop (fun _ => true) (open_file circular _dl_add_to_namespace_list) (fun _ => 0) (fun _ n => n) false fuel 1%nat [] rest cnt s).
#[local] Abbreviation ab := [mkNode false 1%nat; mkNode true 2%nat].
#[local] Abbreviation ba := [mkNode false 2%nat; mkNode true 1%nat].
(** The state after the first turn, and after two turns more. *)
Definition linked (m : mapid) (i : option (list mapid)) (prev next : option mapid) (ns : nat) : dmap :=
  mkD (d_obj (object circular m lt_loaded ns)) (mkLists None i (default [] i) None) true prev next 0.
Definition before_1 (i : option (list mapid)) (n : nat) : dstate :=
  mkDS {[ 1%nat := linked 1 None (Some 2%nat) None 0; 2%nat := linked 2 i None (Some 1%nat) 0 ]} [mkDns (Some 1%nat) 2 None] n.
Definition before_2 : dstate :=
  mkDS {[ 1%nat := linked 1 None None (Some 2%nat) 0; 2%nat := linked 2 (Some [2; 1]%nat) (Some 1%nat) None 0 ]} [mkDns (Some 1%nat) 2 None] 2.

Ltac by_turn fuel :=
  cbn [deps_loop];
  match goal with |- context [deps_loop ?a ?b ?c ?d ?e fuel] => generalize (deps_loop a b c d e fuel) end;
  intros f; vm_compute; reflexivity.

Lemma turn_first fuel : deps circular _dl_add_to_namespace_list (fun _ => true) (S fuel) 1%nat circular_start =
  ('(err, known, nlist) ← (fun _ => turns fuel ba 2 (before_1 None 0));
   search_list (fun _ => true) dso_sort_algorithm_dfs ∅ false 1%nat known nlist;; match err with None => mret tt | Some (o, e) => lift (Signal o e) end) circular_start.
Proof. unfold _dl_map_object_deps. by_turn fuel. Qed.
Lemma turn_second fuel : turns (S fuel) ba 2 (before_1 None 0) = turns fuel ab 2 before_2.
Proof. by_turn fuel. Qed.
Lemma turn_a fuel : turns (S fuel) ab 2 before_2 = turns fuel ba 2 (before_1 (Some [2; 1]%nat) 2).
Proof. by_turn fuel. Qed.
Lemma turn_b fuel : turns (S fuel) ba 2 (before_1 (Some [2; 1]%nat) 2) = turns fuel ab 2 before_2.
Proof. by_turn fuel. Qed.
Lemma turns_forever fuel : turns fuel ab 2 before_2 = Loop /\ turns fuel ba 2 (before_1 (Some [2; 1]%nat) 2) = Loop.
Proof. induction fuel as [|fuel [IH1 IH2]]; [done|]. by rewrite turn_a, turn_b, IH1, IH2. Qed.

(** When two objects are auxiliary objects of each other, the loop of [_dl_map_object_deps] never ends: whatever the number of
    iterations, it is not enough. *)
Theorem circular_never_ends fuel : deps circular _dl_add_to_namespace_list (fun _ => true) fuel 1%nat circular_start = Loop.
Proof.
  destruct fuel as [|fuel]; [by vm_compute|]. rewrite turn_first. unfold mbind, M_bind.
  assert (E : turns fuel ba 2 (before_1 None 0) = Loop) by (destruct fuel as [|fuel]; [done|]; rewrite turn_second; apply turns_forever).
  by rewrite E.
Qed.

(** ** A filter that is the first object of its namespace

    The filtee is put in front of the filter, but the namespace still starts at the filter: the list of the namespace has one object,
    and not the two that are counted. *)
Definition filtering : list file := [("a.so"%string, (1%nat, [filter_of "b.so"])); ("b.so"%string, (2%nat, []))].
Definition filtering_start : dstate := mkDS {[ 1%nat := object filtering 1 lt_loaded 0 ]} [mkDns (Some 1%nat) 1 None] 0.
Fixpoint chain (fuel : nat) (s : dstate) (m : option mapid) : list mapid :=
  match fuel, m with
  | S fuel, Some m => m :: chain fuel s (x ← ds_maps s !! m; d_next x)
  | _, _ => []
  end.

Lemma filtee_not_in_list : match deps filtering _dl_add_to_namespace_list (fun _ => true) 10 1%nat filtering_start with
  | Ret _ s' => search_of s' 1 = Some [2; 1]%nat /\ exists ns, head (ds_ns s') = Some ns /\ dn_nloaded ns = 2 /\ chain 10 s' (dn_loaded ns) = [1%nat]
  | _ => False end.
Proof. vm_compute. split; [reflexivity|]. by eexists. Qed.

(** ** Marks that stay

    Memory is short while the dependencies of one object are recorded.  The marks are not cleared, and libc (5), which the next object
    needs, is not in its search list. *)
Definition two : list file :=
  [("a.so"%string, (1%nat, [need "libc.so"; need "b.so"])); ("b.so"%string, (2%nat, [])); ("c.so"%string, (3%nat, [need "libc.so"])); ("libc.so"%string, (5%nat, []))].
Definition two_start : dstate :=
  mkDS {[ 1%nat := object two 1 lt_loaded 0; 3%nat := object two 3 lt_loaded 0; 5%nat := object two 5 lt_library 0 ]} [mkDns (Some 1%nat) 3 None] 0.

Lemma marks_left : exists s', deps two unlinked (fun n => negb (bool_decide (n = 0%nat))) 10 1%nat two_start = Raise "" "cannot allocate dependency buffer" s' /\
  match deps two unlinked (fun _ => true) 10 3%nat s' with Ret _ s2 => search_of s2 3 = Some [3%nat] | _ => False end.
Proof. eexists. split; [vm_compute; reflexivity|]. vm_compute. reflexivity. Qed.

(** ** Empty substitutions

    A needed object with a token that has no substitution is left out without an error; an auxiliary object, which may be missing, is
    an error. *)
Definition tokens (t : dynent) : list file := [("a.so"%string, (1%nat, [t]))].
#[local] Abbreviation empty_dst t :=
  (_dl_map_object_deps (fun _ => true) (open_file (tokens t) unlinked) (fun _ => 1) (fun _ _ => ""%string) false dso_sort_algorithm_dfs ∅ false 10 1%nat []
     (mkDS {[ 1%nat := object (tokens t) 1 lt_loaded 0 ]} [mkDns (Some 1%nat) 1 None] 0)).
Lemma empty_substitutions :
  match empty_dst (need "$ORIGIN") with Ret _ s' => search_of s' 1 = Some [1%nat] | _ => False end /\
  exists s', empty_dst (auxiliary "$ORIGIN") = Raise "$ORIGIN" "empty dynamic string token substitution" s'.
Proof. split; [vm_compute; reflexivity|]. eexists. vm_compute. reflexivity. Qed.
End Example18.
