(* ===== verification/Close.v ===== *)
(** * Closing objects

    [_dl_close_worker] and [_dl_close] ([elf/dl-close.c]): finding the objects that are still
    used, running the destructors of the others, taking them out of the scopes and lists that
    mention them, and unmapping them.

    One thread runs.  Destructors may call [dlclose]: [closes m] are the handles the destructors of
    [m] close, in this order.  Auditing, debugging output, the debugger interface and
    the freeing of the parts of a link map are not modelled. *)

From S2P Require Import Prelude LinkMap SortMaps TlsOffset DynTls.

(** ** State *)

(** An element of [l_scope] points to [l_symbolic_searchlist] of the object itself or to [l_searchlist] of
    some object. *)
Inductive scope_elem := SymbolicOwn | SearchOf (m : mapid).
#[export] Instance scope_elem_eq_dec : EqDecision scope_elem.
Proof. solve_decision. Defined.

(** The fields of a link map that closing only reads.  [ci_initfini] is the list up to its null pointer,
    [ci_copy] what follows the null pointer in the same array. *)
Record cident := mkCI {
  ci_type : l_type_t;
  ci_ns : nat;
  ci_name : string;
  ci_nodelete : bool;                (* l_nodelete_active *)
  ci_dtors : Z;                      (* l_tls_dtor_count *)
  ci_global : bool;
  ci_initfini : option (list mapid);
  ci_copy : list mapid;
  ci_reldeps : option (list mapid);
  ci_faked : bool;
  ci_main : bool;
  ci_proxy : bool }.                 (* l_real is another object *)

(** [l_map_used], [l_map_done], [l_idx] *)
Record cmark := mkMark { mk_used : bool; mk_done : bool; mk_idx : Z }.

(** [l_searchlist] (with [None] for a null pointer), [l_scope], whether it is [l_scope_mem], its size, and
    [l_loader]. *)
Record cscope := mkScope {
  sc_searchlist : option (list mapid);
  sc_list : list scope_elem;
  sc_in_mem : bool;
  sc_max : Z;
  sc_loader : option mapid }.

Record cmap := mkC {
  c_id : cident;
  c_open : Z;                        (* l_direct_opencount *)
  c_mark : cmark;
  c_init_called : bool;
  c_removed : bool;
  c_scope : cscope }.
Definition c_type (l : cmap) : l_type_t := ci_type (c_id l).
Definition c_used (l : cmap) : bool := mk_used (c_mark l).
Definition c_done (l : cmap) : bool := mk_done (c_mark l).
Definition c_idx (l : cmap) : Z := mk_idx (c_mark l).

Definition with_open (n : Z) (l : cmap) : cmap := mkC (c_id l) n (c_mark l) (c_init_called l) (c_removed l) (c_scope l).
Definition with_mark (k : cmark) (l : cmap) : cmap := mkC (c_id l) (c_open l) k (c_init_called l) (c_removed l) (c_scope l).
Definition with_init (b : bool) (l : cmap) : cmap := mkC (c_id l) (c_open l) (c_mark l) b (c_removed l) (c_scope l).
Definition with_removed (b : bool) (l : cmap) : cmap := mkC (c_id l) (c_open l) (c_mark l) (c_init_called l) b (c_scope l).
Definition with_scope (sc : cscope) (l : cmap) : cmap := mkC (c_id l) (c_open l) (c_mark l) (c_init_called l) (c_removed l) sc.
Definition with_searchlist (sl : option (list mapid)) (l : cmap) : cmap :=
  with_scope (mkScope sl (sc_list (c_scope l)) (sc_in_mem (c_scope l)) (sc_max (c_scope l)) (sc_loader (c_scope l))) l.
Definition with_scopes (es : list scope_elem) (in_mem : bool) (max : Z) (l : cmap) : cmap :=
  with_scope (mkScope (sc_searchlist (c_scope l)) es in_mem max (sc_loader (c_scope l))) l.
Definition without_loader (l : cmap) : cmap :=
  with_scope (mkScope (sc_searchlist (c_scope l)) (sc_list (c_scope l)) (sc_in_mem (c_scope l)) (sc_max (c_scope l)) None) l.

Record nsd := mkNsd {
  nd_loaded : list mapid;            (* _ns_loaded, linked by l_next *)
  nd_nloaded : Z;
  nd_msl : list mapid;               (* _ns_main_searchlist; a null pointer outside of the base namespace, where no object
                                        ever becomes global ([Open.main_searchlist]), so that it is not read here *)
  nd_unique : unique_sym_table }.

Inductive close_state := not_pending | pending | rerun.
#[export] Instance close_state_eq_dec : EqDecision close_state.
Proof. solve_decision. Defined.

Inductive cevent := Fini (m : mapid) | Unmap (m : mapid).

Record cstate := mkCS {
  cs_maps : gmap mapid cmap;
  cs_ns : list nsd;                  (* GL(dl_ns) *)
  cs_nns : Z;                        (* GL(dl_nns) *)
  cs_pending : close_state;          (* dl_close_state *)
  cs_tls : tls_state;
  cs_static_used : Z;                (* GL(dl_tls_static_used) *)
  cs_initfirst : option mapid;       (* GL(dl_initfirst) *)
  cs_log : list cevent }.

Definition set_cmaps (x : gmap mapid cmap) (s : cstate) : cstate :=
  mkCS x (cs_ns s) (cs_nns s) (cs_pending s) (cs_tls s) (cs_static_used s) (cs_initfirst s) (cs_log s).
Definition set_cns (x : list nsd) (s : cstate) : cstate :=
  mkCS (cs_maps s) x (cs_nns s) (cs_pending s) (cs_tls s) (cs_static_used s) (cs_initfirst s) (cs_log s).
Definition set_nns (x : Z) (s : cstate) : cstate :=
  mkCS (cs_maps s) (cs_ns s) x (cs_pending s) (cs_tls s) (cs_static_used s) (cs_initfirst s) (cs_log s).
Definition set_pending (x : close_state) (s : cstate) : cstate :=
  mkCS (cs_maps s) (cs_ns s) (cs_nns s) x (cs_tls s) (cs_static_used s) (cs_initfirst s) (cs_log s).
Definition set_ctls (x : tls_state) (s : cstate) : cstate :=
  mkCS (cs_maps s) (cs_ns s) (cs_nns s) (cs_pending s) x (cs_static_used s) (cs_initfirst s) (cs_log s).
Definition set_static_used (x : Z) (s : cstate) : cstate :=
  mkCS (cs_maps s) (cs_ns s) (cs_nns s) (cs_pending s) (cs_tls s) x (cs_initfirst s) (cs_log s).
Definition set_initfirst (x : option mapid) (s : cstate) : cstate :=
  mkCS (cs_maps s) (cs_ns s) (cs_nns s) (cs_pending s) (cs_tls s) (cs_static_used s) x (cs_log s).
Definition add_log (e : cevent) (s : cstate) : cstate :=
  mkCS (cs_maps s) (cs_ns s) (cs_nns s) (cs_pending s) (cs_tls s) (cs_static_used s) (cs_initfirst s) (cs_log s ++ [e]).

Definition c_get (m : mapid) : M cstate cmap := fun s =>
  match cs_maps s !! m with Some l => Ret l s | None => Wild end.
Definition c_set (m : mapid) (f : cmap -> cmap) : M cstate unit := modify (fun s => set_cmaps (alter f m (cs_maps s)) s).
Definition get_nsd (n : nat) : M cstate nsd := fun s =>
  match cs_ns s !! n with Some x => Ret x s | None => Wild end.
Definition put_nsd (n : nat) (x : nsd) : M cstate unit := modify (fun s => set_cns (<[n := x]> (cs_ns s)) s).

(** Code on the TLS part of the state. *)
Definition on_tls {A} (m : M tls_state A) : M cstate A := fun s =>
  match m (cs_tls s) with
  | Ret a t => Ret a (set_ctls t s)
  | Raise o e t => Raise o e (set_ctls t s)
  | Stop e => Stop e
  | Wild => Wild
  | Loop => Loop
  end.

Definition IDX_STILL_USED : Z := -1.

(** ** Which objects are used *)

(** [for (l = ns->_ns_loaded; l != NULL; l = l->l_next)]: the marks are cleared, the objects numbered. *)
Fixpoint number (ms : list mapid) (idx : Z) : M cstate unit :=
  match ms with
  | [] => mret tt
  | m :: ms => l ← c_get m; c_set m (with_mark (mkMark false false idx));; number ms (idx + 1)
  end.

(** The object to close is exchanged with the first one. *)
Definition put_first (map : mapid) (maps : list mapid) : M cstate (list mapid) :=
  l ← c_get map;
  first ← lift (rd maps 0);
  maps ← lift (wr maps (c_idx l) first);
  c_set first (fun x => with_mark (mkMark (c_used x) (c_done x) (c_idx l)) x);;
  maps ← lift (wr maps 0 map);
  c_set map (fun x => with_mark (mkMark (c_used x) (c_done x) 0) x);;
  mret maps.

(** A dependency of an object that is used; the result is the new [done_index]. *)
Definition mark_dep (nloaded done_index : Z) (m : mapid) : M cstate Z :=
  d ← c_get m;
  if c_idx d =? IDX_STILL_USED then mret done_index
  else
    lift (c_assert ((0 <=? c_idx d) && (c_idx d <? nloaded)) "l_idx >= 0 && l_idx < nloaded");;
    if c_used d then mret done_index
    else
      c_set m (with_mark (mkMark true (c_done d) (c_idx d)));;
      mret (if c_idx d - 1 <? done_index then c_idx d - 1 else done_index).

Fixpoint mark_deps (nloaded done_index : Z) (ms : list mapid) : M cstate Z :=
  match ms with
  | [] => mret done_index
  | m :: ms => done_index ← mark_dep nloaded done_index m; mark_deps nloaded done_index ms
  end.

(** The lists of dependencies; the object itself is the first element of [l_initfini]. *)
Definition deps_of (l : cmap) : res (list mapid) :=
  initfini ← match ci_initfini (c_id l) with
             | None => mret []
             | Some [] => Undef
             | Some (_ :: ds) => mret ds
             end;
  mret (initfini ++ default [] (ci_reldeps (c_id l))).

Definition unused (l : cmap) : bool :=
  bool_decide (c_type l = lt_loaded) && (c_open l =? 0) && negb (ci_nodelete (c_id l)) && (ci_dtors (c_id l) =? 0) && negb (c_used l).

(** [while (++done_index < nloaded)] *)
Fixpoint mark_loop (fuel : nat) (maps : list mapid) (nloaded done_index : Z) : M cstate unit :=
  match fuel with
  | O => lift Diverge
  | S fuel =>
      let done_index := done_index + 1 in
      if done_index <? nloaded then
        m ← lift (rd maps done_index);
        l ← c_get m;
        if c_done l then mark_loop fuel maps nloaded done_index
        else if unused l then mark_loop fuel maps nloaded done_index
        else
          c_set m (with_mark (mkMark true true IDX_STILL_USED));;
          ds ← lift (deps_of l);
          done_index ← mark_deps nloaded done_index ds;
          mark_loop fuel maps nloaded done_index
      else mret tt
  end.

(** Every round marks a new object as done or advances over the array, which starts again after an object was done. *)
Definition mark_fuel (n : nat) : nat := (S n * S (S n))%nat.

(** ** Destructors and scopes *)

(** What the sort reads. *)
Definition cgraph (ms : gmap mapid cmap) : graph :=
  mkGraph (fun m => l ← ms !! m; ci_initfini (c_id l)) (fun m => l ← ms !! m; ci_reldeps (c_id l))
    (fun m => match ms !! m with Some l => ci_faked (c_id l) | None => false end)
    (fun m => match ms !! m with Some l => ci_main (c_id l) | None => false end)
    (fun m => match ms !! m with Some l => ci_proxy (c_id l) | None => false end)
    (fun m => match ms !! m with Some l => c_idx l | None => 0 end).

(** The first part of [_dl_close_worker]: one use less; [true] when the objects have to be collected. *)
Definition enter (map : mapid) : M cstate bool :=
  c_set map (fun l => with_open (u32 (c_open l - 1)) l);;
  l ← c_get map;
  st ← gets cs_pending;
  if (0 <? c_open l) || bool_decide (c_type l <> lt_loaded) || bool_decide (st <> not_pending) then
    when ((c_open l =? 0) && bool_decide (c_type l = lt_loaded)) (modify (set_pending rerun));;
    mret false
  else mret true.

(** [dlclose] called by a destructor; its errors are returned to the destructor. *)
Definition nested_close (m : mapid) : M cstate unit :=
  l ← c_get m;
  if ci_nodelete (c_id l) then mret tt
  else if c_open l =? 0 then mret tt
  else go ← enter m; if (go : bool) then lift Undef else mret tt.

Fixpoint nested_closes (ms : list mapid) : M cstate unit :=
  match ms with
  | [] => mret tt
  | m :: ms => nested_close m;; nested_closes ms
  end.

(** The number of scopes that remain, and whether one is removed. *)
Fixpoint count_scopes (nsid : nat) (scope : list scope_elem) (remain : Z) (removed_any : bool) : M cstate (Z * bool) :=
  match scope with
  | [] => mret (remain, removed_any)
  | SymbolicOwn :: scope => count_scopes nsid scope (remain + 1) removed_any
  | SearchOf t :: scope =>
      tmap ← c_get t;
      lift (c_assert (bool_decide (ci_ns (c_id tmap) = nsid)) "tmap->l_ns == nsid");;
      if c_idx tmap =? IDX_STILL_USED then count_scopes nsid scope (remain + 1) removed_any
      else count_scopes nsid scope remain true
  end.

(** The scopes copied; [new_list] takes the place of the first one that is removed. *)
Fixpoint copy_scopes (scope : list scope_elem) (new_list : option scope_elem) : M cstate (list scope_elem) :=
  match scope with
  | [] => mret []
  | SymbolicOwn :: scope => r ← copy_scopes scope new_list; mret (SymbolicOwn :: r)
  | SearchOf t :: scope =>
      tmap ← c_get t;
      if c_idx tmap =? IDX_STILL_USED then r ← copy_scopes scope new_list; mret (SearchOf t :: r)
      else
        match new_list with
        | Some e => r ← copy_scopes scope None; mret (e :: r)
        | None => copy_scopes scope None
        end
  end.

(** The number of elements of [l_scope_mem]. *)
Definition SCOPE_ELEMS : Z := 4.

Section Worker.
Context (algo : dso_sort_algorithm) (visited : gset mapid) (closes : mapid -> list mapid).
(** Whether there is memory for a new scope array of the object. *)
Context (scope_malloc_ok : mapid -> bool).

(** [_dl_call_fini], whose calls [InitFini] models; the destructors may call [dlclose]. *)
Definition run_destructors (m : mapid) : M cstate unit :=
  c_set m (with_init false);;
  modify (add_log (Fini m));;
  nested_closes (closes m).

(** An object that stays and was loaded by [dlopen]: what refers to objects that go is taken out of its scope. *)
Definition fix_scope (nsid : nat) (m : mapid) : M cstate unit :=
  l ← c_get m;
  let sc := c_scope l in
  own ← match sc_searchlist sc, ci_initfini (c_id l) with
        | None, Some initfini =>
            if (length (ci_copy (c_id l)) <? length initfini)%nat then lift Undef
            else mret (Some (take (length initfini) (ci_copy (c_id l))))
        | _, _ => mret None
        end;
  let new_list := match own with Some _ => Some (SearchOf m) | None => None end in
  when (bool_decide (is_Some own)) (c_set m (with_searchlist own));;
  '(remain, removed_any) ← count_scopes nsid (sc_list sc) ((if bool_decide (is_Some own) then 1 else 0) + 1) false;
  (if (removed_any : bool) then
     let in_mem := negb (sc_in_mem sc) && (remain <? SCOPE_ELEMS) in
     let new_size := if in_mem then SCOPE_ELEMS else sc_max sc in
     (if in_mem || scope_malloc_ok m then mret tt
      else lift (Signal "dlclose" "cannot create scope list"));;
     newp ← copy_scopes (sc_list sc) new_list;
     if Z.of_nat (length newp) <? new_size then c_set m (with_scopes newp in_mem new_size) else lift Undef
   else when (bool_decide (is_Some own)) (c_set m (with_searchlist None)));;
  match sc_loader sc with
  | None => mret tt
  | Some t =>
      tmap ← c_get t;
      if c_idx tmap =? IDX_STILL_USED then mret tt
      else c_set m without_loader
  end.

(** What the loop over the sorted objects computes: [unload_any], [unload_global] and [first_loaded]. *)
Record found := mkFound { f_any : bool; f_global : Z; f_first : Z }.

Fixpoint finish_loop (nsid : nat) (maps : list mapid) (i : Z) (f : found) : M cstate found :=
  match maps with
  | [] => mret f
  | m :: maps =>
      imap ← c_get m;
      lift (c_assert (bool_decide (ci_ns (c_id imap) = nsid)) "imap->l_ns == nsid");;
      let first := if i <? f_first f then i else f_first f in
      f ← (if negb (c_used imap) then
             lift (c_assert (bool_decide (c_type imap = lt_loaded) && negb (ci_nodelete (c_id imap)))
                     "imap->l_type == lt_loaded && !imap->l_nodelete_active");;
             when (c_init_called imap) (run_destructors m);;
             c_set m (with_removed true);;
             mret (mkFound true (if ci_global (c_id imap) then f_global f + 1 else f_global f) first)
           else if bool_decide (c_type imap = lt_loaded) then
             fix_scope nsid m;; mret (mkFound (f_any f) (f_global f) first)
           else mret f);
      finish_loop nsid maps (i + 1) f
  end.

(** ** The global scope *)

(** [while (cnt > 0 && ns_msl->r_list[cnt - 1]->l_removed) --cnt;] *)
Fixpoint strip_removed (cnt : nat) (l : list mapid) : M cstate nat :=
  match cnt with
  | O => mret O
  | S n => m ← lift (res_of_option (l !! n)); x ← c_get m; if c_removed x then strip_removed n l else mret (S n)
  end.

Fixpoint not_removed (l : list mapid) : M cstate (list mapid) :=
  match l with
  | [] => mret []
  | m :: l => x ← c_get m; r ← not_removed l; mret (if c_removed x then r else m :: r)
  end.

Definition prune_global (nsid : nat) (unload_global : Z) : M cstate unit :=
  ns ← get_nsd nsid;
  cnt ← strip_removed (length (nd_msl ns)) (nd_msl ns);
  l ← (if Z.of_nat cnt + unload_global =? Z.of_nat (length (nd_msl ns)) then mret (take cnt (nd_msl ns))
       else not_removed (take cnt (nd_msl ns)));
  put_nsd nsid (mkNsd (nd_loaded ns) (nd_nloaded ns) l (nd_unique ns)).

(** ** Unmapping *)

(** The chunk of static TLS memory that can be given back: [GL(dl_tls_static_used)], [tls_free_start] and [tls_free_end]
    after a block. *)
Definition reclaim (offset blocksize : Z) (c : Z * Z * Z) : Z * Z * Z :=
  let '(used, start, end_) := c in
  let low := u64 (offset - blocksize) in
  if (start =? NO_TLS_OFFSET) || (offset =? start) then (used, low, if end_ =? NO_TLS_OFFSET then offset else end_)
  else if low =? end_ then (used, start, offset)
  else if end_ =? used then (start, low, offset)
  else if offset =? used then (low, start, end_)
  else if end_ <? offset then (used, low, offset)
  else c.

(** Entries of the object are freed; the symbol and the map stay in them. *)
Definition forget_unique (m : mapid) (t : unique_sym_table) : unique_sym_table :=
  match ut_entries t with
  | None => t
  | Some es =>
      let mine e := bool_decide (us_name e <> None /\ us_map e = Some m) in
      mkUtab (Some ((fun e => if mine e then mkUnique 0 None (us_sym e) (us_map e) else e) <$> es)) (ut_size t)
        (u64 (ut_n_elements t - Z.of_nat (length (filter (fun e => mine e = true) es))))
  end.

(** The object is unmapped, taken out of the list of objects and freed; [force] is set when a [dlopen] failed. *)
Definition unlink (nsid : nat) (force : bool) (m : mapid) : M cstate unit :=
  ns ← get_nsd nsid;
  let uniq := if force then forget_unique m (nd_unique ns) else nd_unique ns in
  modify (add_log (Unmap m));;
  lift (c_assert (negb (bool_decide (head (nd_loaded ns) = Some m)) || negb (nsid =? 0)%nat) "nsid != LM_ID_BASE");;
  put_nsd nsid (mkNsd (filter (fun m' => m' <> m) (nd_loaded ns)) (nd_nloaded ns - 1) (nd_msl ns) uniq);;
  modify (fun s => set_initfirst (if bool_decide (cs_initfirst s = Some m) then None else cs_initfirst s) s);;
  modify (fun s => set_ctls (set_mods (delete m (ts_mods (cs_tls s))) (cs_tls s)) s);;
  modify (fun s => set_cmaps (delete m (cs_maps s)) s).

(** One object that is not used; [c] is [tls_free_start], [tls_free_end] and [any_tls]. *)
Definition unload (nsid : nat) (force : bool) (m : mapid) (c : Z * Z * bool) : M cstate (Z * Z * bool) :=
  imap ← c_get m;
  lift (c_assert (bool_decide (c_type imap = lt_loaded)) "imap->l_type == lt_loaded");;
  t ← gets (fun s => ts_mods (cs_tls s) !! m);
  c ← match t with
      | None => mret c
      | Some x =>
          if 0 <? tm_blocksize x then
            on_tls (close_tls m (c_init_called imap));;
            if is_static (tm_offset x) then
              used ← gets cs_static_used;
              let '(start, end_, _) := c in
              let '(used, start, end_) := reclaim (tm_offset x) (tm_blocksize x) (used, start, end_) in
              modify (set_static_used used);; mret (start, end_, true)
            else mret (c.1, true)
          else mret c
      end;
  unlink nsid force m;;
  mret c.

Fixpoint unload_loop (nsid : nat) (force : bool) (maps : list mapid) (c : Z * Z * bool) : M cstate (Z * Z * bool) :=
  match maps with
  | [] => mret c
  | m :: maps =>
      imap ← c_get m;
      c ← (if c_used imap then mret c else unload nsid force m c);
      unload_loop nsid force maps c
  end.

(** [do --GL(dl_nns); while (GL(dl_ns)[GL(dl_nns) - 1]._ns_loaded == NULL);] *)
Fixpoint drop_namespaces (fuel : nat) : M cstate unit :=
  match fuel with
  | O => lift Diverge
  | S fuel =>
      modify (fun s => set_nns (cs_nns s - 1) s);;
      n ← gets cs_nns;
      ns ← (if n <? 1 then lift Undef else get_nsd (Z.to_nat (n - 1)));
      match nd_loaded ns with [] => drop_namespaces fuel | _ => mret tt end
  end.

(** ** One round *)

Definition collect (nsid : nat) (map : option mapid) : M cstate (list mapid) :=
  ns ← get_nsd nsid;
  (if nd_nloaded ns <? Z.of_nat (length (nd_loaded ns)) then lift Undef else mret tt);;
  number (nd_loaded ns) 0;;
  lift (c_assert (Z.of_nat (length (nd_loaded ns)) =? nd_nloaded ns) "idx == nloaded");;
  maps ← match map with None => mret (nd_loaded ns) | Some map => put_first map (nd_loaded ns) end;
  mark_loop (mark_fuel (length maps)) maps (nd_nloaded ns) (-1);;
  ms ← gets cs_maps;
  lift (_dl_sort_maps algo (cgraph ms) visited maps (bool_decide (is_Some map)) true).

(** What follows when there are objects to unload. *)
Definition discard (nsid : nat) (force : bool) (maps : list mapid) (f : found) : M cstate unit :=
  when (0 <? f_global f) (prune_global nsid (f_global f));;
  '(start, end_, any_tls) ← unload_loop nsid force (drop (Z.to_nat (f_first f)) maps) (NO_TLS_OFFSET, NO_TLS_OFFSET, false);
  (if (any_tls : bool) then
     on_tls (bump_generation "TLS generation counter wrapped!  Please report as described in ");;
     modify (fun s => if end_ =? cs_static_used s then set_static_used start s else s)
   else mret tt);;
  ns ← get_nsd nsid;
  n ← gets cs_nns;
  if bool_decide (nd_loaded ns = []) && (Z.of_nat nsid =? n - 1) then drop_namespaces (Z.to_nat n) else mret tt.

Definition round (nsid : nat) (force : bool) (map : option mapid) : M cstate unit :=
  modify (set_pending pending);;
  maps ← collect nsid map;
  f ← finish_loop nsid maps 0 (mkFound false 0 (2 ^ 32 - 1));
  if f_any f then discard nsid force maps f else mret tt.

(** The label [retry]. *)
Fixpoint rounds (fuel : nat) (nsid : nat) (force : bool) (map : option mapid) : M cstate unit :=
  match fuel with
  | O => lift Diverge
  | S fuel =>
      round nsid force map;;
      st ← gets cs_pending;
      if bool_decide (st = rerun) then rounds fuel nsid force None
      else modify (set_pending not_pending)
  end.

(** Every further round needs a [dlclose] that gave back a last use. *)
Definition uses (ms : gmap mapid cmap) : nat := map_fold (fun _ l n => Z.to_nat (c_open l) + n)%nat 0%nat ms.

Definition _dl_close_worker (map : mapid) (force : bool) : M cstate unit :=
  go ← enter map;
  if (go : bool) then
    l ← c_get map;
    n ← gets (fun s => uses (cs_maps s));
    rounds (S n) (ci_ns (c_id l)) force (Some map)
  else mret tt.

Definition _dl_close (map : mapid) : M cstate unit :=
  l ← c_get map;
  if ci_nodelete (c_id l) then mret tt
  else if c_open l =? 0 then lift (Signal (ci_name (c_id l)) "shared object not open")
  else _dl_close_worker map false.

End Worker.
