(* ===== verification/CloseMark.v ===== *)
(** * Closing objects: which ones are used

    The marking loop of [_dl_close_worker] ends and marks exactly the objects that are needed: those that are
    held directly and what they depend on. *)

From S2P Require Import Prelude LinkMap SortMaps TlsOffset DynTls Close.

(** ** Specification *)

(** An object that is kept for its own sake. *)
Definition is_root (l : cmap) : bool :=
  negb (bool_decide (c_type l = lt_loaded) && (c_open l =? 0) && negb (ci_nodelete (c_id l)) && (ci_dtors (c_id l) =? 0)).

Definition dep (ms : gmap mapid cmap) (u v : mapid) : Prop :=
  exists l ds, ms !! u = Some l /\ deps_of l = Ok ds /\ v ∈ ds.

Inductive needed (ms : gmap mapid cmap) (loaded : list mapid) : mapid -> Prop :=
| needed_root m l : m ∈ loaded -> ms !! m = Some l -> is_root l = true -> needed ms loaded m
| needed_dep u v : needed ms loaded u -> dep ms u v -> needed ms loaded v.

(** The dependencies of the objects in a list are well formed and in the list. *)
Definition deps_closed (ms : gmap mapid cmap) (loaded : list mapid) : Prop :=
  forall m, m ∈ loaded -> exists l ds, ms !! m = Some l /\ deps_of l = Ok ds /\ forall d, d ∈ ds -> d ∈ loaded.

Lemma needed_loaded ms loaded m : deps_closed ms loaded -> needed ms loaded m -> m ∈ loaded.
Proof.
  intros Hc. induction 1 as [|u v Hu IH (l & ds & Hl & Hds & Hv)]; [done|].
  destruct (Hc u IH) as (l' & ds' & Hl' & Hds' & Hin). rewrite Hl in Hl'. injection Hl' as <-. rewrite Hds in Hds'. injection Hds' as <-. auto.
Qed.

(** Two states of the objects that differ in the marks only. *)
Definition same_marks (l l' : cmap) : Prop := l' = with_mark (c_mark l') l.
Definition remarked (ms ms' : gmap mapid cmap) : Prop :=
  forall m, match ms !! m, ms' !! m with Some l, Some l' => same_marks l l' | None, None => True | _, _ => False end.

Lemma same_marks_refl l : same_marks l l.
Proof. by destruct l. Qed.
Lemma same_marks_trans l1 l2 l3 : same_marks l1 l2 -> same_marks l2 l3 -> same_marks l1 l3.
Proof. unfold same_marks. intros -> ->. done. Qed.
Lemma same_marks_set l k : same_marks l (with_mark k l).
Proof. done. Qed.
Lemma remarked_refl ms : remarked ms ms.
Proof. intros m. destruct (ms !! m); [apply same_marks_refl|done]. Qed.
Lemma remarked_trans ms1 ms2 ms3 : remarked ms1 ms2 -> remarked ms2 ms3 -> remarked ms1 ms3.
Proof.
  intros H1 H2 m. specialize (H1 m). specialize (H2 m). destruct (ms1 !! m), (ms2 !! m), (ms3 !! m); try done.
  by eapply same_marks_trans.
Qed.
Lemma remarked_alter ms m k : remarked ms (alter (with_mark k) m ms).
Proof.
  intros m'. destruct (decide (m' = m)) as [->|]; [rewrite lookup_alter_eq|rewrite lookup_alter_ne by done]; destruct (ms !! _); try done.
  apply same_marks_refl.
Qed.
Lemma remarked_lookup ms ms' m l : remarked ms ms' -> ms !! m = Some l -> exists l', ms' !! m = Some l' /\ same_marks l l'.
Proof. intros H Hl. specialize (H m). rewrite Hl in H. destruct (ms' !! m); [eauto|done]. Qed.
Lemma remarked_lookup' ms ms' m l' : remarked ms ms' -> ms' !! m = Some l' -> exists l, ms !! m = Some l /\ same_marks l l'.
Proof. intros H Hl. specialize (H m). rewrite Hl in H. destruct (ms !! m); [eauto|done]. Qed.
Lemma same_marks_deps l l' : same_marks l l' -> deps_of l' = deps_of l /\ is_root l' = is_root l.
Proof. by intros ->. Qed.

Lemma needed_remarked ms ms' loaded m : remarked ms ms' -> needed ms loaded m -> needed ms' loaded m.
Proof.
  intros Hr. induction 1 as [m l Hm Hl Hroot|u v Hu IH (l & ds & Hl & Hds & Hv)].
  - destruct (remarked_lookup _ _ _ _ Hr Hl) as (l' & Hl' & [_ E]%same_marks_deps). apply (needed_root _ _ m l'); [done|done|congruence].
  - destruct (remarked_lookup _ _ _ _ Hr Hl) as (l' & Hl' & [E _]%same_marks_deps). apply (needed_dep _ _ u v IH). exists l', ds. split; [done|]. split; [congruence|done].
Qed.

(** ** Running the primitives *)
Lemma c_get_run m s l : cs_maps s !! m = Some l -> c_get m s = Ret l s.
Proof. unfold c_get. by intros ->. Qed.

Lemma set_cmaps_id s : set_cmaps (cs_maps s) s = s.
Proof. by destruct s. Qed.
Lemma set_cmaps_set ms ms' s : set_cmaps ms (set_cmaps ms' s) = set_cmaps ms s.
Proof. done. Qed.

Lemma unused_split l : unused l = negb (is_root l) && negb (c_used l).
Proof. unfold unused, is_root. by rewrite negb_involutive. Qed.

(** ** The invariant of the loop *)
Section Mark.
Context (ms0 : gmap mapid cmap) (maps : list mapid).
Context (Hnd : NoDup maps) (Hcl : deps_closed ms0 maps).

(** [m] at position [p]; the dependencies of [cur] in [todo] are still to be marked. *)
Record entry_inv (ms : gmap mapid cmap) (di : Z) (cur : option mapid) (todo : list mapid) (p : nat) (m : mapid) (l : cmap) : Prop := {
  ei_done : c_done l = true -> c_idx l = IDX_STILL_USED /\ c_used l = true /\
    forall d, dep ms m d -> (exists ld, ms !! d = Some ld /\ c_used ld = true) \/ cur = Some m /\ d ∈ todo;
  ei_idx : c_done l = false -> c_idx l = Z.of_nat p;
  ei_used : c_used l = true -> needed ms0 maps m;
  ei_passed : Z.of_nat p <= di -> c_done l = true \/ unused l = true }.

Record mark_inv (ms : gmap mapid cmap) (di : Z) (cur : option mapid) (todo : list mapid) : Prop := {
  mi_same : remarked ms0 ms;
  mi_range : -1 <= di;
  mi_todo : forall d, d ∈ todo -> d ∈ maps /\ exists u, cur = Some u /\ needed ms0 maps u /\ dep ms0 u d;
  mi_entry : forall p m l, maps !! p = Some m -> ms !! m = Some l -> entry_inv ms di cur todo p m l }.

Definition is_done (ms : gmap mapid cmap) (m : mapid) : bool := match ms !! m with Some l => c_done l | None => false end.
Definition undone (ms : gmap mapid cmap) : nat :=
  length (filter (fun m => is_done ms m = false) maps).

Lemma dep_remarked ms ms' u v : remarked ms ms' -> dep ms u v -> dep ms' u v.
Proof.
  intros Hr (l & ds & Hl & Hds & Hv). destruct (remarked_lookup _ _ _ _ Hr Hl) as (l' & Hl' & [E _]%same_marks_deps).
  exists l', ds. split; [done|]. split; [congruence|done].
Qed.

Lemma remarked_sym ms ms' : remarked ms ms' -> remarked ms' ms.
Proof.
  intros H m. specialize (H m). destruct (ms !! m), (ms' !! m); try done. unfold same_marks in *. rewrite H. by destruct c.
Qed.

Lemma maps_lookup ms m : remarked ms0 ms -> m ∈ maps -> exists p l, maps !! p = Some m /\ ms !! m = Some l.
Proof.
  intros Hr Hm. destruct (Hcl m Hm) as (l & ds & Hl & _). destruct (remarked_lookup _ _ _ _ Hr Hl) as (l' & Hl' & _).
  apply list_elem_of_lookup in Hm as [p Hp]. eauto.
Qed.

Lemma mark_dep_spec s di cur d todo : mark_inv (cs_maps s) di cur (d :: todo) ->
  exists ms' di', mark_dep (Z.of_nat (length maps)) di d s = Ret di' (set_cmaps ms' s) /\
    mark_inv ms' di' cur todo /\ di' <= di /\ undone ms' = undone (cs_maps s).
Proof.
  intros [Hs Hr Ht He]. destruct (Ht d ltac:(by left)) as (Hd & u & Hcur & Hnu & Hud).
  destruct (maps_lookup _ d Hs Hd) as (p & l & Hp & Hl). pose proof (He p d l Hp Hl) as E.
  unfold mark_dep. rewrite (M_bind_step _ _ _ _ _ (c_get_run _ _ _ Hl)).
  assert (Hkeep : c_used l = true -> mark_inv (cs_maps s) di cur todo).
  { intros Hu. split; [done|done| |].
    - intros d' Hd'. apply Ht. by right.
    - intros q m lm Hq Hm. destruct (He q m lm Hq Hm) as [D I U P]. split; try done. intros Hdn. destruct (D Hdn) as (D1 & D2 & D3).
      split; [done|]. split; [done|]. intros d' Hd'. destruct (D3 d' Hd') as [?|[? [->|?]%elem_of_cons]]; [by left|left; eauto|by right]. }
  destruct (Z.eqb_spec (c_idx l) IDX_STILL_USED) as [Ei|Hi].
  { exists (cs_maps s), di. rewrite set_cmaps_id. split; [done|]. split; [|done]. apply Hkeep.
    destruct (c_done l) eqn:Ed; [by apply (ei_done _ _ _ _ _ _ _ E)|]. pose proof (ei_idx _ _ _ _ _ _ _ E Ed) as E1. unfold IDX_STILL_USED in Ei. lia. }
  assert (Ed : c_done l = false). { destruct (c_done l) eqn:Ed; [|done]. by destruct (ei_done _ _ _ _ _ _ _ E Ed). }
  pose proof (ei_idx _ _ _ _ _ _ _ E Ed) as Eidx. pose proof (lookup_lt_Some _ _ _ Hp) as Hlt. rewrite Eidx.
  rewrite (proj2 (Z.leb_le 0 (Z.of_nat p))), (proj2 (Z.ltb_lt (Z.of_nat p) (Z.of_nat (length maps)))) by lia. cbn [andb]. rewrite (M_bind_step _ _ _ tt s) by done.
  destruct (c_used l) eqn:Eu; [exists (cs_maps s), di; rewrite set_cmaps_id; split; [done|]; by split; [apply Hkeep|]|].
  set (k := mkMark true (c_done l) (Z.of_nat p)). set (ms' := alter (with_mark k) d (cs_maps s)).
  exists ms', (if Z.of_nat p - 1 <? di then Z.of_nat p - 1 else di). split; [done|].
  assert (Hdi : forall q, Z.of_nat q <= (if Z.of_nat p - 1 <? di then Z.of_nat p - 1 else di) -> Z.of_nat q <= di /\ q <> p).
  { intros q. destruct (Z.ltb_spec (Z.of_nat p - 1) di); lia. }
  assert (Hlk : forall m lm, ms' !! m = Some lm -> m = d /\ lm = with_mark k l \/ m <> d /\ cs_maps s !! m = Some lm).
  { intros m lm. unfold ms'. destruct (decide (m = d)) as [->|]; [rewrite lookup_alter_eq, Hl; intros [= <-]; by left|].
    rewrite lookup_alter_ne by done. auto. }
  assert (Hus : forall m lm, cs_maps s !! m = Some lm -> c_used lm = true -> exists lm', ms' !! m = Some lm' /\ c_used lm' = true).
  { intros m lm Hm Hu. destruct (decide (m = d)) as [->|]; [congruence|]. exists lm. unfold ms'. by rewrite lookup_alter_ne. }
  assert (Hrm : remarked (cs_maps s) ms') by apply remarked_alter.
  split; [|split; [destruct (Z.ltb_spec (Z.of_nat p - 1) di); lia|]].
  - split; [by eapply remarked_trans|destruct (Z.ltb_spec (Z.of_nat p - 1) di); lia|intros d' Hd'; apply Ht; by right|].
    intros q m lm Hq [[-> ->]|[Hne Hm]]%Hlk.
    + assert (q = p) as -> by (by eapply NoDup_lookup). split; [unfold k; cbn; congruence|done| |intros Hle; destruct (Hdi p Hle); lia].
      intros _. by eapply needed_dep.
    + destruct (He q m lm Hq Hm) as [D I U P]. split; [|done|done|intros Hle; apply P; by apply Hdi].
      intros Hdn. destruct (D Hdn) as (D1 & D2 & D3). split; [done|]. split; [done|]. intros d' Hd'.
      apply (dep_remarked _ _ _ _ (remarked_sym _ _ Hrm)) in Hd'.
      destruct (D3 d' Hd') as [(ld & Hld & Hu)|[Hc [->|?]%elem_of_cons]]; [left; eauto| |by right].
      left. exists (with_mark k l). split; [|done]. unfold ms'. by rewrite lookup_alter_eq, Hl.
  - unfold undone. f_equal. apply list_filter_iff. intros m. unfold is_done, ms'.
    destruct (decide (m = d)) as [->|]; [rewrite lookup_alter_eq, Hl; cbn; by rewrite Ed|by rewrite lookup_alter_ne].
Qed.

Lemma mark_deps_spec ds : forall s di cur, mark_inv (cs_maps s) di cur ds ->
  exists ms' di', mark_deps (Z.of_nat (length maps)) di ds s = Ret di' (set_cmaps ms' s) /\
    mark_inv ms' di' cur [] /\ di' <= di /\ undone ms' = undone (cs_maps s).
Proof.
  induction ds as [|d ds IH]; intros s di cur I; cbn [mark_deps].
  - exists (cs_maps s), di. by rewrite set_cmaps_id.
  - destruct (mark_dep_spec s di cur d ds I) as (ms1 & di1 & E1 & I1 & L1 & U1). rewrite (M_bind_step _ _ _ _ _ E1).
    destruct (IH (set_cmaps ms1 s) di1 cur I1) as (ms2 & di2 & E2 & I2 & L2 & U2). exists ms2, di2. rewrite E2. split; [done|].
    split; [done|]. split; [lia|]. cbn [set_cmaps cs_maps] in U2. congruence.
Qed.

Lemma mark_inv_settled ms di cur : mark_inv ms di cur [] -> mark_inv ms di None [].
Proof.
  intros [S R T E]. split; [done|done|set_solver|]. intros p m l Hp Hl. destruct (E p m l Hp Hl) as [D I U P]. split; try done.
  intros Hd. destruct (D Hd) as (D1 & D2 & D3). split; [done|]. split; [done|]. intros d Hdp. destruct (D3 d Hdp) as [?|[_ ?]]; [by left|set_solver].
Qed.

(** The loop goes on over an object that is done or not used (so far). *)
Lemma mark_inv_pass ms di p m l : mark_inv ms di None [] -> Z.of_nat p = di + 1 -> maps !! p = Some m -> ms !! m = Some l ->
  c_done l = true \/ unused l = true -> mark_inv ms (di + 1) None [].
Proof.
  intros [S R T E] Hp Hm Hl Hc. split; [done|lia|done|]. intros q m' l' Hq Hl'. destruct (E q m' l' Hq Hl') as [D I U P]. split; try done.
  intros Hle. destruct (decide (q = p)) as [->|]; [|apply P; lia]. assert (m' = m) as -> by congruence. assert (l' = l) as -> by congruence. done.
Qed.

(** An object that is used is handled. *)
Lemma mark_inv_take ms di p m l ds : mark_inv ms di None [] -> Z.of_nat p = di + 1 -> maps !! p = Some m -> ms !! m = Some l ->
  c_done l = false -> unused l = false -> deps_of l = Ok ds ->
  mark_inv (alter (with_mark (mkMark true true IDX_STILL_USED)) m ms) (di + 1) (Some m) ds.
Proof.
  intros [S R T E] Hp Hm Hl Hd Hu Hds. set (k := mkMark true true IDX_STILL_USED).
  destruct (remarked_lookup' _ _ _ _ S Hl) as (l0 & Hl0 & [Ed Er]%same_marks_deps).
  assert (Hmm : m ∈ maps) by (by eapply list_elem_of_lookup_2).
  assert (Hneed : needed ms0 maps m).
  { rewrite unused_split in Hu. destruct (c_used l) eqn:Eu; [by apply (ei_used _ _ _ _ _ _ _ (E p m l Hm Hl))|].
    apply (needed_root _ _ m l0); [done|done|]. rewrite <- Er. destruct (is_root l); [done|]. done. }
  pose proof (remarked_alter ms m k) as Hrm.
  split; [by eapply remarked_trans|lia| |].
  - intros d Hdd. destruct (Hcl m Hmm) as (l1 & ds1 & Hl1 & Hds1 & Hin). assert (l1 = l0) as -> by congruence.
    assert (ds1 = ds) as -> by congruence. split; [by apply Hin|]. exists m. split; [done|]. split; [done|]. exists l0, ds. done.
  - intros q m' l' Hq Hl'. destruct (decide (m' = m)) as [->|Hne].
    + rewrite lookup_alter_eq, Hl in Hl'. injection Hl' as <-. split; try done; [|by left].
      intros _. split; [done|]. split; [done|]. intros d Hdp. right. split; [done|].
      apply (dep_remarked _ _ _ _ (remarked_sym _ _ Hrm)) in Hdp as (l1 & ds1 & Hl1 & Hds1 & Hin). congruence.
    + rewrite lookup_alter_ne in Hl' by done. destruct (E q m' l' Hq Hl') as [D I U P]. split; try done.
      * intros Hdn. destruct (D Hdn) as (D1 & D2 & D3). split; [done|]. split; [done|]. intros d Hdp.
        apply (dep_remarked _ _ _ _ (remarked_sym _ _ Hrm)) in Hdp. destruct (D3 d Hdp) as [(ld & Hld & Huse)|[? _]]; [left|done].
        destruct (decide (d = m)) as [->|]; [exists (with_mark k l); split; [by rewrite lookup_alter_eq, Hl|done]|].
        exists ld. by rewrite lookup_alter_ne.
      * intros Hle. apply P. destruct (decide (q = p)) as [->|]; [congruence|lia].
Qed.

Lemma undone_take ms m l : m ∈ maps -> ms !! m = Some l -> c_done l = false ->
  undone ms = S (undone (alter (with_mark (mkMark true true IDX_STILL_USED)) m ms)).
Proof.
  intros Hm Hl Hd. unfold undone. apply list_elem_of_split in Hm as (l1 & l2 & E). rewrite E in Hnd |- *.
  apply NoDup_app in Hnd as (_ & Hni & [Hn2 _]%NoDup_cons).
  assert (Hsame : forall ll : list mapid, m ∉ ll -> filter (fun m' => is_done (alter (with_mark (mkMark true true IDX_STILL_USED)) m ms) m' = false) ll =
    filter (fun m' => is_done ms m' = false) ll).
  { intros ll Hll. apply filter_ext_in. intros m' Hm'. unfold is_done. rewrite lookup_alter_ne; [done|]. intros <-. done. }
  rewrite !filter_app, !filter_cons, !Hsame; [|done|intros Hin; apply (Hni m Hin); by left].
  rewrite decide_True by (unfold is_done; by rewrite Hl). rewrite decide_False by (unfold is_done; by rewrite lookup_alter_eq, Hl).
  rewrite !length_app. cbn [length]. lia.
Qed.

Lemma rd_lookup {A} (l : list A) i p a : Z.of_nat p = i -> l !! p = Some a -> rd l i = Ok a.
Proof. intros <- H. unfold rd. rewrite (proj2 (Z.ltb_ge _ _)) by lia. by rewrite Nat2Z.id, H. Qed.

Lemma mark_loop_spec fuel : forall s di, mark_inv (cs_maps s) di None [] -> di < Z.of_nat (length maps) ->
  (undone (cs_maps s) * (length maps + 2) + Z.to_nat (Z.of_nat (length maps) - di) < fuel)%nat ->
  exists ms', mark_loop fuel maps (Z.of_nat (length maps)) di s = Ret tt (set_cmaps ms' s) /\ mark_inv ms' (Z.of_nat (length maps)) None [].
Proof.
  induction fuel as [|fuel IH]; intros s di I Hdi Hf; [lia|]. cbn [mark_loop]. pose proof (mi_range _ _ _ _ I) as Hr.
  destruct (Z.ltb_spec (di + 1) (Z.of_nat (length maps))) as [Hlt|Hge].
  2:{ exists (cs_maps s). rewrite set_cmaps_id. split; [done|]. destruct I as [S _ T E]. split; [done|lia|done|].
      intros p m l Hp Hl. destruct (E p m l Hp Hl) as [D I U P]. split; try done. intros _. apply P. apply lookup_lt_Some in Hp. lia. }
  destruct (lookup_lt_is_Some_2 maps (Z.to_nat (di + 1)) ltac:(lia)) as [m Hm].
  assert (Hpd : Z.of_nat (Z.to_nat (di + 1)) = di + 1) by lia.
  destruct (maps_lookup _ m (mi_same _ _ _ _ I) ltac:(by eapply list_elem_of_lookup_2)) as (_ & l & _ & Hl).
  rewrite (M_bind_step _ _ _ m s) by (by rewrite (rd_lookup _ _ _ _ Hpd Hm)).
  rewrite (M_bind_step _ _ _ _ _ (c_get_run _ _ _ Hl)).
  destruct (c_done l) eqn:Ed; [apply IH; [by eapply mark_inv_pass; eauto|lia|lia]|].
  destruct (unused l) eqn:Eu; [apply IH; [by eapply mark_inv_pass; eauto|lia|lia]|].
  rewrite (M_bind_step _ _ _ tt (set_cmaps (alter (with_mark (mkMark true true IDX_STILL_USED)) m (cs_maps s)) s)) by done.
  assert (Hmm : m ∈ maps) by (by eapply list_elem_of_lookup_2).
  destruct (Hcl m Hmm) as (l0 & ds & Hl0 & Hds & _).
  destruct (remarked_lookup _ _ _ _ (mi_same _ _ _ _ I) Hl0) as (l' & Hl' & [Ed' _]%same_marks_deps).
  assert (l' = l) as -> by congruence. rewrite Hds in Ed'. rewrite Ed'. rewrite (M_bind_step _ _ _ ds _) by done.
  pose proof (mark_inv_take _ _ _ _ _ _ I Hpd Hm Hl Ed Eu Ed') as I1.
  destruct (mark_deps_spec ds (set_cmaps _ s) (di + 1) (Some m) I1) as (ms2 & di2 & E2 & I2 & L2 & U2). rewrite (M_bind_step _ _ _ _ _ E2).
  pose proof (undone_take _ _ _ Hmm Hl Ed) as Un. cbn [set_cmaps cs_maps] in U2. pose proof (mi_range _ _ _ _ I2).
  destruct (IH (set_cmaps ms2 s) di2) as (ms3 & E3 & I3).
  { by eapply mark_inv_settled. }
  { lia. }
  { cbn [set_cmaps cs_maps]. rewrite U2. nia. }
  exists ms3. split; [exact E3|done].
Qed.

(** At the end exactly the needed objects are marked. *)
Lemma mark_inv_final ms m l : mark_inv ms (Z.of_nat (length maps)) None [] -> m ∈ maps -> ms !! m = Some l ->
  (c_used l = true <-> needed ms0 maps m) /\ c_done l = c_used l /\ (c_idx l = IDX_STILL_USED <-> c_used l = true).
Proof.
  intros [S R T E] Hm Hl.
  assert (Hfin : forall m l, m ∈ maps -> ms !! m = Some l -> c_done l = true \/ unused l = true).
  { intros m' l' Hm' Hl'. apply list_elem_of_lookup in Hm' as [p Hp]. apply (ei_passed _ _ _ _ _ _ _ (E p m' l' Hp Hl')).
    apply lookup_lt_Some in Hp. lia. }
  assert (Hall : forall m, needed ms0 maps m -> exists l, ms !! m = Some l /\ c_done l = true).
  { induction 1 as [m' l' Hm' Hl' Hroot|u v Hu IH Hd].
    - destruct (remarked_lookup _ _ _ _ S Hl') as (l2 & Hl2 & [_ Er]%same_marks_deps). exists l2. split; [done|].
      destruct (Hfin m' l2 Hm' Hl2) as [?|Hu]; [done|]. rewrite unused_split, Er, Hroot in Hu. done.
    - destruct IH as (lu & Hlu & Hdu). pose proof (needed_loaded _ _ _ Hcl Hu) as Hum. apply list_elem_of_lookup in Hum as [p Hp].
      destruct (ei_done _ _ _ _ _ _ _ (E p u lu Hp Hlu) Hdu) as (_ & _ & D3).
      destruct (D3 v) as [(lv & Hlv & Huv)|[? _]]; [by eapply dep_remarked| |done]. exists lv. split; [done|].
      assert (Hvm : v ∈ maps) by (apply (needed_loaded _ _ _ Hcl); by eapply needed_dep).
      destruct (Hfin v lv Hvm Hlv) as [?|Hun]; [done|]. rewrite unused_split, Huv, andb_comm in Hun. done. }
  apply list_elem_of_lookup in Hm as [p Hp]. destruct (E p m l Hp Hl) as [D I U P].
  assert (Hdu : c_done l = c_used l).
  { destruct (c_done l) eqn:Ed; [destruct D as (_ & -> & _); done|]. destruct (c_used l) eqn:Eu; [|done].
    destruct (Hall m (U eq_refl)) as (l' & Hl' & Hd'). congruence. }
  split; [|split; [done|]].
  - split; [done|]. intros Hn. destruct (Hall m Hn) as (l' & Hl' & Hd'). congruence.
  - rewrite <- Hdu. destruct (c_done l) eqn:Ed; [destruct D as (-> & _); done|]. rewrite (I eq_refl). unfold IDX_STILL_USED. split; [lia|done].
Qed.
End Mark.
