(* ===== verification/CloseRound.v ===== *)
(** * Closing objects: one round

    What [collect] and the loop over the sorted objects do to a namespace that is in order. *)

From S2P Require Import Prelude LinkMap SortMaps TlsOffset DynTls Close CloseMark.

(** ** Numbering *)
Lemma alter_lookup_Some (ms : gmap mapid cmap) f m m' l : alter f m ms !! m' = Some l <->
  exists l0, ms !! m' = Some l0 /\ l = (if decide (m' = m) then f l0 else l0).
Proof.
  destruct (decide (m' = m)) as [->|]; [rewrite lookup_alter_eq|rewrite lookup_alter_ne by done].
  - destruct (ms !! m); cbn; split; [intros [= <-]; eauto|intros (? & [= <-] & ->); done|done|by intros (? & ? & _)].
  - split; [eauto|by intros (? & ? & ->)].
Qed.

Lemma number_spec ms : forall i s, NoDup ms -> (forall m, m ∈ ms -> is_Some (cs_maps s !! m)) ->
  exists ms', number ms i s = Ret tt (set_cmaps ms' s) /\ remarked (cs_maps s) ms' /\
    (forall p m, ms !! p = Some m -> exists l, ms' !! m = Some l /\ c_mark l = mkMark false false (i + Z.of_nat p)) /\
    (forall m, m ∉ ms -> ms' !! m = cs_maps s !! m).
Proof.
  induction ms as [|m ms IH]; intros i s Hnd Hin; cbn [number].
  - exists (cs_maps s). rewrite set_cmaps_id. split; [done|]. split; [apply remarked_refl|]. done.
  - apply NoDup_cons in Hnd as [Hm Hnd]. destruct (Hin m ltac:(by left)) as [l Hl]. rewrite (M_bind_step _ _ _ _ _ (c_get_run _ _ _ Hl)).
    set (ms1 := alter (with_mark (mkMark false false i)) m (cs_maps s)). rewrite (M_bind_step _ _ _ tt (set_cmaps ms1 s)) by done.
    destruct (IH (i + 1) (set_cmaps ms1 s) Hnd) as (ms2 & E & R & P & O).
    { intros m' Hm'. cbn. unfold ms1. destruct (decide (m' = m)) as [->|]; [done|]. rewrite lookup_alter_ne by done. apply Hin. by right. }
    exists ms2. rewrite E. split; [done|]. cbn [set_cmaps cs_maps] in *. split; [eapply remarked_trans; [apply remarked_alter|done]|]. split.
    + intros [|p] m'; cbn [lookup list_lookup].
      * intros [= <-]. rewrite O by done. exists (with_mark (mkMark false false i) l). unfold ms1. rewrite lookup_alter_eq, Hl. split; [done|]. cbn. f_equal. lia.
      * intros Hp. destruct (P p m' Hp) as (l' & ? & E'). exists l'. split; [done|]. rewrite E'. f_equal. lia.
    + intros m' Hm'. rewrite O by (by intros ?; apply Hm'; right). unfold ms1. rewrite lookup_alter_ne; [done|]. intros ->. apply Hm'. by left.
Qed.

(** The objects are numbered by their place in [maps]. *)
Definition numbered (ms : gmap mapid cmap) (maps : list mapid) : Prop :=
  forall p m, maps !! p = Some m -> exists l, ms !! m = Some l /\ c_mark l = mkMark false false (Z.of_nat p).

Definition exchange (maps : list mapid) (p : nat) (first map : mapid) : list mapid := <[0%nat := map]> (<[p := first]> maps).
Lemma exchange_perm maps p first map : maps !! 0%nat = Some first -> maps !! p = Some map -> exchange maps p first map ≡ₚ maps.
Proof.
  unfold exchange. destruct maps as [|x maps]; [done|]. cbn [lookup list_lookup]. intros [= ->]. destruct p as [|p]; cbn [lookup list_lookup].
  - by intros [= ->].
  - intros Hp. change (map :: <[p := first]> maps ≡ₚ first :: maps). apply list_elem_of_split_length in Hp as (l1 & l2 & -> & ->).
    rewrite insert_app_r_alt, Nat.sub_diag by lia. cbn [insert list_insert]. rewrite <- !Permutation_middle. constructor.
Qed.

Definition renumber (i : Z) (x : cmap) : cmap := with_mark (mkMark (c_used x) (c_done x) i) x.

Lemma remarked_renumber ms m i : remarked ms (alter (renumber i) m ms).
Proof.
  intros m'. destruct (decide (m' = m)) as [->|]; [rewrite lookup_alter_eq|rewrite lookup_alter_ne by done]; destruct (ms !! _); try done.
  apply same_marks_refl.
Qed.

Lemma wr_lookup {A} (l : list A) i p x : Z.of_nat p = i -> (p < length l)%nat -> wr l i x = Ok (<[p := x]> l).
Proof. intros <- H. unfold wr. rewrite (proj2 (Z.leb_le _ _)), (proj2 (Z.ltb_lt _ _)) by lia. cbn. by rewrite Nat2Z.id. Qed.

Lemma put_first_spec map maps s : NoDup maps -> map ∈ maps -> numbered (cs_maps s) maps ->
  exists maps' ms', put_first map maps s = Ret maps' (set_cmaps ms' s) /\ maps' ≡ₚ maps /\ head maps' = Some map /\
    remarked (cs_maps s) ms' /\ numbered ms' maps'.
Proof.
  intros Hnd Hin Hn. apply list_elem_of_lookup in Hin as [p Hp]. destruct (Hn p map Hp) as (l & Hl & Hk).
  pose proof (lookup_lt_Some _ _ _ Hp) as Hlt. destruct (lookup_lt_is_Some_2 maps 0%nat ltac:(lia)) as [first Hf].
  unfold put_first. rewrite (M_bind_step _ _ _ _ _ (c_get_run _ _ _ Hl)).
  rewrite (M_bind_step _ _ _ first s) by (by rewrite (rd_lookup maps 0 0%nat first)). unfold c_idx. rewrite Hk. cbn [mk_idx].
  rewrite (M_bind_step _ _ _ (<[p := first]> maps) s) by (by rewrite (wr_lookup maps _ p)).
  set (ms1 := alter (renumber (Z.of_nat p)) first (cs_maps s)). rewrite (M_bind_step _ _ _ tt (set_cmaps ms1 s)) by done.
  rewrite (M_bind_step _ _ _ (exchange maps p first map) (set_cmaps ms1 s)) by (rewrite (wr_lookup _ 0 0%nat); [done|done|rewrite length_insert; lia]).
  set (ms2 := alter (renumber 0) map ms1). rewrite (M_bind_step _ _ _ tt (set_cmaps ms2 s)) by done.
  pose proof (exchange_perm maps p first map Hf Hp) as Hperm. exists (exchange maps p first map), ms2.
  split; [done|]. split; [done|]. assert (Hh : exchange maps p first map !! 0%nat = Some map) by (unfold exchange; apply list_lookup_insert_eq; rewrite length_insert; lia).
  split; [by destruct (exchange maps p first map)|]. split; [eapply remarked_trans; apply remarked_renumber|].
  assert (Hnd' : NoDup (exchange maps p first map)) by (by rewrite Hperm).
  intros q m Hq. assert (Hmm : m ∈ maps) by (rewrite <- Hperm; by eapply list_elem_of_lookup_2).
  apply list_elem_of_lookup in Hmm as [q0 Hq0]. destruct (Hn q0 m Hq0) as (lm & Hlm & Hkm). unfold ms2, ms1.
  destruct (decide (m = map)) as [->|Hnm].
  - assert (q = 0%nat) as -> by (by eapply NoDup_lookup). eexists. rewrite lookup_alter_eq. destruct (decide (map = first)) as [->|].
    + rewrite lookup_alter_eq, Hlm. split; [done|]. cbn. unfold c_used, c_done. by rewrite Hkm.
    + rewrite lookup_alter_ne, Hlm by done. split; [done|]. cbn. unfold c_used, c_done. by rewrite Hkm.
  - rewrite lookup_alter_ne by done. assert (Hq0' : q <> 0%nat) by (intros ->; congruence).
    destruct (decide (m = first)) as [->|Hnf].
    + assert (q = p) as ->.
      { eapply (NoDup_lookup _ _ _ _ Hnd' Hq). unfold exchange. rewrite list_lookup_insert_ne; [by apply list_lookup_insert_eq|]. intros <-. congruence. }
      rewrite lookup_alter_eq, Hlm. eexists. split; [done|]. cbn. unfold c_used, c_done. by rewrite Hkm.
    + rewrite lookup_alter_ne by done. exists lm. split; [done|]. rewrite Hkm. f_equal. f_equal.
      eapply (NoDup_lookup _ _ _ _ Hnd Hq0). unfold exchange in Hq. rewrite list_lookup_insert_ne in Hq by done.
      rewrite list_lookup_insert_ne in Hq; [done|]. intros <-. rewrite list_lookup_insert_eq in Hq by done. congruence.
Qed.

(** ** A namespace in order *)

(** Fields of the objects that never change while closing. *)
Record obj_ok (nsid : nat) (m : mapid) (l : cmap) : Prop := {
  ok_ns : ci_ns (c_id l) = nsid;
  ok_faked : ci_faked (c_id l) = false;
  ok_first : match ci_initfini (c_id l) with Some (h :: _) => h = m | Some [] => False | None => True end }.

Record graph_ok (nsid : nat) (ms : gmap mapid cmap) (loaded : list mapid) : Prop := {
  go_nodup : NoDup loaded;
  go_obj : forall m, m ∈ loaded -> exists l, ms !! m = Some l /\ obj_ok nsid m l;
  go_deps : deps_closed ms loaded }.

Lemma obj_ok_remarked nsid m l l' : same_marks l l' -> obj_ok nsid m l -> obj_ok nsid m l'.
Proof. intros -> [A B C]. by split. Qed.
Lemma graph_ok_remarked nsid ms ms' loaded : remarked ms ms' -> graph_ok nsid ms loaded -> graph_ok nsid ms' loaded.
Proof.
  intros Hr [N O D]. split; [done| |].
  - intros m Hm. destruct (O m Hm) as (l & Hl & Ho). destruct (remarked_lookup _ _ _ _ Hr Hl) as (l' & Hl' & Hs). exists l'. split; [done|]. by eapply obj_ok_remarked.
  - intros m Hm. destruct (D m Hm) as (l & ds & Hl & Hds & Hin). destruct (remarked_lookup _ _ _ _ Hr Hl) as (l' & Hl' & [E _]%same_marks_deps).
    exists l', ds. split; [done|]. split; [congruence|done].
Qed.
Lemma graph_ok_perm nsid ms loaded loaded' : loaded' ≡ₚ loaded -> graph_ok nsid ms loaded -> graph_ok nsid ms loaded'.
Proof.
  intros Hp [N O D]. split; [by rewrite Hp| |].
  - intros m. rewrite Hp. apply O.
  - intros m. rewrite Hp. intros Hm. destruct (D m Hm) as (l & ds & ? & ? & Hin). exists l, ds. split; [done|]. split; [done|]. intros d Hd. rewrite Hp. auto.
Qed.
Lemma needed_perm ms loaded loaded' m : loaded' ≡ₚ loaded -> needed ms loaded m -> needed ms loaded' m.
Proof. intros Hp. induction 1 as [m l Hm Hl Hr|u v Hu IH Hd]; [eapply needed_root; [by rewrite Hp|done|done]|by eapply needed_dep]. Qed.

(** The sort sees the same dependencies. *)
Lemma cgraph_edge nsid ms loaded u v : graph_ok nsid ms loaded -> u ∈ loaded -> edge (cgraph ms) true u v -> dep ms u v.
Proof.
  intros [N O D] Hu [Hd (_ & _ & Hne)]. destruct (O u Hu) as (l & Hl & [_ _ Hf]). destruct (D u Hu) as (l' & ds & Hl' & Hds & _).
  rewrite Hl in Hl'. injection Hl' as <-. exists l, ds. split; [done|]. split; [done|]. cbn in Hd. rewrite Hl in Hd. cbn in Hd.
  unfold deps_of in Hds. destruct (ci_initfini (c_id l)) as [[|h rest]|]; [done|..]; injection Hds as <-; rewrite ?elem_of_app; cbn [default] in Hd.
  - subst h. unfold id in Hd. rewrite elem_of_cons in Hd. naive_solver.
  - set_solver.
Qed.
Lemma cgraph_closed nsid ms loaded maps : graph_ok nsid ms loaded -> maps ≡ₚ loaded -> closed (cgraph ms) (list_to_set maps) true.
Proof.
  intros G Hp u v. rewrite !elem_of_list_to_set, Hp. intros Hu He. apply (cgraph_edge _ _ _ _ _ G Hu) in He as (l & ds & Hl & Hds & Hv).
  destruct (go_deps _ _ _ G u Hu) as (l' & ds' & Hl' & Hds' & Hin). apply Hin. congruence.
Qed.

(** ** [collect] *)

(** The marks after the search: the needed objects are used, and their number says so. *)
Definition marked (ms0 : gmap mapid cmap) (loaded : list mapid) (ms : gmap mapid cmap) : Prop :=
  forall m l, m ∈ loaded -> ms !! m = Some l ->
    (c_used l = true <-> needed ms0 loaded m) /\ (c_idx l = IDX_STILL_USED <-> c_used l = true).

Section Collect.
Context (algo : dso_sort_algorithm) (visited : gset mapid).

Lemma mark_start ms0 ms maps nsid : graph_ok nsid ms0 maps -> remarked ms0 ms -> numbered ms maps -> mark_inv ms0 maps ms (-1) None [].
Proof.
  intros G Hr Hn. split; [done|lia|set_solver|]. intros p m l Hp Hl. destruct (Hn p m Hp) as (l' & Hl' & E).
  assert (l' = l) as -> by congruence. split; unfold c_done, c_used, c_idx; rewrite E; try done. lia.
Qed.

Lemma marking ms0 maps s nsid : graph_ok nsid ms0 maps -> remarked ms0 (cs_maps s) -> numbered (cs_maps s) maps ->
  exists ms', mark_loop (mark_fuel (length maps)) maps (Z.of_nat (length maps)) (-1) s = Ret tt (set_cmaps ms' s) /\
    remarked ms0 ms' /\ marked ms0 maps ms'.
Proof.
  intros G Hr Hn. destruct (mark_loop_spec ms0 maps (go_nodup _ _ _ G) (go_deps _ _ _ G) (mark_fuel (length maps)) s (-1)) as (ms' & E & I).
  - by eapply mark_start.
  - lia.
  - assert (Hu : (undone maps (cs_maps s) <= length maps)%nat) by apply length_filter. unfold mark_fuel. nia.
  - exists ms'. split; [done|]. split; [apply (mi_same _ _ _ _ _ _ I)|]. intros m l Hm Hl.
    destruct (mark_inv_final ms0 maps (go_deps _ _ _ G) ms' m l I Hm Hl) as (H1 & _ & H3). done.
Qed.

Lemma collect_spec nsid ns map s : cs_ns s !! nsid = Some ns -> graph_ok nsid (cs_maps s) (nd_loaded ns) ->
  nd_nloaded ns = Z.of_nat (length (nd_loaded ns)) -> nd_loaded ns <> [] -> Z.of_nat (length (nd_loaded ns)) < 2 ^ 15 ->
  (forall m, map = Some m -> m ∈ nd_loaded ns) ->
  exists maps ms', collect algo visited nsid map s = Ret maps (set_cmaps ms' s) /\ maps ≡ₚ nd_loaded ns /\
    remarked (cs_maps s) ms' /\ marked (cs_maps s) (nd_loaded ns) ms' /\ (forall m, map = Some m -> head maps = Some m) /\
    (algo = dso_sort_algorithm_dfs -> forall rank, ranked (cgraph ms') (list_to_set (nd_loaded ns)) rank false ->
      (forall m u, map = Some m -> u ∈ nd_loaded ns -> ~ edge (cgraph ms') false u m) -> topo (cgraph ms') false maps).
Proof.
  intros Hns G Hnl Hne Hlen Hmap. unfold collect. rewrite (M_bind_step _ _ _ ns s) by (unfold get_nsd; by rewrite Hns).
  rewrite Hnl, Z.ltb_irrefl. rewrite (M_bind_step _ _ _ tt s) by done.
  destruct (number_spec (nd_loaded ns) 0 s (go_nodup _ _ _ G)) as (ms1 & E1 & R1 & N1 & _).
  { intros m Hm. destruct (go_obj _ _ _ G m Hm) as (l & Hl & _). eauto. }
  rewrite (M_bind_step _ _ _ _ _ E1), Z.eqb_refl. rewrite (M_bind_step _ _ _ tt (set_cmaps ms1 s)) by done.
  assert (Hfirst : exists maps ms2, (match map with None => mret (nd_loaded ns) | Some map => put_first map (nd_loaded ns) end) (set_cmaps ms1 s) = Ret maps (set_cmaps ms2 s) /\
    maps ≡ₚ nd_loaded ns /\ (forall m, map = Some m -> head maps = Some m) /\ remarked (cs_maps s) ms2 /\ numbered ms2 maps).
  { destruct map as [map|].
    - destruct (put_first_spec map (nd_loaded ns) (set_cmaps ms1 s) (go_nodup _ _ _ G) (Hmap map eq_refl)) as (maps & ms2 & E & P & H & R & N).
      { intros p m Hp. destruct (N1 p m Hp) as (l & Hl & Hk). eauto. }
      exists maps, ms2. rewrite E. split; [done|]. split; [done|]. split; [congruence|]. split; [by eapply remarked_trans|done].
    - exists (nd_loaded ns), ms1. split; [done|]. split; [done|]. split; [done|]. split; [done|]. intros p m Hp. destruct (N1 p m Hp) as (l & Hl & Hk). eauto. }
  destruct Hfirst as (maps & ms2 & E2 & P2 & H2 & R2 & N2). rewrite (M_bind_step _ _ _ _ _ E2).
  destruct (marking (cs_maps s) maps (set_cmaps ms2 s) nsid (graph_ok_perm _ _ _ _ P2 G) R2 N2) as (ms3 & E3 & R3 & K3).
  replace (length (nd_loaded ns)) with (length maps) by (by rewrite P2). rewrite (M_bind_step _ _ _ _ _ E3).
  rewrite (M_bind_step _ _ _ ms3 (set_cmaps ms3 s)) by done.
  pose proof (graph_ok_remarked _ _ _ _ R3 G) as G3.
  destruct (sort_maps_spec algo (cgraph ms3) visited maps (bool_decide (is_Some map)) true) as (sorted & E4 & P4 & H4 & T4).
  { intros ->. apply Permutation_nil in P2. done. }
  { rewrite P2. apply G. }
  { intros m. rewrite P2. intros Hm. destruct (go_obj _ _ _ G3 m Hm) as (l & Hl & Ho). cbn. rewrite Hl. apply Ho. }
  { by eapply cgraph_closed. }
  { by rewrite P2. }
  exists sorted, ms3. rewrite E4. split; [done|]. split; [by rewrite P4|]. split; [done|]. split; [|split].
  - intros m l Hm Hl. rewrite <- P2 in Hm. destruct (K3 m l Hm Hl) as [K1 K2]. split; [|done]. rewrite K1. split; apply needed_perm; [done|by symmetry].
  - intros m ->. rewrite H4 by done. by apply H2.
  - intros Ha rank Hrk Hno. apply (T4 Ha rank).
    + intros u v Hu. apply Hrk. rewrite elem_of_list_to_set in *. by rewrite <- P2.
    + intros Hb u f Hu Hf. rewrite P2 in Hu. apply bool_decide_eq_true in Hb as [m ->]. rewrite (H2 m eq_refl) in Hf. injection Hf as <-. by apply (Hno m).
Qed.
End Collect.
