(* ===== verification/CloseFinish.v ===== *)
(** * Closing objects: destructors and scopes

    The loop over the sorted objects: destructors of the objects that go run in this order, the ones that stay
    forget those that go. *)

From S2P Require Import Prelude LinkMap SortMaps TlsOffset DynTls Close CloseMark CloseRound.

(** ** Outcomes: the loops return, or there is no memory for a scope array *)
Definition scope_error (ok : mapid -> bool) (o e : string) (s : cstate) : Prop :=
  o = "dlclose"%string /\ e = "cannot create scope list"%string /\ cs_pending s <> not_pending /\ exists m, ok m = false.
Definition cwp {A} (ok : mapid -> bool) (m : M cstate A) (Q : A -> cstate -> Prop) (s : cstate) : Prop :=
  match m s with Ret a s' => Q a s' | Raise o e s' => scope_error ok o e s' | _ => False end.

Lemma cwp_bind {ok} {A B} (m : M cstate A) (k : A -> M cstate B) Q s : cwp ok m (fun a s' => cwp ok (k a) Q s') s -> cwp ok (m ≫= k) Q s.
Proof. unfold cwp, mbind, M_bind. by destruct (m s). Qed.
Lemma cwp_mono {ok} {A} (m : M cstate A) (Q R : A -> cstate -> Prop) s : cwp ok m Q s -> (forall a s', Q a s' -> R a s') -> cwp ok m R s.
Proof. unfold cwp. destruct (m s); auto. Qed.
Lemma cwp_ret {ok} {A} (m : M cstate A) (Q : A -> cstate -> Prop) s a s' : m s = Ret a s' -> Q a s' -> cwp ok m Q s.
Proof. unfold cwp. by intros ->. Qed.
Lemma cwp_step {ok} {A B} (m : M cstate A) (k : A -> M cstate B) Q s a s' : m s = Ret a s' -> cwp ok (k a) Q s' -> cwp ok (m ≫= k) Q s.
Proof. intros E H. apply cwp_bind. by eapply cwp_ret. Qed.
Lemma cwp_get {ok} {B} m (k : cmap -> M cstate B) Q s l : cs_maps s !! m = Some l -> cwp ok (k l) Q s -> cwp ok (c_get m ≫= k) Q s.
Proof. intros Hl. apply cwp_step. by apply c_get_run. Qed.
Lemma cwp_assert {ok} {B} (b : bool) w (k : unit -> M cstate B) Q s : b = true -> cwp ok (k tt) Q s -> cwp ok (lift (c_assert b w) ≫= k) Q s.
Proof. intros ->. by apply cwp_step. Qed.

(** ** Counting uses *)
Lemma uses_delete (ms : gmap mapid cmap) m l : ms !! m = Some l -> uses ms = (Z.to_nat (c_open l) + uses (delete m ms))%nat.
Proof.
  intros Hl. unfold uses. rewrite (map_fold_delete_L _ 0%nat m l ms); [done| |done]. intros. lia.
Qed.
Lemma uses_alter (ms : gmap mapid cmap) m l f : ms !! m = Some l ->
  (uses (alter f m ms) + Z.to_nat (c_open l) = uses ms + Z.to_nat (c_open (f l)))%nat.
Proof.
  intros Hl. rewrite (uses_delete ms m l Hl), (uses_delete (alter f m ms) m (f l)) by (by rewrite lookup_alter_eq, Hl).
  assert (delete m (alter f m ms) = delete m ms) as ->.
  { apply map_eq. intros k. destruct (decide (k = m)) as [->|]; [by rewrite !lookup_delete_eq|].
    rewrite !lookup_delete_ne by done. by rewrite lookup_alter_ne. }
  lia.
Qed.
Lemma uses_alter_same (ms : gmap mapid cmap) m f : (forall l, c_open (f l) = c_open l) -> uses (alter f m ms) = uses ms.
Proof.
  intros Hf. destruct (ms !! m) as [l|] eqn:Hl; [pose proof (uses_alter ms m l f Hl) as H; rewrite Hf in H; lia|].
  f_equal. apply map_eq. intros k. destruct (decide (k = m)) as [->|]; [by rewrite lookup_alter_eq, Hl|by rewrite lookup_alter_ne].
Qed.

(** ** [dlclose] from destructors *)
Definition times (d : mapid) (l : list mapid) : Z := Z.of_nat (length (filter (fun x => x = d) l)).

Lemma times_cons d x l : times d (x :: l) = (if decide (x = d) then 1 else 0) + times d l.
Proof. unfold times. rewrite filter_cons. destruct (decide (x = d)); [cbn [length]; lia|lia]. Qed.
Lemma times_nonneg d l : 0 <= times d l.
Proof. unfold times. lia. Qed.

Definition opened (l l' : cmap) : Prop := l' = with_open (c_open l') l /\ 0 <= c_open l' <= c_open l.

Record closing (ms : list mapid) (s s' : cstate) : Prop := {
  cl_maps : forall m l, cs_maps s !! m = Some l -> exists l', cs_maps s' !! m = Some l' /\ opened l l' /\ c_open l <= c_open l' + times m ms /\
    (cs_pending s' = pending -> is_root l' = is_root l);
  cl_dom : forall m l', cs_maps s' !! m = Some l' -> is_Some (cs_maps s !! m);
  cl_rest : s' = set_pending (cs_pending s') (set_cmaps (cs_maps s') s);
  cl_pending : cs_pending s' = cs_pending s \/ cs_pending s' = rerun;
  cl_uses : (uses (cs_maps s') <= uses (cs_maps s))%nat;
  cl_rerun : cs_pending s' = rerun -> cs_pending s = rerun \/ (uses (cs_maps s') < uses (cs_maps s))%nat;
  cl_live : cs_pending s' = rerun -> cs_pending s = rerun \/ exists m l, m ∈ ms /\ cs_maps s !! m = Some l /\ 0 < c_open l }.

Definition opens_ok (s : cstate) : Prop := forall m l, cs_maps s !! m = Some l -> 0 <= c_open l < 2 ^ 32.

Lemma opened_refl l : 0 <= c_open l -> opened l l.
Proof. intros H. split; [by destruct l|lia]. Qed.
Lemma closing_refl ms s : opens_ok s -> closing ms s s.
Proof.
  intros Ho. split; [|intros m l' H; by eexists|by destruct s|by left|lia|by left|by left].
  intros m l Hl. exists l. split; [done|]. split; [apply opened_refl; by apply (Ho m)|]. split; [pose proof (times_nonneg m ms); lia|done].
Qed.
Lemma closing_trans x ms s1 s2 s3 : closing [x] s1 s2 -> closing ms s2 s3 -> cs_pending s1 <> not_pending -> closing (x :: ms) s1 s3.
Proof.
  intros [M1 D1 R1 P1 U1 N1 L1] [M2 D2 R2 P2 U2 N2 L2] Hp. split.
  - intros m l Hl. destruct (M1 m l Hl) as (l2 & Hl2 & [E2 O2] & C2 & K2). destruct (M2 m l2 Hl2) as (l3 & Hl3 & [E3 O3] & C3 & K3).
    exists l3. split; [done|]. split; [split; [rewrite E3, E2; done|lia]|]. split.
    + rewrite times_cons in C2 |- *. change (times m []) with 0 in C2. lia.
    + intros Hs3. rewrite K3 by done. apply K2. destruct P2 as [<-|?]; congruence.
  - intros m l' H. destruct (D2 m l' H) as [l2 H2]. eauto.
  - rewrite R2. cbn [set_pending set_cmaps cs_pending cs_maps]. by rewrite R1.
  - destruct P2 as [->|?]; [done|by right].
  - lia.
  - intros H3. destruct (N2 H3) as [H2|?]; [|right; lia]. destruct (N1 H2) as [?|?]; [by left|right; lia].
  - intros H3. destruct (L2 H3) as [H2|(m & l & Hm & Hl & Hpos)].
    + destruct (L1 H2) as [?|(m & l & Hm & ?)]; [by left|right]. exists m, l. split; [|done]. apply list_elem_of_singleton in Hm as ->. by left.
    + right. destruct (D1 m l Hl) as [l1 Hl1]. destruct (M1 m l1 Hl1) as (l2 & Hl2 & [_ O2] & _). assert (l2 = l) as -> by congruence.
      exists m, l1. split; [by right|]. split; [done|lia].
Qed.

Lemma nested_close_spec m s l : cs_maps s !! m = Some l -> cs_pending s <> not_pending -> opens_ok s ->
  exists s', nested_close m s = Ret tt s' /\ closing [m] s s'.
Proof.
  intros Hl Hp Ho. unfold nested_close. rewrite (M_bind_step _ _ _ _ _ (c_get_run _ _ _ Hl)). pose proof (Ho m l Hl) as Hr.
  destruct (ci_nodelete (c_id l)) eqn:En; [exists s; split; [done|by apply closing_refl]|].
  destruct (Z.eqb_spec (c_open l) 0) as [|Hne]; [exists s; split; [done|by apply closing_refl]|].
  set (ms1 := alter (fun l => with_open (u32 (c_open l - 1)) l) m (cs_maps s)).
  assert (Hl1 : ms1 !! m = Some (with_open (c_open l - 1) l)).
  { unfold ms1. rewrite lookup_alter_eq, Hl. cbn. by rewrite u32_small by lia. }
  set (st := if (c_open l - 1 =? 0) && bool_decide (c_type l = lt_loaded) then rerun else cs_pending s).
  assert (E : enter m s = Ret false (set_pending st (set_cmaps ms1 s))).
  { unfold enter. rewrite (M_bind_step _ _ _ tt (set_cmaps ms1 s)) by done. rewrite (M_bind_step _ _ _ _ _ (c_get_run _ (set_cmaps ms1 s) _ Hl1)).
    rewrite (M_bind_step _ _ _ (cs_pending s) (set_cmaps ms1 s)) by done. rewrite (bool_decide_eq_true_2 (cs_pending s <> not_pending)) by done.
    rewrite orb_true_r. unfold st. change (c_type (with_open (c_open l - 1) l)) with (c_type l). cbn [with_open c_open].
    destruct ((c_open l - 1 =? 0) && bool_decide (c_type l = lt_loaded)); [done|]. cbn. by destruct s. }
  exists (set_pending st (set_cmaps ms1 s)). rewrite (M_bind_step _ _ _ _ _ E). split; [done|].
  pose proof (uses_alter (cs_maps s) m l (fun l => with_open (u32 (c_open l - 1)) l) Hl) as Hu. cbn [with_open c_open] in Hu. rewrite u32_small in Hu by lia.
  fold ms1 in Hu. split; cbn [set_pending set_cmaps cs_maps cs_pending]; [| |done|unfold st; destruct (_ && _); auto|lia|intros _; right; lia|intros _; right; exists m, l; split; [by left|split; [done|lia]]].
  - intros m' l' Hl'. destruct (decide (m' = m)) as [->|Hn].
    + assert (l' = l) as -> by congruence. exists (with_open (c_open l - 1) l). split; [done|]. split; [split; [done|cbn; lia]|].
      split; [rewrite times_cons, decide_True by done; cbn; pose proof (times_nonneg m []); lia|].
      intros Hst. unfold is_root. change (c_type (with_open (c_open l - 1) l)) with (c_type l). cbn [with_open c_open c_id].
      unfold st in Hst. destruct (bool_decide (c_type l = lt_loaded)) eqn:Et; [|done]. rewrite andb_true_r in Hst. cbn [andb].
      destruct (Z.eqb_spec (c_open l - 1) 0); [done|]. by rewrite (proj2 (Z.eqb_neq (c_open l) 0) Hne).
    + exists l'. unfold ms1. rewrite lookup_alter_ne by done. split; [done|]. split; [apply opened_refl; by apply (Ho m')|]. split; [pose proof (times_nonneg m' [m]); lia|done].
  - intros m' l' Hl'. apply alter_lookup_Some in Hl' as (l0 & H0 & _). eauto.
Qed.

Lemma closing_opens ms s s' : closing ms s s' -> opens_ok s -> opens_ok s'.
Proof.
  intros C Ho m l' Hl'. destruct (cl_dom _ _ _ C m l' Hl') as [l Hl]. destruct (cl_maps _ _ _ C m l Hl) as (l2 & Hl2 & [_ ?] & _).
  assert (l2 = l') as -> by congruence. pose proof (Ho m l Hl). lia.
Qed.

Lemma nested_closes_spec ms : forall s, cs_pending s <> not_pending -> opens_ok s -> (forall m, m ∈ ms -> is_Some (cs_maps s !! m)) ->
  exists s', nested_closes ms s = Ret tt s' /\ closing ms s s'.
Proof.
  induction ms as [|m ms IH]; intros s Hp Ho Hin; cbn [nested_closes]; [exists s; split; [done|by apply closing_refl]|].
  destruct (Hin m ltac:(by left)) as [l Hl]. destruct (nested_close_spec m s l Hl Hp Ho) as (s1 & E1 & C1). rewrite (M_bind_step _ _ _ _ _ E1).
  destruct (IH s1) as (s2 & E2 & C2).
  - destruct (cl_pending _ _ _ C1) as [->| ->]; done.
  - by eapply closing_opens.
  - intros m' Hm'. destruct (Hin m' ltac:(by right)) as [l' Hl']. destruct (cl_maps _ _ _ C1 m' l' Hl') as (l2 & ? & _). eauto.
  - exists s2. split; [done|]. by eapply closing_trans.
Qed.

(** ** Scopes *)
Definition still (ms : gmap mapid cmap) (e : scope_elem) : bool :=
  match e with
  | SymbolicOwn => true
  | SearchOf t => match ms !! t with Some l => c_idx l =? IDX_STILL_USED | None => false end
  end.
Definition known (nsid : nat) (ms : gmap mapid cmap) (e : scope_elem) : Prop :=
  match e with SymbolicOwn => True | SearchOf t => exists l, ms !! t = Some l /\ ci_ns (c_id l) = nsid end.

Lemma count_scopes_spec nsid scope : forall r b s, Forall (known nsid (cs_maps s)) scope ->
  exists b', count_scopes nsid scope r b s = Ret (r + Z.of_nat (length (filter (fun e => still (cs_maps s) e = true) scope)), b') s /\
    (b' = true -> b = true \/ (length (filter (fun e => still (cs_maps s) e = true) scope) < length scope)%nat) /\
    (b' = false -> b = false /\ Forall (fun e => still (cs_maps s) e = true) scope).
Proof.
  induction scope as [|e scope IH]; intros r b s Hk; cbn [count_scopes].
  - exists b. cbn. rewrite Z.add_0_r. auto.
  - apply Forall_cons in Hk as [He Hk]. pose proof (length_filter (fun e => still (cs_maps s) e = true) scope) as Hlen.
    assert (Hkeep : still (cs_maps s) e = true -> exists b', count_scopes nsid scope (r + 1) b s =
      Ret (r + Z.of_nat (length (filter (fun e => still (cs_maps s) e = true) (e :: scope))), b') s /\
      (b' = true -> b = true \/ (length (filter (fun e => still (cs_maps s) e = true) (e :: scope)) < length (e :: scope))%nat) /\
      (b' = false -> b = false /\ Forall (fun e => still (cs_maps s) e = true) (e :: scope))).
    { intros Hs. rewrite filter_cons, decide_True by done. destruct (IH (r + 1) b s Hk) as (b' & E & H1 & H2). exists b'.
      rewrite E. cbn [length]. split; [do 2 f_equal; lia|]. split; [intros Hb; destruct (H1 Hb); [by left|right; lia]|].
      intros Hb. destruct (H2 Hb). by rewrite Forall_cons. }
    destruct e as [|t]; [by apply Hkeep|]. destruct He as (l & Hl & Hns).
    rewrite (M_bind_step _ _ _ _ _ (c_get_run _ _ _ Hl)), bool_decide_eq_true_2 by done. rewrite (M_bind_step _ _ _ tt s) by done.
    cbn [still] in Hkeep. rewrite Hl in Hkeep. destruct (c_idx l =? IDX_STILL_USED) eqn:Ei; [by apply Hkeep|].
    assert (Hs : still (cs_maps s) (SearchOf t) = false) by (cbn; by rewrite Hl).
    rewrite filter_cons, decide_False by congruence. destruct (IH r true s Hk) as (b' & E & H1 & H2). exists b'. rewrite E.
    split; [done|]. split; [intros _; right; cbn [length]; lia|]. intros Hb. by destruct (H2 Hb).
Qed.

Lemma copy_scopes_spec nsid scope : forall nl s, Forall (known nsid (cs_maps s)) scope ->
  exists es, copy_scopes scope nl s = Ret es s /\ (forall e, e ∈ es -> e ∈ scope /\ still (cs_maps s) e = true \/ nl = Some e) /\
    (length es <= length scope)%nat /\ (length es <= length (filter (fun e => still (cs_maps s) e = true) scope) + (match nl with Some _ => 1 | None => 0 end))%nat.
Proof.
  induction scope as [|e scope IH]; intros nl s Hk; cbn [copy_scopes].
  - exists []. split; [done|]. split; [set_solver|]. cbn. lia.
  - apply Forall_cons in Hk as [He Hk].
    assert (Hkeep : still (cs_maps s) e = true -> exists es, (r ← copy_scopes scope nl; mret (e :: r)) s = Ret es s /\
      (forall e', e' ∈ es -> e' ∈ e :: scope /\ still (cs_maps s) e' = true \/ nl = Some e') /\
      (length es <= length (e :: scope))%nat /\ (length es <= length (filter (fun e => still (cs_maps s) e = true) (e :: scope)) + (match nl with Some _ => 1 | None => 0 end))%nat).
    { intros Hs. destruct (IH nl s Hk) as (es & E & H1 & H2 & H3). exists (e :: es). rewrite (M_bind_step _ _ _ _ _ E). split; [done|].
      split; [|rewrite filter_cons, decide_True by done; cbn [length]; lia].
      intros e' [->|He']%elem_of_cons; [left; split; [by left|done]|]. destruct (H1 e' He') as [[? ?]|?]; [left; split; [by right|done]|by right]. }
    destruct e as [|t]; [by apply Hkeep|]. destruct He as (l & Hl & Hns). rewrite (M_bind_step _ _ _ _ _ (c_get_run _ _ _ Hl)).
    cbn [still] in Hkeep. rewrite Hl in Hkeep. destruct (c_idx l =? IDX_STILL_USED) eqn:Ei; [by apply Hkeep|].
    assert (Hs : still (cs_maps s) (SearchOf t) = false) by (cbn; by rewrite Hl).
    rewrite filter_cons, decide_False by congruence. destruct (IH None s Hk) as (es & E & H1 & H2 & H3). destruct nl as [e|].
    + exists (e :: es). rewrite (M_bind_step _ _ _ _ _ E). split; [done|]. cbn [length]. split; [|lia].
      intros e' [->|He']%elem_of_cons; [by right|]. destruct (H1 e' He') as [[? ?]|?]; [left; split; [by right|done]|done].
    + exists es. split; [done|]. split; [|cbn [length]; lia].
      intros e' He'. destruct (H1 e' He') as [[? ?]|?]; [left; split; [by right|done]|done].
Qed.

(** A scope that names only objects that stay. *)
Record scope_clean (ms : gmap mapid cmap) (m : mapid) (sc sc' : cscope) : Prop := {
  sn_list : forall e, e ∈ sc_list sc' -> e ∈ sc_list sc /\ still ms e = true \/ e = SearchOf m;
  sn_loader : forall t, sc_loader sc' = Some t -> sc_loader sc = Some t /\ still ms (SearchOf t) = true;
  sn_max : Z.of_nat (length (sc_list sc')) < sc_max sc' }.

(** What the loader must have set up for an object. *)
Record scope_ok (nsid : nat) (ms : gmap mapid cmap) (m : mapid) (l : cmap) : Prop := {
  so_known : Forall (known nsid ms) (sc_list (c_scope l));
  so_size : Z.of_nat (length (sc_list (c_scope l))) < sc_max (c_scope l);
  so_loader : forall t, sc_loader (c_scope l) = Some t -> known nsid ms (SearchOf t);
  so_copy : forall i, ci_initfini (c_id l) = Some i -> (length i <= length (ci_copy (c_id l)))%nat }.

Lemma alter_alter (f g : cmap -> cmap) m (ms : gmap mapid cmap) : alter f m (alter g m ms) = alter (fun l => f (g l)) m ms.
Proof.
  apply map_eq. intros k. destruct (decide (k = m)) as [->|].
  - rewrite !lookup_alter_eq. by destruct (ms !! m).
  - by rewrite !lookup_alter_ne.
Qed.
Lemma alter_id_at (f : cmap -> cmap) m l (ms : gmap mapid cmap) : ms !! m = Some l -> f l = l -> alter f m ms = ms.
Proof.
  intros Hl Hf. apply map_eq. intros k. destruct (decide (k = m)) as [->|].
  - rewrite lookup_alter_eq, Hl. cbn. by rewrite Hf.
  - by rewrite lookup_alter_ne.
Qed.
Lemma alter_const (f : cmap -> cmap) m l (ms : gmap mapid cmap) : ms !! m = Some l -> alter f m ms = alter (fun _ => f l) m ms.
Proof.
  intros Hl. apply map_eq. intros k. destruct (decide (k = m)) as [->|].
  - rewrite !lookup_alter_eq, Hl. done.
  - by rewrite !lookup_alter_ne.
Qed.

(** Changing the scope of an object does not change who is still used. *)
Lemma still_scope ms m l sc e : ms !! m = Some l -> still (alter (fun _ => with_scope sc l) m ms) e = still ms e.
Proof.
  intros Hl. destruct e as [|t]; [done|]. cbn. destruct (decide (t = m)) as [->|]; [rewrite lookup_alter_eq, Hl; done|by rewrite lookup_alter_ne].
Qed.
Lemma known_scope nsid ms m l sc e : ms !! m = Some l -> known nsid ms e -> known nsid (alter (fun _ => with_scope sc l) m ms) e.
Proof.
  intros Hl. destruct e as [|t]; [done|]. cbn. intros (lt & Ht & Hn). destruct (decide (t = m)) as [->|].
  - rewrite lookup_alter_eq, Hl. exists (with_scope sc l). split; [done|]. assert (lt = l) as -> by congruence. done.
  - rewrite lookup_alter_ne by done. eauto.
Qed.

Section FixScope.
Context (scope_malloc_ok : mapid -> bool) (nsid : nat) (m : mapid) (s : cstate) (l : cmap).
Context (Hl : cs_maps s !! m = Some l).
Let upd (sc : cscope) : cstate := set_cmaps (alter (fun _ => with_scope sc l) m (cs_maps s)) s.

Lemma upd_self : upd (c_scope l) = s.
Proof using Hl. unfold upd. rewrite (alter_id_at _ m l) by (done || by destruct l). apply set_cmaps_id. Qed.
Lemma upd_get sc : cs_maps (upd sc) !! m = Some (with_scope sc l).
Proof using Hl. unfold upd. cbn. by rewrite lookup_alter_eq, Hl. Qed.
Lemma upd_set sc sc' f : f (with_scope sc l) = with_scope sc' l -> c_set m f (upd sc) = Ret tt (upd sc').
Proof using Hl.
  intros E. unfold c_set, modify, upd. cbn [set_cmaps cs_maps]. rewrite alter_alter, E. done.
Qed.
Lemma upd_known sc e : known nsid (cs_maps s) e -> known nsid (cs_maps (upd sc)) e.
Proof using Hl. by apply known_scope. Qed.
Lemma upd_still sc e : still (cs_maps (upd sc)) e = still (cs_maps s) e.
Proof using Hl. by apply still_scope. Qed.

(** The last part of [fix_scope]. *)
Lemma fix_loader_spec sc Q : (forall t, sc_loader sc = Some t -> known nsid (cs_maps s) (SearchOf t)) ->
  (forall sc', sc_list sc' = sc_list sc -> sc_max sc' = sc_max sc ->
    (forall t, sc_loader sc' = Some t -> sc_loader sc = Some t /\ still (cs_maps s) (SearchOf t) = true) -> Q tt (upd sc')) ->
  cwp scope_malloc_ok (match sc_loader sc with
       | None => mret tt
       | Some t => tmap ← c_get t; if c_idx tmap =? IDX_STILL_USED then mret tt else c_set m without_loader
       end) Q (upd sc).
Proof using Hl.
  intros Hk HQ. destruct (sc_loader sc) as [t|] eqn:Et.
  2:{ apply (cwp_ret _ _ _ tt (upd sc)); [done|]. apply HQ; [done|done|]. intros t. congruence. }
  destruct (upd_known sc _ (Hk t eq_refl)) as (lt & Ht & _). apply (cwp_get _ _ _ _ lt Ht).
  assert (Es : still (cs_maps s) (SearchOf t) = (c_idx lt =? IDX_STILL_USED)) by (rewrite <- (upd_still sc); unfold still; by rewrite Ht).
  destruct (c_idx lt =? IDX_STILL_USED).
  - apply (cwp_ret _ _ _ tt (upd sc)); [done|]. apply HQ; [done|done|]. intros t' Ht'. split; [congruence|]. congruence.
  - set (sc' := mkScope (sc_searchlist sc) (sc_list sc) (sc_in_mem sc) (sc_max sc) None).
    apply (cwp_ret _ _ _ tt (upd sc')); [by apply upd_set|]. by apply HQ.
Qed.

Lemma fix_scope_spec Q : scope_ok nsid (cs_maps s) m l -> cs_pending s <> not_pending ->
  (forall sc', scope_clean (cs_maps s) m (c_scope l) sc' -> Q tt (upd sc')) -> cwp scope_malloc_ok (fix_scope scope_malloc_ok nsid m) Q s.
Proof using Hl.
  intros [K Z0 L C] Hp HQ. unfold fix_scope. apply (cwp_get _ _ _ _ l Hl). set (sc := c_scope l) in *.
  set (new := match sc_searchlist sc, ci_initfini (c_id l) with None, Some i => Some (take (length i) (ci_copy (c_id l))) | _, _ => None end).
  apply (cwp_step _ _ _ _ new s).
  { unfold new. destruct (sc_searchlist sc); [done|]. destruct (ci_initfini (c_id l)) as [i|] eqn:Ei; [|done].
    by rewrite (proj2 (Nat.ltb_ge _ _)) by (by apply C). }
  set (sc1 := if bool_decide (is_Some new) then mkScope new (sc_list sc) (sc_in_mem sc) (sc_max sc) (sc_loader sc) else sc).
  apply (cwp_step _ _ _ _ tt (upd sc1)).
  { unfold sc1. destruct (bool_decide (is_Some new)); cbn [when]; [rewrite <- upd_self at 1; by apply upd_set|]. unfold sc. by rewrite upd_self. }
  assert (K1 : Forall (known nsid (cs_maps (upd sc1))) (sc_list sc)) by (eapply Forall_impl; [exact K|]; intros; by apply upd_known).
  destruct (count_scopes_spec nsid (sc_list sc) ((if bool_decide (is_Some new) then 1 else 0) + 1) false (upd sc1) K1) as (b & E & B1 & B2).
  apply (cwp_step _ _ _ _ _ _ E). set (kept := length (filter (fun e => still (cs_maps (upd sc1)) e = true) (sc_list sc))) in *.
  assert (L1 : sc_list sc1 = sc_list sc /\ sc_max sc1 = sc_max sc /\ sc_loader sc1 = sc_loader sc) by (unfold sc1; by destruct (bool_decide _)).
  destruct L1 as (L1 & L2 & L3). apply cwp_bind. destruct b.
  - destruct (B1 eq_refl) as [|Hless]; [done|].
    set (in_mem := negb (sc_in_mem sc) && _). apply cwp_bind. destruct (in_mem || scope_malloc_ok m) eqn:Eok.
    2:{ unfold cwp, lift. split; [done|]. split; [done|]. split; [exact Hp|]. exists m. by apply orb_false_iff in Eok as [_ ?]. }
    apply (cwp_ret _ _ _ tt (upd sc1)); [done|].
    destruct (copy_scopes_spec nsid (sc_list sc) (match new with Some _ => Some (SearchOf m) | None => None end) (upd sc1) K1) as (es & Ec & C1 & C2 & C3).
    apply (cwp_step _ _ _ _ _ _ Ec).
    assert (Hlen : Z.of_nat (length es) < (if in_mem then SCOPE_ELEMS else sc_max sc)).
    { unfold in_mem. fold kept in C3. destruct (negb (sc_in_mem sc)); cbn [andb]; [|lia].
      destruct (Z.ltb_spec ((if bool_decide (is_Some new) then 1 else 0) + 1 + Z.of_nat kept) SCOPE_ELEMS) as [Hlt|]; [|lia].
      destruct new; [rewrite bool_decide_eq_true_2 in Hlt by done; lia|]. destruct (bool_decide _); lia. }
    rewrite (proj2 (Z.ltb_lt _ _) Hlen).
    set (sc2 := mkScope (sc_searchlist sc1) es in_mem (if in_mem then SCOPE_ELEMS else sc_max sc) (sc_loader sc1)).
    apply (cwp_ret _ _ _ tt (upd sc2)); [by apply upd_set|].
    replace (sc_loader sc) with (sc_loader sc2) by done.
    apply (fix_loader_spec sc2); [by cbn; rewrite L3|]. intros sc3 E1 E2 E3. apply HQ. split.
    + rewrite E1. intros e He. destruct (C1 e He) as [[? Hs]|Hn]; [left; by rewrite upd_still in Hs|right; destruct new; [by injection Hn as <-|done]].
    + intros t Ht. destruct (E3 t Ht) as [E4 E5]. split; [|done]. rewrite <- E4. cbn. by rewrite L3.
    + rewrite E1, E2. done.
  - destruct (B2 eq_refl) as [_ Hall].
    apply (cwp_ret _ _ _ tt (upd sc)).
    { unfold sc1, new. destruct (sc_searchlist sc) as [sl|] eqn:Esl; [by rewrite !bool_decide_eq_false_2 by (by intros [? ?])|].
      destruct (ci_initfini (c_id l)) as [i|]; [|by rewrite !bool_decide_eq_false_2 by (by intros [? ?])].
      rewrite !bool_decide_eq_true_2 by done. cbn [when]. apply upd_set. unfold with_searchlist. cbn. unfold with_scope. cbn. f_equal.
      rewrite <- Esl. by destruct sc. }
    apply fix_loader_spec; [done|]. intros sc3 E1 E2 E3. apply HQ. split; [|done|by rewrite E1, E2].
    rewrite E1. intros e He. left. split; [done|]. rewrite Forall_forall in Hall. rewrite <- (upd_still sc1). by apply Hall.
Qed.
End FixScope.

(** ** The loop *)
Lemma times_app d l1 l2 : times d (l1 ++ l2) = times d l1 + times d l2.
Proof. unfold times. rewrite filter_app, length_app. lia. Qed.

Lemma elem_snoc (m' m : mapid) P : bool_decide (m' ∈ P ++ [m]) = bool_decide (m' ∈ P) || bool_decide (m' = m).
Proof.
  destruct (bool_decide (m' ∈ P)) eqn:E; [apply bool_decide_eq_true in E; cbn; apply bool_decide_eq_true_2; set_solver|].
  apply bool_decide_eq_false in E. cbn. apply bool_decide_ext. set_solver.
Qed.

Section Finish.
Context (closes : mapid -> list mapid) (scope_malloc_ok : mapid -> bool) (nsid : nat) (s0 : cstate).

Definition dies (m : mapid) : bool := match cs_maps s0 !! m with Some l => negb (c_used l) | None => false end.
Definition dies_global (m : mapid) : bool := match cs_maps s0 !! m with Some l => negb (c_used l) && ci_global (c_id l) | None => false end.
(** Its destructors run. *)
Definition finalized (m : mapid) : bool := match cs_maps s0 !! m with Some l => negb (c_used l) && c_init_called l | None => false end.
(** The handles that the destructors of these objects close. *)
Definition handles (P : list mapid) : list mapid := concat (closes <$> filter (fun m => finalized m = true) P).

Lemma handles_snoc P m : handles (P ++ [m]) = handles P ++ (if finalized m then closes m else []).
Proof.
  unfold handles. rewrite filter_app, fmap_app, concat_app. f_equal. rewrite filter_cons. destruct (finalized m) eqn:E.
  - rewrite decide_True by done. cbn. by rewrite app_nil_r.
  - by rewrite decide_False.
Qed.

Record fobj (P : list mapid) (pend : close_state) (m : mapid) (l0 l : cmap) : Prop := {
  fo_id : c_id l = c_id l0;
  fo_mark : c_mark l = c_mark l0;
  fo_open : 0 <= c_open l <= c_open l0 /\ c_open l0 <= c_open l + times m (handles P);
  fo_root : pend = pending -> is_root l = is_root l0;
  fo_removed : c_removed l = c_removed l0 || (bool_decide (m ∈ P) && negb (c_used l0));
  fo_init : c_init_called l = c_init_called l0 && negb (bool_decide (m ∈ P) && negb (c_used l0));
  fo_scope : if bool_decide (m ∈ P) && c_used l0 && bool_decide (c_type l0 = lt_loaded)
             then scope_clean (cs_maps s0) m (c_scope l0) (c_scope l) else c_scope l = c_scope l0 }.

Record finishing (P : list mapid) (s : cstate) : Prop := {
  fs_obj : forall m l0, cs_maps s0 !! m = Some l0 -> exists l, cs_maps s !! m = Some l /\ fobj P (cs_pending s) m l0 l;
  fs_dom : forall m l, cs_maps s !! m = Some l -> is_Some (cs_maps s0 !! m);
  fs_rest : s = mkCS (cs_maps s) (cs_ns s0) (cs_nns s0) (cs_pending s) (cs_tls s0) (cs_static_used s0) (cs_initfirst s0) (cs_log s);
  fs_log : cs_log s = cs_log s0 ++ (Fini <$> filter (fun m => finalized m = true) P);
  fs_pend : cs_pending s <> not_pending;
  fs_uses : (uses (cs_maps s) <= uses (cs_maps s0))%nat;
  fs_rerun : cs_pending s = rerun -> (uses (cs_maps s) < uses (cs_maps s0))%nat;
  fs_live : cs_pending s = rerun -> exists m l, m ∈ handles P /\ cs_maps s0 !! m = Some l /\ 0 < c_open l }.

Record found_ok (P : list mapid) (f : found) : Prop := {
  fd_any : f_any f = existsb dies P;
  fd_global : f_global f = Z.of_nat (length (filter (fun m => dies_global m = true) P));
  fd_first : 0 <= f_first f < 2 ^ 32 /\ forall j m, P !! j = Some m -> dies m = true -> f_first f <= Z.of_nat j }.

Lemma finish_start : cs_pending s0 = pending -> opens_ok s0 -> finishing [] s0.
Proof.
  intros Hp Ho. split; [|intros m l H; by eexists|by destruct s0|by rewrite app_nil_r|congruence|lia|congruence|congruence].
  intros m l0 Hl. exists l0. split; [done|]. pose proof (Ho m l0 Hl). split; try done.
  - change (times m (handles [])) with 0. lia.
  - by rewrite orb_false_r.
  - by rewrite andb_true_r.
Qed.

Lemma finishing_opens P s : opens_ok s0 -> finishing P s -> opens_ok s.
Proof.
  intros Ho F m l Hl. destruct (fs_dom _ _ F m l Hl) as [l0 Hl0]. destruct (fs_obj _ _ F m l0 Hl0) as (l' & Hl' & O).
  assert (l' = l) as -> by congruence. pose proof (fo_open _ _ _ _ _ O). pose proof (Ho m l0 Hl0). lia.
Qed.

(** Nothing is done to a used object that was there when the program started. *)
Lemma finish_skip P s m l0 : finishing P s -> cs_maps s0 !! m = Some l0 -> c_used l0 = true -> c_type l0 <> lt_loaded -> finishing (P ++ [m]) s.
Proof.
  intros F Hl Hu Ht. assert (Hf : finalized m = false) by (unfold finalized; rewrite Hl, Hu; done).
  destruct F as [O D R L N U W V]. split; try done.
  - intros m' l' Hl'. destruct (O m' l' Hl') as (l & Hl1 & [A1 A2 A3 A4 A5 A6 A7]). exists l. split; [done|].
    split; [done|done| |done|..]; rewrite ?elem_snoc.
    + rewrite handles_snoc, Hf, app_nil_r. done.
    + destruct (decide (m' = m)) as [->|Hn]; [assert (l' = l0) as -> by congruence; rewrite Hu, andb_false_r in *; done|].
      by rewrite (bool_decide_eq_false_2 (m' = m)), orb_false_r.
    + destruct (decide (m' = m)) as [->|Hn]; [assert (l' = l0) as -> by congruence; rewrite Hu, andb_false_r in *; done|].
      by rewrite (bool_decide_eq_false_2 (m' = m)), orb_false_r.
    + destruct (decide (m' = m)) as [->|Hn].
      * assert (l' = l0) as -> by congruence. rewrite (bool_decide_eq_false_2 (c_type l0 = lt_loaded)), andb_false_r in * by done. done.
      * by rewrite (bool_decide_eq_false_2 (m' = m)), orb_false_r.
  - rewrite filter_app, filter_cons, decide_False, app_nil_r by congruence. done.
  - by rewrite handles_snoc, Hf, app_nil_r.
Qed.

(** The scope of a used object is cleaned. *)
Lemma finish_scope P s m l0 l sc : finishing P s -> cs_maps s0 !! m = Some l0 -> cs_maps s !! m = Some l -> m ∉ P -> c_used l0 = true -> c_type l0 = lt_loaded ->
  scope_clean (cs_maps s0) m (c_scope l) sc -> finishing (P ++ [m]) (set_cmaps (alter (fun _ => with_scope sc l) m (cs_maps s)) s).
Proof.
  intros F Hl0 Hl HP Hu Ht Hc. assert (Hf : finalized m = false) by (unfold finalized; rewrite Hl0, Hu; done).
  assert (Eu : uses (alter (fun _ => with_scope sc l) m (cs_maps s)) = uses (cs_maps s)).
  { pose proof (uses_alter (cs_maps s) m l (fun _ => with_scope sc l) Hl) as E. cbn in E. lia. }
  destruct F as [O D R L N U W V]. split; cbn [set_cmaps cs_maps cs_pending cs_log].
  - intros m' l' Hl'. destruct (O m' l' Hl') as (l1 & Hl1 & [A1 A2 A3 A4 A5 A6 A7]). destruct (decide (m' = m)) as [->|Hn].
    + assert (l' = l0) as -> by congruence. assert (l1 = l) as -> by congruence. exists (with_scope sc l). rewrite lookup_alter_eq, Hl. split; [done|].
      rewrite (bool_decide_eq_false_2 (m ∈ P)) in * by done. cbn [andb] in A7. rewrite Hu in *. split; try done; rewrite ?elem_snoc.
      * rewrite handles_snoc, Hf, app_nil_r. done.
      * rewrite Hu, andb_false_r in *. done.
      * rewrite Hu, andb_false_r in *. done.
      * rewrite (bool_decide_eq_true_2 (m = m)), orb_true_r, Hu, bool_decide_eq_true_2 by done. cbn. by rewrite <- A7.
    + exists l1. rewrite lookup_alter_ne by done. split; [done|]. split; try done; rewrite ?elem_snoc, ?(bool_decide_eq_false_2 (m' = m)), ?orb_false_r by done; try done.
      rewrite handles_snoc, Hf, app_nil_r. done.
  - intros m' l' Hl'. apply alter_lookup_Some in Hl' as (l1 & H1 & _). eauto.
  - rewrite R. done.
  - rewrite L, filter_app, filter_cons, decide_False, app_nil_r by congruence. done.
  - done.
  - lia.
  - rewrite Eu. done.
  - by rewrite handles_snoc, Hf, app_nil_r.
Qed.
(** The destructors of an object that goes run, when it was initialised. *)
Lemma finish_die P s m l0 l : opens_ok s0 -> finishing P s -> cs_maps s0 !! m = Some l0 -> cs_maps s !! m = Some l -> m ∉ P -> c_used l0 = false ->
  (finalized m = true -> forall d, d ∈ closes m -> is_Some (cs_maps s0 !! d)) ->
  exists s2, when (c_init_called l) (run_destructors closes m) s = Ret tt s2 /\
    finishing (P ++ [m]) (set_cmaps (alter (with_removed true) m (cs_maps s2)) s2).
Proof.
  intros Ho F Hl0 Hl HP Hu Hh. pose proof (finishing_opens _ _ Ho F) as Ho1.
  destruct (fs_obj _ _ F m l0 Hl0) as (l' & Hl' & Om). assert (l' = l) as -> by congruence. clear Hl'.
  assert (Ei : c_init_called l = c_init_called l0).
  { rewrite (fo_init _ _ _ _ _ Om), (bool_decide_eq_false_2 (m ∈ P)) by done. apply andb_true_r. }
  assert (Ef : finalized m = c_init_called l) by (unfold finalized; rewrite Hl0, Hu, Ei; done).
  set (s1 := if c_init_called l then add_log (Fini m) (set_cmaps (alter (with_init false) m (cs_maps s)) s) else s).
  assert (H2 : exists s2, when (c_init_called l) (run_destructors closes m) s = Ret tt s2 /\ closing (if c_init_called l then closes m else []) s1 s2).
  { unfold s1. destruct (c_init_called l) eqn:Ec; cbn [when]; [|exists s; split; [done|by apply closing_refl]].
    unfold run_destructors. rewrite (M_bind_step _ _ _ tt (set_cmaps (alter (with_init false) m (cs_maps s)) s)) by done.
    rewrite (M_bind_step _ _ _ tt (add_log (Fini m) (set_cmaps (alter (with_init false) m (cs_maps s)) s))) by done.
    apply nested_closes_spec; [apply (fs_pend _ _ F)| |].
    - intros m' l' Hl'. apply alter_lookup_Some in Hl' as (l1 & H1 & ->). destruct (decide (m' = m)); exact (Ho1 m' l1 H1).
    - intros d Hd. cbn. destruct (Hh Ef d Hd) as [ld0 Hd0]. destruct (fs_obj _ _ F d ld0 Hd0) as (ld & Hld & _).
      destruct (decide (d = m)) as [->|]; [rewrite lookup_alter_eq, Hl; by eexists|rewrite lookup_alter_ne by done; by eexists]. }
  destruct H2 as (s2 & E2 & C). exists s2. split; [done|]. clear E2.
  assert (Hs1 : forall m' l', cs_maps s !! m' = Some l' -> cs_maps s1 !! m' = Some (if bool_decide (m' = m) then with_init false l' else l')).
  { intros m' l' Hm'. unfold s1. destruct (decide (m' = m)) as [->|Hn]; [rewrite bool_decide_eq_true_2 by done|rewrite bool_decide_eq_false_2 by done].
    - assert (l' = l) as -> by congruence. destruct (c_init_called l) eqn:Ec; [cbn; by rewrite lookup_alter_eq, Hl|].
      rewrite Hl. f_equal. destruct l. cbn in Ec. by subst.
    - destruct (c_init_called l); [cbn; by rewrite lookup_alter_ne|done]. }
  assert (Hs1' : cs_pending s1 = cs_pending s /\ uses (cs_maps s1) = uses (cs_maps s) /\
    s1 = mkCS (cs_maps s1) (cs_ns s) (cs_nns s) (cs_pending s) (cs_tls s) (cs_static_used s) (cs_initfirst s) (cs_log s ++ (if c_init_called l then [Fini m] else []))).
  { unfold s1. destruct (c_init_called l); [split; [done|]; split; [by apply uses_alter_same|done]|].
    split; [done|]. split; [done|]. rewrite app_nil_r. by destruct s. }
  destruct Hs1' as (Ep1 & Eu1 & Es1).
  assert (Eu3 : uses (alter (with_removed true) m (cs_maps s2)) = uses (cs_maps s2)) by (by apply uses_alter_same).
  pose proof (cl_uses _ _ _ C). pose proof (fs_uses _ _ F). pose proof (cl_rest _ _ _ C) as Es2.
  split; cbn [set_cmaps cs_maps cs_pending cs_log].
  - intros m' l0' Hl0'. destruct (fs_obj _ _ F m' l0' Hl0') as (l1 & Hl1 & O).
    destruct (cl_maps _ _ _ C m' _ (Hs1 m' l1 Hl1)) as (l2 & Hl2 & [E2 O2] & T2 & R2).
    exists (if decide (m' = m) then with_removed true l2 else l2). split; [apply alter_lookup_Some; eauto|].
    assert (Eh : times m' (handles (P ++ [m])) = times m' (handles P) + times m' (if c_init_called l then closes m else [])).
    { rewrite handles_snoc, times_app, Ef. done. }
    destruct O as [A1 A2 A3 A4 A5 A6 A7].
    assert (Hroot : cs_pending s2 = pending -> is_root l2 = is_root l0').
    { intros Hp2. rewrite (R2 Hp2), <- A4; [by destruct (bool_decide (m' = m))|]. destruct (cl_pending _ _ _ C) as [E|E]; congruence. }
    assert (Hop : 0 <= c_open l2 <= c_open l0' /\ c_open l0' <= c_open l2 + times m' (handles (P ++ [m]))).
    { assert (c_open (if bool_decide (m' = m) then with_init false l1 else l1) = c_open l1) as Eo by (by destruct (bool_decide (m' = m))). rewrite Eo in *. lia. }
    destruct (decide (m' = m)) as [->|Hn].
    + assert (l0' = l0) as -> by congruence. assert (l1 = l) as -> by congruence. rewrite bool_decide_eq_true_2 in * by done.
      rewrite (bool_decide_eq_false_2 (m ∈ P)) in * by done. cbn [andb] in A7.
      split; rewrite ?elem_snoc, ?(bool_decide_eq_true_2 (m = m) eq_refl), ?orb_true_r, ?Hu; cbn [andb negb].
      * cbn. rewrite E2. done.
      * cbn. rewrite E2. done.
      * done.
      * done.
      * cbn. by rewrite orb_true_r.
      * cbn. rewrite E2. cbn. by rewrite andb_false_r.
      * cbn. rewrite E2. done.
    + rewrite bool_decide_eq_false_2 in * by done.
      split; rewrite ?elem_snoc, ?(bool_decide_eq_false_2 (m' = m)), ?orb_false_r by done; try done; rewrite E2; done.
  - intros m' l' Hl'. apply alter_lookup_Some in Hl' as (l2 & Hl2 & _). destruct (cl_dom _ _ _ C m' l2 Hl2) as [l1 Hl1].
    unfold s1 in Hl1. destruct (c_init_called l); [cbn in Hl1; apply alter_lookup_Some in Hl1 as (l3 & Hl3 & _); by eapply (fs_dom _ _ F)|by eapply (fs_dom _ _ F)].
  - rewrite Es2, Es1, (fs_rest _ _ F). done.
  - rewrite Es2, Es1. cbn [set_pending set_cmaps cs_log]. rewrite (fs_log _ _ F), filter_app, fmap_app, filter_cons, <- app_assoc. f_equal. f_equal.
    rewrite Ef. destruct (c_init_called l); [by rewrite decide_True|by rewrite decide_False].
  - destruct (cl_pending _ _ _ C) as [->| ->]; [rewrite Ep1; apply (fs_pend _ _ F)|done].
  - lia.
  - intros Hr. rewrite Eu3. destruct (cl_rerun _ _ _ C Hr) as [Hr1|]; [|lia]. rewrite Ep1 in Hr1. pose proof (fs_rerun _ _ F Hr1). lia.
  - intros Hr. rewrite handles_snoc, Ef. destruct (cl_live _ _ _ C Hr) as [Hr1|(d & ld & Hd & Hld & Hpos)].
    + rewrite Ep1 in Hr1. destruct (fs_live _ _ F Hr1) as (d & ld & Hd & ?). exists d, ld. split; [apply elem_of_app; by left|done].
    + assert (exists ld1, cs_maps s !! d = Some ld1 /\ c_open ld1 = c_open ld) as (ld1 & Hld1 & Eo).
      { unfold s1 in Hld. destruct (c_init_called l); [|eauto]. cbn in Hld. apply alter_lookup_Some in Hld as (l3 & H3 & ->). exists l3. split; [done|]. by destruct (decide (d = m)). }
      destruct (fs_dom _ _ F d ld1 Hld1) as [ld0 Hld0]. destruct (fs_obj _ _ F d ld0 Hld0) as (ld2 & Hld2 & Od). assert (ld2 = ld1) as -> by congruence.
      exists d, ld0. split; [apply elem_of_app; by right|]. split; [done|]. pose proof (fo_open _ _ _ _ _ Od). lia.
Qed.
Lemma finishing_known P s e : finishing P s -> known nsid (cs_maps s0) e -> known nsid (cs_maps s) e.
Proof.
  intros F. destruct e as [|t]; [done|]. intros (l0 & Hl0 & Hn). destruct (fs_obj _ _ F t l0 Hl0) as (l & Hl & O).
  exists l. split; [done|]. by rewrite (fo_id _ _ _ _ _ O).
Qed.
Lemma finishing_still P s e : finishing P s -> still (cs_maps s) e = still (cs_maps s0) e.
Proof.
  intros F. destruct e as [|t]; [done|]. cbn. destruct (cs_maps s0 !! t) as [l0|] eqn:Hl0.
  - destruct (fs_obj _ _ F t l0 Hl0) as (l & Hl & O). rewrite Hl. unfold c_idx. by rewrite (fo_mark _ _ _ _ _ O).
  - destruct (cs_maps s !! t) as [l|] eqn:Hl; [|done]. destruct (fs_dom _ _ F t l Hl). congruence.
Qed.

(** An object the loop may meet. *)
Record meets (m : mapid) (l0 : cmap) : Prop := {
  me_ns : ci_ns (c_id l0) = nsid;
  me_dies : c_used l0 = false -> c_type l0 = lt_loaded /\ ci_nodelete (c_id l0) = false;
  me_scope : c_type l0 = lt_loaded -> scope_ok nsid (cs_maps s0) m l0;
  me_handles : finalized m = true -> forall d, d ∈ closes m -> is_Some (cs_maps s0 !! d) }.

Lemma found_any P f m : f_any f = existsb dies P -> existsb dies (P ++ [m]) = f_any f || dies m.
Proof. intros ->. rewrite existsb_app. cbn. by rewrite orb_false_r. Qed.
Lemma found_global P m : Z.of_nat (length (filter (fun m => dies_global m = true) (P ++ [m]))) =
  Z.of_nat (length (filter (fun m => dies_global m = true) P)) + (if dies_global m then 1 else 0).
Proof.
  rewrite filter_app, length_app, filter_cons. destruct (dies_global m) eqn:E; [rewrite decide_True by done|rewrite decide_False by congruence]; cbn; lia.
Qed.
Lemma found_first P f i m : (0 <= f_first f < 2 ^ 32 /\ forall j m, P !! j = Some m -> dies m = true -> f_first f <= Z.of_nat j) -> i = Z.of_nat (length P) ->
  (0 <= (if i <? f_first f then i else f_first f) < 2 ^ 32 /\
   forall j m', (P ++ [m]) !! j = Some m' -> dies m' = true -> (if i <? f_first f then i else f_first f) <= Z.of_nat j).
Proof.
  intros [H1 H2] ->. split; [destruct (Z.ltb_spec (Z.of_nat (length P)) (f_first f)); lia|]. intros j m' Hj Hd.
  apply lookup_app_Some in Hj as [Hj|[Hle Hj]].
  - pose proof (H2 j m' Hj Hd). destruct (Z.ltb_spec (Z.of_nat (length P)) (f_first f)); lia.
  - destruct (Z.ltb_spec (Z.of_nat (length P)) (f_first f)); lia.
Qed.

Lemma finish_loop_spec maps : forall P i f s, opens_ok s0 -> finishing P s -> found_ok P f -> i = Z.of_nat (length P) -> NoDup (P ++ maps) ->
  (forall m, m ∈ maps -> exists l0, cs_maps s0 !! m = Some l0 /\ meets m l0) ->
  cwp scope_malloc_ok (finish_loop closes scope_malloc_ok nsid maps i f) (fun f' s' => finishing (P ++ maps) s' /\ found_ok (P ++ maps) f') s.
Proof.
  induction maps as [|m maps IH]; intros P i f s Ho F Hf Hi Hnd Hm; cbn [finish_loop].
  - rewrite app_nil_r. by apply (cwp_ret _ _ _ f s).
  - destruct (Hm m ltac:(by left)) as (l0 & Hl0 & [M1 M2 M3 M4]). destruct (fs_obj _ _ F m l0 Hl0) as (l & Hl & O).
    assert (HP : m ∉ P). { apply NoDup_app in Hnd as (_ & Hni & _). intros Hin. apply (Hni m Hin). by left. }
    pose proof (fo_id _ _ _ _ _ O) as Eid. pose proof (fo_mark _ _ _ _ _ O) as Emk.
    assert (Eu : c_used l = c_used l0) by (unfold c_used; by rewrite Emk). assert (Et : c_type l = c_type l0) by (unfold c_type; by rewrite Eid).
    apply (cwp_get _ _ _ _ l Hl). apply cwp_assert; [by apply bool_decide_eq_true_2; rewrite Eid|].
    rewrite Eu, Et. destruct Hf as [Fa Fg Ff].
    assert (Hnext : forall f2 s2, finishing (P ++ [m]) s2 -> found_ok (P ++ [m]) f2 ->
      cwp scope_malloc_ok (finish_loop closes scope_malloc_ok nsid maps (i + 1) f2) (fun f' s' => finishing (P ++ m :: maps) s' /\ found_ok (P ++ m :: maps) f') s2).
    { intros f2 s2 F2 Hf2. change (P ++ m :: maps) with (P ++ [m] ++ maps). rewrite app_assoc. apply IH; try done.
      - rewrite length_app. cbn. lia.
      - by rewrite <- app_assoc.
      - intros m' Hm'. apply Hm. by right. }
    pose proof (found_first P f i m Ff Hi) as Ff'.
    destruct (c_used l0) eqn:Eu0; cbn [negb].
    + assert (Ed : dies m = false) by (unfold dies; by rewrite Hl0, Eu0). assert (Edg : dies_global m = false) by (unfold dies_global; by rewrite Hl0, Eu0).
      destruct (bool_decide (c_type l0 = lt_loaded)) eqn:Ety; [apply bool_decide_eq_true in Ety|apply bool_decide_eq_false in Ety].
      * apply cwp_bind, cwp_bind. assert (Esc : c_scope l = c_scope l0).
        { pose proof (fo_scope _ _ _ _ _ O) as Hsc. by rewrite (bool_decide_eq_false_2 (m ∈ P)) in Hsc. }
        apply (fix_scope_spec scope_malloc_ok nsid m s l Hl); [|apply (fs_pend _ _ F)|].
        { destruct (M3 Ety) as [K1 K2 K3 K4]. split; rewrite ?Esc, ?Eid; [|done| |done].
          - eapply Forall_impl; [exact K1|]. intros e. by apply (finishing_known P).
          - intros t Ht. apply (finishing_known P s (SearchOf t) F). by apply K3. }
        intros sc [S1 S2 S3]. apply (cwp_ret _ _ _ (mkFound (f_any f) (f_global f) (if i <? f_first f then i else f_first f)) (set_cmaps (alter (fun _ => with_scope sc l) m (cs_maps s)) s)); [done|].
        apply Hnext.
        -- apply (finish_scope P s m l0 l sc F Hl0 Hl HP Eu0 Ety). split; [|intros t Ht; destruct (S2 t Ht) as [? Hs]; rewrite (finishing_still P) in Hs by done; done|done].
           intros e He. destruct (S1 e He) as [[? Hs]|?]; [left; by rewrite (finishing_still P) in Hs|by right].
        -- split; cbn [f_any f_global f_first]; [by rewrite (found_any P f m Fa), Ed, orb_false_r|by rewrite found_global, Edg, Z.add_0_r|done].
      * apply (cwp_step _ _ _ _ f s); [done|]. apply Hnext; [by apply (finish_skip P s m l0)|].
        split; [by rewrite (found_any P f m Fa), Ed, orb_false_r|by rewrite found_global, Edg, Z.add_0_r|].
        destruct Ff as [Ff1 Ff2]. split; [done|]. intros j m' Hj Hd. apply lookup_app_Some in Hj as [Hj|[Hle Hj]]; [by apply (Ff2 j m')|].
        destruct (j - length P)%nat; [cbn in Hj; congruence|done].
    + destruct (M2 eq_refl) as [Ety Ena]. assert (Ed : dies m = true) by (unfold dies; by rewrite Hl0, Eu0).
      apply cwp_bind. apply cwp_assert; [rewrite bool_decide_eq_true_2, Eid, Ena by done; done|].
      destruct (finish_die P s m l0 l Ho F Hl0 Hl HP Eu0 M4) as (s2 & E2 & F2).
      apply (cwp_step _ _ _ _ _ _ E2). apply (cwp_step _ _ _ _ tt (set_cmaps (alter (with_removed true) m (cs_maps s2)) s2)); [done|].
      apply (cwp_ret _ _ _ (mkFound true (if ci_global (c_id l) then f_global f + 1 else f_global f) (if i <? f_first f then i else f_first f)) (set_cmaps (alter (with_removed true) m (cs_maps s2)) s2)); [done|].
      apply Hnext; [done|]. split; cbn [f_any f_global f_first]; [by rewrite (found_any P f m Fa), Ed, orb_true_r| |done].
      assert (Edg : dies_global m = ci_global (c_id l0)) by (unfold dies_global; by rewrite Hl0, Eu0).
      rewrite found_global, Fg, Eid, Edg. destruct (ci_global (c_id l0)); lia.
Qed.
End Finish.
