(* ===== verification/CloseUnload.v ===== *)
(** * Closing objects: the global scope and unmapping

    The objects that go are taken out of the global scope, withdrawn from dynamic TLS, unmapped and freed. *)

From S2P Require Import Prelude LinkMap SortMaps TlsOffset LoadCmds DynTls TlsSlots DynTlsSpec DynTlsThread DynTlsLoader DynTlsMachine.
From S2P Require Import Close CloseMark CloseRound CloseFinish.

(** ** Withdrawing a published module returns *)
Lemma last_used_returns n : forall b lim, 0 <= lim -> lim + Z.of_nat n <= Z.of_nat (length b) -> exists r, last_used n b lim = Ok r.
Proof.
  induction n as [|n IH]; intros b lim H0 Hn; cbn [last_used]; [by eexists|].
  destruct (lookup_lt_is_Some_2 b (Z.to_nat (lim + Z.of_nat n)) ltac:(lia)) as [x Hx].
  rewrite (rd_lookup b _ (Z.to_nat (lim + Z.of_nat n)) x) by (done || lia). rewrite bind_ret. destruct (si_map x); [by eexists|]. apply IH; lia.
Qed.

Lemma remove_returns nelem gen max gaps there idx blocks : forall disp, 0 <= nelem -> 0 <= disp -> 0 <= idx - disp < list_len blocks ->
  (disp = 0 -> exists b r, blocks = b :: r /\ 1 + nelem <= Z.of_nat (length b)) ->
  exists r, remove_slotinfo nelem gen max gaps there idx blocks disp = Ok r.
Proof.
  induction blocks as [|b next IH]; intros disp Hn Hd Hr Hf; [unfold list_len in Hr; cbn in Hr; lia|]. rewrite list_len_cons in Hr. cbn [remove_slotinfo].
  set (lim := if disp =? 0 then 1 + nelem else 0).
  assert (Hlim : 0 <= lim <= Z.of_nat (length b)).
  { unfold lim. destruct (Z.eqb_spec disp 0) as [->|]; [|lia]. destruct Hf as (b' & r & [= <- <-] & ?); [done|]. lia. }
  assert (Hsearch : forall i b' (next' : list (list slotinfo)) (max' : Z) (gaps' : bool), length b' = length b -> i - disp <= Z.of_nat (length b) ->
    exists r, (u ← last_used (Z.to_nat (i - disp - lim)) b' lim;
      match u with Some j => mret (true, b' :: next', disp + j, gaps') | None => mret (false, b' :: next', max', gaps') end) = Ok r).
  { intros i b' next' max' gaps' El Hi. destruct (last_used_returns (Z.to_nat (i - disp - lim)) b' lim) as [u ->]; [lia|rewrite El; lia|].
    rewrite bind_ret. destruct u; by eexists. }
  destruct (Z.leb_spec (Z.of_nat (length b)) (idx - disp)) as [Hge|Hlt].
  - destruct next as [|b2 next]; [unfold list_len in Hr; cbn in Hr; lia|].
    destruct (IH (disp + Z.of_nat (length b)) Hn ltac:(lia) ltac:(lia)) as [[[[fnd nx] mx] gp] ->].
    { intros E. destruct (Z.eqb_spec disp 0) as [->|]; [|lia]. unfold lim in Hlim. lia. }
    rewrite bind_ret. destruct fnd; [by eexists|]. apply Hsearch; [done|lia].
  - destruct (lookup_lt_is_Some_2 b (Z.to_nat (idx - disp)) ltac:(lia)) as [x Hx].
    rewrite (rd_lookup b _ (Z.to_nat (idx - disp)) x) by (done || lia). rewrite bind_ret.
    destruct (negb (idx =? max)); [by eexists|]. apply Hsearch; [|lia]. destruct (si_map x); [by rewrite length_insert|done].
Qed.

Lemma close_tls_returns s m x ic si : slots_ok s -> ts_mods s !! m = Some x -> tls_slot s (tm_modid x) = Some si -> exists s', close_tls m ic s = Ret tt s'.
Proof.
  intros Hs Hx Hsi. pose proof (tls_slot_range _ _ _ Hsi) as Hr. pose proof (so_max s Hs). destruct (so_first s Hs) as (b & r & Hl & Hb).
  unfold close_tls. rewrite (M_bind_step _ _ _ s s) by done.
  rewrite (M_bind_step _ _ _ x s) by (unfold get_mod; rewrite (M_bind_step _ _ _ (ts_mods s) s) by done; by rewrite Hx).
  destruct (remove_returns (ts_nelem s) (ts_gen s) (ts_max s) (ts_gaps s) ic (tm_modid x) (ts_list s) 0) as [[[[f l] mx] gp] E];
    [lia|lia|lia|intros _; by eexists _, _|].
  unfold id. rewrite E. rewrite Hl. rewrite (M_bind_step _ _ _ (f, l, mx, gp) s) by done. by eexists.
Qed.

(** ** The global scope *)
Definition gone (ms : gmap mapid cmap) (m : mapid) : bool := match ms !! m with Some l => c_removed l | None => false end.

Lemma not_removed_spec l : forall s, (forall m, m ∈ l -> is_Some (cs_maps s !! m)) ->
  not_removed l s = Ret (filter (fun m => gone (cs_maps s) m = false) l) s.
Proof.
  induction l as [|m l IH]; intros s Hin; [done|]. cbn [not_removed]. destruct (Hin m ltac:(by left)) as [x Hx].
  rewrite (M_bind_step _ _ _ _ _ (c_get_run _ _ _ Hx)). rewrite (M_bind_step _ _ _ _ _ (IH s (fun m' H' => Hin m' ltac:(by right)))).
  assert (Eg : gone (cs_maps s) m = c_removed x) by (unfold gone; by rewrite Hx).
  rewrite filter_cons. destruct (c_removed x); [rewrite decide_False by congruence|rewrite decide_True by done]; done.
Qed.

Lemma strip_removed_spec l s : forall n, (n <= length l)%nat -> (forall m, m ∈ l -> is_Some (cs_maps s !! m)) ->
  exists c, strip_removed n l s = Ret c s /\ (c <= n)%nat /\ forall j m, (c <= j < n)%nat -> l !! j = Some m -> gone (cs_maps s) m = true.
Proof.
  induction n as [|n IH]; intros Hn Hin; cbn [strip_removed]; [exists 0%nat; split; [done|]; split; [lia|lia]|].
  destruct (lookup_lt_is_Some_2 l n ltac:(lia)) as [m Hm]. rewrite Hm. rewrite (M_bind_step _ _ _ m s) by done.
  destruct (Hin m ltac:(by eapply list_elem_of_lookup_2)) as [x Hx]. rewrite (M_bind_step _ _ _ _ _ (c_get_run _ _ _ Hx)).
  destruct (c_removed x) eqn:Er; [|exists (S n); split; [done|]; split; [lia|lia]].
  destruct (IH ltac:(lia) Hin) as (c & E & Hc & Hall). exists c. split; [done|]. split; [lia|]. intros j m' Hj Hm'.
  destruct (decide (j = n)) as [->|]; [|apply (Hall j m'); [lia|done]]. assert (m' = m) as -> by congruence. unfold gone. by rewrite Hx.
Qed.

(** Both ways of removing objects from the global scope leave the same list. *)
Lemma prune_global_spec nsid ns g s : cs_ns s !! nsid = Some ns -> (forall m, m ∈ nd_msl ns -> is_Some (cs_maps s !! m)) ->
  Z.of_nat (length (filter (fun m => gone (cs_maps s) m = true) (nd_msl ns))) <= g ->
  prune_global nsid g s = Ret tt (set_cns (<[nsid := mkNsd (nd_loaded ns) (nd_nloaded ns) (filter (fun m => gone (cs_maps s) m = false) (nd_msl ns)) (nd_unique ns)]> (cs_ns s)) s).
Proof.
  intros Hns Hin Hg. unfold prune_global. rewrite (M_bind_step _ _ _ ns s) by (unfold get_nsd; by rewrite Hns).
  destruct (strip_removed_spec (nd_msl ns) s (length (nd_msl ns)) ltac:(lia) Hin) as (c & E & Hc & Hall). rewrite (M_bind_step _ _ _ _ _ E).
  set (msl := nd_msl ns) in *.
  assert (Hdrop : forall m, m ∈ drop c msl -> gone (cs_maps s) m = true).
  { intros m [j Hj]%list_elem_of_lookup. rewrite lookup_drop in Hj. apply (Hall (c + j)%nat); [|done]. apply lookup_lt_Some in Hj. lia. }
  assert (Hres : filter (fun m => gone (cs_maps s) m = false) msl = filter (fun m => gone (cs_maps s) m = false) (take c msl)).
  { rewrite <- (take_drop c msl) at 1. rewrite filter_app, (filter_none _ (drop c msl)), app_nil_r; [done|]. intros m Hm. rewrite (Hdrop m Hm). done. }
  destruct (Z.eqb_spec (Z.of_nat c + g) (Z.of_nat (length msl))) as [Ef|_].
  - rewrite (M_bind_step _ _ _ (take c msl) s) by done. rewrite Hres, filter_every; [done|].
    intros m Hm. destruct (gone (cs_maps s) m) eqn:Eg; [exfalso|done].
    rewrite <- (take_drop c msl) in Hg. rewrite filter_app, length_app, (filter_every _ (drop c msl)) in Hg by done. rewrite length_drop in Hg.
    assert (H1 : m ∈ filter (fun m => gone (cs_maps s) m = true) (take c msl)) by (by apply list_elem_of_filter).
    destruct (filter (fun m => gone (cs_maps s) m = true) (take c msl)); [by apply elem_of_nil in H1|cbn in Hg; lia].
  - rewrite (M_bind_step _ _ _ _ _ (not_removed_spec (take c msl) s (fun m Hm => Hin m (subseteq_take c msl m Hm)))). by rewrite Hres.
Qed.

(** ** Unmapping *)

(** Dynamic TLS is in order, and the objects that may go have published their modules. *)
Record tls_ok (t : tls_state) (dirty : bool) (ms : gmap mapid cmap) : Prop := {
  tl_inv : Inv t (mkPhase true dirty Mapping []);
  tl_mods : forall m l x, ms !! m = Some l -> c_type l = lt_loaded -> ts_mods t !! m = Some x -> tm_in_slotinfo x = true /\ tm_initial x = false;
  tl_gen : ts_gen t + 1 < 2 ^ 64 }.

Lemma settled_nil m dirty : settled Dropping m (mkPhase true dirty Mapping []) = mkPhase true true Mapping [].
Proof. done. Qed.

Lemma close_tls_ok t dirty ms m l x ic : tls_ok t dirty ms -> ms !! m = Some l -> c_type l = lt_loaded -> ts_mods t !! m = Some x ->
  0 < tm_blocksize x /\ exists t', close_tls m ic t = Ret tt t' /\ ts_gen t' = ts_gen t /\ ts_mods t' = ts_mods t /\
    tls_ok (set_mods (delete m (ts_mods t')) t') true (delete m ms).
Proof.
  intros [I T G] Hl Ht Hx. destruct (T m l x Hl Ht Hx) as [Hin Hini]. pose proof (iv_slots _ _ I) as Hs.
  destruct (so_in t Hs m x Hx Hin) as (Hok & si & Hsi & Hsm). split; [apply Hok|].
  destruct (close_tls_returns t m x ic si Hs Hx Hsi) as [t' E]. exists t'. pose proof (tls_slot_range _ _ _ Hsi) as Hr.
  destruct (close_spec t m x ic Hs Hx ltac:(lia) tt t' E) as (bl & mx & gp & E' & _).
  assert (E1 : ts_gen t' = ts_gen t) by (by rewrite E'). assert (E2 : ts_mods t' = ts_mods t) by (by rewrite E').
  split; [done|]. split; [done|]. split; [done|]. split.
  - rewrite <- (settled_nil m dirty). apply (inv_drop t (mkPhase true dirty Mapping []) m x ic t' I Hx); try done; [lia|].
    intros si' m' Hsi' Hsm'. congruence.
  - intros m' l' x' [_ Hl']%lookup_delete_Some Ht' Hx'. cbn in Hx'. apply lookup_delete_Some in Hx' as [_ Hx']. rewrite E2 in Hx'. by apply (T m' l' x').
  - cbn. by rewrite E1.
Qed.

(** A module that is no longer known is not missed when it had no TLS. *)
Lemma tls_ok_absent t dirty ms m : tls_ok t dirty ms -> ts_mods t !! m = None -> tls_ok (set_mods (delete m (ts_mods t)) t) dirty (delete m ms).
Proof.
  intros [I T G] Hm. rewrite delete_id by done. assert (set_mods (ts_mods t) t = t) as -> by (by destruct t).
  split; [done| |done]. intros m' l' x' [_ Hl']%lookup_delete_Some. by apply T.
Qed.

(** ** Static TLS memory that is given back *)

(** The module has a block in static TLS memory: [(offset - blocksize, offset]], measured downwards from the thread pointer. *)
Definition static_mod (x : tmod) : Prop := 0 < tm_blocksize x /\ is_static (tm_offset x) = true.

(** The blocks are apart and in the used part of the memory; the chunk [(start, end]] that is being collected belongs to none
    of them. *)
Record statics (mods : gmap mapid tmod) (used start end_ : Z) : Prop := {
  st_range : forall m x, mods !! m = Some x -> static_mod x -> tm_blocksize x < tm_offset x <= used;
  st_apart : forall m m' x x', m <> m' -> mods !! m = Some x -> mods !! m' = Some x' -> static_mod x -> static_mod x' ->
    tm_offset x <= tm_offset x' - tm_blocksize x' \/ tm_offset x' <= tm_offset x - tm_blocksize x;
  st_used : 0 <= used < 2 ^ 64;
  st_chunk : start = NO_TLS_OFFSET /\ end_ = NO_TLS_OFFSET \/ 0 < start < end_ /\ end_ <= used /\
    forall m x, mods !! m = Some x -> static_mod x -> tm_offset x <= start \/ end_ <= tm_offset x - tm_blocksize x }.
Definition statics_at (c : Z * Z * bool) (s : cstate) : Prop := statics (ts_mods (cs_tls s)) (cs_static_used s) (c.1.1) (c.1.2).

Lemma statics_delete mods used start end_ m : statics mods used start end_ -> statics (delete m mods) used start end_.
Proof.
  intros [R A U C]. split; [| |done|].
  - intros k x [_ Hx]%lookup_delete_Some. by apply (R k).
  - intros k k' x x' Hn [_ Hx]%lookup_delete_Some [_ Hx']%lookup_delete_Some. by apply (A k k').
  - destruct C as [C|(C1 & C2 & C3)]; [by left|right]. split; [done|]. split; [done|]. intros k x [_ Hx]%lookup_delete_Some. by apply (C3 k).
Qed.

Lemma reclaim_spec mods used start end_ m x used' start' end' : statics mods used start end_ -> mods !! m = Some x -> static_mod x ->
  reclaim (tm_offset x) (tm_blocksize x) (used, start, end_) = (used', start', end') -> statics (delete m mods) used' start' end'.
Proof.
  intros S Hx Hst E. pose proof (statics_delete _ _ _ _ m S) as [R' A' _ _]. destruct S as [R A U C]. pose proof (R m x Hx Hst) as Hr. pose proof (proj1 Hst) as Hb.
  assert (Hnew : forall k y, delete m mods !! k = Some y -> static_mod y -> tm_offset y <= tm_offset x - tm_blocksize x \/ tm_offset x <= tm_offset y - tm_blocksize y).
  { intros k y [Hn Hy]%lookup_delete_Some Hsy. destruct (A m k x y Hn Hx Hy Hst Hsy); [by right|by left]. }
  assert (Hold : start = NO_TLS_OFFSET /\ end_ = NO_TLS_OFFSET \/ (0 < start < end_ /\ end_ <= used) /\ (tm_offset x <= start \/ end_ <= tm_offset x - tm_blocksize x) /\
    forall k y, delete m mods !! k = Some y -> static_mod y -> tm_offset y <= start \/ end_ <= tm_offset y - tm_blocksize y).
  { destruct C as [C|(C1 & C2 & C3)]; [by left|right]. split; [done|]. split; [by apply (C3 m)|]. intros k y [_ Hy]%lookup_delete_Some. by apply (C3 k). }
  unfold reclaim in E. rewrite u64_small in E by lia. unfold NO_TLS_OFFSET in *. clear R C.
  assert (Hgo : forall u s e, 0 <= u < 2 ^ 64 -> (forall k y, delete m mods !! k = Some y -> static_mod y -> tm_offset y <= u) -> 0 < s < e /\ e <= u ->
    (forall k y, delete m mods !! k = Some y -> static_mod y -> tm_offset y <= s \/ e <= tm_offset y - tm_blocksize y) -> statics (delete m mods) u s e).
  { intros u s e Hu Hle Hse Hch. split; [|done|done|right; split; [lia|]; split; [lia|exact Hch]]. intros k y Hy Hsy. pose proof (R' k y Hy Hsy). pose proof (Hle k y Hy Hsy). lia. }
  assert (Hin : forall k y, delete m mods !! k = Some y -> static_mod y -> tm_offset y <= used) by (intros k y Hy Hsy; apply (R' k y Hy Hsy)).
  destruct (Z.eqb_spec start 0) as [E0|N0]; [|destruct (Z.eqb_spec (tm_offset x) start) as [E1|N1]]; cbn [orb] in E.
  - destruct Hold as [[_ ->]|Hold]; [|lia]. injection E as <- <- <-. apply Hgo; [done|exact Hin|lia|done].
  - destruct Hold as [[-> _]|(H1 & H2 & H3)]; [done|]. destruct (Z.eqb_spec end_ 0); [lia|]. injection E as <- <- <-.
    apply Hgo; [done|exact Hin|lia|]. intros k y Hy Hsy. pose proof (Hnew k y Hy Hsy). pose proof (H3 k y Hy Hsy). pose proof (R' k y Hy Hsy). pose proof (proj1 Hsy). lia.
  - destruct Hold as [[-> _]|(H1 & H2 & H3)]; [done|]. destruct (Z.eqb_spec (tm_offset x - tm_blocksize x) end_) as [E2|N2].
    { injection E as <- <- <-. apply Hgo; [done|exact Hin|lia|]. intros k y Hy Hsy.
      pose proof (Hnew k y Hy Hsy). pose proof (H3 k y Hy Hsy). pose proof (R' k y Hy Hsy). pose proof (proj1 Hsy). lia. }
    destruct (Z.eqb_spec end_ used) as [E3|N3].
    { injection E as <- <- <-. apply Hgo; [lia| |lia|done]. intros k y Hy Hsy. pose proof (H3 k y Hy Hsy). pose proof (R' k y Hy Hsy). pose proof (proj1 Hsy). lia. }
    destruct (Z.eqb_spec (tm_offset x) used) as [E4|N4].
    { injection E as <- <- <-. apply Hgo; [lia| |lia|done]. intros k y Hy Hsy. pose proof (Hnew k y Hy Hsy). pose proof (R' k y Hy Hsy). pose proof (proj1 Hsy). lia. }
    destruct (Z.ltb_spec end_ (tm_offset x)); injection E as <- <- <-.
    + apply Hgo; [done|exact Hin|lia|done].
    + apply Hgo; [done|exact Hin|lia|done].
Qed.

(** At the end the chunk is given back when it is the last part of the used memory. *)
Lemma statics_end mods used start end_ : statics mods used start end_ -> statics mods (if end_ =? used then start else used) NO_TLS_OFFSET NO_TLS_OFFSET.
Proof.
  intros [R A U C]. destruct (Z.eqb_spec end_ used) as [->|]; [|split; [done|done|done|by left]]. split; [|done| |by left].
  - intros m x Hx Hst. pose proof (R m x Hx Hst) as Hr. pose proof (proj1 Hst). destruct C as [[-> ->]|(C1 & C2 & C3)]; [lia|]. pose proof (C3 m x Hx Hst). lia.
  - destruct C as [[-> ->]|]; [done|lia].
Qed.

Section Unload.
Context (nsid : nat) (s1 : cstate) (ns : nsd).

(** The state after the objects [U] were unloaded. *)
Record unloading (U : list mapid) (s : cstate) : Prop := {
  un_maps : forall m, cs_maps s !! m = if bool_decide (m ∈ U) then None else cs_maps s1 !! m;
  un_ns : exists uq, cs_ns s = <[nsid := mkNsd (filter (fun m => m ∉ U) (nd_loaded ns)) (nd_nloaded ns - Z.of_nat (length U)) (nd_msl ns) uq]> (cs_ns s1);
  un_same : cs_nns s = cs_nns s1 /\ cs_pending s = cs_pending s1;
  un_log : cs_log s = cs_log s1 ++ (Unmap <$> U);
  un_first : forall m, cs_initfirst s = Some m -> cs_initfirst s1 = Some m /\ m ∉ U }.

Context (Hns : cs_ns s1 !! nsid = Some ns).

Lemma unload_start : unloading [] s1.
Proof using Hns.
  split; try done.
  - exists (nd_unique ns). rewrite filter_every by (intros; set_solver). rewrite Z.sub_0_r, list_insert_id; [done|]. rewrite Hns. by destruct ns.
  - by rewrite app_nil_r.
  - intros m Hm. split; [done|set_solver].
Qed.

Lemma filter_filter_ne (l : list mapid) U m : filter (fun m' => m' <> m) (filter (fun m' => m' ∉ U) l) = filter (fun m' => m' ∉ U ++ [m]) l.
Proof using. rewrite list_filter_filter. apply filter_ext_in. intros x _. clear. set_solver. Qed.

Lemma unlink_spec force m U s u t : unloading U s -> m ∉ U ->
  (nsid = 0%nat -> exists h, head (nd_loaded ns) = Some h /\ h ∉ m :: U) ->
  exists s', unlink nsid force m (set_static_used u (set_ctls t s)) = Ret tt s' /\ unloading (U ++ [m]) s' /\
    cs_tls s' = set_mods (delete m (ts_mods t)) t /\ cs_static_used s' = u /\ cs_maps s' = delete m (cs_maps s).
Proof using Hns.
  intros [F1 [uq F2] [F3 F3'] F4 F5] HU Hhead. unfold unlink.
  set (ns1 := mkNsd (filter (fun m => m ∉ U) (nd_loaded ns)) (nd_nloaded ns - Z.of_nat (length U)) (nd_msl ns) uq) in *.
  assert (Hlt : (nsid < length (cs_ns s1))%nat) by (by apply lookup_lt_Some in Hns).
  assert (Hg : cs_ns s !! nsid = Some ns1) by (rewrite F2; by apply list_lookup_insert_eq).
  rewrite (M_bind_step _ _ _ ns1 (set_static_used u (set_ctls t s))) by (unfold get_nsd; cbn; by rewrite Hg).
  rewrite (M_bind_step _ _ _ tt (add_log (Unmap m) (set_static_used u (set_ctls t s)))) by done.
  rewrite (M_bind_step _ _ _ tt (add_log (Unmap m) (set_static_used u (set_ctls t s)))).
  2:{ destruct (Nat.eqb_spec nsid 0) as [E|]; [|by rewrite orb_true_r]. destruct (Hhead E) as (h & Hh & Hne).
      rewrite bool_decide_eq_false_2; [done|]. cbn [ns1 nd_loaded]. destruct (nd_loaded ns) as [|h' r]; [done|]. injection Hh as ->.
      rewrite filter_cons, decide_True by set_solver. cbn. intros [= ->]. set_solver. }
  eexists. split; [reflexivity|]. cbn. split; [|done]. split; cbn.
  - intros m'. rewrite elem_snoc. destruct (decide (m' = m)) as [->|Hn]; [rewrite lookup_delete_eq, (bool_decide_eq_true_2 (m = m)), orb_true_r by done; done|].
    rewrite lookup_delete_ne, F1, (bool_decide_eq_false_2 (m' = m)), orb_false_r by done. done.
  - exists (if force then forget_unique m uq else uq). rewrite F2, list_insert_insert_eq. f_equal. unfold ns1. cbn. rewrite filter_filter_ne, length_app. cbn. f_equal. lia.
  - done.
  - rewrite F4, fmap_app, app_assoc. done.
  - intros m' Hm'. case_bool_decide as Ei; [done|]. destruct (F5 m' Hm') as [? ?]. split; [done|]. intros [?|H1]%elem_of_app; [done|].
    apply list_elem_of_singleton in H1. congruence.
Qed.

Lemma unload_spec force m c U s l : unloading U s -> m ∉ U -> cs_maps s1 !! m = Some l -> c_type l = lt_loaded ->
  (nsid = 0%nat -> exists h, head (nd_loaded ns) = Some h /\ h ∉ m :: U) -> tls_ok (cs_tls s) (c.2) (cs_maps s) ->
  exists c' s', unload nsid force m c s = Ret c' s' /\ unloading (U ++ [m]) s' /\ tls_ok (cs_tls s') (c'.2) (cs_maps s') /\ ts_gen (cs_tls s') = ts_gen (cs_tls s) /\
    (statics_at c s -> statics_at c' s').
Proof using Hns.
  intros F HU Hl Ht Hhead Htls.
  assert (Hl' : cs_maps s !! m = Some l) by (rewrite (un_maps _ _ F), bool_decide_eq_false_2; done).
  unfold unload. rewrite (M_bind_step _ _ _ _ _ (c_get_run _ _ _ Hl')). rewrite bool_decide_eq_true_2 by done.
  rewrite (M_bind_step _ _ _ tt s) by done. rewrite (M_bind_step _ _ _ (ts_mods (cs_tls s) !! m) s) by done.
  destruct (ts_mods (cs_tls s) !! m) as [x|] eqn:Hx.
  - destruct (close_tls_ok _ _ _ m l x (c_init_called l) Htls Hl' Ht Hx) as (Hb & t' & E & E1 & E2 & Htls'). rewrite (proj2 (Z.ltb_lt _ _) Hb).
    assert (Htail : exists c' u, (on_tls (close_tls m (c_init_called l));;
        (if is_static (tm_offset x) then
           used ← gets cs_static_used; let '(start, end_, _) := c in
           let '(used, start, end_) := reclaim (tm_offset x) (tm_blocksize x) (used, start, end_) in modify (set_static_used used);; mret (start, end_, true)
         else mret (c.1, true))) s = Ret c' (set_static_used u (set_ctls t' s)) /\ c'.2 = true /\
        (statics_at c s -> statics (delete m (ts_mods t')) u (c'.1.1) (c'.1.2))).
    { rewrite (M_bind_step _ _ _ tt (set_ctls t' s)) by (unfold on_tls; by rewrite E). destruct (is_static (tm_offset x)) eqn:Eis.
      - rewrite (M_bind_step _ _ _ (cs_static_used s) (set_ctls t' s)) by done. destruct c as [[st en] any].
        destruct (reclaim (tm_offset x) (tm_blocksize x) (cs_static_used s, st, en)) as [[u st'] en'] eqn:Er. exists (st', en', true), u. split; [done|]. split; [done|].
        intros Hst. rewrite E2. apply (reclaim_spec _ _ _ _ m x u st' en' Hst Hx); [by split|done].
      - exists (c.1, true), (cs_static_used s). split; [by destruct s|]. split; [done|]. intros Hst. rewrite E2. by apply statics_delete. }
    destruct Htail as (c' & u & Et & Ec & Hstat). rewrite (M_bind_step _ _ _ _ _ Et).
    destruct (unlink_spec force m U s u t' F HU Hhead) as (s' & Eu & F' & T1 & T2 & T3). rewrite (M_bind_step _ _ _ _ _ Eu).
    exists c', s'. split; [done|]. split; [done|]. unfold statics_at at 2. rewrite T1, T2, T3, Ec. split; [done|]. cbn. done.
  - rewrite (M_bind_step _ _ _ c s) by done.
    assert (Es : s = set_static_used (cs_static_used s) (set_ctls (cs_tls s) s)) by (by destruct s).
    destruct (unlink_spec force m U s (cs_static_used s) (cs_tls s) F HU Hhead) as (s' & Eu & F' & T1 & T2 & T3). rewrite <- Es in Eu.
    rewrite (M_bind_step _ _ _ _ _ Eu). exists c, s'. split; [done|]. split; [done|]. unfold statics_at at 2. rewrite T1, T2, T3. split; [by apply tls_ok_absent|].
    split; [done|]. by apply statics_delete.
Qed.

Definition lives (m : mapid) : bool := match cs_maps s1 !! m with Some l => c_used l | None => false end.

Lemma unload_loop_spec force maps : forall c U s, unloading U s -> NoDup (U ++ maps) ->
  (forall m, m ∈ maps -> exists l, cs_maps s1 !! m = Some l /\ (c_used l = false -> c_type l = lt_loaded)) ->
  (nsid = 0%nat -> exists h, head (nd_loaded ns) = Some h /\ lives h = true /\ h ∉ U) -> tls_ok (cs_tls s) (c.2) (cs_maps s) ->
  exists c' s', unload_loop nsid force maps c s = Ret c' s' /\ unloading (U ++ filter (fun m => lives m = false) maps) s' /\
    tls_ok (cs_tls s') (c'.2) (cs_maps s') /\ ts_gen (cs_tls s') = ts_gen (cs_tls s) /\ (statics_at c s -> statics_at c' s').
Proof using Hns.
  induction maps as [|m maps IH]; intros c U s F Hnd Hm Hh Ht; cbn [unload_loop].
  - exists c, s. split; [done|]. split; [by rewrite app_nil_r|done].
  - destruct (Hm m ltac:(by left)) as (l & Hl & Htype).
    assert (HU : m ∉ U). { apply NoDup_app in Hnd as (_ & Hni & _). intros Hin. apply (Hni m Hin). by left. }
    assert (Hl' : cs_maps s !! m = Some l) by (rewrite (un_maps _ _ F), bool_decide_eq_false_2; done).
    rewrite (M_bind_step _ _ _ _ _ (c_get_run _ _ _ Hl')).
    assert (El : lives m = c_used l) by (unfold lives; by rewrite Hl). rewrite filter_cons.
    assert (Hm' : forall m', m' ∈ maps -> exists l, cs_maps s1 !! m' = Some l /\ (c_used l = false -> c_type l = lt_loaded)) by (intros m' Hm'; apply Hm; by right).
    destruct (c_used l) eqn:Eu.
    + rewrite (M_bind_step _ _ _ c s) by done. rewrite decide_False by congruence. apply IH; [done| |done|done|done].
      apply NoDup_app in Hnd as (N1 & N2 & [_ N3]%NoDup_cons). apply NoDup_app. split; [done|]. split; [|done]. intros y Hy Hy'. apply (N2 y Hy). by right.
    + rewrite decide_True by done.
      destruct (unload_spec force m c U s l F HU Hl (Htype eq_refl)) as (c1 & s2 & E1 & F1 & T1 & G1 & S1); [|done|].
      { intros E. destruct (Hh E) as (h & Hh1 & Hh2 & Hh3). exists h. split; [done|]. intros [->|?]%elem_of_cons; [congruence|done]. }
      rewrite (M_bind_step _ _ _ _ _ E1). destruct (IH c1 (U ++ [m]) s2 F1) as (c2 & s3 & E2 & F2 & T2 & G2 & S2); [by rewrite <- app_assoc|done| |done|].
      { intros E. destruct (Hh E) as (h & Hh1 & Hh2 & Hh3). exists h. split; [done|]. split; [done|]. intros [?|H1]%elem_of_app; [done|].
        apply list_elem_of_singleton in H1. congruence. }
      exists c2, s3. rewrite E2. split; [done|]. rewrite <- app_assoc in F2. split; [done|]. split; [done|]. split; [congruence|auto].
Qed.
End Unload.
