(* ===== verification/CloseSettle.v ===== *)
(** * Closing objects: what a round leaves

    A namespace in order, the uses that destructors will give back, and the proof that a namespace is in
    order again after a round; [CloseSafety] puts the parts of a round together. *)

From S2P Require Import Prelude LinkMap SortMaps TlsOffset LoadCmds DynTls TlsSlots DynTlsSpec DynTlsThread DynTlsLoader DynTlsMachine.
From S2P Require Import Close CloseMark CloseRound CloseFinish CloseUnload.

Lemma uses_mono (ms' : gmap mapid cmap) : forall ms, (forall m l, ms' !! m = Some l -> exists l0, ms !! m = Some l0 /\ c_open l0 = c_open l) ->
  (uses ms' <= uses ms)%nat.
Proof.
  induction ms' as [|m l ms' Hm IH] using map_ind; intros ms Hsub.
  - unfold uses at 1. rewrite map_fold_empty. lia.
  - destruct (Hsub m l) as (l0 & Hl & Ho); [apply lookup_insert_eq|].
    rewrite (uses_delete ms m l0 Hl), (uses_delete (<[m:=l]> ms') m l) by apply lookup_insert_eq. rewrite delete_insert_id by done.
    assert (uses ms' <= uses (delete m ms))%nat; [|lia]. apply IH. intros k lk Hk. assert (k <> m) by congruence.
    rewrite lookup_delete_ne by done. apply Hsub. by rewrite lookup_insert_ne.
Qed.

(** ** Handles that destructors will close *)
Section Safety.
Context (closes : mapid -> list mapid).

Definition inits (ms : gmap mapid cmap) (m : mapid) : bool := match ms !! m with Some l => c_init_called l | None => false end.
Definition owed (ms : gmap mapid cmap) (loaded : list mapid) : list mapid := concat (closes <$> filter (fun m => inits ms m = true) loaded).

Lemma times_concat_perm d (l l' : list mapid) : l ≡ₚ l' -> times d (concat (closes <$> l)) = times d (concat (closes <$> l')).
Proof. induction 1; cbn [fmap list_fmap concat]; rewrite ?times_app; try lia. Qed.

Lemma times_split d (P Q R : mapid -> Prop) `{!forall x, Decision (P x), !forall x, Decision (Q x), !forall x, Decision (R x)} (l : list mapid) :
  (forall m, m ∈ l -> (P m <-> Q m \/ R m) /\ ~ (Q m /\ R m)) ->
  times d (concat (closes <$> filter P l)) = times d (concat (closes <$> filter Q l)) + times d (concat (closes <$> filter R l)).
Proof.
  induction l as [|m l IH]; intros Hs; [done|]. rewrite !filter_cons. destruct (Hs m ltac:(by left)) as [K1 K2].
  specialize (IH (fun m' Hm' => Hs m' ltac:(by right))).
  destruct (decide (P m)), (decide (Q m)), (decide (R m)); cbn [fmap list_fmap concat]; rewrite ?times_app; try lia; tauto.
Qed.

(** ** Loaders in order *)
Definition permanent (ms : gmap mapid cmap) (t : mapid) : Prop := exists l, ms !! t = Some l /\ c_type l <> lt_loaded.

Record obj_wf (ms : gmap mapid cmap) (loaded : list mapid) (l : cmap) : Prop := {
  ow_removed : c_removed l = false;
  ow_scope : forall t, SearchOf t ∈ sc_list (c_scope l) -> t ∈ loaded /\ (c_type l <> lt_loaded -> permanent ms t);
  ow_loader : forall t, sc_loader (c_scope l) = Some t -> t ∈ loaded /\ (c_type l <> lt_loaded -> permanent ms t);
  ow_size : Z.of_nat (length (sc_list (c_scope l))) < sc_max (c_scope l);
  ow_copy : forall i, ci_initfini (c_id l) = Some i -> (length i <= length (ci_copy (c_id l)))%nat }.

(** A namespace in order: the objects are listed once, refer to listed objects only, the global scope is a part of the
    list, every handle a destructor will close is open, and so on. *)
Record wf (nsid : nat) (s : cstate) (ns : nsd) : Prop := {
  wf_ns : cs_ns s !! nsid = Some ns;
  wf_graph : graph_ok nsid (cs_maps s) (nd_loaded ns);
  wf_count : nd_nloaded ns = Z.of_nat (length (nd_loaded ns));
  wf_len : Z.of_nat (length (nd_loaded ns)) < 2 ^ 15;
  wf_main : nsid = 0%nat -> exists h, head (nd_loaded ns) = Some h /\ permanent (cs_maps s) h;
  wf_obj : forall m l, m ∈ nd_loaded ns -> cs_maps s !! m = Some l -> obj_wf (cs_maps s) (nd_loaded ns) l;
  wf_msl : NoDup (nd_msl ns) /\ forall m, m ∈ nd_msl ns -> m ∈ nd_loaded ns /\ forall l, cs_maps s !! m = Some l -> c_type l = lt_loaded -> ci_global (c_id l) = true;
  wf_opens : opens_ok s;
  wf_credit : forall d, 0 < times d (owed (cs_maps s) (nd_loaded ns)) -> d ∈ nd_loaded ns /\
    forall l, cs_maps s !! d = Some l -> times d (owed (cs_maps s) (nd_loaded ns)) <= c_open l;
  wf_tls : tls_ok (cs_tls s) false (cs_maps s);
  wf_static : statics (ts_mods (cs_tls s)) (cs_static_used s) NO_TLS_OFFSET NO_TLS_OFFSET;
  wf_nns : (forall i x, cs_ns s !! i = Some x -> nd_loaded x <> [] -> Z.of_nat i < cs_nns s) /\ 1 <= cs_nns s <= Z.of_nat (length (cs_ns s)) /\
    (nsid <> 0%nat -> exists ns0, cs_ns s !! 0%nat = Some ns0 /\ nd_loaded ns0 <> []) }.

(** What one round does. *)
Record rounded (s : cstate) (ns : nsd) (s' : cstate) (ns' : nsd) : Prop := {
  ro_loaded : forall m, m ∈ nd_loaded ns' <-> m ∈ nd_loaded ns /\ needed (cs_maps s) (nd_loaded ns) m;
  ro_obj : forall m l', m ∈ nd_loaded ns' -> cs_maps s' !! m = Some l' -> exists l, cs_maps s !! m = Some l /\ c_id l' = c_id l /\ c_open l' <= c_open l /\
    c_open l - times m (owed (cs_maps s) (nd_loaded ns)) <= c_open l' - times m (owed (cs_maps s') (nd_loaded ns')) /\
    (cs_pending s' = pending -> is_root l' = is_root l);
  ro_init : forall m, m ∈ nd_loaded ns' -> inits (cs_maps s') m = inits (cs_maps s) m;
  ro_pend : cs_pending s' <> not_pending;
  ro_uses : (uses (cs_maps s') <= uses (cs_maps s))%nat;
  ro_rerun : cs_pending s' = rerun -> (uses (cs_maps s') < uses (cs_maps s))%nat /\ nd_loaded ns' <> [];
  ro_gen : ts_gen (cs_tls s') <= ts_gen (cs_tls s) + 1 }.

Lemma filter_complement (l U : list mapid) : NoDup l -> NoDup U -> (forall m, m ∈ U -> m ∈ l) ->
  Z.of_nat (length (filter (fun m => m ∉ U) l)) = Z.of_nat (length l) - Z.of_nat (length U).
Proof.
  intros Hl HU Hin. assert (Hp : l ≡ₚ filter (fun m => m ∉ U) l ++ U).
  { apply NoDup_Permutation; [done| |].
    - apply NoDup_app. split; [by apply NoDup_filter|]. split; [|done]. intros x Hx%list_elem_of_filter. tauto.
    - intros x. rewrite elem_of_app, list_elem_of_filter. destruct (decide (x ∈ U)); naive_solver. }
  apply Permutation_length in Hp. rewrite length_app in Hp. lia.
Qed.

Section Settle.
Context (nsid : nat) (s : cstate) (ns : nsd) (W : wf nsid s ns).
Context (ms1 : gmap mapid cmap) (maps : list mapid) (Hperm : maps ≡ₚ nd_loaded ns).
Context (Hrem : remarked (cs_maps s) ms1) (Hmk : marked (cs_maps s) (nd_loaded ns) ms1).
Let s1 := set_cmaps ms1 (set_pending pending s).
Context (s2 : cstate) (F : finishing closes s1 maps s2).
Context (s' : cstate) (ns' : nsd) (U : list mapid).
Context (HU : NoDup U /\ forall m, m ∈ U <-> m ∈ nd_loaded ns /\ ~ needed (cs_maps s) (nd_loaded ns) m).
Context (Hmaps : forall m, cs_maps s' !! m = if bool_decide (m ∈ U) then None else cs_maps s2 !! m).
Context (Hns' : cs_ns s' !! nsid = Some ns') (Hl' : nd_loaded ns' = filter (fun m => m ∉ U) (nd_loaded ns)).
Context (Hn' : nd_nloaded ns' = nd_nloaded ns - Z.of_nat (length U)).
Context (Hmsl : nd_msl ns' = filter (fun m => gone (cs_maps s2) m = false) (nd_msl ns)).
Context (Hpend : cs_pending s' = cs_pending s2) (Htls : tls_ok (cs_tls s') false (cs_maps s')).

(** An object of the list before: it is used exactly when it is needed. *)
Lemma before m : m ∈ nd_loaded ns -> exists l l1 l2, cs_maps s !! m = Some l /\ ms1 !! m = Some l1 /\ cs_maps s2 !! m = Some l2 /\
  same_marks l l1 /\ fobj closes s1 maps (cs_pending s2) m l1 l2 /\ (c_used l1 = true <-> needed (cs_maps s) (nd_loaded ns) m) /\
  (still ms1 (SearchOf m) = true <-> c_used l1 = true).
Proof using W Hrem Hmk F.
  intros Hm. destruct (go_obj _ _ _ (wf_graph _ _ _ W) m Hm) as (l & Hl & _). destruct (remarked_lookup _ _ _ _ Hrem Hl) as (l1 & Hl1 & Hs).
  destruct (fs_obj _ _ _ _ F m l1 Hl1) as (l2 & Hl2 & O). destruct (Hmk m l1 Hm Hl1) as [K1 K2].
  exists l, l1, l2. split; [done|]. split; [done|]. split; [done|]. split; [done|]. split; [done|]. split; [done|]. cbn. rewrite Hl1, Z.eqb_eq. done.
Qed.

Lemma stays m : m ∈ nd_loaded ns' <-> m ∈ nd_loaded ns /\ needed (cs_maps s) (nd_loaded ns) m.
Proof using W Hrem Hmk F HU Hl'.
  rewrite Hl', list_elem_of_filter. destruct HU as [_ HU']. rewrite HU'. split; [|tauto]. intros [Hno Hm]. split; [done|].
  destruct (before m Hm) as (l & l1 & l2 & _ & _ & _ & _ & _ & Hu & _). rewrite <- Hu. destruct (c_used l1) eqn:E; [done|].
  exfalso. apply Hno. split; [done|]. rewrite <- Hu. done.
Qed.

Lemma kept m : m ∈ nd_loaded ns' -> exists l l1 l2, cs_maps s !! m = Some l /\ ms1 !! m = Some l1 /\ cs_maps s' !! m = Some l2 /\
  same_marks l l1 /\ fobj closes s1 maps (cs_pending s2) m l1 l2 /\ c_used l1 = true /\ m ∉ U.
Proof using W Hrem Hmk F HU Hl' Hmaps.
  intros Hm. pose proof Hm as [Hm1 Hn]%stays. destruct (before m Hm1) as (l & l1 & l2 & Hl & Hl1 & Hl2 & Hs & O & Hu & _).
  assert (HnU : m ∉ U) by (destruct HU as [_ HU']; rewrite HU'; tauto).
  exists l, l1, l2. rewrite Hmaps, bool_decide_eq_false_2 by done. split_and!; try done. by apply Hu.
Qed.

Lemma kept_id m l' : m ∈ nd_loaded ns' -> cs_maps s' !! m = Some l' -> exists l, cs_maps s !! m = Some l /\ c_id l' = c_id l.
Proof using W Hrem Hmk F HU Hl' Hmaps.
  intros Hm Hl2. destruct (kept m Hm) as (l & l1 & l2 & Hl & Hl1 & Hl2' & Hs & O & _). exists l. split; [done|].
  assert (l' = l2) as -> by congruence. rewrite (fo_id _ _ _ _ _ _ _ O). by rewrite Hs.
Qed.

Lemma permanent_needed t : t ∈ nd_loaded ns -> permanent (cs_maps s) t -> needed (cs_maps s) (nd_loaded ns) t.
Proof using. intros Ht (l & Hl & Hp). apply (needed_root _ _ t l Ht Hl). unfold is_root. by rewrite bool_decide_eq_false_2. Qed.
Lemma permanent_kept t : t ∈ nd_loaded ns -> permanent (cs_maps s) t -> t ∈ nd_loaded ns' /\ permanent (cs_maps s') t.
Proof using W Hrem Hmk F HU Hl' Hmaps.
  intros Ht Hp. assert (Ht' : t ∈ nd_loaded ns') by (apply stays; split; [done|by apply permanent_needed]). split; [done|].
  destruct (kept t Ht') as (l & l1 & l2 & Hl & _ & Hl2 & _). destruct (kept_id t l2 Ht' Hl2) as (l3 & Hl3 & E). destruct Hp as (l4 & Hl4 & Hp).
  exists l2. split; [done|]. unfold c_type. rewrite E. assert (l3 = l4) as -> by congruence. done.
Qed.

Lemma kept_init m : m ∈ nd_loaded ns' -> inits (cs_maps s') m = inits (cs_maps s) m.
Proof using W Hrem Hmk F HU Hl' Hmaps.
  intros Hm. destruct (kept m Hm) as (l & l1 & l2 & Hl & Hl1 & Hl2 & Hs & O & Hu & _). unfold inits.
  rewrite Hl, Hl2, (fo_init _ _ _ _ _ _ _ O), Hu, andb_false_r, andb_true_r. by rewrite Hs.
Qed.

(** Handles: what is still owed is what was owed less what was closed. *)
Lemma owed_split d : times d (owed (cs_maps s) (nd_loaded ns)) = times d (handles closes s1 maps) + times d (owed (cs_maps s') (nd_loaded ns')).
Proof using W Hperm Hrem Hmk F HU Hl' Hmaps.
  unfold owed, handles. rewrite Hl', list_filter_filter.
  rewrite (times_concat_perm d (filter (fun m => finalized s1 m = true) maps) (filter (fun m => finalized s1 m = true) (nd_loaded ns))) by (by rewrite Hperm).
  apply times_split. intros m Hm. destruct (before m Hm) as (l & l1 & l2 & Hl & Hl1 & Hl2 & Hs & O & Hu & _). destruct HU as [_ HU'].
  assert (E0 : inits (cs_maps s) m = c_init_called l1) by (unfold inits; rewrite Hl; by rewrite Hs).
  assert (E1 : finalized s1 m = negb (c_used l1) && c_init_called l1) by (unfold finalized; cbn; by rewrite Hl1). rewrite E0, E1.
  destruct (decide (m ∈ U)) as [Hin|Hno].
  - pose proof Hin as [_ Hnn]%HU'. assert (c_used l1 = false) as -> by (destruct (c_used l1); [exfalso; tauto|done]). cbn. tauto.
  - assert (Hused : c_used l1 = true) by (destruct (c_used l1) eqn:E; [done|exfalso; apply Hno; rewrite HU'; split; [done|]; rewrite <- Hu; done]).
    assert (E2 : inits (cs_maps s') m = c_init_called l1) by (rewrite <- E0; apply kept_init, stays; split; [done|by apply Hu]).
    rewrite E2, Hused. cbn. split; [|by intros [? _]]. split; [intros ?; by right|]. by intros [?|[? _]].
Qed.

Lemma settle_graph : graph_ok nsid (cs_maps s') (nd_loaded ns').
Proof using W Hrem Hmk F HU Hl' Hmaps.
  pose proof (wf_graph _ _ _ W) as G. split.
  - rewrite Hl'. apply NoDup_filter, G.
  - intros m Hm. destruct (kept m Hm) as (_ & _ & l' & _ & _ & Hm' & _). destruct (kept_id m l' Hm Hm') as (l & Hl & E).
    exists l'. split; [done|]. apply stays in Hm as [Hm _]. destruct (go_obj _ _ _ G m Hm) as (l0 & Hl0 & [A B C]). assert (l0 = l) as -> by congruence.
    split; by rewrite E.
  - intros m Hm. destruct (kept m Hm) as (_ & _ & l' & _ & _ & Hm' & _). destruct (kept_id m l' Hm Hm') as (l & Hl & E).
    apply stays in Hm as [Hm Hn]. destruct (go_deps _ _ _ G m Hm) as (l0 & ds & Hl0 & Hds & Hin). assert (l0 = l) as -> by congruence.
    exists l', ds. split; [done|]. split; [unfold deps_of; by rewrite E|]. intros d Hd. apply stays. split; [by apply Hin|].
    apply (needed_dep _ _ m d Hn). by exists l, ds.
Qed.

Lemma still_stays t : t ∈ nd_loaded ns -> still ms1 (SearchOf t) = true -> t ∈ nd_loaded ns'.
Proof using W Hrem Hmk F HU Hl'.
  intros Ht Hs. destruct (before t Ht) as (l & l1 & l2 & _ & _ & _ & _ & _ & Hu & Hst). apply stays. split; [done|]. by apply Hu, Hst.
Qed.

Lemma settle_obj m l' : m ∈ nd_loaded ns' -> cs_maps s' !! m = Some l' -> obj_wf (cs_maps s') (nd_loaded ns') l'.
Proof using W Hrem Hmk F HU Hl' Hmaps Hperm.
  intros Hm Hm'. destruct (kept m Hm) as (l & l1 & l2 & Hl & Hl1 & Hl2 & Hs & [A1 A2 A3 A4 A5 A6 A7] & Hu & _). assert (l2 = l') as -> by congruence.
  pose proof Hm as [Hm0 _]%stays. destruct (wf_obj _ _ _ W m l Hm0 Hl) as [O1 O2 O3 O4 O5].
  assert (Esc : c_scope l1 = c_scope l) by (by rewrite Hs). assert (Eid : c_id l' = c_id l) by (rewrite A1; by rewrite Hs).
  assert (c_type l1 = c_type l /\ c_type l' = c_type l) as [Ety Ety'] by (unfold c_type; rewrite Eid; by rewrite Hs).
  assert (Ein : bool_decide (m ∈ maps) = true) by (apply bool_decide_eq_true_2; by rewrite Hperm). rewrite Ein, Hu, Ety, Esc in A7. cbn [andb] in A7.
  assert (Hr : c_removed l' = false) by (rewrite A5, Hu, andb_false_r, orb_false_r; by rewrite Hs).
  destruct (bool_decide (c_type l = lt_loaded)) eqn:Et; [apply bool_decide_eq_true in Et|apply bool_decide_eq_false in Et].
  - destruct A7 as [S1 S2 S3]. split; rewrite ?Eid; try done.
    + intros t Ht. split; [|by rewrite Ety']. destruct (S1 _ Ht) as [[H1 H2]|[= ->]]; [|done]. apply still_stays; [by apply O2|done].
    + intros t Ht. split; [|by rewrite Ety']. destruct (S2 _ Ht) as [H1 H2]. apply still_stays; [by apply O3|done].
  - split; rewrite ?Eid, ?A7, ?Ety'; try done.
    + intros t Ht. destruct (O2 t Ht) as [H1 H2]. destruct (permanent_kept t H1 (H2 Et)). done.
    + intros t Ht. destruct (O3 t Ht) as [H1 H2]. destruct (permanent_kept t H1 (H2 Et)). done.
Qed.

Lemma settle_msl : NoDup (nd_msl ns') /\ forall m, m ∈ nd_msl ns' -> m ∈ nd_loaded ns' /\ forall l, cs_maps s' !! m = Some l -> c_type l = lt_loaded -> ci_global (c_id l) = true.
Proof using W Hrem Hmk F HU Hl' Hmaps Hperm Hmsl.
  destruct (wf_msl _ _ _ W) as [Hnd Hin]. rewrite Hmsl. split; [by apply NoDup_filter|]. intros m [Hg Hm]%list_elem_of_filter. destruct (Hin m Hm) as [Hm0 Hgl].
  destruct (before m Hm0) as (l & l1 & l2 & Hl & Hl1 & Hl2 & Hs & O & Hu & _).
  assert (Hst : m ∈ nd_loaded ns').
  { apply stays. split; [done|]. apply Hu. unfold gone in Hg. rewrite Hl2, (fo_removed _ _ _ _ _ _ _ O) in Hg. apply orb_false_iff in Hg as [_ Hg].
    rewrite bool_decide_eq_true_2 in Hg by (by rewrite Hperm). by apply negb_false_iff in Hg. }
  split; [done|]. intros l' Hl3 Ht. destruct (kept_id m l' Hst Hl3) as (l0 & Hl0 & E). rewrite E. apply (Hgl l0 Hl0). unfold c_type. by rewrite <- E.
Qed.

Lemma opens_before : opens_ok s1.
Proof using W Hrem.
  intros m l1 Hl1. destruct (remarked_lookup' _ _ _ _ Hrem Hl1) as (l & Hl & ->). by apply (wf_opens _ _ _ W m l).
Qed.

(** An object with more uses than the destructors that run will give back stays. *)
Lemma credit_kept d : 0 < times d (owed (cs_maps s) (nd_loaded ns)) -> d ∈ nd_loaded ns'.
Proof using W Hrem Hmk F HU Hl'.
  intros Hd. destruct (wf_credit _ _ _ W d Hd) as [Hin Hle]. destruct (before d Hin) as (l & _ & _ & Hl & _). apply stays. split; [done|].
  apply (needed_root _ _ d l Hin Hl). specialize (Hle l Hl). unfold is_root. rewrite (proj2 (Z.eqb_neq (c_open l) 0)) by lia. by rewrite andb_false_r.
Qed.

Lemma settle_opens m l' : m ∈ nd_loaded ns' -> cs_maps s' !! m = Some l' -> exists l, cs_maps s !! m = Some l /\ 0 <= c_open l' <= c_open l /\
  c_open l <= c_open l' + times m (handles closes s1 maps) /\ (cs_pending s' = pending -> is_root l' = is_root l).
Proof using W Hrem Hmk F HU Hl' Hmaps Hpend.
  intros Hm Hm'. destruct (kept m Hm) as (l & l1 & l2 & Hl & Hl1 & Hl2 & Hs & O & _). assert (l2 = l') as -> by congruence.
  assert (c_open l1 = c_open l /\ is_root l1 = is_root l) as [E E'] by (by rewrite Hs). exists l. split; [done|].
  pose proof (fo_open _ _ _ _ _ _ _ O). rewrite E in *. split; [lia|]. split; [lia|]. rewrite Hpend, <- E'. apply (fo_root _ _ _ _ _ _ _ O).
Qed.

Lemma settle_rounded : ts_gen (cs_tls s') <= ts_gen (cs_tls s) + 1 -> rounded s ns s' ns'.
Proof using W Hrem Hmk F HU Hl' Hmaps Hperm Hpend.
  intros Hgen.
  assert (Hu1 : (uses (cs_maps s') <= uses (cs_maps s2))%nat) by (apply uses_mono; intros m l Hm; rewrite Hmaps in Hm; case_bool_decide; [done|eauto]).
  assert (Hu2 : (uses (cs_maps s1) <= uses (cs_maps s))%nat)
    by (apply uses_mono; intros m l1 Hm; destruct (remarked_lookup' _ _ _ _ Hrem Hm) as (l & Hl & ->); eauto).
  split; [apply stays| |apply kept_init| |pose proof (fs_uses _ _ _ _ F); lia| |done].
  - intros m l' Hm Hm'. destruct (settle_opens m l' Hm Hm') as (l & Hl & Ho & Hge & Hr). exists l. split; [done|].
    destruct (kept_id m l' Hm Hm') as (l0 & Hl0 & E). assert (l0 = l) as -> by congruence. split; [done|]. split; [lia|].
    split; [|done]. rewrite (owed_split m). lia.
  - rewrite Hpend. apply (fs_pend _ _ _ _ F).
  - rewrite Hpend. intros Hr. pose proof (fs_rerun _ _ _ _ F Hr). split; [lia|].
    destruct (fs_live _ _ _ _ F Hr) as (d & ld & Hd & _). intros En. apply (not_elem_of_nil d). rewrite <- En.
    apply credit_kept. rewrite (owed_split d). pose proof (times_nonneg d (owed (cs_maps s') (nd_loaded ns'))).
    assert (0 < times d (handles closes s1 maps)); [|lia]. unfold times.
    assert (Hf : d ∈ filter (fun x => x = d) (handles closes s1 maps)) by (by apply list_elem_of_filter).
    destruct (filter (fun x => x = d) (handles closes s1 maps)); [by apply elem_of_nil in Hf|cbn; lia].
Qed.

Context (Hstat : statics (ts_mods (cs_tls s')) (cs_static_used s') NO_TLS_OFFSET NO_TLS_OFFSET).
Context (Hnns : (forall i x, cs_ns s' !! i = Some x -> nd_loaded x <> [] -> Z.of_nat i < cs_nns s') /\ 1 <= cs_nns s' <= Z.of_nat (length (cs_ns s')) /\
    (nsid <> 0%nat -> exists ns0, cs_ns s' !! 0%nat = Some ns0 /\ nd_loaded ns0 <> [])).

Lemma settle_wf : wf nsid s' ns'.
Proof using W Hrem Hmk F HU Hl' Hmaps Hperm Hmsl Hns' Hn' Htls Hstat Hnns Hpend.
  pose proof (go_nodup _ _ _ (wf_graph _ _ _ W)) as Hnd. destruct HU as [HU1 HU2].
  assert (Hlen : Z.of_nat (length (nd_loaded ns')) = Z.of_nat (length (nd_loaded ns)) - Z.of_nat (length U))
    by (rewrite Hl'; apply filter_complement; [done|done|]; intros m Hm; by apply HU2).
  split; try done.
  - apply settle_graph.
  - rewrite Hn', Hlen, (wf_count _ _ _ W). done.
  - pose proof (wf_len _ _ _ W). lia.
  - intros E. destruct (wf_main _ _ _ W E) as (h & Hh & Hp). exists h. assert (Hin : h ∈ nd_loaded ns) by (destruct (nd_loaded ns); [done|injection Hh as ->; by left]).
    destruct (permanent_kept h Hin Hp) as [K1 K2]. split; [|done]. rewrite Hl' in K1 |- *. apply list_elem_of_filter in K1 as [K1 _].
    destruct (nd_loaded ns) as [|h' r]; [done|]. injection Hh as ->. by rewrite filter_cons, decide_True.
  - apply settle_obj.
  - apply settle_msl.
  - intros m l' Hm'. rewrite Hmaps in Hm'. case_bool_decide; [done|]. exact (finishing_opens _ _ _ _ opens_before F m l' Hm').
  - intros d Hd. pose proof (owed_split d) as Ho. pose proof (times_nonneg d (handles closes s1 maps)).
    assert (Hk : d ∈ nd_loaded ns') by (apply credit_kept; lia). split; [done|]. intros l' Hm'.
    destruct (settle_opens d l' Hk Hm') as (l & Hl & _ & Hge & _). destruct (wf_credit _ _ _ W d ltac:(lia)) as [_ Hc]. specialize (Hc l Hl). lia.
Qed.
End Settle.
End Safety.
