(* ===== verification/CloseWorker.v ===== *)
(** * Closing objects: the parts of a round

    Pruning, unmapping, the generation of TLS and the number of namespaces put together: a round on a namespace in order leaves one in
    order and logs the destructors and unmappings in the sorted order. *)

From S2P Require Import Prelude LinkMap SortMaps TlsOffset LoadCmds DynTls TlsSlots DynTlsSpec DynTlsThread DynTlsLoader DynTlsMachine.
From S2P Require Import Close CloseMark CloseRound CloseFinish CloseUnload CloseSettle.

(** ** Namespaces that are empty *)
Lemma drop_namespaces_spec fuel : forall s ns0, cs_ns s !! 0%nat = Some ns0 -> nd_loaded ns0 <> [] -> 2 <= cs_nns s <= Z.of_nat (length (cs_ns s)) ->
  (Z.to_nat (cs_nns s) <= fuel)%nat -> (forall x, cs_ns s !! Z.to_nat (cs_nns s - 1) = Some x -> nd_loaded x = []) ->
  (forall i x, cs_ns s !! i = Some x -> nd_loaded x <> [] -> Z.of_nat i < cs_nns s) ->
  exists n, drop_namespaces fuel s = Ret tt (set_nns n s) /\ 1 <= n <= cs_nns s /\
    forall i x, cs_ns s !! i = Some x -> nd_loaded x <> [] -> Z.of_nat i < n.
Proof.
  induction fuel as [|fuel IH]; intros s ns0 H0 Hne Hn Hf Hlast Hin; [lia|]. cbn [drop_namespaces].
  set (s1 := set_nns (cs_nns s - 1) s). rewrite (M_bind_step _ _ _ tt s1) by done. rewrite (M_bind_step _ _ _ (cs_nns s - 1) s1) by done.
  destruct (lookup_lt_is_Some_2 (cs_ns s) (Z.to_nat (cs_nns s - 1 - 1)) ltac:(lia)) as [x Hx].
  rewrite (proj2 (Z.ltb_ge _ _)) by lia. rewrite (M_bind_step _ _ _ x s1) by (unfold get_nsd; cbn; by rewrite Hx).
  assert (Hin1 : forall i y, cs_ns s !! i = Some y -> nd_loaded y <> [] -> Z.of_nat i < cs_nns s - 1).
  { intros i y Hy Hyn. pose proof (Hin i y Hy Hyn). destruct (decide (Z.of_nat i = cs_nns s - 1)) as [E|]; [|lia].
    exfalso. apply Hyn, Hlast. rewrite <- Hy. f_equal. lia. }
  destruct (nd_loaded x) as [|m r] eqn:Ex.
  - assert (2 <= cs_nns s - 1).
    { destruct (decide (cs_nns s - 1 = 1)) as [E|]; [|lia]. exfalso. rewrite E in Hx. change (Z.to_nat (1 - 1)) with 0%nat in Hx. congruence. }
    destruct (IH s1 ns0 H0 Hne) as (n & E & Hn' & Hall); cbn; [lia|lia|intros y Hy; congruence|done|].
    exists n. rewrite E. split; [done|]. cbn in Hn'. split; [lia|done].
  - exists (cs_nns s - 1). split; [done|]. split; [lia|done].
Qed.

Lemma tls_ok_ms t d (ms ms' : gmap mapid cmap) : (forall m l', ms' !! m = Some l' -> exists l, ms !! m = Some l /\ c_type l = c_type l') ->
  tls_ok t d ms -> tls_ok t d ms'.
Proof.
  intros H [I T G]. split; [done| |done]. intros m l' x Hl' Ht Hx. destruct (H m l' Hl') as (l & Hl & E). apply (T m l x); [done|congruence|done].
Qed.

Lemma bump_returns w t d ms : tls_ok t d ms -> ts_gen t + 2 < 2 ^ 64 ->
  exists t', bump_generation w t = Ret (ts_gen t + 1) t' /\ ts_gen t' = ts_gen t + 1 /\ tls_ok t' false ms /\ ts_mods t' = ts_mods t.
Proof.
  intros [I T G] Hg. pose proof (iv_gen _ _ I). exists (set_generation (ts_gen t + 1) t).
  assert (E : bump_generation w t = Ret (ts_gen t + 1) (set_generation (ts_gen t + 1) t)).
  { unfold bump_generation. rewrite (M_bind_step _ _ _ (ts_gen t) t) by done. rewrite u64_small by lia. by rewrite (proj2 (Z.eqb_neq _ _)) by lia. }
  split; [done|]. split; [done|]. split; [|done]. split; [exact (inv_bump t (mkPhase true d Mapping []) w _ _ I E)|done|cbn; lia].
Qed.

(** The generation changes when an object with TLS went. *)
Lemma bump_part (st en : Z) (any : bool) s : tls_ok (cs_tls s) any (cs_maps s) -> ts_gen (cs_tls s) + 2 < 2 ^ 64 ->
  exists u t, (if any then on_tls (bump_generation "TLS generation counter wrapped!  Please report as described in ");;
                 modify (fun s => if en =? cs_static_used s then set_static_used st s else s)
               else mret tt) s = Ret tt (set_static_used u (set_ctls t s)) /\
    tls_ok t false (cs_maps s) /\ ts_gen t <= ts_gen (cs_tls s) + 1 /\
    (statics_at (st, en, any) s -> statics (ts_mods t) u NO_TLS_OFFSET NO_TLS_OFFSET).
Proof.
  intros Ht Hg. destruct any.
  - destruct (bump_returns "TLS generation counter wrapped!  Please report as described in " _ _ _ Ht Hg) as (t & E & Eg & Ht' & Em).
    rewrite (M_bind_step _ _ _ (ts_gen (cs_tls s) + 1) (set_ctls t s)) by (unfold on_tls; by rewrite E).
    exists (if en =? cs_static_used s then st else cs_static_used s), t. split; [|split; [done|split; [lia|rewrite Em; apply statics_end]]].
    unfold modify. cbn. by destruct (en =? cs_static_used s).
  - exists (cs_static_used s), (cs_tls s). split; [by destruct s|]. split; [done|]. split; [lia|]. intros [R A U _]. split; [done|done|done|by left].
Qed.

Definition nns_ok (nsid : nat) (s : cstate) : Prop :=
  (forall i x, cs_ns s !! i = Some x -> nd_loaded x <> [] -> Z.of_nat i < cs_nns s) /\ 1 <= cs_nns s <= Z.of_nat (length (cs_ns s)) /\
  (nsid <> 0%nat -> exists ns0, cs_ns s !! 0%nat = Some ns0 /\ nd_loaded ns0 <> []).

Lemma namespaces_part nsid ns s : cs_ns s !! nsid = Some ns -> nns_ok nsid s -> (nsid = 0%nat -> nd_loaded ns <> []) ->
  exists n, (ns ← get_nsd nsid; n ← gets cs_nns;
             if bool_decide (nd_loaded ns = []) && (Z.of_nat nsid =? n - 1) then drop_namespaces (Z.to_nat n) else mret tt) s = Ret tt (set_nns n s) /\
    nns_ok nsid (set_nns n s).
Proof.
  intros Hns (H1 & H2 & H3) H0. rewrite (M_bind_step _ _ _ ns s) by (unfold get_nsd; by rewrite Hns). rewrite (M_bind_step _ _ _ (cs_nns s) s) by done.
  case_bool_decide as En; cbn [andb]; [|exists (cs_nns s); by destruct s].
  destruct (Z.eqb_spec (Z.of_nat nsid) (cs_nns s - 1)) as [El|]; [|exists (cs_nns s); by destruct s].
  assert (nsid <> 0%nat) as Hn0 by (intros E; by apply H0). destruct (H3 Hn0) as (ns0 & Hns0 & Hne).
  destruct (drop_namespaces_spec (Z.to_nat (cs_nns s)) s ns0 Hns0 Hne) as (n & E & Hn & Hall); [lia|lia| |done|].
  { intros x Hx. assert (Z.to_nat (cs_nns s - 1) = nsid) as E by lia. rewrite E in Hx. congruence. }
  exists n. rewrite E. split; [done|]. split; [done|]. cbn. split; [lia|done].
Qed.

(** ** One round *)
Section Round.
Context (algo : dso_sort_algorithm) (visited : gset mapid) (closes : mapid -> list mapid) (scope_malloc_ok : mapid -> bool).

(** What happened in a round: the destructors of the objects that are not needed ran, then the objects were unmapped, in the
    order of [maps]. *)
Definition logged (s : cstate) (ns : nsd) (maps : list mapid) (s' : cstate) : Prop :=
  exists dead, dead `sublist_of` maps /\ (forall m, m ∈ dead <-> m ∈ nd_loaded ns /\ ~ needed (cs_maps s) (nd_loaded ns) m) /\
    cs_log s' = cs_log s ++ (Fini <$> filter (fun m => inits (cs_maps s) m = true) dead) ++ (Unmap <$> dead).

Section Parts.
Context (nsid : nat) (s : cstate) (ns : nsd) (W : wf closes nsid s ns).
Context (ms1 : gmap mapid cmap) (maps : list mapid) (Hperm : maps ≡ₚ nd_loaded ns).
Context (Hrem : remarked (cs_maps s) ms1) (Hmk : marked (cs_maps s) (nd_loaded ns) ms1).
Let s1 := set_cmaps ms1 (set_pending pending s).
Context (s2 : cstate) (F : finishing closes s1 maps s2) (f : found) (Hf : found_ok s1 maps f).

Lemma dies_needed m : m ∈ nd_loaded ns -> dies s1 m = false <-> needed (cs_maps s) (nd_loaded ns) m.
Proof using W Hrem Hmk F.
  intros Hm. destruct (before closes nsid s ns W ms1 maps Hrem Hmk s2 F m Hm) as (l & l1 & l2 & _ & Hl1 & _ & _ & _ & Hu & _).
  unfold dies. cbn. rewrite Hl1, <- Hu. by destruct (c_used l1).
Qed.

Lemma type_before m l2 : cs_maps s2 !! m = Some l2 -> exists l, cs_maps s !! m = Some l /\ c_type l = c_type l2.
Proof using Hrem F.
  intros Hl2. destruct (fs_dom _ _ _ _ F m l2 Hl2) as [l1 Hl1]. destruct (fs_obj _ _ _ _ F m l1 Hl1) as (l2' & Hl2' & O). assert (l2' = l2) as -> by congruence.
  destruct (remarked_lookup' _ _ _ _ Hrem Hl1) as (l & Hl & Hs). exists l. split; [done|]. unfold c_type. rewrite (fo_id _ _ _ _ _ _ _ O). by rewrite Hs.
Qed.

Definition dead : list mapid := filter (fun m => dies s1 m = true) maps.
Lemma dead_spec : NoDup dead /\ forall m, m ∈ dead <-> m ∈ nd_loaded ns /\ ~ needed (cs_maps s) (nd_loaded ns) m.
Proof using W Hrem Hmk F Hperm.
  split; [apply NoDup_filter; rewrite Hperm; apply W|]. intros m. unfold dead. rewrite list_elem_of_filter, Hperm.
  split; intros [H1 H2].
  - split; [done|]. rewrite <- dies_needed by done. by rewrite H1.
  - split; [|done]. destruct (dies s1 m) eqn:E; [done|]. exfalso. apply H2. by apply dies_needed.
Qed.

(** An object is taken for removed exactly when it goes. *)
Lemma gone_dies m : m ∈ nd_loaded ns -> gone (cs_maps s2) m = dies s1 m.
Proof using W Hrem Hmk F Hperm.
  intros Hm. destruct (before closes nsid s ns W ms1 maps Hrem Hmk s2 F m Hm) as (l & l1 & l2 & Hl & Hl1 & Hl2 & Hs & O & _).
  unfold gone, dies. cbn. rewrite Hl1, Hl2, (fo_removed _ _ _ _ _ _ _ O), (bool_decide_eq_true_2 (m ∈ maps)) by (by rewrite Hperm).
  destruct (wf_obj _ _ _ _ W m l Hm Hl) as [Hr _ _ _ _]. replace (c_removed l1) with false; [done|]. rewrite <- Hr. by rewrite Hs.
Qed.

(** Objects of the global scope that go are counted in [unload_global]. *)
Lemma global_count : Z.of_nat (length (filter (fun m => gone (cs_maps s2) m = true) (nd_msl ns))) <= f_global f.
Proof using W Hrem Hmk F Hperm Hf.
  rewrite (fd_global _ _ _ Hf). apply inj_le. destruct (wf_msl _ _ _ _ W) as [Hnd Hin].
  apply submseteq_length, NoDup_submseteq; [by apply NoDup_filter|]. intros m [Hg Hm]%list_elem_of_filter.
  destruct (Hin m Hm) as [Hm0 Hgl].
  destruct (before closes nsid s ns W ms1 maps Hrem Hmk s2 F m Hm0) as (l & l1 & l2 & Hl & Hl1 & Hl2 & Hs & O & Hu & _).
  rewrite (gone_dies m Hm0) in Hg. apply list_elem_of_filter. split; [|by rewrite Hperm]. unfold dies in Hg. unfold dies_global. cbn in *. rewrite Hl1 in *.
  rewrite Hg. cbn. assert (E : c_id l1 = c_id l) by (by rewrite Hs). rewrite E. apply (Hgl l Hl).
  destruct (decide (c_type l = lt_loaded)) as [|Hne]; [done|]. exfalso. apply negb_true_iff in Hg.
  assert (c_used l1 = true); [|congruence]. apply Hu, (needed_root _ _ m l); [done|done|]. unfold is_root. by rewrite bool_decide_eq_false_2.
Qed.

Definition pruned : nsd := mkNsd (nd_loaded ns) (nd_nloaded ns) (filter (fun m => gone (cs_maps s2) m = false) (nd_msl ns)) (nd_unique ns).
Lemma prune_part : when (0 <? f_global f) (prune_global nsid (f_global f)) s2 = Ret tt (set_cns (<[nsid := pruned]> (cs_ns s)) s2).
Proof using W Hrem Hmk F Hperm Hf.
  assert (Hns : cs_ns s2 = cs_ns s) by (by rewrite (fs_rest _ _ _ _ F)). pose proof global_count as Hg. destruct (Z.ltb_spec 0 (f_global f)); cbn [when].
  - rewrite (prune_global_spec nsid ns); [by rewrite Hns|rewrite Hns; apply W| |done]. intros m Hm.
    destruct (proj2 (wf_msl _ _ _ _ W) m Hm) as [Hm0 _].
    destruct (before closes nsid s ns W ms1 maps Hrem Hmk s2 F m Hm0) as (_ & _ & l2 & _ & _ & Hl2 & _). eauto.
  - assert (En : pruned = ns).
    { unfold pruned. rewrite filter_every; [by destruct ns|]. intros m Hm. destruct (gone (cs_maps s2) m) eqn:E; [exfalso|done].
      assert (Hin : m ∈ filter (fun m => gone (cs_maps s2) m = true) (nd_msl ns)) by (by apply list_elem_of_filter).
      destruct (filter _ (nd_msl ns)); [by apply elem_of_nil in Hin|cbn in Hg; lia]. }
    rewrite En, list_insert_id by apply W. f_equal. rewrite <- Hns. by destruct s2.
Qed.

Let s3 := set_cns (<[nsid := pruned]> (cs_ns s)) s2.
Lemma lives_dies m : m ∈ nd_loaded ns -> lives s3 m = negb (dies s1 m).
Proof using W Hrem Hmk F.
  intros Hm. destruct (before closes nsid s ns W ms1 maps Hrem Hmk s2 F m Hm) as (l & l1 & l2 & Hl & Hl1 & Hl2 & Hs & O & _).
  unfold lives, dies. cbn. rewrite Hl1, Hl2, negb_involutive. unfold c_used. by rewrite (fo_mark _ _ _ _ _ _ _ O).
Qed.
Lemma dead_drop : filter (fun m => lives s3 m = false) (drop (Z.to_nat (f_first f)) maps) = dead.
Proof using W Hrem Hmk F Hperm Hf.
  unfold dead. rewrite <- (take_drop (Z.to_nat (f_first f)) maps) at 2. rewrite filter_app, (filter_none _ (take _ maps)); cbn [app].
  - apply filter_ext_in. intros m Hm. apply (subseteq_drop (Z.to_nat (f_first f)) maps) in Hm. rewrite Hperm in Hm. rewrite (lives_dies m Hm). by destruct (dies s1 m).
  - intros m [j Hj]%list_elem_of_lookup Hd. apply lookup_take_Some in Hj as [Hj Hlt]. pose proof (proj2 (fd_first _ _ _ Hf) j m Hj Hd). lia.
Qed.

Lemma unload_part force : f_any f = true -> ts_gen (cs_tls s) + 2 < 2 ^ 64 ->
  exists c s4, unload_loop nsid force (drop (Z.to_nat (f_first f)) maps) (NO_TLS_OFFSET, NO_TLS_OFFSET, false) s3 = Ret c s4 /\
    unloading nsid s3 pruned dead s4 /\ tls_ok (cs_tls s4) (c.2) (cs_maps s4) /\ ts_gen (cs_tls s4) = ts_gen (cs_tls s) /\ statics_at c s4.
Proof using W Hrem Hmk F Hperm Hf.
  intros Hany Hgen. assert (Hlt : (nsid < length (cs_ns s))%nat) by (by eapply lookup_lt_Some, W).
  assert (Hns3 : cs_ns s3 !! nsid = Some pruned) by (cbn; by apply list_lookup_insert_eq).
  assert (Hnd : NoDup maps) by (rewrite Hperm; apply W).
  assert (Ets : cs_tls s3 = cs_tls s) by (cbn; by rewrite (fs_rest _ _ _ _ F)).
  destruct (unload_loop_spec nsid s3 pruned Hns3 force (drop (Z.to_nat (f_first f)) maps) (NO_TLS_OFFSET, NO_TLS_OFFSET, false) [] s3) as (c & s4 & E & U & T & G & S).
  - by apply unload_start.
  - cbn. eapply sublist_NoDup; [done|apply sublist_drop].
  - intros m Hm. apply subseteq_drop in Hm. rewrite Hperm in Hm.
    destruct (before closes nsid s ns W ms1 maps Hrem Hmk s2 F m Hm) as (l & l1 & l2 & Hl & Hl1 & Hl2 & Hs & O & Hu & _).
    exists l2. split; [done|]. unfold c_used, c_type. rewrite (fo_mark _ _ _ _ _ _ _ O), (fo_id _ _ _ _ _ _ _ O). intros Hn.
    assert (Ety : c_type l1 = c_type l) by (by rewrite Hs). fold (c_type l1). rewrite Ety. destruct (decide (c_type l = lt_loaded)) as [|Hne]; [done|].
    exfalso. assert (c_used l1 = true) as Hc; [|unfold c_used in Hc; congruence]. apply Hu, (needed_root _ _ m l); [done|done|]. unfold is_root. by rewrite bool_decide_eq_false_2.
  - intros E. destruct (wf_main _ _ _ _ W E) as (h & Hh & Hp). exists h. split; [done|]. split; [|apply not_elem_of_nil].
    assert (Hin : h ∈ nd_loaded ns) by (destruct (nd_loaded ns); [done|injection Hh as ->; by left]). rewrite lives_dies by done.
    rewrite (proj2 (dies_needed h Hin)); [done|]. by apply permanent_needed.
  - rewrite Ets. apply (tls_ok_ms _ _ (cs_maps s)); [|apply W]. exact type_before.
  - rewrite dead_drop in U. exists c, s4. rewrite Ets in G. split; [done|]. split; [done|]. split; [done|]. split; [done|]. apply S.
    assert (Eu : cs_static_used s3 = cs_static_used s) by (cbn; by rewrite (fs_rest _ _ _ _ F)). unfold statics_at. rewrite Ets, Eu. apply W.
Qed.

Lemma discard_part force : f_any f = true -> ts_gen (cs_tls s) + 2 < 2 ^ 64 ->
  exists s' ns', discard nsid force maps f s2 = Ret tt s' /\ wf closes nsid s' ns' /\ rounded closes s ns s' ns' /\ cs_log s' = cs_log s2 ++ (Unmap <$> dead).
Proof using W Hrem Hmk F Hperm Hf.
  intros Hany Hgen. unfold discard. rewrite (M_bind_step _ _ _ _ _ prune_part). fold s3.
  destruct (unload_part force Hany Hgen) as ([[st en] any] & s4 & E4 & U & T4 & G4 & S4). rewrite (M_bind_step _ _ _ _ _ E4).
  destruct (bump_part st en any s4 T4 ltac:(lia)) as (u & t & E5 & T5 & G5 & S5). rewrite (M_bind_step _ _ _ _ _ E5).
  destruct U as [U1 [uq U2] [U3 U3'] U4 U5]. destruct dead_spec as [D1 D2].
  set (ns' := mkNsd (filter (fun m => m ∉ dead) (nd_loaded pruned)) (nd_nloaded pruned - Z.of_nat (length dead)) (nd_msl pruned) uq) in *.
  set (s5 := set_static_used u (set_ctls t s4)) in *.
  assert (Hlt : (nsid < length (cs_ns s))%nat) by (by eapply lookup_lt_Some, W).
  assert (Ens : cs_ns s5 = <[nsid := ns']> (cs_ns s)) by (cbn; rewrite U2; cbn; apply list_insert_insert_eq).
  assert (Hns' : cs_ns s5 !! nsid = Some ns') by (rewrite Ens; by apply list_lookup_insert_eq).
  assert (Enn : cs_nns s5 = cs_nns s) by (cbn; rewrite U3; cbn; by rewrite (fs_rest _ _ _ _ F)).
  assert (Hst : forall m, m ∈ nd_loaded ns' <-> m ∈ nd_loaded ns /\ needed (cs_maps s) (nd_loaded ns) m)
    by (apply (stays closes nsid s ns W ms1 maps Hrem Hmk s2 F ns' dead); done).
  destruct (wf_nns _ _ _ _ W) as (N1 & N2 & N3).
  destruct (namespaces_part nsid ns' s5 Hns') as (n & E6 & Hn).
  { split; [|split].
    - intros i x Hx Hne. rewrite Enn. rewrite Ens in Hx. apply list_lookup_insert_Some in Hx as [(<- & <- & _)|[_ Hx]]; [|by apply (N1 i x)].
      apply (N1 nsid ns); [apply W|]. intros E0. apply Hne. cbn. by rewrite E0.
    - rewrite Enn, Ens, length_insert. done.
    - intros Hz. destruct (N3 Hz) as (ns0 & H0 & Hne). exists ns0. split; [|done]. by rewrite Ens, list_lookup_insert_ne. }
  { intros Hz Hnil. destruct (wf_main _ _ _ _ W Hz) as (h & Hh & Hp). apply (not_elem_of_nil h). rewrite <- Hnil. apply Hst.
    assert (Hin : h ∈ nd_loaded ns) by (destruct (nd_loaded ns); [done|injection Hh as ->; by left]). split; [done|]. by apply permanent_needed. }
  exists (set_nns n s5), ns'. split; [exact E6|].
  assert (Hmaps : forall m, cs_maps (set_nns n s5) !! m = if bool_decide (m ∈ dead) then None else cs_maps s2 !! m) by (intros m; apply U1).
  split; [|split].
  - apply (settle_wf closes nsid s ns W ms1 maps Hperm Hrem Hmk s2 F _ ns' dead); try done. by apply S5.
  - apply (settle_rounded closes nsid s ns W ms1 maps Hperm Hrem Hmk s2 F _ ns' dead); try done. cbn. lia.
  - cbn. by rewrite U4.
Qed.

(** Without objects that go nothing else happens. *)
Lemma nothing_part : f_any f = false -> ts_gen (cs_tls s) + 2 < 2 ^ 64 -> dead = [] /\ wf closes nsid s2 ns /\ rounded closes s ns s2 ns.
Proof using W Hrem Hmk F Hperm Hf.
  intros Hany Hgen. rewrite (fd_any _ _ _ Hf) in Hany.
  assert (Hno : forall m, m ∈ maps -> dies s1 m = false).
  { intros m Hm. destruct (dies s1 m) eqn:E; [|done]. exfalso. assert (existsb (dies s1) maps = true); [|congruence].
    apply existsb_exists. exists m. split; [by apply list_elem_of_In|done]. }
  assert (Ed : dead = []) by (apply filter_none; intros m Hm; by rewrite (Hno m Hm)). destruct dead_spec as [D1 D2]. rewrite Ed in *.
  assert (Ens : cs_ns s2 = cs_ns s) by (by rewrite (fs_rest _ _ _ _ F)). assert (Ets : cs_tls s2 = cs_tls s) by (by rewrite (fs_rest _ _ _ _ F)).
  assert (Enn : cs_nns s2 = cs_nns s) by (by rewrite (fs_rest _ _ _ _ F)).
  assert (Hmaps : forall m, cs_maps s2 !! m = if bool_decide (m ∈ []) then None else cs_maps s2 !! m) by (intros m; by rewrite bool_decide_eq_false_2 by apply not_elem_of_nil).
  assert (Hl : nd_loaded ns = filter (fun m => m ∉ []) (nd_loaded ns)) by (rewrite filter_every; [done|]; intros; apply not_elem_of_nil).
  split; [done|]. split.
  - apply (settle_wf closes nsid s ns W ms1 maps Hperm Hrem Hmk s2 F s2 ns []); try done.
    + rewrite Ens. apply W.
    + cbn. lia.
    + rewrite filter_every; [done|]. intros m Hm. destruct (proj2 (wf_msl _ _ _ _ W) m Hm) as [Hm0 _]. rewrite gone_dies by done. apply Hno. by rewrite Hperm.
    + rewrite Ets. apply (tls_ok_ms _ _ (cs_maps s)); [|apply W]. exact type_before.
    + rewrite Ets. replace (cs_static_used s2) with (cs_static_used s) by (by rewrite (fs_rest _ _ _ _ F)). apply W.
    + rewrite Enn, Ens. apply W.
  - apply (settle_rounded closes nsid s ns W ms1 maps Hperm Hrem Hmk s2 F s2 ns []); try done. rewrite Ets. lia.
Qed.

Lemma log_part s' : cs_log s' = cs_log s2 ++ (Unmap <$> dead) -> logged s ns maps s'.
Proof using W Hrem Hmk F Hperm.
  intros E. exists dead. split; [apply sublist_filter|]. split; [apply dead_spec|]. rewrite E, (fs_log _ _ _ _ F), <- app_assoc. f_equal. f_equal. f_equal.
  unfold dead. rewrite list_filter_filter. apply filter_ext_in. intros m Hm. rewrite Hperm in Hm.
  destruct (before closes nsid s ns W ms1 maps Hrem Hmk s2 F m Hm) as (l & l1 & l2 & Hl & Hl1 & _ & Hs & _).
  unfold finalized, dies, inits. cbn. rewrite Hl, Hl1. assert (c_init_called l1 = c_init_called l) as -> by (by rewrite Hs).
  rewrite andb_true_iff. by split; intros [? ?].
Qed.
End Parts.

Lemma edge_remarked ms ms' b u v : remarked ms ms' -> edge (cgraph ms') b u v <-> edge (cgraph ms) b u v.
Proof.
  intros Hr. assert (Hid : forall m, c_id <$> ms' !! m = c_id <$> ms !! m).
  { intros m. specialize (Hr m). destruct (ms !! m), (ms' !! m); try done. cbn. by rewrite Hr. }
  assert (E : forall (A : Type) (h : cident -> A) (d : A) m, match ms' !! m with Some l => h (c_id l) | None => d end = match ms !! m with Some l => h (c_id l) | None => d end).
  { intros A h d m. specialize (Hid m). destruct (ms !! m), (ms' !! m); try done. cbn in Hid. congruence. }
  unfold edge. cbn. unfold mbind, option_bind. by rewrite (E _ ci_initfini None u), (E _ ci_reldeps None u), (E _ ci_main false v), (E _ ci_faked false v).
Qed.
Lemma topo_remarked ms ms' b l : remarked ms ms' -> topo (cgraph ms') b l -> topo (cgraph ms) b l.
Proof.
  intros Hr. induction l as [|u l IH]; [done|]. cbn [topo]. intros [H1 H2]. split; [|by apply IH]. intros v He. by apply H1, (edge_remarked ms ms').
Qed.

(** What the loop needs of an object. *)
Lemma meets_all nsid s ns ms1 m : wf closes nsid s ns -> remarked (cs_maps s) ms1 -> marked (cs_maps s) (nd_loaded ns) ms1 -> m ∈ nd_loaded ns ->
  exists l, ms1 !! m = Some l /\ meets closes nsid (set_cmaps ms1 (set_pending pending s)) m l.
Proof.
  intros W Hrem Hmk Hm. destruct (go_obj _ _ _ (wf_graph _ _ _ _ W) m Hm) as (l & Hl & [O1 _ _]). destruct (remarked_lookup _ _ _ _ Hrem Hl) as (l1 & Hl1 & Hs).
  destruct (Hmk m l1 Hm Hl1) as [K1 K2]. destruct (wf_obj _ _ _ _ W m l Hm Hl) as [_ B2 B3 B4 B5]. exists l1. split; [done|].
  assert (Eid : c_id l1 = c_id l) by (by rewrite Hs). assert (Esc : c_scope l1 = c_scope l) by (by rewrite Hs).
  assert (Hknown : forall t, t ∈ nd_loaded ns -> known nsid ms1 (SearchOf t)).
  { intros t Ht. destruct (go_obj _ _ _ (wf_graph _ _ _ _ W) t Ht) as (lt & Hlt & [Ot _ _]). destruct (remarked_lookup _ _ _ _ Hrem Hlt) as (lt1 & Hlt1 & Hst).
    exists lt1. split; [done|]. rewrite <- Ot. by rewrite Hst. }
  split.
  - by rewrite Eid.
  - intros Hu. assert (Hr : is_root l = false).
    { destruct (is_root l) eqn:E; [|done]. exfalso. assert (c_used l1 = true); [|congruence]. by apply K1, (needed_root _ _ m l). }
    unfold is_root in Hr. apply negb_false_iff in Hr. rewrite !andb_true_iff, bool_decide_eq_true, negb_true_iff in Hr. unfold c_type. rewrite Eid. tauto.
  - intros _. split; rewrite ?Esc, ?Eid; [|done| |done].
    + apply Forall_forall. intros [|t] He; [done|]. by apply Hknown, B2.
    + intros t Ht. by apply Hknown, B3.
  - intros Hf d Hd. assert (Hi : inits (cs_maps s) m = true).
    { unfold finalized in Hf. cbn in Hf. rewrite Hl1 in Hf. apply andb_true_iff in Hf as [_ Hf]. unfold inits. rewrite Hl, <- Hf. by rewrite Hs. }
    assert (Ho : d ∈ owed closes (cs_maps s) (nd_loaded ns)).
    { unfold owed. apply list_elem_of_In, in_concat. exists (closes m). split; [|by apply list_elem_of_In]. apply list_elem_of_In, list_elem_of_fmap. exists m. split; [done|].
      by apply list_elem_of_filter. }
    destruct (wf_credit _ _ _ _ W d) as [Hdl _].
    { unfold times. assert (Hdf : d ∈ filter (fun x => x = d) (owed closes (cs_maps s) (nd_loaded ns))) by (by apply list_elem_of_filter).
      destruct (filter _ _); [by apply elem_of_nil in Hdf|cbn; lia]. }
    destruct (Hknown d Hdl) as (ld & Hld & _). cbn. eauto.
Qed.

Record round_result (nsid : nat) (map : option mapid) (s : cstate) (ns : nsd) (s' : cstate) : Prop := {
  rr_ns : exists ns', wf closes nsid s' ns' /\ rounded closes s ns s' ns';
  rr_log : exists maps, maps ≡ₚ nd_loaded ns /\ logged s ns maps s' /\ (forall m, map = Some m -> head maps = Some m) /\
    (algo = dso_sort_algorithm_dfs -> forall rank, ranked (cgraph (cs_maps s)) (list_to_set (nd_loaded ns)) rank false ->
      (forall m u, map = Some m -> u ∈ nd_loaded ns -> ~ edge (cgraph (cs_maps s)) false u m) -> topo (cgraph (cs_maps s)) false maps) }.

Lemma round_spec nsid force map s ns : wf closes nsid s ns -> nd_loaded ns <> [] -> (forall m, map = Some m -> m ∈ nd_loaded ns) ->
  ts_gen (cs_tls s) + 2 < 2 ^ 64 -> cwp scope_malloc_ok (round algo visited closes scope_malloc_ok nsid force map) (fun _ s' => round_result nsid map s ns s') s.
Proof.
  intros W Hne Hmap Hgen. unfold round. apply (cwp_step _ _ _ _ tt (set_pending pending s)); [done|].
  destruct (collect_spec algo visited nsid ns map (set_pending pending s)) as (maps & ms1 & E & Hperm & Hrem & Hmk & Hh & Htopo); try apply W; try done.
  apply (cwp_step _ _ _ _ _ _ E). cbn [set_pending cs_maps] in *. set (s1 := set_cmaps ms1 (set_pending pending s)).
  assert (Ho : opens_ok s1) by (by apply (opens_before closes nsid s ns)).
  apply cwp_bind. eapply cwp_mono; [apply (finish_loop_spec closes scope_malloc_ok nsid s1 maps [] 0 _ s1)|].
  - done.
  - by apply finish_start.
  - split; [done|done|]. cbn. split; [lia|]. intros j m Hj. done.
  - done.
  - cbn. rewrite Hperm. apply W.
  - intros m Hm. rewrite Hperm in Hm. by apply (meets_all nsid s ns).
  - cbn [app]. intros f s2 [F Hf].
    assert (Hres : forall s' ns', wf closes nsid s' ns' -> rounded closes s ns s' ns' -> cs_log s' = cs_log s2 ++ (Unmap <$> dead s ms1 maps) -> round_result nsid map s ns s').
    { intros s' ns' W' R' El. split; [eauto|]. exists maps. split; [done|]. split; [by apply (log_part nsid s ns W ms1 maps Hperm Hrem Hmk s2 F)|]. split; [done|].
      intros Ha rank Hrk Hno. apply (topo_remarked _ ms1 false maps Hrem), (Htopo Ha rank).
      - intros u v Hu He. apply (Hrk u v Hu). by apply (edge_remarked _ ms1).
      - intros m u Hm Hu He. apply (Hno m u Hm Hu). by apply (edge_remarked _ ms1). }
    destruct (f_any f) eqn:Ea.
    + destruct (discard_part nsid s ns W ms1 maps Hperm Hrem Hmk s2 F f Hf force Ea Hgen) as (s' & ns' & E' & W' & R' & L').
      apply (cwp_ret _ _ _ _ _ E'). by apply (Hres s' ns').
    + destruct (nothing_part nsid s ns W ms1 maps Hperm Hrem Hmk s2 F f Hf Ea Hgen) as (Ed & W' & R'). apply (cwp_ret _ _ _ tt s2); [done|].
      apply (Hres s2 ns W' R'). by rewrite Ed, app_nil_r.
Qed.
End Round.
