(* ===== verification/CloseSafety.v ===== *)
(** * Closing objects: theorems

    After [dlclose] no object that stays refers to one that went, no object that is needed went, and no object that is
    not needed stayed; destructors run in the order of dependencies. *)

From S2P Require Import Prelude LinkMap UniqueSym SortMaps TlsOffset LoadCmds DynTls TlsSlots DynTlsSpec DynTlsThread DynTlsLoader DynTlsMachine.
From S2P Require Import Close CloseMark CloseRound CloseFinish CloseUnload CloseSettle CloseWorker.

(** ** What ran *)

(** What ran: every object that went was unmapped once, and if its constructors had run, its destructors ran once, before that. *)
Definition ran (s : cstate) (ns : nsd) (s' : cstate) (ns' : nsd) : Prop :=
  exists ev, cs_log s' = (cs_log s ++ ev) /\ NoDup ev /\ forall m,
    (Unmap m ∈ ev <-> m ∈ nd_loaded ns /\ m ∉ nd_loaded ns') /\
    (Fini m ∈ ev <-> m ∈ nd_loaded ns /\ (m ∉ nd_loaded ns') /\ inits (cs_maps s) m = true) /\
    (Fini m ∈ ev -> exists before after, ev = before ++ after /\ Fini m ∈ before /\ Unmap m ∈ after).

Lemma ran_nothing s ns s' : cs_log s' = cs_log s -> ran s ns s' ns.
Proof. intros E. exists []. rewrite app_nil_r. split; [done|]. split; [constructor|]. intros m. rewrite !elem_of_nil. tauto. Qed.
Lemma ran_trans s1 ns1 s2 ns2 s3 ns3 : ran s1 ns1 s2 ns2 -> ran s2 ns2 s3 ns3 ->
  (forall m, m ∈ nd_loaded ns2 -> m ∈ nd_loaded ns1 /\ inits (cs_maps s2) m = inits (cs_maps s1) m) ->
  (forall m, m ∈ nd_loaded ns3 -> m ∈ nd_loaded ns2) -> ran s1 ns1 s3 ns3.
Proof.
  intros (e1 & E1 & N1 & M1) (e2 & E2 & N2 & M2) H12 H23. exists (e1 ++ e2). rewrite E2, E1, <- app_assoc. split; [done|]. split.
  - apply NoDup_app. split; [done|]. split; [|done]. intros [m|m] Hx Hy; destruct (M1 m) as (A1 & B1 & _), (M2 m) as (A2 & B2 & _); tauto.
  - intros m. split_and!.
    1,2: rewrite !elem_of_app; destruct (M1 m) as (A1 & B1 & _), (M2 m) as (A2 & B2 & _); rewrite ?A1, ?A2, ?B1, ?B2; specialize (H12 m); specialize (H23 m);
      (destruct (decide (m ∈ nd_loaded ns2)) as [Hi|Hi]; [destruct (H12 Hi) as [Hi1 E]; rewrite ?E|]); clear - Hi H12 H23; tauto.
    intros [Hm|Hm]%elem_of_app; [apply M1 in Hm as (b & a & -> & Hb & Ha); exists b, (a ++ e2)|apply M2 in Hm as (b & a & -> & Hb & Ha); exists (e1 ++ b), a];
      rewrite <- ?app_assoc, !elem_of_app; tauto.
Qed.

(** One round. *)
Lemma logged_ran s ns maps s' ns' : logged s ns maps s' -> NoDup maps -> (forall m, m ∈ nd_loaded ns' <-> m ∈ nd_loaded ns /\ needed (cs_maps s) (nd_loaded ns) m) -> ran s ns s' ns'.
Proof.
  intros (dead & Hsub & Hd & El) Hnd Hst. eexists. split; [exact El|]. assert (Hnd' : NoDup dead) by (by eapply sublist_NoDup). split.
  - apply NoDup_app. split; [apply NoDup_fmap_2; [by intros ?? [= ->]|by apply NoDup_filter]|]. split; [|apply NoDup_fmap_2; [by intros ?? [= ->]|done]].
    intros x (m & -> & _)%list_elem_of_fmap (m' & E & _)%list_elem_of_fmap. done.
  - intros m. rewrite !elem_of_app, !list_elem_of_fmap. specialize (Hst m). split_and!.
    + split; [intros [(? & ? & _)|(? & [= <-] & Hm)]; [done|]; apply Hd in Hm; tauto|]. intros [H1 H2]. right. exists m. split; [done|]. apply Hd. tauto.
    + split; [intros [(? & [= <-] & [Hi Hm]%list_elem_of_filter)|(? & ? & _)]; [|done]; apply Hd in Hm; tauto|]. intros (H1 & H2 & H3). left. exists m.
      split; [done|]. apply list_elem_of_filter. split; [done|]. apply Hd. tauto.
    + intros Hm. do 2 eexists. split; [reflexivity|]. rewrite !list_elem_of_fmap. destruct Hm as [(k & [= <-] & Hk)|(? & ? & _)]; [|done].
      split; [by exists m|]. exists m. split; [done|]. by apply list_elem_of_filter in Hk as [_ Hk].
Qed.

(** ** The order of destructors *)
Lemma topo_closed g b u v maps : topo g b maps -> u ∈ maps -> edge g b u v -> v ∈ maps.
Proof.
  induction maps as [|y maps IH]; [by intros _ ?%elem_of_nil|]. intros [H1 H2] [->|Hu]%elem_of_cons He; right; auto.
Qed.
Lemma topo_before g b dead maps u v : dead `sublist_of` maps -> NoDup maps -> topo g b maps -> u ∈ dead -> v ∈ dead -> edge g b u v ->
  exists l1 l2 l3, dead = l1 ++ u :: l2 ++ v :: l3.
Proof.
  intros Hs. induction Hs as [|x dead maps Hs IH|x dead maps Hs IH]; [by intros _ _ ?%elem_of_nil| |].
  - intros [Hx Hnd]%NoDup_cons [Ht Htopo] Hu Hv He. assert (Hin : forall y, y ∈ dead -> y ∈ maps) by (intros y; apply (sublist_subseteq _ _ Hs)).
    apply elem_of_cons in Hu as [->|Hu].
    + apply elem_of_cons in Hv as [->|Hv]; [exfalso; by destruct He as (_ & _ & _ & ?)|]. apply list_elem_of_split in Hv as (l2 & l3 & ->). by exists [], l2, l3.
    + apply elem_of_cons in Hv as [->|Hv].
      * exfalso. apply Hx. apply (topo_closed g b u x maps Htopo); auto.
      * destruct (IH Hnd Htopo Hu Hv He) as (l1 & l2 & l3 & ->). by exists (x :: l1), l2, l3.
  - intros [_ Hnd]%NoDup_cons [_ Htopo]. by apply IH.
Qed.

Section Safety.
Context (algo : dso_sort_algorithm) (visited : gset mapid) (closes : mapid -> list mapid) (scope_malloc_ok : mapid -> bool).

(** ** All rounds *)

(** The objects as they are when every handle that a destructor may close is closed. *)
Definition floor (ms : gmap mapid cmap) (loaded : list mapid) : gmap mapid cmap :=
  map_imap (fun m l => Some (with_open (c_open l - times m (owed closes ms loaded)) l)) ms.

(** Nothing useless is loaded. *)
Definition tight (s : cstate) (ns : nsd) : Prop := forall m, m ∈ nd_loaded ns -> needed (cs_maps s) (nd_loaded ns) m.

Record swept (s : cstate) (ns : nsd) (s' : cstate) (ns' : nsd) : Prop := {
  sw_loaded : forall m, m ∈ nd_loaded ns' -> m ∈ nd_loaded ns;
  sw_kept : forall m, needed (floor (cs_maps s) (nd_loaded ns)) (nd_loaded ns) m -> needed (floor (cs_maps s') (nd_loaded ns')) (nd_loaded ns') m /\ m ∈ nd_loaded ns';
  sw_id : forall m l', m ∈ nd_loaded ns' -> cs_maps s' !! m = Some l' -> exists l, cs_maps s !! m = Some l /\ c_id l' = c_id l;
  sw_init : forall m, m ∈ nd_loaded ns' -> inits (cs_maps s') m = inits (cs_maps s) m;
  sw_ran : ran s ns s' ns' }.

Lemma floor_lookup ms loaded m l : ms !! m = Some l -> floor ms loaded !! m = Some (with_open (c_open l - times m (owed closes ms loaded)) l).
Proof. intros Hl. unfold floor. by rewrite map_lookup_imap, Hl. Qed.

(** Handles that destructors close never outnumber the open ones. *)
Lemma floor_nonneg nsid s ns m l : wf closes nsid s ns -> cs_maps s !! m = Some l -> 0 <= c_open l - times m (owed closes (cs_maps s) (nd_loaded ns)).
Proof.
  intros W Hl. pose proof (wf_opens _ _ _ _ W m l Hl). pose proof (times_nonneg m (owed closes (cs_maps s) (nd_loaded ns))).
  destruct (decide (times m (owed closes (cs_maps s) (nd_loaded ns)) = 0)) as [->|]; [lia|].
  destruct (wf_credit _ _ _ _ W m ltac:(lia)) as [_ Hc]. specialize (Hc l Hl). lia.
Qed.

Lemma is_root_mono l l' : c_id l' = c_id l -> 0 <= c_open l <= c_open l' -> is_root l = true -> is_root l' = true.
Proof.
  intros E Ho. unfold is_root, c_type. rewrite E. rewrite !negb_true_iff, !andb_false_iff, !Z.eqb_neq.
  intros [[[?|?]|?]|?]; [by do 3 left|left; left; right; lia|left; by right|by right].
Qed.

(** Objects with more uses need no less. *)
Lemma needed_mono ms ms' loaded loaded' : (forall u, needed ms loaded u -> u ∈ loaded -> u ∈ loaded' /\ exists l l', ms !! u = Some l /\ ms' !! u = Some l' /\ c_id l' = c_id l /\ (is_root l = true -> is_root l' = true)) ->
  deps_closed ms loaded -> forall m, needed ms loaded m -> needed ms' loaded' m.
Proof.
  intros H Hc m Hn. induction Hn as [m l Hm Hl Hr|u v Hu IH Hd].
  - destruct (H m ltac:(by eapply needed_root) Hm) as (Hm' & l0 & l' & Hl0 & Hl' & _ & Hr'). assert (l0 = l) as -> by congruence. apply (needed_root _ _ m l'); auto.
  - apply (needed_dep _ _ u v IH). destruct (H u Hu (needed_loaded _ _ _ Hc Hu)) as (_ & l0 & l' & Hl0 & Hl' & E & _). destruct Hd as (l & ds & Hl & Hds & Hv).
    assert (l0 = l) as -> by congruence. exists l', ds. split; [done|]. split; [unfold deps_of in *; by rewrite E|done].
Qed.

Lemma deps_closed_id (ms ms' : gmap mapid cmap) loaded : (forall m l, ms !! m = Some l -> exists l', ms' !! m = Some l' /\ c_id l' = c_id l) -> deps_closed ms loaded -> deps_closed ms' loaded.
Proof.
  intros H Hc m Hm. destruct (Hc m Hm) as (l & ds & Hl & Hds & Hin). destruct (H m l Hl) as (l' & Hl' & E). exists l', ds. split; [done|]. split; [|done].
  unfold deps_of in *. by rewrite E.
Qed.
Lemma floor_closed ms loaded : deps_closed ms loaded -> deps_closed (floor ms loaded) loaded.
Proof. apply deps_closed_id. intros m l Hl. eexists. split; [by apply floor_lookup|done]. Qed.

Lemma floor_needed nsid s ns m : wf closes nsid s ns -> needed (floor (cs_maps s) (nd_loaded ns)) (nd_loaded ns) m -> needed (cs_maps s) (nd_loaded ns) m.
Proof.
  intros W. pose proof (go_deps _ _ _ (wf_graph _ _ _ _ W)) as Hc. apply needed_mono; [|by apply floor_closed]. intros u _ Hu. split; [done|].
  destruct (go_obj _ _ _ (wf_graph _ _ _ _ W) u Hu) as (l & Hl & _). eexists _, l. split; [by apply floor_lookup|]. split; [done|]. split; [done|].
  apply is_root_mono; [done|]. cbn. pose proof (floor_nonneg nsid s ns u l W Hl). pose proof (times_nonneg u (owed closes (cs_maps s) (nd_loaded ns))). lia.
Qed.

Lemma rounded_swept nsid s ns s' ns' : wf closes nsid s ns -> wf closes nsid s' ns' -> rounded closes s ns s' ns' -> ran s ns s' ns' -> swept s ns s' ns'.
Proof.
  intros W W' R Hran. pose proof (go_deps _ _ _ (wf_graph _ _ _ _ W)) as Hc. split.
  - intros m Hm. by apply (ro_loaded _ _ _ _ _ R).
  - intros m Hm. assert (Hst : forall u, needed (floor (cs_maps s) (nd_loaded ns)) (nd_loaded ns) u -> u ∈ nd_loaded ns').
    { intros u Hu. pose proof (floor_needed nsid s ns u W Hu) as Hu'. apply (ro_loaded _ _ _ _ _ R). split; [by eapply needed_loaded|done]. }
    split; [|by apply Hst]. revert m Hm. apply needed_mono; [|by apply floor_closed]. intros u Hu _. split; [by apply Hst|].
    destruct (go_obj _ _ _ (wf_graph _ _ _ _ W') u (Hst u Hu)) as (l' & Hl' & _). destruct (ro_obj _ _ _ _ _ R u l' (Hst u Hu) Hl') as (l & Hl & E & _ & Hle & _).
    eexists _, _. split; [by apply floor_lookup|]. split; [by apply floor_lookup|]. split; [done|]. apply is_root_mono; [done|]. cbn.
    pose proof (floor_nonneg nsid s ns u l W Hl). lia.
  - intros m l' Hm Hl'. destruct (ro_obj _ _ _ _ _ R m l' Hm Hl') as (l & Hl & E & _). eauto.
  - apply (ro_init _ _ _ _ _ R).
  - done.
Qed.
Lemma swept_trans s1 ns1 s2 ns2 s3 ns3 : swept s1 ns1 s2 ns2 -> swept s2 ns2 s3 ns3 -> swept s1 ns1 s3 ns3.
Proof.
  intros [A1 A2 A3 A4 A5] [B1 B2 B3 B4 B5]. split; [auto| | |intros m Hm; rewrite B4 by done; auto|by eapply ran_trans; eauto].
  - intros m Hm. by apply B2, A2.
  - intros m l3 Hm Hl3. destruct (B3 m l3 Hm Hl3) as (l2 & Hl2 & E). destruct (A3 m l2 (B1 m Hm) Hl2) as (l1 & Hl1 & E'). exists l1. split; [done|congruence].
Qed.

(** When no destructor gave back a last use, the objects that stay are needed for the uses that are left. *)
Lemma rounded_tight nsid s ns s' ns' : wf closes nsid s ns -> wf closes nsid s' ns' -> rounded closes s ns s' ns' -> cs_pending s' = pending -> tight s' ns'.
Proof.
  intros W W' R Hp m Hm. apply (ro_loaded _ _ _ _ _ R) in Hm as [_ Hm]. revert m Hm. pose proof (go_deps _ _ _ (wf_graph _ _ _ _ W)) as Hc.
  apply needed_mono; [|done]. intros u Hu Hul. assert (Hu' : u ∈ nd_loaded ns') by (by apply (ro_loaded _ _ _ _ _ R)). split; [done|].
  destruct (go_obj _ _ _ (wf_graph _ _ _ _ W') u Hu') as (l' & Hl' & _). destruct (ro_obj _ _ _ _ _ R u l' Hu' Hl') as (l & Hl & E & _ & _ & Hr).
  exists l, l'. rewrite (Hr Hp). done.
Qed.

Lemma wf_pending nsid s ns x : wf closes nsid s ns -> wf closes nsid (set_pending x s) ns.
Proof. intros W. destruct W. by split. Qed.

Lemma rounds_spec nsid force : forall fuel map s ns, wf closes nsid s ns -> nd_loaded ns <> [] -> (forall m, map = Some m -> m ∈ nd_loaded ns) ->
  ts_gen (cs_tls s) + Z.of_nat (uses (cs_maps s)) + 2 < 2 ^ 64 -> (uses (cs_maps s) < fuel)%nat ->
  cwp scope_malloc_ok (rounds algo visited closes scope_malloc_ok fuel nsid force map)
    (fun _ s' => exists ns', wf closes nsid s' ns' /\ cs_pending s' = not_pending /\ tight s' ns' /\ swept s ns s' ns') s.
Proof.
  induction fuel as [|fuel IH]; intros map s ns W Hne Hmap Hgen Hfuel; [lia|]. cbn [rounds]. apply cwp_bind.
  eapply cwp_mono; [apply (round_spec algo visited closes scope_malloc_ok nsid force map s ns W Hne Hmap); lia|]. intros _ s1 [(ns1 & W1 & R1) (maps & Hperm & Hlog & _)].
  apply (cwp_step _ _ _ _ (cs_pending s1) s1); [done|]. 
  assert (Hran : ran s ns s1 ns1) by (apply (logged_ran s ns maps); [done|rewrite Hperm; apply W|apply (ro_loaded _ _ _ _ _ R1)]).
  pose proof (rounded_swept nsid _ _ _ _ W W1 R1 Hran) as S1. case_bool_decide as Er.
  - destruct (ro_rerun _ _ _ _ _ R1 Er) as [Hu Hne1]. pose proof (ro_gen _ _ _ _ _ R1).
    eapply cwp_mono; [apply (IH None s1 ns1 W1 Hne1); [done|lia|lia]|]. intros _ s2 (ns2 & W2 & P2 & T2 & S2). exists ns2.
    split; [done|]. split; [done|]. split; [done|]. by eapply swept_trans.
  - apply (cwp_ret _ _ _ tt (set_pending not_pending s1)); [done|]. exists ns1. split; [by apply wf_pending|]. split; [done|].
    assert (Hp : cs_pending s1 = pending) by (pose proof (ro_pend _ _ _ _ _ R1); destruct (cs_pending s1); done).
    split; [by apply (rounded_tight nsid s ns s1 ns1)|]. destruct S1. by split.
Qed.

(** ** [dlclose] *)

(** One use of [map] less. *)
Definition released (map : mapid) (s : cstate) : cstate := set_cmaps (alter (fun l => with_open (u32 (c_open l - 1)) l) map (cs_maps s)) s.

Section ReleasedOf.
Context (map : mapid) (s : cstate) (ns : nsd).
Lemma released_lookup' m l0 : cs_maps s !! m = Some l0 -> exists l', cs_maps (released map s) !! m = Some l' /\ c_id l' = c_id l0.
Proof. intros Hl0. cbn. destruct (decide (m = map)) as [->|Hne]; [rewrite lookup_alter_eq, Hl0|rewrite lookup_alter_ne by (intros E; apply Hne; symmetry; exact E)]; eexists; split; try exact Hl0; reflexivity. Qed.

Lemma released_inits m : inits (cs_maps (released map s)) m = inits (cs_maps s) m.
Proof. unfold inits. cbn. destruct (decide (m = map)) as [->|]; [rewrite lookup_alter_eq|by rewrite lookup_alter_ne]. by destruct (cs_maps s !! map). Qed.
Lemma released_owed : owed closes (cs_maps (released map s)) (nd_loaded ns) = owed closes (cs_maps s) (nd_loaded ns).
Proof. unfold owed. f_equal. f_equal. apply filter_ext_in. intros m _. by rewrite released_inits. Qed.

Lemma released_permanent t : permanent (cs_maps s) t -> permanent (cs_maps (released map s)) t.
Proof. intros (l0 & Hl0 & Hp). destruct (released_lookup' t l0 Hl0) as (l' & Hl' & E). exists l'. split; [done|]. unfold c_type. by rewrite E. Qed.

End ReleasedOf.

Lemma swept_refl nsid ns s0 : wf closes nsid s0 ns -> swept s0 ns s0 ns.
Proof.
  intros W0. split; [done| |eauto|done|by apply ran_nothing]. intros m Hm. split; [done|]. eapply needed_loaded; [|exact Hm]. apply floor_closed. apply (wf_graph _ _ _ _ W0).
Qed.

Section Released.
Context (nsid : nat) (s : cstate) (ns : nsd) (map : mapid) (l : cmap) (W : wf closes nsid s ns).
Context (Hl : cs_maps s !! map = Some l) (Hopen : 1 + times map (owed closes (cs_maps s) (nd_loaded ns)) <= c_open l).

Lemma released_open : u32 (c_open l - 1) = c_open l - 1.
Proof using W Hl Hopen. pose proof (wf_opens _ _ _ _ W map l Hl). pose proof (times_nonneg map (owed closes (cs_maps s) (nd_loaded ns))). unfold u32. apply Z.mod_small. lia. Qed.
Lemma released_lookup m l' : cs_maps (released map s) !! m = Some l' -> exists l0, cs_maps s !! m = Some l0 /\ l' = with_open (c_open l') l0 /\
  c_open l' = c_open l0 - (if decide (m = map) then 1 else 0).
Proof using W Hl Hopen.
  intros (l0 & Hl0 & ->)%alter_lookup_Some. exists l0. split; [done|]. destruct (decide (m = map)) as [->|]; [|split; [by destruct l0|lia]].
  assert (l0 = l) as -> by congruence. by rewrite released_open.
Qed.
Lemma released_wf : wf closes nsid (released map s) ns.
Proof using W Hl Hopen.
  destruct W as [A1 [G1 G2 G3] A3 A4 A5 A6 [A7 A7'] A8 A9 A10 A11 A12]. split; try done.
  - split; [done| |by apply (deps_closed_id (cs_maps s)); [apply released_lookup'|]]. intros m Hm. destruct (G2 m Hm) as (l0 & Hl0 & [B1 B2 B3]).
    destruct (released_lookup' map s m l0 Hl0) as (l' & Hl' & E). exists l'. split; [done|]. split; by rewrite E.
  - intros E. destruct (A5 E) as (h & ? & ?). exists h. split; [done|]. by apply released_permanent.
  - intros m l' Hm Hl'. destruct (released_lookup m l' Hl') as (l0 & Hl0 & -> & _). destruct (A6 m l0 Hm Hl0) as [B1 B2 B3 B4 B5]. split; try done.
    + intros t Ht. destruct (B2 t Ht) as [? Hp]. split; [done|]. intros Hn. by apply released_permanent, Hp.
    + intros t Ht. destruct (B3 t Ht) as [? Hp]. split; [done|]. intros Hn. by apply released_permanent, Hp.
  - split; [done|]. intros m Hm. destruct (A7' m Hm) as [? Hg]. split; [done|]. intros l' Hl'. destruct (released_lookup m l' Hl') as (l0 & Hl0 & -> & _). by apply (Hg l0).
  - intros m l' Hl'. destruct (released_lookup m l' Hl') as (l0 & Hl0 & _ & ->). pose proof (A8 m l0 Hl0). destruct (decide (m = map)) as [->|]; [|lia].
    assert (l0 = l) as -> by congruence. pose proof (times_nonneg map (owed closes (cs_maps s) (nd_loaded ns))). lia.
  - rewrite released_owed. intros d Hd. destruct (A9 d Hd) as [? Hc]. split; [done|]. intros l' Hl'. destruct (released_lookup d l' Hl') as (l0 & Hl0 & _ & ->).
    specialize (Hc l0 Hl0). destruct (decide (d = map)) as [->|]; [|lia]. assert (l0 = l) as -> by congruence. lia.
  - apply (tls_ok_ms _ _ (cs_maps s)); [|done]. intros m l' Hl'. destruct (released_lookup m l' Hl') as (l0 & Hl0 & -> & _). eauto.
Qed.

Lemma released_uses : (uses (cs_maps (released map s)) <= uses (cs_maps s))%nat.
Proof using W Hl Hopen.
  pose proof (uses_alter (cs_maps s) map l (fun l => with_open (u32 (c_open l - 1)) l) Hl) as E. cbn in *. rewrite released_open in E.
  pose proof (wf_opens _ _ _ _ W map l Hl). pose proof (times_nonneg map (owed closes (cs_maps s) (nd_loaded ns))). lia.
Qed.

(** The use was not the last one, or does not matter: nothing changes for the others. *)
Lemma released_tight : tight s ns -> 1 < c_open l \/ c_type l <> lt_loaded -> tight (released map s) ns.
Proof using W Hl Hopen.
  intros T Hc m Hm. specialize (T m Hm). pose proof (wf_graph _ _ _ _ W) as G. revert m Hm T. intros m _. apply needed_mono; [|apply G]. intros u _ Hu. split; [done|].
  destruct (go_obj _ _ _ G u Hu) as (l0 & Hl0 & _). destruct (released_lookup' map s u l0 Hl0) as (l' & Hl' & E). exists l0, l'. split; [done|]. split; [done|]. split; [done|].
  destruct (released_lookup u l' Hl') as (l1 & Hl1 & -> & Eo). assert (l1 = l0) as -> by congruence. destruct (decide (u = map)) as [->|].
  - assert (l0 = l) as -> by congruence. unfold is_root. cbn. unfold c_type in *. cbn. destruct Hc as [Hc|Hc]; [|by rewrite bool_decide_eq_false_2].
    cbn in Eo. rewrite Eo, (proj2 (Z.eqb_neq (c_open l - 1) 0)) by lia. by rewrite andb_false_r.
  - unfold is_root. cbn in Eo |- *. rewrite Eo. by rewrite Z.sub_0_r.
Qed.

(** Keeping the use after all. *)
Lemma released_swept : swept (released map s) ns s ns.
Proof using W Hl Hopen.
  pose proof (go_deps _ _ _ (wf_graph _ _ _ _ released_wf)) as Hc. split; [done| | |intros m _; by rewrite released_inits|by apply ran_nothing].
  - intros m Hm. split; [|by eapply needed_loaded; [apply floor_closed|]]. revert m Hm. apply needed_mono; [|by apply floor_closed]. intros u _ Hu. split; [done|].
    destruct (go_obj _ _ _ (wf_graph _ _ _ _ W) u Hu) as (l0 & Hl0 & _). destruct (released_lookup' map s u l0 Hl0) as (l' & Hl' & E). eexists _, _.
    split; [by apply floor_lookup|]. split; [by apply floor_lookup|]. split; [done|]. apply is_root_mono; [done|]. cbn [with_open c_open].
    pose proof (floor_nonneg nsid _ _ u l' released_wf Hl'). rewrite released_owed in *. destruct (released_lookup u l' Hl') as (l1 & Hl1 & _ & Eo).
    assert (l1 = l0) as -> by congruence. destruct (decide (u = map)); lia.
  - intros m l0 Hm Hl0. destruct (released_lookup' map s m l0 Hl0) as (l' & Hl' & E). eauto.
Qed.
End Released.

(** While a collection is marked as under way, [dlclose] takes back a use and does no more. *)
Definition only_counts (s s' : cstate) : Prop := cs_ns s' = cs_ns s /\ cs_log s' = cs_log s /\ cs_pending s' <> not_pending /\ dom (cs_maps s') = dom (cs_maps s).

Lemma pending_close m l s : cs_pending s <> not_pending -> cs_maps s !! m = Some l ->
  match _dl_close algo visited closes scope_malloc_ok m s with Ret _ s' | Raise _ _ s' => only_counts s s' | _ => False end.
Proof.
  intros Hp Hl. assert (Hs : only_counts s s) by done. unfold _dl_close. rewrite (M_bind_step _ _ _ _ _ (c_get_run _ _ _ Hl)).
  destruct (ci_nodelete (c_id l)); [done|]. destruct (c_open l =? 0); [done|]. unfold _dl_close_worker.
  assert (He : exists s', enter m s = Ret false s' /\ only_counts s s').
  { unfold enter. set (s1 := released m s). rewrite (M_bind_step _ _ _ tt s1) by done. destruct (released_lookup' m s m l Hl) as (l1 & Hl1 & _).
    rewrite (M_bind_step _ _ _ _ _ (c_get_run _ _ _ Hl1)). rewrite (M_bind_step _ _ _ (cs_pending s) s1) by done.
    rewrite (bool_decide_eq_true_2 (cs_pending s <> not_pending)), orb_true_r by done.
    destruct ((c_open l1 =? 0) && bool_decide (c_type l1 = lt_loaded)); cbn [when].
    - exists (set_pending rerun s1). split; [done|]. split_and!; try done. cbn. by rewrite dom_alter_L.
    - exists s1. split; [done|]. split_and!; try done. cbn. by rewrite dom_alter_L. }
  destruct He as (s' & E & Hs'). by rewrite (M_bind_step _ _ _ _ _ E).
Qed.

Lemma dlclose_outcome nsid map s ns l : wf closes nsid s ns -> tight s ns -> cs_pending s = not_pending ->
  map ∈ nd_loaded ns -> cs_maps s !! map = Some l -> 1 + times map (owed closes (cs_maps s) (nd_loaded ns)) <= c_open l ->
  ts_gen (cs_tls s) + Z.of_nat (uses (cs_maps s)) + 2 < 2 ^ 64 ->
  cwp scope_malloc_ok (_dl_close algo visited closes scope_malloc_ok map)
    (fun _ s' => exists ns', wf closes nsid s' ns' /\ tight s' ns' /\ cs_pending s' = not_pending /\ swept (released map s) ns s' ns') s.
Proof.
  intros W T Hp Hm Hl Ho Hgen. pose proof (times_nonneg map (owed closes (cs_maps s) (nd_loaded ns))) as Ht. unfold _dl_close. apply (cwp_get _ _ _ _ l Hl).
  destruct (ci_nodelete (c_id l)).
  { apply (cwp_ret _ _ _ tt s); [done|]. exists ns. split_and!; try done. by apply (released_swept nsid s ns map l). }
  rewrite (proj2 (Z.eqb_neq (c_open l) 0)) by lia. pose proof (released_wf nsid s ns map l W Hl Ho) as W1. unfold _dl_close_worker, enter. apply cwp_bind.
  apply (cwp_step _ _ _ _ tt (released map s)); [done|]. destruct (released_lookup' map s map l Hl) as (l1 & Hl1 & E1).
  destruct (released_lookup nsid s ns map l W Hl Ho map l1 Hl1) as (l0 & Hl0 & E2 & Eo). assert (l0 = l) as -> by congruence. rewrite decide_True in Eo by done.
  apply (cwp_get _ _ _ _ l1 Hl1). apply (cwp_step _ _ _ _ not_pending (released map s)); [unfold gets; cbn; by rewrite Hp|].
  rewrite (bool_decide_eq_false_2 (not_pending <> not_pending)) by tauto. rewrite orb_false_r.
  assert (Ety : c_type l1 = c_type l) by (unfold c_type; by rewrite E1).
  destruct ((0 <? c_open l1) || bool_decide (c_type l1 <> lt_loaded)) eqn:Ec.
  - assert (Hc : 1 < c_open l \/ c_type l <> lt_loaded).
    { apply orb_true_iff in Ec as [Ec|Ec]; [left; apply Z.ltb_lt in Ec; lia|right; apply bool_decide_eq_true in Ec; congruence]. }
    assert (Ew : (c_open l1 =? 0) && bool_decide (c_type l1 = lt_loaded) = false).
    { rewrite Ety. destruct Hc; [rewrite (proj2 (Z.eqb_neq (c_open l1) 0)) by lia; done|rewrite (bool_decide_eq_false_2 (c_type l = lt_loaded)) by done; apply andb_false_r]. }
    rewrite Ew. apply (cwp_ret _ _ _ false (released map s)); [done|]. apply (cwp_ret _ _ _ tt (released map s)); [done|]. exists ns. split; [done|].
    split; [by apply (released_tight nsid s ns map l)|]. split; [done|]. by apply (swept_refl nsid).
  - apply (cwp_ret _ _ _ true (released map s)); [done|]. apply (cwp_get _ _ _ _ l1 Hl1). apply (cwp_step _ _ _ _ (uses (cs_maps (released map s))) (released map s)); [done|].
    pose proof (released_uses nsid s ns map l W Hl Ho). destruct (go_obj _ _ _ (wf_graph _ _ _ _ W) map Hm) as (l2 & Hl2 & [Ens _ _]). assert (l2 = l) as -> by congruence.
    rewrite E1, Ens. eapply cwp_mono; [apply (rounds_spec nsid false _ (Some map) (released map s) ns W1)|].
    + intros E. rewrite E in Hm. by apply elem_of_nil in Hm.
    + by intros m [= <-].
    + change (cs_tls (released map s)) with (cs_tls s). lia.
    + lia.
    + intros _ s' (ns' & ? & ? & ? & ?). exists ns'. done.
Qed.

(** C23. [dlclose] on an open object of a namespace in order ([wf]: the objects are listed once and refer to listed objects only, in dependencies, scopes and the global scope; counters, marks and the TLS data agree; every handle a destructor will close is
    open; [tight]: no object is loaded that is not needed), with memory for the scope arrays, no collection under way, a handle left for every close that is still owed
    and a generation counter that is not near its end, returns and leaves a namespace in order: every object is still needed ([tight]); scopes, loaders, dependencies and the global scope mention only objects that are still loaded; static TLS memory
    that was given back belongs to no object that stays; no object is lost that is needed even when destructors have closed all handles they close
    ([swept]); and what went was unmapped once, and if its constructors had run, its destructors ran once and before it was unmapped ([ran]). *)
Theorem dlclose_safe nsid map s ns l : wf closes nsid s ns -> tight s ns -> cs_pending s = not_pending ->
  map ∈ nd_loaded ns -> cs_maps s !! map = Some l -> 1 + times map (owed closes (cs_maps s) (nd_loaded ns)) <= c_open l ->
  ts_gen (cs_tls s) + Z.of_nat (uses (cs_maps s)) + 2 < 2 ^ 64 -> (forall m, scope_malloc_ok m = true) ->
  exists s' ns', _dl_close algo visited closes scope_malloc_ok map s = Ret tt s' /\
    wf closes nsid s' ns' /\ tight s' ns' /\ cs_pending s' = not_pending /\ swept (released map s) ns s' ns'.
Proof.
  intros W T Hp Hm Hl Ho Hgen Hok. pose proof (dlclose_outcome nsid map s ns l W T Hp Hm Hl Ho Hgen) as H. unfold cwp in H.
  destruct (_dl_close algo visited closes scope_malloc_ok map s) as [[] s'|? ? ?| | |]; try done.
  - destruct H as (ns' & ?). by exists s', ns'.
  - destruct H as (_ & _ & _ & m & Hm'). by rewrite Hok in Hm'.
Qed.

(** C25. The only error of [dlclose] on an open object of a namespace in order is the lack of memory for a scope array.  After it the collection stays marked as
    under way: any later [dlclose] counts down a use or fails, but runs no destructor and unloads nothing. *)
Theorem close_failure_blocks nsid map s ns l o e s1 : wf closes nsid s ns -> tight s ns -> cs_pending s = not_pending ->
  map ∈ nd_loaded ns -> cs_maps s !! map = Some l -> 1 + times map (owed closes (cs_maps s) (nd_loaded ns)) <= c_open l ->
  ts_gen (cs_tls s) + Z.of_nat (uses (cs_maps s)) + 2 < 2 ^ 64 ->
  _dl_close algo visited closes scope_malloc_ok map s = Raise o e s1 ->
  e = "cannot create scope list"%string /\ forall m lm, cs_maps s1 !! m = Some lm ->
    match _dl_close algo visited closes scope_malloc_ok m s1 with Ret _ s2 | Raise _ _ s2 => only_counts s1 s2 | _ => False end.
Proof.
  intros W T Hp Hm Hl Ho Hgen E. pose proof (dlclose_outcome nsid map s ns l W T Hp Hm Hl Ho Hgen) as H. unfold cwp in H. rewrite E in H.
  destruct H as (-> & -> & Hp1 & _). split; [done|]. intros m lm Hlm. by apply (pending_close m lm).
Qed.

(** C24. In a round of [dlclose] with the depth-first sort the destructors of exactly the objects that are not needed run, then these objects are
    unmapped, and an object comes before its dependencies in both, when the dependencies are not circular and no object depends on the one that is
    closed. *)
Theorem destructors_follow_dependencies nsid force map s ns rank : wf closes nsid s ns -> map ∈ nd_loaded ns -> ts_gen (cs_tls s) + 2 < 2 ^ 64 ->
  ranked (cgraph (cs_maps s)) (list_to_set (nd_loaded ns)) rank false -> (forall u, u ∈ nd_loaded ns -> ~ edge (cgraph (cs_maps s)) false u map) ->
  cwp scope_malloc_ok (round dso_sort_algorithm_dfs visited closes scope_malloc_ok nsid force (Some map))
    (fun _ s' => exists dead, (forall m, m ∈ dead <-> m ∈ nd_loaded ns /\ ~ needed (cs_maps s) (nd_loaded ns) m) /\
       cs_log s' = (cs_log s ++ (Fini <$> filter (fun m => inits (cs_maps s) m = true) dead) ++ (Unmap <$> dead)) /\
       forall u v, u ∈ dead -> v ∈ dead -> edge (cgraph (cs_maps s)) false u v -> exists l1 l2 l3, dead = l1 ++ u :: l2 ++ v :: l3) s.
Proof.
  intros W Hm Hgen Hrk Hno. eapply cwp_mono; [apply (round_spec dso_sort_algorithm_dfs visited closes scope_malloc_ok nsid force (Some map) s ns W)|].
  - intros E. rewrite E in Hm. by apply elem_of_nil in Hm.
  - by intros m [= <-].
  - done.
  - intros _ s' [_ (maps & Hperm & (dead & Hsub & Hd & El) & _ & Htopo)]. exists dead. split; [done|]. split; [done|]. intros u v Hu Hv He.
    apply (topo_before (cgraph (cs_maps s)) false dead maps u v Hsub); try done; [rewrite Hperm; apply W|].
    apply (Htopo eq_refl rank Hrk). intros m w [= <-]. apply Hno.
Qed.
End Safety.

(** ** A program and three plugins *)
Module Example17.
(** The program (1) opened two objects (2 and 3); object 2 needs 3, and its destructors close object 4, which it had opened.
    The program and object 2 have static TLS. *)
Definition program : tmod := mkMod (LinkMap.mkTls 48 16 0 64 1 false) [1; 2; 3] true 0 true.
Definition plugin : tmod := mkMod (LinkMap.mkTls 32 16 0 112 2 false) [7; 8] true 0 false.
Definition t0 : tls_state :=
  mkTls [mkSI 0 None :: mkSI 1 (Some 1%nat) :: mkSI 2 (Some 2%nat) :: replicate 61 (mkSI 0 None)] 2 false 1 2 2 0 {[ 1%nat := program; 2%nat := plugin ]} ∅ ∅ [].

Lemma t0_slot i si : tls_slot t0 i = Some si -> i = 1 /\ si = mkSI 1 (Some 1%nat) \/ i = 2 /\ si = mkSI 2 (Some 2%nat) \/ si = mkSI 0 None.
Proof.
  unfold tls_slot. destruct (Z.ltb_spec i 1); [done|]. cbn [t0 ts_list concat]. rewrite app_nil_r.
  destruct (Z.to_nat i) as [|[|[|n]]] eqn:E; [lia|left|right; left|right; right]; cbn [lookup list_lookup] in *.
  - split; [lia|]. congruence.
  - split; [lia|]. congruence.
  - by apply lookup_replicate in H0 as [-> _].
Qed.
Lemma t0_mod m x : ts_mods t0 !! m = Some x -> m = 1%nat /\ x = program \/ m = 2%nat /\ x = plugin.
Proof. cbn [t0 ts_mods]. intros [[<- <-]|[_ [<- <-]%lookup_singleton_Some]]%lookup_insert_Some; [by left|by right]. Qed.

Lemma t0_inv : Inv t0 (mkPhase true false Mapping []).
Proof.
  split; cbn [lp_dirty lp_mode lp_pending idle].
  - split.
    + eexists _, _. split; [done|]. vm_compute. congruence.
    + done.
    + intros i si m [[-> ->]|[[-> ->]| ->]]%t0_slot Hm; [| |done]; injection Hm as <-; (split; [done|]); [by exists program|by exists plugin].
    + intros m x [[-> ->]|[-> ->]]%t0_mod _; (split; [by split|]); [by exists (mkSI 1 (Some 1%nat))|by exists (mkSI 2 (Some 2%nat))].
  - split; intros p b; cbn; by rewrite lookup_empty.
  - done.
  - intros i si [[-> ->]|[[-> ->]| ->]]%t0_slot; by vm_compute.
  - right. left. by exists (mkSI 2 (Some 2%nat)), 2%nat.
  - intros m Hm. by apply elem_of_nil in Hm.
  - intros m m' x x' Hm. by apply elem_of_nil in Hm.
  - intros _ m x Hm. by apply elem_of_nil in Hm.
  - intros i Hi. change (1 <= i < 2) in Hi. assert (i = 1) as -> by lia. by exists (mkSI 1 (Some 1%nat)), 1%nat, program.
  - intros t th. cbn. by rewrite lookup_empty.
  - intros q sz t m. cbn. by rewrite lookup_empty.
Qed.

Definition ident (ty : l_type_t) (name : string) (deps : list mapid) : cident :=
  mkCI ty 0 name false 0 false (Some deps) deps None false (bool_decide (ty = lt_executable)) false.
Definition obj (i : cident) (open : Z) (sc : cscope) : cmap := mkC i open (mkMark false false 0) true false sc.
Definition o1 : cmap := obj (ident lt_executable "" [1%nat]) 1 (mkScope (Some [1%nat]) [SearchOf 1] true 4 None).
Definition o2 : cmap := obj (ident lt_loaded "a.so" [2%nat; 3%nat]) 1 (mkScope (Some [2%nat; 3%nat]) [SearchOf 1; SearchOf 2] true 4 (Some 1%nat)).
Definition o3 : cmap := obj (ident lt_loaded "b.so" [3%nat]) 1 (mkScope None [SearchOf 1; SearchOf 2] true 4 (Some 2%nat)).
Definition o4 : cmap := obj (ident lt_loaded "c.so" [4%nat]) 1 (mkScope (Some [4%nat]) [SearchOf 1; SearchOf 4] true 4 (Some 2%nat)).
Definition ns0 : nsd := mkNsd [1%nat; 2%nat; 3%nat; 4%nat] 4 [1%nat] (mkUtab None 0 0).
Definition s0 : cstate := mkCS {[ 1%nat := o1; 2%nat := o2; 3%nat := o3; 4%nat := o4 ]} [ns0] 1 not_pending t0 112 None [].
Definition closes (m : mapid) : list mapid := if (m =? 2)%nat then [4%nat] else [].

Lemma s0_obj m l : cs_maps s0 !! m = Some l -> m = 1%nat /\ l = o1 \/ m = 2%nat /\ l = o2 \/ m = 3%nat /\ l = o3 \/ m = 4%nat /\ l = o4.
Proof.
  cbn [s0 cs_maps]. intros [[<- <-]|[_ H]]%lookup_insert_Some; [tauto|]. apply lookup_insert_Some in H as [[<- <-]|[_ H]]; [tauto|].
  apply lookup_insert_Some in H as [[<- <-]|[_ H]]; [tauto|]. apply lookup_singleton_Some in H as [<- <-]. tauto.
Qed.
Lemma s0_loaded m : m ∈ nd_loaded ns0 -> exists l, cs_maps s0 !! m = Some l.
Proof. intros H. cbn in H. rewrite !elem_of_cons, elem_of_nil in H. destruct H as [->|[->|[->|[->|[]]]]]; by eexists. Qed.
Lemma s0_owed : owed closes (cs_maps s0) (nd_loaded ns0) = [4%nat].
Proof. vm_compute. reflexivity. Qed.
Lemma s0_permanent : permanent (cs_maps s0) 1%nat.
Proof. exists o1. split; [reflexivity|]. discriminate. Qed.

Lemma s0_graph : graph_ok 0 (cs_maps s0) (nd_loaded ns0).
Proof.
  split.
  - apply (bool_decide_eq_true_1 (NoDup _)). vm_compute. reflexivity.
  - intros m [l Hl]%s0_loaded. exists l. split; [done|]. apply s0_obj in Hl as [[-> ->]|[[-> ->]|[[-> ->]|[-> ->]]]]; by split.
  - intros m [l Hl]%s0_loaded. exists l. apply s0_obj in Hl as [[-> ->]|[[-> ->]|[[-> ->]|[-> ->]]]]; eexists; (split; [reflexivity|]); (split; [reflexivity|]); intros d Hd; cbn in *; set_solver.
Qed.

Lemma s0_wf : wf closes 0 s0 ns0.
Proof.
  split.
  - reflexivity.
  - apply s0_graph.
  - reflexivity.
  - vm_compute. reflexivity.
  - intros _. exists 1%nat. split; [reflexivity|apply s0_permanent].
  - intros m l _ Hl. pose proof s0_permanent. apply s0_obj in Hl as [[-> ->]|[[-> ->]|[[-> ->]|[-> ->]]]]; split; try reflexivity.
    all: try (intros t Ht; split; [cbn in *; set_solver|]; intros Hn; try (exfalso; by apply Hn); assert (t = 1%nat) as -> by (cbn in Ht; set_solver); done).
    all: intros i [= <-]; cbn; lia.
  - split; [apply NoDup_singleton|]. intros m Hm. apply list_elem_of_singleton in Hm as ->. split; [cbn; set_solver|]. intros l [= <-]. discriminate.
  - intros m l Hl. apply s0_obj in Hl as [[-> ->]|[[-> ->]|[[-> ->]|[-> ->]]]]; cbn; lia.
  - rewrite s0_owed. intros d Hd. assert (d = 4%nat) as -> by (rewrite times_cons in Hd; destruct (decide (4%nat = d)); [done|by vm_compute in Hd]).
    split; [cbn; set_solver|]. intros l [= <-]. vm_compute. discriminate.
  - split; [apply t0_inv| |vm_compute; reflexivity]. intros m l x Hl Ht [[-> ->]|[-> ->]]%t0_mod; [|done]. injection Hl as <-. discriminate.
  - split.
    + intros m x [[-> ->]|[-> ->]]%t0_mod _; vm_compute; split; congruence.
    + intros m m' x x' Hn [[-> ->]|[-> ->]]%t0_mod [[-> ->]|[-> ->]]%t0_mod _ _; try done; [left|right]; vm_compute; congruence.
    + vm_compute. split; congruence.
    + by left.
  - split; [|split; [|done]].
    + intros [|i] x Hx Hne; [done|]. destruct i; discriminate.
    + cbn. lia.
Qed.

Lemma s0_tight : tight s0 ns0.
Proof.
  intros m Hm. destruct (s0_loaded m Hm) as [l Hl]. apply (needed_root _ _ m l Hm Hl). apply s0_obj in Hl as [[_ ->]|[[_ ->]|[[_ ->]|[_ ->]]]]; reflexivity.
Qed.

#[local] Abbreviation dlclose ok m := (_dl_close dso_sort_algorithm_dfs ∅ closes ok m).
(** Object 2 goes, then object 4, whose last use its destructors gave back; object 3 gets a scope of its own. *)
Example closing_2 : match dlclose (fun _ => true) 2%nat s0 with
  | Ret _ s' => cs_log s' = [Fini 2; Unmap 2; Fini 4; Unmap 4] /\ nd_loaded <$> cs_ns s' = [[1%nat; 3%nat]] /\ cs_static_used s' = 80 /\
      (fun l => sc_list (c_scope l)) <$> cs_maps s' !! 3%nat = Some [SearchOf 1; SearchOf 3] /\ ts_gen (cs_tls s') = 3
  | _ => False end.
Proof. vm_compute. split_and!; reflexivity. Qed.

Lemma dlclose_safe_witness : exists s' ns', dlclose (fun _ => true) 2%nat s0 = Ret tt s' /\
  wf closes 0 s' ns' /\ tight s' ns' /\ cs_pending s' = not_pending /\ swept closes (released 2 s0) ns0 s' ns'.
Proof.
  apply (dlclose_safe dso_sort_algorithm_dfs ∅ closes (fun _ => true) 0 2%nat s0 ns0 o2 s0_wf s0_tight).
  - reflexivity.
  - right. left.
  - reflexivity.
  - rewrite s0_owed. vm_compute. discriminate.
  - vm_compute. reflexivity.
  - reflexivity.
Defined.

(** Without memory for the scope of object 3 the collection stays marked as under way, and closing object 3 unloads nothing any more. *)
Definition failed : cstate := match dlclose (fun _ => false) 2%nat s0 with Raise _ _ s' => s' | _ => s0 end.
Example failed_stuck : cs_pending failed = rerun /\
  match dlclose (fun _ => true) 3%nat failed with Ret _ s2 => cs_log s2 = [Fini 2] /\ nd_loaded <$> cs_ns s2 = [[1%nat; 2%nat; 3%nat; 4%nat]] | _ => False end.
Proof. vm_compute. split_and!; reflexivity. Qed.
Lemma close_failure_blocks_witness : dlclose (fun _ => false) 2%nat s0 = Raise "dlclose" "cannot create scope list" failed /\
  forall m lm, cs_maps failed !! m = Some lm -> match dlclose (fun _ => false) m failed with Ret _ s2 | Raise _ _ s2 => only_counts failed s2 | _ => False end.
Proof.
  assert (E : dlclose (fun _ => false) 2%nat s0 = Raise "dlclose" "cannot create scope list" failed) by (vm_compute; reflexivity).
  split; [exact E|]. apply (close_failure_blocks dso_sort_algorithm_dfs ∅ closes (fun _ => false) 0 2%nat s0 ns0 o2 "dlclose" "cannot create scope list" failed s0_wf s0_tight).
  - reflexivity.
  - right. left.
  - reflexivity.
  - rewrite s0_owed. vm_compute. discriminate.
  - vm_compute. reflexivity.
  - exact E.
Defined.

(** With objects 2 and 3 no longer open, the destructors of 2 run before those of 3. *)
Definition s23 : cstate := released 3 (released 2 s0).
Lemma s23_wf : wf closes 0 s23 ns0.
Proof.
  apply (released_wf closes 0 (released 2 s0) ns0 3 o3); [apply (released_wf closes 0 s0 ns0 2 o2 s0_wf); [reflexivity|rewrite s0_owed; vm_compute; discriminate]|reflexivity|].
  vm_compute. discriminate.
Qed.
Lemma s23_edge u v : u ∈ nd_loaded ns0 -> edge (cgraph (cs_maps s23)) false u v -> u = 2%nat /\ v = 3%nat.
Proof.
  intros Hu ([Hd|[? _]] & _ & _ & Hne); [|done]. cbn [ns0 nd_loaded] in Hu. rewrite !elem_of_cons, elem_of_nil in Hu.
  destruct Hu as [->|[->|[->|[->|[]]]]]; vm_compute in Hd; fold (@elem_of mapid) in Hd; set_solver.
Qed.
Lemma destructors_follow_dependencies_witness :
  cwp (fun _ => true) (round dso_sort_algorithm_dfs ∅ closes (fun _ => true) 0 false (Some 2%nat))
    (fun _ s' => exists dead, (forall m, m ∈ dead <-> m ∈ nd_loaded ns0 /\ ~ needed (cs_maps s23) (nd_loaded ns0) m) /\
       cs_log s' = (cs_log s23 ++ (Fini <$> filter (fun m => inits (cs_maps s23) m = true) dead) ++ (Unmap <$> dead)) /\
       forall u v, u ∈ dead -> v ∈ dead -> edge (cgraph (cs_maps s23)) false u v -> exists l1 l2 l3, dead = l1 ++ u :: l2 ++ v :: l3) s23.
Proof.
  apply (destructors_follow_dependencies ∅ closes (fun _ => true) 0 false 2%nat s23 ns0 (fun m => if (m =? 2)%nat then 1%nat else 0%nat) s23_wf).
  - right. left.
  - vm_compute. reflexivity.
  - intros u v Hu He. apply elem_of_list_to_set in Hu. destruct (s23_edge u v Hu He) as [-> ->]. apply Nat.lt_0_1.
  - intros u Hu He. destruct (s23_edge u 2%nat Hu He) as [_ E]. discriminate.
Defined.

(** A destructor closes a handle of another namespace: the rounds that follow look at the namespace of the outer [dlclose] only, and
    object 5, which nothing needs, stays. *)
Definition o5 : cmap := obj (mkCI lt_loaded 1 "d.so" false 0 false (Some [5%nat]) [5%nat] None false false false) 1 (mkScope (Some [5%nat]) [SearchOf 5] true 4 None).
Definition s5 : cstate := mkCS (<[5%nat := o5]> (cs_maps s0)) [ns0; mkNsd [5%nat] 1 [5%nat] (mkUtab None 0 0)] 2 not_pending t0 112 None [].
Lemma other_namespace_left : match _dl_close dso_sort_algorithm_dfs ∅ (fun m => if (m =? 2)%nat then [5%nat] else []) (fun _ => true) 2%nat s5 with
  | Ret _ s' => cs_pending s' = not_pending /\ cs_log s' = [Fini 2; Unmap 2] /\ nd_loaded <$> cs_ns s' !! 1%nat = Some [5%nat] /\ is_root <$> cs_maps s' !! 5%nat = Some false
  | _ => False end.
Proof. vm_compute. split_and!; reflexivity. Qed.

(** A table of unique symbols in which ["y"] (of object 1) was entered behind ["x"] (of object 9): when object 9 is given up after a failed [dlopen],
    the search for ["y"] ends at the entry that was freed, and the symbol can be bound a second time. *)
Definition unique_entry (h : Z) (n : string) (m : mapid) : unique_sym := mkUnique h (Some n) None (Some m).
Definition table : res unique_sym_table :=
  t ← add_unique (mkUtab (Some (replicate 31 us_free)) 31 0) (unique_entry 5 "x" 9); add_unique t (unique_entry 36 "y" 1).
Definition search (t : unique_sym_table) : res bool := r ← find_or_prepare (fun _ => true) t 36 "y"; mret (if r is inl _ then true else false).
Lemma forgotten_unique_lost : (t ← table; search t) = Ok true /\ (t ← table; search (forget_unique 9 t)) = Ok false.
Proof. vm_compute. split; reflexivity. Qed.
End Example17.
