(* ===== verification/Open.v ===== *)
(** * Opening objects

    [_dl_open] and its helpers ([elf/dl-open.c]): the object and its dependencies are mapped and relocated, all memory that is needed
    is requested, and only then the scopes, the global scope and the TLS data are changed.

    Mapping a file, version checks, relocation and the data for [_dl_find_object] are parameters; [_dl_close_worker] is the one of
    [Close], the TLS functions are those of [DynTls].  One thread runs.  Auditing, profiling, debugging output, the debugger interface
    and locks are not modelled. *)

From S2P Require Import Prelude LinkMap SortMaps TlsOffset LoadCmds DynTls Close.

(** ** State *)

(** What closing does not look at: [_ns_global_scope_pending_adds], [_ns_global_scope_alloc], [libc_map] *)
Record ons := mkOns { on_pending : Z; on_alloc : Z; on_libc : option mapid }.

Inductive oevent := EarlyInit (m : option mapid) | Init (m : mapid).

(** The fields of [dl_open_args] that change; they belong to the innermost [dlopen]. *)
Record oargs := mkArgs { a_map : option mapid; a_pending : Z; a_libc : bool; a_continue : bool }.

Record ostate := mkOS {
  os_c : cstate;
  os_ns : list ons;
  os_nodelete : gset mapid;          (* l_nodelete_pending *)
  os_relocated : gset mapid;         (* l_real->l_relocated *)
  os_versions : gset mapid;          (* l_real->l_versions *)
  os_allocs : nat;
  os_args : oargs;
  os_log : list oevent }.

Definition set_c (x : cstate) (s : ostate) : ostate := mkOS x (os_ns s) (os_nodelete s) (os_relocated s) (os_versions s) (os_allocs s) (os_args s) (os_log s).
Definition set_ns (x : list ons) (s : ostate) : ostate := mkOS (os_c s) x (os_nodelete s) (os_relocated s) (os_versions s) (os_allocs s) (os_args s) (os_log s).
Definition set_nodelete (x : gset mapid) (s : ostate) : ostate := mkOS (os_c s) (os_ns s) x (os_relocated s) (os_versions s) (os_allocs s) (os_args s) (os_log s).
Definition set_relocated (x : gset mapid) (s : ostate) : ostate := mkOS (os_c s) (os_ns s) (os_nodelete s) x (os_versions s) (os_allocs s) (os_args s) (os_log s).
Definition set_versions (x : gset mapid) (s : ostate) : ostate := mkOS (os_c s) (os_ns s) (os_nodelete s) (os_relocated s) x (os_allocs s) (os_args s) (os_log s).
Definition set_oallocs (x : nat) (s : ostate) : ostate := mkOS (os_c s) (os_ns s) (os_nodelete s) (os_relocated s) (os_versions s) x (os_args s) (os_log s).
Definition set_args (x : oargs) (s : ostate) : ostate := mkOS (os_c s) (os_ns s) (os_nodelete s) (os_relocated s) (os_versions s) (os_allocs s) x (os_log s).
Definition add_event (e : oevent) (s : ostate) : ostate := mkOS (os_c s) (os_ns s) (os_nodelete s) (os_relocated s) (os_versions s) (os_allocs s) (os_args s) (os_log s ++ [e]).

(** Code on the state of [Close]. *)
Definition on_close {A} (m : M cstate A) : M ostate A := fun s =>
  match m (os_c s) with
  | Ret a c => Ret a (set_c c s)
  | Raise o e c => Raise o e (set_c c s)
  | Stop e => Stop e
  | Wild => Wild
  | Loop => Loop
  end.

Definition o_get (m : mapid) : M ostate cmap := on_close (c_get m).
Definition o_set (m : mapid) (f : cmap -> cmap) : M ostate unit := on_close (c_set m f).
Definition get_ons (n : nat) : M ostate ons := fun s => match os_ns s !! n with Some x => Ret x s | None => Wild end.
Definition put_ons (n : nat) (x : ons) : M ostate unit := modify (fun s => set_ns (<[n := x]> (os_ns s)) s).

Definition with_id (i : cident) (l : cmap) : cmap := mkC i (c_open l) (c_mark l) (c_init_called l) (c_removed l) (c_scope l).
Definition make_global (l : cmap) : cmap :=
  let i := c_id l in
  with_id (mkCI (ci_type i) (ci_ns i) (ci_name i) (ci_nodelete i) (ci_dtors i) true (ci_initfini i) (ci_copy i) (ci_reldeps i) (ci_faked i) (ci_main i) (ci_proxy i)) l.
Definition make_nodelete (l : cmap) : cmap :=
  let i := c_id l in
  with_id (mkCI (ci_type i) (ci_ns i) (ci_name i) true (ci_dtors i) (ci_global i) (ci_initfini i) (ci_copy i) (ci_reldeps i) (ci_faked i) (ci_main i) (ci_proxy i)) l.
Definition search_of (l : cmap) : list mapid := default [] (sc_searchlist (c_scope l)).

(** Modes *)
Definition RTLD_LAZY : Z := 1.
Definition RTLD_BINDING_MASK : Z := 3.
Definition RTLD_NOLOAD : Z := 4.
Definition RTLD_GLOBAL : Z := 0x100.
Definition RTLD_NODELETE : Z := 0x1000.
Definition __RTLD_AUDIT : Z := 0x08000000.
Definition __RTLD_CALLMAP : Z := 0x10000000.
Definition __RTLD_SPROF : Z := 0x40000000.
Definition has_flag (mode flag : Z) : bool := negb (Z.land mode flag =? 0).
Definition LM_ID_BASE : Z := 0.
Definition LM_ID_NEWLM : Z := -1.
Definition __LM_ID_CALLER : Z := -2.
Definition DL_NNS : Z := 16.

Section Open.
(** Whether the n-th request for memory succeeds. *)
Context (alloc_ok : nat -> bool).
(** [l_libname->name] *)
Context (libname : mapid -> string).

Definition o_alloc : M ostate bool := fun s => Ret (alloc_ok (os_allocs s)) (set_oallocs (S (os_allocs s)) s).

(** ** The global scope *)
Definition add_to_global_resize_failure {A} (new : mapid) : M ostate A := lift (Signal (libname new) "cannot extend global scope").

Fixpoint count_not_global (ms : list mapid) : M ostate Z :=
  match ms with
  | [] => mret 0
  | m :: ms => l ← o_get m; n ← count_not_global ms; mret (if ci_global (c_id l) then n else n + 1)
  end.

(** [ns->_ns_main_searchlist->r_list]: the pointer is set for the base namespace only ([rtld.c]); in all others it is null. *)
Definition main_searchlist (nsid : nat) : M ostate (list mapid) :=
  nsd ← on_close (get_nsd nsid);
  if Z.of_nat nsid =? LM_ID_BASE then mret (nd_msl nsd) else lift Undef.

Definition add_to_global_resize (new : mapid) : M ostate unit :=
  l ← o_get new;
  let nsid := ci_ns (c_id l) in
  to_add ← count_not_global (search_of l);
  ns ← get_ons nsid;
  put_ons nsid (mkOns (u32 (on_pending ns + to_add)) (on_alloc ns) (on_libc ns));;
  (if 2 ^ 32 <=? on_pending ns + to_add then add_to_global_resize_failure new else mret tt);;
  ns ← get_ons nsid;
  msl ← main_searchlist nsid;
  let required_new_size := Z.of_nat (length msl) + on_pending ns in
  (if 2 ^ 64 <=? required_new_size then add_to_global_resize_failure new else mret tt);;
  new_size ← (if on_alloc ns =? 0 then
                if 2 ^ 32 <=? required_new_size + 8 then add_to_global_resize_failure new else mret (required_new_size + 8)
              else if on_alloc ns <? required_new_size then
                if 2 ^ 32 <=? required_new_size * 2 then add_to_global_resize_failure new else mret (required_new_size * 2)
              else mret 0);
  if 0 <? new_size then
    ok ← o_alloc;
    if (ok : bool) then put_ons nsid (mkOns (on_pending ns) new_size (on_libc ns)) else add_to_global_resize_failure new
  else mret tt.

(** The objects that become global; [n] is [new_nlist]. *)
Fixpoint globalize (alloc : Z) (n : Z) (ms : list mapid) : M ostate (list mapid) :=
  match ms with
  | [] => mret []
  | m :: ms =>
      l ← o_get m;
      if ci_global (c_id l) then globalize alloc n ms
      else
        o_set m make_global;;
        lift (c_assert (n <? alloc) "new_nlist < ns->_ns_global_scope_alloc");;
        r ← globalize alloc (n + 1) ms;
        mret (m :: r)
  end.

Definition add_to_global_update (new : mapid) : M ostate unit :=
  l ← o_get new;
  let nsid := ci_ns (c_id l) in
  ns ← get_ons nsid;
  msl ← main_searchlist nsid;
  added ← globalize (on_alloc ns) (Z.of_nat (length msl)) (search_of l);
  lift (c_assert (Z.of_nat (length added) <=? on_pending ns) "added <= ns->_ns_global_scope_pending_adds");;
  put_ons nsid (mkOns (on_pending ns - Z.of_nat (length added)) (on_alloc ns) (on_libc ns));;
  nsd ← on_close (get_nsd nsid);
  on_close (put_nsd nsid (mkNsd (nd_loaded nsd) (nd_nloaded nsd) (msl ++ added) (nd_unique nsd))).

(** ** Scopes *)
Definition scope_has_map (imap : cmap) (new : mapid) : bool := bool_decide (SearchOf new ∈ sc_list (c_scope imap)).
Definition scope_size (imap : cmap) : Z := Z.of_nat (length (sc_list (c_scope imap))).

(** The object has been there before. *)
Definition old_object (imap : cmap) : bool := c_init_called imap && bool_decide (c_type imap = lt_loaded).

Definition resize_scope (new m : mapid) : M ostate unit :=
  imap ← o_get m;
  let sc := c_scope imap in
  if old_object imap && negb (scope_has_map imap new) && (sc_max sc <=? scope_size imap + 1) then
    new_size ← (if negb (sc_in_mem sc) && (sc_max sc <? SCOPE_ELEMS) then mret (SCOPE_ELEMS, true)
                else ok ← o_alloc;
                     if (ok : bool) then mret (sc_max sc * 2, false) else lift (Signal "dlopen" "cannot create scope list"));
    if scope_size imap + 1 <=? new_size.1 then o_set m (with_scopes (sc_list sc) new_size.2 new_size.1) else lift Undef
  else mret tt.

Fixpoint resize_scopes_of (new : mapid) (ms : list mapid) : M ostate unit :=
  match ms with
  | [] => mret tt
  | m :: ms => resize_scope new m;; resize_scopes_of new ms
  end.
Definition resize_scopes (new : mapid) : M ostate unit := l ← o_get new; resize_scopes_of new (search_of l).

Definition update_scope (new m : mapid) : M ostate unit :=
  imap ← o_get m;
  let sc := c_scope imap in
  if old_object imap && negb (scope_has_map imap new) then
    lift (c_assert (scope_size imap + 1 <? sc_max sc) "cnt + 1 < imap->l_scope_max");;
    o_set m (with_scopes (sc_list sc ++ [SearchOf new]) (sc_in_mem sc) (sc_max sc))
  else mret tt.

Fixpoint update_scopes_of (new : mapid) (ms : list mapid) : M ostate unit :=
  match ms with
  | [] => mret tt
  | m :: ms => update_scope new m;; update_scopes_of new ms
  end.
Definition update_scopes (new : mapid) : M ostate unit := l ← o_get new; update_scopes_of new (search_of l).

(** ** Objects that stay *)
Fixpoint activate (ms : list mapid) : M ostate unit :=
  match ms with
  | [] => mret tt
  | m :: ms =>
      p ← gets os_nodelete;
      (if bool_decide (m ∈ p) then o_set m make_nodelete;; modify (set_nodelete (p ∖ {[m]})) else mret tt);;
      activate ms
  end.
Definition activate_nodelete (new : mapid) : M ostate unit :=
  l ← o_get new;
  nsd ← on_close (get_nsd (ci_ns (c_id l)));
  activate (nd_loaded nsd).

(** ** Everything that can fail *)

(** [_dl_map_new_object (caller, file, lt_loaded, 0, mode, nsid)]; [None] is a null pointer. *)
Context (map_new_object : option mapid -> string -> Z -> nat -> M ostate (option mapid)).
(** [_dl_map_object_deps (new, ..)], [_dl_check_map_versions], [_dl_open_check], [_dl_relocate_object (l, l->l_scope, mode, 0)],
    [_dl_find_object_update], whose data is not in the state *)
Context (map_object_deps check_map_versions open_check : mapid -> M ostate unit) (relocate_object : mapid -> Z -> M ostate unit).
Context (find_object_update : mapid -> ostate -> bool).
(** [GLRO(dl_lazy)] *)
Context (dl_lazy : bool).
(** Memory for TLS data and the thread that runs. *)
Context (malloc : gmap Z mblock -> Z -> Z) (malloc_complete : bool) (self : Z).

Definition is_already_fully_open (map : option mapid) (mode : Z) : M ostate bool :=
  match map with
  | None => mret false
  | Some m =>
      l ← o_get m;
      mret (bool_decide (is_Some (sc_searchlist (c_scope l))) && (negb (has_flag mode RTLD_GLOBAL) || ci_global (c_id l)) &&
            (negb (has_flag mode RTLD_NODELETE) || ci_nodelete (c_id l)))
  end.

Fixpoint check_versions (ms : list mapid) : M ostate unit :=
  match ms with
  | [] => mret tt
  | m :: ms =>
      v ← gets os_versions;
      (if bool_decide (m ∈ v) then mret tt else check_map_versions m);;
      check_versions ms
  end.

(** The part of [l_initfini] from the first to the last object that is not relocated, the last one first. *)
Fixpoint skip_relocated (relocated : gset mapid) (ms : list mapid) : list mapid :=
  match ms with
  | [] => []
  | m :: ms' => if bool_decide (m ∈ relocated) then skip_relocated relocated ms' else ms
  end.
Definition to_relocate (relocated : gset mapid) (initfini : list mapid) : list mapid :=
  skip_relocated relocated (reverse (skip_relocated relocated initfini)).

Definition _dl_open_relocate_one_object (m : mapid) (reloc_mode : Z) : M ostate unit :=
  r ← gets os_relocated;
  if bool_decide (m ∈ r) then mret tt else relocate_object m reloc_mode.
Fixpoint relocate_all (reloc_mode : Z) (ms : list mapid) : M ostate unit :=
  match ms with
  | [] => mret tt
  | m :: ms => _dl_open_relocate_one_object m reloc_mode;; relocate_all reloc_mode ms
  end.

(** Objects without TLS are no modules. *)
Definition tls_modules (ms : list mapid) : M ostate (list mapid) :=
  mods ← gets (fun s => ts_mods (cs_tls (os_c s)));
  mret (filter (fun m => is_Some (mods !! m)) ms).

(** An object that was open before. *)
Definition reopen (new : mapid) (mode : Z) : M ostate unit :=
  l ← o_get new;
  r ← gets os_relocated;
  lift (c_assert (bool_decide (new ∈ r)) "new->l_relocated");;
  let to_global := has_flag mode RTLD_GLOBAL && negb (ci_global (c_id l)) in
  when to_global (add_to_global_resize new);;
  when (has_flag mode RTLD_NODELETE) (o_set new make_nodelete);;
  when to_global (add_to_global_update new).

(** Dependencies, versions and relocation. *)
Definition prepare (new : mapid) (nsid : nat) (mode : Z) : M ostate unit :=
  map_object_deps new;;
  l ← o_get new;
  check_versions (search_of l);;
  open_check new;;
  let reloc_mode := Z.lor (Z.land mode __RTLD_AUDIT) (if dl_lazy then Z.land mode RTLD_LAZY else 0) in
  l ← o_get new;
  initfini ← lift (res_of_option (ci_initfini (c_id l)));
  r ← gets os_relocated;
  ns ← get_ons nsid;
  (match on_libc ns with Some libc => _dl_open_relocate_one_object libc reloc_mode | None => mret tt end);;
  relocate_all reloc_mode (to_relocate r initfini).

(** The requests for memory.  The result is [any_tls]. *)
Definition request (new : mapid) (mode : Z) : M ostate bool :=
  resize_scopes new;;
  l ← o_get new;
  tls ← tls_modules (search_of l);
  any_tls ← on_close (on_tls (resize_tls_slotinfo malloc tls false));
  when (has_flag mode RTLD_GLOBAL) (add_to_global_resize new);;
  mret any_tls.

(** What follows the requests for memory. *)
Definition publish (new : mapid) (nsid : nat) (any_tls : bool) : M ostate unit :=
  activate_nodelete new;;
  update_scopes new;;
  ok ← gets (find_object_update new);
  (if (ok : bool) then mret tt else lift (Signal (libname new) "cannot allocate address lookup data"));;
  l ← o_get new;
  tls ← tls_modules (search_of l);
  when any_tls (on_close (on_tls (update_tls_slotinfo malloc malloc_complete self tls)));;
  a ← gets os_args;
  (if a_libc a then mret tt else ns ← get_ons nsid; modify (add_event (EarlyInit (on_libc ns))));;
  modify (fun s => let a := os_args s in set_args (mkArgs (a_map a) (a_pending a) (a_libc a) true) s).

Definition dl_open_worker_begin (caller : option mapid) (file : string) (mode : Z) (nsid : nat) : M ostate unit :=
  ns ← get_ons nsid;
  modify (fun s => let a := os_args s in set_args (mkArgs (a_map a) (on_pending ns) (bool_decide (is_Some (on_libc ns))) (a_continue a)) s);;
  a ← gets os_args;
  new ← match a_map a with
        | Some m => mret (Some m)
        | None =>
            m ← map_new_object caller file (Z.lor mode __RTLD_CALLMAP) nsid;
            modify (fun s => let a := os_args s in set_args (mkArgs m (a_pending a) (a_libc a) (a_continue a)) s);;
            mret m
        end;
  match new with
  | None => lift (c_assert (has_flag mode RTLD_NOLOAD) "mode & RTLD_NOLOAD")
  | Some new =>
      if has_flag mode __RTLD_SPROF then mret tt
      else
        o_set new (fun l => with_open (u32 (c_open l + 1)) l);;
        l ← o_get new;
        if bool_decide (is_Some (sc_searchlist (c_scope l))) then reopen new mode
        else
          when (has_flag mode RTLD_NODELETE) (modify (fun s => set_nodelete (os_nodelete s ∪ {[new]}) s));;
          prepare new nsid mode;;
          any_tls ← request new mode;
          publish new nsid any_tls
  end.

(** ** Constructors *)
(** [DT_INIT] and [DT_INIT_ARRAY] of an object; they may call [dlopen]. *)
Context (constructors : mapid -> M ostate unit).

Definition call_init (m : mapid) : M ostate unit :=
  l ← o_get m;
  if ci_proxy (c_id l) then mret tt
  else
    r ← gets os_relocated;
    lift (c_assert (bool_decide (m ∈ r) || bool_decide (c_type l = lt_executable)) "l->l_relocated || l->l_type == lt_executable");;
    if c_init_called l then mret tt
    else
      o_set m (with_init true);;
      if bool_decide (ci_name (c_id l) = "") && bool_decide (c_type l = lt_executable) then mret tt
      else modify (add_event (Init m));; constructors m.

(** The objects [l_initfini[i - 1]], .., [l_initfini[0]]; the array is read again for every object. *)
Fixpoint call_inits (new : mapid) (i : nat) : M ostate unit :=
  match i with
  | O => mret tt
  | S i =>
      l ← o_get new;
      initfini ← lift (res_of_option (ci_initfini (c_id l)));
      m ← lift (res_of_option (initfini !! i));
      call_init m;;
      call_inits new i
  end.

(** [DT_PREINIT_ARRAY] of an object *)
Context (preinit : mapid -> M ostate unit).

Definition _dl_init (main_map : mapid) : M ostate unit :=
  c ← gets (fun s => cs_initfirst (os_c s));
  match c with
  | Some m => call_init m;; on_close (modify (set_initfirst None))
  | None => mret tt
  end;;
  preinit main_map;;
  l ← o_get main_map;
  call_inits main_map (length (search_of l)).
Definition call_dl_init (new : mapid) : M ostate unit := _dl_init new.

Definition dl_open_worker (caller : option mapid) (file : string) (mode : Z) (nsid : nat) : M ostate unit :=
  modify (fun s => let a := os_args s in set_args (mkArgs (a_map a) (a_pending a) (a_libc a) false) s);;
  dl_open_worker_begin caller file mode nsid;;
  a ← gets os_args;
  if a_continue a then
    new ← lift (res_of_option (a_map a));
    no_exceptions (call_dl_init new);;
    when (has_flag mode RTLD_GLOBAL) (add_to_global_update new)
  else mret tt.

(** ** [_dl_open] *)
(** [_dl_find_object] for an address, [_dl_lookup_map] *)
Context (find_object : Z -> option mapid) (lookup_map : ostate -> nat -> string -> option mapid).
(** For [_dl_close_worker]. *)
Context (algo : dso_sort_algorithm) (visited : gset mapid) (closes : mapid -> list mapid) (scope_malloc_ok : mapid -> bool).

(** [for (nsid = 1; DL_NNS > 1 && nsid < GL(dl_nns); ++nsid)] *)
Fixpoint free_namespace (nss : list nsd) (nsid nns : Z) : Z :=
  match nss with
  | [] => nsid
  | ns :: nss => if nsid <? nns then match nd_loaded ns with [] => nsid | _ => free_namespace nss (nsid + 1) nns end else nsid
  end.

Definition new_namespace (file : string) : M ostate Z :=
  c ← gets os_c;
  let nsid := free_namespace (tail (cs_ns c)) 1 (cs_nns c) in
  if nsid =? DL_NNS then lift (Signal file "no more namespaces available for dlmopen()")
  else
    when (nsid =? cs_nns c) (on_close (modify (fun c => set_nns (cs_nns c + 1) c)));;
    ns ← get_ons (Z.to_nat nsid);
    put_ons (Z.to_nat nsid) (mkOns (on_pending ns) (on_alloc ns) None);;
    mret nsid.

(** [auditing]: [_ns_loaded->l_auditing] *)
Definition valid_namespace (auditing : nat -> bool) (c : cstate) (nsid : Z) : bool :=
  (0 <=? nsid) && (nsid <? cs_nns c) &&
  match cs_ns c !! Z.to_nat nsid with Some ns => negb (nd_nloaded ns =? 0) && negb (auditing (Z.to_nat nsid)) | None => false end.

Definition contains (c : Ascii.ascii) (str : string) : bool := existsb (Ascii.eqb c) (String.list_ascii_of_string str).

(** The map of the caller and the namespace; 36 is [$], 47 is [/]. *)
Definition caller_of (file : string) (caller_dlopen : Z) (nsid : Z) : M ostate (option mapid * Z) :=
  if (nsid =? __LM_ID_CALLER) || contains (Ascii.ascii_of_nat 36) file || negb (contains (Ascii.ascii_of_nat 47) file) then
    c ← gets os_c;
    caller ← lift (match find_object caller_dlopen with
                   | Some m => Ok m
                   | None => ns ← res_of_option (cs_ns c !! 0%nat); res_of_option (head (nd_loaded ns))
                   end);
    l ← o_get caller;
    mret (Some caller, if nsid =? __LM_ID_CALLER then Z.of_nat (ci_ns (c_id l)) else nsid)
  else mret (None, nsid).

Definition _dl_open (auditing : nat -> bool) (file : string) (mode caller_dlopen nsid : Z) : M ostate (option mapid) :=
  if Z.land mode RTLD_BINDING_MASK =? 0 then lift (Signal file "invalid mode for dlopen()")
  else
    c ← gets os_c;
    nsid ← (if nsid =? LM_ID_NEWLM then new_namespace file
            else if negb (nsid =? LM_ID_BASE) && negb (nsid =? __LM_ID_CALLER) && negb (valid_namespace auditing c nsid)
            then lift (Signal file "invalid target namespace in dlmopen()") else mret nsid);
    '(caller, nsid) ← caller_of file caller_dlopen nsid;
    let nsid := Z.to_nat nsid in
    s ← gets id;
    let map := lookup_map s nsid file in
    full ← is_already_fully_open map mode;
    match full, map with
    | true, Some m => o_set m (fun l => with_open (u32 (c_open l + 1)) l);; mret map
    | _, _ =>
        modify (set_args (mkArgs map 0 false false));;
        r ← catch (dl_open_worker caller file mode nsid);
        a ← gets os_args;
        modify (set_args (os_args s));;
        ns ← get_ons nsid;
        put_ons nsid (mkOns (a_pending a) (on_alloc ns) (on_libc ns));;
        match r with
        | inl (o, e) =>
            when (negb (a_libc a)) (ns ← get_ons nsid; put_ons nsid (mkOns (on_pending ns) (on_alloc ns) None));;
            (match a_map a with Some m => on_close (_dl_close_worker algo visited closes scope_malloc_ok m true) | None => mret tt end);;
            lift (Signal o e)
        | inr _ => mret (a_map a)
        end
    end.
End Open.
