(* ===== verification/OpenSpec.v ===== *)
(** * Opening objects: all or nothing

    [dl_open_worker_begin] requests all memory before it changes anything other code can see.  An exception leaves scopes, the global
    scope and the marks of the objects as they were; without one, all changes are made. *)

From S2P Require Import Prelude LinkMap SortMaps TlsOffset LoadCmds DynTls Close Open.

(** ** Running code

    [owp T R Q m s]: [m] returns with [Q], raises an exception with [R] or stops the process with a message [T]. *)
Definition owp {A} (T : string -> Prop) (R : string -> string -> ostate -> Prop) (Q : A -> ostate -> Prop) (m : M ostate A) (s : ostate) : Prop :=
  match m s with Ret a s' => Q a s' | Raise o e s' => R o e s' | Stop e => T e | _ => False end.
Definition nostop (e : string) : Prop := False.

Section Owp.
Context (T : string -> Prop) (R : string -> string -> ostate -> Prop).
Lemma owp_bind {A B} (m : M ostate A) (k : A -> M ostate B) (Q : B -> ostate -> Prop) s : owp T R (fun a s1 => owp T R Q (k a) s1) m s -> owp T R Q (m ≫= k) s.
Proof. unfold owp, mbind, M_bind. by destruct (m s). Qed.
Lemma owp_step {A B} (m : M ostate A) (k : A -> M ostate B) (Q : B -> ostate -> Prop) s a s1 : m s = Ret a s1 -> owp T R Q (k a) s1 -> owp T R Q (m ≫= k) s.
Proof. intros E. unfold owp. by rewrite (M_bind_step _ _ _ _ _ E). Qed.
Lemma owp_ret {A} (m : M ostate A) (Q : A -> ostate -> Prop) s a s1 : m s = Ret a s1 -> Q a s1 -> owp T R Q m s.
Proof. unfold owp. by intros ->. Qed.
Lemma owp_raise {A} (m : M ostate A) (Q : A -> ostate -> Prop) s o e s1 : m s = Raise o e s1 -> R o e s1 -> owp T R Q m s.
Proof. unfold owp. by intros ->. Qed.
Lemma owp_raise_bind {A B} (m : M ostate A) (k : A -> M ostate B) (Q : B -> ostate -> Prop) s o e s1 : m s = Raise o e s1 -> R o e s1 -> owp T R Q (m ≫= k) s.
Proof. unfold owp, mbind, M_bind. by intros ->. Qed.
Lemma owp_mono {A} (Q Q' : A -> ostate -> Prop) m s : owp T R Q m s -> (forall a s', Q a s' -> Q' a s') -> owp T R Q' m s.
Proof. unfold owp. destruct (m s); auto. Qed.
End Owp.
Lemma owp_raises {A} T T' (R R' : string -> string -> ostate -> Prop) (Q : A -> ostate -> Prop) m s : owp T R Q m s -> (forall o e s', R o e s' -> R' o e s') -> (forall e, T e -> T' e) -> owp T' R' Q m s.
Proof. unfold owp. destruct (m s); auto. Qed.

(** ** The state *)
Definition maps (s : ostate) : gmap mapid cmap := cs_maps (os_c s).
Definition set_maps (x : gmap mapid cmap) (s : ostate) : ostate := set_c (set_cmaps x (os_c s)) s.

Lemma set_c_same s : set_c (os_c s) s = s.
Proof. by destruct s. Qed.
Lemma o_get_run m s l : maps s !! m = Some l -> o_get m s = Ret l s.
Proof. unfold maps. intros H. unfold o_get, on_close, c_get. rewrite H. by rewrite set_c_same. Qed.
Lemma o_set_run m f s : o_set m f s = Ret tt (set_maps (alter f m (maps s)) s).
Proof. done. Qed.

(** What other code sees of an object; array sizes and the number of uses are left out. *)
Definition pub (l : cmap) := (ci_type (c_id l), ci_ns (c_id l), ci_name (c_id l), ci_nodelete (c_id l), ci_global (c_id l), c_init_called l, sc_list (c_scope l)).
Definition kept (l l' : cmap) : Prop :=
  pub l' = pub l /\ (is_Some (sc_searchlist (c_scope l)) -> sc_searchlist (c_scope l') = sc_searchlist (c_scope l) /\ ci_initfini (c_id l') = ci_initfini (c_id l)).
#[export] Instance kept_preorder : PreOrder kept.
Proof.
  split; [by intros l; split|]. intros l1 l2 l3 [A1 A2] [B1 B2]. split; [congruence|]. intros H. destruct (A2 H) as [E1 E2]. rewrite <- E1 in H. destruct (B2 H) as [F1 F2]. split; congruence.
Qed.

(** Nothing that other code sees has changed; objects may have been added. *)
Record quiet (s s' : ostate) : Prop := {
  q_maps : forall m l, maps s !! m = Some l -> exists l', maps s' !! m = Some l' /\ kept l l';
  q_msl : forall n, nd_msl <$> cs_ns (os_c s') !! n = nd_msl <$> cs_ns (os_c s) !! n;
  q_ons : forall n, is_Some (os_ns s !! n) -> is_Some (os_ns s' !! n);
  q_nodelete : os_nodelete s ⊆ os_nodelete s';
  q_relocated : os_relocated s ⊆ os_relocated s' }.
#[export] Instance quiet_preorder : PreOrder quiet.
Proof.
  split; [intros s; split; try done; eauto; intros m l H; exists l; by split|]. intros s1 s2 s3 [A1 A2 A3 A4 A5] [B1 B2 B3 B4 B5]. split; [|congruence|auto|set_solver|set_solver].
  intros m l Hl. destruct (A1 m l Hl) as (l2 & H2 & K2). destruct (B1 m l2 H2) as (l3 & H3 & K3). exists l3. split; [done|]. by etrans.
Qed.
Lemma quiet_known s s' m : quiet s s' -> is_Some (maps s !! m) -> is_Some (maps s' !! m).
Proof. intros H [l Hl]. destruct (q_maps _ _ H m l Hl) as (l' & ? & _). by exists l'. Qed.

(** A state in order. *)
Record ok (s : ostate) : Prop := {
  ok_scope : forall m l, maps s !! m = Some l -> scope_size l < sc_max (c_scope l);
  ok_search : forall m l v, maps s !! m = Some l -> v ∈ search_of l -> is_Some (maps s !! v);
  ok_ns : forall m l, maps s !! m = Some l -> is_Some (cs_ns (os_c s) !! ci_ns (c_id l)) /\ is_Some (os_ns s !! ci_ns (c_id l));
  ok_libc : forall n ns m, os_ns s !! n = Some ns -> on_libc ns = Some m -> is_Some (maps s !! m);
  ok_nums : forall n ns, os_ns s !! n = Some ns -> 0 <= on_pending ns /\ 0 <= on_alloc ns < 2 ^ 32 }.

Lemma alter_Some (f : cmap -> cmap) (m : mapid) (ms : gmap mapid cmap) k l : alter f m ms !! k = Some l -> exists l0, ms !! k = Some l0 /\ l = if decide (k = m) then f l0 else l0.
Proof.
  destruct (decide (k = m)) as [->|]; [rewrite lookup_alter_eq|rewrite lookup_alter_ne by done; eauto]. destruct (ms !! m) as [l0|]; [|done]. intros [= <-]. eauto.
Qed.
Lemma alter_known (f : cmap -> cmap) (m : mapid) (ms : gmap mapid cmap) k : is_Some (ms !! k) -> is_Some (alter f m ms !! k).
Proof. intros [l Hl]. destruct (decide (k = m)) as [->|]; [rewrite lookup_alter_eq, Hl|rewrite lookup_alter_ne by done]; by eexists. Qed.
Lemma alter_quiet f m s : (forall l, maps s !! m = Some l -> kept l (f l)) -> quiet s (set_maps (alter f m (maps s)) s).
Proof.
  intros Hf. split; try done. intros k l Hl. change (exists l', alter f m (maps s) !! k = Some l' /\ kept l l').
  destruct (decide (k = m)) as [->|]; [rewrite lookup_alter_eq, Hl; exists (f l); auto|rewrite lookup_alter_ne by done; by exists l].
Qed.
Lemma alter_ok f m s : ok s -> (forall l, maps s !! m = Some l -> scope_size (f l) < sc_max (c_scope (f l)) /\ ci_ns (c_id (f l)) = ci_ns (c_id l) /\ search_of (f l) = search_of l) ->
  ok (set_maps (alter f m (maps s)) s).
Proof.
  intros [A1 A2 A3 A4 A5] Hf. split; change (maps (set_maps (alter f m (maps s)) s)) with (alter f m (maps s)).
  - intros k l (l0 & Hl0 & ->)%alter_Some. destruct (decide (k = m)) as [->|]; [by apply Hf|eauto].
  - intros k l v (l0 & Hl0 & ->)%alter_Some Hv. apply alter_known. apply (A2 k l0 v Hl0). destruct (decide (k = m)) as [->|]; [|done]. by rewrite (proj2 (proj2 (Hf l0 Hl0))) in Hv.
  - intros k l (l0 & Hl0 & ->)%alter_Some. destruct (decide (k = m)) as [->|]; [rewrite (proj1 (proj2 (Hf l0 Hl0)))|]; by eapply A3.
  - intros n ns k Hn Hk. apply alter_known. by apply (A4 n ns).
  - done.
Qed.
Lemma ok_alloc s n : ok s -> ok (set_oallocs n s).
Proof. by intros [A1 A2 A3 A4 A5]. Qed.
Lemma quiet_alloc s n : quiet s (set_oallocs n s).
Proof. split; try done. intros m l Hl. by exists l. Qed.

(** ** Scopes *)
Definition roomy (new m : mapid) (ms : gmap mapid cmap) : Prop := forall l, ms !! m = Some l -> old_object l = true -> scope_has_map l new = false ->
  scope_size l + 1 < sc_max (c_scope l).
(** Only the sizes of scope arrays have grown. *)
Definition sized (ms ms' : gmap mapid cmap) : Prop := (forall m, is_Some (ms !! m) -> is_Some (ms' !! m)) /\
  forall m l', ms' !! m = Some l' -> exists l, ms !! m = Some l /\
    l' = with_scopes (sc_list (c_scope l)) (sc_in_mem (c_scope l')) (sc_max (c_scope l')) l /\ sc_max (c_scope l) <= sc_max (c_scope l').

Lemma with_scopes_same l : with_scopes (sc_list (c_scope l)) (sc_in_mem (c_scope l)) (sc_max (c_scope l)) l = l.
Proof. destruct l as [? ? ? ? ? []]. done. Qed.
Lemma sized_refl ms : sized ms ms.
Proof. split; [done|]. intros m l Hl. exists l. split; [done|]. by rewrite with_scopes_same. Qed.
Lemma sized_trans ms1 ms2 ms3 : sized ms1 ms2 -> sized ms2 ms3 -> sized ms1 ms3.
Proof.
  intros [K1 H1] [K2 H2]. split; [auto|]. intros m l3 Hl3. destruct (H2 m l3 Hl3) as (l2 & Hl2 & E3 & L3). destruct (H1 m l2 Hl2) as (l1 & Hl1 & E2 & L2). exists l1. split; [done|]. split; [|lia].
  rewrite E3 at 1. rewrite E2. done.
Qed.
Lemma roomy_sized new m ms ms' : sized ms ms' -> roomy new m ms -> roomy new m ms'.
Proof. intros [_ Hs] Hr l' Hl'. destruct (Hs m l' Hl') as (l & Hl & E & Hle). rewrite E. intros Ho Hh. specialize (Hr l Hl Ho Hh). cbn. unfold scope_size in *. cbn. lia. Qed.

(** The scope of an object after [new] was added to the scopes of [ms]. *)
Definition extended (new : mapid) (ms : list mapid) (m : mapid) (l : cmap) : cmap :=
  with_scopes (if bool_decide (m ∈ ms) && old_object l && negb (scope_has_map l new) then sc_list (c_scope l) ++ [SearchOf new] else sc_list (c_scope l))
    (sc_in_mem (c_scope l)) (sc_max (c_scope l)) l.
Lemma extended_nothing new ms m l : bool_decide (m ∈ ms) && old_object l && negb (scope_has_map l new) = false -> extended new ms m l = l.
Proof. intros E. unfold extended. rewrite E. apply with_scopes_same. Qed.
Lemma extended_cons new m ms k l : extended new (m :: ms) k l = extended new ms k (extended new [m] k l).
Proof.
  destruct (bool_decide (k ∈ [m]) && old_object l && negb (scope_has_map l new)) eqn:E.
  - assert (E' : bool_decide (k ∈ m :: ms) && old_object l && negb (scope_has_map l new) = true).
    { apply andb_true_iff in E as [[E1%bool_decide_eq_true E2]%andb_true_iff E3]. rewrite E2, E3, bool_decide_eq_true_2 by set_solver. done. }
    rewrite (extended_nothing new ms k (extended new [m] k l)); unfold extended; [by rewrite E, E'|]. rewrite E. unfold scope_has_map. cbn.
    rewrite (bool_decide_eq_true_2 (SearchOf new ∈ _)) by set_solver. by rewrite andb_false_r.
  - rewrite (extended_nothing new [m] k l E). destruct (decide (k = m)) as [->|Hn].
    + rewrite bool_decide_eq_true_2 in E by set_solver. cbn [andb] in E. rewrite !extended_nothing; [done|..]; rewrite <- andb_assoc, E; by rewrite andb_false_r.
    + unfold extended. by rewrite (bool_decide_ext (k ∈ m :: ms) (k ∈ ms)) by set_solver.
Qed.

Lemma update_scope_run new m s : is_Some (maps s !! m) -> roomy new m (maps s) ->
  exists ms', update_scope new m s = Ret tt (set_maps ms' s) /\ forall k, ms' !! k = extended new [m] k <$> maps s !! k.
Proof.
  intros [l Hl] Hr. unfold update_scope. rewrite (M_bind_step _ _ _ l s) by (by apply o_get_run). destruct (old_object l && negb (scope_has_map l new)) eqn:E.
  - apply andb_true_iff in E as [E1 E2%negb_true_iff]. specialize (Hr l Hl E1 E2). rewrite (proj2 (Z.ltb_lt _ _) Hr). rewrite (M_bind_step _ _ _ tt s) by done.
    eexists. split; [apply o_set_run|]. intros k. destruct (decide (k = m)) as [->|Hn].
    + rewrite lookup_alter_eq, Hl. cbn. unfold extended. by rewrite bool_decide_eq_true_2, E1, E2 by set_solver.
    + rewrite lookup_alter_ne by done. destruct (maps s !! k) as [lk|]; [|done]. cbn. rewrite extended_nothing; [done|]. by rewrite bool_decide_eq_false_2 by set_solver.
  - exists (maps s). split; [by destruct s as [[] ? ? ? ? ? ? ?]|]. intros k. destruct (maps s !! k) as [lk|] eqn:Ek; [|done]. cbn. rewrite extended_nothing; [done|].
    destruct (decide (k = m)) as [->|Hn]; [|by rewrite bool_decide_eq_false_2 by set_solver]. assert (lk = l) as -> by congruence. rewrite <- andb_assoc, E. apply andb_false_r.
Qed.
Lemma update_scopes_run new ms : forall s, (forall m, m ∈ ms -> is_Some (maps s !! m) /\ roomy new m (maps s)) ->
  exists ms', update_scopes_of new ms s = Ret tt (set_maps ms' s) /\ forall k, ms' !! k = extended new ms k <$> maps s !! k.
Proof.
  induction ms as [|m ms IH]; intros s Hin; cbn [update_scopes_of].
  - exists (maps s). split; [by destruct s as [[] ? ? ? ? ? ? ?]|]. intros k. destruct (maps s !! k) as [lk|]; [|done]. cbn. rewrite extended_nothing; [done|]. by rewrite bool_decide_eq_false_2 by set_solver.
  - destruct (Hin m ltac:(left)) as [Hk Hr]. destruct (update_scope_run new m s Hk Hr) as (ms1 & E1 & H1). rewrite (M_bind_step _ _ _ _ _ E1).
    destruct (IH (set_maps ms1 s)) as (ms2 & E2 & H2).
    + intros k Hkin. destruct (Hin k ltac:(by right)) as [[lk Hlk] Hrk]. change (maps (set_maps ms1 s)) with ms1. rewrite H1, Hlk. split; [by eexists|].
      intros l' Hl'. rewrite H1, Hlk in Hl'. injection Hl' as <-. specialize (Hrk lk Hlk). unfold extended, scope_has_map, scope_size in *. cbn. intros Ho Hh.
      destruct (bool_decide (k ∈ [m]) && old_object lk && negb (bool_decide (SearchOf new ∈ sc_list (c_scope lk)))); [|by apply Hrk]. apply bool_decide_eq_false in Hh. set_solver.
    + exists ms2. split; [done|]. intros k. rewrite H2. change (maps (set_maps ms1 s)) with ms1. rewrite H1. destruct (maps s !! k) as [lk|]; [|done].
      change (Some (extended new ms k (extended new [m] k lk)) = Some (extended new (m :: ms) k lk)). f_equal. symmetry. apply extended_cons.
Qed.

Section Alloc.
Context (alloc_ok : nat -> bool).
#[local] Abbreviation scope_raise s0 := (fun o e s' => o = "dlopen"%string /\ e = "cannot create scope list"%string /\ ok s' /\ quiet s0 s' /\ cs_tls (os_c s') = cs_tls (os_c s0)).

Lemma resize_scope_spec new m s s0 : ok s -> quiet s0 s -> cs_tls (os_c s) = cs_tls (os_c s0) -> is_Some (maps s !! m) ->
  owp nostop (scope_raise s0) (fun _ s' => ok s' /\ quiet s0 s' /\ cs_tls (os_c s') = cs_tls (os_c s0) /\ sized (maps s) (maps s') /\ roomy new m (maps s')) (resize_scope alloc_ok new m) s.
Proof.
  intros Hok Hq0 Et [l Hl]. unfold resize_scope. apply (owp_step _ _ _ _ _ s l s); [by apply o_get_run|].
  pose proof (ok_scope _ Hok m l Hl) as Hsz. pose proof (Zle_0_nat (length (sc_list (c_scope l)))) as Hpos.
  destruct (old_object l && negb (scope_has_map l new)) eqn:E1; cbn [andb].
  2:{ apply (owp_ret _ _ _ _ s tt s); [done|]. split; [done|]. split; [done|]. split; [done|]. split; [apply sized_refl|]. intros l' Hl' Ho Hh. assert (l' = l) as -> by congruence. by rewrite Ho, Hh in E1. }
  destruct (Z.leb_spec (sc_max (c_scope l)) (scope_size l + 1)) as [Hle|Hgt].
  2:{ apply (owp_ret _ _ _ _ s tt s); [done|]. split; [done|]. split; [done|]. split; [done|]. split; [apply sized_refl|]. intros l' Hl' _ _. assert (l' = l) as -> by congruence. lia. }
  assert (Hfin : forall s1 b n, (exists k, s1 = set_oallocs k s) -> sc_max (c_scope l) < n ->
    owp nostop (scope_raise s0) (fun _ s' => ok s' /\ quiet s0 s' /\ cs_tls (os_c s') = cs_tls (os_c s0) /\ sized (maps s) (maps s') /\ roomy new m (maps s'))
      (if scope_size l + 1 <=? n then o_set m (with_scopes (sc_list (c_scope l)) b n) else lift Undef) s1).
  { intros s1 b n [k ->] Hn. rewrite (proj2 (Z.leb_le _ _)) by lia. set (f := with_scopes (sc_list (c_scope l)) b n). apply (owp_ret _ _ _ _ _ tt (set_maps (alter f m (maps s)) (set_oallocs k s))); [done|].
    assert (Hf : forall l0, maps (set_oallocs k s) !! m = Some l0 -> l0 = l) by (intros l0 H0; change (maps s !! m = Some l0) in H0; congruence).
    split; [apply (alter_ok f m (set_oallocs k s)); [by apply ok_alloc|]; intros l0 ->%Hf; cbn; unfold scope_size in *; cbn; split; [lia|done]|].
    split; [etrans; [exact Hq0|]; etrans; [apply (quiet_alloc s k)|]; apply (alter_quiet f m (set_oallocs k s)); by intros l0 ->%Hf|]. split; [done|].
    change (maps (set_maps (alter f m (maps s)) (set_oallocs k s))) with (alter f m (maps s)). split.
    - split; [intros j; apply alter_known|]. intros j l' (l0 & Hl0 & ->)%alter_Some. exists l0. split; [done|]. destruct (decide (j = m)) as [->|]; [|by rewrite with_scopes_same]. assert (l0 = l) as -> by congruence. cbn. split; [done|lia].
    - intros l' Hl' _ _. rewrite lookup_alter_eq, Hl in Hl'. injection Hl' as <-. cbn. unfold scope_size in *. cbn. lia. }
  destruct (negb (sc_in_mem (c_scope l)) && (sc_max (c_scope l) <? SCOPE_ELEMS)) eqn:E2.
  - apply andb_true_iff in E2 as [_ E2%Z.ltb_lt]. apply (owp_step _ _ _ _ _ s (SCOPE_ELEMS, true) s); [done|]. apply (Hfin s true SCOPE_ELEMS); [|done]. exists (os_allocs s). by destruct s.
  - destruct (alloc_ok (os_allocs s)) eqn:Ea.
    + apply (owp_step _ _ _ _ _ s (sc_max (c_scope l) * 2, false) (set_oallocs (S (os_allocs s)) s)); [unfold mbind, M_bind, o_alloc; by rewrite Ea|]. apply (Hfin _ false (sc_max (c_scope l) * 2)); [by eexists|]. unfold scope_size in *. lia.
    + apply (owp_raise_bind _ _ _ _ _ s "dlopen" "cannot create scope list" (set_oallocs (S (os_allocs s)) s)); [unfold mbind, M_bind, o_alloc; by rewrite Ea|].
      split; [done|]. split; [done|]. split; [by apply ok_alloc|]. split; [etrans; [exact Hq0|apply quiet_alloc]|done].
Qed.

Lemma resize_scopes_of_spec new ms : forall s s0, ok s -> quiet s0 s -> cs_tls (os_c s) = cs_tls (os_c s0) -> (forall m, m ∈ ms -> is_Some (maps s !! m)) ->
  owp nostop (scope_raise s0) (fun _ s' => ok s' /\ quiet s0 s' /\ cs_tls (os_c s') = cs_tls (os_c s0) /\ sized (maps s) (maps s') /\ forall m, m ∈ ms -> roomy new m (maps s')) (resize_scopes_of alloc_ok new ms) s.
Proof.
  induction ms as [|m ms IH]; intros s s0 Hok Hq Et Hin; cbn [resize_scopes_of].
  - apply (owp_ret _ _ _ _ s tt s); [done|]. split; [done|]. split; [done|]. split; [done|]. split; [apply sized_refl|]. by intros m ?%elem_of_nil.
  - apply owp_bind. eapply owp_mono; [apply (resize_scope_spec new m s s0 Hok Hq Et); apply Hin; left|]. intros _ s1 (Hok1 & Hq1 & Et1 & Hs1 & Hr1).
    eapply owp_mono; [apply (IH s1 s0 Hok1 Hq1 Et1)|].
    + intros k Hk. apply Hs1, Hin. by right.
    + intros _ s2 (Hok2 & Hq2 & Et2 & Hs2 & Hr2). split; [done|]. split; [done|]. split; [done|]. split; [by apply (sized_trans _ (maps s1))|].
      intros k [->|Hk]%elem_of_cons; [by apply (roomy_sized _ _ (maps s1))|auto].
Qed.
End Alloc.

(** ** The global scope *)
Definition not_global (ms : gmap mapid cmap) (m : mapid) : bool := match ms !! m with Some l => negb (ci_global (c_id l)) | None => false end.
Definition to_add (ms : gmap mapid cmap) (L : list mapid) : Z := Z.of_nat (length (filter (fun m => not_global ms m = true) L)).
Lemma to_add_nonneg ms L : 0 <= to_add ms L.
Proof. apply Zle_0_nat. Qed.
Lemma to_add_cons ms m L : to_add ms (m :: L) = (if not_global ms m then 1 else 0) + to_add ms L.
Proof. unfold to_add. rewrite filter_cons. destruct (not_global ms m); [rewrite decide_True by done; cbn [length]; lia|rewrite decide_False by done; lia]. Qed.
(** The number is no larger when more objects are global. *)
Lemma to_add_mono ms ms' L : (forall m, m ∈ L -> not_global ms' m = true -> not_global ms m = true) -> to_add ms' L <= to_add ms L.
Proof.
  induction L as [|m L IH]; intros H; [done|]. rewrite !to_add_cons. specialize (IH (fun k Hk => H k ltac:(by right))). pose proof (H m ltac:(by left)).
  destruct (not_global ms' m), (not_global ms m); try lia.
Qed.

Lemma count_run ms s : (forall m, m ∈ ms -> is_Some (maps s !! m)) -> count_not_global ms s = Ret (to_add (maps s) ms) s.
Proof.
  induction ms as [|m ms IH]; intros Hin; [done|]. cbn [count_not_global]. destruct (Hin m ltac:(left)) as [l Hl]. rewrite (M_bind_step _ _ _ l s) by (by apply o_get_run).
  rewrite (M_bind_step _ _ _ _ _ (IH (fun k Hk => Hin k ltac:(by right)))). rewrite to_add_cons. unfold not_global. rewrite Hl. destruct (ci_global (c_id l)); cbn [negb]; unfold mret, M_ret; f_equal; lia.
Qed.

(** The namespace and its numbers after a request. *)
Definition requested (nsid : nat) (o o' : ons) (s s' : ostate) : Prop := exists k, s' = set_oallocs k (set_ns (<[nsid := o']> (os_ns s)) s) /\ on_libc o' = on_libc o.

Lemma get_ons_run n o s : os_ns s !! n = Some o -> get_ons n s = Ret o s.
Proof. unfold get_ons. by intros ->. Qed.
Lemma get_ns_run n x s : cs_ns (os_c s) !! n = Some x -> on_close (get_nsd n) s = Ret x s.
Proof. unfold on_close, get_nsd. intros ->. by rewrite set_c_same. Qed.

Section Global.
Context (alloc_ok : nat -> bool) (libname : mapid -> string).

Lemma main_searchlist_run x s : cs_ns (os_c s) !! 0%nat = Some x -> main_searchlist 0 s = Ret (nd_msl x) s.
Proof. intros H. unfold main_searchlist. by rewrite (M_bind_step _ _ _ _ _ (get_ns_run _ _ _ H)). Qed.
(** Only the base namespace has a global scope. *)
Lemma main_searchlist_base n s : match main_searchlist n s with Ret _ s' => n = 0%nat /\ s' = s | Wild => True | _ => False end.
Proof.
  unfold main_searchlist, mbind, M_bind, on_close, get_nsd. destruct (cs_ns (os_c s) !! n); [|done]. rewrite set_c_same.
  by destruct (Z.eqb_spec (Z.of_nat n) LM_ID_BASE) as [E|E]; [assert (n = 0%nat) as -> by (unfold LM_ID_BASE in E; lia)|].
Qed.

(** When memory is there, the array has room for everything that is pending. *)
Lemma resize_global_spec new s l o nsd : ci_ns (c_id l) = 0%nat -> maps s !! new = Some l -> (forall m, m ∈ search_of l -> is_Some (maps s !! m)) -> os_ns s !! ci_ns (c_id l) = Some o ->
  cs_ns (os_c s) !! ci_ns (c_id l) = Some nsd -> 0 <= on_pending o -> 0 <= on_alloc o < 2 ^ 32 ->
  owp nostop (fun n e s' => n = libname new /\ e = "cannot extend global scope"%string /\ exists o', requested (ci_ns (c_id l)) o o' s s' /\ 0 <= on_pending o' /\ on_alloc o' = on_alloc o)
    (fun _ s' => exists o', requested (ci_ns (c_id l)) o o' s s' /\ on_pending o' = on_pending o + to_add (maps s) (search_of l) /\
       Z.of_nat (length (nd_msl nsd)) + on_pending o' <= on_alloc o' < 2 ^ 32 /\ on_alloc o <= on_alloc o') (add_to_global_resize alloc_ok libname new) s.
Proof.
  intros Hbase Hl Hin Ho Hn Hp Ha. set (nsid := ci_ns (c_id l)) in *. unfold add_to_global_resize. apply (owp_step _ _ _ _ _ s l s); [by apply o_get_run|]. fold nsid.
  apply (owp_step _ _ _ _ _ s _ s (count_run _ s Hin)). apply (owp_step _ _ _ _ _ s _ s (get_ons_run _ _ _ Ho)). set (n := to_add (maps s) (search_of l)).
  pose proof (to_add_nonneg (maps s) (search_of l)) as Hn0. fold n in Hn0. set (o1 := mkOns (u32 (on_pending o + n)) (on_alloc o) (on_libc o)). set (s1 := set_ns (<[nsid := o1]> (os_ns s)) s).
  apply (owp_step _ _ _ _ _ s tt s1); [done|]. assert (R1 : requested nsid o o1 s s1) by (exists (os_allocs s); split; [by destruct s|done]).
  assert (Ho1 : os_ns s1 !! nsid = Some o1) by (apply list_lookup_insert_eq; by eapply lookup_lt_Some).
  destruct (Z.leb_spec (2 ^ 32) (on_pending o + n)) as [Hov|Hov].
  { apply (owp_raise_bind _ _ _ _ _ s1 (libname new) "cannot extend global scope" s1); [done|]. split; [done|]. split; [done|]. exists o1. split; [done|]. split; [apply u32_bound|done]. }
  apply (owp_step _ _ _ _ _ s1 tt s1); [done|]. apply (owp_step _ _ _ _ _ s1 _ s1 (get_ons_run _ _ _ Ho1)). apply (owp_step _ _ _ _ _ s1 (nd_msl nsd) s1); [rewrite Hbase in *; by apply main_searchlist_run|].
  assert (Eu : on_pending o1 = on_pending o + n) by (apply u32_small; lia). cbn [on_alloc on_libc o1]. rewrite Eu. set (req := Z.of_nat (length (nd_msl nsd)) + (on_pending o + n)).
  assert (Hreq : 0 <= req) by lia.
  set (R := fun nm e s' => nm = libname new /\ e = "cannot extend global scope"%string /\ exists o', requested nsid o o' s s' /\ 0 <= on_pending o' /\ on_alloc o' = on_alloc o).
  set (Q := fun (_ : unit) s' => exists o', requested nsid o o' s s' /\ on_pending o' = on_pending o + n /\ Z.of_nat (length (nd_msl nsd)) + on_pending o' <= on_alloc o' < 2 ^ 32 /\ on_alloc o <= on_alloc o').
  assert (Hfail : forall A (k : A -> M ostate unit), owp nostop R Q (add_to_global_resize_failure libname new ≫= k) s1).
  { intros A k. apply (owp_raise_bind _ _ _ _ _ s1 (libname new) "cannot extend global scope" s1); [done|]. split; [done|]. split; [done|]. exists o1. split; [done|]. split; [apply u32_bound|done]. }
  assert (Hgrow : forall size, 0 < size -> req <= size < 2 ^ 32 -> on_alloc o <= size ->
    owp nostop R Q (if 0 <? size then ok ← o_alloc alloc_ok; if (ok : bool) then put_ons nsid (mkOns (on_pending o + n) size (on_libc o)) else add_to_global_resize_failure libname new else mret tt) s1).
  { intros size Hs Hr Hle. rewrite (proj2 (Z.ltb_lt 0 size)) by done. set (s2 := set_oallocs (S (os_allocs s1)) s1). apply (owp_step _ _ _ _ _ s1 (alloc_ok (os_allocs s1)) s2); [done|].
    destruct (alloc_ok (os_allocs s1)).
    - set (o2 := mkOns (on_pending o + n) size (on_libc o)). apply (owp_ret _ _ _ _ s2 tt (set_ns (<[nsid := o2]> (os_ns s2)) s2)); [done|]. exists o2. split; [|cbn; split; [done|]; split; [lia|done]].
      exists (S (os_allocs s)). split; [|done]. unfold s2, s1, set_oallocs, set_ns. cbn. by rewrite list_insert_insert_eq.
    - apply (owp_raise _ _ _ _ s2 (libname new) "cannot extend global scope" s2); [done|]. split; [done|]. split; [done|]. exists o1. split; [exists (S (os_allocs s)); by split|]. split; [apply u32_bound|done]. }
  destruct (Z.leb_spec (2 ^ 64) req); [apply Hfail|]. apply (owp_step _ _ _ _ _ s1 tt s1); [done|]. destruct (Z.eqb_spec (on_alloc o) 0) as [E0|E0].
  - destruct (Z.leb_spec (2 ^ 32) (req + 8)); [apply Hfail|]. apply (owp_step _ _ _ _ _ s1 (req + 8) s1); [done|]. apply Hgrow; lia.
  - destruct (Z.ltb_spec (on_alloc o) req) as [Hlt|Hge].
    + destruct (Z.leb_spec (2 ^ 32) (req * 2)); [apply Hfail|]. apply (owp_step _ _ _ _ _ s1 (req * 2) s1); [done|]. apply Hgrow; lia.
    + apply (owp_step _ _ _ _ _ s1 0 s1); [done|]. apply (owp_ret _ _ _ _ s1 tt s1); [done|]. exists o1. split; [done|]. split; [done|]. change (on_alloc o1) with (on_alloc o). rewrite Eu. split; [lia|done].
Qed.

(** In all other namespaces the request never returns. *)
Lemma resize_global_other new s l o : ci_ns (c_id l) <> 0%nat -> maps s !! new = Some l -> (forall m, m ∈ search_of l -> is_Some (maps s !! m)) -> os_ns s !! ci_ns (c_id l) = Some o ->
  match add_to_global_resize alloc_ok libname new s with
  | Ret _ _ => False
  | Raise n e s' => exists o', requested (ci_ns (c_id l)) o o' s s' /\ 0 <= on_pending o' /\ on_alloc o' = on_alloc o
  | _ => True
  end.
Proof.
  intros Hns Hl Hin Ho. unfold add_to_global_resize. rewrite (M_bind_step _ _ _ l s) by (by apply o_get_run). set (nsid := ci_ns (c_id l)) in *.
  rewrite (M_bind_step _ _ _ _ _ (count_run _ s Hin)), (M_bind_step _ _ _ _ _ (get_ons_run _ _ _ Ho)). set (n := to_add (maps s) (search_of l)).
  set (o1 := mkOns (u32 (on_pending o + n)) (on_alloc o) (on_libc o)). set (s1 := set_ns (<[nsid := o1]> (os_ns s)) s). rewrite (M_bind_step _ _ _ tt s1) by done.
  destruct (2 ^ 32 <=? on_pending o + n).
  { unfold mbind, M_bind, add_to_global_resize_failure, lift. exists o1. split; [exists (os_allocs s); split; [by destruct s|done]|]. split; [apply u32_bound|done]. }
  rewrite (M_bind_step _ _ _ tt s1) by done. assert (Ho1 : os_ns s1 !! nsid = Some o1) by (apply list_lookup_insert_eq; by eapply lookup_lt_Some).
  rewrite (M_bind_step _ _ _ _ _ (get_ons_run _ _ _ Ho1)). pose proof (main_searchlist_base nsid s1) as H. unfold mbind, M_bind. destruct (main_searchlist nsid s1); try done. by destruct H.
Qed.
End Global.
