(* ===== verification/OpenGlobal.v ===== *)
(** * Opening objects: the global scope under nested [dlopen]

    Constructors run between the request for memory and the change of the global scope, and may open and close objects themselves.  The
    counter of pending objects makes the request good for all of them. *)

From S2P Require Import Prelude LinkMap SortMaps TlsOffset LoadCmds DynTls Close Open OpenSpec.

(** ** Making objects global *)
Lemma make_global_same l : ci_global (c_id l) = true -> make_global l = l.
Proof. destruct l as [[? ? ? ? ? g ? ? ? ? ? ?] ? ? ? ? ?]. cbn. by intros ->. Qed.

Lemma globalize_run alloc L : forall n s, (forall m, m ∈ L -> is_Some (maps s !! m)) -> n + to_add (maps s) L <= alloc ->
  exists added ms', globalize alloc n L s = Ret added (set_maps ms' s) /\ (forall k, ms' !! k = (if bool_decide (k ∈ L) then make_global else id) <$> maps s !! k) /\
    NoDup added /\ (forall k, k ∈ added <-> k ∈ L /\ not_global (maps s) k = true) /\ Z.of_nat (length added) <= to_add (maps s) L.
Proof.
  induction L as [|m L IH]; intros n s Hin Hroom.
  - exists [], (maps s). split; [by destruct s as [[] ? ? ? ? ? ? ?]|]. split; [intros k; rewrite bool_decide_eq_false_2 by (by intros ?%elem_of_nil); by destruct (maps s !! k)|].
    split; [constructor|]. split; [intros k; rewrite elem_of_nil; tauto|apply to_add_nonneg].
  - cbn [globalize]. destruct (Hin m ltac:(left)) as [l Hl]. rewrite (M_bind_step _ _ _ l s) by (by apply o_get_run). rewrite to_add_cons in *.
    assert (Hm : not_global (maps s) m = negb (ci_global (c_id l))) by (unfold not_global; by rewrite Hl). destruct (ci_global (c_id l)) eqn:Eg; rewrite Hm in *; cbn [negb] in *.
    + destruct (IH n s (fun k Hk => Hin k ltac:(by right)) ltac:(lia)) as (added & ms' & E & H1 & H2 & H3 & H4). exists added, ms'. split; [done|]. split.
      { intros k. rewrite H1. destruct (decide (k = m)) as [->|]; [|by rewrite (bool_decide_ext (k ∈ m :: L) (k ∈ L)) by set_solver].
        rewrite Hl, (bool_decide_eq_true_2 (m ∈ m :: L)) by set_solver. destruct (bool_decide (m ∈ L)); [done|]. cbn. by rewrite make_global_same. }
      split; [done|]. split; [|lia]. intros k. rewrite H3, elem_of_cons. split; [tauto|]. intros [[->|?] ?]; [congruence|done].
    + set (s1 := set_maps (alter make_global m (maps s)) s). rewrite (M_bind_step _ _ _ tt s1) by done. rewrite (proj2 (Z.ltb_lt n alloc)) by (pose proof (to_add_nonneg (maps s) L); lia).
      rewrite (M_bind_step _ _ _ tt s1) by done. assert (Hng : forall k, not_global (maps s1) k = if decide (k = m) then false else not_global (maps s) k).
      { intros k. unfold not_global. change (maps s1) with (alter make_global m (maps s)). destruct (decide (k = m)) as [->|]; [rewrite lookup_alter_eq, Hl; done|by rewrite lookup_alter_ne]. }
      assert (Hle : to_add (maps s1) L <= to_add (maps s) L) by (apply to_add_mono; intros k _; rewrite Hng; by destruct (decide (k = m))).
      destruct (IH (n + 1) s1) as (added & ms' & E & H1 & H2 & H3 & H4); [intros k Hk; apply alter_known, Hin; by right|lia|].
      rewrite (M_bind_step _ _ _ _ _ E). exists (m :: added), ms'. split; [done|]. split; [|split; [|split]].
      * intros k. rewrite H1. change (maps s1) with (alter make_global m (maps s)). destruct (decide (k = m)) as [->|Hn].
        -- rewrite lookup_alter_eq, Hl, (bool_decide_eq_true_2 (m ∈ m :: L)) by set_solver. by destruct (bool_decide (m ∈ L)).
        -- rewrite lookup_alter_ne by done. by rewrite (bool_decide_ext (k ∈ m :: L) (k ∈ L)) by set_solver.
      * constructor; [|done]. rewrite H3, Hng, decide_True by done. by intros [_ ?].
      * intros k. rewrite !elem_of_cons, H3, Hng. destruct (decide (k = m)) as [->|Hn]; [split; [intros _; split; [by left|done]|by left]|]. split; [intros [?|[? ?]]; [done|]; split; [by right|done]|].
        intros [[?|?] ?]; [done|]. by right.
      * cbn [length]. lia.
Qed.

(** The array [_ns_main_searchlist] after [added] objects, and the counter. *)
Definition globalized (nsid : nat) (o : ons) (nsd : nsd) (L added : list mapid) (s s' : ostate) : Prop :=
  os_ns s' = <[nsid := mkOns (on_pending o - Z.of_nat (length added)) (on_alloc o) (on_libc o)]> (os_ns s) /\
  cs_ns (os_c s') = <[nsid := mkNsd (nd_loaded nsd) (nd_nloaded nsd) (nd_msl nsd ++ added) (nd_unique nsd)]> (cs_ns (os_c s)) /\
  (forall k, maps s' !! k = (if bool_decide (k ∈ L) then make_global else id) <$> maps s !! k) /\
  NoDup added /\ (forall k, k ∈ added <-> k ∈ L /\ not_global (maps s) k = true) /\ Z.of_nat (length added) <= to_add (maps s) L.

Lemma update_global_run new s l o nsd : ci_ns (c_id l) = 0%nat -> maps s !! new = Some l -> (forall m, m ∈ search_of l -> is_Some (maps s !! m)) -> os_ns s !! ci_ns (c_id l) = Some o ->
  cs_ns (os_c s) !! ci_ns (c_id l) = Some nsd -> Z.of_nat (length (nd_msl nsd)) + on_pending o <= on_alloc o -> to_add (maps s) (search_of l) <= on_pending o ->
  exists added s', add_to_global_update new s = Ret tt s' /\ globalized (ci_ns (c_id l)) o nsd (search_of l) added s s'.
Proof.
  intros Hbase Hl Hin Ho Hn Hroom Hadd. unfold add_to_global_update. rewrite (M_bind_step _ _ _ l s) by (by apply o_get_run). set (nsid := ci_ns (c_id l)) in *.
  rewrite (M_bind_step _ _ _ _ _ (get_ons_run _ _ _ Ho)). rewrite (M_bind_step _ _ _ (nd_msl nsd) s) by (rewrite Hbase in *; by apply main_searchlist_run).
  destruct (globalize_run (on_alloc o) (search_of l) (Z.of_nat (length (nd_msl nsd))) s Hin ltac:(lia)) as (added & ms' & E & H1 & H2 & H3 & H4).
  rewrite (M_bind_step _ _ _ _ _ E). rewrite (proj2 (Z.leb_le _ _)) by lia. exists added. rewrite (M_bind_step _ _ _ tt (set_maps ms' s)) by done.
  erewrite M_bind_step by reflexivity. erewrite (M_bind_step (on_close (get_nsd nsid)) _ _ nsd) by (apply get_ns_run; exact Hn). eexists. split; [reflexivity|]. done.
Qed.

(** ** Nested [dlopen] *)

(** A [dlopen] with [RTLD_GLOBAL] that has requested its memory: the object and [original_global_scope_pending_adds]. *)
Record frame := mkFrame { fr_new : mapid; fr_pending : Z }.

(** The end of [_dl_open]. *)
Definition restore (nsid : nat) (p : Z) (s : ostate) : ostate := set_ns (alter (fun o => mkOns p (on_alloc o) (on_libc o)) nsid (os_ns s)) s.

(** Anything else the loader does: objects that wait to become global stay with their dependencies, nothing leaves the
    global state, and the global scope gets no new objects. *)
Record others (fs : list frame) (s s' : ostate) : Prop := {
  oth_ons : forall n, (fun o => (on_pending o, on_alloc o)) <$> os_ns s' !! n = (fun o => (on_pending o, on_alloc o)) <$> os_ns s !! n;
  oth_msl : forall n x', cs_ns (os_c s') !! n = Some x' -> exists x, cs_ns (os_c s) !! n = Some x /\ (length (nd_msl x') <= length (nd_msl x))%nat;
  oth_ns : forall n, is_Some (cs_ns (os_c s) !! n) -> is_Some (cs_ns (os_c s') !! n);
  oth_new : forall f l, f ∈ fs -> maps s !! fr_new f = Some l -> exists l', maps s' !! fr_new f = Some l' /\ ci_ns (c_id l') = ci_ns (c_id l) /\ search_of l' = search_of l /\
    forall m, m ∈ search_of l -> is_Some (maps s' !! m) /\ (not_global (maps s') m = true -> not_global (maps s) m = true) }.

Section Machine.
Context (alloc_ok : nat -> bool) (libname : mapid -> string).

Inductive gstep : ostate * list frame -> ostate * list frame -> Prop :=
  | g_request new l o fs s s' : maps s !! new = Some l -> (forall m, m ∈ search_of l -> is_Some (maps s !! m)) -> os_ns s !! ci_ns (c_id l) = Some o ->
      is_Some (cs_ns (os_c s) !! ci_ns (c_id l)) -> add_to_global_resize alloc_ok libname new s = Ret tt s' -> gstep (s, fs) (s', mkFrame new (on_pending o) :: fs)
  | g_refused new l o fs s s' nm e : maps s !! new = Some l -> (forall m, m ∈ search_of l -> is_Some (maps s !! m)) -> os_ns s !! ci_ns (c_id l) = Some o ->
      is_Some (cs_ns (os_c s) !! ci_ns (c_id l)) -> add_to_global_resize alloc_ok libname new s = Raise nm e s' -> gstep (s, fs) (restore (ci_ns (c_id l)) (on_pending o) s', fs)
  | g_update new l p fs s s' : maps s !! new = Some l -> add_to_global_update new s = Ret tt s' -> gstep (s, mkFrame new p :: fs) (restore (ci_ns (c_id l)) p s', fs)
  | g_abandon new l p fs s : maps s !! new = Some l -> gstep (s, mkFrame new p :: fs) (restore (ci_ns (c_id l)) p s, fs)
  | g_others fs s s' : others fs s s' -> gstep (s, fs) (s', fs).

(** What the frames may still add to a namespace whose counter is [p]. *)
Fixpoint levels (ms : gmap mapid cmap) (nsid : nat) (p : Z) (fs : list frame) : Prop :=
  match fs with
  | [] => 0 <= p
  | f :: fs =>
      match ms !! fr_new f with
      | Some l => if decide (ci_ns (c_id l) = nsid) then to_add ms (search_of l) <= p - fr_pending f /\ levels ms nsid (fr_pending f) fs else levels ms nsid p fs
      | None => False
      end
  end.

(** The objects of the frames are there, and the array has room for those that are pending. *)
Record ginv (s : ostate) (fs : list frame) : Prop := {
  gi_levels : forall n o, os_ns s !! n = Some o -> levels (maps s) n (on_pending o) fs;
  gi_alloc : forall n o, os_ns s !! n = Some o -> 0 <= on_alloc o < 2 ^ 32;
  gi_room : forall n o x, os_ns s !! n = Some o -> cs_ns (os_c s) !! n = Some x -> Z.of_nat (length (nd_msl x)) + on_pending o <= on_alloc o \/
    on_alloc o = 0 /\ forall f l, f ∈ fs -> maps s !! fr_new f = Some l -> ci_ns (c_id l) <> n;
  gi_frames : forall f, f ∈ fs -> exists l, maps s !! fr_new f = Some l /\ (forall m, m ∈ search_of l -> is_Some (maps s !! m)) /\
    is_Some (os_ns s !! ci_ns (c_id l)) /\ is_Some (cs_ns (os_c s) !! ci_ns (c_id l)) /\ ci_ns (c_id l) = 0%nat }.

Lemma levels_nonneg ms n p fs : levels ms n p fs -> 0 <= p.
Proof using.
  revert p. induction fs as [|f fs IH]; intros p; [done|]. cbn. destruct (ms !! fr_new f) as [l|]; [|done]. intros H. destruct (decide (ci_ns (c_id l) = n)); [|by apply IH].
  destruct H as [H1 H2]. apply IH in H2. pose proof (to_add_nonneg ms (search_of l)). lia.
Qed.

(** The objects of the frames stay as they are, or become global. *)
Definition steady (fs : list frame) (ms ms' : gmap mapid cmap) : Prop := forall f l, f ∈ fs -> ms !! fr_new f = Some l ->
  exists l', ms' !! fr_new f = Some l' /\ ci_ns (c_id l') = ci_ns (c_id l) /\ search_of l' = search_of l /\
    forall m, m ∈ search_of l -> (is_Some (ms !! m) -> is_Some (ms' !! m)) /\ (not_global ms' m = true -> not_global ms m = true).

Lemma levels_steady ms ms' n p fs : steady fs ms ms' -> levels ms n p fs -> levels ms' n p fs.
Proof using.
  revert p. induction fs as [|f fs IH]; intros p H; [done|]. cbn. destruct (ms !! fr_new f) as [l|] eqn:Hl; [|done]. intros Hc.
  destruct (H f l ltac:(left) Hl) as (l' & -> & -> & -> & Hm). specialize (fun p => IH p (fun g lg Hg => H g lg ltac:(by right))).
  destruct (decide (ci_ns (c_id l) = n)); [|by apply IH]. destruct Hc as [H1 H2]. split; [|by apply IH]. assert (to_add ms' (search_of l) <= to_add ms (search_of l)); [|lia].
  apply to_add_mono. intros m Hmi. by apply Hm.
Qed.

(** The invariant, when the numbers of the namespaces change as given. *)
Lemma ginv_change s s' fs fs' : ginv s fs -> (forall f, f ∈ fs' -> f ∈ fs) -> steady fs' (maps s) (maps s') ->
  (forall n, is_Some (os_ns s !! n) -> is_Some (os_ns s' !! n)) -> (forall n, is_Some (cs_ns (os_c s) !! n) -> is_Some (cs_ns (os_c s') !! n)) ->
  (forall n o', os_ns s' !! n = Some o' -> exists o, os_ns s !! n = Some o /\ on_alloc o' = on_alloc o /\ levels (maps s) n (on_pending o') fs' /\
     forall x', cs_ns (os_c s') !! n = Some x' -> exists x, cs_ns (os_c s) !! n = Some x /\
       (Z.of_nat (length (nd_msl x)) + on_pending o <= on_alloc o -> Z.of_nat (length (nd_msl x')) + on_pending o' <= on_alloc o)) -> ginv s' fs'.
Proof using.
  intros [A1 A2 A3 A4] Hsub Hst Ho Hc Hn. split.
  - intros n o' Ho'. destruct (Hn n o' Ho') as (o & _ & _ & Hl & _). by apply (levels_steady (maps s)).
  - intros n o' Ho'. destruct (Hn n o' Ho') as (o & Hoo & -> & _). by apply (A2 n).
  - intros n o' x' Ho' Hx'. destruct (Hn n o' Ho') as (o & Hoo & -> & _ & Hr). destruct (Hr x' Hx') as (x & Hx & Hle). destruct (A3 n o x Hoo Hx) as [?|[E Hno]]; [left; auto|right].
    split; [done|]. intros f l' Hf Hl'. destruct (A4 f (Hsub f Hf)) as (l & Hl & _). destruct (Hst f l Hf Hl) as (l2 & Hl2 & E2 & _). assert (l2 = l') as -> by congruence. rewrite E2. by apply (Hno f l (Hsub f Hf)).
  - intros f Hf. destruct (A4 f (Hsub f Hf)) as (l & Hl & Hin & Ho1 & Hc1 & Hz1). destruct (Hst f l Hf Hl) as (l' & Hl' & E1 & E2 & Hm). exists l'. rewrite E1, E2. split; [done|].
    split; [intros m Hmi; apply (Hm m Hmi); by apply Hin|]. auto.
Qed.

Lemma restore_lookup n p s k o' : os_ns (restore n p s) !! k = Some o' -> exists o, os_ns s !! k = Some o /\ on_alloc o' = on_alloc o /\ on_pending o' = if decide (k = n) then p else on_pending o.
Proof using.
  cbn. destruct (decide (k = n)) as [->|Hn]; [rewrite list_lookup_alter_eq|rewrite list_lookup_alter_ne by done; eauto].
  destruct (os_ns s !! n) as [o|]; [|done]. intros [= <-]. by exists o.
Qed.
Lemma restore_known n p s k : is_Some (os_ns s !! k) -> is_Some (os_ns (restore n p s) !! k).
Proof using. intros [o Ho]. cbn. destruct (decide (k = n)) as [->|]; [rewrite list_lookup_alter_eq, Ho|rewrite list_lookup_alter_ne by done]; by eexists. Qed.

Lemma steady_refl fs ms : steady fs ms ms.
Proof using. intros f l _ Hl. by exists l. Qed.

(** The frame on top is given up or done. *)
Lemma levels_top s f fs l n o : ginv s (f :: fs) -> maps s !! fr_new f = Some l -> os_ns s !! n = Some o ->
  if decide (n = ci_ns (c_id l)) then to_add (maps s) (search_of l) <= on_pending o - fr_pending f /\ levels (maps s) n (fr_pending f) fs else levels (maps s) n (on_pending o) fs.
Proof using.
  intros I Hl Ho. pose proof (gi_levels _ _ I n o Ho) as H. cbn in H. rewrite Hl in H. by destruct (decide (ci_ns (c_id l) = n)), (decide (n = ci_ns (c_id l))); try congruence.
Qed.
Lemma ginv_abandon s f fs l : ginv s (f :: fs) -> maps s !! fr_new f = Some l -> ginv (restore (ci_ns (c_id l)) (fr_pending f) s) fs.
Proof using.
  intros I Hl. apply (ginv_change s _ (f :: fs)); [done|by right|apply steady_refl|apply restore_known|done|]. intros n o' Ho'.
  destruct (restore_lookup _ _ _ _ _ Ho') as (o & Ho & Ea & Ep). exists o. split; [done|]. split; [done|]. rewrite Ep. pose proof (levels_top s f fs l n o I Hl Ho) as Ht.
  destruct (decide (n = ci_ns (c_id l))) as [->|].
  - split; [apply Ht|]. intros x' Hx'. exists x'. split; [done|]. pose proof (to_add_nonneg (maps s) (search_of l)). lia.
  - split; [done|]. intros x' Hx'. by exists x'.
Qed.

Lemma top_update s f fs : ginv s (f :: fs) -> exists l o nsd added s', maps s !! fr_new f = Some l /\ os_ns s !! ci_ns (c_id l) = Some o /\ cs_ns (os_c s) !! ci_ns (c_id l) = Some nsd /\
  add_to_global_update (fr_new f) s = Ret tt s' /\ globalized (ci_ns (c_id l)) o nsd (search_of l) added s s' /\ fr_pending f + to_add (maps s) (search_of l) <= on_pending o.
Proof using.
  intros I. destruct (gi_frames _ _ I f ltac:(left)) as (l & Hl & Hin & [o Ho] & [nsd Hn] & Hz). pose proof (levels_top s f fs l _ o I Hl Ho) as Ht. rewrite decide_True in Ht by done.
  destruct Ht as [Ht1 Ht2]. apply levels_nonneg in Ht2. destruct (gi_room _ _ I _ o nsd Ho Hn) as [Hr|[_ Hno]]; [|by destruct (Hno f l ltac:(left) Hl)].
  destruct (update_global_run (fr_new f) s l o nsd Hz Hl Hin Ho Hn Hr) as (added & s' & E & G); [lia|]. exists l, o, nsd, added, s'. split; [done|]. split; [done|]. split; [done|]. split; [done|]. split; [done|]. lia.
Qed.

Lemma make_global_fields l : ci_ns (c_id (make_global l)) = ci_ns (c_id l) /\ search_of (make_global l) = search_of l /\ ci_global (c_id (make_global l)) = true.
Proof using. done. Qed.
Lemma globalized_steady fs nsid o nsd L added s s' : globalized nsid o nsd L added s s' -> steady fs (maps s) (maps s').
Proof using.
  intros (_ & _ & Hm & _) f l _ Hl. exists (if bool_decide (fr_new f ∈ L) then make_global l else l). split; [rewrite Hm, Hl; by destruct (bool_decide (fr_new f ∈ L))|].
  destruct (bool_decide (fr_new f ∈ L)); (split; [done|]; split; [done|]; intros m _; split; [intros [lm Hlm]; rewrite Hm, Hlm; by eexists|]; unfold not_global; rewrite Hm; destruct (maps s !! m) as [lm|]; [|done]; cbn; by destruct (bool_decide (m ∈ L))).
Qed.

Lemma ginv_update s f fs l s' : ginv s (f :: fs) -> maps s !! fr_new f = Some l -> add_to_global_update (fr_new f) s = Ret tt s' -> ginv (restore (ci_ns (c_id l)) (fr_pending f) s') fs.
Proof using.
  intros I Hl0 E. destruct (top_update s f fs I) as (l' & o & nsd & added & s1 & Hl & Ho & Hn & E1 & G & Hle). assert (l' = l) as -> by congruence. rewrite E1 in E. injection E as <-.
  set (nsid := ci_ns (c_id l)) in *. pose proof (globalized_steady fs _ _ _ _ _ _ _ G) as Hst. destruct G as (G1 & G2 & _ & _ & _ & G6).
  apply (ginv_change s _ (f :: fs)); [done|by right|exact Hst| | |].
  - intros n Hk. apply restore_known. rewrite G1. apply lookup_lt_is_Some. rewrite length_insert. by apply lookup_lt_is_Some.
  - intros n Hk. cbn. rewrite G2. apply lookup_lt_is_Some. rewrite length_insert. by apply lookup_lt_is_Some.
  - intros n o' Ho'. destruct (restore_lookup _ _ _ _ _ Ho') as (o1 & Ho1 & Ea & Ep). rewrite G1 in Ho1. destruct (decide (n = nsid)) as [->|Hne].
    + rewrite list_lookup_insert_eq in Ho1 by (by eapply lookup_lt_Some). injection Ho1 as <-. exists o. split; [done|]. split; [done|]. rewrite Ep.
      pose proof (levels_top s f fs l nsid o I Hl Ho) as Ht. rewrite decide_True in Ht by done. split; [apply Ht|]. intros x' Hx'. exists nsd. split; [done|].
      cbn in Hx'. rewrite G2, list_lookup_insert_eq in Hx' by (by eapply lookup_lt_Some). injection Hx' as <-. cbn. rewrite length_app. lia.
    + rewrite list_lookup_insert_ne in Ho1 by done. exists o1. split; [done|]. split; [done|]. rewrite Ep. pose proof (levels_top s f fs l n o1 I Hl Ho1) as Ht. rewrite decide_False in Ht by done. split; [done|].
      intros x' Hx'. exists x'. cbn in Hx'. rewrite G2, list_lookup_insert_ne in Hx' by done. done.
Qed.

Lemma requested_lookup nsid o o' s s' n : requested nsid o o' s s' -> os_ns s !! nsid = Some o -> os_ns s' !! n = if decide (n = nsid) then Some o' else os_ns s !! n.
Proof using.
  intros (k & -> & _) Ho. cbn. destruct (decide (n = nsid)) as [->|]; [apply list_lookup_insert_eq; by eapply lookup_lt_Some|by rewrite list_lookup_insert_ne].
Qed.
Lemma requested_same nsid o o' s s' : requested nsid o o' s s' -> maps s' = maps s /\ cs_ns (os_c s') = cs_ns (os_c s).
Proof using. by intros (k & -> & _). Qed.

Lemma ginv_request s fs new l o x s' : ginv s fs -> maps s !! new = Some l -> (forall m, m ∈ search_of l -> is_Some (maps s !! m)) -> os_ns s !! ci_ns (c_id l) = Some o ->
  cs_ns (os_c s) !! ci_ns (c_id l) = Some x -> add_to_global_resize alloc_ok libname new s = Ret tt s' -> ginv s' (mkFrame new (on_pending o) :: fs).
Proof using.
  intros I Hl Hin Ho Hx E. pose proof (gi_levels _ _ I _ o Ho) as Hlev. pose proof (levels_nonneg _ _ _ _ Hlev) as Hp.
  assert (Hz : ci_ns (c_id l) = 0%nat) by (destruct (decide (ci_ns (c_id l) = 0%nat)) as [|Hne]; [done|]; pose proof (resize_global_other alloc_ok libname new s l o Hne Hl Hin Ho) as H; by rewrite E in H).
  pose proof (resize_global_spec alloc_ok libname new s l o x Hz Hl Hin Ho Hx Hp (gi_alloc _ _ I _ o Ho)) as H. unfold owp in H. rewrite E in H. destruct H as (o' & R & Ep & Hroom & Hle).
  destruct (requested_same _ _ _ _ _ R) as [Em Ec]. pose proof (fun n => requested_lookup _ _ _ _ _ n R Ho) as Hlk. set (nsid := ci_ns (c_id l)) in *. split; rewrite ?Em, ?Ec.
  - intros n on Hon. rewrite Hlk in Hon. cbn. rewrite Hl. fold nsid. destruct (decide (n = nsid)) as [->|Hne].
    + injection Hon as <-. rewrite decide_True by done. rewrite Ep. split; [lia|done].
    + rewrite decide_False by done. by apply (gi_levels _ _ I).
  - intros n on Hon. rewrite Hlk in Hon. destruct (decide (n = nsid)) as [->|Hne]; [injection Hon as <-; pose proof (gi_alloc _ _ I _ o Ho); lia|by apply (gi_alloc _ _ I n)].
  - intros n on xn Hon Hxn. rewrite Hlk in Hon. destruct (decide (n = nsid)) as [->|Hne].
    + injection Hon as <-. assert (xn = x) as -> by congruence. left. lia.
    + destruct (gi_room _ _ I n on xn Hon Hxn) as [?|[E0 Hno]]; [by left|right]. split; [done|]. intros f lf [->|Hf]%elem_of_cons Hlf; [|by apply (Hno f)]. cbn in Hlf. assert (lf = l) as -> by congruence. done.
  - assert (Hk : forall n, is_Some (os_ns s !! n) -> is_Some (os_ns s' !! n)) by (intros n Hn; rewrite Hlk; destruct (decide (n = nsid)); [by eexists|done]).
    intros f [->|Hf]%elem_of_cons.
    + exists l. cbn. split; [done|]. split; [done|]. split; [apply Hk; by exists o|]. split; [by exists x|done].
    + destruct (gi_frames _ _ I f Hf) as (lf & ? & ? & ? & ? & ?). exists lf. auto 6.
Qed.

Lemma ginv_refused s fs new l o x s' nm e : ginv s fs -> maps s !! new = Some l -> (forall m, m ∈ search_of l -> is_Some (maps s !! m)) -> os_ns s !! ci_ns (c_id l) = Some o ->
  cs_ns (os_c s) !! ci_ns (c_id l) = Some x -> add_to_global_resize alloc_ok libname new s = Raise nm e s' -> ginv (restore (ci_ns (c_id l)) (on_pending o) s') fs.
Proof using.
  intros I Hl Hin Ho Hx E. pose proof (gi_levels _ _ I _ o Ho) as Hlev. pose proof (levels_nonneg _ _ _ _ Hlev) as Hp.
  assert (H : exists o', requested (ci_ns (c_id l)) o o' s s' /\ on_alloc o' = on_alloc o).
  { destruct (decide (ci_ns (c_id l) = 0%nat)) as [Hz|Hne].
    - pose proof (resize_global_spec alloc_ok libname new s l o x Hz Hl Hin Ho Hx Hp (gi_alloc _ _ I _ o Ho)) as H. unfold owp in H. rewrite E in H. destruct H as (_ & _ & o' & R & _ & Ea). eauto.
    - pose proof (resize_global_other alloc_ok libname new s l o Hne Hl Hin Ho) as H. rewrite E in H. destruct H as (o' & R & _ & Ea). eauto. }
  destruct H as (o' & R & Ea).
  destruct (requested_same _ _ _ _ _ R) as [Em Ec]. pose proof (fun n => requested_lookup _ _ _ _ _ n R Ho) as Hlk. set (nsid := ci_ns (c_id l)) in *.
  apply (ginv_change s _ fs); [done|done| | | |].
  - change (maps (restore nsid (on_pending o) s')) with (maps s'). rewrite Em. apply steady_refl.
  - intros n Hn. apply restore_known. rewrite Hlk. destruct (decide (n = nsid)); [by eexists|done].
  - intros n. cbn. by rewrite Ec.
  - intros n on Hon. destruct (restore_lookup _ _ _ _ _ Hon) as (o1 & Ho1 & Ea1 & Ep1). rewrite Hlk in Ho1. cbn. rewrite Ec. destruct (decide (n = nsid)) as [->|Hne].
    + injection Ho1 as <-. exists o. rewrite Ep1. split; [done|]. split; [congruence|]. split; [done|]. eauto.
    + exists o1. rewrite Ep1. split; [done|]. split; [done|]. split; [by apply (gi_levels _ _ I)|]. eauto.
Qed.

Lemma ginv_others s fs s' : ginv s fs -> others fs s s' -> ginv s' fs.
Proof using.
  intros I [B1 B2 B3 B4]. apply (ginv_change s _ fs); [done|done| | |done|].
  - intros f l Hf Hl. destruct (B4 f l Hf Hl) as (l' & ? & ? & ? & Hm). exists l'. split; [done|]. split; [done|]. split; [done|]. intros m Hmi. destruct (Hm m Hmi). done.
  - intros n [o Ho]. specialize (B1 n). rewrite Ho in B1. destruct (os_ns s' !! n); [by eexists|done].
  - intros n o' Ho'. specialize (B1 n). rewrite Ho' in B1. destruct (os_ns s !! n) as [o|] eqn:Ho; [|done]. injection B1 as Ep Ea. exists o. split; [done|]. split; [done|]. rewrite Ep.
    split; [by apply (gi_levels _ _ I)|]. intros x' Hx'. destruct (B2 n x' Hx') as (x & Hx & Hle). exists x. split; [done|]. lia.
Qed.

Lemma ginv_step c c' : gstep c c' -> ginv c.1 c.2 -> ginv c'.1 c'.2.
Proof using.
  intros Hs. destruct Hs as [new l o fs s s' Hl Hin Ho [x Hx] E|new l o fs s s' nm e Hl Hin Ho [x Hx] E|new l p fs s s' Hl E|new l p fs s Hl|fs s s' Ho]; cbn [fst snd]; intros I.
  - by apply (ginv_request s fs new l o x).
  - by apply (ginv_refused s fs new l o x s' nm e).
  - by apply (ginv_update s (mkFrame new p)).
  - by apply (ginv_abandon s (mkFrame new p)).
  - by apply (ginv_others s).
Qed.

(** A state before any [dlopen]: nothing is pending, and the arrays have room for the global scopes, or are those of the start-up code. *)
Definition calm (s : ostate) : Prop := forall n o, os_ns s !! n = Some o -> on_pending o = 0 /\ 0 <= on_alloc o < 2 ^ 32 /\
  forall x, cs_ns (os_c s) !! n = Some x -> on_alloc o = 0 \/ Z.of_nat (length (nd_msl x)) <= on_alloc o.
Lemma calm_ginv s : calm s -> ginv s [].
Proof using.
  intros H. split.
  - intros n o Ho. destruct (H n o Ho) as (-> & _). done.
  - intros n o Ho. apply (H n o Ho).
  - intros n o x Ho Hx. destruct (H n o Ho) as (-> & _ & Hr). destruct (Hr x Hx); [right; split; [done|]; by intros f l ?%elem_of_nil|left; lia].
  - by intros f ?%elem_of_nil.
Qed.

(** C22. However [dlopen] calls are nested and whatever is opened and closed meanwhile, the assertions of [add_to_global_update] hold when its
    turn comes: the array has room, the counter covers what is added, and exactly the objects of the search list that were not global
    are appended to the global scope, each once. *)
Theorem global_scope_has_room s0 s f fs : calm s0 -> rtc gstep (s0, []) (s, f :: fs) ->
  exists l o nsd added s', maps s !! fr_new f = Some l /\ os_ns s !! ci_ns (c_id l) = Some o /\ cs_ns (os_c s) !! ci_ns (c_id l) = Some nsd /\
    add_to_global_update (fr_new f) s = Ret tt s' /\ Z.of_nat (length (nd_msl nsd ++ added)) <= on_alloc o /\ NoDup added /\
    (forall m, m ∈ added <-> m ∈ search_of l /\ not_global (maps s) m = true) /\
    cs_ns (os_c s') !! ci_ns (c_id l) = Some (mkNsd (nd_loaded nsd) (nd_nloaded nsd) (nd_msl nsd ++ added) (nd_unique nsd)).
Proof using.
  intros Hc Hr. assert (I : ginv s (f :: fs)).
  { apply calm_ginv in Hc. change s with (s, f :: fs).1. change (f :: fs) with (s, f :: fs).2 at 2. revert Hc. change s0 with (s0, @nil frame).1 at 1. change (@nil frame) with (s0, @nil frame).2 at 2.
    generalize dependent (s, f :: fs). generalize (s0, @nil frame). intros c c' Hr. induction Hr as [c|c c1 c' Hs _ IH]; [done|]. intros I. by apply IH, (ginv_step c). }
  destruct (top_update s f fs I) as (l & o & nsd & added & s' & Hl & Ho & Hn & E & (G1 & G2 & G3 & G4 & G5 & G6) & Hle). exists l, o, nsd, added, s'.
  split; [done|]. split; [done|]. split; [done|]. split; [done|]. split; [|split; [done|split; [done|]]].
  - destruct (gi_room _ _ I _ o nsd Ho Hn) as [Hroom|[_ Hno]]; [|by destruct (Hno f l ltac:(left) Hl)]. pose proof (levels_top s f fs l _ o I Hl Ho) as Ht. rewrite decide_True in Ht by done.
    destruct Ht as [_ Ht%levels_nonneg]. rewrite length_app. lia.
  - rewrite G2. apply list_lookup_insert_eq. by eapply lookup_lt_Some.
Qed.
End Machine.
