(* ===== verification/OpenTls.v ===== *)
(** * Opening objects: TLS data

    After [resize_tls_slotinfo] there is a slot for every module that [update_tls_slotinfo] enters, and no exception can be raised. *)

From S2P Require Import Prelude LinkMap TlsOffset LoadCmds DynTls.

(** ** Code that raises no exception *)
Definition noraise {S A} (m : M S A) : Prop := forall s, match m s with Raise _ _ _ => False | _ => True end.
Create HintDb noraise.

Lemma nr_bind {S A B} (m : M S A) (k : A -> M S B) : noraise m -> (forall a, noraise (k a)) -> noraise (m ≫= k).
Proof. intros Hm Hk s. unfold mbind, M_bind. specialize (Hm s). destruct (m s) as [a s'| | | |]; try done. apply Hk. Qed.
Lemma nr_ret {S A} (a : A) : noraise (mret a : M S A).
Proof. done. Qed.
Lemma nr_gets {S A} (f : S -> A) : noraise (gets f).
Proof. done. Qed.
Lemma nr_modify {S} (f : S -> S) : noraise (modify f).
Proof. done. Qed.
Definition nosignal {A} (r : res A) : Prop := match r with Signal _ _ => False | _ => True end.
Lemma nr_lift {S A} (r : res A) : nosignal r -> noraise (lift r : M S A).
Proof. intros H s. by destruct r. Qed.
Lemma ns_assert b w : nosignal (c_assert b w).
Proof. by destruct b. Qed.
Lemma ns_option {A} (o : option A) : nosignal (res_of_option o).
Proof. by destruct o. Qed.
Lemma ns_dtv_at d i : nosignal (dtv_at d i).
Proof. unfold dtv_at, rd. destruct (i <? 1); [done|]. destruct (Z.ltb i 0); [done|]. apply ns_option. Qed.
Lemma ns_set_dtv_at d i p : nosignal (set_dtv_at d i p).
Proof. unfold set_dtv_at, wr. destruct (i <? 1); [done|]. by destruct (_ && _). Qed.
Lemma ns_undef {A} : nosignal (Undef : res A).
Proof. done. Qed.
Lemma ns_fatal {A} w : nosignal (Fatal w : res A).
Proof. done. Qed.
#[export] Hint Resolve nr_ret nr_gets nr_modify nr_lift ns_assert ns_option ns_dtv_at ns_set_dtv_at ns_undef ns_fatal : noraise.

Ltac noraise :=
  repeat match goal with
  | |- noraise (_ ≫= _) => apply nr_bind; [|intros]
  | |- noraise (if ?b then _ else _) => destruct b
  | |- noraise (match ?x with _ => _ end) => destruct x
  end; eauto with noraise.

Section Tls.
Context (malloc : gmap Z mblock -> Z -> Z) (malloc_complete : bool).

Lemma nr_malloc n p : noraise (c_malloc malloc n p).
Proof. unfold c_malloc. noraise. Qed.
Lemma nr_free p : noraise (c_free p).
Proof. unfold c_free. noraise. Qed.
Lemma nr_realloc p n f : noraise (c_realloc malloc p n f).
Proof. unfold c_realloc. noraise. Qed.
Lemma nr_get_mod m : noraise (get_mod m).
Proof. unfold get_mod. noraise. Qed.
Lemma nr_put_mod m x : noraise (put_mod m x).
Proof. apply nr_modify. Qed.
Lemma nr_get_thread t : noraise (get_thread t).
Proof. unfold get_thread. noraise. Qed.
Lemma nr_put_dtv t d : noraise (put_dtv t d).
Proof. unfold put_dtv. apply nr_bind; [apply nr_get_thread|intros; apply nr_modify]. Qed.
#[local] Hint Resolve nr_malloc nr_free nr_realloc nr_get_mod nr_put_mod nr_get_thread nr_put_dtv : noraise.

Lemma nr_resize t d n : noraise (_dl_resize_dtv malloc malloc_complete t d n).
Proof. unfold _dl_resize_dtv, oom. noraise. Qed.
#[local] Hint Resolve nr_resize : noraise.
Lemma nr_update_slot t g mx i s : noraise (update_slot malloc malloc_complete t g mx i s).
Proof. unfold update_slot. noraise. Qed.
#[local] Hint Resolve nr_update_slot : noraise.
Lemma nr_update_slots t g r mx b : forall i o, noraise (update_slots malloc malloc_complete t g r mx b i o).
Proof. induction b as [|s b IH]; intros i o; cbn [update_slots]; [apply nr_ret|]. noraise. Qed.
#[local] Hint Resolve nr_update_slots : noraise.
Lemma nr_update_blocks t g r mx bs : forall i o, noraise (update_blocks malloc malloc_complete t g r mx bs i o).
Proof. induction bs as [|b bs IH]; intros i o; cbn [update_blocks]; [apply nr_ret|]. noraise. Qed.
#[local] Hint Resolve nr_update_blocks : noraise.
Lemma nr_update_slotinfo t i g : noraise (_dl_update_slotinfo malloc malloc_complete t i g).
Proof. unfold _dl_update_slotinfo. noraise. Qed.
Lemma nr_init_static m : noraise (_dl_init_static_tls m).
Proof. unfold _dl_init_static_tls. noraise. Qed.
#[local] Hint Resolve nr_update_slotinfo nr_init_static : noraise.
Lemma nr_init_all t g ls : noraise (init_static_all malloc malloc_complete t g ls).
Proof. induction ls as [|l ls IH]; cbn [init_static_all]; [apply nr_ret|]. noraise. Qed.
Lemma nr_bump w : noraise (bump_generation w).
Proof. unfold bump_generation. noraise. Qed.

(** ** Slots *)
Definition slotted (t : tls_state) (m : mapid) : Prop := forall x, ts_mods t !! m = Some x ->
  (tm_blocksize x =? 0) || tm_in_slotinfo x = true \/ has_slot (ts_list t) (tm_modid x) = true.

Lemma has_slot_app bs bs' i : has_slot bs i = true -> has_slot (bs ++ bs') i = true.
Proof using. revert i. induction bs as [|b bs IH]; intros i; cbn; [done|]. rewrite !orb_true_iff. intros [?|?]; [by left|right; auto]. Qed.
Lemma has_slot_lengths bs : forall bs' i, length <$> bs = length <$> bs' -> has_slot bs i = has_slot bs' i.
Proof using. induction bs as [|b bs IH]; intros [|b' bs'] i; try done. cbn. intros [= E1 E2]. rewrite E1. by rewrite (IH bs'). Qed.
Lemma set_slot_lengths bs : forall i x, length <$> set_slot bs i x = length <$> bs.
Proof using. induction bs as [|b bs IH]; intros i x; [done|]. cbn. destruct (i <? Z.of_nat (length b)); cbn; [by rewrite length_insert|by rewrite IH]. Qed.
Lemma has_slot_new bs i : i - list_len bs = 0 -> has_slot (bs ++ [new_slots]) i = true.
Proof using.
  revert i. induction bs as [|b bs IH]; intros i; unfold list_len; cbn [concat app has_slot].
  - cbn. intros E. assert (i = 0) as -> by lia. done.
  - rewrite length_app, Nat2Z.inj_add. intros E. rewrite IH; [apply orb_true_r|]. unfold list_len. lia.
Qed.

(** [resize_tls_slotinfo] makes room and changes no module. *)
Lemma add_false_spec m t : match _dl_add_to_slotinfo malloc m false t with
  | Ret _ t' => slotted t' m /\ ts_mods t' = ts_mods t /\ forall i, has_slot (ts_list t) i = true -> has_slot (ts_list t') i = true
  | Raise _ _ t' => ts_mods t' = ts_mods t
  | _ => True
  end.
Proof using.
  unfold _dl_add_to_slotinfo, get_mod. destruct (ts_mods t !! m) as [x|] eqn:Hx; [|unfold mbind, M_bind, gets; by rewrite Hx].
  rewrite (M_bind_step _ _ _ x t) by (unfold mbind, M_bind, gets; by rewrite Hx). destruct ((tm_blocksize x =? 0) || tm_in_slotinfo x) eqn:E0.
  { split; [|done]. intros x' Hx'. assert (x' = x) as -> by congruence. by left. }
  rewrite (M_bind_step _ _ _ (ts_list t) t) by done. case_bool_decide; [done|]. destruct (has_slot (ts_list t) (tm_modid x)) eqn:Es.
  { split; [|done]. intros x' Hx'. assert (x' = x) as -> by congruence. by right. }
  unfold c_assert. destruct (Z.eqb_spec (tm_modid x - list_len (ts_list t)) 0) as [Ei|]; [|done]. set (n := 16 + TLS_SLOTINFO_SURPLUS * 16).
  assert (Hm : exists p t1, c_malloc malloc n ForSlots t = Ret p t1 /\ ts_mods t1 = ts_mods t).
  { unfold c_malloc, mbind, M_bind, gets, modify. destruct (malloc (ts_heap t) n =? 0); eexists _, _; split; reflexivity. }
  destruct Hm as (p & t1 & Ec & Et). unfold mbind, M_bind. cbn -[new_slots c_malloc n]. rewrite Ec. destruct (p =? 0); cbn -[new_slots]; [done|].
  split; [|split; [done|intros i; apply has_slot_app]]. intros x' Hx'. cbn -[new_slots] in Hx' |- *. assert (x' = x) as -> by congruence. right. by apply has_slot_new.
Qed.
Lemma slotted_mono t t' m : ts_mods t' = ts_mods t -> (forall i, has_slot (ts_list t) i = true -> has_slot (ts_list t') i = true) -> slotted t m -> slotted t' m.
Proof using. intros E H Hs x Hx. rewrite E in Hx. destruct (Hs x Hx); [by left|right; auto]. Qed.

Lemma resize_tls_spec ms : forall b t, match resize_tls_slotinfo malloc ms b t with
  | Ret _ t' => (forall m, m ∈ ms -> slotted t' m) /\ ts_mods t' = ts_mods t /\ forall i, has_slot (ts_list t) i = true -> has_slot (ts_list t') i = true
  | Raise _ _ t' => ts_mods t' = ts_mods t
  | _ => True
  end.
Proof using.
  induction ms as [|m ms IH]; intros b t; cbn [resize_tls_slotinfo]; [split; [by intros m ?%elem_of_nil|done]|]. unfold mbind, M_bind. pose proof (add_false_spec m t) as H.
  destruct (_dl_add_to_slotinfo malloc m false t) as [r t1|o e t1| | |]; try done. destruct H as (H1 & H2 & H3). specialize (IH (if r then true else b) t1).
  destruct (resize_tls_slotinfo malloc ms (if r then true else b) t1) as [r2 t2|o e t2| | |]; try done; [|congruence]. destruct IH as (I1 & I2 & I3).
  split; [|split; [congruence|auto]]. intros k [->|Hk]%elem_of_cons; [by apply (slotted_mono t1)|auto].
Qed.

Lemma add_true_spec m t : slotted t m -> match _dl_add_to_slotinfo malloc m true t with
  | Ret _ t' => forall k, slotted t k -> slotted t' k
  | Raise _ _ _ => False
  | _ => True
  end.
Proof using.
  intros Hs. unfold _dl_add_to_slotinfo, get_mod. destruct (ts_mods t !! m) as [x|] eqn:Hx; [|unfold mbind, M_bind, gets; by rewrite Hx].
  rewrite (M_bind_step _ _ _ x t) by (unfold mbind, M_bind, gets; by rewrite Hx). destruct ((tm_blocksize x =? 0) || tm_in_slotinfo x) eqn:E0; [by cbn; auto|].
  rewrite (M_bind_step _ _ _ (ts_list t) t) by done. case_bool_decide; [done|]. destruct (Hs x Hx) as [|Es]; [congruence|]. rewrite Es.
  intros k Hk x' Hx'. cbn in Hx'. cbn [ts_list set_mods set_list]. rewrite (has_slot_lengths _ (ts_list t)) by apply set_slot_lengths. destruct (decide (k = m)) as [->|Hn].
  - rewrite lookup_insert_eq in Hx'. injection Hx' as <-. left. apply orb_true_r.
  - rewrite lookup_insert_ne in Hx' by done. by apply Hk.
Qed.
Lemma add_all_spec ms : forall t, (forall m, m ∈ ms -> slotted t m) -> match add_all malloc ms t with Raise _ _ _ => False | _ => True end.
Proof using.
  induction ms as [|m ms IH]; intros t Hs; cbn [add_all]; [done|]. unfold mbind, M_bind. pose proof (add_true_spec m t (Hs m ltac:(left))) as H.
  destruct (_dl_add_to_slotinfo malloc m true t) as [r t1|o e t1| | |]; try done. apply IH. intros k Hk. apply H, Hs. by right.
Qed.
Lemma update_tls_noraise self ms t : (forall m, m ∈ ms -> slotted t m) -> match update_tls_slotinfo malloc malloc_complete self ms t with Raise _ _ _ => False | _ => True end.
Proof using.
  intros Hs. unfold update_tls_slotinfo. pose proof (add_all_spec ms t Hs) as H. unfold mbind at 1, M_bind at 1. destruct (add_all malloc ms t) as [[] t1| | | |]; try done.
  apply nr_bind; [apply nr_bump|intros; apply nr_init_all].
Qed.
End Tls.
