(* ===== verification/OpenTlsEntry.v ===== *)
(** * Opening objects: the new TLS modules are entered

    [resize_tls_slotinfo] and [update_tls_slotinfo] on data that satisfies the invariant of the TLS machine: no assertion fails, nothing is
    read behind an array, and when both return every module of the search list can be used by all threads. *)

From S2P Require Import Prelude LinkMap TlsOffset LoadCmds DynTls TlsSlots DynTlsSpec DynTlsThread DynTlsLoader DynTlsMachine OpenTls.

(** ** A module whose flag [l_need_tls_init] changes *)
Section NeedInit.
Context (s : tls_state) (p : lphase) (m : mapid) (x : tmod) (b : bool).
Context (I : Inv s p) (Hx : ts_mods s !! m = Some x).
Let x' := with_tls (with_need_init b) x.
Let s' := set_mods (<[m := x']> (ts_mods s)) s.

Lemma need_init_back k y' : ts_mods s' !! k = Some y' -> exists y, ts_mods s !! k = Some y /\ tm_modid y' = tm_modid y /\ tm_in_slotinfo y' = tm_in_slotinfo y /\
  tm_initial y' = tm_initial y /\ tm_offset y' = tm_offset y /\ tm_blocksize y' = tm_blocksize y /\ (mod_ok y -> mod_ok y').
Proof using Hx. cbn. intros [[<- <-]|[_ Hk]]%lookup_insert_Some; [by exists x|by exists y']. Qed.
Lemma need_init_there k y : ts_mods s !! k = Some y -> exists y', ts_mods s' !! k = Some y' /\ tm_modid y' = tm_modid y /\ tm_in_slotinfo y' = tm_in_slotinfo y /\
  tm_initial y' = tm_initial y /\ (mod_ok y -> mod_ok y').
Proof using Hx.
  intros Hk. cbn. destruct (decide (k = m)) as [->|Hne]; [rewrite lookup_insert_eq|rewrite lookup_insert_ne by done; by exists y].
  assert (y = x) as -> by congruence. by exists x'.
Qed.

Lemma inv_need_init : Inv s' p.
Proof using I Hx.
  destruct I as [[F M P N] Hh Hg Hgs Htop Hpe Hdi Hfr Hli Hth How]. split; try done.
  - split; try done.
    + intros i si k Hsi Hk. destruct (P i si k Hsi Hk) as (Hle & y & Hy & Hid). split; [done|]. destruct (need_init_there k y Hy) as (y' & Hy' & E & _). exists y'. split; [done|congruence].
    + intros k y' (y & Hy & E1 & E2 & _ & _ & _ & Hok)%need_init_back Hin. rewrite E2 in Hin. destruct (N k y Hy Hin) as [Hm Hsi]. rewrite E1. auto.
  - destruct Htop as [?|[?|(k & y & Hk & Hy & E)]]; [by left|by right; left|right; right]. destruct (need_init_there k y Hy) as (y' & Hy' & E' & _). exists k, y'. split; [done|]. split; [done|]. rewrite E'. exact E.
  - intros k (y & V0 & V1 & V2 & V3 & V4 & V5)%Hpe. destruct (need_init_there k y V0) as (y' & Hy' & E1 & E2 & E3 & Hok). exists y'. split; [done|]. rewrite E1, E2, E3. auto 7.
  - intros k k' y y' Hk Hk' (z & Hz & E & _)%need_init_back (z' & Hz' & E' & _)%need_init_back. rewrite E, E'. by apply Hdi.
  - intros Hmd k y' Hk (y & Hy & E & _)%need_init_back. rewrite E. by apply Hfr.
  - intros i (si & k & y & L1 & L2 & L3 & L4 & L5)%Hli. destruct (need_init_there k y L3) as (y' & Hy' & _ & E2 & E3 & _). exists si, k, y'. rewrite E2, E3. auto.
  - intros t th Ht. destruct (Hth t th Ht) as [[L C O J A D] G T]. split; [|done|done]. split; try done.
    intros i si k y' Hs Hk (y & Hy & E1 & E2 & _ & E4 & E5 & _)%need_init_back Hin Hsy. rewrite E2 in Hin. destruct (C i si k y Hs Hk Hy Hin Hsy) as (e & He & Hok). exists e. split; [done|].
    destruct Hok as [?|? ?|sz ? ? ? ? ?]; [by apply entry_unallocated|apply entry_static; by rewrite E4|]. eapply entry_dynamic; rewrite ?E4, ?E5; eauto.
Qed.
End NeedInit.

Section Entry.
Context (malloc : gmap Z mblock -> Z -> Z) `{!Malloc malloc} (self : Z).

(** TLS data while objects are opened: the invariant holds, modules that are not in the list are those of this [dlopen] (or of one it is
    nested in), their ids are at most one behind the list, the generation counter is not at its end and the calling thread has a DTV. *)
Record entering (t : tls_state) (p : lphase) : Prop := {
  en_inv : Inv t p;
  en_mode : lp_mode p <> Dropping;
  en_pending : forall m x, ts_mods t !! m = Some x -> tm_in_slotinfo x = false -> m ∈ lp_pending p;
  en_order : forall m x, ts_mods t !! m = Some x -> tm_in_slotinfo x = false -> tm_modid x <= list_len (ts_list t);
  en_gen : ts_gen t + 1 < 2 ^ 64;
  en_self : is_Some (ts_threads t !! self) }.
Definition enterable (t : tls_state) : Prop := exists p, entering t p /\ lp_dirty p = false.

Lemma entering_skip t p m x b : entering t p -> ts_mods t !! m = Some x -> tm_in_slotinfo x = true -> _dl_add_to_slotinfo malloc m b t = Ret false t.
Proof using. intros _ Hx Hin. unfold _dl_add_to_slotinfo. rewrite (M_bind_step _ _ _ x t) by (unfold get_mod, mbind, M_bind, gets; by rewrite Hx). by rewrite Hin, orb_true_r. Qed.

Lemma waiting_unpublished t p m x : entering t p -> ts_mods t !! m = Some x -> tm_in_slotinfo x = false -> m ∈ lp_pending p /\ mod_ok x /\ 1 <= tm_modid x.
Proof using.
  intros E Hx Hin. pose proof (en_pending _ _ E m x Hx Hin) as Hp. split; [done|]. destruct (iv_pend _ _ (en_inv _ _ E) m Hp) as (y & W0 & W1 & W2 & W3 & W4 & W5).
  assert (y = x) as -> by congruence. split; [done|]. pose proof (so_max _ (iv_slots _ _ (en_inv _ _ E))). lia.
Qed.

(** The start of [_dl_add_to_slotinfo] for a module that is not in the list. *)
Lemma add_start t p m x b : entering t p -> ts_mods t !! m = Some x -> tm_in_slotinfo x = false ->
  let rest := (if (b : bool) then modify (fun s => set_list (set_slot (ts_list s) (tm_modid x) (mkSI (u64 (ts_gen s + 1)) (Some m))) s);; put_mod m (with_in_slotinfo x) else mret tt);; mret true in
  _dl_add_to_slotinfo malloc m b t =
  (if has_slot (ts_list t) (tm_modid x) then rest t
   else let n := malloc (ts_heap t) (16 + TLS_SLOTINFO_SURPLUS * 16) in
        if n =? 0 then Raise "dlopen" "cannot create TLS data structures" t
        else rest (set_list (ts_list t ++ [new_slots]) (set_heap (<[n := mkBlock (16 + TLS_SLOTINFO_SURPLUS * 16) ForSlots]> (ts_heap t)) t))).
Proof using.
  intros E Hx Hin rest. destruct (waiting_unpublished t p m x E Hx Hin) as (_ & [Hb _] & Hid). unfold _dl_add_to_slotinfo.
  rewrite (M_bind_step _ _ _ x t) by (unfold get_mod, mbind, M_bind, gets; by rewrite Hx). rewrite Hin, (proj2 (Z.eqb_neq (tm_blocksize x) 0)) by lia. cbn [orb].
  rewrite (M_bind_step _ _ _ (ts_list t) t) by done. destruct (so_first _ (iv_slots _ _ (en_inv _ _ E))) as (b0 & r0 & Hl & _). rewrite bool_decide_false by (by rewrite Hl).
  pose proof (en_order _ _ E m x Hx Hin) as Ho. rewrite has_slot_spec by lia. destruct (Z.ltb_spec (tm_modid x) (list_len (ts_list t))); [done|].
  rewrite (proj2 (Z.eqb_eq (tm_modid x - list_len (ts_list t)) 0)) by lia. cbn [c_assert]. set (n := malloc (ts_heap t) (16 + TLS_SLOTINFO_SURPLUS * 16)).
  unfold c_malloc, mbind, M_bind, gets, lift, modify. fold n. destruct (Z.eqb_spec n 0) as [->|Hn]; [done|]. cbn -[new_slots Z.add Z.mul]. by rewrite (proj2 (Z.eqb_neq n 0)).
Qed.

(** Room is made for a module. *)
Lemma add_false_run t p m x : entering t p -> ts_mods t !! m = Some x -> match _dl_add_to_slotinfo malloc m false t with
  | Ret _ t' => entering t' p
  | Raise _ _ t' => t' = t
  | _ => False
  end.
Proof using Malloc0.
  intros E Hx. destruct (tm_in_slotinfo x) eqn:Hin; [by rewrite (entering_skip t p m x)|]. destruct (waiting_unpublished t p m x E Hx Hin) as (Hp & _).
  pose proof (add_start t p m x false E Hx Hin) as Ha. cbn zeta in Ha. rewrite Ha. destruct E as [I Hmd Hpe Hor Hg Hs]. destruct (has_slot (ts_list t) (tm_modid x)); [by split|].
  set (n := malloc _ _) in *. destruct (n =? 0); [done|]. cbn -[new_slots Z.add Z.mul]. set (t' := set_list _ _).
  assert (I' : Inv t' p) by (apply (inv_add malloc t p m true t' false I Hp Ha); by right).
  split; try done. intros k y Hk Hy. specialize (Hor k y Hk Hy). unfold t', list_len in *. cbn [ts_list set_list]. rewrite concat_app, length_app. lia.
Qed.

Lemma resize_tls_run ms : forall b t p, entering t p -> (forall m, m ∈ ms -> is_Some (ts_mods t !! m)) ->
  match resize_tls_slotinfo malloc ms b t with Ret _ t' | Raise _ _ t' => entering t' p | _ => False end.
Proof using Malloc0.
  induction ms as [|m ms IH]; intros b t p E Hin; cbn [resize_tls_slotinfo]; [done|]. destruct (Hin m ltac:(left)) as [x Hx]. pose proof (add_false_run t p m x E Hx) as H.
  pose proof (add_false_spec malloc m t) as Hsp. unfold mbind, M_bind. destruct (_dl_add_to_slotinfo malloc m false t) as [r t1|o e t1| | |]; try done; [|by subst].
  apply IH; [done|]. destruct Hsp as (_ & -> & _). intros k Hk. apply Hin. by right.
Qed.

(** When there was nothing to do, the modules are in the list. *)
Lemma resize_tls_false ms : forall b t p t', entering t p -> (forall m, m ∈ ms -> is_Some (ts_mods t !! m)) -> resize_tls_slotinfo malloc ms b t = Ret false t' ->
  b = false /\ forall m, m ∈ ms -> exists x, ts_mods t !! m = Some x /\ tm_in_slotinfo x = true.
Proof using Malloc0.
  induction ms as [|m ms IH]; intros b t p t' E Hin H; cbn [resize_tls_slotinfo] in H; [injection H as -> _; split; [done|]; by intros m ?%elem_of_nil|].
  destruct (Hin m ltac:(left)) as [x Hx]. apply M_bind_Ret_inv in H as (r & t1 & Ha & H). pose proof (add_false_run t p m x E Hx) as H1. pose proof (add_false_spec malloc m t) as Hsp. rewrite Ha in H1, Hsp.
  destruct Hsp as (_ & Em & _). destruct (IH (if r then true else b) t1 p t' H1) as [Hb Hall]; [rewrite Em; intros k Hk; apply Hin; by right|done|]. rewrite Em in Hall. destruct r; [done|]. split; [done|].
  intros k [->|Hk]%elem_of_cons; [|auto]. exists x. split; [done|]. destruct (tm_in_slotinfo x) eqn:Hi; [done|]. pose proof (add_start t p m x false E Hx Hi) as Hs. cbn zeta in Hs. rewrite Hs in Ha.
  destruct (has_slot _ _); [done|]. by destruct (_ =? 0).
Qed.

(** A module is entered. *)
Lemma add_true_run t p m x : entering t p -> ts_mods t !! m = Some x -> slotted t m -> exists r t' p', _dl_add_to_slotinfo malloc m true t = Ret r t' /\ entering t' p' /\
  ts_mods t' = (if tm_in_slotinfo x then ts_mods t else <[m := with_in_slotinfo x]> (ts_mods t)).
Proof using Malloc0.
  intros E Hx Hsl. destruct (tm_in_slotinfo x) eqn:Hin; [exists false, t, p; by rewrite (entering_skip t p m x)|]. destruct (waiting_unpublished t p m x E Hx Hin) as (Hp & [Hb _] & _).
  assert (Hslot : has_slot (ts_list t) (tm_modid x) = true) by (destruct (Hsl x Hx) as [H|H]; [rewrite Hin, (proj2 (Z.eqb_neq (tm_blocksize x) 0)) in H by lia|]; done).
  pose proof (add_start t p m x true E Hx Hin) as Ha. cbn zeta in Ha. rewrite Hslot in Ha. destruct E as [I Hmd Hpe Hor Hg Hs].
  set (t' := set_mods (<[m := with_in_slotinfo x]> (ts_mods t)) (set_list (set_slot (ts_list t) (tm_modid x) (mkSI (u64 (ts_gen t + 1)) (Some m))) t)).
  assert (Ha' : _dl_add_to_slotinfo malloc m true t = Ret true t') by (by rewrite Ha). exists true, t', (settled Publishing m p). split; [done|]. split; [|done].
  assert (I' : Inv t' (settled Publishing m p)) by (apply (inv_add malloc t p m true t' true I Hp Ha'); by left).
  assert (Hb' : forall k y, ts_mods t' !! k = Some y -> tm_in_slotinfo y = false -> k <> m /\ ts_mods t !! k = Some y) by (intros k y; cbn; intros [[<- <-]|[? ?]]%lookup_insert_Some; done).
  split; try done.
  - unfold settled. cbn. by case_decide.
  - intros k y Hk Hy. destruct (Hb' k y Hk Hy) as [Hne Hk']. apply settled_pending. split; [by apply (Hpe k y)|done].
  - intros k y Hk Hy. destruct (Hb' k y Hk Hy) as [_ Hk']. specialize (Hor k y Hk' Hy). change (ts_list t') with (set_slot (ts_list t) (tm_modid x) (mkSI (u64 (ts_gen t + 1)) (Some m))).
    by rewrite (list_len_lengths _ _ (set_slot_lengths (ts_list t) _ _)).
Qed.

Definition entered (t : tls_state) (m : mapid) : Prop := exists x, ts_mods t !! m = Some x /\ tm_in_slotinfo x = true.

Lemma add_all_run ms : forall t p, entering t p -> (forall m, m ∈ ms -> is_Some (ts_mods t !! m)) -> (forall m, m ∈ ms -> slotted t m) ->
  exists t' p', add_all malloc ms t = Ret tt t' /\ entering t' p' /\ (forall m, entered t m -> entered t' m) /\ forall m, m ∈ ms -> entered t' m.
Proof using Malloc0.
  induction ms as [|m ms IH]; intros t p E Hin Hsl; cbn [add_all]; [exists t, p; split; [done|]; split; [done|]; split; [done|]; by intros m ?%elem_of_nil|].
  destruct (Hin m ltac:(left)) as [x Hx]. destruct (add_true_run t p m x E Hx (Hsl m ltac:(left))) as (r & t1 & p1 & Ha & E1 & Em).
  pose proof (add_true_spec malloc m t (Hsl m ltac:(left))) as Hsp. rewrite Ha in Hsp. rewrite (M_bind_step _ _ _ _ _ Ha).
  assert (Hk1 : forall k, is_Some (ts_mods t !! k) -> is_Some (ts_mods t1 !! k)).
  { intros k Hk. rewrite Em. destruct (tm_in_slotinfo x); [done|]. destruct (decide (k = m)) as [->|]; [rewrite lookup_insert_eq; by eexists|by rewrite lookup_insert_ne]. }
  destruct (IH t1 p1 E1) as (t2 & p2 & Hr & E2 & Hold & Hnew); [intros k Hk; apply Hk1, Hin; by right|intros k Hk; apply Hsp, Hsl; by right|].
  assert (Hm1 : entered t1 m) by (unfold entered; rewrite Em; destruct (tm_in_slotinfo x) eqn:Hi; [by exists x|rewrite lookup_insert_eq; by eexists]).
  exists t2, p2. split; [done|]. split; [done|]. split; [|intros k [->|Hk]%elem_of_cons; auto].
  intros k (y & Hy & Hyi). apply Hold. unfold entered. rewrite Em. destruct (tm_in_slotinfo x) eqn:Hi; [by exists y|]. destruct (decide (k = m)) as [->|]; [congruence|rewrite lookup_insert_ne by done; by exists y].
Qed.

Lemma entered_usable t m : enterable t -> entered t m -> exists x, usable t m x.
Proof using.
  intros (p & E & Hd) (x & Hx & Hi). pose proof (en_inv _ _ E) as I. exists x. split; [done|]. split; [done|]. destruct (so_in _ (iv_slots _ _ I) m x Hx Hi) as (_ & si & Hsi & _).
  exists si. split; [done|]. pose proof (iv_gens _ _ I _ _ Hsi) as Hg. rewrite Hd in Hg. lia.
Qed.

(** The static blocks are initialised. *)
Lemma init_all_run ms : forall t p, Inv t p -> is_Some (ts_threads t !! self) -> (forall m, m ∈ ms -> entered t m) ->
  wp (init_static_all malloc true self (ts_gen t) ms) (fun _ t' => Inv t' p /\ ts_gen t' = ts_gen t /\ forall m, entered t m -> entered t' m) t.
Proof using Malloc0.
  induction ms as [|m ms IH]; intros t p I [th Hth] Hin; cbn [init_static_all]; [by apply wp_ret|]. destruct (Hin m ltac:(left)) as (x & Hx & Hxi).
  assert (Hgm : forall s y (Q : tmod -> tls_state -> Prop), ts_mods s !! m = Some y -> Q y s -> wp (get_mod m) Q s) by (intros s y Q Hy HQ; unfold wp, get_mod, mbind, M_bind, gets; by rewrite Hy).
  apply wp_bind, (Hgm t x); [done|]. apply wp_bind. destruct (tl_need_init (tm_tls x) && (0 <? tm_blocksize x)).
  2:{ apply wp_ret, (IH t p I); [by exists th|]. intros k Hk. apply Hin. by right. }
  set (x' := with_tls (with_need_init false) x). set (t1 := set_mods (<[m := x']> (ts_mods t)) t). apply wp_bind, wp_modify. change (set_mods _ t) with t1.
  pose proof (inv_need_init t p m x false I Hx) as I1. fold x' t1 in I1. assert (Hx1 : ts_mods t1 !! m = Some x') by (cbn; by rewrite lookup_insert_eq).
  assert (He1 : forall k, entered t k -> entered t1 k).
  { intros k (y & Hy & Hyi). destruct (need_init_there t m x false Hx k y Hy) as (y' & Hy' & _ & E2 & _). exists y'. split; [done|congruence]. }
  destruct (so_in _ (iv_slots _ _ I1) m x' Hx1 Hxi) as (_ & si & Hsi & Hsm). destruct (so_map _ (iv_slots _ _ I1) _ si m Hsi Hsm) as [Hle _].
  apply wp_bind. change (ts_gen t) with (ts_gen t1). eapply wp_mono; [apply (inv_update_wp malloc t1 p self th (tm_modid x') I1 Hth Hle)|].
  intros _ t2 (I2 & (_ & _ & _ & _ & Eg2 & _) & Em2 & Hth2). apply wp_bind.
  assert (Hst : exists ws, _dl_init_static_tls m t2 = Ret tt (set_writes ws t2)).
  { assert (Hr : exists t3, _dl_init_static_tls m t2 = Ret tt t3) by (unfold _dl_init_static_tls, get_mod, mbind, M_bind, gets, modify; rewrite Em2, Hx1; cbn; by eexists).
    destruct Hr as [t3 Hr]. destruct (init_static_writes t2 m t3 Hr) as [ws ->]. by exists ws. }
  destruct Hst as [ws Hst]. unfold wp at 1. rewrite Hst. set (t3 := set_writes ws t2). pose proof (inv_writes t2 p ws I2) as I3. fold t3 in I3.
  apply wp_bind, (Hgm t3 x'); [change (ts_mods t3) with (ts_mods t2); by rewrite Em2|]. apply wp_assert; [done|].
  assert (He3 : forall k, entered t k -> entered t3 k) by (intros k Hk; unfold entered; change (ts_mods t3) with (ts_mods t2); rewrite Em2; by apply He1).
  assert (Eg3 : ts_gen t3 = ts_gen t1) by exact Eg2. rewrite <- Eg3. eapply wp_mono; [apply (IH t3 p I3 Hth2); intros k Hk; apply He3, Hin; by right|].
  intros _ t4 (I4 & Eg4 & He4). split; [done|]. split; [congruence|]. auto.
Qed.

(** After [update_tls_slotinfo] every module can be used by all threads. *)
Lemma update_tls_run ms t : enterable t -> (forall m, m ∈ ms -> is_Some (ts_mods t !! m)) -> (forall m, m ∈ ms -> slotted t m) ->
  wp (update_tls_slotinfo malloc true self ms) (fun _ t' => (exists p, Inv t' p) /\ forall m, m ∈ ms -> exists x, usable t' m x) t.
Proof using Malloc0.
  intros (p & E & _) Hin Hsl. unfold update_tls_slotinfo. destruct (add_all_run ms t p E Hin Hsl) as (t1 & p1 & Ha & E1 & _ & Hent). apply wp_bind. unfold wp at 1. rewrite Ha.
  destruct E1 as [I1 _ _ _ Hg1 Hs1]. pose proof (iv_gen _ _ I1) as Hg0. apply wp_bind.
  assert (Hbump : bump_generation "TLS generation counter wrapped!  Please report this." t1 = Ret (ts_gen t1 + 1) (set_generation (ts_gen t1 + 1) t1)).
  { unfold bump_generation. rewrite (M_bind_step _ _ _ (ts_gen t1) t1) by done. rewrite u64_small by lia. rewrite (proj2 (Z.eqb_neq _ 0)) by lia. done. }
  unfold wp at 1. rewrite Hbump. set (t2 := set_generation (ts_gen t1 + 1) t1). pose proof (inv_bump t1 p1 _ _ _ I1 Hbump) as I2. fold t2 in I2.
  change (ts_gen t1 + 1) with (ts_gen t2). eapply wp_mono; [apply (init_all_run ms t2 _ I2 Hs1 Hent)|]. intros _ t3 (I3 & Eg & He). split; [by eexists|]. intros m Hm.
  destruct (He m (Hent m Hm)) as (x & Hx & Hxi). exists x. split; [done|]. split; [done|]. destruct (so_in _ (iv_slots _ _ I3) m x Hx Hxi) as (_ & si & Hsi & _). exists si. split; [done|].
  pose proof (iv_gens _ _ I3 _ _ Hsi). cbn [lp_dirty] in *. lia.
Qed.
End Entry.
