(* ===== verification/OpenAtomic.v ===== *)
(** * Opening objects: all or nothing

    What [dl_open_worker_begin] leaves, with an exception and without one. *)

From S2P Require Import Prelude LinkMap SortMaps TlsOffset LoadCmds DynTls DynTlsSpec DynTlsMachine Close Open OpenSpec OpenGlobal OpenTls OpenTlsEntry.

(** The message with which TLS code ends the process. *)
Definition tls_stop (e : string) : Prop := e = no_memory.

(** ** Objects that stay *)
Lemma activate_run ms : forall s, exists ms', activate ms s = Ret tt (set_nodelete (os_nodelete s ∖ list_to_set ms) (set_maps ms' s)) /\
  forall k, ms' !! k = (fun l => if bool_decide (k ∈ ms /\ k ∈ os_nodelete s) then make_nodelete l else l) <$> maps s !! k.
Proof.
  induction ms as [|m ms IH]; intros s; cbn [activate].
  - exists (maps s). split; [unfold mret, M_ret; f_equal; destruct s as [[] ? nd ? ? ? ? ?]; unfold set_maps, set_nodelete; cbn; f_equal; set_solver|].
    intros k. rewrite bool_decide_eq_false_2 by (intros [?%elem_of_nil _]; done). by destruct (maps s !! k).
  - rewrite (M_bind_step _ _ _ (os_nodelete s) s) by done. case_bool_decide as Hm.
    + set (s1 := set_nodelete (os_nodelete s ∖ {[m]}) (set_maps (alter make_nodelete m (maps s)) s)). rewrite (M_bind_step _ _ _ tt s1) by done. destruct (IH s1) as (ms' & E & H).
      exists ms'. split; [rewrite E; f_equal; unfold s1, set_nodelete, set_maps; cbn; f_equal; set_solver|]. intros k. rewrite H. change (maps s1) with (alter make_nodelete m (maps s)). cbn [s1 set_nodelete os_nodelete].
      destruct (decide (k = m)) as [->|Hn].
      * rewrite lookup_alter_eq. rewrite (bool_decide_eq_true_2 (m ∈ m :: ms /\ _)) by set_solver. rewrite bool_decide_eq_false_2 by set_solver. by destruct (maps s !! m).
      * rewrite lookup_alter_ne by done. by rewrite (bool_decide_ext (k ∈ m :: ms /\ k ∈ os_nodelete s) (k ∈ ms /\ k ∈ os_nodelete s ∖ {[m]})) by set_solver.
    + rewrite (M_bind_step _ _ _ tt s) by done. destruct (IH s) as (ms' & E & H). exists ms'. split; [rewrite E; f_equal; unfold set_nodelete, set_maps; cbn; f_equal; set_solver|].
      intros k. rewrite H. by rewrite (bool_decide_ext (k ∈ m :: ms /\ k ∈ os_nodelete s) (k ∈ ms /\ k ∈ os_nodelete s)) by set_solver.
Qed.

Section Atomic.
Context (alloc_ok : nat -> bool) (libname : mapid -> string).
Context (map_new_object : option mapid -> string -> Z -> nat -> M ostate (option mapid)).
Context (map_object_deps check_map_versions open_check : mapid -> M ostate unit) (relocate_object : mapid -> Z -> M ostate unit).
Context (find_object_update : mapid -> ostate -> bool) (dl_lazy : bool).
Context (malloc : gmap Z mblock -> Z -> Z) `{!Malloc malloc} (self : Z).

(** A loader in order: the lists name objects that are there, and TLS modules can be entered. *)
Definition fine (s : ostate) : Prop := ok s /\ enterable self (cs_tls (os_c s)).
(** Only the base namespace has a global scope. *)
Definition global_in_base (mode : Z) (nsid : nat) : Prop := has_flag mode RTLD_GLOBAL = true -> nsid = 0%nat.
(** Code that changes nothing that others see. *)
Definition tame {A} (m : M ostate A) (s : ostate) : Prop := match m s with Ret _ s' | Raise _ _ s' => fine s' /\ quiet s s' | _ => False end.

(** What the rest of the loader promises. *)
Class Loader : Prop := {
  ld_map : forall caller file mode nsid s, fine s -> match map_new_object caller file mode nsid s with
    | Ret (Some m) s' => fine s' /\ quiet s s' /\ exists l, maps s' !! m = Some l /\ ci_ns (c_id l) = nsid /\
        (sc_searchlist (c_scope l) = None \/ exists l0, maps s !! m = Some l0 /\ is_Some (sc_searchlist (c_scope l0)))
    | Ret None s' => fine s' /\ quiet s s' /\ has_flag mode RTLD_NOLOAD = true
    | Raise _ _ s' => fine s' /\ quiet s s'
    | _ => False end;
  ld_deps : forall m l s, fine s -> maps s !! m = Some l -> sc_searchlist (c_scope l) = None -> match map_object_deps m s with
    | Ret _ s' => fine s' /\ quiet s s' /\ exists l' i, maps s' !! m = Some l' /\ is_Some (sc_searchlist (c_scope l')) /\ ci_initfini (c_id l') = Some i /\
        forall v, v ∈ i -> is_Some (maps s' !! v)
    | Raise _ _ s' => fine s' /\ quiet s s'
    | _ => False end;
  ld_versions : forall m s, fine s -> is_Some (maps s !! m) -> tame (check_map_versions m) s;
  ld_check : forall m s, fine s -> is_Some (maps s !! m) -> tame (open_check m) s;
  ld_relocate : forall m mode s, fine s -> is_Some (maps s !! m) -> tame (relocate_object m mode) s }.
Context {HL : Loader}.

(** Exceptions and results that leave everything as it was. *)
#[local] Abbreviation unseen s0 := (fun (_ _ : string) s' => fine s' /\ quiet s0 s').

Lemma tame_owp {A} T (m : M ostate A) s0 s : quiet s0 s -> tame m s -> owp T (unseen s0) (fun _ s' => fine s' /\ quiet s0 s' /\ quiet s s') m s.
Proof using. intros Hq H. unfold tame in H. unfold owp. destruct (m s) as [a s'|o e s'| | |]; try done; (split; [apply H|]); [split; [|apply H]|]; (etrans; [exact Hq|apply H]). Qed.
Lemma owp_nothing T s0 s : fine s -> quiet s0 s -> owp T (unseen s0) (fun (_ : unit) s' => fine s' /\ quiet s0 s' /\ quiet s s') (mret tt) s.
Proof using. intros. by apply (owp_ret _ _ _ _ s tt s). Qed.

(** ** Versions and relocation *)
Lemma versions_spec T ms s0 : forall s, fine s -> quiet s0 s -> (forall m, m ∈ ms -> is_Some (maps s !! m)) ->
  owp T (unseen s0) (fun _ s' => fine s' /\ quiet s0 s' /\ quiet s s') (check_versions check_map_versions ms) s.
Proof using HL.
  induction ms as [|m ms IH]; intros s Hf Hq Hin; cbn [check_versions]; [by apply owp_nothing|]. apply (owp_step _ _ _ _ _ s (os_versions s) s); [done|]. apply owp_bind.
  apply (owp_mono _ _ (fun _ s' => fine s' /\ quiet s0 s' /\ quiet s s')); [|intros _ s1 (F1 & Q1 & Q1'); eapply owp_mono; [apply (IH s1 F1 Q1)|]].
  - case_bool_decide; [by apply owp_nothing|]. apply tame_owp; [done|]. apply (ld_versions m s Hf). apply Hin. left.
  - intros k Hk. apply (quiet_known s); [done|]. apply Hin. by right.
  - intros _ s2 (F2 & Q2 & Q2'). split; [done|]. split; [done|]. by etrans.
Qed.
Lemma relocate_one_spec T m mode s0 s : fine s -> quiet s0 s -> is_Some (maps s !! m) ->
  owp T (unseen s0) (fun _ s' => fine s' /\ quiet s0 s' /\ quiet s s') (_dl_open_relocate_one_object relocate_object m mode) s.
Proof using HL.
  intros Hf Hq Hk. unfold _dl_open_relocate_one_object. apply (owp_step _ _ _ _ _ s (os_relocated s) s); [done|]. case_bool_decide; [by apply owp_nothing|].
  apply tame_owp; [done|]. by apply (ld_relocate m mode s Hf).
Qed.
Lemma relocate_all_spec T mode ms s0 : forall s, fine s -> quiet s0 s -> (forall m, m ∈ ms -> is_Some (maps s !! m)) ->
  owp T (unseen s0) (fun _ s' => fine s' /\ quiet s0 s' /\ quiet s s') (relocate_all relocate_object mode ms) s.
Proof using HL.
  induction ms as [|m ms IH]; intros s Hf Hq Hin; cbn [relocate_all]; [by apply owp_nothing|]. apply owp_bind.
  eapply owp_mono; [apply (relocate_one_spec T m mode s0 s Hf Hq); apply Hin; left|]. intros _ s1 (F1 & Q1 & Q1'). eapply owp_mono; [apply (IH s1 F1 Q1)|].
  - intros k Hk. apply (quiet_known s); [done|]. apply Hin. by right.
  - intros _ s2 (F2 & Q2 & Q2'). split; [done|]. split; [done|]. by etrans.
Qed.
Lemma skip_relocated_in r ms m : m ∈ skip_relocated r ms -> m ∈ ms.
Proof using. induction ms as [|k ms IH]; [done|]. cbn. case_bool_decide; [intros Hm; right; auto|done]. Qed.
Lemma to_relocate_in r i m : m ∈ to_relocate r i -> m ∈ i.
Proof using. unfold to_relocate. intros Hm%skip_relocated_in. rewrite elem_of_reverse in Hm. by apply skip_relocated_in in Hm. Qed.

(** ** Requests for memory *)
Lemma requested_ok nsid o o' s s' : ok s -> os_ns s !! nsid = Some o -> requested nsid o o' s s' -> 0 <= on_pending o' -> 0 <= on_alloc o' < 2 ^ 32 -> ok s' /\ quiet s s'.
Proof using.
  intros [A1 A2 A3 A4 A5] Ho R Hp Ha. destruct (requested_same _ _ _ _ _ R) as [Em Ec]. pose proof (fun n => requested_lookup _ _ _ _ _ n R Ho) as Hlk.
  assert (Hk : forall n, is_Some (os_ns s !! n) -> is_Some (os_ns s' !! n)) by (intros n Hn; rewrite Hlk; destruct (decide (n = nsid)); [by eexists|done]).
  split.
  - split; rewrite ?Em, ?Ec; [done|done| | |].
    + intros m l Hl. destruct (A3 m l Hl). auto.
    + intros n on m Hon. rewrite Hlk in Hon. destruct (decide (n = nsid)) as [->|]; [injection Hon as <-; destruct R as (k & _ & ->); by apply (A4 nsid o)|by apply (A4 n)].
    + intros n on Hon. rewrite Hlk in Hon. destruct (decide (n = nsid)) as [->|]; [by injection Hon as <-|by apply (A5 n)].
  - split; rewrite ?Ec; [|done|done| |].
    + intros m l Hl. exists l. rewrite Em. by split.
    + destruct R as (k & -> & _). done.
    + destruct R as (k & -> & _). done.
Qed.

Lemma request_global_spec T new l s0 s : fine s -> quiet s0 s -> maps s !! new = Some l -> ci_ns (c_id l) = 0%nat ->
  owp T (unseen s0) (fun _ s' => fine s' /\ quiet s0 s' /\ maps s' = maps s /\ cs_tls (os_c s') = cs_tls (os_c s)) (add_to_global_resize alloc_ok libname new) s.
Proof using.
  intros [Hok Hg] Hq Hl Hz. destruct (ok_ns _ Hok new l Hl) as [[nsd Hn] [o Ho]]. destruct (ok_nums _ Hok _ o Ho) as [Hp Ha].
  assert (Hr : forall o' s', requested (ci_ns (c_id l)) o o' s s' -> 0 <= on_pending o' -> 0 <= on_alloc o' < 2 ^ 32 -> fine s' /\ quiet s0 s' /\ maps s' = maps s /\ cs_tls (os_c s') = cs_tls (os_c s)).
  { intros o' s' R H1 H2. destruct (requested_ok _ o o' s s' Hok Ho R H1 H2) as [K1 K2]. assert (Et : os_c s' = os_c s) by (by destruct R as (k & -> & _)).
    split; [split; [done|by rewrite Et]|]. split; [by etrans|]. unfold maps. by rewrite Et. }
  eapply owp_raises; [eapply owp_mono; [apply (resize_global_spec alloc_ok libname new s l o nsd Hz Hl (fun m => ok_search _ Hok new l m Hl) Ho Hn Hp Ha)|]| |done].
  - intros _ s' (o' & R & Ep & Hroom & _). pose proof (to_add_nonneg (maps s) (search_of l)). apply (Hr o' s' R); lia.
  - intros nm e s' (_ & _ & o' & R & H1 & H2). destruct (Hr o' s' R H1 ltac:(lia)) as (F & Q & _). done.
Qed.

Lemma tls_ok t s : ok s -> ok (set_c (set_ctls t (os_c s)) s).
Proof using. by intros [A1 A2 A3 A4 A5]. Qed.
Lemma tls_quiet t s : quiet s (set_c (set_ctls t (os_c s)) s).
Proof using. split; try done. intros m l Hl. by exists l. Qed.

Lemma request_tls_spec T ms s0 s : fine s -> quiet s0 s -> (forall m, m ∈ ms -> is_Some (ts_mods (cs_tls (os_c s)) !! m)) ->
  owp T (unseen s0) (fun any s' => fine s' /\ quiet s0 s' /\ maps s' = maps s /\ ts_mods (cs_tls (os_c s')) = ts_mods (cs_tls (os_c s)) /\
      (forall m, m ∈ ms -> slotted (cs_tls (os_c s')) m) /\ (any = false -> forall m, m ∈ ms -> entered (cs_tls (os_c s')) m))
    (on_close (on_tls (resize_tls_slotinfo malloc ms false))) s.
Proof using Malloc0.
  intros [Hok (p & E & Hd)] Hq Hin. set (t := cs_tls (os_c s)) in *. pose proof (resize_tls_run malloc self ms false t p E Hin) as H1. pose proof (resize_tls_spec malloc ms false t) as H2.
  pose proof (fun t' => resize_tls_false malloc self ms false t p t' E Hin) as H3. unfold owp, on_close, on_tls. fold t.
  destruct (resize_tls_slotinfo malloc ms false t) as [any t'|o e t'| | |]; try done.
  - destruct H2 as (K1 & K2 & _). split; [split; [by apply tls_ok|by exists p]|]. split; [etrans; [exact Hq|apply tls_quiet]|]. split; [done|]. split; [done|]. split; [done|].
    intros ->. destruct (H3 t' eq_refl) as [_ Hall]. intros m Hm. unfold entered. change (cs_tls (os_c _)) with t'. rewrite K2. by apply Hall.
  - split; [split; [by apply tls_ok|by exists p]|]. etrans; [exact Hq|apply tls_quiet].
Qed.

(** Before anything is published: there is memory for all changes to the scopes, and slots for all TLS modules. *)
Definition ready (new : mapid) (L : list mapid) (any : bool) (s : ostate) : Prop :=
  (exists l, maps s !! new = Some l /\ sc_searchlist (c_scope l) = Some L) /\ (forall m, m ∈ L -> is_Some (maps s !! m) /\ roomy new m (maps s)) /\
  (forall m, m ∈ L -> is_Some (ts_mods (cs_tls (os_c s)) !! m) -> slotted (cs_tls (os_c s)) m) /\
  (any = false -> forall m, m ∈ L -> is_Some (ts_mods (cs_tls (os_c s)) !! m) -> entered (cs_tls (os_c s)) m).

(** The search list and [l_initfini] of an object stay once they are set. *)
Lemma quiet_search s s' m l L i : quiet s s' -> maps s !! m = Some l -> sc_searchlist (c_scope l) = Some L -> ci_initfini (c_id l) = i ->
  exists l', maps s' !! m = Some l' /\ sc_searchlist (c_scope l') = Some L /\ ci_initfini (c_id l') = i /\ search_of l' = L /\ ci_ns (c_id l') = ci_ns (c_id l).
Proof using.
  intros Hq Hl HsL Hi. destruct (q_maps _ _ Hq m l Hl) as (l' & Hl' & [Hp Hs]). destruct (Hs ltac:(by exists L)) as [E1 E2]. exists l'. split; [done|]. split; [congruence|]. split; [congruence|].
  split; [unfold search_of; by rewrite E1, HsL|]. by injection Hp.
Qed.

Lemma prepare_spec T new l nsid mode s : fine s -> maps s !! new = Some l -> sc_searchlist (c_scope l) = None -> is_Some (os_ns s !! nsid) ->
  owp T (unseen s) (fun _ s' => fine s' /\ quiet s s' /\ exists l' L, maps s' !! new = Some l' /\ sc_searchlist (c_scope l') = Some L /\ ci_ns (c_id l') = ci_ns (c_id l))
    (prepare map_object_deps check_map_versions open_check relocate_object dl_lazy new nsid mode) s.
Proof using HL.
  intros Hf Hl Hno Hns. unfold prepare. apply owp_bind. pose proof (ld_deps new l s Hf Hl Hno) as Hd. unfold owp at 1. destruct (map_object_deps new s) as [[] s1|o e s1| | |]; try done.
  destruct Hd as (F1 & Q1 & l1 & i & Hl1 & [L HL1] & Hi & Hik). assert (En1 : ci_ns (c_id l1) = ci_ns (c_id l)) by (destruct (q_maps _ _ Q1 new l Hl) as (l' & Hl' & [Hp _]); assert (l' = l1) as -> by congruence; by injection Hp).
  assert (Hnext : forall s', quiet s1 s' -> exists l', maps s' !! new = Some l' /\ sc_searchlist (c_scope l') = Some L /\ ci_initfini (c_id l') = Some i /\ search_of l' = L /\ ci_ns (c_id l') = ci_ns (c_id l1))
    by (intros s' Hq; by apply (quiet_search s1 s' new l1)).
  assert (Es1 : search_of l1 = L) by (unfold search_of; by rewrite HL1). assert (HLk : forall m, m ∈ L -> is_Some (maps s1 !! m)) by (intros m Hm; apply (ok_search _ (proj1 F1) new l1 m Hl1); by rewrite Es1).
  apply (owp_step _ _ _ _ _ s1 l1 s1); [by apply o_get_run|]. rewrite Es1. apply owp_bind. eapply owp_mono; [apply (versions_spec T L s s1 F1 Q1 HLk)|]. intros _ s2 (F2 & Q2 & Q2').
  apply owp_bind. eapply owp_mono; [apply (tame_owp T (open_check new) s s2 Q2), (ld_check new s2 F2), (quiet_known s1); [done|by exists l1]|]. intros _ s3 (F3 & Q3 & Q3').
  assert (Q13 : quiet s1 s3) by (by etrans). destruct (Hnext s3 Q13) as (l3 & Hl3 & _ & Hi3 & _). apply (owp_step _ _ _ _ _ s3 l3 s3); [by apply o_get_run|]. rewrite Hi3.
  apply (owp_step _ _ _ _ _ s3 i s3); [done|]. apply (owp_step _ _ _ _ _ s3 (os_relocated s3) s3); [done|]. destruct (q_ons _ _ Q3 nsid Hns) as [o3 Ho3].
  apply (owp_step _ _ _ _ _ s3 o3 s3 (get_ons_run _ _ _ Ho3)). set (rm := Z.lor _ _). apply owp_bind.
  apply (owp_mono _ _ (fun _ s' => fine s' /\ quiet s s' /\ quiet s3 s')).
  { destruct (on_libc o3) as [libc|] eqn:Elibc; [|by apply owp_nothing]. apply relocate_one_spec; [done|done|]. by apply (ok_libc _ (proj1 F3) nsid o3). }
  intros _ s4 (F4 & Q4 & Q4'). assert (Q14 : quiet s1 s4) by (by etrans). eapply owp_mono; [apply (relocate_all_spec T rm (to_relocate (os_relocated s3) i) s s4 F4 Q4)|].
  { intros m Hm%to_relocate_in. apply (quiet_known s1); [done|]. by apply Hik. }
  intros _ s5 (F5 & Q5 & Q5'). assert (Q15 : quiet s1 s5) by (by etrans). destruct (Hnext s5 Q15) as (l5 & Hl5 & HL5 & _ & _ & En5). split; [done|]. split; [done|]. exists l5, L. split; [done|]. split; [done|congruence].
Qed.

(** The requests: with an exception nothing that others see has changed. *)
Lemma request_spec T new l L mode s : fine s -> maps s !! new = Some l -> sc_searchlist (c_scope l) = Some L -> global_in_base mode (ci_ns (c_id l)) ->
  owp T (unseen s) (fun any s' => fine s' /\ quiet s s' /\ ready new L any s' /\ ts_mods (cs_tls (os_c s')) = ts_mods (cs_tls (os_c s))) (request alloc_ok libname malloc new mode) s.
Proof using Malloc0.
  intros [K G] Hl HsL Hgb. unfold request. assert (Es : search_of l = L) by (unfold search_of; by rewrite HsL).
  assert (HLk : forall m, m ∈ L -> is_Some (maps s !! m)) by (intros m Hm; apply (ok_search _ K new l m Hl); by rewrite Es). apply owp_bind. unfold resize_scopes.
  apply (owp_step _ _ _ _ _ s l s); [by apply o_get_run|]. rewrite Es.
  eapply owp_raises; [eapply owp_mono; [apply (resize_scopes_of_spec alloc_ok new L s s K); done|]| |done].
  2:{ intros o e s' (_ & _ & K6 & Q6 & Et6). split; [split; [done|by rewrite Et6]|done]. }
  intros _ s6 (K6 & Q6 & Et6 & _ & Hr6). assert (F6 : fine s6) by (split; [done|by rewrite Et6]).
  destruct (quiet_search s s6 new l L _ Q6 Hl HsL eq_refl) as (l6 & Hl6 & HL6 & _ & Es6 & En6). apply (owp_step _ _ _ _ _ s6 l6 s6); [by apply o_get_run|]. rewrite Es6.
  set (mods := filter (fun m => is_Some (ts_mods (cs_tls (os_c s6)) !! m)) L). apply (owp_step _ _ _ _ _ s6 mods s6); [done|]. apply owp_bind.
  eapply owp_mono; [apply (request_tls_spec T mods s s6 F6 Q6); by intros m [? _]%list_elem_of_filter|]. intros any s7 (F7 & Q7 & Em7 & Et7 & Hs7 & Hf7).
  apply owp_bind. apply (owp_mono _ _ (fun _ s' => fine s' /\ quiet s s' /\ maps s' = maps s7 /\ cs_tls (os_c s') = cs_tls (os_c s7))).
  { destruct (has_flag mode RTLD_GLOBAL) eqn:Eg; [|by apply (owp_ret _ _ _ _ s7 tt s7)]. apply (request_global_spec T new l6); [done|done|by rewrite Em7|]. rewrite En6. by apply Hgb. }
  intros _ s8 (F8 & Q8 & Em8 & Et8). apply (owp_ret _ _ _ _ s8 any s8); [done|]. split; [done|]. split; [done|].
  assert (Hmods : forall m, m ∈ L -> is_Some (ts_mods (cs_tls (os_c s7)) !! m) -> m ∈ mods) by (intros m Hm Hk; apply list_elem_of_filter; by rewrite <- Et7).
  split; [|by rewrite Et8, Et7, Et6]. unfold ready. rewrite Em8, Em7, Et8. split; [by exists l6|]. split; [|split; [|intros Hany]; intros m Hm Hk; auto].
  intros m Hm. split; [|by apply Hr6]. apply (quiet_known s); [done|]. by apply HLk.
Qed.

(** ** Publishing *)
(** The state after the changes; [loaded] is the list of the namespace. *)
Definition published (new : mapid) (L loaded : list mapid) (s s' : ostate) : Prop :=
  (forall k, maps s' !! k = (fun l => extended new L k (if bool_decide (k ∈ loaded /\ k ∈ os_nodelete s) then make_nodelete l else l)) <$> maps s !! k) /\
  cs_ns (os_c s') = cs_ns (os_c s) /\ os_nodelete s' = os_nodelete s ∖ list_to_set loaded.

#[local] Abbreviation lookup_data_failure new o e := (o = libname new /\ e = "cannot allocate address lookup data"%string /\ exists s, find_object_update new s = false).

Lemma publish_spec new nsid any l L nsd s : fine s -> is_Some (os_ns s !! nsid) -> maps s !! new = Some l -> ready new L any s -> cs_ns (os_c s) !! ci_ns (c_id l) = Some nsd ->
  owp tls_stop (fun o e _ => lookup_data_failure new o e)
    (fun _ s' => published new L (nd_loaded nsd) s s' /\ forall m, m ∈ L -> is_Some (ts_mods (cs_tls (os_c s)) !! m) -> exists x, usable (cs_tls (os_c s')) m x)
    (publish libname find_object_update malloc true self new nsid any) s.
Proof using Malloc0.
  intros [Hok Hg] [o Ho] Hl ((l0 & Hl0 & HsL) & HL2 & Hsl & Hany) Hn. assert (l0 = l) as -> by congruence. unfold publish, activate_nodelete.
  apply owp_bind. apply (owp_step _ _ _ _ _ s l s); [by apply o_get_run|]. apply (owp_step _ _ _ _ _ s nsd s); [by apply get_ns_run|].
  destruct (activate_run (nd_loaded nsd) s) as (ms1 & E1 & H1). set (s1 := set_nodelete (os_nodelete s ∖ list_to_set (nd_loaded nsd)) (set_maps ms1 s)) in *. apply (owp_ret _ _ _ _ s tt s1 E1).
  set (f := fun k l => if bool_decide (k ∈ nd_loaded nsd /\ k ∈ os_nodelete s) then make_nodelete l else l). change (forall k, ms1 !! k = f k <$> maps s !! k) in H1.
  assert (Hf : forall k l, search_of (f k l) = search_of l /\ scope_size (f k l) = scope_size l /\ old_object (f k l) = old_object l /\ sc_max (c_scope (f k l)) = sc_max (c_scope l) /\ scope_has_map (f k l) new = scope_has_map l new)
    by (intros k x; unfold f; by destruct (bool_decide _)).
  assert (Hl1 : maps s1 !! new = Some (f new l)) by (change (maps s1) with ms1; by rewrite H1, Hl). assert (Es : search_of l = L) by (unfold search_of; by rewrite HsL).
  apply owp_bind. unfold update_scopes. apply (owp_step _ _ _ _ _ s1 (f new l) s1); [by apply o_get_run|]. rewrite (proj1 (Hf new l)), Es.
  destruct (update_scopes_run new L s1) as (ms2 & E2 & H2).
  { intros m Hm. destruct (HL2 m Hm) as [[lm Hlm] Hr]. change (maps s1) with ms1. split; [rewrite H1, Hlm; by eexists|]. intros l' Hl'. rewrite H1, Hlm in Hl'. injection Hl' as <-.
    destruct (Hf m lm) as (_ & -> & -> & -> & ->). by apply Hr. }
  apply (owp_ret _ _ _ _ s1 tt _ E2). set (s2 := set_maps ms2 s1).
  assert (Hmaps2 : forall k, maps s2 !! k = (fun l => extended new L k (f k l)) <$> maps s !! k) by (intros k; change (maps s2) with ms2; rewrite H2; change (maps s1) with ms1; rewrite H1; by destruct (maps s !! k)).
  apply (owp_step _ _ _ _ _ s2 (find_object_update new s2) s2); [done|]. destruct (find_object_update new s2) eqn:Ef.
  2:{ apply (owp_raise_bind _ _ _ _ _ s2 (libname new) "cannot allocate address lookup data" s2); [done|]. split; [done|]. split; [done|]. by exists s2. }
  apply (owp_step _ _ _ _ _ s2 tt s2); [done|]. assert (Hl2 : maps s2 !! new = Some (extended new L new (f new l))) by (by rewrite Hmaps2, Hl).
  apply (owp_step _ _ _ _ _ s2 _ s2 (o_get_run _ _ _ Hl2)). assert (Es2 : search_of (extended new L new (f new l)) = L) by (change (search_of (f new l) = L); by rewrite (proj1 (Hf new l))). rewrite Es2.
  set (mods := filter (fun m => is_Some (ts_mods (cs_tls (os_c s2)) !! m)) L). apply (owp_step _ _ _ _ _ s2 mods s2); [done|]. apply owp_bind.
  assert (Hmods : forall m, m ∈ L -> is_Some (ts_mods (cs_tls (os_c s)) !! m) -> m ∈ mods) by (intros m Hm Hk; by apply list_elem_of_filter).
  apply (owp_mono _ _ (fun _ s' => exists t, s' = set_c (set_ctls t (os_c s2)) s2 /\ forall m, m ∈ mods -> exists x, usable t m x)).
  { destruct any.
    - cbn [when]. pose proof (update_tls_run malloc self mods (cs_tls (os_c s)) Hg ltac:(by intros m [? _]%list_elem_of_filter) ltac:(intros m [? ?]%list_elem_of_filter; by apply Hsl)) as H3. unfold owp, on_close, on_tls. change (cs_tls (os_c s2)) with (cs_tls (os_c s)). unfold wp in H3.
      destruct (update_tls_slotinfo malloc true self mods (cs_tls (os_c s))) as [[] t| | | |]; try done. exists t. split; [done|apply H3].
    - apply (owp_ret _ _ _ _ s2 tt s2); [done|]. exists (cs_tls (os_c s2)). split; [by destruct s as [[] ? ? ? ? ? ? ?]|]. intros m [? ?]%list_elem_of_filter. apply (entered_usable self); [exact Hg|]. by apply Hany. }
  intros _ s3 (t & -> & Hus). set (s3 := set_c (set_ctls t (os_c s2)) s2). apply (owp_step _ _ _ _ _ s3 (os_args s3) s3); [done|].
  assert (Hfin : forall s', os_c s' = os_c s3 -> os_nodelete s' = os_nodelete s3 -> published new L (nd_loaded nsd) s s' /\
    forall m, m ∈ L -> is_Some (ts_mods (cs_tls (os_c s)) !! m) -> exists x, usable (cs_tls (os_c s')) m x).
  { intros s' E E'. split; [|rewrite E; intros m Hm Hk; apply Hus; by apply Hmods]. split; [unfold maps; rewrite E; exact Hmaps2|]. split; [by rewrite E|by rewrite E']. }
  destruct (a_libc (os_args s3)).
  - apply (owp_step _ _ _ _ _ s3 tt s3); [done|]. eapply owp_ret; [reflexivity|]. by apply Hfin.
  - apply owp_bind. apply (owp_step _ _ _ _ _ s3 o s3 (get_ons_run nsid o s3 Ho)). eapply owp_ret; [reflexivity|]. eapply owp_ret; [reflexivity|]. by apply Hfin.
Qed.

(** ** An object that is open already *)
Definition reopened (new : mapid) (mode : Z) (s s' : ostate) : Prop := exists l L nsid, maps s !! new = Some l /\ search_of l = L /\ ci_ns (c_id l) = nsid /\
  let to_global := has_flag mode RTLD_GLOBAL && negb (ci_global (c_id l)) in
  (forall m lm, maps s !! m = Some lm -> exists lm', maps s' !! m = Some lm' /\ c_init_called lm' = c_init_called lm /\ sc_list (c_scope lm') = sc_list (c_scope lm) /\
     ci_global (c_id lm') = ci_global (c_id lm) || to_global && bool_decide (m ∈ L) /\ ci_nodelete (c_id lm') = ci_nodelete (c_id lm) || has_flag mode RTLD_NODELETE && bool_decide (m = new)) /\
  (forall n x, cs_ns (os_c s) !! n = Some x -> exists x' added, cs_ns (os_c s') !! n = Some x' /\ nd_msl x' = nd_msl x ++ added /\ NoDup added /\
     forall m, m ∈ added <-> n = nsid /\ to_global = true /\ m ∈ L /\ not_global (maps s) m = true).

Lemma nodelete_part new mode s : exists s', when (has_flag mode RTLD_NODELETE) (o_set new make_nodelete) s = Ret tt s' /\ s' = set_maps (maps s') s /\
  forall k, maps s' !! k = (fun l => if has_flag mode RTLD_NODELETE && bool_decide (k = new) then make_nodelete l else l) <$> maps s !! k.
Proof using.
  destruct (has_flag mode RTLD_NODELETE); cbn [when andb].
  - eexists. split; [apply o_set_run|]. split; [done|]. intros k. change (alter make_nodelete new (maps s) !! k = (fun l => if bool_decide (k = new) then make_nodelete l else l) <$> maps s !! k).
    destruct (decide (k = new)) as [->|Hn]; [rewrite lookup_alter_eq|rewrite lookup_alter_ne by done].
    + destruct (maps s !! new); cbn; [by rewrite bool_decide_eq_true_2|done].
    + destruct (maps s !! k); cbn; [by rewrite bool_decide_eq_false_2|done].
  - exists s. split; [done|]. split; [by destruct s as [[] ? ? ? ? ? ? ?]|]. intros k. by destruct (maps s !! k).
Qed.

Lemma reopen_spec T new mode l s : fine s -> maps s !! new = Some l -> new ∈ os_relocated s -> global_in_base mode (ci_ns (c_id l)) ->
  owp T (unseen s) (fun _ s' => reopened new mode s s') (reopen alloc_ok libname new mode) s.
Proof using.
  intros [Hok Hg] Hl Hrel Hgb. unfold reopen. apply (owp_step _ _ _ _ _ s l s); [by apply o_get_run|]. apply (owp_step _ _ _ _ _ s (os_relocated s) s); [done|].
  rewrite bool_decide_eq_true_2 by done. apply (owp_step _ _ _ _ _ s tt s); [done|]. destruct (ok_ns _ Hok new l Hl) as [[nsd Hn] [o Ho]]. set (nsid := ci_ns (c_id l)) in *.
  destruct (has_flag mode RTLD_GLOBAL && negb (ci_global (c_id l))) eqn:Eg; cbn [when].
  - assert (Hz : nsid = 0%nat) by (apply andb_true_iff in Eg as [Eg _]; by apply Hgb). apply owp_bind. destruct (ok_nums _ Hok _ o Ho) as [Hp Ha].
    eapply owp_raises; [eapply owp_mono; [apply (resize_global_spec alloc_ok libname new s l o nsd Hz Hl (fun m => ok_search _ Hok new l m Hl) Ho Hn Hp Ha)|]| |done].
    2:{ intros nm e s' (_ & _ & o' & R & H1 & H2). destruct (requested_ok _ o o' s s' Hok Ho R H1 ltac:(lia)) as [K1 K2]. split; [split; [done|]|done]. destruct R as (k & -> & _). exact Hg. }
    intros _ s1 (o' & R & Ep & Hroom & _). destruct (requested_same _ _ _ _ _ R) as [Em Ec]. pose proof (requested_lookup _ _ _ _ _ nsid R Ho) as Ho1. rewrite decide_True in Ho1 by done. fold nsid in R.
    destruct (nodelete_part new mode s1) as (s2 & E2 & Es2 & H2). apply (owp_step _ _ _ _ _ s1 tt s2 E2). set (g := fun k l => if has_flag mode RTLD_NODELETE && bool_decide (k = new) then make_nodelete l else l) in *.
    assert (Hm2 : forall k, maps s2 !! k = g k <$> maps s !! k) by (intros k; by rewrite H2, Em). clear H2.
    assert (Hg2 : forall k x, ci_ns (c_id (g k x)) = ci_ns (c_id x) /\ search_of (g k x) = search_of x /\ ci_global (c_id (g k x)) = ci_global (c_id x)) by (intros k x; unfold g; destruct (has_flag mode RTLD_NODELETE && bool_decide (k = new)); done).
    assert (Hng : forall k, not_global (maps s2) k = not_global (maps s) k) by (intros k; unfold not_global; rewrite Hm2; destruct (maps s !! k) as [x|]; [cbn; by destruct (Hg2 k x) as (_ & _ & ->)|done]).
    assert (Hta : forall L, to_add (maps s2) L = to_add (maps s) L) by (intros L; unfold to_add; do 2 f_equal; apply filter_ext_in; intros k _; by rewrite Hng).
    destruct (Hg2 new l) as (Gn & Gs & _). destruct (update_global_run new s2 (g new l) o' nsd) as (added & s3 & E3 & G3).
    { by rewrite Gn. } { by rewrite Hm2, Hl. } { rewrite Gs. intros m Hm. destruct (ok_search _ Hok new l m Hl Hm) as [x Hx]. rewrite Hm2, Hx. by eexists. } { rewrite Gn, Es2. exact Ho1. }
    { rewrite Gn, Es2. cbn. by rewrite Ec. } { lia. } { rewrite Gs, Hta. pose proof (ok_nums _ Hok _ o Ho). lia. }
    apply (owp_ret _ _ _ _ s2 tt s3 E3). rewrite Gn, Gs in G3. fold nsid in G3. destruct G3 as (_ & G2 & Gm & Gnd & Gin & _). exists l, (search_of l), nsid. split; [done|]. split; [done|]. split; [done|].
    rewrite Eg. cbn zeta. split.
    + intros m lm Hlm. exists ((if bool_decide (m ∈ search_of l) then make_global else id) (g m lm)). split; [by rewrite Gm, Hm2, Hlm|]. unfold g.
      destruct (bool_decide (m ∈ search_of l)), (has_flag mode RTLD_NODELETE && bool_decide (m = new)); cbn; rewrite ?orb_true_r, ?orb_false_r; done.
    + assert (Ec2 : cs_ns (os_c s2) = cs_ns (os_c s)) by (rewrite Es2; exact Ec). intros n x Hx. destruct (decide (n = nsid)) as [->|Hne].
      * assert (x = nsd) as -> by congruence. exists (mkNsd (nd_loaded nsd) (nd_nloaded nsd) (nd_msl nsd ++ added) (nd_unique nsd)), added.
        split; [rewrite G2; apply list_lookup_insert_eq; rewrite Ec2; by eapply lookup_lt_Some|]. split; [done|]. split; [done|]. intros m. rewrite Gin, Hng. split; [by intros [? ?]|by intros (_ & _ & ? & ?)].
      * exists x, []. split; [rewrite G2, list_lookup_insert_ne, Ec2 by done; done|]. split; [by rewrite app_nil_r|]. split; [constructor|]. intros m. rewrite elem_of_nil. split; [done|by intros [? _]].
  - apply (owp_step _ _ _ _ _ s tt s); [done|]. destruct (nodelete_part new mode s) as (s2 & E2 & Es2 & H2). apply (owp_step _ _ _ _ _ s tt s2 E2). apply (owp_ret _ _ _ _ s2 tt s2); [done|].
    exists l, (search_of l), nsid. split; [done|]. split; [done|]. split; [done|]. rewrite Eg. cbn zeta. split.
    + intros m lm Hlm. eexists. split; [by rewrite H2, Hlm|]. destruct (has_flag mode RTLD_NODELETE && bool_decide (m = new)); cbn; rewrite ?orb_true_r, ?orb_false_r; done.
    + intros n x Hx. exists x, []. split; [rewrite Es2; exact Hx|]. split; [by rewrite app_nil_r|]. split; [constructor|]. intros m. rewrite elem_of_nil. split; [done|]. by intros (_ & ? & _).
Qed.

(** ** The whole function *)

(** A new object was opened: objects that were there before and are in its search list have it in their scopes, objects that were to
    stay do so, and the global scope is as it was. *)
Definition opened (new : mapid) (mode : Z) (s s' : ostate) : Prop := exists l' L, maps s' !! new = Some l' /\ sc_searchlist (c_scope l') = Some L /\
  (forall m l, maps s !! m = Some l -> exists lm, maps s' !! m = Some lm /\ c_init_called lm = c_init_called l /\ ci_global (c_id lm) = ci_global (c_id l) /\
     sc_list (c_scope lm) = (if bool_decide (m ∈ L) && old_object l && negb (scope_has_map l new) then sc_list (c_scope l) ++ [SearchOf new] else sc_list (c_scope l)) /\
     (ci_nodelete (c_id l) = true -> ci_nodelete (c_id lm) = true)) /\
  (forall n, nd_msl <$> cs_ns (os_c s') !! n = nd_msl <$> cs_ns (os_c s) !! n) /\
  forall nsd m, cs_ns (os_c s') !! ci_ns (c_id l') = Some nsd -> m ∈ nd_loaded nsd -> (m ∉ os_nodelete s') /\
    forall lm, m ∈ os_nodelete s \/ has_flag mode RTLD_NODELETE = true /\ m = new -> maps s' !! m = Some lm -> ci_nodelete (c_id lm) = true.

Lemma published_opened new mode s0 s l L nsd s' : quiet s0 s -> maps s !! new = Some l -> sc_searchlist (c_scope l) = Some L -> cs_ns (os_c s) !! ci_ns (c_id l) = Some nsd ->
  (has_flag mode RTLD_NODELETE = true -> new ∈ os_nodelete s) -> published new L (nd_loaded nsd) s s' -> opened new mode s0 s'.
Proof using.
  intros Hq Hl HsL Hn Hnd (Pm & Pc & Pn). set (f := fun k l => if bool_decide (k ∈ nd_loaded nsd /\ k ∈ os_nodelete s) then make_nodelete l else l).
  change (forall k, maps s' !! k = (fun l => extended new L k (f k l)) <$> maps s !! k) in Pm. exists (extended new L new (f new l)), L. split; [by rewrite Pm, Hl|].
  assert (Hf : forall k x, c_init_called (f k x) = c_init_called x /\ ci_global (c_id (f k x)) = ci_global (c_id x) /\ c_scope (f k x) = c_scope x /\ c_type (f k x) = c_type x /\ ci_ns (c_id (f k x)) = ci_ns (c_id x) /\
    (ci_nodelete (c_id x) = true -> ci_nodelete (c_id (f k x)) = true)) by (intros k x; unfold f; destruct (bool_decide (k ∈ nd_loaded nsd /\ k ∈ os_nodelete s)); done).
  split; [destruct (Hf new l) as (_ & _ & E & _); change (sc_searchlist (c_scope (f new l)) = Some L); by rewrite E|]. split; [|split].
  - intros m l0 Hl0. destruct (q_maps _ _ Hq m l0 Hl0) as (lm & Hlm & [Hp _]). exists (extended new L m (f m lm)). split; [by rewrite Pm, Hlm|]. destruct (Hf m lm) as (F1 & F2 & F3 & F4 & _ & F6).
    injection Hp as P1 _ _ P4 P5 P6 P7. split; [change (c_init_called (f m lm) = c_init_called l0); congruence|]. split; [change (ci_global (c_id (f m lm)) = ci_global (c_id l0)); congruence|].
    split; [|intros H0; apply F6; congruence]. unfold extended, old_object, scope_has_map, c_type in *. cbn [with_scopes with_scope c_scope sc_list]. by rewrite F1, F3, F4, P1, P6, P7.
  - intros n. rewrite Pc. apply (q_msl _ _ Hq).
  - intros x m Hx Hm. assert (x = nsd) as ->.
    { change (cs_ns (os_c s') !! ci_ns (c_id (f new l)) = Some x) in Hx. destruct (Hf new l) as (_ & _ & _ & _ & E & _). rewrite E, Pc in Hx. congruence. }
    split; [rewrite Pn; intros [_ Hno]%elem_of_difference; apply Hno; by apply elem_of_list_to_set|]. intros lm Hor Hlm. rewrite Pm in Hlm. destruct (maps s !! m) as [l1|]; [|done]. injection Hlm as <-.
    change (ci_nodelete (c_id (f m l1)) = true). unfold f. rewrite bool_decide_eq_true_2; [done|]. split; [done|]. destruct Hor as [Hor|[Hfl ->]]; [by apply (q_nodelete _ _ Hq)|auto].
Qed.

Lemma args_fine a s : fine s -> fine (set_args a s).
Proof using. by intros [[A1 A2 A3 A4 A5] G]. Qed.
Lemma args_quiet a s : quiet s (set_args a s).
Proof using. split; try done. intros m l Hl. by exists l. Qed.
Lemma nodelete_fine N s : fine s -> fine (set_nodelete N s).
Proof using. by intros [[A1 A2 A3 A4 A5] G]. Qed.
Lemma open_fine n m s : fine s -> fine (set_maps (alter (fun l => with_open (n l) l) m (maps s)) s).
Proof using. intros [Hok G]. split; [|done]. apply alter_ok; [done|]. intros l Hl. split; [exact (ok_scope _ Hok m l Hl)|done]. Qed.
Lemma open_quiet n m s : quiet s (set_maps (alter (fun l => with_open (n l) l) m (maps s)) s).
Proof using. apply alter_quiet. intros l _. by split. Qed.

(** The object is mapped, or was there. *)
Lemma find_new_spec T caller file mode nsid s0 s : fine s -> quiet s0 s -> (forall m, a_map (os_args s) = Some m -> exists l, maps s !! m = Some l /\ ci_ns (c_id l) = nsid) ->
  (forall m l, maps s !! m = Some l -> is_Some (sc_searchlist (c_scope l)) -> m ∈ os_relocated s) ->
  owp T (unseen s0) (fun r s' => fine s' /\ quiet s0 s' /\ quiet s s' /\ match r with
      | Some m => exists l, maps s' !! m = Some l /\ ci_ns (c_id l) = nsid /\ (is_Some (sc_searchlist (c_scope l)) -> m ∈ os_relocated s')
      | None => has_flag (Z.lor mode __RTLD_CALLMAP) RTLD_NOLOAD = true end)
    (match a_map (os_args s) with
     | Some m => mret (Some m)
     | None => m ← map_new_object caller file (Z.lor mode __RTLD_CALLMAP) nsid;
               modify (fun s => let a := os_args s in set_args (mkArgs m (a_pending a) (a_libc a) (a_continue a)) s);; mret m
     end) s.
Proof using HL.
  intros Hf Hq Hmap Hrel. destruct (a_map (os_args s)) as [m|] eqn:Em.
  - apply (owp_ret _ _ _ _ s (Some m) s); [done|]. split; [done|]. split; [done|]. split; [done|]. destruct (Hmap m eq_refl) as (l & Hl & En). exists l. split; [done|]. split; [done|]. by apply Hrel.
  - apply owp_bind. pose proof (ld_map caller file (Z.lor mode __RTLD_CALLMAP) nsid s Hf) as H. unfold owp at 1. destruct (map_new_object caller file (Z.lor mode __RTLD_CALLMAP) nsid s) as [[m|] s1|o e s1| | |]; try done.
    + destruct H as (F1 & Q1 & l & Hl & En & Hor). eapply owp_ret; [reflexivity|]. split; [by apply args_fine|]. split; [etrans; [exact Hq|]; etrans; [exact Q1|apply args_quiet]|].
      split; [etrans; [exact Q1|apply args_quiet]|]. exists l. split; [done|]. split; [done|]. intros Hs. destruct Hor as [E|(l0 & Hl0 & Hs0)]; [rewrite E in Hs; by destruct Hs|]. apply (q_relocated _ _ Q1). by apply (Hrel m l0).
    + destruct H as (F1 & Q1 & Hfl). eapply owp_ret; [reflexivity|]. split; [by apply args_fine|]. split; [etrans; [exact Hq|]; etrans; [exact Q1|apply args_quiet]|]. split; [etrans; [exact Q1|apply args_quiet]|done].
    + destruct H as (F1 & Q1). split; [done|]. by etrans.
Qed.

Lemma callmap_noload mode : has_flag (Z.lor mode __RTLD_CALLMAP) RTLD_NOLOAD = has_flag mode RTLD_NOLOAD.
Proof using. unfold has_flag. rewrite Z.land_lor_distr_l. change (Z.land __RTLD_CALLMAP RTLD_NOLOAD) with 0. by rewrite Z.lor_0_r. Qed.

(** The requests and the changes that follow them. *)
Lemma commit_spec new l L nsid mode s : fine s -> maps s !! new = Some l -> sc_searchlist (c_scope l) = Some L -> global_in_base mode (ci_ns (c_id l)) -> is_Some (os_ns s !! nsid) ->
  (has_flag mode RTLD_NODELETE = true -> new ∈ os_nodelete s) ->
  owp tls_stop (fun o e s' => quiet s s' \/ lookup_data_failure new o e)
    (fun _ s' => opened new mode s s' /\ forall m, m ∈ L -> is_Some (ts_mods (cs_tls (os_c s)) !! m) -> exists x, usable (cs_tls (os_c s')) m x)
    (any_tls ← request alloc_ok libname malloc new mode; publish libname find_object_update malloc true self new nsid any_tls) s.
Proof using Malloc0.
  intros Hf Hl HsL Hgb Hns Hnd. apply owp_bind. eapply owp_raises; [eapply owp_mono; [apply (request_spec tls_stop new l L mode s Hf Hl HsL Hgb)|]| |done].
  2:{ intros o e s' [_ Qs]. by left. }
  intros any s2 (F2 & Q2 & Hr & Hmods). pose proof Hr as ((l2 & Hl2 & HsL2) & _). destruct (ok_ns _ (proj1 F2) new l2 Hl2) as [[nsd Hn] _].
  eapply owp_raises; [eapply owp_mono; [apply (publish_spec new nsid any l2 L nsd s2 F2); [by apply (q_ons _ _ Q2)|done|done|done]|]| |done].
  - intros [] s3 [P Hu]. split; [|intros m Hm; rewrite <- Hmods; by apply Hu]. apply (published_opened new mode s s2 l2 L nsd s3); try done. intros Hfl. apply (q_nodelete _ _ Q2). auto.
  - intros o e s3 H. by right.
Qed.

(** The branch for an object that is not open. *)
Lemma open_new_spec new l nsid mode s0 s : fine s -> quiet s0 s -> maps s !! new = Some l -> sc_searchlist (c_scope l) = None -> global_in_base mode (ci_ns (c_id l)) -> is_Some (os_ns s !! nsid) ->
  owp tls_stop (fun o e s' => quiet s0 s' \/ lookup_data_failure new o e) (fun _ s' => exists s1, quiet s0 s1 /\ opened new mode s1 s')
    (when (has_flag mode RTLD_NODELETE) (modify (fun s => set_nodelete (os_nodelete s ∪ {[new]}) s));;
     prepare map_object_deps check_map_versions open_check relocate_object dl_lazy new nsid mode;;
     any_tls ← request alloc_ok libname malloc new mode;
     publish libname find_object_update malloc true self new nsid any_tls) s.
Proof using HL Malloc0.
  intros Hf Hq Hl Hno Hgb Hns. set (s1 := if has_flag mode RTLD_NODELETE then set_nodelete (os_nodelete s ∪ {[new]}) s else s).
  apply (owp_step _ _ _ _ _ s tt s1); [unfold s1; by destruct (has_flag mode RTLD_NODELETE)|].
  assert (Hs1 : fine s1 /\ quiet s s1 /\ maps s1 = maps s /\ os_ns s1 = os_ns s /\ (has_flag mode RTLD_NODELETE = true -> new ∈ os_nodelete s1)).
  { unfold s1. destruct (has_flag mode RTLD_NODELETE); [|done]. split; [by apply nodelete_fine|]. split; [|split; [done|split; [done|cbn; set_solver]]].
    split; try done; [|cbn; set_solver]. intros m x Hx. by exists x. }
  destruct Hs1 as (F1 & Q1 & Em1 & En1 & Hnd). assert (Q01 : quiet s0 s1) by (by etrans). apply owp_bind.
  eapply owp_raises; [eapply owp_mono; [apply (prepare_spec tls_stop new l nsid mode s1); [done|by rewrite Em1|done|by rewrite En1]|]| |done].
  2:{ intros o e s' [_ Qs]. left. by etrans. }
  intros _ s2 (F2 & Q2 & l2 & L & Hl2 & HsL & Hn2). assert (Q02 : quiet s0 s2) by (by etrans).
  eapply owp_raises; [eapply owp_mono; [apply (commit_spec new l2 L nsid mode s2 F2 Hl2 HsL)|]| |done].
  - by rewrite Hn2.
  - apply (q_ons _ _ Q2). by rewrite En1.
  - intros Hfl. apply (q_nodelete _ _ Q2). auto.
  - intros [] s3 [P _]. by exists s2.
  - intros o e s3 [Hs|?]; [left; by etrans|by right].
Qed.

(** C21. The last part of opening a new object, from the requests for memory on, does all or nothing.  Let the object have its search list, the
    lists of the loader name objects that are there ([ok]), the TLS data satisfy the invariant of the TLS machine with all unpublished
    modules waiting and no id more than one behind the slotinfo list ([enterable]; this is needed: a list with two unpublished modules behind its
    end makes the assertion of [_dl_add_to_slotinfo] fail), let [RTLD_GLOBAL] be used in the base namespace only (elsewhere the code follows a
    null pointer), and [malloc] return memory that is free, or null.  Then [request] followed by [publish] ends in one of these ways and no other: an exception,
    and then scopes, the global scope and the flags of all objects are as before, unless it was the very last request, that of
    [_dl_find_object_update], that failed; the end of the process because TLS code has no memory; or it returns, and then every object in the search list that was there
    before has the new object in its scope, the objects that were to stay are marked, and every TLS module in the search list can be used by all
    threads.  No assertion fails and nothing undefined is done. *)
Theorem open_commit_all_or_nothing new l L nsid mode s :
  ok s -> enterable self (cs_tls (os_c s)) -> maps s !! new = Some l -> sc_searchlist (c_scope l) = Some L -> is_Some (os_ns s !! nsid) ->
  (has_flag mode RTLD_GLOBAL = true -> ci_ns (c_id l) = 0%nat) -> (has_flag mode RTLD_NODELETE = true -> new ∈ os_nodelete s) ->
  match (any_tls ← request alloc_ok libname malloc new mode; publish libname find_object_update malloc true self new nsid any_tls) s with
  | Ret _ s' => opened new mode s s' /\ forall m, m ∈ L -> is_Some (ts_mods (cs_tls (os_c s)) !! m) -> exists x, usable (cs_tls (os_c s')) m x
  | Raise o e s' => quiet s s' \/ o = libname new /\ e = "cannot allocate address lookup data"%string /\ exists s2, find_object_update new s2 = false
  | Stop e => e = no_memory
  | _ => False
  end.
Proof using Malloc0. intros Hok He Hl HsL Hns Hgb Hnd. exact (commit_spec new l L nsid mode s (conj Hok He) Hl HsL Hgb Hns Hnd). Qed.

(** [dl_open_worker_begin] around it, given what [Loader] states of mapping, dependencies, versions and relocation: with an exception, scopes, the global
    scope and the flags of the objects that were there are as before, unless the very last request failed.  Without one, the object was open and is
    now global or can not be unloaded if this was asked for ([reopened]); or it was loaded ([opened]); or the mode forbids to load it. *)
Theorem open_all_or_nothing caller file mode nsid s : fine s -> is_Some (os_ns s !! nsid) -> global_in_base mode nsid ->
  (forall m, a_map (os_args s) = Some m -> exists l, maps s !! m = Some l /\ ci_ns (c_id l) = nsid) ->
  (forall m l, maps s !! m = Some l -> is_Some (sc_searchlist (c_scope l)) -> m ∈ os_relocated s) ->
  match dl_open_worker_begin alloc_ok libname map_new_object map_object_deps check_map_versions open_check relocate_object find_object_update dl_lazy malloc true self caller file mode nsid s with
  | Ret _ s' => (has_flag mode RTLD_NOLOAD = true \/ has_flag mode __RTLD_SPROF = true) /\ quiet s s' \/
      exists new s1, quiet s s1 /\ (reopened new mode s1 s' \/ opened new mode s1 s')
  | Raise o e s' => quiet s s' \/ exists new, o = libname new /\ e = "cannot allocate address lookup data"%string /\ exists s2, find_object_update new s2 = false
  | Stop e => e = no_memory
  | _ => False
  end.
Proof using HL Malloc0.
  intros Hf [o Ho] Hgb Hmap Hrel. set (R := fun (ob e : string) s' => quiet s s' \/ exists new, lookup_data_failure new ob e).
  set (Q := fun (_ : unit) s' => (has_flag mode RTLD_NOLOAD = true \/ has_flag mode __RTLD_SPROF = true) /\ quiet s s' \/ exists new s1, quiet s s1 /\ (reopened new mode s1 s' \/ opened new mode s1 s')).
  apply (id (A := owp tls_stop R Q (dl_open_worker_begin alloc_ok libname map_new_object map_object_deps check_map_versions open_check relocate_object find_object_update dl_lazy malloc true self caller file mode nsid) s)).
  unfold dl_open_worker_begin. apply (owp_step _ _ _ _ _ s o s (get_ons_run _ _ _ Ho)).
  set (s1 := set_args (mkArgs (a_map (os_args s)) (on_pending o) (bool_decide (is_Some (on_libc o))) (a_continue (os_args s))) s). apply (owp_step _ _ _ _ _ s tt s1); [done|].
  apply (owp_step _ _ _ _ _ s1 (os_args s1) s1); [done|]. pose proof (args_quiet (os_args s1) s) as Q1. fold s1 in Q1. pose proof (args_fine (os_args s1) s Hf) as F1. fold s1 in F1. apply owp_bind.
  eapply owp_raises; [eapply owp_mono; [apply (find_new_spec tls_stop caller file mode nsid s s1 F1 Q1 Hmap Hrel)|]|intros ? ? ? [_ ?]; by left|done].
  intros [new|] s2 (F2 & Q2 & Q12 & H2).
  2:{ rewrite callmap_noload in H2. rewrite H2. apply (owp_ret _ _ _ _ s2 tt s2); [done|]. left. split; [by left|done]. }
  destruct H2 as (l & Hl & Hln & Hr2). destruct (has_flag mode __RTLD_SPROF) eqn:Esp; [apply (owp_ret _ _ _ _ s2 tt s2); [done|]; left; split; [by right|done]|].
  set (inc := fun x => u32 (c_open x + 1)). set (s3 := set_maps (alter (fun x => with_open (inc x) x) new (maps s2)) s2). apply (owp_step _ _ _ _ _ s2 tt s3); [done|].
  pose proof (open_fine inc new s2 F2) as F3. pose proof (open_quiet inc new s2) as Q23. fold s3 in F3, Q23. assert (Q3 : quiet s s3) by (by etrans).
  assert (Hl3 : maps s3 !! new = Some (with_open (inc l) l)) by (change (alter (fun x => with_open (inc x) x) new (maps s2) !! new = Some (with_open (inc l) l)); by rewrite lookup_alter_eq, Hl).
  assert (Hgb3 : global_in_base mode (ci_ns (c_id (with_open (inc l) l)))) by (change (global_in_base mode (ci_ns (c_id l))); by rewrite Hln).
  apply (owp_step _ _ _ _ _ s3 _ s3 (o_get_run _ _ _ Hl3)). change (sc_searchlist (c_scope (with_open (inc l) l))) with (sc_searchlist (c_scope l)). case_bool_decide as Hs.
  - eapply owp_raises; [eapply owp_mono; [apply (reopen_spec tls_stop new mode _ s3 F3 Hl3); [by apply Hr2|done]|]|intros ? ? ? [_ ?]; left; by etrans|done]. intros [] s4 H4. right. exists new, s3. split; [done|by left].
  - assert (Hno : sc_searchlist (c_scope l) = None) by (destruct (sc_searchlist (c_scope l)) as [x|]; [destruct Hs; by eexists|done]).
    eapply owp_raises; [eapply owp_mono; [apply (open_new_spec new (with_open (inc l) l) nsid mode s s3 F3 Q3 Hl3 Hno Hgb3)|]| |done].
    + apply (q_ons _ _ Q3). by exists o.
    + intros [] s4 (s5 & Q5 & H4). right. exists new, s5. split; [done|by right].
    + intros ob e s4 [?|?]; [by left|right; by exists new].
Qed.
End Atomic.
