(* ===== verification/OpenExamples.v ===== *)
(** * Opening objects: a small loader

    Witnesses, and inputs on which [_dl_open] goes wrong. *)

From S2P Require Import Prelude LinkMap SortMaps TlsOffset LoadCmds DynTls DynTlsSpec DynTlsMachine DynTlsSafety Close Open OpenSpec OpenGlobal OpenTls OpenTlsEntry OpenAtomic.

Module Example19.
(** ** Objects

    Object 1 is the main program, object 2 a plugin that is open, object 3 a new plugin that needs 2.  The TLS data is that of a program with
    two threads, 100 and 101, of which 100 calls [dlopen]. *)
Definition ident (ty : l_type_t) (name : string) (global : bool) (initfini : option (list mapid)) : cident :=
  mkCI ty 0 name false 0 global initfini (default [] initfini) None false (bool_decide (ty = lt_executable)) false.
Definition object (i : cident) (open : Z) (init : bool) (sc : cscope) : cmap := mkC i open (mkMark false false 0) init false sc.
Definition o1 : cmap := object (ident lt_executable "" true (Some [1%nat])) 1 true (mkScope (Some [1%nat]) [SearchOf 1] true 4 None).
Definition o2 : cmap := object (ident lt_loaded "b.so" false (Some [2%nat])) 1 true (mkScope (Some [2%nat]) [SearchOf 1; SearchOf 2] true 4 (Some 1%nat)).
Definition o3 : cmap := object (ident lt_loaded "n.so" false None) 0 false (mkScope None [SearchOf 1; SearchOf 3] true 4 (Some 1%nat)).
Definition tls : tls_state := DynTlsSafety.Example16.s2.
Definition ns0 : nsd := mkNsd [1%nat; 2%nat] 2 [1%nat] (mkUtab None 0 0).
Definition c0 : cstate := mkCS {[ 1%nat := o1; 2%nat := o2 ]} [ns0] 1 not_pending tls 0 None [].
Definition s0 : ostate := mkOS c0 [mkOns 0 0 None] ∅ {[1%nat; 2%nat]} {[1%nat; 2%nat]} 0 (mkArgs None 0 true false) [].

(** ** The rest of the loader *)
Definition libname (m : mapid) : string := "n.so".
Definition enter (m : mapid) (l : cmap) (s : ostate) : ostate :=
  let c := os_c s in
  set_c (set_cns (alter (fun ns => mkNsd (nd_loaded ns ++ [m]) (nd_nloaded ns + 1) (nd_msl ns) (nd_unique ns)) 0%nat (cs_ns c)) (set_cmaps (<[m := l]> (cs_maps c)) c)) s.
Definition map_new_object (caller : option mapid) (file : string) (mode : Z) (nsid : nat) : M ostate (option mapid) :=
  s ← gets id;
  if negb (bool_decide (nsid = 0%nat)) || bool_decide (is_Some (maps s !! 3%nat)) then lift (Signal file "cannot open shared object file")
  else if bool_decide (is_Some (cs_ns (os_c s) !! 0%nat)) && bool_decide (is_Some (os_ns s !! 0%nat)) then modify (enter 3 o3);; mret (Some 3%nat)
  else lift (Signal file "cannot open shared object file").
Definition with_deps (ds : list mapid) (l : cmap) : cmap :=
  let i := c_id l in
  with_searchlist (Some ds) (with_id (mkCI (ci_type i) (ci_ns i) (ci_name i) (ci_nodelete i) (ci_dtors i) (ci_global i) (Some ds) ds (ci_reldeps i) (ci_faked i) (ci_main i) (ci_proxy i)) l).
Definition map_object_deps (m : mapid) : M ostate unit :=
  s ← gets id;
  o_set m (with_deps (m :: filter (fun d => d <> m /\ is_Some (maps s !! d)) [2%nat])).
Definition check_map_versions (m : mapid) : M ostate unit := modify (fun s => set_versions (os_versions s ∪ {[m]}) s).
Definition open_check (m : mapid) : M ostate unit := mret tt.
Definition relocate_object (m : mapid) (mode : Z) : M ostate unit := modify (fun s => set_relocated (os_relocated s ∪ {[m]}) s).
Definition no_malloc (h : gmap Z mblock) (n : Z) : Z := 0.
#[local] Existing Instance DynTlsSafety.Example16.bump_malloc_ok.
#[local] Instance no_malloc_ok : Malloc no_malloc.
Proof. split. by intros h n _ Hn. Qed.

(** The TLS data of both states is in order: nothing waits to be entered, or module 5 does. *)
Lemma all_mods (t : tls_state) (P : mapid -> tmod -> bool) m x : forallb (fun '(m, x) => P m x) (map_to_list (ts_mods t)) = true -> ts_mods t !! m = Some x -> P m x = true.
Proof. rewrite forallb_forall. intros H Hx. apply (H (m, x)). by apply list_elem_of_In, elem_of_map_to_list. Qed.
Lemma tls_enterable : enterable 100 tls.
Proof.
  exists idle. split; [|done]. split; [exact (reachable_inv _ _ _ DynTlsSafety.Example16.s2_reachable)|done| | |by vm_compute|by vm_compute; eexists].
  - intros m x Hx Hin. pose proof (all_mods tls (fun _ x => tm_in_slotinfo x) m x ltac:(by vm_compute) Hx). congruence.
  - intros m x Hx Hin. pose proof (all_mods tls (fun _ x => tm_in_slotinfo x) m x ltac:(by vm_compute) Hx). congruence.
Qed.
Lemma tls5_enterable : enterable 100 DynTlsSafety.Example16.s3.
Proof.
  exists (mkPhase true false Mapping [5%nat]). split; [|done]. split; [exact (reachable_inv _ _ _ DynTlsSafety.Example16.s3_reachable)|done| | |by vm_compute|by vm_compute; eexists].
  - intros m x Hx Hin. pose proof (all_mods DynTlsSafety.Example16.s3 (fun m x => tm_in_slotinfo x || bool_decide (m = 5%nat)) m x ltac:(by vm_compute) Hx) as H. cbn beta in H. rewrite Hin in H. apply bool_decide_eq_true in H as ->. by left.
  - intros m x Hx Hin. pose proof (all_mods DynTlsSafety.Example16.s3 (fun m x => tm_in_slotinfo x || (tm_modid x <=? list_len (ts_list DynTlsSafety.Example16.s3))) m x ltac:(by vm_compute) Hx) as H. cbn beta in H. rewrite Hin in H. by apply Z.leb_le.
Qed.

Lemma alter_lookup_some {A} (f : A -> A) (l : list A) n k : is_Some (l !! k) -> is_Some (alter f n l !! k).
Proof. intros H. apply lookup_lt_is_Some. rewrite length_alter. by apply lookup_lt_is_Some. Qed.
Lemma enter_fine s : fine 100 s -> is_Some (cs_ns (os_c s) !! 0%nat) -> is_Some (os_ns s !! 0%nat) -> maps s !! 3%nat = None -> fine 100 (enter 3 o3 s) /\ quiet s (enter 3 o3 s).
Proof.
  intros [[A1 A2 A3 A4 A5] G] Hc Ho H3. assert (Hk : forall m, is_Some (maps s !! m) -> is_Some (maps (enter 3 o3 s) !! m)).
  { intros m [l Hl]. change (is_Some (<[3%nat := o3]> (maps s) !! m)). destruct (decide (m = 3%nat)) as [->|]; [rewrite lookup_insert_eq|rewrite lookup_insert_ne by done]; by eexists. }
  assert (Hlk : forall m l, maps (enter 3 o3 s) !! m = Some l -> l = o3 \/ maps s !! m = Some l).
  { intros m l Hl. change (<[3%nat := o3]> (maps s) !! m = Some l) in Hl. destruct (decide (m = 3%nat)) as [->|]; [rewrite lookup_insert_eq in Hl; left; congruence|rewrite lookup_insert_ne in Hl by done; by right]. }
  split; [split; [split|exact G]|split; try done].
  - intros m l [->|Hl]%Hlk; [done|eauto].
  - intros m l v [->|Hl]%Hlk Hv; [by apply elem_of_nil in Hv|]. apply Hk. eauto.
  - intros m l [->|Hl]%Hlk; [split; [by apply alter_lookup_some|done]|]. destruct (A3 m l Hl). split; [by apply alter_lookup_some|done].
  - intros n ns m Hn Hm. apply Hk. by apply (A4 n ns).
  - done.
  - intros m l Hl. exists l. split; [|by split]. change (<[3%nat := o3]> (maps s) !! m = Some l). rewrite lookup_insert_ne; [done|]. intros <-. congruence.
  - intros n. change (nd_msl <$> alter (fun ns => mkNsd (nd_loaded ns ++ [3%nat]) (nd_nloaded ns + 1) (nd_msl ns) (nd_unique ns)) 0%nat (cs_ns (os_c s)) !! n = nd_msl <$> cs_ns (os_c s) !! n).
    destruct (decide (n = 0%nat)) as [->|]; [rewrite list_lookup_alter_eq; by destruct (cs_ns (os_c s) !! 0%nat)|by rewrite list_lookup_alter_ne].
Qed.

#[local] Instance loader : Loader map_new_object map_object_deps check_map_versions open_check relocate_object 100.
Proof.
  split.
  - intros caller file mode nsid s F. unfold map_new_object. rewrite (M_bind_step _ _ _ s s) by done. case_bool_decide as H0; [|done]. cbn [negb orb]. case_bool_decide as H3; [done|].
    case_bool_decide as Hc; [|done]. case_bool_decide as Ho; [|done]. cbn [andb].
    assert (Hn : maps s !! 3%nat = None) by (destruct (maps s !! 3%nat); [destruct H3; by eexists|done]). destruct (enter_fine s F Hc Ho Hn) as [F1 Q1].
    change (fine 100 (enter 3 o3 s) /\ quiet s (enter 3 o3 s) /\ exists l, <[3%nat := o3]> (maps s) !! 3%nat = Some l /\ ci_ns (c_id l) = nsid /\ (sc_searchlist (c_scope l) = None \/ exists l0, maps s !! 3%nat = Some l0 /\ is_Some (sc_searchlist (c_scope l0)))).
    split; [done|]. split; [done|]. exists o3. split; [apply lookup_insert_eq|]. split; [by rewrite H0|by left].
  - intros m l s [Hok G] Hl Hno. unfold map_object_deps. rewrite (M_bind_step _ _ _ s s) by done. set (ds := m :: filter (fun d => d <> m /\ is_Some (maps s !! d)) [2%nat]).
    assert (Hds : forall v, v ∈ ds -> is_Some (maps s !! v)) by (intros v [->|[[_ ?] _]%list_elem_of_filter]%elem_of_cons; [by eexists|done]). rewrite o_set_run.
    assert (Hlk : maps (set_maps (alter (with_deps ds) m (maps s)) s) !! m = Some (with_deps ds l)) by (change (alter (with_deps ds) m (maps s) !! m = Some (with_deps ds l)); by rewrite lookup_alter_eq, Hl).
    split; [split; [|done]|split; [apply alter_quiet; intros l0 Hl0; assert (l0 = l) as -> by congruence; split; [done|]; rewrite Hno; by intros [? ?]|exists (with_deps ds l), ds; split; [done|]; split; [by eexists|]; split; [done|]; intros v Hv; apply alter_known; auto]].
    destruct Hok as [A1 A2 A3 A4 A5]. split; [| | | |done].
    + intros k x (x0 & Hx0 & ->)%alter_Some. destruct (decide (k = m)); [exact (A1 k x0 Hx0)|by apply (A1 k)].
    + intros k x v (x0 & Hx0 & ->)%alter_Some Hv. apply alter_known. destruct (decide (k = m)); [by apply Hds|by apply (A2 k x0)].
    + intros k x (x0 & Hx0 & ->)%alter_Some. destruct (decide (k = m)); exact (A3 k x0 Hx0).
    + intros n ns k Hn Hk. apply alter_known. by apply (A4 n ns).
  - intros m s F _. unfold tame. cbn. split; [by destruct F as [[A1 A2 A3 A4 A5] G]|]. split; try done. intros k l Hl. by exists l.
  - intros m s F _. by split.
  - intros m mode s F _. unfold tame. cbn. split; [by destruct F as [[A1 A2 A3 A4 A5] G]|]. split; try done; [|cbn; set_solver]. intros k l Hl. by exists l.
Qed.

(** ** The theorem on this loader *)
Lemma s0_maps m l : maps s0 !! m = Some l -> m = 1%nat /\ l = o1 \/ m = 2%nat /\ l = o2.
Proof. intros H. change (({[1%nat := o1; 2%nat := o2]} : gmap mapid cmap) !! m = Some l) in H. apply lookup_insert_Some in H as [[<- <-]|[_ H]]; [by left|]. apply lookup_singleton_Some in H as [<- <-]. by right. Qed.
Lemma s0_fine : fine 100 s0.
Proof.
  split; [split|exact tls_enterable].
  - intros m l [[-> ->]|[-> ->]]%s0_maps; done.
  - intros m l v [[-> ->]|[-> ->]]%s0_maps [-> | ?%elem_of_nil]%elem_of_cons; done || by eexists.
  - intros m l [[-> ->]|[-> ->]]%s0_maps; by split; eexists.
  - intros [|n] ns m; [by intros [= <-]|done].
  - intros [|n] ns; [by intros [= <-]|done].
Qed.

Definition begin (find_object_update : mapid -> ostate -> bool) : Z -> ostate -> outcome ostate unit := fun mode =>
  dl_open_worker_begin (fun _ => true) libname map_new_object map_object_deps check_map_versions open_check relocate_object find_object_update false no_malloc true 100 None "n.so" mode 0.

(** Object 3 is opened: object 2, which was there, sees it. *)
Lemma open_all_or_nothing_example :
  fine 100 s0 /\ match begin (fun _ _ => true) 2 s0 with
  | Ret _ s' => (exists l, maps s' !! 2%nat = Some l /\ sc_list (c_scope l) = [SearchOf 1; SearchOf 2; SearchOf 3]) /\
      ((has_flag 2 RTLD_NOLOAD = true \/ has_flag 2 __RTLD_SPROF = true) /\ quiet s0 s' \/ exists new s1, quiet s0 s1 /\ (reopened new 2 s1 s' \/ opened new 2 s1 s'))
  | _ => False end.
Proof.
  split; [exact s0_fine|].
  pose proof (open_all_or_nothing (fun _ => true) libname map_new_object map_object_deps check_map_versions open_check relocate_object (fun _ _ => true) false no_malloc 100
    None "n.so" 2 0 s0 s0_fine ltac:(by eexists) ltac:(done) ltac:(done) ltac:(intros m l [[-> _]|[-> _]]%s0_maps _; by vm_compute)) as H.
  change (dl_open_worker_begin _ _ _ _ _ _ _ _ _ _ _ _ _ _ _ _ s0) with (begin (fun _ _ => true) 2 s0) in H.
  assert (E : match begin (fun _ _ => true) 2 s0 with Ret _ s' => sc_list ∘ c_scope <$> maps s' !! 2%nat = Some [SearchOf 1; SearchOf 2; SearchOf 3] | _ => False end) by (vm_compute; done).
  destruct (begin (fun _ _ => true) 2 s0) as [[] s'| | | |]; [|done..]. split; [|done].
  destruct (maps s' !! 2%nat) as [l|]; [|done]. exists l. split; [done|]. by injection E.
Qed.

(** ** The requests and the changes, for an object with thread-local data

    Object 5 has been loaded with its dependency 2, and its TLS module has the id 2 but is not published.  It is opened with [RTLD_GLOBAL]. *)
Definition o5 : cmap := object (ident lt_loaded "p.so" false (Some [5%nat; 2%nat])) 1 false (mkScope (Some [5%nat; 2%nat]) [SearchOf 1; SearchOf 5] true 4 (Some 1%nat)).
Definition c5 : cstate := mkCS {[ 1%nat := o1; 2%nat := o2; 5%nat := o5 ]} [mkNsd [1%nat; 2%nat; 5%nat] 3 [1%nat] (mkUtab None 0 0)] 1 not_pending DynTlsSafety.Example16.s3 0 None [].
Definition s5 : ostate := mkOS c5 [mkOns 0 0 None] ∅ {[1%nat; 2%nat; 5%nat]} {[1%nat; 2%nat; 5%nat]} 0 (mkArgs (Some 5%nat) 0 true false) [].
Lemma s5_maps m l : maps s5 !! m = Some l -> m = 1%nat /\ l = o1 \/ m = 2%nat /\ l = o2 \/ m = 5%nat /\ l = o5.
Proof.
  intros H. change (({[1%nat := o1; 2%nat := o2; 5%nat := o5]} : gmap mapid cmap) !! m = Some l) in H. apply lookup_insert_Some in H as [[<- <-]|[_ H]]; [by left|right].
  apply lookup_insert_Some in H as [[<- <-]|[_ H]]; [by left|right]. by apply lookup_singleton_Some in H as [<- <-].
Qed.
Lemma s5_ok : ok s5.
Proof.
  split.
  - intros m l [[-> ->]|[[-> ->]|[-> ->]]]%s5_maps; done.
  - intros m l v [[-> ->]|[[-> ->]|[-> ->]]]%s5_maps Hv; cbn in Hv; repeat (apply elem_of_cons in Hv as [->|Hv]; [by eexists|]); by apply elem_of_nil in Hv.
  - intros m l [[-> ->]|[[-> ->]|[-> ->]]]%s5_maps; by split; eexists.
  - intros [|n] ns m; [by intros [= <-]|done].
  - intros [|n] ns; [by intros [= <-]|done].
Qed.
Definition commit (mode : Z) : ostate -> outcome ostate unit :=
  any_tls ← request (fun _ => true) libname DynTlsSafety.Example16.bump_malloc 5 mode; publish libname (fun _ _ => true) DynTlsSafety.Example16.bump_malloc true 100 5 0 any_tls.

Lemma open_commit_all_or_nothing_witness :
  match commit 0x102 s5 with
  | Ret _ s' => opened 5 0x102 s5 s' /\ (exists x, usable (cs_tls (os_c s')) 5 x) /\ sc_list ∘ c_scope <$> maps s' !! 2%nat = Some [SearchOf 1; SearchOf 2; SearchOf 5]
  | _ => False end.
Proof.
  pose proof (open_commit_all_or_nothing (fun _ => true) libname (fun _ _ => true) DynTlsSafety.Example16.bump_malloc 100 5 o5 [5%nat; 2%nat] 0 0x102 s5
    s5_ok tls5_enterable eq_refl eq_refl ltac:(by eexists) ltac:(done) ltac:(done)) as H. fold (commit 0x102) in H.
  assert (E : match commit 0x102 s5 with Ret _ s' => sc_list ∘ c_scope <$> maps s' !! 2%nat = Some [SearchOf 1; SearchOf 2; SearchOf 5] | _ => False end) by (vm_compute; done).
  destruct (commit 0x102 s5) as [[] s'| | | |]; [|done..]. destruct H as [H1 H2]. split; [exact H1|]. split; [|exact E]. apply (H2 5%nat); [left|by vm_compute; eexists].
Defined.

(** The same in a namespace made by [dlmopen], whose global scope is a null pointer. *)
Definition other_ns (l : cmap) : cmap :=
  let i := c_id l in
  with_id (mkCI (ci_type i) 1 (ci_name i) (ci_nodelete i) (ci_dtors i) (ci_global i) (ci_initfini i) (ci_copy i) (ci_reldeps i) (ci_faked i) (ci_main i) (ci_proxy i)) l.
Definition s6 : ostate :=
  set_ns [mkOns 0 0 None; mkOns 0 0 None] (set_c (set_cns [ns0; mkNsd [5%nat] 1 [] (mkUtab None 0 0)] (set_cmaps (alter other_ns 5%nat (cs_maps c5)) c5)) s5).
Lemma global_scope_null : commit 0x102 s6 = Wild /\ match commit 2 s6 with Ret _ _ => True | _ => False end.
Proof. by vm_compute. Qed.

(** ** Nested [dlopen]

    While object 3 waits to become global, its constructor opens object 2 with [RTLD_GLOBAL]. *)
Definition after {A} (r : outcome ostate A) : ostate := match r with Ret _ s => s | _ => s0 end.
Definition g0 : ostate := after (begin (fun _ _ => true) 2 s0).
Definition g1 : ostate := after (add_to_global_resize (fun _ => true) libname 3 g0).
Definition g2 : ostate := after (add_to_global_resize (fun _ => true) libname 2 g1).
Definition g3 : ostate := restore 0 2 (after (add_to_global_update 2 g2)).
Lemma g0_calm : calm g0.
Proof. intros [|n] o; [|done]. intros [= <-]. split; [done|]. split; [done|]. intros x [= <-]. by left. Qed.
Lemma found (s : ostate) (m : mapid) (P : cmap -> Prop) : match maps s !! m with Some l => P l | None => False end -> exists l, maps s !! m = Some l /\ P l.
Proof. destruct (maps s !! m) as [l|]; [|done]. by exists l. Qed.
Lemma request_step (s : ostate) (m : mapid) (o : ons) fs :
  match maps s !! m with Some l => ci_ns (c_id l) = 0%nat /\ Forall (fun v => is_Some (maps s !! v)) (search_of l) | None => False end -> os_ns s !! 0%nat = Some o -> is_Some (cs_ns (os_c s) !! 0%nat) ->
  match add_to_global_resize (fun _ => true) libname m s with Ret _ _ => True | _ => False end ->
  gstep (fun _ => true) libname (s, fs) (after (add_to_global_resize (fun _ => true) libname m s), mkFrame m (on_pending o) :: fs).
Proof.
  intros (l & Hl & E & Hs)%found Ho Hc Hr. apply (g_request _ _ m l); [done|by apply Forall_forall|by rewrite E|by rewrite E|]. revert Hr. generalize (add_to_global_resize (fun _ => true) libname m s). intros [[] ?| | | |]; [reflexivity|intros []..].
Qed.
Lemma update_step (s : ostate) (m : mapid) (p : Z) fs : match maps s !! m with Some l => ci_ns (c_id l) = 0%nat | None => False end ->
  match add_to_global_update m s with Ret _ _ => True | _ => False end -> gstep (fun _ => true) libname (s, mkFrame m p :: fs) (restore 0 p (after (add_to_global_update m s)), fs).
Proof.
  intros (l & Hl & E)%found Hr. pose proof (g_update (fun _ => true) libname m l p fs s (after (add_to_global_update m s)) Hl) as H. rewrite E in H. apply H.
  revert Hr. generalize (add_to_global_update m s). intros [[] ?| | | |]; [reflexivity|intros []..].
Qed.
Lemma g_path : rtc (gstep (fun _ => true) libname) (g0, []) (g3, [mkFrame 3 0]).
Proof.
  apply (rtc_l _ _ (g1, [mkFrame 3 0])); [apply (request_step g0 3 (mkOns 0 0 None)); vm_compute; done || (split; [done|repeat constructor; by eexists]) || by eexists|].
  apply (rtc_l _ _ (g2, [mkFrame 2 2; mkFrame 3 0])); [apply (request_step g1 2 (mkOns 2 11 None)); vm_compute; done || (split; [done|repeat constructor; by eexists]) || by eexists|].
  apply rtc_once. apply (update_step g2 2 2); by vm_compute.
Qed.
(** The outer request is still good, and object 2, which is global by now, is not added again. *)
Lemma global_scope_has_room_witness :
  calm g0 /\ exists l o nsd added s', maps g3 !! 3%nat = Some l /\ os_ns g3 !! ci_ns (c_id l) = Some o /\ cs_ns (os_c g3) !! ci_ns (c_id l) = Some nsd /\
    add_to_global_update 3 g3 = Ret tt s' /\ Z.of_nat (length (nd_msl nsd ++ added)) <= on_alloc o /\ NoDup added /\
    (forall m, m ∈ added <-> m ∈ search_of l /\ not_global (maps g3) m = true) /\
    cs_ns (os_c s') !! ci_ns (c_id l) = Some (mkNsd (nd_loaded nsd) (nd_nloaded nsd) (nd_msl nsd ++ added) (nd_unique nsd)).
Proof. split; [exact g0_calm|]. exact (global_scope_has_room (fun _ => true) libname g0 g3 (mkFrame 3 0) [] g0_calm g_path). Defined.

Lemma nested_global_scope : nd_msl <$> cs_ns (os_c (after (add_to_global_update 3 g3))) !! 0%nat = Some [1%nat; 2%nat; 3%nat].
Proof. by vm_compute. Qed.

(** ** Failures after the demarcation point *)
Definition open (find_object_update : mapid -> ostate -> bool) (mode : Z) : ostate -> outcome ostate (option mapid) :=
  _dl_open (fun _ => true) libname map_new_object map_object_deps check_map_versions open_check relocate_object find_object_update false no_malloc true 100 (fun _ => mret tt) (fun _ => mret tt) (fun _ => None)
    (fun s _ _ => if bool_decide (is_Some (maps s !! 3%nat)) then Some 3%nat else None) dso_sort_algorithm_original ∅ (fun _ => []) (fun _ => true) (fun _ => false) "n.so" mode 0 0.

(** Without [RTLD_NODELETE] a failure of [_dl_find_object_update] is undone. *)
Lemma lookup_data_failure_undone :
  match open (fun _ _ => false) 2 s0 with
  | Raise _ e s' => e = "cannot allocate address lookup data"%string /\ maps s' !! 3%nat = None /\ sc_list ∘ c_scope <$> maps s' !! 2%nat = Some [SearchOf 1; SearchOf 2]
  | _ => False end.
Proof. vm_compute. by split. Qed.

(** With it the object stays, in the scope of object 2, though [dlopen] fails; its constructors have not run, and they do not run when
    the object is opened again, which now succeeds. *)
Lemma lookup_data_failure_stays :
  match open (fun _ _ => false) 0x1002 s0 with
  | Raise _ e s' => e = "cannot allocate address lookup data"%string /\ c_init_called <$> maps s' !! 3%nat = Some false /\
      sc_list ∘ c_scope <$> maps s' !! 2%nat = Some [SearchOf 1; SearchOf 2; SearchOf 3] /\
      match open (fun _ _ => true) 2 s' with Ret r s2 => r = Some 3%nat /\ os_log s2 = [] /\ c_init_called <$> maps s2 !! 3%nat = Some false | _ => False end
  | _ => False end.
Proof. vm_compute. by repeat split. Qed.

(** ** Modules out of order

    Two new modules behind the end of the list of slots, the one with the larger number first in the search list: an assertion fails. *)
Definition two_modules : tls_state :=
  let m i := mkMod (LinkMap.mkTls 8 8 0 0 i false) [] false 0 false in
  mkTls [[mkSI 0 None; mkSI 0 None]] 3 false 0 0 0 0 {[ 3%nat := m 3; 4%nat := m 2 ]} ∅ ∅ [].
Lemma modules_out_of_order : resize_tls_slotinfo (fun _ _ => 4096) [3%nat; 4%nat] false two_modules = Stop "idx == 0" /\
  match resize_tls_slotinfo (fun _ _ => 4096) [4%nat; 3%nat] false two_modules with Ret b _ => b = true | _ => False end.
Proof. by vm_compute. Qed.
End Example19.
