(* ===== verification/Dst.v ===== *)
(** * Dynamic string tokens

    The expansion of [$ORIGIN], [$PLATFORM] and [$LIB] in paths ([elf/dl-load.c], [elf/dl-dst.h]) and the check that an expanded
    path of a privileged program is below a trusted directory.

    A character is an integer, a C string the list of its characters without the null at its end.  The memory the expansion is written
    to is an array with whatever contents it had.  The names of the system directories and of the directory for libraries are generated
    by the build, and are parameters. *)

From S2P Require Import Prelude LinkMap.

Definition chars (s : string) : list Z := (fun c => Z.of_N (Ascii.N_of_ascii c)) <$> String.list_ascii_of_string s.
Definition slash : Z := 47.
Definition dot : Z := 46.
Definition dollar : Z := 36.

(** [s[k]] for [k] up to the null at the end of [s] *)
Definition at_ (s : list Z) (k : nat) : Z := default 0 (s !! k).

(** ** Tokens *)
Definition is_ident (c : Z) : bool :=
  ((65 <=? c) && (c <=? 90)) || ((97 <=? c) && (c <=? 122)) || ((48 <=? c) && (c <=? 57)) || (c =? 95).

Definition is_dst (input ref : list Z) : nat :=
  let is_curly := at_ input 0 =? 123 in
  let input := if is_curly then tail input else input in
  let rlen := length ref in
  if negb (bool_decide (take rlen input = ref)) || (is_curly && negb (at_ input rlen =? 125)) || is_ident (at_ input rlen) then 0%nat
  else if is_curly then (rlen + 2)%nat else rlen.

(** [strchr (s, c)]: what follows the first [c] *)
Fixpoint after_char (c : Z) (s : list Z) : option (list Z) :=
  match s with
  | [] => None
  | x :: s => if x =? c then Some s else after_char c s
  end.

Fixpoint dst_count (fuel : nat) (input : list Z) : res Z :=
  match fuel with
  | O => Diverge
  | S fuel =>
      match after_char dollar input with
      | None => mret 0
      | Some input =>
          let len := is_dst input (chars "ORIGIN") in
          let len := if (len =? 0)%nat then is_dst input (chars "PLATFORM") else len in
          let len := if (len =? 0)%nat then is_dst input (chars "LIB") else len in
          n ← dst_count fuel (drop len input);
          mret (if (len =? 0)%nat then n else n + 1)
      end
  end.
Definition _dl_dst_count (input : list Z) : res Z := dst_count (S (length input)) input.

(** ** Trusted directories *)
Section Trusted.
(** Each of them ends in a slash. *)
Context (system_dirs : list (list Z)).

(** [while (wnp > npath && *--wnp != '/')] on what is between [npath] and [wnp], the last character first *)
Fixpoint pop_dir (np : list Z) : list Z :=
  match np with
  | [] => []
  | c :: np => if c =? slash then np else pop_dir np
  end.

Inductive action := Up | Stay | Drop | Copy.

(** What to do with the characters from [path] on. *)
Definition classify (buf : list Z) (path : Z) (np : list Z) : res action :=
  c ← rd buf path;
  if c =? slash then
    c1 ← rd buf (path + 1);
    r ← (if c1 =? dot then
           c2 ← rd buf (path + 2);
           up ← (if c2 =? dot then c3 ← rd buf (path + 3); mret ((c3 =? slash) || (c3 =? 0)) else mret false);
           mret (if (up : bool) then Some Up else if (c2 =? slash) || (c2 =? 0) then Some Stay else None)
         else mret None);
    mret (match r with
          | Some a => a
          | None => if bool_decide (head np = Some slash) then Drop else Copy
          end)
  else mret Copy.

(** [npath] has room for [room] characters. *)
Definition push (room : Z) (c : Z) (np : list Z) : res (list Z) := if Z.of_nat (length np) <? room then mret (c :: np) else Undef.

Fixpoint normalize (fuel : nat) (room : Z) (buf : list Z) (path : Z) (np : list Z) : res (list Z) :=
  match fuel with
  | O => Diverge
  | S fuel =>
      c ← rd buf path;
      if c =? 0 then mret np
      else
        a ← classify buf path np;
        match a with
        | Up => normalize fuel room buf (path + 3) (pop_dir np)
        | Stay => normalize fuel room buf (path + 2) np
        | Drop => normalize fuel room buf (path + 1) np
        | Copy => np ← push room c np; normalize fuel room buf (path + 1) np
        end
  end.

Definition is_trusted_path_normalize (buf : list Z) (len : Z) : res bool :=
  if len =? 0 then mret false
  else
    np ← normalize (S (length buf)) (len + 2) buf 0 [];
    np ← (if bool_decide (head np = Some slash) then mret np else push (len + 2) slash np);
    mret (existsb (fun dir => bool_decide (take (length dir) (reverse np) = dir)) system_dirs).

(** ** Substitution *)

(** [l_origin]: not known yet (null), not available (-1), or a path *)
Inductive origin := NoOrigin | BadOrigin | Origin (path : list Z).
Record dst_map := mkDst { dm_type : l_type_t; dm_unnamed : bool; dm_origin : origin }.

Context (enable_secure : bool) (dl_platform : option (list Z)) (dl_dst_lib : list Z).

(** Stores into [buf] from [wp] on. *)
Fixpoint store (buf : list Z) (wp : Z) (s : list Z) : res (list Z) :=
  match s with
  | [] => mret buf
  | c :: s => buf ← wr buf wp c; store buf (wp + 1) s
  end.
Definition stpcpy (buf : list Z) (wp : Z) (s : list Z) : res (list Z * Z) := buf ← store buf wp (s ++ [0]); mret (buf, wp + Z.of_nat (length s)).

(** The replacement for the token at the start of [input] and the length of the token; [first] when it starts the path. *)
Definition replacement (l : dst_map) (input : list Z) (first : bool) : option (list Z) * nat :=
  let len := is_dst input (chars "ORIGIN") in
  if negb (len =? 0)%nat then
    (if enable_secure && negb (first && ((at_ input len =? 0) || (at_ input len =? slash))) then None
     else match dm_origin l with Origin path => Some path | _ => None end, len)
  else
    let len := is_dst input (chars "PLATFORM") in
    if negb (len =? 0)%nat then (dl_platform, len)
    else
      let len := is_dst input (chars "LIB") in
      if negb (len =? 0)%nat then (Some dl_dst_lib, len) else (None, 0%nat).

(** The loop; its result is the buffer, and [wp] and [check_for_trusted] unless a token has no replacement. *)
Fixpoint substitute (fuel : nat) (l : dst_map) (input : list Z) (first : bool) (buf : list Z) (wp : Z) (check : bool) : res (list Z * option (Z * bool)) :=
  match fuel with
  | O => Diverge
  | S fuel =>
      match input with
      | [] => Undef
      | c :: input =>
          r ← (if c =? dollar then
                 let check := if (is_dst input (chars "ORIGIN") =? 0)%nat then check else enable_secure && bool_decide (dm_type l = lt_executable) in
                 match replacement l input first with
                 | (Some repl, len) => '(buf, wp) ← stpcpy buf wp repl; mret (inr (drop len input, buf, wp, check))
                 | (None, O) => buf ← wr buf wp dollar; mret (inr (input, buf, wp + 1, check))
                 | (None, _) => mret (inl buf)
                 end
               else buf ← wr buf wp c; mret (inr (input, buf, wp + 1, check)));
          match r with
          | inl buf => mret (buf, None)
          | inr (input, buf, wp, check) =>
              if bool_decide (input = []) then mret (buf, Some (wp, check)) else substitute fuel l input false buf wp check
          end
      end
  end.

Definition _dl_dst_substitute (l : dst_map) (input : list Z) (result : list Z) : res (list Z) :=
  '(buf, r) ← substitute (S (length input)) l input true result 0 false;
  match r with
  | None => wr buf 0 0
  | Some (wp, check) =>
      trusted ← (if (check : bool) then is_trusted_path_normalize buf wp else mret true);
      if (trusted : bool) then wr buf wp 0 else wr buf 0 0
  end.

(** ** The memory that is needed *)
(** [GLRO(dl_platformlen)], [_dl_get_origin ()] *)
Context (dl_platformlen : Z) (get_origin : origin).

Definition origin_len (o : origin) : Z := match o with Origin path => Z.of_nat (length path) | _ => 0 end.
Definition DL_DST_REQUIRED (l : dst_map) (is_rtld : bool) (len cnt : Z) : res (Z * dst_map) :=
  if 0 <? cnt then
    l ← match dm_origin l with
        | NoOrigin => c_assert (dm_unnamed l || is_rtld) "l->l_name[0] == 0 || is_rtld_link_map (l)";; mret (mkDst (dm_type l) (dm_unnamed l) get_origin)
        | _ => mret l
        end;
    let dst_len := Z.max (Z.max (origin_len (dm_origin l)) dl_platformlen) (Z.of_nat (length dl_dst_lib)) in
    mret (if 4 <? dst_len then u64 (len + u64 (cnt * (dst_len - 4))) else len, l)
  else mret (len, l).

(** [malloc]: nothing, or memory with any contents *)
Context (malloc : Z -> option (list Z)).

(** The result is a block of memory, or nothing for a null pointer, and the link map. *)
Definition expand_dynamic_string_token (l : dst_map) (is_rtld : bool) (input : list Z) : res (option (list Z) * dst_map) :=
  cnt ← _dl_dst_count input;
  if cnt =? 0 then
    match malloc (Z.of_nat (length input) + 1) with
    | None => mret (None, l)
    | Some mem => mem ← store mem 0 (input ++ [0]); mret (Some mem, l)
    end
  else
    '(total, l) ← DL_DST_REQUIRED l is_rtld (Z.of_nat (length input)) cnt;
    match malloc (u64 (total + 1)) with
    | None => mret (None, l)
    | Some mem => mem ← _dl_dst_substitute l input mem; mret (Some mem, l)
    end.
End Trusted.

(** The string at the start of some memory. *)
Fixpoint c_string (mem : list Z) : list Z :=
  match mem with
  | [] => []
  | c :: mem => if c =? 0 then [] else c :: c_string mem
  end.
