(* ===== verification/DstSpec.v ===== *)
(** * Dynamic string tokens: what an expansion is

    Paths as lists of tokens, and the memory an expansion needs. *)

From S2P Require Import Prelude LinkMap Dst.

(** ** Tokens *)
Inductive dst := ORIGIN | PLATFORM | LIB.
#[export] Instance dst_eq_dec : EqDecision dst.
Proof. solve_decision. Defined.
Definition name (d : dst) : list Z := match d with ORIGIN => chars "ORIGIN" | PLATFORM => chars "PLATFORM" | LIB => chars "LIB" end.

(** The name of a token at the start of [s], in braces or as the longest identifier, and its length. *)
Inductive token_at : list Z -> dst -> nat -> Prop :=
  | t_plain d rest : is_ident (at_ rest 0) = false -> token_at (name d ++ rest) d (length (name d))
  | t_curly d rest : token_at (123 :: name d ++ 125 :: rest) d (length (name d) + 2).

Inductive tok := Char (c : Z) | Tok (d : dst).
Inductive toks : list Z -> list tok -> Prop :=
  | ts_nil : toks [] []
  | ts_char c s ts : c <> dollar -> toks s ts -> toks (c :: s) (Char c :: ts)
  | ts_lone s ts : (forall d n, ~ token_at s d n) -> toks s ts -> toks (dollar :: s) (Char dollar :: ts)
  | ts_token s d n ts : token_at s d n -> toks (drop n s) ts -> toks (dollar :: s) (Tok d :: ts).

Lemma name_head d : exists c s, name d = c :: s /\ c <> 123 /\ c <> dollar.
Proof. destruct d; vm_compute; eexists _, _; done. Qed.
Lemma name_len d : (3 <= length (name d))%nat.
Proof. destruct d; vm_compute; lia. Qed.

Lemma at_app_r s rest : at_ (s ++ rest) (length s) = at_ rest 0.
Proof. unfold at_. rewrite lookup_app_r by lia. by rewrite Nat.sub_diag. Qed.

Lemma is_dst_token s d : token_at s d (is_dst s (name d)) \/ is_dst s (name d) = 0%nat.
Proof.
  unfold is_dst. destruct (Z.eqb_spec (at_ s 0) 123) as [E|E].
  - destruct s as [|c s]; [done|]. cbn in E. subst c. cbn [tail]. case_bool_decide as Hp; [|by right]. cbn [negb orb andb].
    destruct (Z.eqb_spec (at_ s (length (name d))) 125) as [E|E]; [|by right]. cbn [negb orb]. rewrite E. cbn [is_ident]. change (is_ident 125) with false. cbn iota. left.
    rewrite <- (take_drop (length (name d)) s), Hp. destruct (drop (length (name d)) s) as [|c rest] eqn:Ed.
    + unfold at_ in E. rewrite <- (take_drop (length (name d)) s), Ed, app_nil_r, Hp, lookup_ge_None_2 in E; [done|lia].
    + assert (c = 125) as ->; [|apply t_curly]. rewrite <- E. unfold at_. by rewrite <- (Nat.add_0_r (length (name d))), <- lookup_drop, Ed.
  - case_bool_decide as Hp; [|by right]. cbn [negb orb andb]. destruct (is_ident (at_ s (length (name d)))) eqn:Ei; [by right|]. left.
    rewrite <- (take_drop (length (name d)) s), Hp. apply t_plain. rewrite <- Ei. unfold at_. rewrite lookup_drop. by rewrite Nat.add_0_r.
Qed.
Lemma token_is_dst s d n : token_at s d n -> is_dst s (name d) = n.
Proof.
  destruct 1 as [d rest Hi|d rest]; unfold is_dst.
  - destruct (name_head d) as (c & s & E & Hc & _). assert ((at_ (name d ++ rest) 0 =? 123) = false) as -> by (rewrite E; by apply Z.eqb_neq).
    rewrite take_app_length, bool_decide_eq_true_2 by done. rewrite at_app_r, Hi. done.
  - cbn [at_ lookup list_lookup default from_option id]. change (123 =? 123) with true. cbn [tail]. rewrite take_app_length, bool_decide_eq_true_2 by done. rewrite at_app_r. done.
Qed.
Lemma token_positive s d n : token_at s d n -> (3 <= n <= length s)%nat.
Proof. pose proof (name_len d). destruct 1; cbn [length]; rewrite ?length_app; cbn [length]; pose proof (name_len d); lia. Qed.

Lemma token_unique s d d' n n' : token_at s d n -> token_at s d' n' -> d = d' /\ n = n'.
Proof.
  intros H H'. assert (d = d') as <-; [|split; [done|]; by rewrite <- (token_is_dst s d n H), <- (token_is_dst s d n' H')].
  inversion H as [a r Hi E1|a r E1]; inversion H' as [a' r' Hi' E1'|a' r' E1']; subst; destruct d, d'; vm_compute in *; congruence.
Qed.

Lemma origin_token s d n : token_at s d n -> (is_dst s (chars "ORIGIN") =? 0)%nat = negb (bool_decide (d = ORIGIN)).
Proof.
  intros H. pose proof (token_positive _ _ _ H). change (chars "ORIGIN") with (name ORIGIN). case_bool_decide as E; [subst d; rewrite (token_is_dst s ORIGIN n H); apply Nat.eqb_neq; lia|]. cbn. apply Nat.eqb_eq.
  destruct (is_dst_token s ORIGIN) as [Ht|]; [|done]. by destruct (token_unique s d ORIGIN n _ H Ht).
Qed.

(** The token at the start of [s], as the code finds it. *)
Definition dst_at (s : list Z) : option (dst * nat) :=
  let f d := is_dst s (name d) in
  if (f ORIGIN =? 0)%nat then if (f PLATFORM =? 0)%nat then if (f LIB =? 0)%nat then None else Some (LIB, f LIB) else Some (PLATFORM, f PLATFORM) else Some (ORIGIN, f ORIGIN).
Lemma dst_at_Some s d n : dst_at s = Some (d, n) <-> token_at s d n.
Proof.
  assert (Hf : forall d, is_dst s (name d) <> 0%nat -> token_at s d (is_dst s (name d))) by (intros e He; destruct (is_dst_token s e); [done|congruence]).
  split.
  - unfold dst_at. destruct (Nat.eqb_spec (is_dst s (name ORIGIN)) 0); [|intros [= <- <-]; auto]. destruct (Nat.eqb_spec (is_dst s (name PLATFORM)) 0); [|intros [= <- <-]; auto].
    destruct (Nat.eqb_spec (is_dst s (name LIB)) 0); [done|intros [= <- <-]; auto].
  - intros H. assert (Hn : forall e, is_dst s (name e) <> 0%nat -> e = d) by (intros e He; by destruct (token_unique s e d _ n (Hf e He) H)).
    pose proof (token_is_dst s d n H) as E. pose proof (token_positive s d n H). unfold dst_at.
    destruct (Nat.eqb_spec (is_dst s (name ORIGIN)) 0) as [E1|E1]; [|rewrite <- (Hn ORIGIN E1) in *; congruence].
    destruct (Nat.eqb_spec (is_dst s (name PLATFORM)) 0) as [E2|E2]; [|rewrite <- (Hn PLATFORM E2) in *; congruence].
    destruct (Nat.eqb_spec (is_dst s (name LIB)) 0) as [E3|E3]; [|rewrite <- (Hn LIB E3) in *; congruence]. destruct d; lia.
Qed.

(** Every path is a list of tokens. *)
Lemma toks_exist s : exists ts, toks s ts.
Proof.
  remember (length s) as n eqn:Hn. revert s Hn. induction (lt_wf n) as [n _ IH]. intros [|c s] ->; [eexists; constructor|]. cbn [length] in IH.
  destruct (decide (c = dollar)) as [->|Hc]; [|destruct (IH (length s) ltac:(lia) s eq_refl) as [ts Hts]; exists (Char c :: ts); by constructor].
  destruct (dst_at s) as [[d k]|] eqn:E.
  - apply dst_at_Some in E. destruct (IH (length (drop k s)) ltac:(rewrite length_drop; lia) (drop k s) eq_refl) as [ts Hts]. exists (Tok d :: ts). by apply (ts_token s d k).
  - destruct (IH (length s) ltac:(lia) s eq_refl) as [ts Hts]. exists (Char dollar :: ts). apply ts_lone; [|done]. intros d k H%dst_at_Some. congruence.
Qed.

(** ** Counting *)
Fixpoint ntoks (ts : list tok) : Z := match ts with [] => 0 | Char _ :: ts => ntoks ts | Tok _ :: ts => ntoks ts + 1 end.
Lemma count_toks s ts : toks s ts -> forall fuel, (length s < fuel)%nat -> dst_count fuel s = Ok (ntoks ts).
Proof.
  assert (Hlen : forall s, (let len := is_dst s (chars "ORIGIN") in let len := if (len =? 0)%nat then is_dst s (chars "PLATFORM") else len in
    if (len =? 0)%nat then is_dst s (chars "LIB") else len) = match dst_at s with Some (_, n) => n | None => 0%nat end).
  { intros x. unfold dst_at. cbn [name]. destruct (Nat.eqb_spec (is_dst x (chars "ORIGIN")) 0) as [E1|E1]; [|destruct (Nat.eqb_spec (is_dst x (chars "ORIGIN")) 0); done].
    destruct (Nat.eqb_spec (is_dst x (chars "PLATFORM")) 0) as [E2|E2]; [|done]. by destruct (Nat.eqb_spec (is_dst x (chars "LIB")) 0). }
  induction 1 as [|c s ts Hc _ IH|s ts Hno _ IH|s d n ts Ht _ IH]; intros [|fuel] Hf; try (cbn in Hf; lia); [done|..].
  - cbn [length] in Hf. specialize (IH (S fuel) ltac:(lia)). cbn [dst_count after_char] in *. apply Z.eqb_neq in Hc. by rewrite Hc.
  - cbn [length] in Hf. cbn [dst_count after_char]. change (dollar =? dollar) with true. cbn iota zeta. rewrite Hlen.
    assert (dst_at s = None) as -> by (destruct (dst_at s) as [[d n]|] eqn:E; [apply dst_at_Some in E; by destruct (Hno d n)|done]). rewrite drop_0, IH by lia. done.
  - cbn [length] in Hf. cbn [dst_count after_char]. change (dollar =? dollar) with true. cbn iota zeta. rewrite Hlen. rewrite (proj2 (dst_at_Some s d n) Ht).
    pose proof (token_positive s d n Ht). rewrite IH by (rewrite length_drop; lia). cbn [mbind res_bind]. destruct (Nat.eqb_spec n 0) as [->|]; [lia|].
    done.
Qed.

(** ** Stores *)
Lemma store_spec s : forall buf wp, 0 <= wp -> wp + Z.of_nat (length s) <= Z.of_nat (length buf) ->
  store buf wp s = Ok (take (Z.to_nat wp) buf ++ s ++ drop (Z.to_nat wp + length s) buf).
Proof.
  induction s as [|c s IH]; intros buf wp Hw Hl; cbn [store length] in *.
  - rewrite Nat.add_0_r. cbn [app]. by rewrite take_drop.
  - rewrite wr_Ok by lia. cbn [mbind res_bind]. rewrite IH by (rewrite ?length_insert; lia). f_equal. rewrite Z2Nat.inj_add by lia. change (Z.to_nat 1) with 1%nat.
    rewrite drop_insert_lt by lia. rewrite Nat.add_1_r, (take_S_r _ _ c) by (apply list_lookup_insert_eq; lia). rewrite take_insert_ge by lia. rewrite <- app_assoc. cbn [app].
    by rewrite Nat.add_succ_r.
Qed.
Lemma wr_spec (buf : list Z) wp c : 0 <= wp < Z.of_nat (length buf) -> wr buf wp c = Ok (take (Z.to_nat wp) buf ++ c :: drop (S (Z.to_nat wp)) buf).
Proof. intros H. rewrite wr_Ok by lia. f_equal. apply insert_take_drop. lia. Qed.

(** [v] has been written at position [n]. *)
Definition written (buf buf' : list Z) (n : nat) (v : list Z) : Prop :=
  length buf' = length buf /\ take (n + length v) buf' = take n buf ++ v /\ (Forall (fun c => c = 0) (drop n buf) -> Forall (fun c => c = 0) (drop (n + length v) buf')).
Lemma written_str buf n v tl : (n + length v + length tl <= length buf)%nat -> Forall (fun c => c = 0) tl ->
  written buf (take n buf ++ (v ++ tl) ++ drop (n + length (v ++ tl)) buf) n v.
Proof.
  intros Hn Hz. split; [rewrite !length_app, length_take, length_drop; lia|].
  assert (Hl : length (take n buf ++ v) = (n + length v)%nat) by (rewrite length_app, length_take; lia).
  rewrite <- (app_assoc v tl), (app_assoc (take n buf) v). rewrite take_app_length' by done. split; [done|]. intros Hb. rewrite drop_app_length' by done.
  apply Forall_app. split; [done|]. rewrite <- drop_drop. by apply Forall_drop.
Qed.
Lemma wr_written buf wp c : 0 <= wp < Z.of_nat (length buf) -> exists buf', wr buf wp c = Ok buf' /\ written buf buf' (Z.to_nat wp) [c].
Proof.
  intros H. eexists. split; [by apply wr_spec|]. pose proof (written_str buf (Z.to_nat wp) [c] [] ltac:(cbn; lia) ltac:(constructor)) as W. cbn [app length] in W. by rewrite Nat.add_1_r in W.
Qed.
Lemma stpcpy_written buf wp v : 0 <= wp -> wp + Z.of_nat (length v) < Z.of_nat (length buf) ->
  exists buf', stpcpy buf wp v = Ok (buf', wp + Z.of_nat (length v)) /\ written buf buf' (Z.to_nat wp) v.
Proof.
  intros Hw H. eexists. split; [unfold stpcpy; rewrite store_spec by (rewrite ?length_app; cbn; lia); reflexivity|]. apply written_str; [cbn; lia|by constructor].
Qed.

(** ** The expansion of a list of tokens *)
Section Expansion.
Context (enable_secure : bool) (dl_platform : option (list Z)) (dl_dst_lib : list Z) (l : dst_map).

(** What follows a token in a path. *)
Definition ends (ts : list tok) : bool := match ts with [] => true | Char c :: _ => c =? slash | _ => false end.
Definition value (first : bool) (ts : list tok) (d : dst) : option (list Z) :=
  match d with
  | ORIGIN => if enable_secure && negb (first && ends ts) then None else match dm_origin l with Origin path => Some path | _ => None end
  | PLATFORM => dl_platform
  | LIB => Some dl_dst_lib
  end.
Fixpoint expansion (first : bool) (ts : list tok) : option (list Z) :=
  match ts with
  | [] => Some []
  | Char c :: ts => cons c <$> expansion false ts
  | Tok d :: ts => v ← value first ts d; app v <$> expansion false ts
  end.
Definition has_origin (ts : list tok) : bool := existsb (fun t => match t with Tok ORIGIN => true | _ => false end) ts.

Definition nonzero (s : list Z) : Prop := Forall (fun c => c <> 0) s.

Lemma ends_toks s ts : toks s ts -> nonzero s -> ((at_ s 0 =? 0) || (at_ s 0 =? slash)) = ends ts.
Proof using.
  destruct 1 as [|c s ts Hc _|s ts _ _|s d n ts _ _]; intros Hz; [done| |done|done]. inversion Hz as [|? ? Hc0 _]; subst. cbn. apply Z.eqb_neq in Hc0. by rewrite Hc0.
Qed.
Lemma replacement_token s d n ts first : token_at s d n -> toks (drop n s) ts -> nonzero s -> replacement enable_secure dl_platform dl_dst_lib l s first = (value first ts d, n).
Proof using.
  intros Ht Hts Hz. pose proof (token_positive _ _ _ Ht) as Hn. pose proof (proj2 (dst_at_Some s d n) Ht) as E. unfold dst_at in E. unfold replacement. cbn [name] in E.
  destruct (is_dst s (chars "ORIGIN") =? 0)%nat eqn:E1; cbn [negb]; [|injection E as <- <-; cbn [value]].
  - destruct (is_dst s (chars "PLATFORM") =? 0)%nat eqn:E2; cbn [negb]; [|by injection E as <- <-]. destruct (is_dst s (chars "LIB") =? 0)%nat eqn:E3; cbn [negb]; [done|by injection E as <- <-].
  - f_equal. rewrite <- (ends_toks _ _ Hts) by (by apply Forall_drop). unfold at_. by rewrite lookup_drop, Nat.add_0_r.
Qed.
Lemma replacement_none s first : (forall d n, ~ token_at s d n) -> replacement enable_secure dl_platform dl_dst_lib l s first = (None, 0%nat) /\ is_dst s (chars "ORIGIN") = 0%nat.
Proof using.
  intros Hno. assert (E : dst_at s = None) by (destruct (dst_at s) as [[d n]|] eqn:E; [apply dst_at_Some in E; by destruct (Hno d n)|done]). unfold dst_at in E. unfold replacement. cbn [name] in E.
  destruct (Nat.eqb_spec (is_dst s (chars "ORIGIN")) 0) as [E1|]; [|done]. destruct (is_dst s (chars "PLATFORM") =? 0)%nat; [|done]. by destruct (is_dst s (chars "LIB") =? 0)%nat.
Qed.

(** The replacements have at most [dst_len] characters. *)
Definition dst_len : Z := Z.max (Z.max (origin_len (dm_origin l)) (match dl_platform with Some p => Z.of_nat (length p) | None => 0 end)) (Z.of_nat (length dl_dst_lib)).
Definition extra : Z := Z.max 0 (dst_len - 4).
Lemma value_len first ts d v : value first ts d = Some v -> Z.of_nat (length v) <= 4 + extra.
Proof using.
  unfold value, extra, dst_len, origin_len. destruct d; [|intros ->; lia|intros [= <-]; lia].
  destruct (enable_secure && negb (first && ends ts)); [done|]. destruct (dm_origin l); [done|done|]. intros [= <-]. lia.
Qed.

(** What the loop leaves when it starts at [wp]. *)
Definition left (first : bool) (ts : list tok) (buf : list Z) (wp : Z) (check : bool) (x : res (list Z * option (Z * bool))) : Prop :=
  exists buf' r, x = Ok (buf', r) /\ length buf' = length buf /\
  match expansion first ts with
  | None => r = None
  | Some out => r = Some (wp + Z.of_nat (length out), if has_origin ts then enable_secure && bool_decide (dm_type l = lt_executable) else check) /\
      wp + Z.of_nat (length out) < Z.of_nat (length buf) /\
      exists tl, buf' = take (Z.to_nat wp) buf ++ out ++ tl /\ (Forall (fun c => c = 0) (drop (Z.to_nat wp) buf) -> Forall (fun c => c = 0) tl)
  end.

Lemma left_end buf wp check : 0 <= wp < Z.of_nat (length buf) -> left false [] buf wp check (Ok (buf, Some (wp, check))).
Proof using.
  intros Hw. exists buf, (Some (wp, check)). split; [done|]. split; [done|]. cbn [expansion has_origin existsb]. rewrite Z.add_0_r. split; [done|]. split; [lia|].
  exists (drop (Z.to_nat wp) buf). split; [by rewrite app_nil_l, take_drop|done].
Qed.
(** One token, and then the rest. *)
Lemma left_step first t v ts buf buf1 wp check check1 x : 0 <= wp -> written buf buf1 (Z.to_nat wp) v -> expansion first (t :: ts) = app v <$> expansion false ts ->
  (if has_origin ts then enable_secure && bool_decide (dm_type l = lt_executable) else check1) = (if has_origin (t :: ts) then enable_secure && bool_decide (dm_type l = lt_executable) else check) ->
  left false ts buf1 (wp + Z.of_nat (length v)) check1 x -> left first (t :: ts) buf wp check x.
Proof using.
  intros Hw (W1 & W2 & W3) E Ec (buf' & r & -> & Hl & H). exists buf', r. split; [done|]. split; [congruence|]. rewrite E. destruct (expansion false ts) as [out|]; cbn [fmap option_fmap option_map]; [|done].
  destruct H as (-> & Hlt & tl & -> & Hz). rewrite length_app. rewrite Ec in *. split; [f_equal; f_equal; lia|]. split; [lia|]. exists tl.
  rewrite Z2Nat.inj_add, Nat2Z.id in * by lia. rewrite W2. split; [by rewrite <- !app_assoc|auto].
Qed.

(** The loop writes the expansion from [wp] on; what is behind it was there before or is zero. *)
Lemma substitute_spec s ts : toks s ts -> nonzero s -> s <> [] -> forall fuel first buf wp check, (length s < fuel)%nat -> 0 <= wp ->
  wp + Z.of_nat (length s) + ntoks ts * extra + 1 <= Z.of_nat (length buf) ->
  left first ts buf wp check (substitute enable_secure dl_platform dl_dst_lib fuel l s first buf wp check).
Proof using.
  assert (Hx : 0 <= extra) by (unfold extra; lia).
  assert (Hnt : forall ts, 0 <= ntoks ts) by (intros ts0; induction ts0 as [|[] ? IH]; cbn; lia).
  assert (Hend : forall s ts fuel buf wp check, toks s ts -> (s <> [] -> left false ts buf wp check (substitute enable_secure dl_platform dl_dst_lib fuel l s false buf wp check)) -> 0 <= wp < Z.of_nat (length buf) ->
    left false ts buf wp check (if bool_decide (s = []) then Ok (buf, Some (wp, check)) else substitute enable_secure dl_platform dl_dst_lib fuel l s false buf wp check)).
  { intros s0 ts0 fuel buf wp check Ht H Hw. case_bool_decide as Hs; [|auto]. subst s0. inversion Ht; subst. by apply left_end. }
  induction 1 as [|c s ts Hc Hts IH|s ts Hno Hts IH|s d n ts Ht Hts IH]; intros Hz Hne [|fuel] first buf wp check Hf Hw Hroom; try (cbn in Hf; lia); [done|..];
    inversion Hz as [|? ? Hc0 Hz']; subst; cbn [length] in *; specialize (Hnt ts); cbn [ntoks] in Hroom.
  - cbn [substitute]. apply Z.eqb_neq in Hc as ->. destruct (wr_written buf wp c ltac:(nia)) as (buf1 & -> & W). cbn [mbind res_bind mret res_ret].
    apply (left_step first (Char c) [c] ts buf buf1 wp check check); [done|done|reflexivity|done|].
    destruct W as [W _]. apply Hend; [done| |cbn; nia]. intros Hs. apply IH; [done|done|lia|cbn; lia|cbn; rewrite W; nia].
  - cbn [substitute]. change (dollar =? dollar) with true. cbn iota. destruct (replacement_none s first Hno) as [-> ->]. cbn [Nat.eqb].
    destruct (wr_written buf wp dollar ltac:(nia)) as (buf1 & -> & W). cbn [mbind res_bind mret res_ret].
    apply (left_step first (Char dollar) [dollar] ts buf buf1 wp check check); [done|done|reflexivity|done|].
    destruct W as [W _]. apply Hend; [done| |cbn; nia]. intros Hs. apply IH; [done|done|lia|cbn; lia|cbn; rewrite W; nia].
  - cbn [substitute]. change (dollar =? dollar) with true. cbn iota. rewrite (replacement_token s d n ts first Ht Hts Hz'). pose proof (token_positive _ _ _ Ht) as Hn.
    set (check1 := if (is_dst s (chars "ORIGIN") =? 0)%nat then check else enable_secure && bool_decide (dm_type l = lt_executable)).
    assert (Ec : check1 = if bool_decide (d = ORIGIN) then enable_secure && bool_decide (dm_type l = lt_executable) else check).
    { unfold check1. rewrite (origin_token s d n Ht). by case_bool_decide. }
    destruct (value first ts d) as [v|] eqn:Ev.
    + pose proof (value_len _ _ _ _ Ev) as Hv. destruct (stpcpy_written buf wp v Hw ltac:(nia)) as (buf1 & -> & W). cbn [mbind res_bind mret res_ret].
      apply (left_step first (Tok d) v ts buf buf1 wp check check1); [done|done|cbn [expansion]; by rewrite Ev| |].
      { rewrite Ec. unfold has_origin. cbn [existsb]. fold (has_origin ts). by destruct d, (has_origin ts). }
      destruct W as [W _]. apply Hend; [done| |nia]. intros Hs. apply IH; [by apply Forall_drop|done|rewrite length_drop; lia|lia|rewrite W, length_drop; nia].
    + destruct n as [|n]; [lia|]. cbn [mbind res_bind mret res_ret]. exists buf, None. split; [done|]. split; [done|]. cbn [expansion]. by rewrite Ev.
Qed.
End Expansion.
