(* ===== verification/DstTrust.v ===== *)
(** * Dynamic string tokens: trusted directories

    [is_trusted_path_normalize] on absolute paths without doubled slashes resolves [.] and [..] and compares whole components. *)

From S2P Require Import Prelude LinkMap Dst DstSpec.

(** ** Paths as lists of components *)
Fixpoint split (s : list Z) : list (list Z) :=
  match s with
  | [] => [[]]
  | c :: s =>
      if c =? slash then [] :: split s
      else match split s with [] => [[c]] | x :: xs => (c :: x) :: xs end
  end.
(** The directory reached from [st], the innermost component first. *)
Definition enter (st : list (list Z)) (c : list Z) : list (list Z) :=
  if bool_decide (c = [dot; dot]) then tail st else if bool_decide (c = [] \/ c = [dot]) then st else c :: st.
Definition resolve (path : list Z) : list (list Z) := reverse (foldl enter [] (split path)).

Definition render (cs : list (list Z)) : list Z := concat (cons slash <$> cs).
Definition dir_string (cs : list (list Z)) : list Z := render cs ++ [slash].
Definition component (c : list Z) : Prop := c <> [] /\ (slash ∉ c) /\ nonzero c.

Definition double_slash (path : list Z) : Prop := exists i, path !! i = Some slash /\ path !! S i = Some slash.

(** Components in reverse, as they are in [npath]. *)
Definition stacked (st : list (list Z)) : list Z := concat ((fun c => reverse c ++ [slash]) <$> st).

Lemma stacked_render st : reverse (stacked st) = render (reverse st).
Proof.
  induction st as [|c st IH]; [done|]. unfold stacked, render in *. rewrite reverse_cons, fmap_app, concat_app. cbn [fmap list_fmap concat]. rewrite reverse_app, IH. f_equal.
  by rewrite reverse_app, reverse_involutive, app_nil_r.
Qed.
Lemma stacked_head c st : component c -> head (stacked (c :: st)) <> Some slash.
Proof.
  intros (Hne & Hs & _) H. unfold stacked in H. cbn [fmap list_fmap concat] in H. destruct (reverse c) as [|x r] eqn:E; [apply (f_equal reverse) in E; by rewrite reverse_involutive in E|].
  cbn in H. injection H as ->. apply Hs, elem_of_reverse. rewrite E. left.
Qed.
Lemma pop_stacked st : Forall component st -> pop_dir (stacked st) = stacked (tail st).
Proof.
  destruct st as [|c st]; [done|]. intros H. inversion H as [|? ? (_ & Hs & _) _]; subst. unfold stacked. cbn [fmap list_fmap concat tail].
  assert (Hs' : slash ∉ reverse c) by (by rewrite elem_of_reverse). revert Hs'. generalize (reverse c) as r. clear. induction r as [|x r IH]; intros H; cbn; [done|].
  destruct (Z.eqb_spec x slash) as [->|]; [destruct H; left|]. apply IH. intros ?. apply H. by right.
Qed.

Lemma split_nonempty s : split s <> [].
Proof. destruct s as [|c s]; [done|]. cbn. destruct (c =? slash); [done|]. by destruct (split s). Qed.
Lemma split_render s : render (split s) = slash :: s.
Proof.
  induction s as [|c s IH]; [done|]. cbn [split]. destruct (Z.eqb_spec c slash) as [->|].
  - change (render ([] :: split s)) with (slash :: render (split s)). by rewrite IH.
  - pose proof (split_nonempty s). destruct (split s) as [|x xs]; [done|]. unfold render in *. cbn in *. injection IH as IH. by rewrite IH.
Qed.
Lemma split_pieces s : nonzero s -> Forall (fun c => (slash ∉ c) /\ nonzero c) (split s).
Proof.
  induction s as [|c s IH]; intros H; [repeat constructor; by intros ?%elem_of_nil|]. inversion H as [|? ? Hc Hs]; subst. specialize (IH Hs). cbn. destruct (Z.eqb_spec c slash) as [->|Hn].
  - constructor; [split; [by intros ?%elem_of_nil|constructor]|done].
  - destruct (split s) as [|x xs]; [constructor; [|constructor]; split; [by intros [?|?%elem_of_nil]%elem_of_cons|by repeat constructor]|]. inversion IH as [|? ? [H1 H2] H3]; subst.
    constructor; [|done]. split; [by intros [?|?]%elem_of_cons|by constructor].
Qed.

(** ** The loop *)
(** At position [p] of [buf] there is the string [s]. *)
Definition string_at (buf : list Z) (p : Z) (s : list Z) : Prop := exists pre tl, buf = pre ++ s ++ 0 :: tl /\ p = Z.of_nat (length pre).
Lemma string_at_rd buf p s (k : nat) : string_at buf p s -> (k <= length s)%nat -> rd buf (p + Z.of_nat k) = Ok (at_ s k).
Proof.
  intros (pre & tl & -> & ->) Hk. rewrite <- Nat2Z.inj_add. apply rd_nat. rewrite lookup_app_r by lia. replace (length pre + k - length pre)%nat with k by lia. unfold at_.
  destruct (decide (k = length s)) as [->|]; [rewrite lookup_app_r, Nat.sub_diag by lia; by rewrite (lookup_ge_None_2 s) by lia|].
  rewrite lookup_app_l by lia. destruct (lookup_lt_is_Some_2 s k ltac:(lia)) as [x ->]. done.
Qed.
Lemma string_at_drop buf p s s' : string_at buf p (s ++ s') -> string_at buf (p + Z.of_nat (length s)) s'.
Proof. intros (pre & tl & -> & ->). exists (pre ++ s), tl. rewrite <- !app_assoc. split; [done|]. rewrite length_app. lia. Qed.

(** What a slash in front of [s] means. *)
Definition kind (s : list Z) (np : list Z) : action :=
  let other := if bool_decide (head np = Some slash) then Drop else Copy in
  if at_ s 0 =? dot then
    if (at_ s 1 =? dot) && ((at_ s 2 =? slash) || (at_ s 2 =? 0)) then Up else if (at_ s 1 =? slash) || (at_ s 1 =? 0) then Stay else other
  else other.
Lemma at_nonzero s k : at_ s k <> 0 -> (S k <= length s)%nat.
Proof. unfold at_. destruct (s !! k) as [x|] eqn:E; [|done]. intros _. apply lookup_lt_Some in E. lia. Qed.
Lemma classify_slash buf p s np : string_at buf p (slash :: s) -> classify buf p np = Ok (kind s np).
Proof.
  intros Hs. unfold classify, kind. assert (Hrd : forall k : nat, (k <= length s)%nat -> rd buf (p + (1 + Z.of_nat k)) = Ok (at_ s k)).
  { intros k Hk. pose proof (string_at_rd buf p (slash :: s) (S k) Hs ltac:(cbn; lia)) as E. rewrite Nat2Z.inj_succ in E. rewrite <- Z.add_1_l in E. exact E. }
  pose proof (string_at_rd buf p (slash :: s) 0 Hs ltac:(lia)) as E0. rewrite Z.add_0_r in E0. rewrite E0. cbn [mbind res_bind at_ lookup list_lookup default from_option id]. change (slash =? slash) with true. cbn iota.
  rewrite (Hrd 0%nat ltac:(lia) : rd buf (p + 1) = _). cbn [mbind res_bind]. destruct (Z.eqb_spec (at_ s 0) dot) as [E1|E1]; [|done].
  pose proof (at_nonzero s 0 ltac:(by rewrite E1)) as H1. rewrite (Hrd 1%nat ltac:(lia) : rd buf (p + 2) = _). cbn [mbind res_bind].
  destruct (Z.eqb_spec (at_ s 1) dot) as [E2|E2]; [|cbn [andb mbind res_bind mret res_ret]; by destruct ((at_ s 1 =? slash) || (at_ s 1 =? 0))].
  pose proof (at_nonzero s 1 ltac:(by rewrite E2)) as H2. rewrite (Hrd 2%nat ltac:(lia) : rd buf (p + 3) = _). cbn [mbind res_bind andb mret res_ret].
  destruct ((at_ s 2 =? slash) || (at_ s 2 =? 0)); [done|]. by rewrite E2.
Qed.

Definition piece (c rest : list Z) : Prop := (slash ∉ c) /\ nonzero c /\ (rest = [] \/ head rest = Some slash) /\ (c <> [] \/ rest = []).
Lemma kind_piece c rest np : piece c rest -> kind (c ++ rest) np = if bool_decide (c = [dot; dot]) then Up else if bool_decide (c = [dot]) then Stay else
  if bool_decide (head np = Some slash) then Drop else Copy.
Proof.
  intros (Hs & Hz & Hr & Hc). unfold kind. set (other := if bool_decide (head np = Some slash) then Drop else Copy).
  assert (Hrest : at_ rest 0 = 0 \/ at_ rest 0 = slash) by (destruct Hr as [-> |Hr]; [by left|right; destruct rest; [done|by injection Hr as ->]]).
  assert (Hne : forall x, x ∈ c -> x <> slash /\ x <> 0) by (intros x Hx; split; [intros ->; done|by apply (proj1 (Forall_forall _ _) Hz)]).
  destruct c as [|a [|b [|d c]]]; cbn [app].
  - destruct Hc as [?| ->]; [done|]. done.
  - change (at_ (a :: rest) 0) with a. change (at_ (a :: rest) 1) with (at_ rest 0). destruct (Z.eqb_spec a dot) as [->|Ha].
    + rewrite (bool_decide_eq_false_2 ([dot] = [dot; dot])), (bool_decide_eq_true_2 ([dot] = [dot])) by done. by destruct Hrest as [-> | ->].
    + rewrite !bool_decide_eq_false_2 by congruence. done.
  - change (at_ (a :: b :: rest) 0) with a. change (at_ (a :: b :: rest) 1) with b. change (at_ (a :: b :: rest) 2) with (at_ rest 0).
    rewrite (bool_decide_eq_false_2 ([a; b] = [dot])) by done. destruct (Hne b ltac:(set_solver)) as [Hb1 Hb2]. apply Z.eqb_neq in Hb1, Hb2. rewrite Hb1, Hb2. cbn [orb].
    destruct (Z.eqb_spec a dot) as [->|Ha]; [|by rewrite bool_decide_eq_false_2 by congruence]. destruct (Z.eqb_spec b dot) as [->|Hb]; [|by rewrite bool_decide_eq_false_2 by congruence].
    rewrite bool_decide_eq_true_2 by done. by destruct Hrest as [-> | ->].
  - change (at_ (a :: b :: d :: c ++ rest) 0) with a. change (at_ (a :: b :: d :: c ++ rest) 1) with b. change (at_ (a :: b :: d :: c ++ rest) 2) with d.
    rewrite !bool_decide_eq_false_2 by done. destruct (Hne b ltac:(set_solver)) as [Hb1 Hb2], (Hne d ltac:(set_solver)) as [Hd1 Hd2]. apply Z.eqb_neq in Hb1, Hb2, Hd1, Hd2.
    rewrite Hb1, Hb2, Hd1, Hd2. cbn [orb]. rewrite andb_false_r. by destruct (a =? dot).
Qed.

Lemma normalize_step fuel room buf p c s np : string_at buf p (c :: s) -> c <> 0 -> normalize (S fuel) room buf p np = a ← classify buf p np;
  match a with
  | Up => normalize fuel room buf (p + 3) (pop_dir np)
  | Stay => normalize fuel room buf (p + 2) np
  | Drop => normalize fuel room buf (p + 1) np
  | Copy => np ← push room c np; normalize fuel room buf (p + 1) np
  end.
Proof.
  intros Hs Hc. cbn [normalize]. pose proof (string_at_rd buf p (c :: s) 0 Hs ltac:(lia)) as E. rewrite Z.add_0_r in E. rewrite E. cbn. apply Z.eqb_neq in Hc. by rewrite Hc.
Qed.

(** Characters of a component are copied. *)
Lemma normalize_chars room buf rest c : forall p np fuel, string_at buf p (c ++ rest) -> slash ∉ c -> nonzero c -> Z.of_nat (length np + length c) <= room ->
  normalize (length c + fuel) room buf p np = normalize fuel room buf (p + Z.of_nat (length c)) (reverse c ++ np).
Proof.
  induction c as [|x c IH]; intros p np fuel Hs Hn Hz Hr; [cbn; by rewrite Z.add_0_r|]. inversion Hz as [|? ? Hx Hz']; subst. cbn [length app] in *.
  rewrite Nat.add_succ_l, (normalize_step _ _ _ _ x (c ++ rest)) by done. assert (Hxs : x <> slash) by (intros ->; apply Hn; left).
  assert (classify buf p np = Ok Copy) as ->.
  { unfold classify. pose proof (string_at_rd buf p (x :: c ++ rest) 0 Hs ltac:(lia)) as E. rewrite Z.add_0_r in E. rewrite E. cbn. apply Z.eqb_neq in Hxs. by rewrite Hxs. }
  cbn [mbind res_bind]. unfold push. rewrite (proj2 (Z.ltb_lt _ _)) by lia. cbn [mbind res_bind mret res_ret].
  rewrite (IH (p + 1)); [|by apply (string_at_drop buf p [x])|intros ?; apply Hn; by right|done|cbn [length]; lia].
  rewrite reverse_cons, <- app_assoc. cbn [app]. f_equal. lia.
Qed.

Lemma stacked_no_slash st : Forall component st -> head (stacked st) <> Some slash.
Proof. destruct st as [|c st]; [done|]. intros H. inversion H; subst. by apply stacked_head. Qed.
Lemma enter_components st c : Forall component st -> (slash ∉ c) -> nonzero c -> Forall component (enter st c).
Proof.
  intros H Hs Hz. unfold enter. case_bool_decide; [by destruct H|]. case_bool_decide as Hc; [done|]. constructor; [|done]. split; [|by split]. intros ->. apply Hc. by left.
Qed.
Lemma stacked_tail st : (length (stacked (tail st)) <= length (stacked st))%nat.
Proof. destruct st as [|c st]; [done|]. unfold stacked. cbn [tail fmap list_fmap concat]. rewrite length_app. lia. Qed.

(** A component with the slash in front of it. *)
Lemma normalize_piece room buf p c rest st : string_at buf p (slash :: c ++ rest) -> piece c rest -> Forall component st -> Z.of_nat (length (stacked st)) <= p ->
  p + 1 + Z.of_nat (length c) <= room ->
  exists k, (k <= S (length c))%nat /\ forall fuel, let np := if bool_decide (c = []) then slash :: stacked st else stacked (enter st c) in
    normalize (k + fuel) room buf p (stacked st) = normalize fuel room buf (p + 1 + Z.of_nat (length c)) np /\ Z.of_nat (length np) <= p + 1 + Z.of_nat (length c).
Proof.
  intros Hs Hp Hst Hl Hr. pose proof (kind_piece c rest (stacked st) Hp) as K. rewrite (bool_decide_eq_false_2 (head _ = _)) in K by (by apply stacked_no_slash).
  pose proof (classify_slash _ _ _ (stacked st) Hs) as C. rewrite K in C. destruct Hp as (Hns & Hz & _ & _). unfold enter. pose proof (stacked_tail st).
  destruct (decide (c = [dot; dot])) as [->|H2]; [|destruct (decide (c = [dot])) as [->|H1]].
  - exists 1%nat. split; [cbn; lia|]. intros fuel. rewrite (bool_decide_eq_false_2 (_ = [])), (bool_decide_eq_true_2 (_ = [dot; dot])) in * by done. cbn iota zeta in *. cbn [Nat.add length].
    rewrite (normalize_step _ _ _ _ slash ([dot; dot] ++ rest)), C by done. cbn [mbind res_bind]. rewrite pop_stacked by done. split; [f_equal; lia|lia].
  - exists 1%nat. split; [cbn; lia|]. intros fuel. rewrite (bool_decide_eq_false_2 (_ = [dot; dot])), (bool_decide_eq_true_2 (_ = [dot])) in C by done.
    rewrite (bool_decide_eq_false_2 ([dot] = [])), (bool_decide_eq_false_2 (_ = [dot; dot])), (bool_decide_eq_true_2 (_ \/ _)) by (done || by right). cbn iota zeta in *. cbn [Nat.add length].
    rewrite (normalize_step _ _ _ _ slash ([dot] ++ rest)), C by done. cbn [mbind res_bind]. split; [f_equal; lia|lia].
  - rewrite (bool_decide_eq_false_2 (_ = [dot; dot])), (bool_decide_eq_false_2 (_ = [dot])) in C by done.
    exists (S (length c)). split; [done|]. intros fuel. rewrite Nat.add_succ_l, (normalize_step _ _ _ _ slash (c ++ rest)), C by done. cbn [mbind res_bind].
    unfold push. rewrite (proj2 (Z.ltb_lt _ _)) by lia. cbn [mbind res_bind mret res_ret]. rewrite (normalize_chars room buf rest c); [|by apply (string_at_drop buf p [slash])|done|done|cbn [length]; lia].
    rewrite (bool_decide_eq_false_2 (c = [dot; dot])) by done.
    destruct (decide (c = [])) as [->|Hc]; [rewrite (bool_decide_eq_true_2 (_ = [])) by done; split; [done|cbn [length]; lia]|rewrite (bool_decide_eq_false_2 (c = [])) by done].
    rewrite bool_decide_eq_false_2 by (by intros [?|?]). change (stacked (c :: st)) with ((reverse c ++ [slash]) ++ stacked st). rewrite <- app_assoc. cbn [app].
    split; [done|]. rewrite length_app, length_reverse. cbn [length]. lia.
Qed.

Lemma normalize_end fuel room buf p np : string_at buf p [] -> normalize (S fuel) room buf p np = Ok np.
Proof. intros Hs. cbn [normalize]. pose proof (string_at_rd buf p [] 0 Hs ltac:(cbn; lia)) as E. rewrite Z.add_0_r in E. by rewrite E. Qed.

(** Only the last component may be empty. *)
Definition spaced (ps : list (list Z)) : Prop := forall ps1 c ps2, ps = ps1 ++ c :: ps2 -> c <> [] \/ ps2 = [].
Lemma spaced_split s : ~ double_slash (slash :: s) -> spaced (split s).
Proof.
  intros Hd ps1 c ps2 E. destruct (decide (c = [])) as [->|]; [|by left]. right. destruct ps2 as [|c2 ps2]; [done|]. destruct Hd. exists (length (render ps1)).
  rewrite <- split_render, E. unfold render. rewrite fmap_app, concat_app. cbn [fmap list_fmap concat app]. fold (render ps1).
  rewrite !lookup_app_r by lia. rewrite Nat.sub_diag. replace (S (length (render ps1)) - length (render ps1))%nat with 1%nat by lia. done.
Qed.

Lemma normalize_pieces room buf ps : forall p st, string_at buf p (render ps) -> Forall (fun c => (slash ∉ c) /\ nonzero c) ps -> spaced ps -> Forall component st ->
  Z.of_nat (length (stacked st)) <= p -> p + Z.of_nat (length (render ps)) <= room ->
  exists k, (k <= length (render ps))%nat /\ exists np, (forall fuel, normalize (k + S fuel) room buf p (stacked st) = Ok np) /\
    (np = stacked (foldl enter st ps) \/ np = slash :: stacked (foldl enter st ps)) /\ Z.of_nat (length np) <= p + Z.of_nat (length (render ps)) /\ Forall component (foldl enter st ps).
Proof.
  induction ps as [|c ps IH]; intros p st Hs Hp Hsp Hst Hl Hr.
  - exists 0%nat. split; [lia|]. exists (stacked st). split; [intros fuel; by apply normalize_end|]. split; [by left|]. split; [cbn; lia|done].
  - apply Forall_cons in Hp as [[Hns Hz] Hp]. change (render (c :: ps)) with (slash :: c ++ render ps) in *. cbn [length] in *. rewrite length_app in *.
    assert (Hpc : piece c (render ps)).
    { split; [done|]. split; [done|]. split; [destruct ps; [by left|by right]|]. destruct (Hsp [] c ps eq_refl) as [?| ->]; [by left|by right]. }
    destruct (normalize_piece room buf p c (render ps) st Hs Hpc Hst Hl ltac:(lia)) as (k1 & Hk1 & H1). cbn [foldl].
    pose proof (enter_components st c Hst Hns Hz) as Hst'.
    assert (Hs' : string_at buf (p + 1 + Z.of_nat (length c)) (render ps)).
    { apply (string_at_drop buf p [slash]) in Hs. apply string_at_drop in Hs. exact Hs. }
    destruct (decide (c = [])) as [->|Hc].
    + destruct (Hsp [] [] ps eq_refl) as [?| ->]; [done|]. exists k1. split; [cbn in *; lia|]. exists (slash :: stacked st). split.
      { intros fuel. destruct (H1 (S fuel)) as [-> _]. rewrite bool_decide_eq_true_2 by done. by apply normalize_end. }
      split; [by right|]. split; [cbn [length] in *; lia|done].
    + destruct (IH (p + 1 + Z.of_nat (length c)) (enter st c) Hs' Hp) as (k2 & Hk2 & np & Hnp & Hor & Hlen & Hcs); [|done|destruct (H1 0%nat) as [_ ?]; by rewrite bool_decide_eq_false_2 in *|lia|].
      { intros ps1 x ps2 E. apply (Hsp (c :: ps1) x ps2). by rewrite E. }
      exists (k1 + k2)%nat. split; [lia|]. exists np. split; [|split; [done|split; [lia|done]]]. intros fuel. rewrite <- Nat.add_assoc. destruct (H1 (k2 + S fuel)%nat) as [-> _]. rewrite bool_decide_eq_false_2 by done. apply Hnp.
Qed.

(** ** Whole components are compared *)
Lemma component_prefix c c' u u' : (slash ∉ c) -> (slash ∉ c') -> c ++ slash :: u `prefix_of` c' ++ slash :: u' -> c = c' /\ slash :: u `prefix_of` slash :: u'.
Proof.
  revert c'. induction c as [|x c IH]; intros [|x' c'] Hc Hc' H; cbn in H.
  - done.
  - apply prefix_cons_inv_1 in H as <-. destruct Hc'. left.
  - apply prefix_cons_inv_1 in H as ->. destruct Hc. left.
  - pose proof (prefix_cons_inv_1 _ _ _ _ H) as ->. apply prefix_cons_inv_2 in H. destruct (IH c') as [-> ?]; [set_solver|set_solver|done|done].
Qed.
Lemma dir_string_cons c cs : dir_string (c :: cs) = slash :: c ++ dir_string cs.
Proof. unfold dir_string, render. cbn [fmap list_fmap concat]. by rewrite <- app_assoc. Qed.
Lemma dir_string_head cs : exists u, dir_string cs = slash :: u.
Proof. destruct cs as [|c cs]; [by exists []|]. rewrite dir_string_cons. by eexists. Qed.
Lemma dir_string_prefix ds cs : Forall component ds -> Forall component cs -> dir_string ds `prefix_of` dir_string cs <-> ds `prefix_of` cs.
Proof.
  intros Hd. revert cs. induction Hd as [|d ds (Hne & Hs & _) _ IH]; intros cs Hc.
  - split; intros _; [apply prefix_nil|]. destruct (dir_string_head cs) as [u ->]. by exists u.
  - destruct Hc as [|c cs (Hne' & Hs' & _) Hc]; [|rewrite !dir_string_cons].
    + split; [|by intros ?%prefix_nil_not]. rewrite dir_string_cons. intros H%prefix_cons_inv_2. destruct d; [done|by apply prefix_nil_not in H].
    + split.
      * intros H%prefix_cons_inv_2. destruct (dir_string_head ds) as [u E], (dir_string_head cs) as [u' E']. rewrite E, E' in H. apply component_prefix in H as [-> H]; [|done|done].
        rewrite <- E, <- E' in H. apply prefix_cons. by apply IH.
      * intros H. pose proof (prefix_cons_inv_1 _ _ _ _ H) as ->. apply prefix_cons, prefix_app, IH; [done|]. by apply prefix_cons_inv_2 in H.
Qed.

Lemma take_prefix (d s : list Z) : take (length d) s = d <-> d `prefix_of` s.
Proof. split; [intros <-; apply prefix_take|intros [k ->]; apply take_app_length]. Qed.

(** A path is trusted when a system directory is on the way to it. *)
Lemma trusted_spec dirs path tl : Forall (Forall component) dirs -> nonzero path -> head path = Some slash -> ~ double_slash path ->
  is_trusted_path_normalize (dir_string <$> dirs) (path ++ 0 :: tl) (Z.of_nat (length path)) = Ok (bool_decide (Exists (fun d => d `prefix_of` resolve path) dirs)).
Proof.
  intros Hdirs Hz Hh Hd. destruct path as [|c s]; [done|]. injection Hh as ->. unfold is_trusted_path_normalize. rewrite (proj2 (Z.eqb_neq _ _)) by (cbn [length]; lia).
  set (path := slash :: s) in *. assert (Hzs : nonzero s) by (by inversion Hz). set (buf := path ++ 0 :: tl). set (room := Z.of_nat (length path) + 2).
  destruct (normalize_pieces room buf (split s) 0 []) as (k & Hk & np & Hnp & Hor & Hlen & Hcs); [exists [], tl; by rewrite split_render|by apply split_pieces|by apply spaced_split|constructor|cbn; lia| |].
  { rewrite split_render. unfold room, path. lia. }
  rewrite split_render in *. fold path in Hk, Hlen. set (st := foldl enter [] (split s)) in *.
  assert (Hb : (k <= length buf)%nat) by (unfold buf; rewrite length_app; lia). replace (S (length buf)) with (k + S (length buf - k))%nat by lia. change [] with (stacked []) at 1. rewrite Hnp. cbn [mbind res_bind].
  assert ((if bool_decide (head np = Some slash) then mret np else push room slash np) = Ok (slash :: stacked st)) as ->.
  { destruct Hor as [-> | ->]; [rewrite bool_decide_eq_false_2 by (by apply stacked_no_slash)|by rewrite bool_decide_eq_true_2]. unfold push. by rewrite (proj2 (Z.ltb_lt _ _)) by (unfold room; lia). }
  cbn [mbind res_bind mret res_ret]. f_equal. rewrite reverse_cons, stacked_render. change (render (reverse st) ++ [slash]) with (dir_string (reverse st)).
  change (resolve path) with (reverse st). apply eq_iff_eq_true. rewrite existsb_exists, bool_decide_eq_true, Exists_exists. assert (Hst : Forall component (reverse st)) by (by apply Forall_reverse). split.
  - intros (x & (d & -> & Hd1)%list_elem_of_In%list_elem_of_fmap & Hx%bool_decide_eq_true). exists d. split; [done|]. apply take_prefix in Hx. apply dir_string_prefix in Hx; [done| |done]. by apply (proj1 (Forall_forall _ _) Hdirs).
  - intros (d & Hd1 & Hx). exists (dir_string d). split; [by apply list_elem_of_In, list_elem_of_fmap_2|]. apply bool_decide_eq_true, take_prefix, dir_string_prefix; [|done|done]. by apply (proj1 (Forall_forall _ _) Hdirs).
Qed.
