(* ===== verification/DstSafety.v ===== *)
(** * Dynamic string tokens: expansions fit, and privileged programs stay in trusted directories *)

From S2P Require Import Prelude LinkMap Dst DstSpec DstTrust.

(** ** The check always ends, inside its arrays *)
Lemma pop_dir_len np : (length (pop_dir np) <= length np)%nat.
Proof. induction np as [|c np IH]; cbn; [done|]. destruct (c =? slash); lia. Qed.
Lemma dots_at s : kind s [] = Up -> exists r, s = dot :: dot :: r.
Proof.
  unfold kind. cbn [head]. rewrite bool_decide_eq_false_2 by done. destruct (Z.eqb_spec (at_ s 0) dot) as [E0|]; [|done]. destruct (Z.eqb_spec (at_ s 1) dot) as [E1|E1]; cbn [andb].
  - destruct s as [|a [|b r]]; try (vm_compute in E0, E1; congruence). cbn in E0, E1. subst. by exists r.
  - by destruct ((at_ s 1 =? slash) || (at_ s 1 =? 0)).
Qed.
Lemma kind_cases s np : match kind s np with Up => exists r, s = dot :: dot :: r | Stay => exists r, s = dot :: r | _ => True end.
Proof.
  pose proof (dots_at s) as Hd. unfold kind in *. cbn [head] in Hd. destruct (Z.eqb_spec (at_ s 0) dot) as [E0|]; [|by destruct (bool_decide (head np = Some slash))].
  destruct ((at_ s 1 =? dot) && ((at_ s 2 =? slash) || (at_ s 2 =? 0))); [by apply Hd|]. destruct ((at_ s 1 =? slash) || (at_ s 1 =? 0)); [|by destruct (bool_decide (head np = Some slash))].
  destruct s as [|a r]; [done|]. cbn in E0. subst. by exists r.
Qed.

Lemma normalize_total room buf : forall fuel p s np, string_at buf p s -> nonzero s -> (length s < fuel)%nat -> Z.of_nat (length np) <= p -> p + Z.of_nat (length s) <= room ->
  exists np', normalize fuel room buf p np = Ok np' /\ Z.of_nat (length np') <= p + Z.of_nat (length s).
Proof.
  induction fuel as [|fuel IH]; intros p s np Hs Hz Hf Hl Hr; [lia|]. destruct s as [|c s]; [rewrite normalize_end by done; exists np; split; [done|cbn; lia]|].
  inversion Hz as [|? ? Hc Hz']; subst. rewrite (normalize_step _ _ _ _ c s) by done. cbn [length] in *.
  assert (Hcopy : exists np', (np ← push room c np; normalize fuel room buf (p + 1) np) = Ok np' /\ Z.of_nat (length np') <= p + Z.of_nat (S (length s))).
  { unfold push. rewrite (proj2 (Z.ltb_lt _ _)) by lia. cbn [mbind res_bind mret res_ret]. destruct (IH (p + 1) s (c :: np)) as (np' & -> & ?); [by apply (string_at_drop buf p [c])|done|lia|cbn [length]; lia|lia|]. exists np'. split; [done|lia]. }
  destruct (decide (c = slash)) as [->|Hcs].
  - rewrite (classify_slash buf p s np Hs). cbn [mbind res_bind]. pose proof (kind_cases s np) as K. destruct (kind s np).
    + destruct K as [r ->]. cbn [length] in *. pose proof (pop_dir_len np). destruct (IH (p + 3) r (pop_dir np)) as (np' & -> & ?); [by apply (string_at_drop buf p [slash; dot; dot])|by do 2 apply Forall_inv_tail in Hz'|lia|lia|lia|].
      exists np'. split; [done|lia].
    + destruct K as [r ->]. cbn [length] in *. destruct (IH (p + 2) r np) as (np' & -> & ?); [by apply (string_at_drop buf p [slash; dot])|by apply Forall_inv_tail in Hz'|lia|lia|lia|]. exists np'. split; [done|lia].
    + destruct (IH (p + 1) s np) as (np' & -> & ?); [by apply (string_at_drop buf p [slash])|done|lia|lia|lia|]. exists np'. split; [done|lia].
    + done.
  - assert (classify buf p np = Ok Copy) as ->; [|done]. unfold classify. pose proof (string_at_rd buf p (c :: s) 0 Hs ltac:(lia)) as E. rewrite Z.add_0_r in E. rewrite E. cbn. apply Z.eqb_neq in Hcs. by rewrite Hcs.
Qed.
Lemma trusted_total dirs path tl : nonzero path -> exists b, is_trusted_path_normalize dirs (path ++ 0 :: tl) (Z.of_nat (length path)) = Ok b.
Proof.
  intros Hz. unfold is_trusted_path_normalize. destruct (Z.of_nat (length path) =? 0); [by eexists|].
  destruct (normalize_total (Z.of_nat (length path) + 2) (path ++ 0 :: tl) (S (length (path ++ 0 :: tl))) 0 path []) as (np & -> & Hl); [by exists [], tl|done|rewrite length_app; lia|cbn; lia|lia|].
  cbn [mbind res_bind]. case_bool_decide; [by eexists|]. unfold push. rewrite (proj2 (Z.ltb_lt _ _)) by lia. by eexists.
Qed.

(** ** Strings in memory *)
Lemma c_string_app s tl : nonzero s -> c_string (s ++ 0 :: tl) = s.
Proof. induction 1 as [|c s Hc _ IH]; [done|]. cbn. apply Z.eqb_neq in Hc. by rewrite Hc, IH. Qed.
Lemma toks_nonzero s ts c : toks s ts -> nonzero s -> Char c ∈ ts -> c <> 0.
Proof.
  induction 1 as [|x s ts Hx _ IH|s ts _ _ IH|s d n ts _ _ IH]; intros Hz Hin; [by apply elem_of_nil in Hin|..]; inversion Hz; subst; apply elem_of_cons in Hin as [E|Hin]; try (by auto); try congruence.
  apply IH; [by apply Forall_drop|done].
Qed.
Lemma ntoks_len s ts : toks s ts -> 0 <= ntoks ts <= Z.of_nat (length s).
Proof. induction 1 as [|c s ts _ _ IH|s ts _ _ IH|s d n ts _ _ IH]; cbn [ntoks length]; try lia. rewrite length_drop in IH. lia. Qed.

Section Expand.
Context (dirs : list (list (list Z))) (enable_secure : bool) (dl_platform : option (list Z)) (dl_dst_lib : list Z) (dl_platformlen : Z) (get_origin : origin) (malloc : Z -> option (list Z)).
Abbreviation system_dirs := (dir_string <$> dirs).
Abbreviation expansion := (DstSpec.expansion enable_secure dl_platform dl_dst_lib).

(** Strings without null characters. *)
Definition origin_string (o : origin) : Prop := match o with Origin path => nonzero path | _ => True end.
Definition strings (l : dst_map) : Prop := origin_string (dm_origin l) /\ match dl_platform with Some p => nonzero p | None => True end /\ nonzero dl_dst_lib.

Lemma expansion_nonzero l ts : strings l -> (forall c, Char c ∈ ts -> c <> 0) -> forall first out, expansion l first ts = Some out -> nonzero out.
Proof using.
  intros (So & Sp & Sl). induction ts as [|[c|d] ts IH]; intros Hc first out; cbn [DstSpec.expansion]; [intros [= <-]; constructor|..]; assert (IH' := IH (fun x Hx => Hc x ltac:(by right))).
  - destruct (expansion l false ts) as [o|] eqn:E; [|done]. intros [= <-]. constructor; [apply Hc; left|by apply (IH' false)].
  - destruct (value enable_secure dl_platform dl_dst_lib l first ts d) as [v|] eqn:Ev; [|done]. cbn [mbind option_bind]. destruct (expansion l false ts) as [o|] eqn:E; [|done]. intros [= <-].
    apply Forall_app. split; [|by apply (IH' false)]. unfold value in Ev. destruct d; [|by destruct dl_platform; simplify_eq|by injection Ev as <-].
    destruct (enable_secure && negb (first && ends ts)); [done|]. destruct (dm_origin l); [done|done|]. injection Ev as <-. exact So.
Qed.

Lemma substitute_run l s ts mem : toks s ts -> nonzero s -> s <> [] -> strings l -> Z.of_nat (length s) + ntoks ts * extra dl_platform dl_dst_lib l + 1 <= Z.of_nat (length mem) ->
  match expansion l true ts with
  | None => exists mem', _dl_dst_substitute system_dirs enable_secure dl_platform dl_dst_lib l s mem = Ok mem' /\ c_string mem' = [] /\ 0 ∈ mem'
  | Some out => nonzero out /\ exists c tl, (Forall (fun c => c = 0) mem -> Forall (fun c => c = 0) (c :: tl)) /\
      _dl_dst_substitute system_dirs enable_secure dl_platform dl_dst_lib l s mem =
        (trusted ← (if has_origin ts && (enable_secure && bool_decide (dm_type l = lt_executable)) then is_trusted_path_normalize system_dirs (out ++ c :: tl) (Z.of_nat (length out)) else mret true);
         if (trusted : bool) then Ok (out ++ 0 :: tl) else wr (out ++ c :: tl) 0 0)
  end.
Proof using.
  intros Ht Hz Hne Hs Hroom. unfold _dl_dst_substitute.
  destruct (substitute_spec enable_secure dl_platform dl_dst_lib l s ts Ht Hz Hne (S (length s)) true mem 0 false ltac:(lia) ltac:(lia) ltac:(lia)) as (buf & r & -> & Hl & H). cbn [mbind res_bind].
  destruct (expansion l true ts) as [out|] eqn:E.
  - destruct H as (-> & Hlt & tl & -> & Hzero). change (Z.to_nat 0) with 0%nat in *. rewrite take_0, drop_0, app_nil_l in *. rewrite length_app in Hl. split; [apply (expansion_nonzero l ts Hs (fun c => toks_nonzero s ts c Ht Hz) true out E)|].
    destruct tl as [|c tl]; [cbn [length] in Hl; lia|]. exists c, tl. split; [done|]. rewrite Z.add_0_l.
    assert (Hw : wr (out ++ c :: tl) (Z.of_nat (length out)) 0 = Ok (out ++ 0 :: tl)).
    { rewrite wr_spec by (rewrite length_app; cbn [length]; lia). rewrite Nat2Z.id, take_app_length. f_equal. f_equal. f_equal. rewrite <- Nat.add_1_r, <- drop_drop, drop_app_length. done. }
    rewrite Hw. by destruct (has_origin ts), (enable_secure && bool_decide (dm_type l = lt_executable)).
  - subst r. exists (0 :: drop 1 buf). split; [|split; [done|left]]. rewrite wr_spec; [done|]. rewrite Hl. pose proof (ntoks_len s ts Ht). unfold extra in Hroom. nia.
Qed.

(** The map once its origin is known. *)
Definition known (l : dst_map) : dst_map := match dm_origin l with NoOrigin => mkDst (dm_type l) (dm_unnamed l) get_origin | _ => l end.

Hypothesis Hplatform : dl_platformlen = match dl_platform with Some p => Z.of_nat (length p) | None => 0 end.
Hypothesis Hmalloc : forall n mem, malloc n = Some mem -> Z.of_nat (length mem) = n.

(** The path fits in memory with all its tokens expanded. *)
Definition fits (l : dst_map) (input : list Z) : Prop := Z.of_nat (length input) * (1 + dst_len dl_platform dl_dst_lib (known l)) + 1 < 2 ^ 64.

Lemma required_spec l is_rtld input ts : toks input ts -> (dm_origin l = NoOrigin -> dm_unnamed l || is_rtld = true) -> fits l input -> ntoks ts <> 0 ->
  DL_DST_REQUIRED dl_dst_lib dl_platformlen get_origin l is_rtld (Z.of_nat (length input)) (ntoks ts) =
    Ok (Z.of_nat (length input) + ntoks ts * extra dl_platform dl_dst_lib (known l), known l) /\
  Z.of_nat (length input) + ntoks ts * extra dl_platform dl_dst_lib (known l) + 1 < 2 ^ 64.
Proof using Hplatform.
  intros Ht Ho Hf Hn. pose proof (ntoks_len input ts Ht) as Hlen. assert (Hd : 0 <= dst_len dl_platform dl_dst_lib (known l)) by (unfold dst_len; lia).
  assert (Hb : Z.of_nat (length input) + ntoks ts * extra dl_platform dl_dst_lib (known l) + 1 < 2 ^ 64) by (unfold fits in Hf; unfold extra; nia).
  split; [|done]. unfold DL_DST_REQUIRED. rewrite (proj2 (Z.ltb_lt 0 _)) by lia.
  assert ((match dm_origin l with NoOrigin => c_assert (dm_unnamed l || is_rtld) "l->l_name[0] == 0 || is_rtld_link_map (l)";; mret (mkDst (dm_type l) (dm_unnamed l) get_origin) | _ => mret l end) = Ok (known l)) as ->.
  { unfold known. destruct (dm_origin l) eqn:E; [|done|done]. by rewrite Ho. }
  cbn [mbind res_bind]. rewrite Hplatform. fold (dst_len dl_platform dl_dst_lib (known l)). unfold mret, res_ret. f_equal. f_equal. unfold extra in *.
  destruct (Z.ltb_spec 4 (dst_len dl_platform dl_dst_lib (known l))); [|nia]. rewrite Z.max_r in * by lia. rewrite (u64_small (_ * _)) by nia. apply u64_small. nia.
Qed.

Lemma no_tokens s ts l : toks s ts -> ntoks ts = 0 -> forall first, expansion l first ts = Some s.
Proof using.
  induction 1 as [|c s ts _ _ IH|s ts _ _ IH|s d n ts _ Hts _]; cbn [ntoks DstSpec.expansion]; intros Hn first; [done|by rewrite IH|by rewrite IH|]. pose proof (ntoks_len _ _ Hts). lia.
Qed.
Lemma no_origin ts : ntoks ts = 0 -> has_origin ts = false.
Proof using.
  assert (Hp : forall ts, 0 <= ntoks ts) by (intros x; induction x as [|[] ? IH]; cbn; lia).
  induction ts as [|[c|d] ts IH]; cbn; [done|auto|]. specialize (Hp ts). lia.
Qed.

(** What [expand_dynamic_string_token] returns, when the check of a privileged program has an answer. *)
Lemma expand_run l is_rtld input : nonzero input -> strings (known l) -> (dm_origin l = NoOrigin -> dm_unnamed l || is_rtld = true) -> fits l input ->
  exists ts, toks input ts /\ let check := has_origin ts && (enable_secure && bool_decide (dm_type (known l) = lt_executable)) in
  let r := expand_dynamic_string_token system_dirs enable_secure dl_platform dl_dst_lib dl_platformlen get_origin malloc l is_rtld input in
  (exists l', r = Ok (None, l') /\ (l' = l \/ l' = known l) /\ exists n, 0 <= n /\ malloc n = None) \/
  (exists mem l', r = Ok (Some mem, l') /\ (l' = l \/ l' = known l) /\ c_string mem = default [] (expansion (known l) true ts) /\ 0 ∈ mem /\ (check = true -> expansion (known l) true ts = None)) \/
  check = true /\ exists out mem0 c tl, (exists n, malloc n = Some mem0) /\ expansion (known l) true ts = Some out /\ nonzero out /\ (Forall (fun c => c = 0) mem0 -> Forall (fun c => c = 0) (c :: tl)) /\
        r = (trusted ← is_trusted_path_normalize system_dirs (out ++ c :: tl) (Z.of_nat (length out)); mem ← (if (trusted : bool) then Ok (out ++ 0 :: tl) else wr (out ++ c :: tl) 0 0); mret (Some mem, known l)).
Proof using Hplatform Hmalloc.
  intros Hz Hs Ho Hf. destruct (toks_exist input) as [ts Ht]. exists ts. split; [done|]. cbv zeta. set (check := has_origin ts && (enable_secure && bool_decide (dm_type (known l) = lt_executable))).
  unfold expand_dynamic_string_token, _dl_dst_count. rewrite (count_toks _ _ Ht) by lia. cbn [mbind res_bind].
  destruct (Z.eqb_spec (ntoks ts) 0) as [E|E].
  - destruct (malloc (Z.of_nat (length input) + 1)) as [mem|] eqn:Em; [|left; exists l; split; [done|split; [by left|eexists; split; [|exact Em]; lia]]]. apply Hmalloc in Em. rewrite store_spec by (rewrite ?length_app; cbn [length]; lia).
    cbn [mbind res_bind]. right. left. eexists _, l. split; [reflexivity|]. split; [by left|]. rewrite (no_tokens input ts (known l) Ht E). split.
    + change (Z.to_nat 0) with 0%nat. rewrite take_0, app_nil_l, <- app_assoc. cbn [app]. by apply c_string_app.
    + split; [set_solver|]. unfold check. rewrite no_origin by done. done.
  - destruct (required_spec l is_rtld input ts Ht Ho Hf E) as [-> Hb]. cbn [mbind res_bind]. pose proof (ntoks_len input ts Ht) as Hlen. assert (Hx : 0 <= extra dl_platform dl_dst_lib (known l)) by (unfold extra; lia). rewrite u64_small by nia.
    destruct (malloc (Z.of_nat (length input) + ntoks ts * extra dl_platform dl_dst_lib (known l) + 1)) as [mem|] eqn:Em; [|left; exists (known l); split; [done|split; [by right|eexists; split; [|exact Em]; nia]]]. pose proof (Hmalloc _ _ Em) as Hm.
    pose proof (substitute_run (known l) input ts mem Ht Hz ltac:(intros ->; inversion Ht; subst; done) Hs ltac:(lia)) as H. destruct (expansion (known l) true ts) as [out|].
    + destruct H as (Hzo & c & tl & Hzero & ->). fold check. destruct check eqn:Ec.
      * right. right. split; [done|]. exists out, mem, c, tl. split; [by eexists|]. split; [done|]. split; [done|]. split; [done|]. by rewrite bind_assoc.
      * cbn [mbind res_bind mret res_ret]. right. left. eexists _, (known l). split; [reflexivity|]. split; [by right|]. split; [by rewrite c_string_app|]. split; [set_solver|done].
    + destruct H as (mem' & -> & Hc & H0). cbn [mbind res_bind]. right. left. exists mem', (known l). split; [done|]. split; [by right|]. by split.
Qed.

(** In a privileged program [$ORIGIN] is expanded at the start of a path only. *)
Lemma origin_later l ts : enable_secure = true -> forall out, expansion l false ts = Some out -> has_origin ts = false.
Proof using.
  intros Hs. induction ts as [|[c|d] ts IH]; intros out; cbn [DstSpec.expansion]; [done|..].
  - destruct (expansion l false ts) as [o|]; [|done]. intros _. by apply (IH o).
  - destruct (value enable_secure dl_platform dl_dst_lib l false ts d) as [v|] eqn:Ev; [|done]. cbn [mbind option_bind]. destruct (expansion l false ts) as [o|]; [|done]. intros _.
    destruct d; [cbn in Ev; by rewrite Hs in Ev|by apply (IH o)|by apply (IH o)].
Qed.
Lemma origin_first l ts out : enable_secure = true -> expansion l true ts = Some out -> has_origin ts = true -> exists path, dm_origin l = Origin path /\ path `prefix_of` out.
Proof using.
  intros Hs. destruct ts as [|[c|d] ts]; cbn [DstSpec.expansion]; [done|..].
  - destruct (expansion l false ts) as [o|] eqn:E; [|done]. intros _ Ho. cbn in Ho. by rewrite (origin_later l ts Hs o E : existsb _ _ = _) in Ho.
  - destruct (value enable_secure dl_platform dl_dst_lib l true ts d) as [v|] eqn:Ev; [|done]. cbn [mbind option_bind]. destruct (expansion l false ts) as [o|] eqn:E; [|done]. intros [= <-] Ho.
    pose proof (origin_later l ts Hs o E) as Hno. unfold has_origin in *. cbn [existsb] in Ho. rewrite Hno in Ho. destruct d; [|done|done]. cbn in Ev.
    destruct (enable_secure && negb (ends ts)); [done|]. destruct (dm_origin l) as [| |path]; [done|done|]. injection Ev as <-. exists path. split; [done|]. by exists o.
Qed.

(** C28. Unless the path is one of the main program of a privileged process, its expansion fits in the memory that is requested for it:
    [expand_dynamic_string_token] writes inside its block, and what it
    leaves there is the path with its tokens replaced, or the empty string when one of them has no replacement; it fails only when there is no
    memory.  The origin that was asked for is the only change to the object.
    This is for strings without null characters (the path, the origin, the platform and the name of the library directory), with
    [dl_platformlen] the length of the platform, for an object that has its origin or is the unnamed main program or the linker
    itself, for a path whose length with every character replaced by a longest token stays below 2^64, and for a [malloc] that gives blocks of the
    size asked for.  The paths of the main program of a privileged process (set-uid, [lt_executable]) are excluded: there the result is compared with the
    trusted directories before it is terminated ([check_without_null]), and it may be dropped ([privileged_origin_trusted]). *)
Theorem expansion_fits l is_rtld input : nonzero input -> strings (known l) -> (dm_origin l = NoOrigin -> dm_unnamed l || is_rtld = true) -> fits l input ->
  enable_secure && bool_decide (dm_type l = lt_executable) = false ->
  match expand_dynamic_string_token system_dirs enable_secure dl_platform dl_dst_lib dl_platformlen get_origin malloc l is_rtld input with
  | Ok (Some mem, l') => (l' = l \/ l' = known l) /\ exists ts, toks input ts /\ c_string mem = default [] (expansion (known l) true ts)
  | Ok (None, l') => (l' = l \/ l' = known l) /\ exists n, malloc n = None
  | _ => False
  end.
Proof using Hplatform Hmalloc.
  intros Hz Hs Ho Hf Hsec. destruct (expand_run l is_rtld input Hz Hs Ho Hf) as (ts & Ht & H). cbv zeta in H.
  assert (Hty : dm_type (known l) = dm_type l) by (unfold known; by destruct (dm_origin l)). rewrite Hty, Hsec, andb_false_r in H.
  destruct H as [(l' & -> & Hl & n & _ & Hm)|[(mem & l' & -> & Hl & Hc & _ & _)|[? _]]]; [split; [done|by exists n]| |done]. split; [done|]. by exists ts.
Qed.

(** C27. Privileged programs: when fresh memory is zero, a path with [$ORIGIN] that the main program names is expanded to the empty string, or
    to a path that starts with the origin and, if it has no doubled slash, leads through one of the trusted directories. *)
Theorem privileged_origin_trusted l is_rtld input : enable_secure = true -> dm_type l = lt_executable -> Forall (Forall component) dirs ->
  (forall n mem, malloc n = Some mem -> Forall (fun c => c = 0) mem) ->
  nonzero input -> strings (known l) -> (dm_origin l = NoOrigin -> dm_unnamed l || is_rtld = true) -> fits l input ->
  match expand_dynamic_string_token system_dirs enable_secure dl_platform dl_dst_lib dl_platformlen get_origin malloc l is_rtld input with
  | Ok (Some mem, _) => exists ts, toks input ts /\ (has_origin ts = true -> let r := c_string mem in
      r = [] \/ (exists path, dm_origin (known l) = Origin path /\ path `prefix_of` r) /\ (head r = Some slash -> ~ double_slash r -> Exists (fun d => d `prefix_of` resolve r) dirs))
  | Ok (None, _) => exists n, malloc n = None
  | _ => False
  end.
Proof using Hplatform Hmalloc.
  intros Hsec Hexe Hdirs Hzero Hz Hs Ho Hf. destruct (expand_run l is_rtld input Hz Hs Ho Hf) as (ts & Ht & H). cbv zeta in H.
  assert (Hty : dm_type (known l) = lt_executable) by (unfold known; by destruct (dm_origin l)). assert (Hch : enable_secure && bool_decide (dm_type (known l) = lt_executable) = true) by (by rewrite Hsec, Hty).
  rewrite Hch, andb_true_r in H.
  destruct H as [(l' & -> & _ & n & _ & Hm)|[(mem & l' & -> & _ & Hc & _ & Hno)|(Hor & out & mem0 & c & tl & [n Hm] & Eo & Hzo & Hfill & ->)]]; [by exists n| |].
  - exists ts. split; [done|]. intros Hor. left. by rewrite Hc, (Hno Hor).
  - apply Hzero in Hm. apply Hfill in Hm. apply Forall_cons in Hm as [-> _]. destruct (trusted_total system_dirs out tl Hzo) as [[] Eb]; rewrite Eb; cbn [mbind res_bind mret res_ret].
    + exists ts. split; [done|]. intros _. cbv zeta. rewrite c_string_app by done. right. split; [by apply (origin_first (known l) ts out)|]. intros Hh Hd.
      rewrite (trusted_spec dirs out tl Hdirs Hzo Hh Hd) in Eb. injection Eb as Eb. by apply bool_decide_eq_true in Eb.
    + rewrite wr_spec by (rewrite length_app; cbn [length]; lia). cbn [mbind res_bind]. exists ts. split; [done|]. intros _. by left.
Qed.
End Expand.
