(* ===== verification/DstExamples.v ===== *)
(** * Dynamic string tokens: examples

    Witnesses, and paths with which the check for trusted directories goes wrong. *)

From S2P Require Import Prelude LinkMap Dst DstSpec DstTrust DstSafety.

Module Example20.
Definition dirs : list (list (list Z)) := [[chars "lib64"]; [chars "usr"; chars "lib64"]].
(** Memory full of [x], as much as is asked for. *)
Definition filled (x : Z) (n : Z) : option (list Z) := if n <? 0 then None else Some (replicate (Z.to_nat n) x).
Lemma filled_len x n mem : filled x n = Some mem -> Z.of_nat (length mem) = n.
Proof. unfold filled. destruct (Z.ltb_spec n 0); [done|]. intros [= <-]. rewrite length_replicate. lia. Qed.
Definition app_dir : list Z := chars "/usr/lib64/app".
Definition plugin : dst_map := mkDst lt_loaded false (Origin app_dir).
Definition main_map : dst_map := mkDst lt_executable true NoOrigin.
Definition expand (secure : bool) (malloc : Z -> option (list Z)) (l : dst_map) (path : string) : res (option (list Z) * dst_map) :=
  expand_dynamic_string_token (dir_string <$> dirs) secure (Some (chars "haswell")) (chars "lib64") 7 (Origin app_dir) malloc l false (chars path).
Definition result (r : res (option (list Z) * dst_map)) : res (option (list Z)) := x ← r; mret (option_map c_string x.1).

Lemma dirs_components : Forall (Forall component) dirs.
Proof. repeat constructor; try done; apply (bool_decide_unpack _); by vm_compute. Qed.
Lemma plain_nonzero (s : list Z) : bool_decide (nonzero s) = true -> nonzero s.
Proof. by intros ?%bool_decide_eq_true. Qed.

Lemma expansion_fits_witness :
  match expand false (filled 65) plugin "$ORIGIN/../${LIB}/$PLATFORM/$x" with
  | Ok (Some mem, l') => c_string mem = chars "/usr/lib64/app/../lib64/haswell/$x" /\ (l' = plugin \/ l' = known (Origin app_dir) plugin) /\
      exists ts, toks (chars "$ORIGIN/../${LIB}/$PLATFORM/$x") ts /\ c_string mem = default [] (expansion false (Some (chars "haswell")) (chars "lib64") (known (Origin app_dir) plugin) true ts)
  | _ => False end.
Proof.
  pose proof (expansion_fits dirs false (Some (chars "haswell")) (chars "lib64") 7 (Origin app_dir) (filled 65) eq_refl (filled_len 65) plugin false (chars "$ORIGIN/../${LIB}/$PLATFORM/$x")
    ltac:(apply plain_nonzero; by vm_compute) ltac:(split; [|split]; apply plain_nonzero; by vm_compute) ltac:(done) ltac:(by vm_compute) eq_refl) as H.
  change (expand_dynamic_string_token _ _ _ _ _ _ _ _ _ _) with (expand false (filled 65) plugin "$ORIGIN/../${LIB}/$PLATFORM/$x") in H.
  assert (E : result (expand false (filled 65) plugin "$ORIGIN/../${LIB}/$PLATFORM/$x") = Ok (Some (chars "/usr/lib64/app/../lib64/haswell/$x"))) by (by vm_compute).
  destruct (expand false (filled 65) plugin "$ORIGIN/../${LIB}/$PLATFORM/$x") as [[[mem|] l']| | | |]; [|done..]. split; [by injection E|done].
Defined.

Lemma privileged_origin_trusted_witness :
  match expand true (filled 0) main_map "$ORIGIN/../plugins" with
  | Ok (Some mem, _) => c_string mem = chars "/usr/lib64/app/../plugins" /\ exists ts, toks (chars "$ORIGIN/../plugins") ts /\ (has_origin ts = true -> let r := c_string mem in
      r = [] \/ (exists path, dm_origin (known (Origin app_dir) main_map) = Origin path /\ path `prefix_of` r) /\ (head r = Some slash -> ~ double_slash r -> Exists (fun d => d `prefix_of` resolve r) dirs))
  | _ => False end.
Proof.
  pose proof (privileged_origin_trusted dirs true (Some (chars "haswell")) (chars "lib64") 7 (Origin app_dir) (filled 0) eq_refl (filled_len 0) main_map false (chars "$ORIGIN/../plugins")
    eq_refl eq_refl dirs_components ltac:(intros n mem; unfold filled; destruct (n <? 0); [done|]; intros [= <-]; by apply Forall_replicate)
    ltac:(apply plain_nonzero; by vm_compute) ltac:(split; [|split]; apply plain_nonzero; by vm_compute) ltac:(done) ltac:(by vm_compute)) as H.
  change (expand_dynamic_string_token _ _ _ _ _ _ _ _ _ _) with (expand true (filled 0) main_map "$ORIGIN/../plugins") in H.
  assert (E : result (expand true (filled 0) main_map "$ORIGIN/../plugins") = Ok (Some (chars "/usr/lib64/app/../plugins"))) by (by vm_compute).
  destruct (expand true (filled 0) main_map "$ORIGIN/../plugins") as [[[mem|] l']| | | |]; [|done..]. split; [by injection E|done].
Defined.

(** A path that leaves the trusted directories is refused. *)
Lemma untrusted_refused : result (expand true (filled 0) main_map "$ORIGIN/../../../tmp") = Ok (Some []).
Proof. by vm_compute. Qed.

(** Behind a doubled slash [..] takes back the slash only: the path is accepted, though it leads to [/tmp]. *)
Lemma doubled_slash_trusted : result (expand true (filled 0) main_map "$ORIGIN//..//..//..//tmp") = Ok (Some (chars "/usr/lib64/app//..//..//..//tmp")) /\
  resolve (chars "/usr/lib64/app//..//..//..//tmp") = [chars "tmp"].
Proof. by vm_compute. Qed.

(** The check runs before the null is written.  With memory that is not zero it reads on behind the path, and writes behind its array. *)
Lemma check_without_null : expand true (filled 65) main_map "$ORIGIN/../plugins" = Undef.
Proof. by vm_compute. Qed.

(** A library of a privileged program is not checked at all. *)
Lemma library_not_checked : result (expand true (filled 0) plugin "$ORIGIN/../../../tmp") = Ok (Some (chars "/usr/lib64/app/../../../tmp")).
Proof. by vm_compute. Qed.
End Example20.
