(* ===== verification/Paths.v ===== *)
(** * Search paths

    The directories in which the loader looks for a file ([elf/dl-load.c]): [DT_RPATH], [DT_RUNPATH] and [LD_LIBRARY_PATH] are taken apart
    once, every directory has one record for all paths, and directories that turn out not to exist are not tried again.

    A directory is the number of its record.  Opening a file, [stat], the cache of [ldconfig] and [malloc] are parameters; the number of
    the request is an argument of [malloc].  Memory that is given back and the texts for debugging output are not modelled, nor is auditing
    apart from its effect on the records. *)

From S2P Require Import Prelude LinkMap Dst.

(** ** State *)
Inductive dir_status := unknown | nonexisting | existing.
#[export] Instance dir_status_eq_dec : EqDecision dir_status.
Proof. solve_decision. Defined.

Abbreviation dirid := nat (only parsing).
(** [r_search_path_elem] *)
Record selem := mkDir { sd_name : list Z; sd_status : list dir_status }.
(** [r_search_path_struct]: not looked at yet (null), no directories (-1), or the directories *)
Inductive spath := PUnset | PNone | PDirs (ds : list dirid).

Record pobj := mkPobj {
  po_dst : dst_map;                  (* l_type, l_origin *)
  po_name : list Z;                  (* l_name *)
  po_libnames : list (list Z);       (* l_libname *)
  po_soname : option (list Z);
  po_soname_added : bool;
  po_hidden : bool;                  (* l_faked or l_removed *)
  po_ns : nat;
  po_loader : option mapid;
  po_rpath : option (list Z);        (* DT_RPATH *)
  po_runpath : option (list Z);      (* DT_RUNPATH *)
  po_rpath_dirs : spath;
  po_runpath_dirs : spath;
  po_nodeflib : bool }.              (* DF_1_NODEFLIB *)

Record pstate := mkPS {
  ps_objs : gmap mapid pobj;
  ps_loaded : list (list mapid);     (* the objects of each namespace *)
  ps_elems : list selem;
  ps_all : list dirid;               (* GL(dl_all_dirs) *)
  ps_maxlen : Z;                     (* max_dirnamelen *)
  ps_env : spath;                    (* __rtld_env_path_list *)
  ps_system : spath;                 (* __rtld_search_dirs *)
  ps_errno : Z;
  ps_other_class : bool;             (* found_other_class *)
  ps_requests : nat }.

Definition set_objs (x : gmap mapid pobj) (s : pstate) : pstate := mkPS x (ps_loaded s) (ps_elems s) (ps_all s) (ps_maxlen s) (ps_env s) (ps_system s) (ps_errno s) (ps_other_class s) (ps_requests s).
Definition set_elems (x : list selem) (s : pstate) : pstate := mkPS (ps_objs s) (ps_loaded s) x (ps_all s) (ps_maxlen s) (ps_env s) (ps_system s) (ps_errno s) (ps_other_class s) (ps_requests s).
Definition set_all (x : list dirid) (s : pstate) : pstate := mkPS (ps_objs s) (ps_loaded s) (ps_elems s) x (ps_maxlen s) (ps_env s) (ps_system s) (ps_errno s) (ps_other_class s) (ps_requests s).
Definition set_maxlen (x : Z) (s : pstate) : pstate := mkPS (ps_objs s) (ps_loaded s) (ps_elems s) (ps_all s) x (ps_env s) (ps_system s) (ps_errno s) (ps_other_class s) (ps_requests s).
Definition set_env (x : spath) (s : pstate) : pstate := mkPS (ps_objs s) (ps_loaded s) (ps_elems s) (ps_all s) (ps_maxlen s) x (ps_system s) (ps_errno s) (ps_other_class s) (ps_requests s).
Definition set_system (x : spath) (s : pstate) : pstate := mkPS (ps_objs s) (ps_loaded s) (ps_elems s) (ps_all s) (ps_maxlen s) (ps_env s) x (ps_errno s) (ps_other_class s) (ps_requests s).
Definition set_errno (x : Z) (s : pstate) : pstate := mkPS (ps_objs s) (ps_loaded s) (ps_elems s) (ps_all s) (ps_maxlen s) (ps_env s) (ps_system s) x (ps_other_class s) (ps_requests s).
Definition set_other (x : bool) (s : pstate) : pstate := mkPS (ps_objs s) (ps_loaded s) (ps_elems s) (ps_all s) (ps_maxlen s) (ps_env s) (ps_system s) (ps_errno s) x (ps_requests s).
Definition set_requests (x : nat) (s : pstate) : pstate := mkPS (ps_objs s) (ps_loaded s) (ps_elems s) (ps_all s) (ps_maxlen s) (ps_env s) (ps_system s) (ps_errno s) (ps_other_class s) x.

Definition p_get (m : mapid) : M pstate pobj := fun s => match ps_objs s !! m with Some o => Ret o s | None => Wild end.
Definition p_set (m : mapid) (f : pobj -> pobj) : M pstate unit := modify (fun s => set_objs (alter f m (ps_objs s)) s).
Definition with_dst (d : dst_map) (o : pobj) : pobj := mkPobj d (po_name o) (po_libnames o) (po_soname o) (po_soname_added o) (po_hidden o) (po_ns o) (po_loader o) (po_rpath o) (po_runpath o) (po_rpath_dirs o) (po_runpath_dirs o) (po_nodeflib o).
Definition with_names (ns : list (list Z)) (added : bool) (o : pobj) : pobj := mkPobj (po_dst o) (po_name o) ns (po_soname o) added (po_hidden o) (po_ns o) (po_loader o) (po_rpath o) (po_runpath o) (po_rpath_dirs o) (po_runpath_dirs o) (po_nodeflib o).

(** The [r_search_path_struct] that is used. *)
Inductive which := Rpath (m : mapid) | Runpath (m : mapid) | EnvPath | SystemPath.
Definition with_spath (runpath : bool) (p : spath) (o : pobj) : pobj :=
  mkPobj (po_dst o) (po_name o) (po_libnames o) (po_soname o) (po_soname_added o) (po_hidden o) (po_ns o) (po_loader o) (po_rpath o) (po_runpath o)
    (if runpath then po_rpath_dirs o else p) (if runpath then p else po_runpath_dirs o) (po_nodeflib o).
Definition get_spath (w : which) : M pstate spath :=
  match w with
  | Rpath m => o ← p_get m; mret (po_rpath_dirs o)
  | Runpath m => o ← p_get m; mret (po_runpath_dirs o)
  | EnvPath => gets ps_env
  | SystemPath => gets ps_system
  end.
Definition put_spath (w : which) (p : spath) : M pstate unit :=
  match w with
  | Rpath m => p_set m (with_spath false p)
  | Runpath m => p_set m (with_spath true p)
  | EnvPath => modify (set_env p)
  | SystemPath => modify (set_system p)
  end.

Definition ENOENT : Z := 2.
Definition EACCES : Z := 13.
Definition ENOTDIR : Z := 20.
Definition colon : Z := 58.
Definition semicolon : Z := 59.

(** What [open_verify] returns: a descriptor, or [errno] and whether the file is for another ELF class *)
Inductive opened := Opened (fd : Z) | NotOpened (errno : Z) (other_class : bool).

Section Paths.
Context (malloc : nat -> Z -> option (list Z)).
(** For dynamic string tokens. *)
Context (system_dirs : list (list Z)) (enable_secure : bool) (dl_platform : option (list Z)) (dl_dst_lib : list Z) (dl_platformlen : Z) (get_origin : origin) (is_rtld : mapid -> bool).
(** [capstr], [max_capstrlen] *)
Context (capstr : list (list Z)) (max_capstrlen : Z).
(** [GLRO(dl_inhibit_rpath)] *)
Context (dl_inhibit_rpath : option (list Z)).

Definition p_malloc (n : Z) : M pstate (option (list Z)) := fun s => Ret (malloc (ps_requests s) n) (set_requests (S (ps_requests s)) s).

(** ** Directories of a path *)

(** The strings [strsep] returns one after another. *)
Fixpoint strsep (sep : list Z) (s : list Z) : list (list Z) :=
  match s with
  | [] => [[]]
  | c :: s =>
      if bool_decide (c ∈ sep) then [] :: strsep sep s
      else match strsep sep s with [] => [[c]] | x :: xs => (c :: x) :: xs end
  end.

(** [while (len > 1 && cp[len - 1] == '/')] on the characters in reverse *)
Fixpoint strip_slashes (r : list Z) : list Z :=
  match r with
  | c :: (_ :: _) as r' => if c =? slash then strip_slashes r' else r
  | _ => r
  end.
(** The name of a directory, and the memory with the slash that was added. *)
Definition dir_name (cp : list Z) : res (list Z) :=
  let r := strip_slashes (reverse (c_string cp)) in
  if bool_decide (head r = Some slash) then mret (reverse r)
  else wr cp (Z.of_nat (length r)) slash;; mret (reverse r ++ [slash]).

(** [for (dirp = GL(dl_all_dirs); ..)] *)
Fixpoint find_dir (elems : list selem) (all : list dirid) (name : list Z) : option dirid :=
  match all with
  | [] => None
  | d :: all => match elems !! d with
                | Some e => if bool_decide (sd_name e = name) then Some d else find_dir elems all name
                | None => find_dir elems all name
                end
  end.

(** The array has room for [room] entries, the last of which is the null at the end. *)
Definition push_dir (room : Z) (d : dirid) (result : list dirid) : res (list dirid) := if Z.of_nat (length result) + 1 <? room then mret (result ++ [d]) else Undef.

Definition enter_dir (where_len : Z) (room : Z) (name : list Z) (result : list dirid) : M pstate (list dirid) :=
  s ← gets id;
  match find_dir (ps_elems s) (ps_all s) name with
  | Some d => if bool_decide (d ∈ result) then mret result else lift (push_dir room d result)
  | None =>
      p ← p_malloc (40 + Z.of_nat (length capstr) * 4 + where_len + Z.of_nat (length name) + 1);
      match p with
      | None => lift (Signal "" "cannot create cache for search path")
      | Some _ =>
          let d := length (ps_elems s) in
          let init_val := if bool_decide (head name = Some slash) then unknown else existing in
          modify (fun s => set_all (d :: ps_all s) (set_elems (ps_elems s ++ [mkDir name (replicate (length capstr) init_val)])
            (set_maxlen (Z.max (ps_maxlen s) (Z.of_nat (length name))) s)));;
          lift (push_dir room d result)
      end
  end.

Fixpoint fillin_pieces (l : mapid) (where_len room : Z) (ps : list (list Z)) (result : list dirid) : M pstate (list dirid) :=
  match ps with
  | [] => lift (if Z.of_nat (length result) <? room then Ok result else Undef)
  | [] :: ps => result ← enter_dir where_len room [] result; fillin_pieces l where_len room ps result
  | cp :: ps =>
      o ← p_get l;
      n ← gets ps_requests;
      '(mem, d) ← lift (expand_dynamic_string_token system_dirs enable_secure dl_platform dl_dst_lib dl_platformlen get_origin (malloc n) (po_dst o) (is_rtld l) cp);
      modify (set_requests (S n));;
      p_set l (with_dst d);;
      match mem with
      | None => fillin_pieces l where_len room ps result
      | Some mem =>
          if bool_decide (c_string mem = []) then fillin_pieces l where_len room ps result
          else
            name ← lift (dir_name mem);
            result ← enter_dir where_len room name result;
            fillin_pieces l where_len room ps result
      end
  end.
Definition fillin_rpath (l : mapid) (rpath sep : list Z) (where_len room : Z) : M pstate (list dirid) := fillin_pieces l where_len room (strsep sep rpath) [].

(** Behind the characters two strings have in common at their start. *)
Fixpoint skip_common (inhp wp : list Z) : list Z * list Z :=
  match inhp, wp with
  | i :: inhp', w :: wp' => if i =? w then skip_common inhp' wp' else (inhp, wp)
  | _, _ => (inhp, wp)
  end.
Fixpoint inhibited (fuel : nat) (inhp where_ : list Z) : res bool :=
  match fuel with
  | O => Diverge
  | S fuel =>
      let '(inhp, wp) := skip_common inhp where_ in
      if bool_decide (wp = []) && ((at_ inhp 0 =? 0) || (at_ inhp 0 =? colon)) then mret true
      else match after_char colon inhp with
           | None | Some [] => mret false
           | Some inhp => inhibited fuel inhp where_
           end
  end.

Definition decompose_rpath (w : which) (rpath : list Z) (l : mapid) : M pstate bool :=
  o ← p_get l;
  inh ← match dl_inhibit_rpath with
        | Some inhp => if enable_secure then mret false else lift (inhibited (S (length inhp)) inhp (po_name o))
        | None => mret false
        end;
  if (inh : bool) || bool_decide (rpath = []) then put_spath w PNone;; mret false
  else
    copy ← p_malloc (Z.of_nat (length rpath) + 1);
    match copy with
    | None => lift (Signal "" "cannot create RUNPATH/RPATH copy")
    | Some _ =>
        let nelems := Z.of_nat (length (filter (fun c => c = colon) rpath)) in
        result ← p_malloc ((nelems + 1 + 1) * 8);
        match result with
        | None => lift (Signal "" "cannot create cache for search path")
        | Some _ =>
            ds ← fillin_rpath l rpath [colon] (Z.of_nat (length (po_name o)) + 1) (nelems + 1 + 1);
            if bool_decide (ds = []) then put_spath w PNone;; mret false
            else put_spath w (PDirs ds);; mret true
        end
    end.

(** [runpath]: whether [DT_RUNPATH] or [DT_RPATH] is meant *)
Definition cache_rpath (l : mapid) (runpath : bool) : M pstate bool :=
  let w := if runpath then Runpath l else Rpath l in
  sp ← get_spath w;
  match sp with
  | PNone => mret false
  | PDirs _ => mret true
  | PUnset =>
      o ← p_get l;
      match (if runpath then po_runpath o else po_rpath o) with
      | None => put_spath w PNone;; mret false
      | Some rpath => decompose_rpath w rpath l
      end
  end.

(** ** Start *)
(** The record of the loader, for runs without a main program; [llp] is [LD_LIBRARY_PATH]. *)
Definition _dl_init_paths (rtld_map : mapid) (llp : option (list Z)) : M pstate unit :=
  p ← p_malloc ((Z.of_nat (length system_dirs) + 1) * 8);
  q ← match p with None => lift (Signal "" "cannot create search path array") | Some _ =>
        p_malloc (Z.of_nat (length system_dirs) * ((2 * 40 - 1 + Z.of_nat (length capstr) * 4) / 40) * 40) end;
  (match q with None => lift (Signal "" "cannot create cache for search path") | Some _ => mret tt end);;
  lift (if bool_decide (system_dirs = []) then Undef else mret tt);;
  lift (c_assert (forallb (fun d => bool_decide (head d = Some slash)) system_dirs) "pelem->dirname[0] == '/'");;
  s ← gets id;
  let ids := seq (length (ps_elems s)) (length system_dirs) in
  modify (fun s => set_system (PDirs ids) (set_all ids (set_maxlen (foldr Z.max 0 (Z.of_nat ∘ length <$> system_dirs))
    (set_elems (ps_elems s ++ ((fun d => mkDir d (replicate (length capstr) unknown)) <$> system_dirs)) s))));;
  let l := default rtld_map (head (default [] (head (ps_loaded s)))) in
  o ← p_get l;
  lift (c_assert (bool_decide (dm_type (po_dst o) <> lt_loaded)) "l->l_type != lt_loaded");;
  (match po_runpath o with
   | Some rp => decompose_rpath (Runpath l) rp l;; put_spath (Rpath l) PNone
   | None =>
       put_spath (Runpath l) PNone;;
       match po_rpath o with
       | Some rp => decompose_rpath (Rpath l) rp l;; mret tt
       | None => put_spath (Rpath l) PNone
       end
   end);;
  match llp with
  | None | Some [] => put_spath EnvPath PNone
  | Some llp =>
      let nllp := 1 + Z.of_nat (length (filter (fun c => c = colon \/ c = semicolon) llp)) in
      p ← p_malloc ((nllp + 1) * 8);
      match p with
      | None => lift (Signal "" "cannot create cache for search path")
      | Some _ =>
          ds ← fillin_rpath l llp [colon; semicolon] 0 (nllp + 1);
          put_spath EnvPath (if bool_decide (ds = []) then PNone else PDirs ds)
      end
  end.

(** ** Searching a path *)
(** [open_verify] of a path; [stat]: whether there is a directory of that name, or [errno]; whether the set-user-ID bit of an open file is set *)
Context (open_verify : list Z -> res opened) (stat_dir : list Z -> bool + Z) (is_suid : Z -> bool).
(** [l_auditing] of the objects of a namespace *)
Context (auditing : nat -> bool).

Definition set_status (d : dirid) (cnt : nat) (st : dir_status) : M pstate unit :=
  modify (fun s => set_elems (alter (fun e => mkDir (sd_name e) (<[cnt := st]> (sd_status e))) d (ps_elems s)) s).

(** A file in one of the directories below [d]: the descriptor and the name if there is one, and [here_any]. *)
Fixpoint try_caps (name : list Z) (secure : bool) (bufsize : Z) (known_ns : bool) (d : dirid) (cnt : nat) (caps : list (list Z)) (here_any : bool) : M pstate (option (Z * list Z) * bool) :=
  match caps with
  | [] => mret (None, here_any)
  | cap :: caps =>
      s ← gets id;
      e ← lift (res_of_option (ps_elems s !! d));
      st ← lift (res_of_option (sd_status e !! cnt));
      if bool_decide (st = nonexisting) then try_caps name secure bufsize known_ns d (S cnt) caps here_any
      else
        let path := sd_name e ++ cap ++ name in
        lift (if bufsize <? Z.of_nat (length path) + 1 then Undef else mret tt);;
        r ← lift (open_verify path);
        fd ← match r with
             | Opened fd => mret (Some fd)
             | NotOpened err other => modify (fun s => set_errno err (set_other (ps_other_class s || other) s));; mret None
             end;
        st ← (if bool_decide (st = unknown) then
                match fd with
                | Some _ => set_status d cnt existing;; mret existing
                | None =>
                    if known_ns then
                      match stat_dir (sd_name e ++ cap) with
                      | inl true => set_status d cnt existing;; mret existing
                      | inl false => set_status d cnt nonexisting;; mret nonexisting
                      | inr err => modify (set_errno err);; set_status d cnt nonexisting;; mret nonexisting
                      end
                    else mret unknown
                end
              else mret st);
        let here_any := here_any || bool_decide (st <> nonexisting) in
        match fd with
        | Some fd =>
            if secure && enable_secure && negb (is_suid fd) then
              modify (set_errno ENOENT);; try_caps name secure bufsize known_ns d (S cnt) caps here_any
            else mret (Some (fd, path), here_any)
        | None => try_caps name secure bufsize known_ns d (S cnt) caps here_any
        end
  end.

Fixpoint try_dirs (name : list Z) (secure : bool) (bufsize : Z) (known_ns : bool) (ds : list dirid) (any : bool) : M pstate (option (Z * list Z) + bool) :=
  match ds with
  | [] => mret (inr any)
  | d :: ds =>
      '(r, here_any) ← try_caps name secure bufsize known_ns d 0 capstr false;
      match r with
      | Some (fd, path) =>
          p ← p_malloc (Z.of_nat (length path) + 1);
          mret (inl (match p with Some _ => Some (fd, path) | None => None end))
      | None =>
          err ← gets ps_errno;
          if here_any && negb (err =? ENOENT) && negb (err =? EACCES) && negb (err =? ENOTDIR) then mret (inl None)
          else try_dirs name secure bufsize known_ns ds (any || here_any)
      end
  end.

Definition open_path (name : list Z) (mode : Z) (w : which) (loader : option mapid) : M pstate (option (Z * list Z)) :=
  sp ← get_spath w;
  match sp with
  | PUnset => mret None
  | PNone | PDirs [] => lift Undef
  | PDirs ds =>
      maxlen ← gets ps_maxlen;
      known_ns ← match loader with Some m => o ← p_get m; mret (negb (auditing (po_ns o))) | None => mret true end;
      r ← try_dirs name (negb (Z.land mode 0x04000000 =? 0)) (maxlen + max_capstrlen + (Z.of_nat (length name) + 1)) known_ns ds false;
      match r with
      | inl r => mret r
      | inr any =>
          (match w with
           | Rpath _ | Runpath _ => if (any : bool) then mret tt else put_spath w PNone
           | _ => mret tt
           end);;
          mret None
      end
  end.

(** ** Finding a file *)
(** [_dl_load_cache_lookup]; [GLRO(dl_inhibit_cache)] *)
Context (cache_lookup : list Z -> option (list Z)) (dl_inhibit_cache : bool).

(** [for (l = loader; l; l = l->l_loader)]; the flag is [did_main_map]. *)
Fixpoint rpath_chain (fuel : nat) (name : list Z) (mode : Z) (loader main_map : option mapid) (l : option mapid) (did_main_map : bool) : M pstate (option (Z * list Z) * bool) :=
  match fuel with
  | O => lift Diverge
  | S fuel =>
      match l with
      | None => mret (None, did_main_map)
      | Some m =>
          c ← cache_rpath m false;
          r ← (if (c : bool) then open_path name mode (Rpath m) loader else mret None);
          match r with
          | Some _ => mret (r, did_main_map)
          | None =>
              o ← p_get m;
              rpath_chain fuel name mode loader main_map (po_loader o) (did_main_map || (c && bool_decide (l = main_map)))
          end
      end
  end.

(** [f] unless the file has been found. *)
Definition or_else (r : option (Z * list Z)) (f : M pstate (option (Z * list Z))) : M pstate (option (Z * list Z)) := match r with Some _ => mret r | None => f end.

(** The main program, when it is no object opened by [dlopen]. *)
Definition main_path (name : list Z) (mode : Z) (loader main_map : option mapid) (did_main_map : bool) (r : option (Z * list Z)) : M pstate (option (Z * list Z)) :=
  or_else r
    match main_map with
    | Some m =>
        o ← p_get m;
        if negb did_main_map && bool_decide (dm_type (po_dst o) <> lt_loaded) then
          c ← cache_rpath m false;
          if (c : bool) then open_path name mode (Rpath m) (match loader with Some _ => loader | None => Some m end) else mret None
        else mret None
    | None => mret None
    end.

Definition cached_file (name : list Z) (loader : option mapid) : M pstate (option (Z * list Z)) :=
  match cache_lookup name with
  | None => mret None
  | Some cached =>
      s ← gets id;
      nodeflib ← match loader, head (default [] (head (ps_loaded s))) with
                 | Some m, _ | None, Some m => o ← p_get m; mret (po_nodeflib o)
                 | None, None => mret false
                 end;
      if (nodeflib : bool) && existsb (fun d => bool_decide (take (length d) cached = d)) system_dirs then mret None
      else
        r ← lift (open_verify cached);
        match r with
        | Opened fd => mret (Some (fd, cached))
        | NotOpened err other => modify (fun s => set_errno err (set_other (ps_other_class s || other) s));; mret None
        end
  end.

(** The search of [_dl_map_new_object] for a name without a slash; no auditing. *)
Definition search (loader : option mapid) (name : list Z) (mode : Z) (nsid : nat) : M pstate (option (Z * list Z)) :=
  s ← gets id;
  let main_map := head (default [] (head (ps_loaded s))) in
  norun ← match loader with Some m => o ← p_get m; mret (bool_decide (po_runpath o = None)) | None => mret true end;
  r ← (if (norun : bool) then
         '(r, did_main_map) ← rpath_chain (S (size (ps_objs s))) name mode loader main_map loader false;
         main_path name mode loader main_map did_main_map r
       else mret None);
  r ← or_else r (sp ← gets ps_env;
                 match sp with
                 | PNone => mret None
                 | _ => open_path name mode EnvPath (match loader with Some _ => loader | None => main_map end)
                 end);
  r ← or_else r (match loader with
                 | Some m => c ← cache_rpath m true; if (c : bool) then open_path name mode (Runpath m) loader else mret None
                 | None => mret None
                 end);
  r ← or_else r (if (negb (Z.land mode 0x04000000 =? 0) && enable_secure) || dl_inhibit_cache then mret None else cached_file name loader);
  or_else r (let l := match loader with Some _ => loader | None => head (default [] (ps_loaded s !! nsid)) end in
             nodeflib ← match l with Some m => o ← p_get m; mret (po_nodeflib o) | None => mret false end;
             if (nodeflib : bool) then mret None
             else sp ← gets ps_system; match sp with PNone => mret None | _ => open_path name mode SystemPath l end).

(** A name with a slash is a path. *)
Definition open_name (loader : option mapid) (name : list Z) : M pstate (option (Z * list Z)) :=
  realname ← match loader with
             | Some l =>
                 o ← p_get l;
                 n ← gets ps_requests;
                 '(mem, d) ← lift (expand_dynamic_string_token system_dirs enable_secure dl_platform dl_dst_lib dl_platformlen get_origin (malloc n) (po_dst o) (is_rtld l) name);
                 modify (set_requests (S n));;
                 p_set l (with_dst d);;
                 mret (option_map c_string mem)
             | None => p ← p_malloc (Z.of_nat (length name) + 1); mret (match p with Some _ => Some name | None => None end)
             end;
  match realname with
  | None => mret None
  | Some realname =>
      r ← lift (open_verify realname);
      match r with
      | Opened fd => mret (Some (fd, realname))
      | NotOpened err other => modify (fun s => set_errno err (set_other (ps_other_class s || other) s));; mret None
      end
  end.

Definition text (s : list Z) : string := String.string_of_list_ascii ((fun c => Ascii.ascii_of_N (Z.to_N c)) <$> s).

(** [_dl_map_object_from_fd (name, origname, fd, .., realname, loader, ..)] *)
Context (map_object_from_fd : list Z -> Z -> list Z -> option mapid -> nat -> M pstate mapid).

(** Without [trace_mode]. *)
Definition _dl_map_new_object (loader : option mapid) (name : list Z) (mode : Z) (nsid : nat) : M pstate mapid :=
  modify (set_other false);;
  r ← (if bool_decide (slash ∈ name) then open_name loader name else search loader name mode nsid);
  let loader := if Z.land mode 0x10000000 =? 0 then loader else None in
  match r with
  | None =>
      other ← gets ps_other_class;
      lift (Signal (text name) (if (other : bool) then "wrong ELF class: ELFCLASS32" else "cannot open shared object file"))
  | Some (fd, realname) => map_object_from_fd name fd realname loader nsid
  end.

(** ** Objects that are there already *)
Definition _dl_name_match_p (name : list Z) (o : pobj) : bool := bool_decide (name = po_name o) || existsb (fun n => bool_decide (name = n)) (po_libnames o).

Definition add_name_to_object (l : mapid) (name : list Z) : M pstate unit :=
  o ← p_get l;
  if existsb (fun n => bool_decide (name = n)) (po_libnames o) then mret tt
  else
    p ← p_malloc (24 + (Z.of_nat (length name) + 1));
    match p with
    | None => lift (Signal (text name) "cannot allocate name record")
    | Some _ =>
        lift (c_assert (bool_decide (po_libnames o <> [])) "lastp != NULL");;
        p_set l (fun o => with_names (po_libnames o ++ [name]) (po_soname_added o) o)
    end.

Fixpoint lookup_in (name : list Z) (ms : list mapid) : M pstate (option mapid) :=
  match ms with
  | [] => mret None
  | m :: ms =>
      o ← p_get m;
      if po_hidden o then lookup_in name ms
      else if _dl_name_match_p name o then mret (Some m)
      else match po_soname o with
           | Some soname =>
               if negb (po_soname_added o) && bool_decide (name = soname) then
                 add_name_to_object m soname;;
                 p_set m (fun o => with_names (po_libnames o) true o);;
                 mret (Some m)
               else lookup_in name ms
           | None => lookup_in name ms
           end
  end.
Definition _dl_lookup_map (nsid : nat) (name : list Z) : M pstate (option mapid) :=
  s ← gets id;
  match ps_loaded s !! nsid with
  | Some ms => lookup_in name ms
  | None => lift (Fatal "nsid < GL(dl_nns)")
  end.

Definition _dl_map_object (loader : option mapid) (name : list Z) (mode : Z) (nsid : nat) : M pstate mapid :=
  r ← _dl_lookup_map nsid name;
  match r with
  | Some m => mret m
  | None => _dl_map_new_object loader name mode nsid
  end.
End Paths.
