(* ===== verification/PathsSpec.v ===== *)
(** * Search paths: the first file that can be opened

    What is remembered about directories does not change what is found. *)

From S2P Require Import Prelude LinkMap Dst DstSpec Paths.

Section Search.
Context (malloc : nat -> Z -> option (list Z)).
Context (system_dirs : list (list Z)) (enable_secure : bool) (dl_platform : option (list Z)) (dl_dst_lib : list Z) (dl_platformlen : Z) (get_origin : origin) (is_rtld : mapid -> bool).
Context (capstr : list (list Z)) (max_capstrlen : Z) (dl_inhibit_rpath : option (list Z)).
Context (open_verify : list Z -> res opened) (stat_dir : list Z -> bool + Z) (is_suid : Z -> bool) (auditing : nat -> bool).
Context (cache_lookup : list Z -> option (list Z)) (dl_inhibit_cache : bool).

Definition usual (err : Z) : Prop := err = ENOENT \/ err = EACCES \/ err = ENOTDIR.
(** No file below a name can be opened. *)
Definition dead (dir : list Z) : Prop := forall n fd, open_verify (dir ++ n) <> Ok (Opened fd).

(** What the search expects of files and memory: no file is damaged, errors are the usual ones, and what is no directory has no files. *)
Class FileSystem : Prop := {
  fs_open : forall p, match open_verify p with Ok (Opened _) => True | Ok (NotOpened err _) => usual err | _ => False end;
  fs_stat : forall d, match stat_dir d with inl true => True | inl false => dead d | inr err => usual err /\ dead d end;
  fs_memory : forall k n, 0 <= n -> is_Some (malloc k n);
  fs_caps : forall cap, cap ∈ capstr -> Z.of_nat (length cap) <= max_capstrlen }.
Context {FS : FileSystem}.

(** ** Directories in order *)
Definition path_ok (s : pstate) (p : spath) : Prop := match p with PDirs ds => ds <> [] /\ forall d, d ∈ ds -> is_Some (ps_elems s !! d) | _ => True end.
Record wf (s : pstate) : Prop := {
  wf_elem : forall d e, ps_elems s !! d = Some e -> Z.of_nat (length (sd_name e)) <= ps_maxlen s /\ length (sd_status e) = length capstr;
  wf_honest : forall d e k cap, ps_elems s !! d = Some e -> capstr !! k = Some cap -> sd_status e !! k = Some nonexisting -> dead (sd_name e ++ cap);
  wf_objs : forall m o, ps_objs s !! m = Some o -> path_ok s (po_rpath_dirs o) /\ path_ok s (po_runpath_dirs o);
  wf_env : path_ok s (ps_env s);
  wf_system : path_ok s (ps_system s) }.

(** Only what is remembered about directories has changed, and [errno]. *)
Record same (s s' : pstate) : Prop := {
  sm_objs : ps_objs s' = ps_objs s;
  sm_loaded : ps_loaded s' = ps_loaded s;
  sm_env : ps_env s' = ps_env s;
  sm_system : ps_system s' = ps_system s;
  sm_all : ps_all s' = ps_all s;
  sm_max : ps_maxlen s' = ps_maxlen s;
  sm_names : sd_name <$> ps_elems s' = sd_name <$> ps_elems s }.
#[export] Instance same_po : PreOrder same.
Proof using. split; [by split|]. intros s1 s2 s3 [] []. split; congruence. Qed.

Lemma same_elem s s' d e : same s s' -> ps_elems s !! d = Some e -> exists e', ps_elems s' !! d = Some e' /\ sd_name e' = sd_name e.
Proof using.
  intros H He. assert (E : (sd_name <$> ps_elems s') !! d = (sd_name <$> ps_elems s) !! d) by (by rewrite (sm_names _ _ H)). rewrite !list_lookup_fmap, He in E.
  destruct (ps_elems s' !! d) as [e'|]; [|done]. injection E as E. by exists e'.
Qed.
Lemma same_known s s' d : same s s' -> is_Some (ps_elems s !! d) -> is_Some (ps_elems s' !! d).
Proof using. intros H [e He]. destruct (same_elem s s' d e H He) as (e' & -> & _). by eexists. Qed.
Lemma same_path_ok s s' p : same s s' -> path_ok s p -> path_ok s' p.
Proof using. intros H. destruct p as [| |ds]; [done|done|]. intros [Hne Hd]. split; [done|]. intros d Hin. apply (same_known s); auto. Qed.

(** The statuses of one directory. *)
Lemma set_status_spec d k st s e : wf s -> ps_elems s !! d = Some e -> (st = nonexisting -> forall cap, capstr !! k = Some cap -> dead (sd_name e ++ cap)) ->
  exists s', set_status d k st s = Ret tt s' /\ wf s' /\ same s s' /\ ps_errno s' = ps_errno s /\ ps_elems s' !! d = Some (mkDir (sd_name e) (<[k := st]> (sd_status e))).
Proof using.
  intros W He Hdead. eexists. split; [reflexivity|]. set (f := fun e => mkDir (sd_name e) (<[k := st]> (sd_status e))). set (s' := set_elems (alter f d (ps_elems s)) s).
  assert (Hn : sd_name <$> ps_elems s' = sd_name <$> ps_elems s).
  { apply list_eq. intros i. cbn. rewrite !list_lookup_fmap. destruct (decide (i = d)) as [->|]; [rewrite list_lookup_alter_eq, He|rewrite list_lookup_alter_ne]; done. }
  assert (Hs : same s s') by (by split). assert (Hd : ps_elems s' !! d = Some (f e)) by (cbn; by rewrite list_lookup_alter_eq, He).
  split; [|by repeat split]. destruct W as [A1 A2 A3 A4 A5]. split; [| |intros m o Ho; destruct (A3 m o Ho); split|..]; try (by apply (same_path_ok s)).
  - intros i x. destruct (decide (i = d)) as [->|Hi]; [rewrite Hd; intros [= <-]|intros Hx; cbn in Hx; rewrite list_lookup_alter_ne in Hx by done; by apply (A1 i)].
    cbn. rewrite length_insert. by apply (A1 d).
  - intros i x j cap. destruct (decide (i = d)) as [->|Hi]; [rewrite Hd; intros [= <-]|intros Hx; cbn in Hx; rewrite list_lookup_alter_ne in Hx by done; by apply (A2 i)].
    cbn. intros Hcap [[<- [-> _]]|[_ Hj]]%list_lookup_insert_Some; [by apply Hdead|by apply (A2 d e j)].
Qed.

Lemma wf_notes err other n s : wf s -> wf (set_errno err (set_other other (set_requests n s))).
Proof using. by intros [A1 A2 A3 A4 A5]. Qed.
Lemma same_notes err other n s : same s (set_errno err (set_other other (set_requests n s))).
Proof using. done. Qed.

(** What is noted about a directory after a file in it was tried. *)
Lemma note_status known_ns d k cap st (fd : option Z) s e : wf s -> ps_elems s !! d = Some e -> capstr !! k = Some cap -> st <> nonexisting ->
  exists st' s', (if bool_decide (st = unknown) then
                match fd with
                | Some _ => set_status d k existing;; mret existing
                | None =>
                    if (known_ns : bool) then
                      match stat_dir (sd_name e ++ cap) with
                      | inl true => set_status d k existing;; mret existing
                      | inl false => set_status d k nonexisting;; mret nonexisting
                      | inr err => modify (set_errno err);; set_status d k nonexisting;; mret nonexisting
                      end
                    else mret unknown
                end
              else mret st) s = Ret st' s' /\ wf s' /\ same s s' /\ (st' = nonexisting -> fd = None /\ dead (sd_name e ++ cap)) /\ (usual (ps_errno s) -> usual (ps_errno s')).
Proof using FS.
  intros W He Hcap Hne. case_bool_decide as Hst; [|exists st, s; by split].
  assert (Hset : forall s st', wf s -> ps_elems s !! d = Some e -> (st' = nonexisting -> dead (sd_name e ++ cap)) -> exists s', (set_status d k st';; mret st') s = Ret st' s' /\ wf s' /\ same s s' /\ (usual (ps_errno s) -> usual (ps_errno s'))).
  { intros s0 st' W0 He0 Hd. destruct (set_status_spec d k st' s0 e W0 He0) as (s' & E & W' & S' & Er & _); [intros -> c Hc; assert (c = cap) as -> by congruence; by apply Hd|].
    exists s'. split; [by rewrite (M_bind_step _ _ _ tt s')|]. split; [done|]. split; [done|by rewrite Er]. }
  destruct fd as [fd|]; [|destruct known_ns; [pose proof (fs_stat (sd_name e ++ cap)) as F; destruct (stat_dir (sd_name e ++ cap)) as [[]|err]|exists unknown, s; by split]].
  - destruct (Hset s existing W He ltac:(done)) as (s' & ? & ? & ? & ?). by exists existing, s'.
  - destruct (Hset s existing W He ltac:(done)) as (s' & ? & ? & ? & ?). by exists existing, s'.
  - destruct (Hset s nonexisting W He ltac:(done)) as (s' & ? & ? & ? & ?). by exists nonexisting, s'.
  - destruct F as [F1 F2]. destruct (Hset (set_errno err s) nonexisting ltac:(by destruct W) He ltac:(done)) as (s' & E & W' & S' & Hu). exists nonexisting, s'. split; [by rewrite (M_bind_step _ _ _ tt (set_errno err s))|].
    split; [done|]. split; [by destruct S'|]. split; [done|]. intros _. by apply Hu.
Qed.

(** ** The reference: the first name that can be opened *)
Section Name.
Context (name : list Z) (secure : bool).
Definition opens (p : list Z) : option Z :=
  match open_verify p with Ok (Opened fd) => if secure && enable_secure && negb (is_suid fd) then None else Some fd | _ => None end.
Fixpoint first (ps : list (list Z)) : option (Z * list Z) :=
  match ps with
  | [] => None
  | p :: ps => match opens p with Some fd => Some (fd, p) | None => first ps end
  end.
Lemma first_app ps qs : first (ps ++ qs) = match first ps with Some r => Some r | None => first qs end.
Proof using. induction ps as [|p ps IH]; cbn; [done|]. by destruct (opens p). Qed.
Lemma dead_opens d n : dead d -> opens (d ++ n) = None.
Proof using. intros H. unfold opens. destruct (open_verify (d ++ n)) as [[fd|]| | | |] eqn:E; try done. by destruct (H n fd). Qed.
Lemma dead_first ds : (forall d, d ∈ ds -> dead d) -> first ((fun d => d ++ name) <$> ds) = None.
Proof using. induction ds as [|d ds IH]; intros H; cbn; [done|]. rewrite dead_opens by (apply H; left). apply IH. intros x Hx. apply H. by right. Qed.

(** The directories for the capabilities below [d]. *)
Definition below (d : list Z) (caps : list (list Z)) : list (list Z) := (fun cap => d ++ cap) <$> caps.
Definition files (d : list Z) (caps : list (list Z)) : list (list Z) := (fun x => x ++ name) <$> below d caps.

Lemma try_caps_spec bufsize known_ns d : forall caps k here_any s e, wf s -> ps_elems s !! d = Some e -> drop k capstr = caps ->
  ps_maxlen s + max_capstrlen + (Z.of_nat (length name) + 1) <= bufsize -> (here_any = true -> usual (ps_errno s)) ->
  exists r any s', try_caps enable_secure open_verify stat_dir is_suid name secure bufsize known_ns d k caps here_any s = Ret (r, any) s' /\ wf s' /\ same s s' /\
    r = first (files (sd_name e) caps) /\ (r = None -> (any = true -> usual (ps_errno s')) /\ (any = false -> here_any = false /\ forall x, x ∈ below (sd_name e) caps -> dead x)).
Proof using FS.
  induction caps as [|cap caps IH]; intros k here_any s e W He Hk Hbuf Husual.
  - exists None, here_any, s. split; [done|]. split; [done|]. split; [done|]. split; [done|]. intros _. split; [done|]. intros ->. split; [done|]. by intros x ?%elem_of_nil.
  - assert (Hcap : capstr !! k = Some cap) by (rewrite <- (Nat.add_0_r k), <- lookup_drop, Hk; done). assert (Hk' : drop (S k) capstr = caps) by (rewrite <- Nat.add_1_r, <- drop_drop, Hk; done).
    cbn [try_caps]. rewrite (M_bind_step _ _ _ s s) by done. rewrite (M_bind_step _ _ _ e s) by (by rewrite He). destruct (wf_elem _ W d e He) as [Hlen Hst].
    destruct (lookup_lt_is_Some_2 (sd_status e) k) as [st Hstk]; [rewrite Hst; by eapply lookup_lt_Some|]. rewrite (M_bind_step _ _ _ st s) by (by rewrite Hstk).
    cbn [files below fmap list_fmap first]. rewrite <- app_assoc.
    destruct (decide (st = nonexisting)) as [->|Hne].
    + rewrite bool_decide_eq_true_2 by done. pose proof (wf_honest _ W d e k cap He Hcap Hstk) as Hd. pose proof (dead_opens _ name Hd) as Ho. rewrite <- app_assoc in Ho. rewrite Ho.
      destruct (IH (S k) here_any s e W He Hk' Hbuf Husual) as (r & any & s' & E & W' & S' & Hr & Hn). exists r, any, s'. split; [done|]. split; [done|]. split; [done|]. split; [done|].
      intros Hrn. destruct (Hn Hrn) as [H1 H2]. split; [done|]. intros Ha. destruct (H2 Ha) as [H3 H4]. split; [done|]. intros x [->|Hx]%elem_of_cons; [done|by apply H4].
    + rewrite bool_decide_eq_false_2 by done. pose proof (fs_caps cap ltac:(by eapply list_elem_of_lookup_2)) as Hcl.
      rewrite (M_bind_step _ _ _ tt s) by (rewrite (proj2 (Z.ltb_ge _ _)) by (rewrite !length_app; lia); done).
      pose proof (fs_open (sd_name e ++ cap ++ name)) as Fo. unfold opens. destruct (open_verify (sd_name e ++ cap ++ name)) as [[fd|err other]| | | |] eqn:Eo; try done.
      * rewrite (M_bind_step _ _ _ (Opened fd) s) by done. rewrite (M_bind_step _ _ _ (Some fd) s) by done.
        destruct (note_status known_ns d k cap st (Some fd) s e W He Hcap Hne) as (st' & s1 & E1 & W1 & S1 & Hst' & Hu1). rewrite (M_bind_step _ _ _ _ _ E1).
        assert (st' <> nonexisting) as Hst1 by (intros ->; by destruct Hst'). rewrite (bool_decide_eq_true_2 (st' <> nonexisting)), orb_true_r by done.
        destruct (secure && enable_secure && negb (is_suid fd)).
        -- rewrite (M_bind_step _ _ _ tt (set_errno ENOENT s1)) by done. destruct (same_elem s s1 d e S1 He) as (e1 & He1 & En1).
           destruct (IH (S k) true (set_errno ENOENT s1) e1 ltac:(by destruct W1) He1 Hk' ltac:(cbn; by rewrite (sm_max _ _ S1)) ltac:(by left)) as (r & any & s' & E & W' & S' & Hr & Hn).
           rewrite En1 in *. exists r, any, s'. split; [done|]. split; [done|]. split; [etrans; [exact S1|by destruct S']|]. split; [done|]. intros Hrn. destruct (Hn Hrn) as [H1 H2]. split; [done|]. intros Ha. by destruct (H2 Ha).
        -- exists (Some (fd, sd_name e ++ cap ++ name)), true, s1. split; [done|]. split; [done|]. split; [done|]. by split.
      * set (s0 := set_errno err (set_other (ps_other_class s || other) s)). rewrite (M_bind_step _ _ _ (NotOpened err other) s) by done. rewrite (M_bind_step _ _ _ None s0) by done.
        destruct (note_status known_ns d k cap st None s0 e ltac:(by destruct W) He Hcap Hne) as (st' & s1 & E1 & W1 & S1 & Hst' & Hu1). rewrite (M_bind_step _ _ _ _ _ E1).
        assert (S01 : same s s1) by (by destruct S1). destruct (same_elem s s1 d e S01 He) as (e1 & He1 & En1).
        destruct (IH (S k) (here_any || bool_decide (st' <> nonexisting)) s1 e1 W1 He1 Hk' ltac:(by rewrite (sm_max _ _ S01)) ltac:(intros _; by apply Hu1)) as (r & any & s' & E & W' & S' & Hr & Hn).
        rewrite En1 in *. exists r, any, s'. split; [done|]. split; [done|]. split; [by etrans|]. split; [done|]. intros Hrn. destruct (Hn Hrn) as [H1 H2]. split; [done|]. intros Ha.
        destruct (H2 Ha) as [[H3 H4%bool_decide_eq_false]%orb_false_iff H5]. split; [done|]. intros x [->|Hx]%elem_of_cons; [|by apply H5]. apply Hst'. by apply dec_stable.
Qed.

(** ** A path *)
Definition dirs_of (s : pstate) (ds : list dirid) : list (list Z) := concat ((fun d => match ps_elems s !! d with Some e => below (sd_name e) capstr | None => [] end) <$> ds).
Definition path_dirs (s : pstate) (p : spath) : list (list Z) := match p with PDirs ds => dirs_of s ds | _ => [] end.
Definition in_dirs (dirs : list (list Z)) : list (list Z) := (fun x => x ++ name) <$> dirs.

Lemma same_dirs s s' ds : same s s' -> dirs_of s' ds = dirs_of s ds.
Proof using.
  intros H. unfold dirs_of. f_equal. apply list_fmap_ext. intros _ d _. assert (E : (sd_name <$> ps_elems s') !! d = (sd_name <$> ps_elems s) !! d) by (by rewrite (sm_names _ _ H)).
  rewrite !list_lookup_fmap in E. destruct (ps_elems s' !! d), (ps_elems s !! d); try done. injection E as E. by rewrite E.
Qed.
Lemma in_dirs_app ds ds' : in_dirs (ds ++ ds') = in_dirs ds ++ in_dirs ds'.
Proof using. apply fmap_app. Qed.

Lemma try_dirs_spec bufsize known_ns : forall ds any s, wf s -> (forall d, d ∈ ds -> is_Some (ps_elems s !! d)) -> ps_maxlen s + max_capstrlen + (Z.of_nat (length name) + 1) <= bufsize ->
  exists x s', try_dirs malloc enable_secure capstr open_verify stat_dir is_suid name secure bufsize known_ns ds any s = Ret x s' /\ wf s' /\ same s s' /\
  match x with
  | inl r => r = first (in_dirs (dirs_of s ds)) /\ is_Some r
  | inr any' => first (in_dirs (dirs_of s ds)) = None /\ (any' = false -> any = false /\ forall x, x ∈ dirs_of s ds -> dead x)
  end.
Proof using FS.
  induction ds as [|d ds IH]; intros any s W Hd Hbuf; cbn [try_dirs].
  - exists (inr any), s. split; [done|]. split; [done|]. split; [done|]. split; [done|]. intros ->. split; [done|]. by intros x ?%elem_of_nil.
  - destruct (Hd d ltac:(left)) as [e He]. destruct (try_caps_spec bufsize known_ns d capstr 0 false s e W He eq_refl Hbuf ltac:(done)) as (r & here & s1 & E1 & W1 & S1 & Hr & Hn).
    rewrite (M_bind_step _ _ _ _ _ E1). cbv beta iota. assert (Hdirs : dirs_of s (d :: ds) = below (sd_name e) capstr ++ dirs_of s ds) by (unfold dirs_of; cbn [fmap list_fmap concat]; by rewrite He).
    rewrite Hdirs, in_dirs_app, first_app. change (in_dirs (below (sd_name e) capstr)) with (files (sd_name e) capstr). rewrite <- Hr. destruct r as [[fd path]|].
    + destruct (fs_memory (ps_requests s1) (Z.of_nat (length path) + 1) ltac:(lia)) as [mem Hm]. set (s2 := set_requests (S (ps_requests s1)) s1).
      exists (inl (Some (fd, path))), s2. split; [|split; [by destruct W1|split; [by destruct S1|split; [done|by eexists]]]].
      rewrite (M_bind_step _ _ _ (Some mem) s2) by (unfold p_malloc; by rewrite Hm). done.
    + destruct (Hn eq_refl) as [H1 H2]. rewrite (M_bind_step _ _ _ (ps_errno s1) s1) by done.
      assert (here && negb (ps_errno s1 =? ENOENT) && negb (ps_errno s1 =? EACCES) && negb (ps_errno s1 =? ENOTDIR) = false) as ->.
      { destruct here; [|done]. by destruct (H1 eq_refl) as [-> | [-> | ->]]. }
      destruct (IH (any || here) s1 W1) as (x & s' & E & W' & S' & Hx); [intros i Hi; apply (same_known s); [done|apply Hd; by right]|by rewrite (sm_max _ _ S1)|].
      rewrite (same_dirs s s1) in Hx by done. exists x, s'. split; [done|]. split; [done|]. split; [by etrans|]. destruct x as [r|any']; [done|]. destruct Hx as [Hx1 Hx2]. split; [done|]. intros Ha.
      destruct (Hx2 Ha) as [[H3 H4]%orb_false_iff H5]. split; [done|]. intros y [Hy|Hy]%elem_of_app; [by apply (H2 H4)|by apply H5].
Qed.
End Name.

(** ** Paths that are given up *)
(** A path is kept, or it is forgotten because none of its directories exists. *)
Definition kept (s : pstate) (p p' : spath) : Prop := p' = p \/ p' = PNone /\ forall x, x ∈ path_dirs s p -> dead x.
Record forgets (s s' : pstate) : Prop := {
  fg_loaded : ps_loaded s' = ps_loaded s;
  fg_env : ps_env s' = ps_env s;
  fg_system : ps_system s' = ps_system s;
  fg_names : sd_name <$> ps_elems s' = sd_name <$> ps_elems s;
  fg_size : dom (ps_objs s') = dom (ps_objs s);
  fg_objs : forall m o, ps_objs s !! m = Some o -> exists o', ps_objs s' !! m = Some o' /\ kept s (po_rpath_dirs o) (po_rpath_dirs o') /\ kept s (po_runpath_dirs o) (po_runpath_dirs o') /\
    po_dst o' = po_dst o /\ po_loader o' = po_loader o /\ po_runpath o' = po_runpath o /\ po_nodeflib o' = po_nodeflib o /\ po_ns o' = po_ns o }.

Lemma names_dirs s s' p : sd_name <$> ps_elems s' = sd_name <$> ps_elems s -> path_dirs s' p = path_dirs s p.
Proof using.
  intros H. destruct p as [| |ds]; [done|done|]. cbn. unfold dirs_of. f_equal. apply list_fmap_ext. intros _ d _. assert (E : (sd_name <$> ps_elems s') !! d = (sd_name <$> ps_elems s) !! d) by (by rewrite H).
  rewrite !list_lookup_fmap in E. destruct (ps_elems s' !! d), (ps_elems s !! d); try done. injection E as E. by rewrite E.
Qed.
Lemma spath_kept_trans s s' p p' p'' : sd_name <$> ps_elems s' = sd_name <$> ps_elems s -> kept s p p' -> kept s' p' p'' -> kept s p p''.
Proof using. intros H [-> |[-> Hd]] [-> |[-> Hd']]; [by left|right; split; [done|]; by rewrite <- (names_dirs s s')|by right|by right]. Qed.
#[export] Instance forgets_po : PreOrder forgets.
Proof using.
  split.
  - intros s. split; try done. intros m o Ho. exists o. repeat split; try done; by left.
  - intros s1 s2 s3 [A1 A2 A3 A4 A5 A6] [B1 B2 B3 B4 B5 B6]. split; try congruence. intros m o Ho. destruct (A6 m o Ho) as (o2 & Ho2 & K1 & K2 & ? & ? & ? & ? & ?). destruct (B6 m o2 Ho2) as (o3 & Ho3 & L1 & L2 & ? & ? & ? & ? & ?).
    exists o3. split; [done|]. split; [by apply (spath_kept_trans s1 s2 _ (po_rpath_dirs o2))|]. split; [by apply (spath_kept_trans s1 s2 _ (po_runpath_dirs o2))|]. repeat split; congruence.
Qed.
Lemma same_forgets s s' : same s s' -> forgets s s'.
Proof using. intros [A1 A2 A3 A4 A5 A6 A7]. split; try done; [by rewrite A1|]. rewrite A1. intros m o Ho. exists o. repeat split; try done; by left. Qed.
Lemma kept_first name secure s p p' : kept s p p' -> first secure (in_dirs name (path_dirs s p')) = first secure (in_dirs name (path_dirs s p)).
Proof using. intros [-> |[-> Hd]]; [done|]. cbn. symmetry. by apply dead_first. Qed.
End Search.
