(* ===== verification/PathsSearch.v ===== *)
(** * Search paths: the order of the search

    [_dl_map_new_object] finds the file a search without any caches finds. *)

From S2P Require Import Prelude LinkMap Dst DstSpec Paths PathsSpec.

Section Search.
Context (malloc : nat -> Z -> option (list Z)).
Context (system_dirs : list (list Z)) (enable_secure : bool) (dl_platform : option (list Z)) (dl_dst_lib : list Z) (dl_platformlen : Z) (get_origin : origin) (is_rtld : mapid -> bool).
Context (capstr : list (list Z)) (max_capstrlen : Z) (dl_inhibit_rpath : option (list Z)).
Context (open_verify : list Z -> res opened) (stat_dir : list Z -> bool + Z) (is_suid : Z -> bool) (auditing : nat -> bool).
Context (cache_lookup : list Z -> option (list Z)) (dl_inhibit_cache : bool).
Context {FS : FileSystem malloc capstr max_capstrlen open_verify stat_dir}.
Context (name : list Z) (mode : Z).

Abbreviation wf := (PathsSpec.wf capstr open_verify).
Abbreviation forgets := (PathsSpec.forgets capstr open_verify).
Abbreviation kept := (PathsSpec.kept capstr open_verify).
Abbreviation path_dirs := (PathsSpec.path_dirs capstr).
Definition secure_mode : bool := negb (Z.land mode 0x04000000 =? 0).
Abbreviation first := (PathsSpec.first enable_secure open_verify is_suid secure_mode).
Abbreviation in_dirs := (PathsSpec.in_dirs name).
Abbreviation open_path := (Paths.open_path malloc enable_secure capstr max_capstrlen open_verify stat_dir is_suid auditing).
Abbreviation cache_rpath := (Paths.cache_rpath malloc system_dirs enable_secure dl_platform dl_dst_lib dl_platformlen get_origin is_rtld capstr dl_inhibit_rpath).

(** ** One path *)
Definition spath_of (s : pstate) (w : which) : option spath :=
  match w with
  | Rpath m => po_rpath_dirs <$> ps_objs s !! m
  | Runpath m => po_runpath_dirs <$> ps_objs s !! m
  | EnvPath => Some (ps_env s)
  | SystemPath => Some (ps_system s)
  end.
Lemma get_spath_run s w p : spath_of s w = Some p -> get_spath w s = Ret p s.
Proof using.
  destruct w as [m|m| |]; cbn; [..|by intros [= <-]|by intros [= <-]]; unfold mbind, M_bind, p_get; destruct (ps_objs s !! m); cbn; try done; by intros [= <-].
Qed.
Lemma spath_ok s w p : wf s -> spath_of s w = Some p -> path_ok s p.
Proof using.
  intros W. destruct w as [m|m| |]; cbn; [..|intros [= <-]; apply W|intros [= <-]; apply W]; destruct (ps_objs s !! m) as [o|] eqn:Ho; cbn; try done; intros [= <-]; by apply (wf_objs _ _ _ W m o).
Qed.

(** Forgetting a path. *)
Lemma forget_path (runpath : bool) m s o ds : wf s -> ps_objs s !! m = Some o -> (if runpath then po_runpath_dirs o else po_rpath_dirs o) = PDirs ds -> (forall x, x ∈ dirs_of capstr s ds -> dead open_verify x) ->
  exists s', p_set m (with_spath runpath PNone) s = Ret tt s' /\ wf s' /\ forgets s s'.
Proof using.
  intros W Ho Hp Hd. eexists. split; [reflexivity|]. set (s' := set_objs (alter (with_spath runpath PNone) m (ps_objs s)) s).
  assert (Hlk : forall k, ps_objs s' !! k = (fun x => if decide (k = m) then with_spath runpath PNone x else x) <$> ps_objs s !! k).
  { intros k. cbn. destruct (decide (k = m)) as [->|]; [rewrite lookup_alter_eq; by destruct (ps_objs s !! m)|rewrite lookup_alter_ne by done; by destruct (ps_objs s !! k)]. }
  split.
  - destruct W as [A1 A2 A3 A4 A5]. split; try done. intros k x. rewrite Hlk. destruct (ps_objs s !! k) as [y|] eqn:Hy; [|done]. intros [= <-]. destruct (A3 k y Hy). destruct (decide (k = m)); [|done]. by destruct runpath.
  - split; try done; [cbn; apply dom_alter_L|]. intros k x Hx. rewrite Hlk, Hx. cbn. eexists. split; [done|]. destruct (decide (k = m)) as [->|]; [|repeat split; by left]. assert (x = o) as -> by congruence.
    assert (Hkept : kept s (PDirs ds) PNone) by (by right). destruct runpath; cbn; rewrite Hp; repeat split; done || by left.
Qed.

Lemma open_path_spec w loader s p : wf s -> spath_of s w = Some p -> p <> PNone -> (forall m, loader = Some m -> is_Some (ps_objs s !! m)) ->
  exists r s', open_path name mode w loader s = Ret r s' /\ wf s' /\ forgets s s' /\ r = first (in_dirs (path_dirs s p)).
Proof using FS.
  intros W Hw Hp Hl. unfold Paths.open_path. rewrite (M_bind_step _ _ _ _ _ (get_spath_run s w p Hw)). pose proof (spath_ok s w p W Hw) as Hok. destruct p as [| |ds]; [exists None, s; by split|done|].
  destruct Hok as [Hne Hds]. destruct ds as [|d ds]; [done|]. rewrite (M_bind_step _ _ _ (ps_maxlen s) s) by done.
  assert (Hk : exists b, (match loader with Some m => o ← p_get m; mret (negb (auditing (po_ns o))) | None => mret true end) s = Ret b s).
  { destruct loader as [m|]; [|by exists true]. destruct (Hl m eq_refl) as [o Ho]. exists (negb (auditing (po_ns o))). unfold mbind, M_bind, p_get. by rewrite Ho. }
  destruct Hk as [b Hb]. rewrite (M_bind_step _ _ _ _ _ Hb).
  destruct (try_dirs_spec malloc enable_secure capstr max_capstrlen open_verify stat_dir is_suid name secure_mode (ps_maxlen s + max_capstrlen + (Z.of_nat (length name) + 1)) b (d :: ds) false s W Hds ltac:(lia)) as (x & s1 & E & W1 & S1 & Hx).
  rewrite (M_bind_step _ _ _ _ _ E). destruct x as [r|any].
  - exists r, s1. split; [done|]. split; [done|]. split; [by apply same_forgets|apply Hx].
  - destruct Hx as [Hx1 Hx2]. cbn [PathsSpec.path_dirs]. rewrite Hx1. destruct any.
    { exists None, s1. split; [by destruct w|]. split; [done|]. split; [by apply same_forgets|done]. }
    destruct (Hx2 eq_refl) as [_ Hdead].
    assert (Hset : forall runpath m o, ps_objs s !! m = Some o -> (if (runpath : bool) then po_runpath_dirs o else po_rpath_dirs o) = PDirs (d :: ds) -> exists s', p_set m (with_spath runpath PNone) s1 = Ret tt s' /\ wf s' /\ forgets s s').
    { intros runpath m o Ho Hpo. destruct (forget_path runpath m s1 o (d :: ds) W1) as (s' & E' & W' & F'); [by rewrite (sm_objs _ _ S1)|done|by rewrite (same_dirs capstr s s1)|].
      exists s'. split; [done|]. split; [done|]. etrans; [by apply same_forgets|done]. }
    destruct w as [m|m| |]; cbn in Hw.
    + destruct (ps_objs s !! m) as [o|] eqn:Ho; [|done]. injection Hw as Hw. destruct (Hset false m o Ho Hw) as (s' & E' & W' & F'). exists None, s'. split; [by rewrite (M_bind_step _ _ _ tt s')|done].
    + destruct (ps_objs s !! m) as [o|] eqn:Ho; [|done]. injection Hw as Hw. destruct (Hset true m o Ho Hw) as (s' & E' & W' & F'). exists None, s'. split; [by rewrite (M_bind_step _ _ _ tt s')|done].
    + exists None, s1. split; [done|]. split; [done|]. split; [by apply same_forgets|done].
    + exists None, s1. split; [done|]. split; [done|]. split; [by apply same_forgets|done].
Qed.

(** ** Paths that have been taken apart *)
Definition decided (s : pstate) : Prop := forall m o, ps_objs s !! m = Some o -> po_rpath_dirs o <> PUnset /\ po_runpath_dirs o <> PUnset.
Lemma kept_decided s q q' : kept s q q' -> q <> PUnset -> q' <> PUnset.
Proof using. by intros [-> |[-> _]]. Qed.
Lemma forgets_back s s' m o' : forgets s s' -> ps_objs s' !! m = Some o' -> exists o, ps_objs s !! m = Some o.
Proof using. intros F Ho. assert (Hd : m ∈ dom (ps_objs s')) by (apply elem_of_dom; by eexists). rewrite (fg_size _ _ _ _ F) in Hd. by apply elem_of_dom in Hd as [o Hd]; exists o. Qed.
Lemma forgets_decided s s' : forgets s s' -> decided s -> decided s'.
Proof using.
  intros F D m o' Ho'. destruct (forgets_back s s' m o' F Ho') as [o Ho]. destruct (fg_objs _ _ _ _ F m o Ho) as (o2 & Ho2 & K1 & K2 & _). assert (o2 = o') as -> by congruence.
  destruct (D m o Ho). split; by eapply kept_decided.
Qed.
Lemma forgets_known s s' m : forgets s s' -> is_Some (ps_objs s !! m) -> is_Some (ps_objs s' !! m).
Proof using. intros F [o Ho]. destruct (fg_objs _ _ _ _ F m o Ho) as (o' & -> & _). by eexists. Qed.

Definition obj_dirs (runpath : bool) (s : pstate) (m : mapid) : list (list Z) :=
  match ps_objs s !! m with Some o => path_dirs s (if runpath then po_runpath_dirs o else po_rpath_dirs o) | None => [] end.
Lemma forgets_obj runpath s s' m : forgets s s' -> is_Some (ps_objs s !! m) -> first (in_dirs (obj_dirs runpath s' m)) = first (in_dirs (obj_dirs runpath s m)).
Proof using.
  intros F [o Ho]. destruct (fg_objs _ _ _ _ F m o Ho) as (o' & Ho' & K1 & K2 & _). unfold obj_dirs. rewrite Ho, Ho', (names_dirs capstr s s') by apply F. destruct runpath; by apply (kept_first _ capstr).
Qed.

(** [search] for files [fs], from [s] on *)
Definition finds (s : pstate) (fs : list (list Z)) (f : M pstate (option (Z * list Z))) : Prop := exists s', f s = Ret (first fs) s' /\ wf s' /\ forgets s s'.

Lemma finds_none s : wf s -> finds s [] (mret None).
Proof using. intros W. by exists s. Qed.
Lemma finds_first s fs fs' f : first fs = first fs' -> finds s fs f -> finds s fs' f.
Proof using. unfold finds. by intros ->. Qed.
Lemma or_else_finds s fs fs' f : wf s -> (first fs = None -> finds s fs' f) -> finds s (fs ++ fs') (or_else (first fs) f).
Proof using. intros W H. unfold finds. rewrite first_app. destruct (first fs) as [x|] eqn:E; [by exists s|]. by apply H. Qed.
Lemma bind_finds s fs fs' f k : finds s fs f -> (forall s', wf s' -> forgets s s' -> finds s' fs' (k (first fs))) -> finds s fs' (r ← f; k r).
Proof using.
  intros (s1 & E & W1 & F1) Hk. destruct (Hk s1 W1 F1) as (s2 & E2 & W2 & F2). exists s2. split; [by rewrite (M_bind_step _ _ _ _ _ E)|]. split; [done|by etrans].
Qed.

Lemma cache_rpath_run (runpath : bool) m o s : decided s -> ps_objs s !! m = Some o ->
  cache_rpath m runpath s = Ret (match (if runpath then po_runpath_dirs o else po_rpath_dirs o) with PDirs _ => true | _ => false end) s.
Proof using.
  intros D Ho. destruct (D m o Ho) as [D1 D2]. unfold Paths.cache_rpath. rewrite (M_bind_step _ _ _ (if runpath then po_runpath_dirs o else po_rpath_dirs o) s).
  - by destruct runpath; [destruct (po_runpath_dirs o)|destruct (po_rpath_dirs o)].
  - destruct runpath; unfold get_spath, mbind, M_bind, p_get; by rewrite Ho.
Qed.
(** The path of an object. *)
Lemma object_finds (runpath : bool) m loader s : wf s -> decided s -> is_Some (ps_objs s !! m) -> (forall k, loader = Some k -> is_Some (ps_objs s !! k)) ->
  exists c, cache_rpath m runpath s = Ret c s /\ finds s (in_dirs (obj_dirs runpath s m)) (if (c : bool) then open_path name mode (if runpath then Runpath m else Rpath m) loader else mret None).
Proof using FS.
  intros W D [o Ho] Hl. eexists. split; [by apply cache_rpath_run|]. unfold obj_dirs. rewrite Ho. set (q := if runpath then po_runpath_dirs o else po_rpath_dirs o).
  assert (Hq : spath_of s (if runpath then Runpath m else Rpath m) = Some q) by (unfold q; destruct runpath; cbn; by rewrite Ho).
  destruct q as [| |ds] eqn:E; [by apply finds_none|by apply finds_none|]. destruct (open_path_spec _ loader s (PDirs ds) W Hq ltac:(done) Hl) as (r & s' & E' & W' & F' & ->). by exists s'.
Qed.

(** ** The chain of loaders *)
Inductive chain (s : pstate) : option mapid -> list mapid -> Prop :=
  | chain_end : chain s None []
  | chain_step m o ms : ps_objs s !! m = Some o -> chain s (po_loader o) ms -> chain s (Some m) (m :: ms).
Lemma forgets_chain s s' l ms : forgets s s' -> chain s l ms -> chain s' l ms.
Proof using.
  intros F. induction 1 as [|m o ms Ho _ IH]; [constructor|]. destruct (fg_objs _ _ _ _ F m o Ho) as (o' & Ho' & _ & _ & _ & El & _). apply (chain_step s' m o' ms Ho'). by rewrite El.
Qed.
Lemma chain_known s l ms m : chain s l ms -> m ∈ ms -> is_Some (ps_objs s !! m).
Proof using. induction 1 as [|m' o ms Ho _ IH]; [by intros ?%elem_of_nil|]. intros [->|?]%elem_of_cons; [by eexists|auto]. Qed.

Definition rpath_files (s : pstate) (ms : list mapid) : list (list Z) := in_dirs (concat (obj_dirs false s <$> ms)).
Lemma rpath_files_cons s m ms : rpath_files s (m :: ms) = in_dirs (obj_dirs false s m) ++ rpath_files s ms.
Proof using. apply in_dirs_app. Qed.
Lemma forgets_rpath s s' ms : forgets s s' -> (forall m, m ∈ ms -> is_Some (ps_objs s !! m)) -> first (rpath_files s' ms) = first (rpath_files s ms).
Proof using.
  intros F. induction ms as [|m ms IH]; intros Hk; [done|]. rewrite !rpath_files_cons, !first_app, (forgets_obj false s s') by (done || apply Hk; left). rewrite IH; [done|]. intros k Hk'. apply Hk. by right.
Qed.

Lemma rpath_chain_spec loader main_map : forall ms l did s fuel, wf s -> decided s -> chain s l ms -> (length ms < fuel)%nat -> (forall k, loader = Some k -> is_Some (ps_objs s !! k)) ->
  exists did' s', Paths.rpath_chain malloc system_dirs enable_secure dl_platform dl_dst_lib dl_platformlen get_origin is_rtld capstr max_capstrlen dl_inhibit_rpath open_verify stat_dir is_suid auditing fuel name mode loader main_map l did s
    = Ret (first (rpath_files s ms), did') s' /\ wf s' /\ forgets s s' /\ (did' = true -> did = true \/ exists m, main_map = Some m /\ m ∈ ms).
Proof using FS.
  induction ms as [|m ms IH]; intros l did s fuel W D Hc Hf Hl; (destruct fuel as [|fuel]; [lia|]); inversion Hc as [|? o ? Ho Hc']; subst; cbn [Paths.rpath_chain].
  - exists did, s. split; [done|]. split; [done|]. split; [done|]. by left.
  - destruct (object_finds false m loader s W D ltac:(by eexists) Hl) as (c & Ec & s1 & E1 & W1 & F1). rewrite (M_bind_step _ _ _ _ _ Ec), (M_bind_step _ _ _ _ _ E1). rewrite rpath_files_cons, first_app.
    destruct (first (in_dirs (obj_dirs false s m))) as [x|]; [exists did, s1; split; [done|]; split; [done|]; split; [done|]; by left|].
    destruct (fg_objs _ _ _ _ F1 m o Ho) as (o1 & Ho1 & _ & _ & _ & El & _). rewrite (M_bind_step _ _ _ o1 s1) by (unfold p_get; by rewrite Ho1). rewrite El.
    destruct (IH (po_loader o) (did || (c && bool_decide (Some m = main_map))) s1 fuel W1 (forgets_decided _ _ F1 D) (forgets_chain _ _ _ _ F1 Hc') ltac:(cbn in Hf; lia)) as (did' & s2 & E2 & W2 & F2 & Hd); [intros k Hk; apply (forgets_known s); auto|].
    exists did', s2. rewrite E2, (forgets_rpath s s1 ms F1) by (intros k Hk; by apply (chain_known s _ ms k Hc')). split; [done|]. split; [done|]. split; [by etrans|].
    intros Hdid. destruct (Hd Hdid) as [[?|[_ Hm%bool_decide_eq_true]%andb_prop]%orb_prop|(k & ? & ?)]; [by left|right; exists m; split; [done|left]|right; exists k; split; [done|by right]].
Qed.

(** ** The files that are tried, in order *)
Definition main_of (s : pstate) : option mapid := head (default [] (head (ps_loaded s))).
(** The main program is no object opened by [dlopen]. *)
Definition main_files (s : pstate) : list (list Z) :=
  match main_of s with
  | Some m => match ps_objs s !! m with Some o => if bool_decide (dm_type (po_dst o) <> lt_loaded) then in_dirs (obj_dirs false s m) else [] | None => [] end
  | None => []
  end.
Definition nodeflib (s : pstate) (l : option mapid) : bool := match l with Some m => match ps_objs s !! m with Some o => po_nodeflib o | None => false end | None => false end.
Definition no_runpath (s : pstate) (loader : option mapid) : bool := match loader with Some m => match ps_objs s !! m with Some o => bool_decide (po_runpath o = None) | None => true end | None => true end.
Definition or_main (s : pstate) (loader : option mapid) : option mapid := match loader with Some _ => loader | None => main_of s end.
Definition cache_files (s : pstate) (loader : option mapid) : list (list Z) :=
  if (secure_mode && enable_secure) || dl_inhibit_cache then []
  else match cache_lookup name with
       | Some cached => if nodeflib s (or_main s loader) && existsb (fun d => bool_decide (take (length d) cached = d)) system_dirs then [] else [cached]
       | None => []
       end.
Definition default_files (s : pstate) (loader : option mapid) (nsid : nat) : list (list Z) :=
  if nodeflib s (match loader with Some _ => loader | None => head (default [] (ps_loaded s !! nsid)) end) then [] else in_dirs (path_dirs s (ps_system s)).
(** [ms]: the loader, its loader, and so on *)
Definition search_files (s : pstate) (loader : option mapid) (ms : list mapid) (nsid : nat) : list (list Z) :=
  (if no_runpath s loader then rpath_files s ms ++ main_files s else []) ++ in_dirs (path_dirs s (ps_env s)) ++
  (match loader with Some m => in_dirs (obj_dirs true s m) | None => [] end) ++ cache_files s loader ++ default_files s loader nsid.

Definition known_or_none (s : pstate) (l : option mapid) : Prop := forall m, l = Some m -> is_Some (ps_objs s !! m).
Lemma nodeflib_run s l : known_or_none s l -> (match l with Some m => o ← p_get m; mret (po_nodeflib o) | None => mret false end) s = Ret (nodeflib s l) s.
Proof using. intros H. destruct l as [m|]; [|done]. destruct (H m eq_refl) as [o Ho]. unfold nodeflib, mbind, M_bind, p_get. by rewrite Ho. Qed.
Lemma forgets_nodeflib s s' l : forgets s s' -> known_or_none s l -> nodeflib s' l = nodeflib s l.
Proof using. intros F H. destruct l as [m|]; [|done]. destruct (H m eq_refl) as [o Ho]. destruct (fg_objs _ _ _ _ F m o Ho) as (o' & Ho' & _ & _ & _ & _ & _ & E & _). unfold nodeflib. by rewrite Ho, Ho'. Qed.
Lemma forgets_or_none s s' l : forgets s s' -> known_or_none s l -> known_or_none s' l.
Proof using. intros F H m Hm. apply (forgets_known s); auto. Qed.

Lemma main_finds s0 s loader ms did : wf s -> forgets s0 s -> decided s -> known_or_none s0 loader -> known_or_none s0 (main_of s0) -> first (rpath_files s0 ms) = None ->
  (did = true -> exists m, main_of s0 = Some m /\ m ∈ ms) ->
  finds s (main_files s0) (Paths.main_path malloc system_dirs enable_secure dl_platform dl_dst_lib dl_platformlen get_origin is_rtld capstr max_capstrlen dl_inhibit_rpath open_verify stat_dir is_suid auditing name mode loader (main_of s0) did None).
Proof using FS.
  intros W F D Hl Hm Hnone Hdid. unfold Paths.main_path, or_else, main_files. destruct (main_of s0) as [m|] eqn:Em; [|by apply finds_none]. destruct (Hm m eq_refl) as [o0 Ho0]. rewrite Ho0.
  destruct (fg_objs _ _ _ _ F m o0 Ho0) as (o & Ho & _ & _ & Edst & _). unfold finds. rewrite (M_bind_step _ _ _ o s) by (unfold p_get; by rewrite Ho). rewrite Edst.
  case_bool_decide as Hty; [|rewrite andb_false_r; by apply finds_none]. rewrite andb_true_r. destruct did; cbn [negb].
  - assert (first (in_dirs (obj_dirs false s0 m)) = None) as ->; [|by apply (finds_none s)]. destruct (Hdid eq_refl) as (k & [= <-] & Hin). apply list_elem_of_split in Hin as (ms1 & ms2 & ->).
    unfold rpath_files in Hnone. rewrite fmap_app, concat_app, in_dirs_app, first_app in Hnone. destruct (first (in_dirs (concat (obj_dirs false s0 <$> ms1)))); [done|].
    cbn [fmap list_fmap concat] in Hnone. rewrite in_dirs_app, first_app in Hnone. by destruct (first (in_dirs (obj_dirs false s0 m))).
  - destruct (object_finds false m (match loader with Some _ => loader | None => Some m end) s W D ltac:(by eexists)) as (c & Ec & Hf).
    { intros k Hk. apply (forgets_known s0); [done|]. destruct loader as [x|]; [by apply Hl|by injection Hk as <-; eexists]. }
    rewrite (M_bind_step _ _ _ _ _ Ec). apply (finds_first s (in_dirs (obj_dirs false s m))); [apply forgets_obj; [done|by eexists]|done].
Qed.
Lemma spath_finds s0 s w p loader : wf s -> forgets s0 s -> spath_of s w = Some p -> path_dirs s p = path_dirs s0 p -> (forall k, loader = Some k -> is_Some (ps_objs s !! k)) ->
  finds s (in_dirs (path_dirs s0 p)) (match p with PNone => mret None | _ => open_path name mode w loader end).
Proof using FS.
  intros W F Hp <- Hl. assert (Hd : p = PNone \/ p <> PNone) by (destruct p; by (left + right)). destruct Hd as [->|Hne]; [by apply finds_none|].
  destruct (open_path_spec w loader s p W Hp Hne Hl) as (r & s' & E & W' & F' & ->). exists s'. by destruct p.
Qed.
Lemma cache_finds s0 s loader : wf s -> forgets s0 s -> known_or_none s0 loader -> known_or_none s0 (main_of s0) ->
  finds s (cache_files s0 loader) (if (secure_mode && enable_secure) || dl_inhibit_cache then mret None else cached_file system_dirs open_verify cache_lookup name loader).
Proof using FS.
  intros W F Hl Hm. unfold cache_files. destruct ((secure_mode && enable_secure) || dl_inhibit_cache) eqn:Esec; [by apply finds_none|]. unfold cached_file.
  destruct (cache_lookup name) as [cached|]; [|by apply finds_none]. unfold finds. rewrite (M_bind_step _ _ _ s s) by done.
  assert (Hn : (match loader, head (default [] (head (ps_loaded s))) with Some m, _ | None, Some m => o ← p_get m; mret (po_nodeflib o) | None, None => mret false end) s = Ret (nodeflib s0 (or_main s0 loader)) s).
  { rewrite (fg_loaded _ _ _ _ F). fold (main_of s0). unfold or_main. rewrite <- (forgets_nodeflib s0 s) by (done || by destruct loader). destruct loader as [m|]; [exact (nodeflib_run s (Some m) (forgets_or_none _ _ _ F Hl))|].
    exact (nodeflib_run s (main_of s0) (forgets_or_none _ _ _ F Hm)). }
  rewrite (M_bind_step _ _ _ _ _ Hn). destruct (nodeflib s0 (or_main s0 loader) && _); [by apply (finds_none s)|].
  pose proof (@fs_open _ _ _ _ _ FS cached) as Fo. cbn [PathsSpec.first]. unfold opens. apply orb_false_iff in Esec as [Esec _]. rewrite Esec. cbn [andb].
  destruct (open_verify cached) as [[fd|err other]| | | |] eqn:Eo; try done; [exists s; by rewrite (M_bind_step _ _ _ (Opened fd) s)|].
  exists (set_errno err (set_other (ps_other_class s || other) s)). split; [by rewrite (M_bind_step _ _ _ (NotOpened err other) s)|]. split; [by destruct W|]. by apply same_forgets.
Qed.

(** With any file system: the search returns the first of the names [search_files] that can be opened, and what is remembered about
    directories does not change the result. *)
Theorem search_first_match loader ms nsid s : wf s -> decided s -> chain s loader ms -> NoDup ms -> known_or_none s (main_of s) -> known_or_none s (head (default [] (ps_loaded s !! nsid))) ->
  exists s', Paths.search malloc system_dirs enable_secure dl_platform dl_dst_lib dl_platformlen get_origin is_rtld capstr max_capstrlen dl_inhibit_rpath open_verify stat_dir is_suid auditing cache_lookup dl_inhibit_cache
      loader name mode nsid s = Ret (first (search_files s loader ms nsid)) s' /\ wf s' /\ forgets s s' /\ decided s'.
Proof using FS.
  intros W D Hc Hnd Hmain Hns. assert (Hl : known_or_none s loader) by (intros m ->; inversion Hc; subst; by eexists).
  cut (finds s (search_files s loader ms nsid) (Paths.search malloc system_dirs enable_secure dl_platform dl_dst_lib dl_platformlen get_origin is_rtld capstr max_capstrlen dl_inhibit_rpath open_verify stat_dir is_suid auditing cache_lookup dl_inhibit_cache loader name mode nsid)).
  { intros (s' & E & W' & F'). exists s'. split; [done|]. split; [done|]. split; [done|]. by apply (forgets_decided s). }
  unfold Paths.search, search_files. unfold finds at 1. rewrite (M_bind_step _ _ _ s s) by done. fold (main_of s).
  assert (Hnr : (match loader with Some m => o ← p_get m; mret (bool_decide (po_runpath o = None)) | None => mret true end) s = Ret (no_runpath s loader) s).
  { destruct loader as [m|]; [|done]. destruct (Hl m eq_refl) as [o Ho]. unfold no_runpath, mbind, M_bind, p_get. by rewrite Ho. }
  rewrite (M_bind_step _ _ _ _ _ Hnr). rewrite !app_assoc.
  apply (id (A := finds s _ (r ← _; _))). apply (bind_finds s (if no_runpath s loader then rpath_files s ms ++ main_files s else [])).
  { destruct (no_runpath s loader); [|by apply finds_none]. assert (Hlen : (length ms <= size (ps_objs s))%nat).
    { rewrite <- (size_list_to_set (C := gset mapid) ms) by done. rewrite <- size_dom. apply subseteq_size. intros m Hm%elem_of_list_to_set. apply elem_of_dom. by apply (chain_known s loader ms). }
    destruct (rpath_chain_spec loader (main_of s) ms loader false s (S (size (ps_objs s))) W D Hc ltac:(lia) Hl) as (did & s1 & E & W1 & F1 & Hd).
    unfold finds. rewrite (M_bind_step _ _ _ _ _ E). cbv beta iota. rewrite first_app. destruct (first (rpath_files s ms)) as [x|] eqn:Ex; [by exists s1|].
    destruct (main_finds s s1 loader ms did W1 F1 (forgets_decided _ _ F1 D) Hl Hmain Ex) as (s2 & E2 & W2 & F2); [intros Hdid; by destruct (Hd Hdid)|]. exists s2. split; [done|]. split; [done|by etrans]. }
  intros s1 W1 F1. eapply bind_finds; [apply or_else_finds; [done|intros _]|].
  { unfold finds. rewrite (M_bind_step _ _ _ (ps_env s1) s1) by done. rewrite (fg_env _ _ _ _ F1). apply spath_finds; [done|done|cbn; by rewrite (fg_env _ _ _ _ F1)|apply names_dirs, F1|].
    destruct loader as [m|]; [apply (forgets_or_none s s1 (Some m) F1 Hl)|apply (forgets_or_none s s1 _ F1 Hmain)]. }
  intros s2 W2 F12. assert (F2 : forgets s s2) by (by etrans).
  eapply (bind_finds s2 (_ ++ match loader with Some m => in_dirs (obj_dirs true s m) | None => [] end)); [apply or_else_finds; [done|intros _]|].
  { destruct loader as [m|]; [|by apply finds_none]. destruct (object_finds true m (Some m) s2 W2 (forgets_decided _ _ F2 D)) as (c & Ec & Hf); [apply (forgets_known s s2 m F2); by apply Hl|apply (forgets_or_none s s2 (Some m) F2 Hl)|].
    unfold finds. rewrite (M_bind_step _ _ _ _ _ Ec). apply (finds_first s2 (in_dirs (obj_dirs true s2 m))); [apply forgets_obj; [done|by apply Hl]|exact Hf]. }
  intros s3 W3 F23. assert (F3 : forgets s s3) by (by etrans). eapply bind_finds; [apply or_else_finds; [done|intros _; by apply cache_finds]|].
  intros s4 W4 F34. assert (F4 : forgets s s4) by (by etrans). apply or_else_finds; [done|intros _]. unfold default_files.
  set (l := match loader with Some _ => loader | None => head (default [] (ps_loaded s !! nsid)) end). assert (Hkl : known_or_none s l) by (unfold l; destruct loader; done).
  unfold finds. rewrite (M_bind_step _ _ _ _ _ (nodeflib_run s4 l (forgets_or_none _ _ _ F4 Hkl))). rewrite (forgets_nodeflib s s4) by done. destruct (nodeflib s l); [by apply (finds_none s4)|].
  rewrite (M_bind_step _ _ _ (ps_system s4) s4) by done. rewrite (fg_system _ _ _ _ F4). apply spath_finds; [done|done|cbn; by rewrite (fg_system _ _ _ _ F4)|apply names_dirs, F4|apply (forgets_or_none s s4 l F4 Hkl)].
Qed.
End Search.
