(* ===== verification/PathsRpath.v ===== *)
(** * Search paths: the directories of a path

    [DT_RPATH], [DT_RUNPATH] and [LD_LIBRARY_PATH] become lists of directories without repetition; a directory has one record. *)

From S2P Require Import Prelude LinkMap Dst DstSpec DstTrust DstSafety Paths PathsSpec PathsSearch.

(** ** Names of directories *)
Definition dir_of (out : list Z) : list Z :=
  let r := strip_slashes (reverse out) in if bool_decide (head r = Some slash) then reverse r else reverse r ++ [slash].
Lemma strip_len r : (length (strip_slashes r) <= length r)%nat.
Proof.
  induction r as [|c [|c' r] IH]; [done|done|]. change (strip_slashes (c :: c' :: r)) with (if c =? slash then strip_slashes (c' :: r) else c :: c' :: r).
  destruct (c =? slash); [|done]. etrans; [exact IH|]. cbn [length]. lia.
Qed.
Lemma c_string_lt mem : 0 ∈ mem -> (length (c_string mem) < length mem)%nat.
Proof.
  induction mem as [|c mem IH]; [by intros ?%elem_of_nil|]. cbn. destruct (Z.eqb_spec c 0); [cbn; lia|]. intros [?|?%IH]%elem_of_cons; [done|]. cbn. lia.
Qed.
Lemma dir_name_run mem : 0 ∈ mem -> dir_name mem = Ok (dir_of (c_string mem)).
Proof.
  intros H0. unfold dir_name, dir_of. case_bool_decide; [done|]. pose proof (c_string_lt mem H0). pose proof (strip_len (reverse (c_string mem))) as Hl. rewrite length_reverse in Hl.
  rewrite wr_Ok by lia. done.
Qed.

Lemma strsep_nonempty sep s : strsep sep s <> [].
Proof. destruct s as [|c s]; [done|]. cbn. case_bool_decide; [done|]. by destruct (strsep sep s). Qed.
Lemma strsep_length sep s : length (strsep sep s) = S (length (filter (fun c => c ∈ sep) s)).
Proof.
  induction s as [|c s IH]; [done|]. cbn [strsep]. rewrite filter_cons. case_bool_decide; [rewrite decide_True by done; cbn; by rewrite IH|rewrite decide_False by done].
  pose proof (strsep_nonempty sep s). destruct (strsep sep s); [done|]. done.
Qed.
Lemma strsep_piece sep s cp : cp ∈ strsep sep s -> (length cp <= length s)%nat /\ forall c, c ∈ cp -> c ∈ s.
Proof.
  revert cp. induction s as [|c s IH]; intros cp; cbn [strsep].
  - intros [-> |?%elem_of_nil]%elem_of_cons; [|done]. split; [done|]. by intros c ?%elem_of_nil.
  - case_bool_decide.
    + intros [->|Hin]%elem_of_cons; [split; [cbn; lia|by intros x ?%elem_of_nil]|]. destruct (IH cp Hin). split; [cbn; lia|]. intros x Hx. right. auto.
    + pose proof (strsep_nonempty sep s). destruct (strsep sep s) as [|x xs] eqn:E; [done|]. intros [->|Hin]%elem_of_cons.
      * destruct (IH x ltac:(left)). split; [cbn; lia|]. intros y [->|Hy]%elem_of_cons; [left|right; auto].
      * destruct (IH cp ltac:(by right)). split; [cbn; lia|]. intros y Hy. right. auto.
Qed.

Section Rpath.
Context (malloc : nat -> Z -> option (list Z)).
Context (dirs : list (list (list Z))) (enable_secure : bool) (dl_platform : option (list Z)) (dl_dst_lib : list Z) (dl_platformlen : Z) (get_origin : origin) (is_rtld : mapid -> bool).
Context (capstr : list (list Z)) (dl_inhibit_rpath : option (list Z)) (open_verify : list Z -> res opened).
Abbreviation wf := (PathsSpec.wf capstr open_verify).
Abbreviation known := (DstSafety.known get_origin).
Hypothesis Hplatform : dl_platformlen = match dl_platform with Some p => Z.of_nat (length p) | None => 0 end.
Hypothesis Hsize : forall k n mem, malloc k n = Some mem -> Z.of_nat (length mem) = n.
Hypothesis Hmemory : forall k n, 0 <= n -> is_Some (malloc k n).

(** One record for a directory. *)
Record dirs_ok (s : pstate) : Prop := {
  do_all : forall d, d ∈ ps_all s -> is_Some (ps_elems s !! d);
  do_unique : forall d d' e e', d ∈ ps_all s -> d' ∈ ps_all s -> ps_elems s !! d = Some e -> ps_elems s !! d' = Some e' -> sd_name e = sd_name e' -> d = d' }.
Definition names (s : pstate) (ds : list dirid) : list (list Z) := (fun d => match ps_elems s !! d with Some e => sd_name e | None => [] end) <$> ds.
Definition add_name (acc : list (list Z)) (n : list Z) : list (list Z) := if bool_decide (n ∈ acc) then acc else acc ++ [n].

(** Records are added, and the origin of [l] may become known. *)
Record grows (l : mapid) (s s' : pstate) : Prop := {
  gr_elems : ps_elems s `prefix_of` ps_elems s';
  gr_all : forall d, d ∈ ps_all s -> d ∈ ps_all s';
  gr_loaded : ps_loaded s' = ps_loaded s;
  gr_env : ps_env s' = ps_env s;
  gr_system : ps_system s' = ps_system s;
  gr_objs : forall m, ps_objs s' !! m = ps_objs s !! m \/ m = l /\ ps_objs s' !! m = (fun o => with_dst (known (po_dst o)) o) <$> ps_objs s !! m }.
Lemma known_idem d : known (known d) = known d.
Proof using. unfold DstSafety.known. destruct d as [ty un o]. cbn. destruct o; [|done|done]. cbn. by destruct get_origin. Qed.
#[local] Instance grows_po l : PreOrder (grows l).
Proof using.
  split; [by split; auto; left|]. intros s1 s2 s3 [A1 A2 A3 A4 A5 A6] [B1 B2 B3 B4 B5 B6]. split; [by etrans|auto|congruence..|]. intros m.
  pose proof (B6 m) as Bm. destruct (A6 m) as [E1|[Em E1]], Bm as [E2|[Em' E2]]; rewrite E2, E1; [by left|by right|by right|right]. split; [done|]. destruct (ps_objs s1 !! m) as [o|]; [|done]. cbn. by rewrite known_idem.
Qed.

Lemma names_grow l s s' ds : grows l s s' -> (forall d, d ∈ ds -> is_Some (ps_elems s !! d)) -> names s' ds = names s ds.
Proof using.
  intros G Hd. apply list_fmap_ext. intros _ d Hin%list_elem_of_lookup_2. destruct (Hd d Hin) as [e He]. rewrite He. by rewrite (prefix_lookup_Some _ _ _ _ He (gr_elems _ _ _ G)).
Qed.
Lemma find_dir_spec s nm : forall all, (forall d, d ∈ all -> is_Some (ps_elems s !! d)) -> match find_dir (ps_elems s) all nm with
  | Some d => d ∈ all /\ exists e, ps_elems s !! d = Some e /\ sd_name e = nm
  | None => forall d e, d ∈ all -> ps_elems s !! d = Some e -> sd_name e <> nm
  end.
Proof using.
  induction all as [|d all IH]; intros Hd; cbn [find_dir]; [by intros d e ?%elem_of_nil|]. destruct (Hd d ltac:(left)) as [e He]. rewrite He. case_bool_decide as En; [split; [left|by exists e]|].
  specialize (IH (fun x Hx => Hd x ltac:(by right))). destruct (find_dir (ps_elems s) all nm) as [d'|]; [destruct IH; split; [by right|done]|].
  intros d' e' [->|Hin]%elem_of_cons He'; [congruence|by apply (IH d')].
Qed.

(** A new record. *)
Definition with_dir (nm : list Z) (st : dir_status) (s : pstate) : pstate :=
  set_all (length (ps_elems s) :: ps_all s) (set_elems (ps_elems s ++ [mkDir nm (replicate (length capstr) st)]) (set_maxlen (Z.max (ps_maxlen s) (Z.of_nat (length nm))) s)).
Lemma with_dir_lookup nm st s d e : ps_elems (with_dir nm st s) !! d = Some e -> ps_elems s !! d = Some e \/ d = length (ps_elems s) /\ e = mkDir nm (replicate (length capstr) st).
Proof using. cbn. intros [?|[Hl E]]%lookup_app_Some; [by left|]. apply list_lookup_singleton_Some in E as [? <-]. right. split; [lia|done]. Qed.
Lemma with_dir_known nm st s d : is_Some (ps_elems s !! d) -> is_Some (ps_elems (with_dir nm st s) !! d).
Proof using. intros [e He]. exists e. by apply lookup_app_l_Some. Qed.
Lemma with_dir_wf nm st s : wf s -> st <> nonexisting -> wf (with_dir nm st s).
Proof using.
  intros [A1 A2 A3 A4 A5] Hst. assert (Hp : forall p, path_ok s p -> path_ok (with_dir nm st s) p) by (intros [| |ds]; [done|done|]; intros [H1 H2]; split; [done|]; intros d Hd; apply with_dir_known; auto).
  split; [| |intros m o Ho; destruct (A3 m o Ho); split; auto|auto|auto].
  - intros d e [He|[_ ->]]%with_dir_lookup; [destruct (A1 d e He); cbn; split; [lia|done]|]. cbn. rewrite length_replicate. split; [lia|done].
  - intros d e k cap [He|[_ ->]]%with_dir_lookup Hcap; [by apply (A2 d e k cap)|]. cbn. by intros [? _]%lookup_replicate.
Qed.
Lemma with_dir_ok nm st s : dirs_ok s -> (forall d e, d ∈ ps_all s -> ps_elems s !! d = Some e -> sd_name e <> nm) -> dirs_ok (with_dir nm st s).
Proof using.
  intros [B1 B2] Hnew. assert (Hlt : forall d, d ∈ ps_all s -> d <> length (ps_elems s)) by (intros d Hd ->; destruct (B1 _ Hd) as [e He]; apply lookup_lt_Some in He; lia). split.
  - intros d [->|Hd]%elem_of_cons; [cbn; rewrite lookup_app_r, Nat.sub_diag by lia; by eexists|]. apply with_dir_known. auto.
  - assert (Hold : forall d e, d ∈ ps_all s -> ps_elems (with_dir nm st s) !! d = Some e -> ps_elems s !! d = Some e).
    { intros d e Hd [He|[-> _]]%with_dir_lookup; [done|by destruct (Hlt _ Hd)]. }
    assert (Hlast : forall e, ps_elems (with_dir nm st s) !! length (ps_elems s) = Some e -> sd_name e = nm) by (intros e [He|[_ ->]]%with_dir_lookup; [apply lookup_lt_Some in He; lia|done]).
    intros d d' e e' [->|Hd]%elem_of_cons [->|Hd']%elem_of_cons He He' En; [done|..].
    + apply Hlast in He. apply (Hold d') in He'; [|done]. by destruct (Hnew d' e' Hd' He'); congruence.
    + apply Hlast in He'. apply (Hold d) in He; [|done]. by destruct (Hnew d e Hd He); congruence.
    + by apply (B2 d d' e e'); auto.
Qed.

Definition listed (s : pstate) (ds : list dirid) : Prop := forall d, d ∈ ds -> d ∈ ps_all s.
Lemma listed_known s ds : dirs_ok s -> listed s ds -> forall d, d ∈ ds -> is_Some (ps_elems s !! d).
Proof using. intros [B1 _] Hl d Hd. auto. Qed.
Lemma in_names s ds nm : dirs_ok s -> listed s ds -> nm ∈ names s ds <-> exists d e, d ∈ ds /\ ps_elems s !! d = Some e /\ sd_name e = nm.
Proof using.
  intros D Hl. unfold names. rewrite list_elem_of_fmap. split.
  - intros (d & -> & Hd). destruct (listed_known s ds D Hl d Hd) as [e He]. rewrite He. by exists d, e.
  - intros (d & e & Hd & He & <-). exists d. by rewrite He.
Qed.

Lemma enter_dir_spec l where_len room nm result s : wf s -> dirs_ok s -> listed s result -> Z.of_nat (length result) + 1 < room -> 0 <= where_len ->
  exists result' s', enter_dir malloc capstr where_len room nm result s = Ret result' s' /\ wf s' /\ dirs_ok s' /\ listed s' result' /\ names s' result' = add_name (names s result) nm /\
    grows l s s' /\ ps_objs s' = ps_objs s /\ (length result' <= S (length result))%nat.
Proof using Hmemory.
  intros W D Hl Hroom Hw. unfold enter_dir. rewrite (M_bind_step _ _ _ s s) by done. pose proof (find_dir_spec s nm (ps_all s) (do_all _ D)) as Hf. unfold add_name.
  assert (Hpush : forall d, push_dir room d result = Ok (result ++ [d])) by (intros d; unfold push_dir; by rewrite (proj2 (Z.ltb_lt _ _)) by lia).
  destruct (find_dir (ps_elems s) (ps_all s) nm) as [d|].
  - destruct Hf as (Hd & e & He & En). assert (Hin : nm ∈ names s result <-> d ∈ result).
    { rewrite in_names by done. split; [|intros ?; by exists d, e]. intros (d' & e' & Hd' & He' & En'). by rewrite (do_unique _ D d d' e e') by (congruence || auto). }
    rewrite (bool_decide_ext _ _ Hin). case_bool_decide as Hdr.
    + exists result, s. split; [done|]. split; [done|]. split; [done|]. split; [done|]. split; [done|]. split; [done|]. split; [done|lia].
    + exists (result ++ [d]), s. rewrite Hpush. split; [done|]. split; [done|]. split; [done|]. split; [by intros x [?|[->|?%elem_of_nil]%elem_of_cons]%elem_of_app; auto|].
      split; [unfold names; rewrite fmap_app; cbn; by rewrite He, En|]. split; [done|]. split; [done|]. rewrite length_app. cbn. lia.
  - assert (Hnin : nm ∉ names s result) by (rewrite in_names by done; intros (d & e & Hd & He & En); by apply (Hf d e (Hl d Hd) He)). rewrite (bool_decide_eq_false_2 _ Hnin).
    set (n := 40 + Z.of_nat (length capstr) * 4 + where_len + Z.of_nat (length nm) + 1). destruct (Hmemory (ps_requests s) n ltac:(unfold n; lia)) as [mem Hm]. set (s1 := set_requests (S (ps_requests s)) s).
    rewrite (M_bind_step _ _ _ (Some mem) s1) by (unfold p_malloc; by rewrite Hm). set (st := if bool_decide (head nm = Some slash) then unknown else existing). set (s' := with_dir nm st s1).
    rewrite (M_bind_step _ _ _ tt s') by done. rewrite Hpush.
    assert (G : grows l s s') by (split; try done; [by exists [mkDir nm (replicate (length capstr) st)]|by intros; right|by left]).
    exists (result ++ [length (ps_elems s)]), s'. split; [done|]. split; [apply with_dir_wf; [by destruct W|by unfold st; case_bool_decide]|]. split; [apply with_dir_ok; [by destruct D|done]|].
    split; [intros x [?|[->|?%elem_of_nil]%elem_of_cons]%elem_of_app; [right; by apply Hl|left|done]|].
    split; [|split; [done|split; [done|rewrite length_app; cbn; lia]]]. unfold names at 1. rewrite fmap_app. f_equal; [by apply (names_grow l s s' result G), listed_known|]. cbn. by rewrite lookup_app_r, Nat.sub_diag by lia.
Qed.

(** ** All pieces of a path *)
Abbreviation expansion := (DstSpec.expansion enable_secure dl_platform dl_dst_lib).
(** The directory a piece stands for, if any: none when a token can not be replaced, the current directory for an empty piece. *)
Definition piece (d : dst_map) (cp : list Z) (x : option (list Z)) : Prop :=
  cp = [] /\ x = Some [] \/ cp <> [] /\ exists ts, toks cp ts /\ x = match default [] (expansion d true ts) with [] => None | out => Some (dir_of out) end.
Definition add_piece (acc : list (list Z)) (x : option (list Z)) : list (list Z) := match x with Some n => add_name acc n | None => acc end.

(** An object whose tokens can be replaced as in [K]. *)
Record ready (l : mapid) (K : dst_map) (o : pobj) : Prop := {
  rd_known : known (po_dst o) = K;
  rd_origin : dm_origin (po_dst o) = NoOrigin -> dm_unnamed (po_dst o) || is_rtld l = true }.
Lemma ready_dst l K o d : ready l K o -> d = po_dst o \/ d = known (po_dst o) -> ready l K (with_dst d o).
Proof using.
  intros [R1 R2] [-> | ->]; [by split|]. split; cbn; [by rewrite known_idem|]. unfold DstSafety.known. destruct (po_dst o) as [ty un og]. cbn in *. destruct og; [|done|done]. intros _. by apply R2.
Qed.

Lemma with_dst_spec l d o s n : wf s -> dirs_ok s -> ps_objs s !! l = Some o -> d = po_dst o \/ d = known (po_dst o) ->
  let s0 := set_objs (alter (with_dst d) l (ps_objs s)) (set_requests n s) in wf s0 /\ dirs_ok s0 /\ grows l s s0.
Proof using.
  intros W D Ho Hd s0. split; [|split; [by destruct D|]].
  - destruct W as [A1 A2 A3 A4 A5]. split; try done. intros m x Hx. cbn in Hx. destruct (decide (m = l)) as [->|]; [rewrite lookup_alter_eq, Ho in Hx; injection Hx as <-; exact (A3 l o Ho)|rewrite lookup_alter_ne in Hx by done; by apply (A3 m)].
  - split; try done. intros m. cbn. destruct (decide (m = l)) as [->|]; [|left; by rewrite lookup_alter_ne]. rewrite lookup_alter_eq, Ho. destruct Hd as [-> | ->]; [left; by destruct o|by right].
Qed.

Lemma fillin_pieces_spec l K where_len room : strings dl_platform dl_dst_lib K -> enable_secure && bool_decide (dm_type K = lt_executable) = false -> 0 <= where_len ->
  forall ps result s o, wf s -> dirs_ok s -> listed s result -> ps_objs s !! l = Some o -> ready l K o -> Z.of_nat (length result) + Z.of_nat (length ps) + 1 <= room ->
  (forall cp, cp ∈ ps -> nonzero cp /\ Z.of_nat (length cp) * (1 + dst_len dl_platform dl_dst_lib K) + 1 < 2 ^ 64) ->
  exists xs result' s', Forall2 (piece K) ps xs /\
    fillin_pieces malloc (dir_string <$> dirs) enable_secure dl_platform dl_dst_lib dl_platformlen get_origin is_rtld capstr l where_len room ps result s = Ret result' s' /\
    names s' result' = foldl add_piece (names s result) xs /\ wf s' /\ dirs_ok s' /\ listed s' result' /\ grows l s s'.
Proof using Hplatform Hsize Hmemory.
  intros HK Hsec Hw. induction ps as [|cp ps IH]; intros result s o W D Hl Ho R Hroom Hps; cbn [fillin_pieces].
  - exists [], result, s. split; [constructor|]. rewrite (proj2 (Z.ltb_lt _ _)) by (cbn in Hroom; lia). split; [done|]. split; [done|]. split; [done|]. split; [done|]. by split.
  - cbn [length] in Hroom. assert (Hps' : forall c, c ∈ ps -> nonzero c /\ Z.of_nat (length c) * (1 + dst_len dl_platform dl_dst_lib K) + 1 < 2 ^ 64) by (intros c Hc; apply Hps; by right).
    assert (Hnext : forall s0 nm o0, wf s0 -> dirs_ok s0 -> listed s0 result -> names s0 result = names s result -> grows l s s0 -> ps_objs s0 !! l = Some o0 -> ready l K o0 -> piece K cp (Some nm) ->
      exists xs result' s', Forall2 (piece K) (cp :: ps) xs /\ (r ← enter_dir malloc capstr where_len room nm result; fillin_pieces malloc (dir_string <$> dirs) enable_secure dl_platform dl_dst_lib dl_platformlen get_origin is_rtld capstr l where_len room ps r) s0 = Ret result' s' /\
        names s' result' = foldl add_piece (names s result) xs /\ wf s' /\ dirs_ok s' /\ listed s' result' /\ grows l s s').
    { intros s0 nm o0 W0 D0 Hl0 En0 G0 Ho0 R0 Hp. destruct (enter_dir_spec l where_len room nm result s0 W0 D0 Hl0 ltac:(lia) Hw) as (r1 & s1 & E1 & W1 & D1 & Hl1 & En1 & G1 & Eo1 & Hlen).
      rewrite (M_bind_step _ _ _ _ _ E1). destruct (IH r1 s1 o0 W1 D1 Hl1 ltac:(by rewrite Eo1) R0 ltac:(lia) Hps') as (xs & r2 & s2 & Hxs & E2 & En2 & W2 & D2 & Hl2 & G2).
      exists (Some nm :: xs), r2, s2. split; [by constructor|]. split; [done|]. split; [rewrite En2, En1, En0; done|]. split; [done|]. split; [done|]. split; [done|]. etrans; [exact G0|]. by etrans. }
    assert (Hskip : forall s0 o0, wf s0 -> dirs_ok s0 -> listed s0 result -> names s0 result = names s result -> grows l s s0 -> ps_objs s0 !! l = Some o0 -> ready l K o0 -> piece K cp None ->
      exists xs result' s', Forall2 (piece K) (cp :: ps) xs /\ fillin_pieces malloc (dir_string <$> dirs) enable_secure dl_platform dl_dst_lib dl_platformlen get_origin is_rtld capstr l where_len room ps result s0 = Ret result' s' /\
        names s' result' = foldl add_piece (names s result) xs /\ wf s' /\ dirs_ok s' /\ listed s' result' /\ grows l s s').
    { intros s0 o0 W0 D0 Hl0 En0 G0 Ho0 R0 Hp. destruct (IH result s0 o0 W0 D0 Hl0 Ho0 R0 ltac:(lia) Hps') as (xs & r2 & s2 & Hxs & E2 & En2 & W2 & D2 & Hl2 & G2).
      exists (None :: xs), r2, s2. split; [by constructor|]. split; [done|]. split; [rewrite En2, En0; done|]. split; [done|]. split; [done|]. split; [done|]. by etrans. }
    destruct cp as [|c cp]; [apply (Hnext s [] o); try done; by left|]. set (path := c :: cp) in *.
    rewrite (M_bind_step _ _ _ o s) by (unfold p_get; by rewrite Ho). rewrite (M_bind_step _ _ _ (ps_requests s) s) by done. destruct (Hps path ltac:(left)) as [Hz Hfit].
    destruct (expand_run dirs enable_secure dl_platform dl_dst_lib dl_platformlen get_origin (malloc (ps_requests s)) Hplatform (Hsize (ps_requests s)) (po_dst o) (is_rtld l) path Hz) as (ts & Hts & H);
      [by rewrite (rd_known _ _ _ R)|exact (rd_origin _ _ _ R)|unfold fits; by rewrite (rd_known _ _ _ R)|].
    cbv zeta in H. rewrite (rd_known _ _ _ R), Hsec, andb_false_r in H. destruct H as [(d & E & Hd & n & Hn & Hm)|[(mem & d & E & Hd & Hc & H0 & _)|[? _]]]; [destruct (Hmemory (ps_requests s) n Hn); congruence| |done].
    rewrite (M_bind_step _ _ _ (Some mem, d) s) by (unfold lift; by rewrite E). cbv beta iota. set (s0 := set_objs (alter (with_dst d) l (ps_objs s)) (set_requests (S (ps_requests s)) s)).
    rewrite (M_bind_step _ _ _ tt (set_requests (S (ps_requests s)) s)) by done. rewrite (M_bind_step _ _ _ tt s0) by done.
    assert (Ho0 : ps_objs s0 !! l = Some (with_dst d o)) by (cbn; by rewrite lookup_alter_eq, Ho).
    rewrite <- (rd_known _ _ _ R) in Hd.
    destruct (with_dst_spec l d o s (S (ps_requests s)) W D Ho Hd) as (W0 & D0 & G0). assert (R0 : ready l K (with_dst d o)) by (by apply ready_dst).
    assert (Hpiece : piece K path (match c_string mem with [] => None | out => Some (dir_of out) end)) by (right; split; [done|]; exists ts; split; [done|]; by rewrite Hc).
    destruct (decide (c_string mem = [])) as [Hempty|Hempty]; [rewrite bool_decide_eq_true_2 by done; rewrite Hempty in Hpiece; by apply (Hskip s0 (with_dst d o))|rewrite bool_decide_eq_false_2 by done].
    rewrite (M_bind_step _ _ _ (dir_of (c_string mem)) s0) by (by rewrite dir_name_run). apply (Hnext s0 (dir_of (c_string mem)) (with_dst d o)); try done. by destruct (c_string mem).
Qed.

(** ** A whole path *)
Lemma skip_common_len i w : (length (skip_common i w).1 <= length i)%nat.
Proof using. revert w. induction i as [|x i IH]; intros [|y w]; cbn; try lia. destruct (x =? y); [etrans; [apply IH|lia]|done]. Qed.
Lemma after_char_len c s s' : after_char c s = Some s' -> (length s' < length s)%nat.
Proof using. induction s as [|x s IH]; cbn; [done|]. destruct (x =? c); [intros [= ->]; lia|intros ?%IH; lia]. Qed.
Lemma inhibited_total fuel inhp w : (length inhp < fuel)%nat -> exists b, inhibited fuel inhp w = Ok b.
Proof using.
  revert inhp. induction fuel as [|fuel IH]; intros inhp Hf; [lia|]. cbn [inhibited]. pose proof (skip_common_len inhp w) as Hl. destruct (skip_common inhp w) as [i' w']. cbn in Hl.
  destruct (bool_decide (w' = []) && ((at_ i' 0 =? 0) || (at_ i' 0 =? colon))); [by eexists|]. destruct (after_char colon i') as [[|x r]|] eqn:E; [by eexists| |by eexists]. apply IH. apply after_char_len in E. lia.
Qed.
(** Whether the paths of an object are to be ignored. *)
Definition inhibit (o : pobj) : res bool :=
  match dl_inhibit_rpath with Some inhp => if enable_secure then Ok false else inhibited (S (length inhp)) inhp (po_name o) | None => Ok false end.

Definition path_of (runpath : bool) (l : mapid) : which := if runpath then Runpath l else Rpath l.
Lemma put_path (runpath : bool) l q s o : wf s -> dirs_ok s -> ps_objs s !! l = Some o -> path_ok s q ->
  exists s', put_spath (path_of runpath l) q s = Ret tt s' /\ wf s' /\ dirs_ok s' /\ spath_of s' (path_of runpath l) = Some q /\ (forall ds, names s' ds = names s ds) /\
    s' = set_objs (alter (with_spath runpath q) l (ps_objs s)) s.
Proof using.
  intros W D Ho Hq. assert (E : put_spath (path_of runpath l) q s = Ret tt (set_objs (alter (with_spath runpath q) l (ps_objs s)) s)) by (by destruct runpath).
  eexists. split; [exact E|]. split; [|split; [by destruct D|split; [|by split]]].
  - destruct W as [A1 A2 A3 A4 A5]. split; try done. intros m x Hx. cbn in Hx. destruct (decide (m = l)) as [->|]; [rewrite lookup_alter_eq, Ho in Hx; injection Hx as <-; destruct (A3 l o Ho); by destruct runpath|].
    rewrite lookup_alter_ne in Hx by done. by apply (A3 m).
  - destruct runpath; cbn; by rewrite lookup_alter_eq, Ho.
Qed.

(** Only this path of [l] is new: what is known stays, and so do all other objects and the rest of [l], of which at most the origin has become known. *)
Record keeps (runpath : bool) (l : mapid) (s s' : pstate) : Prop := {
  kp_elems : ps_elems s `prefix_of` ps_elems s';
  kp_all : forall d, d ∈ ps_all s -> d ∈ ps_all s';
  kp_loaded : ps_loaded s' = ps_loaded s;
  kp_env : ps_env s' = ps_env s;
  kp_system : ps_system s' = ps_system s;
  kp_objs : forall m, m <> l -> ps_objs s' !! m = ps_objs s !! m;
  kp_own : forall o, ps_objs s !! l = Some o -> exists d q, ps_objs s' !! l = Some (with_spath runpath q (with_dst d o)) /\ (d = po_dst o \/ d = known (po_dst o)) }.
Lemma put_keeps (runpath : bool) l q s s' : grows l s s' -> keeps runpath l s (set_objs (alter (with_spath runpath q) l (ps_objs s')) s').
Proof using.
  intros [G1 G2 G3 G4 G5 G6]. split; try done.
  - intros m Hm. cbn. rewrite lookup_alter_ne by done. by destruct (G6 m) as [->|[? _]].
  - intros o Ho. cbn. rewrite lookup_alter_eq. destruct (G6 l) as [-> |[_ ->]]; rewrite Ho; cbn; [exists (po_dst o)|exists (known (po_dst o))]; exists q; (split; [|by (left + right)]); by destruct o.
Qed.

(** C30. Taking [DT_RPATH] or [DT_RUNPATH] of a loaded object apart: unless the path is empty or the object is listed with [--inhibit-rpath], every piece between colons gives the directory it names once its tokens are replaced, without trailing slashes but
    one; pieces with a token that can not be replaced give none, and no directory comes twice.  The array suffices, a directory has one
    record, and nothing that was known is lost: the records and their list only grow, and all other paths and objects stay as they are.
    This is for a state in order ([wf], [dirs_ok]: paths refer to known directories, and one name has one record), for memory that does not run out, with blocks of the size asked for, for strings without null characters, with
    [dl_platformlen] the length of the platform, for an object that has its origin or is the unnamed main program or the linker itself, for a path whose length with every character replaced by a longest token stays
    below 2^64, and not for the main program of a privileged process, whose paths are expanded with [check_for_trusted] ([privileged_origin_trusted]). *)
Theorem rpath_directories (runpath : bool) rpath l o s : wf s -> dirs_ok s -> ps_objs s !! l = Some o -> nonzero rpath ->
  (dm_origin (po_dst o) = NoOrigin -> dm_unnamed (po_dst o) || is_rtld l = true) -> strings dl_platform dl_dst_lib (known (po_dst o)) -> fits dl_platform dl_dst_lib get_origin (po_dst o) rpath ->
  enable_secure && bool_decide (dm_type (po_dst o) = lt_executable) = false ->
  exists b xs ds s', inhibit o = Ok b /\ (if b || bool_decide (rpath = []) then xs = [] else Forall2 (piece (known (po_dst o))) (strsep [colon] rpath) xs) /\
    decompose_rpath malloc (dir_string <$> dirs) enable_secure dl_platform dl_dst_lib dl_platformlen get_origin is_rtld capstr dl_inhibit_rpath (path_of runpath l) rpath l s = Ret (negb (bool_decide (ds = []))) s' /\
    names s' ds = foldl add_piece [] xs /\ spath_of s' (path_of runpath l) = Some (if bool_decide (ds = []) then PNone else PDirs ds) /\ wf s' /\ dirs_ok s' /\ keeps runpath l s s'.
Proof using Hplatform Hsize Hmemory.
  intros W D Ho Hz Horg HK Hfit Hsec. assert (Hb : exists b, inhibit o = Ok b) by (unfold inhibit; destruct dl_inhibit_rpath as [i|]; [destruct enable_secure; [by eexists|apply inhibited_total; lia]|by eexists]).
  destruct Hb as [b Hb]. exists b. unfold decompose_rpath. rewrite (M_bind_step _ _ _ o s) by (unfold p_get; by rewrite Ho).
  rewrite (M_bind_step _ _ _ b s) by (unfold inhibit in Hb; destruct dl_inhibit_rpath; [destruct enable_secure|]; unfold lift; simplify_eq; rewrite ?Hb; done).
  destruct (b || bool_decide (rpath = [])).
  { destruct (put_path runpath l PNone s o W D Ho ltac:(done)) as (s' & E & W' & D' & Hs & _ & Es). exists [], [], s'. split; [done|]. split; [done|]. split; [by rewrite (M_bind_step _ _ _ _ _ E)|]. do 4 (split; [done|]). rewrite Es. by apply put_keeps. }
  destruct (Hmemory (ps_requests s) (Z.of_nat (length rpath) + 1) ltac:(lia)) as [m1 Hm1]. set (s1 := set_requests (S (ps_requests s)) s).
  rewrite (M_bind_step _ _ _ (Some m1) s1) by (unfold p_malloc; by rewrite Hm1). set (nelems := Z.of_nat (length (filter (fun c => c = colon) rpath))).
  destruct (Hmemory (ps_requests s1) ((nelems + 1 + 1) * 8) ltac:(lia)) as [m2 Hm2]. set (s2 := set_requests (S (ps_requests s1)) s1). rewrite (M_bind_step _ _ _ (Some m2) s2) by (unfold p_malloc; by rewrite Hm2).
  assert (Hty : dm_type (known (po_dst o)) = dm_type (po_dst o)) by (unfold DstSafety.known; by destruct (dm_origin (po_dst o))).
  destruct (fillin_pieces_spec l (known (po_dst o)) (Z.of_nat (length (po_name o)) + 1) (nelems + 1 + 1) HK ltac:(by rewrite Hty) ltac:(lia) (strsep [colon] rpath) [] s2 o) as (xs & ds & s3 & Hxs & E & En & W3 & D3 & Hl3 & G3).
  { by destruct W. } { by destruct D. } { by intros d ?%elem_of_nil. } { done. } { by split. }
  { rewrite strsep_length. unfold nelems. rewrite (list_filter_iff (fun c => c ∈ [colon]) (fun c => c = colon)) by set_solver. cbn [length]. lia. }
  { intros cp Hcp. destruct (strsep_piece _ _ _ Hcp) as [Hlen Hin]. split; [apply Forall_forall; intros c Hc; by apply (proj1 (Forall_forall _ _) Hz), Hin|]. unfold fits in Hfit.
    assert (0 <= dst_len dl_platform dl_dst_lib (known (po_dst o))) by (unfold dst_len; lia). nia. }
  unfold fillin_rpath. rewrite (M_bind_step _ _ _ _ _ E). exists xs, ds. assert (G : grows l s s3) by (by destruct G3).
  assert (Ho3 : exists o3, ps_objs s3 !! l = Some o3) by (destruct (gr_objs _ _ _ G3 l) as [-> |[_ ->]]; cbn; rewrite Ho; by eexists). destruct Ho3 as [o3 Ho3].
  destruct (decide (ds = [])) as [Hds|Hds]; [rewrite (bool_decide_eq_true_2 (ds = [])) by done|rewrite (bool_decide_eq_false_2 (ds = [])) by done].
  - destruct (put_path runpath l PNone s3 o3 W3 D3 Ho3 ltac:(done)) as (s' & E' & W' & D' & Hs & Hn & Es). exists s'. split; [done|]. split; [done|]. split; [by rewrite (M_bind_step _ _ _ _ _ E')|]. split; [by rewrite Hn, En|]. do 3 (split; [done|]). rewrite Es. by apply put_keeps.
  - destruct (put_path runpath l (PDirs ds) s3 o3 W3 D3 Ho3) as (s' & E' & W' & D' & Hs & Hn & Es); [split; [done|by apply listed_known]|]. exists s'. split; [done|]. split; [done|].
    split; [by rewrite (M_bind_step _ _ _ _ _ E')|]. split; [by rewrite Hn, En|]. do 3 (split; [done|]). rewrite Es. by apply put_keeps.
Qed.
End Rpath.
