(* ===== verification/Hwcaps.v ===== *)
(** * Subdirectories for hardware capabilities

    The list of [glibc-hwcaps] subdirectories in which the loader looks for a file before the directory itself, and the priorities of
    their names ([elf/dl-hwcaps.c], [elf/dl-hwcaps_split.c]).

    Strings are lists of characters as in [Dst].  An array of pairs that point into a string area is the list of the strings; the room
    in both is checked.  The names built into the loader and those that are active are parameters, and so is [malloc]. *)

From S2P Require Import Prelude Dst Paths.

(** ** Splitting at colons *)
(** [segment] is the string from the current segment on. *)
Record hsplit := mkSplit { sp_segment : option (list Z); sp_length : nat }.
Definition _dl_hwcaps_split_init (subject : option (list Z)) : hsplit := mkSplit subject 0.

Fixpoint skip_colons (s : list Z) : list Z := match s with c :: s' => if c =? colon then skip_colons s' else s | [] => [] end.
(** The characters in front of the next colon or of the end *)
Fixpoint until_colon (s : list Z) : nat := match s with [] => O | c :: s => if c =? colon then O else S (until_colon s) end.

Definition _dl_hwcaps_split (s : hsplit) : bool * hsplit :=
  match sp_segment s with
  | None => (false, s)
  | Some segment =>
      match skip_colons (drop (sp_length s) segment) with
      | [] => (false, mkSplit (Some []) (sp_length s))
      | segment => (true, mkSplit (Some segment) (until_colon segment))
      end
  end.
(** The characters of the current segment *)
Definition sp_text (s : hsplit) : list Z := take (sp_length s) (default [] (sp_segment s)).
(** How often [_dl_hwcaps_split] can succeed at most, and one more *)
Definition sp_fuel (s : hsplit) : nat := S (length (drop (sp_length s) (default [] (sp_segment s)))).

Fixpoint while_split {A} (fuel : nat) (body : list Z -> A -> res A) (s : hsplit) (a : A) : res A :=
  match fuel with
  | O => Diverge
  | S fuel =>
      let '(more, s) := _dl_hwcaps_split s in
      if more then a ← body (sp_text s) a; while_split fuel body s a else mret a
  end.

Fixpoint contains_loop (fuel : nat) (s : hsplit) (name : list Z) : res bool :=
  match fuel with
  | O => Diverge
  | S fuel =>
      let '(more, s) := _dl_hwcaps_split s in
      if more then if (sp_length s =? length name)%nat && bool_decide (sp_text s = name) then mret true else contains_loop fuel s name
      else mret false
  end.
Definition _dl_hwcaps_contains (hwcaps : option (list Z)) (name : list Z) : res bool :=
  match hwcaps with
  | None => mret true
  | Some _ => let s := _dl_hwcaps_split_init hwcaps in contains_loop (sp_fuel s) s name
  end.

Record masked := mkMasked { ms_split : hsplit; ms_mask : option (list Z); ms_bitmask : Z }.
Definition _dl_hwcaps_split_masked_init (subject : option (list Z)) (bitmask : Z) (mask : option (list Z)) : masked := mkMasked (_dl_hwcaps_split_init subject) mask (u32 bitmask).

Fixpoint _dl_hwcaps_split_masked (fuel : nat) (s : masked) : res (bool * masked) :=
  match fuel with
  | O => Diverge
  | S fuel =>
      let '(more, sp) := _dl_hwcaps_split (ms_split s) in
      let active := Z.odd (ms_bitmask s) in
      if more then
        let s := mkMasked sp (ms_mask s) (Z.shiftr (ms_bitmask s) 1) in
        c ← (if active then _dl_hwcaps_contains (ms_mask s) (sp_text sp) else mret false);
        if (c : bool) then mret (true, s) else _dl_hwcaps_split_masked fuel s
      else mret (false, mkMasked sp (ms_mask s) (ms_bitmask s))
  end.

Fixpoint while_masked {A} (fuel : nat) (body : list Z -> A -> res A) (s : masked) (a : A) : res A :=
  match fuel with
  | O => Diverge
  | S fuel =>
      '(more, s) ← _dl_hwcaps_split_masked (sp_fuel (ms_split s)) s;
      if (more : bool) then a ← body (sp_text (ms_split s)) a; while_masked fuel body s a else mret a
  end.

(** ** Counting and copying *)
Record hwcaps_counts := mkCounts { hc_count : Z; hc_total_length : Z; hc_maximum_length : Z }.
Definition update_hwcaps_counts (counts : hwcaps_counts) (hwcaps : option (list Z)) (bitmask : Z) (mask : option (list Z)) : res hwcaps_counts :=
  let s := _dl_hwcaps_split_masked_init hwcaps bitmask mask in
  while_masked (sp_fuel (ms_split s))
    (fun seg c => let len := Z.of_nat (length seg) in
                  mret (mkCounts (hc_count c + 1) (hc_total_length c + len) (if hc_maximum_length c <? len then len else hc_maximum_length c))) s counts.

Definition GLIBC_HWCAPS_PREFIX : list Z := chars "glibc-hwcaps/".
(** The strings so far and the characters they take; [sz] pairs and [total] characters have room. *)
Definition copy_one (sz total : Z) (str : list Z) (t : list (list Z) * Z) : res (list (list Z) * Z) :=
  let '(pairs, used) := t in
  if (sz <=? Z.of_nat (length pairs)) || (total <? used + Z.of_nat (length str)) then Undef
  else mret (pairs ++ [str], used + Z.of_nat (length str)).
Definition copy_hwcaps (sz total : Z) (target : list (list Z) * Z) (hwcaps : option (list Z)) (bitmask : Z) (mask : option (list Z)) : res (list (list Z) * Z) :=
  let s := _dl_hwcaps_split_masked_init hwcaps bitmask mask in
  while_masked (sp_fuel (ms_split s)) (fun seg => copy_one sz total (GLIBC_HWCAPS_PREFIX ++ seg ++ [slash])) s target.

(** ** Priorities *)
Record dl_hwcaps_priority := mkPrio { pr_name : list Z; pr_priority : Z }.

(** [memcmp] on as many characters as the shorter one has *)
Fixpoint memcmp (a b : list Z) : Z := match a, b with x :: a, y :: b => if x =? y then memcmp a b else x - y | _, _ => 0 end.

Definition put_priority (total_count : Z) (seg : list Z) (a : list dl_hwcaps_priority) : res (list dl_hwcaps_priority) :=
  let i := Z.of_nat (length a) in
  if total_count <=? i then Undef else mret (a ++ [mkPrio seg (i + 1)]).

Section Hwcaps.
(** [_dl_hwcaps_subdirs], [_dl_hwcaps_subdirs_active ()], whether [malloc] succeeds *)
Context (subdirs : list Z) (subdirs_active : Z) (malloc : Z -> bool).

Definition compute_priorities (total_count : Z) (prepend : option (list Z)) (bitmask : Z) (mask : option (list Z)) : res (list dl_hwcaps_priority) :=
  if malloc (total_count * 16) then
    let sp := _dl_hwcaps_split_init prepend in
    a ← while_split (sp_fuel sp) (put_priority total_count) sp [];
    let s := _dl_hwcaps_split_masked_init (Some subdirs) bitmask mask in
    a ← while_masked (sp_fuel (ms_split s)) (put_priority total_count) s a;
    c_assert (Z.of_nat (length a) =? total_count) "i == total_count";;
    mret a
  else Signal "" "cannot create HWCAP priorities".

(** The inner loop of the insertion sort, from position [j] down *)
Fixpoint sort_down (a : list dl_hwcaps_priority) (j : nat) : res (list dl_hwcaps_priority) :=
  match j with
  | O => mret a
  | S j' =>
      previous ← rd a (Z.of_nat j');
      current ← rd a (Z.of_nat j);
      let cmp := memcmp (pr_name current) (pr_name previous) in
      if (0 <? cmp) || ((cmp =? 0) && (length (pr_name previous) <=? length (pr_name current))%nat) then mret a
      else a ← wr a (Z.of_nat j') current; a ← wr a (Z.of_nat j) previous; sort_down a j'
  end.
Fixpoint sort_from (n i : nat) (a : list dl_hwcaps_priority) : res (list dl_hwcaps_priority) :=
  match n with
  | O => mret a
  | S n => a ← sort_down a i; sort_from n (S i) a
  end.
Definition sort_priorities_by_name (a : list dl_hwcaps_priority) : res (list dl_hwcaps_priority) := sort_from (length a - 1) 1 a.

(** The subdirectories, [max_capstrlen] and [_dl_hwcaps_priorities] *)
Definition _dl_important_hwcaps (prepend mask : option (list Z)) : res (list (list Z) * Z * list dl_hwcaps_priority) :=
  counts ← update_hwcaps_counts (mkCounts 0 0 0) prepend (-1) None;
  counts ← update_hwcaps_counts counts (Some subdirs) subdirs_active mask;
  prios ← compute_priorities (hc_count counts) prepend subdirs_active mask;
  prios ← sort_priorities_by_name prios;
  let prefix_length := Z.of_nat (length GLIBC_HWCAPS_PREFIX) in
  let maximum_length := hc_maximum_length counts + (prefix_length + 1) in
  let total := hc_count counts * (prefix_length + 1) + hc_total_length counts in
  let sz := hc_count counts + 1 in
  if malloc (sz * 16 + total) then
    t ← copy_hwcaps sz total ([], 0) prepend (-1) None;
    t ← copy_hwcaps sz total t (Some subdirs) subdirs_active mask;
    t ← copy_one sz total [] t;
    mret (t.1, maximum_length, prios)
  else Signal "" "cannot create capability list".
End Hwcaps.
