(* ===== verification/HwcapsSpec.v ===== *)
(** * Subdirectories for hardware capabilities: what they are

    The names are those before colons, masked; their subdirectories fit in the memory that is requested, and the priorities are sorted by
    name and, for a name that occurs more than once, by rank. *)

From S2P Require Import Prelude Dst Paths Hwcaps.

(** ** Segments *)
Definition segments (s : list Z) : list (list Z) := filter (fun x => x <> []) (strsep [colon] s).
(** What is behind the current segment *)
Definition rest (s : hsplit) : list Z := drop (sp_length s) (default [] (sp_segment s)).

Lemma strsep_until s : strsep [colon] s = take (until_colon s) s :: match drop (until_colon s) s with [] => [] | _ :: t => strsep [colon] t end.
Proof.
  induction s as [|c s IH]; [done|]. cbn [strsep until_colon]. destruct (Z.eqb_spec c colon) as [->|Hc].
  - by rewrite bool_decide_eq_true_2 by set_solver.
  - rewrite bool_decide_eq_false_2 by set_solver. by rewrite IH.
Qed.
Lemma segments_colon s : segments (colon :: s) = segments s.
Proof. unfold segments. cbn [strsep]. rewrite bool_decide_eq_true_2 by set_solver. by rewrite filter_cons_False by (intros H; by destruct H). Qed.
Lemma skip_colons_spec s : segments (skip_colons s) = segments s /\ (length (skip_colons s) <= length s)%nat /\ head (skip_colons s) <> Some colon.
Proof.
  induction s as [|c s (IH1 & IH2 & IH3)]; [done|]. cbn [skip_colons]. destruct (Z.eqb_spec c colon) as [->|Hc].
  - rewrite segments_colon. split; [done|]. split; [cbn [length]; lia|done].
  - split; [done|]. split; [done|]. by intros [= ->].
Qed.
Lemma until_colon_drop s : segments (drop (until_colon s) s) = match drop (until_colon s) s with [] => [] | _ :: t => segments t end.
Proof.
  induction s as [|c s IH]; [done|]. cbn [until_colon]. destruct (Z.eqb_spec c colon) as [->|Hc]; [apply segments_colon|exact IH].
Qed.
Lemma segments_head s : s <> [] -> head s <> Some colon -> segments s = take (until_colon s) s :: segments (drop (until_colon s) s) /\ (0 < until_colon s)%nat.
Proof.
  intros Hs Hh. rewrite until_colon_drop. assert (Hu : (0 < until_colon s)%nat).
  { destruct s as [|c s]; [done|]. cbn [until_colon]. destruct (Z.eqb_spec c colon) as [->|]; [by destruct Hh|lia]. }
  split; [|done]. unfold segments. rewrite strsep_until. rewrite filter_cons_True.
  - f_equal. by destruct (drop (until_colon s) s).
  - intros E. apply (f_equal length) in E. rewrite length_take in E. destruct s; [done|]. cbn [length] in E. lia.
Qed.
Lemma split_spec s : match segments (rest s) with
                     | [] => exists s', _dl_hwcaps_split s = (false, s')
                     | x :: xs => exists s', _dl_hwcaps_split s = (true, s') /\ sp_text s' = x /\ sp_length s' = length x /\ segments (rest s') = xs /\ (length (rest s') < length (rest s))%nat
                     end.
Proof.
  unfold _dl_hwcaps_split, rest. destruct s as [[seg|] len]; cbn [sp_segment sp_length from_option id]; [|rewrite drop_nil; by eexists].
  destruct (skip_colons_spec (drop len seg)) as (E & Hl & Hh). rewrite <- E. destruct (skip_colons (drop len seg)) as [|c t] eqn:Es; [by eexists|].
  destruct (segments_head (c :: t) ltac:(done) Hh) as [-> Hu]. eexists. split; [done|]. unfold sp_text. cbn [sp_segment sp_length from_option id]. split; [done|]. split; [|split; [done|]].
  - rewrite length_take. assert (Hle : forall s, (until_colon s <= length s)%nat) by (induction s as [|x s IH]; cbn [until_colon length]; [lia|destruct (x =? colon); lia]). specialize (Hle (c :: t)). lia.
  - rewrite length_drop. cbn [length] in *. lia.
Qed.

(** ** Loops over segments *)
Fixpoint fold_res {A B} (body : B -> A -> res A) (xs : list B) (a : A) : res A := match xs with [] => mret a | x :: xs => a ← body x a; fold_res body xs a end.
Lemma while_split_spec {A} (body : list Z -> A -> res A) fuel s a : (length (rest s) < fuel)%nat -> while_split fuel body s a = fold_res body (segments (rest s)) a.
Proof.
  revert s a. induction fuel as [|fuel IH]; intros s a Hf; [lia|]. cbn [while_split]. pose proof (split_spec s) as H. destruct (segments (rest s)) as [|x xs].
  - by destruct H as (s' & ->).
  - destruct H as (s' & -> & -> & _ & <- & Hl). cbn [fold_res]. destruct (body x a) as [a'| | | |]; cbn; [apply IH; lia|done..].
Qed.

Definition allowed (mask : option (list Z)) (name : list Z) : bool := match mask with None => true | Some m => bool_decide (name ∈ segments m) end.
Lemma contains_loop_spec fuel s name : (length (rest s) < fuel)%nat -> contains_loop fuel s name = Ok (bool_decide (name ∈ segments (rest s))).
Proof.
  revert s. induction fuel as [|fuel IH]; intros s Hf; [lia|]. cbn [contains_loop]. pose proof (split_spec s) as H. destruct (segments (rest s)) as [|x xs].
  - destruct H as (s' & ->). by rewrite bool_decide_eq_false_2 by apply not_elem_of_nil.
  - destruct H as (s' & -> & Ht & Hlen & <- & Hl). rewrite Ht, Hlen. destruct (decide (x = name)) as [->|Hne].
    + rewrite Nat.eqb_refl, bool_decide_eq_true_2 by done. by rewrite bool_decide_eq_true_2 by (apply elem_of_cons; by left).
    + rewrite (bool_decide_eq_false_2 (x = name)), andb_false_r by done. rewrite IH by lia. f_equal. apply bool_decide_ext. rewrite elem_of_cons. naive_solver.
Qed.
Lemma contains_spec mask name : _dl_hwcaps_contains mask name = Ok (allowed mask name).
Proof. destruct mask as [m|]; [|done]. unfold _dl_hwcaps_contains. rewrite contains_loop_spec; [done|]. unfold sp_fuel, rest. lia. Qed.

(** The names whose bit is set and which the mask allows *)
Fixpoint active_names (bitmask : Z) (mask : option (list Z)) (xs : list (list Z)) : list (list Z) :=
  match xs with
  | [] => []
  | x :: xs => if Z.odd bitmask && allowed mask x then x :: active_names (Z.shiftr bitmask 1) mask xs else active_names (Z.shiftr bitmask 1) mask xs
  end.
Definition left_names (s : masked) : list (list Z) := active_names (ms_bitmask s) (ms_mask s) (segments (rest (ms_split s))).
Lemma split_masked_spec fuel s : (length (rest (ms_split s)) < fuel)%nat ->
  match left_names s with
  | [] => exists s', _dl_hwcaps_split_masked fuel s = Ok (false, s')
  | x :: xs => exists s', _dl_hwcaps_split_masked fuel s = Ok (true, s') /\ sp_text (ms_split s') = x /\ left_names s' = xs /\ (length (rest (ms_split s')) < length (rest (ms_split s)))%nat
  end.
Proof.
  revert s. induction fuel as [|fuel IH]; intros s Hf; [lia|]. cbn [_dl_hwcaps_split_masked]. unfold left_names. pose proof (split_spec (ms_split s)) as H.
  destruct (segments (rest (ms_split s))) as [|x xs]; cbn [active_names]; [destruct H as (s' & ->); by eexists|].
  destruct H as (sp & -> & Ht & _ & Hs & Hl). set (s1 := mkMasked sp (ms_mask s) (Z.shiftr (ms_bitmask s) 1)).
  assert (E : (if Z.odd (ms_bitmask s) then _dl_hwcaps_contains (ms_mask s1) (sp_text sp) else mret false) = Ok (Z.odd (ms_bitmask s) && allowed (ms_mask s) x)).
  { rewrite Ht. cbn [ms_mask s1]. rewrite contains_spec. by destruct (Z.odd (ms_bitmask s)). }
  rewrite E. cbn [mbind res_bind]. rewrite <- Hs. change (active_names (Z.shiftr (ms_bitmask s) 1) (ms_mask s) (segments (rest sp))) with (left_names s1).
  destruct (Z.odd (ms_bitmask s) && allowed (ms_mask s) x); [by exists s1|]. specialize (IH s1 ltac:(cbn [s1 ms_split]; lia)).
  destruct (left_names s1) as [|y ys]; [done|]. destruct IH as (s' & ? & ? & ? & Hl'). exists s'. cbn [s1 ms_split] in Hl'. repeat (split; [done|]). lia.
Qed.
Lemma while_masked_spec {A} (body : list Z -> A -> res A) fuel s a : (length (rest (ms_split s)) < fuel)%nat -> while_masked fuel body s a = fold_res body (left_names s) a.
Proof.
  revert s a. induction fuel as [|fuel IH]; intros s a Hf; [lia|]. cbn [while_masked]. pose proof (split_masked_spec (sp_fuel (ms_split s)) s) as H. unfold sp_fuel in H at 1. specialize (H ltac:(unfold rest; lia)).
  destruct (left_names s) as [|x xs].
  - destruct H as (s' & ->). done.
  - destruct H as (s' & -> & Ht & <- & Hl). cbn [mbind res_bind fold_res]. rewrite Ht. destruct (body x a) as [a'| | | |]; cbn; [apply IH; lia|done..].
Qed.
Lemma loop_names {A} (body : list Z -> A -> res A) subject bitmask mask a :
  (let s := _dl_hwcaps_split_masked_init subject bitmask mask in while_masked (sp_fuel (ms_split s)) body s a) = fold_res body (active_names (u32 bitmask) mask (segments (default [] subject))) a.
Proof. cbv zeta. rewrite while_masked_spec; [done|]. unfold sp_fuel, rest. lia. Qed.
(** Thirty-two bits do for thirty-two names. *)
Lemma active_ones n xs : (length xs <= n)%nat -> active_names (Z.ones (Z.of_nat n)) None xs = xs.
Proof.
  revert n. induction xs as [|x xs IH]; intros n Hn; [done|]. cbn [length] in Hn. destruct n as [|n]; [lia|]. cbn [active_names allowed].
  assert (Ho : Z.ones (Z.of_nat (S n)) = 2 * Z.ones (Z.of_nat n) + 1) by (rewrite !Z.ones_equiv, Nat2Z.inj_succ, Z.pow_succ_r by lia; lia).
  rewrite Ho, Z.odd_add, Z.odd_mul. cbn [Z.odd andb xorb]. f_equal. rewrite <- Z.div2_spec. replace (Z.div2 (2 * Z.ones (Z.of_nat n) + 1)) with (Z.ones (Z.of_nat n)); [apply IH; lia|].
  rewrite Z.div2_div. rewrite Z.mul_comm, Z.div_add_l by lia. change (1 / 2) with 0. lia.
Qed.

(** ** The order of names *)
Fixpoint name_cmp (a b : list Z) : comparison :=
  match a, b with
  | [], [] => Eq
  | [], _ => Lt
  | _, [] => Gt
  | x :: a, y :: b => match x ?= y with Eq => name_cmp a b | c => c end
  end.
Lemma name_cmp_eq a b : name_cmp a b = Eq <-> a = b.
Proof.
  revert b. induction a as [|x a IH]; intros [|y b]; cbn; [done..|]. destruct (Z.compare_spec x y) as [->|Hxy|Hxy]; [rewrite IH; split; [by intros ->|by intros [= ->]]|split; [done|intros [= -> ->]; lia]..].
Qed.
Lemma name_cmp_refl a : name_cmp a a = Eq.
Proof. by apply name_cmp_eq. Qed.
Lemma name_cmp_opp a b : name_cmp b a = CompOpp (name_cmp a b).
Proof. revert b. induction a as [|x a IH]; intros [|y b]; cbn; [done..|]. rewrite Z.compare_antisym. destruct (x ?= y); cbn; [apply IH|done|done]. Qed.
Lemma name_cmp_trans a b c : name_cmp a b = Lt -> name_cmp b c = Lt -> name_cmp a c = Lt.
Proof.
  revert b c. induction a as [|x a IH]; intros [|y b] [|z c]; cbn; try done.
  destruct (Z.compare_spec x y) as [->|Hxy|Hxy], (Z.compare_spec y z) as [->|Hyz|Hyz]; try done; intros H1 H2.
  - by apply (IH b).
  - by rewrite (proj2 (Z.compare_lt_iff x z)).
  - by rewrite (proj2 (Z.compare_lt_iff x z)) by lia.
Qed.
(** [memcmp] and the lengths decide like the order of names. *)
Lemma memcmp_cmp a b : match name_cmp a b with
                       | Lt => memcmp a b < 0 \/ memcmp a b = 0 /\ (length a < length b)%nat
                       | Eq => memcmp a b = 0 /\ length a = length b
                       | Gt => 0 < memcmp a b \/ memcmp a b = 0 /\ (length b < length a)%nat
                       end.
Proof.
  revert b. induction a as [|x a IH]; intros [|y b]; cbn; [done|right; split; [done|lia]..|]. specialize (IH b).
  destruct (Z.compare_spec x y) as [->|H|H]; [rewrite Z.eqb_refl|rewrite (proj2 (Z.eqb_neq x y)) by lia; left; lia..]. destruct (name_cmp a b); lia.
Qed.
Lemma break_cmp a b : (0 <? memcmp a b) || ((memcmp a b =? 0) && (length b <=? length a)%nat) = match name_cmp a b with Lt => false | _ => true end.
Proof.
  pose proof (memcmp_cmp a b) as H. destruct (Z.ltb_spec 0 (memcmp a b)), (Z.eqb_spec (memcmp a b) 0), (Nat.leb_spec (length b) (length a)), (name_cmp a b); cbn [orb andb]; done || lia.
Qed.

(** ** Sorting *)
Definition before (p q : dl_hwcaps_priority) : Prop := name_cmp (pr_name p) (pr_name q) = Lt \/ pr_name p = pr_name q /\ pr_priority p < pr_priority q.
Lemma before_trans p q r : before p q -> before q r -> before p r.
Proof.
  unfold before. intros [H1|[H1 H1']] [H2|[H2 H2']]; [left; by eapply name_cmp_trans|left; congruence|left; congruence|right; split; [congruence|lia]].
Qed.
Lemma sorted_snoc pre y : StronglySorted before (pre ++ [y]) <-> StronglySorted before pre /\ Forall (fun p => before p y) pre.
Proof.
  induction pre as [|p pre IH]; cbn; [split; [by repeat constructor|intros _; by repeat constructor]|]. split.
  - intros H. inversion H as [|? ? Hs Hf]; subst. apply IH in Hs as [Hs Hy]. apply Forall_app in Hf as [Hf Hpy]. inversion Hpy; subst. split; constructor; done.
  - intros [H Hy]. inversion H as [|? ? Hs Hf]; subst. inversion Hy; subst. constructor; [by apply IH|]. apply Forall_app. split; [done|by constructor].
Qed.
Lemma rd_middle {A} (pre : list A) x post : rd (pre ++ x :: post) (Z.of_nat (length pre)) = Ok x.
Proof. apply rd_nat. by apply list_lookup_middle. Qed.
Lemma wr_middle {A} (pre : list A) x y post : wr (pre ++ x :: post) (Z.of_nat (length pre)) y = Ok (pre ++ y :: post).
Proof. rewrite wr_Ok by (rewrite length_app; cbn [length]; lia). rewrite Nat2Z.id. f_equal. rewrite <- (Nat.add_0_r (length pre)). by rewrite insert_app_r. Qed.
Lemma sort_down_spec pre x post : StronglySorted before pre -> Forall (fun p => pr_priority p < pr_priority x) pre ->
  exists pre1 pre2, pre = pre1 ++ pre2 /\ sort_down (pre ++ x :: post) (length pre) = Ok (pre1 ++ x :: pre2 ++ post) /\ StronglySorted before (pre1 ++ x :: pre2).
Proof.
  revert post. induction pre as [|y pre IH] using rev_ind; intros post Hs Hp.
  { exists [], []. split; [done|]. split; [done|]. by repeat constructor. }
  pose proof Hs as [Hs1 Hy]%sorted_snoc. apply Forall_app in Hp as [Hp Hpy]. inversion Hpy as [|? ? Hxy _]; subst. rewrite length_app, Nat.add_1_r. cbn [sort_down].
  rewrite <- app_assoc. cbn [app]. rewrite rd_middle. cbn [mbind res_bind]. assert (Hr : rd (pre ++ y :: x :: post) (Z.of_nat (S (length pre))) = Ok x).
  { pose proof (rd_middle (pre ++ [y]) x post) as R. by rewrite <- app_assoc, length_app, Nat.add_1_r in R. }
  rewrite Hr. cbn [mbind res_bind]. rewrite break_cmp. destruct (name_cmp (pr_name x) (pr_name y)) eqn:E.
  1,3: exists (pre ++ [y]), []; split; [by rewrite app_nil_r|]; split; [by rewrite <- app_assoc|]; apply sorted_snoc; split; [done|];
    assert (Hyx : before y x) by (by (right; split; [symmetry; by apply name_cmp_eq|done]) || (left; rewrite name_cmp_opp, E; done));
    apply Forall_app; split; [|by constructor]; apply (Forall_impl _ _ _ Hy); intros p Hpy'; by apply (before_trans p y).
  rewrite wr_middle. cbn [mbind res_bind]. assert (Hw : wr (pre ++ x :: x :: post) (Z.of_nat (S (length pre))) y = Ok (pre ++ x :: y :: post)).
  { pose proof (wr_middle (pre ++ [x]) x y post) as R. by rewrite <- !app_assoc, length_app, Nat.add_1_r in R. }
  rewrite Hw. cbn [mbind res_bind]. destruct (IH (y :: post) Hs1 Hp) as (pre1 & pre2 & -> & -> & Hs'). exists pre1, (pre2 ++ [y]). rewrite <- !app_assoc. split; [done|]. split; [done|].
  change (pre1 ++ x :: pre2 ++ [y]) with (pre1 ++ (x :: pre2) ++ [y]). rewrite app_assoc. apply sorted_snoc. split; [done|]. apply Forall_app in Hy as [Hy1 Hy2]. apply Forall_app. split; [done|]. constructor; [by left|done].
Qed.
Lemma sort_from_spec todo done_ : StronglySorted before done_ -> StronglySorted (fun p q => pr_priority p < pr_priority q) todo -> Forall (fun p => Forall (fun q => pr_priority p < pr_priority q) todo) done_ ->
  exists a, sort_from (length todo) (length done_) (done_ ++ todo) = Ok a /\ a ≡ₚ done_ ++ todo /\ StronglySorted before a.
Proof.
  revert done_. induction todo as [|x todo IH]; intros done_ Hs Ht Hd; [exists done_; by rewrite app_nil_r|]. cbn [length sort_from]. inversion Ht as [|? ? Ht1 Hx]; subst.
  destruct (sort_down_spec done_ x todo Hs) as (pre1 & pre2 & -> & -> & Hs1); [apply (Forall_impl _ _ _ Hd); intros p Hp; by inversion Hp|]. cbn [mbind res_bind].
  change (pre1 ++ x :: pre2 ++ todo) with (pre1 ++ (x :: pre2) ++ todo). rewrite (app_assoc pre1 (x :: pre2) todo). replace (S (length (pre1 ++ pre2))) with (length (pre1 ++ x :: pre2)) by (rewrite !length_app; cbn [length]; lia).
  destruct (IH (pre1 ++ x :: pre2) Hs1 Ht1) as (a & E & Hp & Ha).
  - apply Forall_app in Hd as [Hd1 Hd2]. apply Forall_app. split; [|constructor; [done|]]; eapply Forall_impl; [exact Hd1|intros p Hp; by inversion Hp|exact Hd2|intros p Hp; by inversion Hp].
  - exists a. split; [exact E|]. split; [|done]. rewrite Hp. rewrite <- !app_assoc. cbn [app]. solve_Permutation.
Qed.

(** ** What the loops collect *)
Definition sum_len (xs : list (list Z)) : Z := foldr (fun x n => Z.of_nat (length x) + n) 0 xs.
Definition max_len (m : Z) (xs : list (list Z)) : Z := foldl (fun m x => Z.max m (Z.of_nat (length x))) m xs.
Lemma max_len_le m xs : m <= max_len m xs /\ forall x, x ∈ xs -> Z.of_nat (length x) <= max_len m xs.
Proof.
  revert m. induction xs as [|x xs IH]; intros m; cbn [max_len foldl]; [split; [done|by intros x ?%elem_of_nil]|].
  destruct (IH (Z.max m (Z.of_nat (length x)))) as [H1 H2]. fold (max_len (Z.max m (Z.of_nat (length x))) xs). split; [lia|]. intros y [-> |Hy]%elem_of_cons; [lia|by apply H2].
Qed.
Lemma sum_len_app xs ys : sum_len (xs ++ ys) = sum_len xs + sum_len ys.
Proof. induction xs as [|x xs IH]; [done|]. cbn [app sum_len foldr]. fold (sum_len (xs ++ ys)) (sum_len xs). lia. Qed.
Lemma sum_len_nonneg xs : 0 <= sum_len xs.
Proof. induction xs as [|x xs IH]; [done|]. cbn [sum_len foldr]. fold (sum_len xs). lia. Qed.

Lemma counts_spec c hwcaps bitmask mask : let xs := active_names (u32 bitmask) mask (segments (default [] hwcaps)) in
  update_hwcaps_counts c hwcaps bitmask mask = Ok (mkCounts (hc_count c + Z.of_nat (length xs)) (hc_total_length c + sum_len xs) (max_len (hc_maximum_length c) xs)).
Proof.
  unfold update_hwcaps_counts. rewrite loop_names. cbv zeta. generalize (active_names (u32 bitmask) mask (segments (default [] hwcaps))). intros xs.
  revert c. induction xs as [|x xs IH]; intros [n t m]; cbn [fold_res]; [cbn; f_equal; f_equal; lia|]. cbn [mbind res_bind mret res_ret]. rewrite IH. cbn [hc_count hc_total_length hc_maximum_length].
  cbn [length sum_len foldr max_len foldl]. fold (sum_len xs). f_equal. f_equal; [lia|lia|]. unfold max_len. f_equal. destruct (Z.ltb_spec m (Z.of_nat (length x))); lia.
Qed.
Definition subdir (x : list Z) : list Z := GLIBC_HWCAPS_PREFIX ++ x ++ [slash].
Lemma subdir_len x : Z.of_nat (length (subdir x)) = Z.of_nat (length x) + 14.
Proof. unfold subdir. rewrite !length_app. change (length GLIBC_HWCAPS_PREFIX) with 13%nat. cbn [length]. lia. Qed.
Lemma copy_one_ok sz total str pairs used : Z.of_nat (length pairs) < sz -> used + Z.of_nat (length str) <= total ->
  copy_one sz total str (pairs, used) = Ok (pairs ++ [str], used + Z.of_nat (length str)).
Proof. intros H1 H2. unfold copy_one. by rewrite (proj2 (Z.leb_gt _ _)), (proj2 (Z.ltb_ge _ _)) by lia. Qed.
Lemma copy_spec sz total pairs used hwcaps bitmask mask : let xs := active_names (u32 bitmask) mask (segments (default [] hwcaps)) in
  Z.of_nat (length pairs) + Z.of_nat (length xs) <= sz -> used + sum_len xs + 14 * Z.of_nat (length xs) <= total ->
  copy_hwcaps sz total (pairs, used) hwcaps bitmask mask = Ok (pairs ++ (subdir <$> xs), used + sum_len xs + 14 * Z.of_nat (length xs)).
Proof.
  unfold copy_hwcaps. rewrite loop_names. cbv zeta. generalize (active_names (u32 bitmask) mask (segments (default [] hwcaps))). intros xs. change (fun seg => copy_one _ _ _) with (fun seg => copy_one sz total (subdir seg)).
  revert pairs used. induction xs as [|x xs IH]; intros pairs used H1 H2; cbn [fold_res]; [cbn; rewrite app_nil_r; f_equal; f_equal; lia|].
  cbn [length sum_len foldr] in H1, H2 |- *. fold (sum_len xs) in H2 |- *. pose proof (sum_len_nonneg xs). cbv beta. rewrite copy_one_ok by (rewrite ?subdir_len; lia).
  rewrite subdir_len. cbn [mbind res_bind]. rewrite IH; [|rewrite length_app; cbn [length]; lia|lia].
  rewrite <- app_assoc. cbn [app fmap list_fmap]. f_equal. f_equal. lia.
Qed.
(** The names with their ranks *)
Definition ranked (from : nat) (xs : list (list Z)) : list dl_hwcaps_priority := imap (fun i x => mkPrio x (Z.of_nat (from + i) + 1)) xs.
Lemma ranked_cons from x xs : ranked from (x :: xs) = mkPrio x (Z.of_nat from + 1) :: ranked (S from) xs.
Proof. unfold ranked. rewrite imap_cons. f_equal; [by rewrite Nat.add_0_r|]. apply imap_ext. intros i y _. cbn. f_equal. lia. Qed.
Lemma put_spec total a xs : Z.of_nat (length a) + Z.of_nat (length xs) <= total -> fold_res (put_priority total) xs a = Ok (a ++ ranked (length a) xs).
Proof.
  revert a. induction xs as [|x xs IH]; intros a H; cbn [fold_res]; [unfold ranked; cbn; by rewrite app_nil_r|]. cbn [length] in H.
  assert (E : put_priority total x a = Ok (a ++ [mkPrio x (Z.of_nat (length a) + 1)])) by (unfold put_priority; by rewrite (proj2 (Z.leb_gt _ _)) by lia).
  rewrite E. cbn [mbind res_bind]. rewrite IH by (rewrite length_app; cbn [length]; lia). rewrite ranked_cons, <- app_assoc, length_app, Nat.add_1_r. done.
Qed.
Lemma ranked_app from xs ys : ranked from (xs ++ ys) = ranked from xs ++ ranked (from + length xs) ys.
Proof.
  revert from. induction xs as [|x xs IH]; intros from; cbn [app length]; [by rewrite Nat.add_0_r|]. rewrite !ranked_cons, IH. cbn [app]. f_equal. f_equal. f_equal. lia.
Qed.
Lemma ranked_sorted from xs : StronglySorted (fun p q => pr_priority p < pr_priority q) (ranked from xs).
Proof.
  revert from. induction xs as [|x xs IH]; intros from; [by constructor|]. rewrite ranked_cons. constructor; [done|]. apply Forall_forall. intros p Hp. unfold ranked in Hp.
  apply list_elem_of_lookup in Hp as [i Hi]. rewrite list_lookup_imap in Hi. apply fmap_Some in Hi as (y & _ & ->). cbn [pr_priority]. lia.
Qed.

(** ** The whole *)
Section Hwcaps.
Context (subdirs : list Z) (subdirs_active : Z) (malloc : Z -> bool).
Context (prepend mask : option (list Z)).

(** In the order of preference *)
Definition hwcap_names : list (list Z) := segments (default [] prepend) ++ active_names (u32 subdirs_active) mask (segments subdirs).
Hypothesis Hprepend : (length (segments (default [] prepend)) <= 32)%nat.

Lemma prepended : active_names (u32 (-1)) None (segments (default [] prepend)) = segments (default [] prepend).
Proof using Hprepend. exact (active_ones 32 _ Hprepend). Qed.
Lemma compute_spec : match compute_priorities subdirs malloc (Z.of_nat (length hwcap_names)) prepend subdirs_active mask with
                     | Ok a => a = ranked 0 hwcap_names
                     | Signal _ _ => exists n, malloc n = false
                     | _ => False
                     end.
Proof using.
  clear Hprepend. unfold compute_priorities. destruct (malloc _) eqn:Em; [|by eexists]. cbv zeta. rewrite while_split_spec by (unfold sp_fuel, rest; lia). cbn [_dl_hwcaps_split_init rest sp_segment sp_length].
  change (segments (rest (_dl_hwcaps_split_init prepend))) with (segments (default [] prepend)). unfold hwcap_names. rewrite length_app, put_spec by (cbn [length]; lia). cbn [mbind res_bind app length].
  pose proof (loop_names (put_priority (Z.of_nat (length (segments (default [] prepend)) + length (active_names (u32 subdirs_active) mask (segments subdirs))))) (Some subdirs) subdirs_active mask) as L. cbv zeta in L.
  rewrite L. cbn [from_option id]. assert (Hr : forall n xs, length (ranked n xs) = length xs) by (intros; apply length_imap). rewrite put_spec by (rewrite Hr; lia).
  cbn [mbind res_bind]. rewrite length_app, !Hr, Z.eqb_refl. cbn. by rewrite ranked_app.
Qed.
Lemma sort_spec xs : exists a, sort_priorities_by_name (ranked 0 xs) = Ok a /\ a ≡ₚ ranked 0 xs /\ StronglySorted before a.
Proof using.
  unfold sort_priorities_by_name. pose proof (ranked_sorted 0 xs) as H. destruct (ranked 0 xs) as [|p a]; [exists []; by repeat constructor|]. inversion H as [|? ? Ht Hp]; subst. cbn [length]. rewrite Nat.sub_1_r. cbn [Nat.pred].
  apply (sort_from_spec a [p]); [by repeat constructor|done|by repeat constructor].
Qed.

(** C33. With at most 32 names in front of the built-in ones: the list has one subdirectory for every name in the order of preference and
    the directory itself at its end, no string is longer than [max_capstrlen], and everything fits in the memory that was requested.  The
    priorities are the ranks of the names, sorted by name, equal names by rank. *)
Theorem important_hwcaps_spec :
  match _dl_important_hwcaps subdirs subdirs_active malloc prepend mask with
  | Ok (caps, max_capstrlen, prios) =>
      caps = (subdir <$> hwcap_names) ++ [[]] /\ (forall cap, cap ∈ caps -> Z.of_nat (length cap) <= max_capstrlen) /\
      prios ≡ₚ ranked 0 hwcap_names /\ StronglySorted before prios
  | Signal _ _ => exists n, malloc n = false
  | _ => False
  end.
Proof using Hprepend.
  unfold _dl_important_hwcaps. rewrite counts_spec. cbn [mbind res_bind]. rewrite counts_spec. cbn [mbind res_bind hc_count hc_total_length hc_maximum_length from_option id].
  rewrite prepended. set (xs := segments (default [] prepend)). set (ys := active_names _ _ (segments subdirs)).
  assert (Hn : 0 + Z.of_nat (length xs) + Z.of_nat (length ys) = Z.of_nat (length hwcap_names)) by (unfold hwcap_names; rewrite length_app; fold xs ys; lia). rewrite Hn.
  pose proof compute_spec as Hc. destruct (compute_priorities _ _ _ _ _ _) as [a|? ?| | |]; try done. subst a. cbn [mbind res_bind].
  destruct (sort_spec hwcap_names) as (a & -> & Hp & Hs). cbn [mbind res_bind]. destruct (malloc _) eqn:Em; [|by eexists].
  change (length GLIBC_HWCAPS_PREFIX) with 13%nat. pose proof (sum_len_nonneg ys). rewrite copy_spec; rewrite prepended; fold xs; [|cbn [length]; lia|lia]. cbn [mbind res_bind app].
  rewrite copy_spec; cbn [from_option id]; fold ys; [|rewrite length_fmap; lia|lia]. cbn [mbind res_bind]. rewrite copy_one_ok; [|rewrite length_app, !length_fmap; lia|cbn [length]; lia].
  cbn [mbind res_bind fst]. split; [unfold hwcap_names; by rewrite fmap_app|]. split; [|done].
  destruct (max_len_le 0 xs) as [_ H1]. destruct (max_len_le (max_len 0 xs) ys) as [H2 H3]. intros cap [[(x & -> & Hx)%list_elem_of_fmap|(x & -> & Hx)%list_elem_of_fmap]%elem_of_app|Hx%list_elem_of_singleton]%elem_of_app.
  - rewrite subdir_len. specialize (H1 x Hx). lia.
  - rewrite subdir_len. specialize (H3 x Hx). lia.
  - subst cap. cbn [length]. pose proof (max_len_le 0 xs) as [? _]. lia.
Qed.
End Hwcaps.
