(* ===== verification/HwcapsExamples.v ===== *)
(** * Subdirectories for hardware capabilities: x86-64

    Witness: two names in front of the built-in ones, and a list of them that is too long. *)

From S2P Require Import Prelude Dst Paths Hwcaps HwcapsSpec.

Module Example23.
Definition subdirs : list Z := chars "x86-64-v4:x86-64-v3:x86-64-v2".
Definition prepend : option (list Z) := Some (chars "mine::x86-64-v2:").

Lemma important_hwcaps_spec_witness :
  match _dl_important_hwcaps subdirs 6 (fun _ => true) prepend None with
  | Ok (caps, max_capstrlen, prios) =>
      caps = (subdir <$> hwcap_names subdirs 6 prepend None) ++ [[]] /\ (forall cap, cap ∈ caps -> Z.of_nat (length cap) <= max_capstrlen) /\
      prios ≡ₚ ranked 0 (hwcap_names subdirs 6 prepend None) /\ StronglySorted before prios
  | Signal _ _ => exists n : Z, true = false
  | _ => False
  end.
Proof. exact (important_hwcaps_spec subdirs 6 (fun _ => true) prepend None ltac:(apply (bool_decide_unpack _); by vm_compute)). Defined.

Lemma hwcaps_example :
  _dl_important_hwcaps subdirs 6 (fun _ => true) prepend None =
  Ok ([chars "glibc-hwcaps/mine/"; chars "glibc-hwcaps/x86-64-v2/"; chars "glibc-hwcaps/x86-64-v3/"; chars "glibc-hwcaps/x86-64-v2/"; []], 23,
      [mkPrio (chars "mine") 1; mkPrio (chars "x86-64-v2") 2; mkPrio (chars "x86-64-v2") 4; mkPrio (chars "x86-64-v3") 3]).
Proof. by vm_compute. Qed.

(** The bit mask for the names in front has 32 bits: of 33 names 32 are counted, and the array of priorities is written behind its end. *)
Definition many : list Z := foldr (fun _ s => [97; colon] ++ s) [] (seq 0 33).
Lemma too_many_names : _dl_important_hwcaps subdirs 0 (fun _ => true) (Some many) None = Undef.
Proof. by vm_compute. Qed.
End Example23.
