(* ===== verification/Verify.v ===== *)
(** * The verification of files

    [open_verify] ([elf/dl-load.c]) opens a file, reads its start and decides whether it is an ELF file for this machine; the program
    header table is then read for [LoadCmds].

    A file is opened and read by the kernel, a parameter.  The state is the set of open descriptors.  The part of [filebuf.buf] that has
    been read is the list of its bytes, so that [filebuf.len] is its length.  Auditing is left out. *)

From S2P Require Import Prelude LinkMap LoadCmds Dst Paths.

Definition FILEBUF_SIZE : Z := 832.
Definition EHDR_SIZE : Z := 64.
Definition PHDR_SIZE : Z := 56.
Definition ET_EXEC : Z := 2.
Definition EM_X86_64 : Z := 62.
Definition EV_CURRENT : Z := 1.
Definition ELFCLASS64 : Z := 2.
Definition ELFDATA2LSB : Z := 1.
Definition ELFOSABI_SYSV : Z := 0.
Definition ELFOSABI_GNU : Z := 3.

(** ** Fields *)
(** [n] bytes from [off] on, as an integer with the lowest byte first *)
Fixpoint le_value (bs : list Z) : Z := match bs with [] => 0 | b :: bs => b + 256 * le_value bs end.
Definition bytes (off n : nat) (bs : list Z) : list Z := take n (drop off bs).
Definition field (off n : nat) (bs : list Z) : Z := le_value (bytes off n bs).

Definition e_ident (bs : list Z) : list Z := bytes 0 16 bs.
Definition e_type (bs : list Z) : Z := field 16 2 bs.
Definition e_machine (bs : list Z) : Z := field 18 2 bs.
Definition e_version (bs : list Z) : Z := field 20 4 bs.
Definition e_phoff (bs : list Z) : Z := field 32 8 bs.
Definition e_phentsize (bs : list Z) : Z := field 54 2 bs.
Definition e_phnum (bs : list Z) : Z := field 56 2 bs.

(** [Elf64_Phdr] *)
Definition phdr_at (bs : list Z) : Phdr :=
  mkPh64 (field 0 4 bs) (field 4 4 bs) (field 8 8 bs) (field 16 8 bs) (field 32 8 bs) (field 40 8 bs) (field 48 8 bs).
Fixpoint phdrs (n : nat) (bs : list Z) : list Phdr := match n with O => [] | S n => phdr_at bs :: phdrs n (drop 56 bs) end.

(** ** The expected header *)
Definition expected : list Z := [127; 69; 76; 70; ELFCLASS64; ELFDATA2LSB; EV_CURRENT; ELFOSABI_SYSV; 0; 0; 0; 0; 0; 0; 0; 0].
Definition expected2 : list Z := [127; 69; 76; 70; ELFCLASS64; ELFDATA2LSB; EV_CURRENT; ELFOSABI_GNU; 0].

Definition memcmp_eq (a b : list Z) (n : nat) : bool := bool_decide (take n a = take n b).
Definition VALID_ELF_HEADER (hdr exp : list Z) (size : nat) : bool := memcmp_eq hdr exp size || memcmp_eq hdr expected2 size.
Definition VALID_ELF_OSABI (osabi : Z) : bool := (osabi =? ELFOSABI_SYSV) || (osabi =? ELFOSABI_GNU).
Definition elf_machine_matches_host (bs : list Z) : bool := e_machine bs =? EM_X86_64.
Definition elf_machine_reject_phdr_p : bool := false.

Section Verify.
(** Generated from [libc-abis] by the build *)
Context (LIBC_ABI_MAX : Z).
(** A descriptor or [errno]; [read] at a position of the file and [pread]: bytes or [errno] *)
Context (open64 : list Z -> Z + Z) (read : Z -> Z -> Z -> list Z + Z) (pread64 : Z -> Z -> Z -> list Z + Z).

Definition VALID_ELF_ABIVERSION (osabi ver : Z) : bool := (ver =? 0) || ((osabi =? ELFOSABI_GNU) && (ver <? LIBC_ABI_MAX)).

(** The buffer and [errno]. *)
Fixpoint read_header (fuel : nat) (fd : Z) (buf : list Z) : res (list Z * Z) :=
  match fuel with
  | O => Diverge
  | S fuel =>
      let len := Z.of_nat (length buf) in
      match read fd len (FILEBUF_SIZE - len) with
      | inr err => mret (buf, err)
      | inl [] => mret (buf, 0)
      | inl bs =>
          if FILEBUF_SIZE - len <? Z.of_nat (length bs) then Undef
          else if Z.of_nat (length (buf ++ bs)) <? EHDR_SIZE then read_header fuel fd (buf ++ bs) else mret (buf ++ bs, 0)
      end
  end.

(** The message for a header that is not as expected; nothing for a file of another class. *)
Definition header_error (buf : list Z) : option string :=
  let id := e_ident buf in
  if negb (field 0 4 buf =? Z.lor (Z.lor (Z.lor 127 (Z.shiftl 69 8)) (Z.shiftl 76 16)) (Z.shiftl 70 24)) then Some "invalid ELF header"
  else if negb (at_ id 4 =? ELFCLASS64) then None
  else if negb (at_ id 5 =? ELFDATA2LSB) then Some "ELF file data encoding not little-endian"
  else if negb (at_ id 6 =? EV_CURRENT) then Some "ELF file version ident does not match current one"
  else if negb (VALID_ELF_OSABI (at_ id 7)) then Some "ELF file OS ABI invalid"
  else if negb (VALID_ELF_ABIVERSION (at_ id 7) (at_ id 8)) then Some "ELF file ABI version invalid"
  else if negb (memcmp_eq (drop 9 id) (drop 9 expected) 7) then Some "nonzero padding in e_ident"
  else Some "internal error".

(** The program header table: its bytes, or nothing when they can not be read.  A position in the buffer is outside of the buffer when
    the sum that was compared has wrapped around. *)
Definition phdr_bytes (fd : Z) (buf : list Z) : res (option (list Z)) :=
  let maplength := u64 (e_phnum buf * PHDR_SIZE) in
  if u64 (e_phoff buf + maplength) <=? Z.of_nat (length buf) then
    if Z.of_nat (length buf) <? e_phoff buf + maplength then Undef
    else mret (Some (bytes (Z.to_nat (e_phoff buf)) (Z.to_nat maplength) buf))
  else match pread64 fd maplength (e_phoff buf) with
       | inl bs => if Z.of_nat (length bs) =? maplength then mret (Some bs) else mret None
       | inr _ => mret None
       end.

Definition close_fd (fd : Z) : M (gset Z) unit := modify (fun fds => fds ∖ {[ fd ]}).
Definition lose {A} (fd : Z) (name : list Z) (msg : string) : M (gset Z) A := close_fd fd;; lift (Signal (text name) msg).
Definition ignore (fd : Z) (other_class : bool) : M (gset Z) (opened * list Z) := close_fd fd;; mret (NotOpened ENOENT other_class, []).

(** The result with the buffer; [fd] is -1 unless the file is open already. *)
Definition open_verify (name : list Z) (fd : Z) : M (gset Z) (opened * list Z) :=
  r ← (if fd =? -1 then
         match open64 name with
         | inl fd => modify (fun fds => {[ fd ]} ∪ fds);; mret (inl fd)
         | inr err => mret (inr err)
         end
       else mret (inl fd));
  match r with
  | inr err => mret (NotOpened err false, [])
  | inl fd =>
      lift (c_assert (EHDR_SIZE <? FILEBUF_SIZE) "sizeof (fbp->buf) > sizeof (ElfW(Ehdr))");;
      '(buf, errno) ← lift (read_header (S (Z.to_nat EHDR_SIZE)) fd []);
      if Z.of_nat (length buf) <? EHDR_SIZE then lose fd name (if errno =? 0 then "file too short" else "cannot read file data")
      else
        let id := e_ident buf in
        if negb (VALID_ELF_HEADER id expected 8) || negb (VALID_ELF_ABIVERSION (at_ id 7) (at_ id 8)) || negb (memcmp_eq (drop 9 id) (drop 9 expected) 7) then
          match header_error buf with
          | None => ignore fd true
          | Some msg => lose fd name msg
          end
        else if negb (e_version buf =? EV_CURRENT) then lose fd name "ELF file version does not match current one"
        else if negb (elf_machine_matches_host buf) then ignore fd false
        else if negb (e_type buf =? ET_DYN) && negb (e_type buf =? ET_EXEC) then lose fd name "only ET_DYN and ET_EXEC can be loaded"
        else if negb (e_phentsize buf =? PHDR_SIZE) then lose fd name "ELF file's phentsize not the expected size"
        else
          t ← lift (phdr_bytes fd buf);
          match t with
          | None => lose fd name "cannot read file data"
          | Some _ => if elf_machine_reject_phdr_p then ignore fd false else mret (Opened fd, buf)
          end
  end.

(** The program headers as [_dl_map_object_from_fd] reads them. *)
Definition phdr_table (fd : Z) (buf : list Z) : res (option (list Phdr)) :=
  t ← phdr_bytes fd buf;
  mret (option_map (phdrs (Z.to_nat (e_phnum buf))) t).

(** The file for a name, as the search uses it: the descriptors are those of this call. *)
Definition verified (name : list Z) : res opened :=
  match open_verify name (-1) ∅ with
  | Ret (r, _) _ => Ok r
  | Raise o e _ => Signal o e
  | Stop e => Fatal e
  | Wild => Undef
  | Loop => Diverge
  end.
End Verify.
