(* ===== verification/VerifySpec.v ===== *)
(** * The verification of files: what it decides

    The verdict about a file in terms of its contents, and that [open_verify] gives it however the kernel splits the reads. *)

From S2P Require Import Prelude LinkMap LoadCmds Dst Paths PathsSpec Verify.

(** ** Fields *)
Definition byte (b : Z) : Prop := 0 <= b < 256.
Lemma le_value_bound bs : Forall byte bs -> 0 <= le_value bs < 256 ^ Z.of_nat (length bs).
Proof.
  induction 1 as [|b bs Hb _ IH]; cbn [le_value length]; [lia|]. unfold byte in Hb. rewrite Nat2Z.inj_succ, Z.pow_succ_r by lia. nia.
Qed.
Lemma le_value_inj a b : Forall byte a -> Forall byte b -> length a = length b -> le_value a = le_value b -> a = b.
Proof.
  intros Ha. revert b. induction Ha as [|x a Hx _ IH]; intros b [|y b' Hy Hb]; cbn [le_value length]; [done..|].
  intros [= Hl] E. unfold byte in *. assert (x = y) by lia. subst. f_equal. apply IH; [done..|lia].
Qed.
Lemma bytes_bytes F off n : Forall byte F -> Forall byte (bytes off n F).
Proof. intros H. by apply Forall_take, Forall_drop. Qed.
Lemma field_bound F off n : Forall byte F -> 0 <= field off n F < 256 ^ Z.of_nat n.
Proof.
  intros H. pose proof (le_value_bound _ (bytes_bytes F off n H)) as [? Hu]. split; [done|]. eapply Z.lt_le_trans; [exact Hu|].
  apply Z.pow_le_mono_r; [done|]. unfold bytes. rewrite length_take. lia.
Qed.
Lemma bytes_take off n k F : (off + n <= k)%nat -> bytes off n (take k F) = bytes off n F.
Proof. intros H. unfold bytes. rewrite !take_drop_commute, take_take. by rewrite Nat.min_l by lia. Qed.
Lemma field_take off n k F : (off + n <= k)%nat -> field off n (take k F) = field off n F.
Proof. intros H. unfold field. by rewrite bytes_take. Qed.

(** The header of a file is in the bytes that have been read. *)
Record same_header (buf F : list Z) : Prop := {
  sh_ident : e_ident buf = e_ident F;
  sh_magic : field 0 4 buf = field 0 4 F;
  sh_version : e_version buf = e_version F;
  sh_machine : e_machine buf = e_machine F;
  sh_type : e_type buf = e_type F;
  sh_phentsize : e_phentsize buf = e_phentsize F;
  sh_phnum : e_phnum buf = e_phnum F }.
Lemma take_header k F : (64 <= k)%nat -> same_header (take k F) F.
Proof. intros H. split; (apply field_take || apply bytes_take); lia. Qed.

(** ** Verdicts *)
Inductive verdict := Accept | Skip (other_class : bool) | Reject (msg : string).
Fixpoint first_failure (cs : list (bool * verdict)) : verdict := match cs with [] => Accept | (ok, v) :: cs => if ok then first_failure cs else v end.

Section Spec.
Context (LIBC_ABI_MAX : Z).

(** The table is in the file; one without entries is nowhere. *)
Definition table_ok (F : list Z) : bool :=
  ((e_phnum F =? 0) && (e_phoff F <? 2 ^ 63)) || (e_phoff F + e_phnum F * PHDR_SIZE <=? Z.of_nat (length F)).
(** The first sixteen bytes *)
Definition ident_checks (F : list Z) : list (bool * verdict) :=
  [ (bool_decide (take 4 F = take 4 expected), Reject "invalid ELF header");
    (at_ F 4 =? ELFCLASS64, Skip true);
    (at_ F 5 =? ELFDATA2LSB, Reject "ELF file data encoding not little-endian");
    (at_ F 6 =? EV_CURRENT, Reject "ELF file version ident does not match current one");
    (VALID_ELF_OSABI (at_ F 7), Reject "ELF file OS ABI invalid");
    (VALID_ELF_ABIVERSION LIBC_ABI_MAX (at_ F 7) (at_ F 8), Reject "ELF file ABI version invalid");
    (bool_decide (bytes 9 7 F = replicate 7 0), Reject "nonzero padding in e_ident") ].
Definition verdict_of (F : list Z) : verdict :=
  first_failure
    ((EHDR_SIZE <=? Z.of_nat (length F), Reject "file too short") :: ident_checks F ++
    [ (e_version F =? EV_CURRENT, Reject "ELF file version does not match current one");
      (e_machine F =? EM_X86_64, Skip false);
      ((e_type F =? ET_DYN) || (e_type F =? ET_EXEC), Reject "only ET_DYN and ET_EXEC can be loaded");
      (e_phentsize F =? PHDR_SIZE, Reject "ELF file's phentsize not the expected size");
      (table_ok F, Reject "cannot read file data") ]).
(** The program headers in the file *)
Definition file_phdrs (F : list Z) : list Phdr := phdrs (Z.to_nat (e_phnum F)) (bytes (Z.to_nat (e_phoff F)) (Z.to_nat (e_phnum F * PHDR_SIZE)) F).

(** What the kernel promises about an open file with the contents [F]: [read] returns what is there, though maybe not all that was asked
    for; [pread] is not interrupted, and refuses offsets that are negative as signed numbers. *)
Class FileReads (read pread64 : Z -> Z -> Z -> list Z + Z) (fd : Z) (F : list Z) : Prop := {
  fr_bytes : Forall byte F;
  fr_size : Z.of_nat (length F) < 2 ^ 63;
  fr_read : forall pos n, 0 <= pos -> 0 < n -> exists k, read fd pos n = inl (take k (drop (Z.to_nat pos) F)) /\ (0 < k)%nat /\ Z.of_nat k <= n;
  fr_pread : forall n off, 0 <= n -> 0 <= off < 2 ^ 63 -> pread64 fd n off = inl (take (Z.to_nat n) (drop (Z.to_nat off) F));
  fr_pread_high : forall n off, 2 ^ 63 <= off -> exists err, pread64 fd n off = inr err }.

Context (open64 : list Z -> Z + Z) (read pread64 : Z -> Z -> Z -> list Z + Z) (fd : Z) (F : list Z).
Context {FR : FileReads read pread64 fd F}.

(** ** Reading the start *)
Lemma read_header_from n fuel : (n <= length F)%nat -> (n < 64)%nat -> (64 - n < fuel)%nat ->
  exists k, read_header read fuel fd (take n F) = Ok (take k F, 0) /\ (64 <= k \/ length F <= k)%nat.
Proof using FR.
  revert n. induction fuel as [|fuel IH]; intros n Hn H64 Hf; [lia|]. cbn [read_header].
  assert (Hlen : length (take n F) = n) by (rewrite length_take; lia). rewrite Hlen.
  destruct (fr_read (Z.of_nat n) (FILEBUF_SIZE - Z.of_nat n)) as (k & -> & Hk & Hkn); [lia|unfold FILEBUF_SIZE; lia|]. rewrite Nat2Z.id.
  destruct (take k (drop n F)) as [|b bs] eqn:E.
  - exists n. split; [done|]. right. apply (f_equal length) in E. rewrite length_take, length_drop in E. cbn [length] in E. lia.
  - rewrite <- E. assert (Hb : (0 < length (take k (drop n F)))%nat) by (rewrite E; cbn [length]; lia). clear b bs E. rewrite length_take, length_drop in Hb.
    rewrite take_take_drop. rewrite (proj2 (Z.ltb_ge _ _)) by (rewrite length_take; lia).
    destruct (Z.ltb_spec (Z.of_nat (length (take (n + k) F))) EHDR_SIZE) as [Hs|Hs]; unfold EHDR_SIZE in Hs; rewrite length_take in Hs.
    + destruct (Nat.le_gt_cases (n + k) (length F)) as [Hle|Hgt]; [apply IH; lia|].
      replace (take (n + k) F) with (take (length F) F) by (rewrite !take_ge; [done|lia|lia]). destruct (IH (length F)) as (k' & E' & Hk'); [lia|lia|lia|]. rewrite E'. by exists k'.
    + exists (n + k)%nat. split; [done|]. left. lia.
Qed.
Lemma read_header_spec : exists k, read_header read (S (Z.to_nat EHDR_SIZE)) fd [] = Ok (take k F, 0) /\ (64 <= k \/ length F <= k)%nat.
Proof using FR. apply (read_header_from 0); unfold EHDR_SIZE; lia. Qed.

(** ** The table *)
Lemma phdr_bytes_spec k : (64 <= k)%nat -> e_phoff F + e_phnum F * PHDR_SIZE < 2 ^ 64 ->
  phdr_bytes pread64 fd (take k F) = Ok (if table_ok F then Some (bytes (Z.to_nat (e_phoff F)) (Z.to_nat (e_phnum F * PHDR_SIZE)) F) else None).
Proof using FR.
  intros Hk Hw. unfold phdr_bytes, table_ok, e_phoff, e_phnum in *. rewrite !field_take by lia.
  pose proof (field_bound F 32 8 fr_bytes) as Ho. pose proof (field_bound F 56 2 fr_bytes) as Hn. pose proof fr_size as Hs.
  change (256 ^ Z.of_nat 8) with (2 ^ 64) in Ho. change (256 ^ Z.of_nat 2) with 65536 in Hn.
  set (off := field 32 8 F) in *. set (n := field 56 2 F) in *. unfold PHDR_SIZE in *. rewrite (u64_small (n * 56)), (u64_small (off + n * 56)) by lia.
  set (L := Z.of_nat (length (take k F))). assert (HL : L <= Z.of_nat (length F)) by (unfold L; rewrite length_take; lia).
  assert (HLk : L <= Z.of_nat k) by (unfold L; rewrite length_take; lia).
  destruct (Z.leb_spec (off + n * 56) L) as [Hin|Hout].
  - rewrite (proj2 (Z.ltb_ge _ _)), (proj2 (Z.leb_le (off + n * 56) _)) by lia. rewrite orb_true_r. rewrite bytes_take by lia. done.
  - destruct (Z.lt_ge_cases off (2 ^ 63)) as [Hl|Hl].
    + rewrite fr_pread by lia. rewrite (proj2 (Z.ltb_lt off _)) by lia. rewrite andb_true_r. fold (bytes (Z.to_nat off) (Z.to_nat (n * 56)) F).
      assert (Hb : Z.of_nat (length (bytes (Z.to_nat off) (Z.to_nat (n * 56)) F)) = Z.min (n * 56) (Z.max 0 (Z.of_nat (length F) - off))) by (unfold bytes; rewrite length_take, length_drop; lia).
      rewrite Hb. destruct (Z.eqb_spec n 0), (Z.leb_spec (off + n * 56) (Z.of_nat (length F))), (Z.eqb_spec (Z.min (n * 56) (Z.max 0 (Z.of_nat (length F) - off))) (n * 56)); cbn [orb]; done || lia.
    + destruct (fr_pread_high (n * 56) off) as (err & ->); [lia|]. rewrite (proj2 (Z.ltb_ge off _)), (proj2 (Z.leb_gt _ _)) by lia. by rewrite andb_false_r.
Qed.

(** ** The first sixteen bytes *)
Definition bad_ident (F : list Z) : bool :=
  let id := e_ident F in negb (VALID_ELF_HEADER id expected 8) || negb (VALID_ELF_ABIVERSION LIBC_ABI_MAX (at_ id 7) (at_ id 8)) || negb (memcmp_eq (drop 9 id) (drop 9 expected) 7).
Lemma memcmp_split (b0 b1 b2 b3 b4 b5 b6 b7 x : Z) r r' :
  memcmp_eq ([b0; b1; b2; b3; b4; b5; b6; b7] ++ r) ([127; 69; 76; 70; ELFCLASS64; ELFDATA2LSB; EV_CURRENT; x] ++ r') 8 =
  bool_decide ([b0; b1; b2; b3] = [127; 69; 76; 70]) && (b4 =? ELFCLASS64) && (b5 =? ELFDATA2LSB) && (b6 =? EV_CURRENT) && (b7 =? x).
Proof using.
  unfold memcmp_eq. cbn [app firstn]. apply eq_true_iff_eq. rewrite !andb_true_iff, !bool_decide_eq_true, !Z.eqb_eq. split; [by intros [= -> -> -> -> -> -> -> ->]|].
  by intros [[[[[= -> -> -> ->] ->] ->] ->] ->].
Qed.
Lemma magic_word b0 b1 b2 b3 r : Forall byte [b0; b1; b2; b3] ->
  (field 0 4 ([b0; b1; b2; b3] ++ r) =? Z.lor (Z.lor (Z.lor 127 (Z.shiftl 69 8)) (Z.shiftl 76 16)) (Z.shiftl 70 24)) = bool_decide ([b0; b1; b2; b3] = [127; 69; 76; 70]).
Proof using.
  intros H. apply eq_true_iff_eq. rewrite Z.eqb_eq, bool_decide_eq_true. change (Z.lor (Z.lor (Z.lor 127 (Z.shiftl 69 8)) (Z.shiftl 76 16)) (Z.shiftl 70 24)) with (le_value [127; 69; 76; 70]).
  unfold field, bytes. cbn [app drop firstn]. split; [|by intros [= -> -> -> ->]]. apply le_value_inj; [done| |done]. by repeat constructor.
Qed.
(** The messages are complete: the internal error is not reached. *)
Lemma ident_verdict rest : (64 <= length F)%nat ->
  first_failure (ident_checks F ++ rest) = if bad_ident F then match header_error LIBC_ABI_MAX F with None => Skip true | Some msg => Reject msg end else first_failure rest.
Proof using FR.
  intros Hl. pose proof fr_bytes as Hb. clear FR. revert Hl Hb. destruct F as [|b0 [|b1 [|b2 [|b3 [|b4 [|b5 [|b6 [|b7 [|b8 r]]]]]]]]]; try (cbn [length]; lia). intros _ Hb.
  assert (Hm : Forall byte [b0; b1; b2; b3]) by exact (Forall_take byte 4 _ Hb). pose proof (magic_word b0 b1 b2 b3 (b4 :: b5 :: b6 :: b7 :: b8 :: r) Hm) as Hw. cbn [app] in Hw.
  set (f := b0 :: _) in *. assert (Hid : e_ident f = [b0; b1; b2; b3; b4; b5; b6; b7] ++ b8 :: take 7 r) by done.
  assert (Hp : bytes 9 7 f = take 7 r) by done. unfold bad_ident, header_error, VALID_ELF_HEADER. rewrite Hw, Hid. unfold expected at 1, expected2.
  rewrite (memcmp_split b0 b1 b2 b3 b4 b5 b6 b7 ELFOSABI_SYSV _ [0; 0; 0; 0; 0; 0; 0; 0]), (memcmp_split b0 b1 b2 b3 b4 b5 b6 b7 ELFOSABI_GNU _ [0]).
  unfold ident_checks. rewrite Hp. change (take 4 f = take 4 expected) with ([b0; b1; b2; b3] = [127; 69; 76; 70]).
  change (memcmp_eq (drop 9 ([b0; b1; b2; b3; b4; b5; b6; b7] ++ b8 :: take 7 r)) (drop 9 expected) 7) with (bool_decide (take 7 (take 7 r) = replicate 7 0)). rewrite take_take. cbn [Nat.min].
  change (at_ f 4) with b4. change (at_ f 5) with b5. change (at_ f 6) with b6. change (at_ f 7) with b7. change (at_ f 8) with b8.
  set (id := [b0; b1; b2; b3; b4; b5; b6; b7] ++ b8 :: take 7 r). change (at_ id 4) with b4. change (at_ id 5) with b5. change (at_ id 6) with b6. change (at_ id 7) with b7. change (at_ id 8) with b8. unfold VALID_ELF_OSABI.
  destruct (bool_decide ([b0; b1; b2; b3] = [127; 69; 76; 70])), (b4 =? ELFCLASS64), (b5 =? ELFDATA2LSB), (b6 =? EV_CURRENT), (b7 =? ELFOSABI_SYSV), (b7 =? ELFOSABI_GNU),
    (VALID_ELF_ABIVERSION LIBC_ABI_MAX b7 b8), (bool_decide (take 7 r = replicate 7 0)); reflexivity.
Qed.

(** ** The verdict *)
(** What [open_verify] does for a verdict: the descriptor is closed unless it is returned. *)
Definition carried_out (name : list Z) (fds : gset Z) (v : verdict) (o : outcome (gset Z) (opened * list Z)) : Prop :=
  match v with
  | Accept => exists buf, o = Ret (Opened fd, buf) ({[ fd ]} ∪ fds) /\ phdr_table pread64 fd buf = Ok (Some (file_phdrs F))
  | Skip other_class => o = Ret (NotOpened ENOENT other_class, []) fds
  | Reject msg => o = Raise (text name) msg fds
  end.
Lemma close_opened (fds : gset Z) : fd ∉ fds -> ({[ fd ]} ∪ fds) ∖ {[ fd ]} = fds.
Proof using. clear. set_solver. Qed.
Lemma lose_run {A} name msg fds : fd ∉ fds -> lose (A := A) fd name msg ({[ fd ]} ∪ fds) = Raise (text name) msg fds.
Proof using. intros H. unfold lose. rewrite (M_bind_step _ _ _ tt fds); [done|]. unfold close_fd, modify. by rewrite close_opened. Qed.
Lemma ignore_run other fds : fd ∉ fds -> ignore fd other ({[ fd ]} ∪ fds) = Ret (NotOpened ENOENT other, []) fds.
Proof using. intros H. unfold ignore. rewrite (M_bind_step _ _ _ tt fds); [done|]. unfold close_fd, modify. by rewrite close_opened. Qed.

(** The table is read again when the file is mapped. *)
Lemma phdr_table_spec k : (64 <= k)%nat -> e_phoff F + e_phnum F * PHDR_SIZE < 2 ^ 64 -> table_ok F = true -> phdr_table pread64 fd (take k F) = Ok (Some (file_phdrs F)).
Proof using FR. intros Hk Hw Ht. unfold phdr_table. rewrite phdr_bytes_spec, Ht by done. cbn. by rewrite (sh_phnum _ _ (take_header k F Hk)). Qed.

Lemma open_verify_run name fds : open64 name = inl fd -> fd ∉ fds -> e_phoff F + e_phnum F * PHDR_SIZE < 2 ^ 64 ->
  carried_out name fds (verdict_of F) (open_verify LIBC_ABI_MAX open64 read pread64 name (-1) fds).
Proof using FR.
  intros Ho Hfd Hw. unfold open_verify. cbn [Z.eqb Pos.eqb]. rewrite Ho. rewrite (M_bind_step _ _ _ (inl fd) ({[ fd ]} ∪ fds)) by done.
  destruct read_header_spec as (k & E & Hk). rewrite (M_bind_step _ _ _ tt ({[ fd ]} ∪ fds)) by done. rewrite E. rewrite (M_bind_step _ _ _ (take k F, 0) ({[ fd ]} ∪ fds)) by done.
  unfold verdict_of. destruct (Z.leb_spec EHDR_SIZE (Z.of_nat (length F))) as [Hl|Hl]; unfold EHDR_SIZE in Hl; cycle 1.
  { rewrite (proj2 (Z.ltb_lt _ _)) by (rewrite length_take; unfold EHDR_SIZE; lia). cbn [first_failure carried_out]. by apply lose_run. }
  assert (Hk' : (64 <= k)%nat) by lia. rewrite (proj2 (Z.ltb_ge _ _)) by (rewrite length_take; unfold EHDR_SIZE; lia). pose proof (take_header k F Hk') as H.
  cbn [first_failure]. rewrite ident_verdict by lia.
  replace (header_error LIBC_ABI_MAX (take k F)) with (header_error LIBC_ABI_MAX F) by (unfold header_error; by rewrite (sh_ident _ _ H), (sh_magic _ _ H)).
  unfold elf_machine_matches_host. rewrite (sh_ident _ _ H), (sh_version _ _ H), (sh_machine _ _ H), (sh_type _ _ H), (sh_phentsize _ _ H). fold (bad_ident F).
  destruct (bad_ident F); [destruct (header_error LIBC_ABI_MAX F); cbn [carried_out]; [by apply lose_run|by apply ignore_run]|].
  cbn [first_failure]. destruct (e_version F =? EV_CURRENT); cbn [negb]; [|by apply lose_run]. destruct (e_machine F =? EM_X86_64); cbn [negb]; [|by apply ignore_run].
  rewrite <- negb_orb. destruct ((e_type F =? ET_DYN) || (e_type F =? ET_EXEC)); cbn [negb]; [|by apply lose_run]. destruct (e_phentsize F =? PHDR_SIZE); cbn [negb]; [|by apply lose_run].
  rewrite phdr_bytes_spec by done. destruct (table_ok F) eqn:Et; [|by apply lose_run]. exists (take k F). split; [done|by apply phdr_table_spec].
Qed.
End Spec.

(** ** Files for the search *)
Section Files.
Context (LIBC_ABI_MAX : Z) (open64 : list Z -> Z + Z) (read pread64 : Z -> Z -> Z -> list Z + Z).

(** Files that are no ELF files, or broken ones, are not met. *)
Class Installed (F : list Z) : Prop := {
  in_wrap : e_phoff F + e_phnum F * PHDR_SIZE < 2 ^ 64;
  in_verdict : match verdict_of LIBC_ABI_MAX F with Reject _ => False | _ => True end }.

(** The verdict is what the search is told. *)
Lemma verified_spec name fd F `{!FileReads read pread64 fd F} : open64 name = inl fd -> e_phoff F + e_phnum F * PHDR_SIZE < 2 ^ 64 ->
  verified LIBC_ABI_MAX open64 read pread64 name = match verdict_of LIBC_ABI_MAX F with
                                                   | Accept => Ok (Opened fd)
                                                   | Skip other_class => Ok (NotOpened ENOENT other_class)
                                                   | Reject msg => Signal (text name) msg
                                                   end.
Proof using.
  intros Ho Hw. unfold verified. pose proof (open_verify_run LIBC_ABI_MAX open64 read pread64 fd F name ∅ Ho (not_elem_of_empty (C := gset Z) fd) Hw) as H.
  destruct (verdict_of LIBC_ABI_MAX F); cbn [carried_out] in H; [destruct H as (buf & -> & _)|rewrite H..]; done.
Qed.
(** What the search expects of opening files, with [open_verify] as it is. *)
Lemma verified_opens : (forall name, match open64 name with inl fd => exists F, FileReads read pread64 fd F /\ Installed F | inr err => usual err end) ->
  forall p, match verified LIBC_ABI_MAX open64 read pread64 p with Ok (Opened _) => True | Ok (NotOpened err _) => usual err | _ => False end.
Proof using.
  intros H p. specialize (H p). destruct (open64 p) as [fd|err] eqn:Ho.
  - destruct H as (F & HF & [Hw Hv]). rewrite (verified_spec p fd F Ho Hw). destruct (verdict_of LIBC_ABI_MAX F); [done|by left|done].
  - unfold verified, open_verify. cbn [Z.eqb Pos.eqb]. by rewrite Ho.
Qed.
(** C31. Let the kernel open a file of less than 2^63 bytes under a new descriptor and let it be readable ([FileReads]: [read] delivers at least a byte where there is one, [pread] all
    that is asked for, and offsets that are negative as signed numbers are refused), and let its program header table not end beyond 2^64 according to its header
    ([e_phoff + e_phnum * 56 < 2^64]; beyond, the sum wraps around and the table can be read in front of the buffer, [table_before_buffer]).  The file is returned exactly when
    its contents are those of an ELF file for this machine with its program headers inside of the file; a
    file of another class or for another machine is passed over, and any other file is an error with the message for the first check
    that fails.  This does not depend on how many bytes the kernel delivers at a time.  The descriptor stays open only with a file that
    is returned, and then the program headers that are read for the mapping are those of the file.  The search for a file is told the
    verdict. *)
Theorem open_verify_exact name fd F fds `{!FileReads read pread64 fd F} : open64 name = inl fd -> fd ∉ fds -> e_phoff F + e_phnum F * PHDR_SIZE < 2 ^ 64 ->
  carried_out pread64 fd F name fds (verdict_of LIBC_ABI_MAX F) (open_verify LIBC_ABI_MAX open64 read pread64 name (-1) fds) /\
  verified LIBC_ABI_MAX open64 read pread64 name = match verdict_of LIBC_ABI_MAX F with
                                                   | Accept => Ok (Opened fd)
                                                   | Skip other_class => Ok (NotOpened ENOENT other_class)
                                                   | Reject msg => Signal (text name) msg
                                                   end.
Proof using. intros Ho Hfd Hw. split; [by apply open_verify_run|by apply verified_spec]. Qed.
End Files.
