(* ===== verification/PathsVerified.v ===== *)
(** * Search paths: the search with [open_verify]

    [PathsSearch] is proved for any way to open files.  Here the files are opened by [open_verify] ([Verify]), and what is expected of them
    is expected of the kernel and of the files on the disk only. *)

From S2P Require Import Prelude LinkMap Dst DstSpec Paths PathsSpec PathsSearch Verify VerifySpec.

Section Verified.
Context (malloc : nat -> Z -> option (list Z)).
Context (system_dirs : list (list Z)) (enable_secure : bool) (dl_platform : option (list Z)) (dl_dst_lib : list Z) (dl_platformlen : Z) (get_origin : origin) (is_rtld : mapid -> bool).
Context (capstr : list (list Z)) (max_capstrlen : Z) (dl_inhibit_rpath : option (list Z)).
Context (LIBC_ABI_MAX : Z) (open64 : list Z -> Z + Z) (read pread64 : Z -> Z -> Z -> list Z + Z) (stat_dir : list Z -> bool + Z).
Context (is_suid : Z -> bool) (auditing : nat -> bool) (cache_lookup : list Z -> option (list Z)) (dl_inhibit_cache : bool).

(** Nothing below a name can be opened. *)
Definition no_files (dir : list Z) : Prop := forall n, exists err, open64 (dir ++ n) = inr err.

(** The disk during a search: [open] and [stat] fail for lack of a file, of a directory or of permission only, every file that can be opened
    can be read and is one [open_verify] accepts or passes over, nothing is below what is no directory, and there is memory. *)
Class Disk : Prop := {
  dk_open : forall name, match open64 name with inl fd => exists F, FileReads read pread64 fd F /\ Installed LIBC_ABI_MAX F | inr err => usual err end;
  dk_stat : forall d, match stat_dir d with inl true => True | inl false => no_files d | inr err => usual err /\ no_files d end;
  dk_memory : forall k n, 0 <= n -> is_Some (malloc k n) }.

Abbreviation opened_file := (Verify.verified LIBC_ABI_MAX open64 read pread64).

Lemma no_files_dead dir : no_files dir -> dead opened_file dir.
Proof using. intros H n fd. destruct (H n) as [err Ho]. unfold Verify.verified, Verify.open_verify. cbn [Z.eqb Pos.eqb]. by rewrite Ho. Qed.

Lemma disk_file_system : Disk -> (forall cap, cap ∈ capstr -> Z.of_nat (length cap) <= max_capstrlen) -> FileSystem malloc capstr max_capstrlen opened_file stat_dir.
Proof using.
  intros [Ho Hs Hm] Hcap. split; [by apply verified_opens| |done|done].
  intros d. specialize (Hs d). destruct (stat_dir d) as [[]|err]; [done|by apply no_files_dead|]. destruct Hs. split; [done|by apply no_files_dead].
Qed.

(** C29. The search for a file returns the first of the names [search_files] that [open_verify] opens (and that is set-uid, where the search is
    for a preloaded object of a privileged program): [DT_RPATH] of the loader and of its loaders and
    of the main program, unless the loader has a [DT_RUNPATH]; [LD_LIBRARY_PATH]; [DT_RUNPATH]; the file in the cache of [ldconfig]; the
    system directories.  What is remembered about directories that do not exist, and paths given up because of it, do not change the result, and
    the buffer for the names suffices; afterwards the paths are such that the same holds for a next search.
    This is for a file system that does not change, in which [open] and [stat] fail with [ENOENT], [EACCES] or [ENOTDIR] only, nothing is
    below a name that is no directory, and each file that can be opened is one [open_verify] accepts or passes over as meant for another
    machine (class [Disk]); for memory that does not run out; and for objects whose
    [DT_RPATH] and [DT_RUNPATH] have been taken apart already ([decided]), in paths that refer to known directories with names not longer than [max_dirnamelen] and
    subdirectories not longer than [max_capstrlen], with loaders that are loaded and form no cycle. *)
Theorem search_finds_first `{!Disk} name mode loader ms nsid s :
  (forall cap, cap ∈ capstr -> Z.of_nat (length cap) <= max_capstrlen) -> wf capstr opened_file s -> decided s -> chain s loader ms -> NoDup ms ->
  known_or_none s (main_of s) -> known_or_none s (head (default [] (ps_loaded s !! nsid))) ->
  exists s', search malloc system_dirs enable_secure dl_platform dl_dst_lib dl_platformlen get_origin is_rtld capstr max_capstrlen dl_inhibit_rpath opened_file stat_dir is_suid auditing cache_lookup dl_inhibit_cache
      loader name mode nsid s =
      Ret (first enable_secure opened_file is_suid (secure_mode mode) (search_files system_dirs enable_secure capstr cache_lookup dl_inhibit_cache name mode s loader ms nsid)) s' /\
    wf capstr opened_file s' /\ forgets capstr opened_file s s' /\ decided s'.
Proof using. intros Hcap W D Hc Hnd Hm Hn. apply search_first_match; [by apply disk_file_system|done..]. Qed.
End Verified.
