(* ===== verification/VerifyExamples.v ===== *)
(** * The verification of files: three files

    Witnesses: a library that is accepted though the kernel delivers ten bytes at a time, one of another class that is passed over in
    a search, and one whose table is said to be at the end of the address space. *)

From S2P Require Import Prelude LinkMap LoadCmds Dst Paths PathsSpec Verify VerifySpec.

Module Example22.
(** [n] bytes with the value [v] *)
Fixpoint le (n : nat) (v : Z) : list Z := match n with O => [] | S n => v mod 256 :: le n (v / 256) end.
Definition header (class phoff phnum : Z) : list Z :=
  [127; 69; 76; 70; class; 1; 1; 0; 0] ++ replicate 7 0 ++ le 2 3 ++ le 2 62 ++ le 4 1 ++ le 8 0 ++ le 8 phoff ++ le 8 0 ++ le 4 0 ++ le 2 64 ++ le 2 56 ++ le 2 phnum ++ le 6 0.
Definition segment : list Z := le 4 1 ++ le 4 5 ++ le 8 0 ++ le 8 0x1000 ++ le 8 0 ++ le 8 0x2345 ++ le 8 0x2400 ++ le 8 0x1000.
Definition good : list Z := header 2 64 1 ++ segment.
Definition other : list Z := header 1 64 1 ++ segment.
Definition wrapped : list Z := header 2 (2 ^ 64 - 56) 1 ++ segment.

Definition content (fd : Z) : list Z := if fd =? 5 then good else if fd =? 6 then other else wrapped.
Definition open64 (name : list Z) : Z + Z :=
  if bool_decide (name = chars "/opt/b/x.so") then inl 5 else if bool_decide (name = chars "/opt/a/x.so") then inl 6 else if bool_decide (name = chars "/opt/w.so") then inl 7 else inr ENOENT.
Definition read (fd pos n : Z) : list Z + Z := inl (take (Z.to_nat (Z.min 10 n)) (drop (Z.to_nat pos) (content fd))).
Definition pread64 (fd n off : Z) : list Z + Z := if 2 ^ 63 <=? off then inr 22 else inl (take (Z.to_nat n) (drop (Z.to_nat off) (content fd))).

#[local] Instance reads fd : FileReads read pread64 fd (content fd).
Proof.
  split.
  - assert (H : forall F, forallb (fun b => (0 <=? b) && (b <? 256)) F = true -> Forall byte F).
    { induction F as [|b F IH]; cbn [forallb]; [by constructor|]. rewrite !andb_true_iff, Z.leb_le, Z.ltb_lt. intros [? ?]. constructor; [done|by apply IH]. }
    unfold content. destruct (fd =? 5), (fd =? 6); apply H; by vm_compute.
  - unfold content. destruct (fd =? 5), (fd =? 6); by vm_compute.
  - intros pos n Hp Hn. eexists. split; [done|]. lia.
  - intros n off Hn Ho. unfold pread64. by rewrite (proj2 (Z.leb_gt _ _)) by lia.
  - intros n off Ho. unfold pread64. rewrite (proj2 (Z.leb_le _ _)) by lia. by eexists.
Qed.

Lemma open_verify_exact_witness :
  verdict_of 4 good = Accept /\
  carried_out pread64 5 good (chars "/opt/b/x.so") {[ 3 ]} (verdict_of 4 good) (open_verify 4 open64 read pread64 (chars "/opt/b/x.so") (-1) {[ 3 ]}) /\
  verified 4 open64 read pread64 (chars "/opt/b/x.so") = match verdict_of 4 good with
                                                         | Accept => Ok (Opened 5)
                                                         | Skip other_class => Ok (NotOpened ENOENT other_class)
                                                         | Reject msg => Signal (text (chars "/opt/b/x.so")) msg
                                                         end.
Proof.
  split; [by vm_compute|]. apply (open_verify_exact 4 open64 read pread64 (chars "/opt/b/x.so") 5 (content 5) {[ 3 ]}); [by vm_compute| |by vm_compute].
  apply (bool_decide_unpack _). by vm_compute.
Defined.

(** The program header is the one of the file. *)
Lemma good_table : file_phdrs good = [mkPh64 1 5 0 0x1000 0x2345 0x2400 0x1000].
Proof. by vm_compute. Qed.

(** The sum that is compared with the size of the buffer wraps around: the table is said to be in front of the buffer. *)
Lemma table_before_buffer : open_verify 4 open64 read pread64 (chars "/opt/w.so") (-1) ∅ = Wild.
Proof. by vm_compute. Qed.

(** A file of another class is passed over, and the search goes on in the next directory. *)
Definition s0 : pstate :=
  mkPS {[ 1%nat := mkPobj (mkDst lt_executable true (Origin (chars "/opt/app"))) [] [[]] None false false 0 None None None (PDirs [0%nat; 1%nat]) PNone false ]} [[1%nat]]
    [mkDir (chars "/opt/a/") [unknown]; mkDir (chars "/opt/b/") [unknown]] [1%nat; 0%nat] 7 PNone PNone 0 false 0.
Lemma other_class_passed :
  match search (fun _ n => Some (replicate (Z.to_nat n) 0)) [] false None [] 0 BadOrigin (fun _ => false) [[]] 0 None (verified 4 open64 read pread64) (fun _ => inl true) (fun _ => false) (fun _ => false) (fun _ => None) false
      (Some 1%nat) (chars "x.so") 2 0 s0 with
  | Ret r s => r = Some (5, chars "/opt/b/x.so") /\ ps_other_class s = true
  | _ => False end.
Proof. by vm_compute. Qed.
End Example22.
