(* ===== verification/Cache.v ===== *)
(** * The cache of ldconfig

    The lookup of a file name in [/etc/ld.so.cache] ([elf/dl-cache.c], [sysdeps/generic/dl-cache.h], [sysdeps/x86_64/dl-cache.h],
    [sysdeps/x86/dl-isa-level.h]): loading and checking the file, the binary search, the order of names, and the priorities of
    [glibc-hwcaps] subdirectories.

    The file is the list of its bytes; a pointer into it is an offset, and reading behind its end is undefined.  The file system, [malloc],
    the features of the processor and the priorities made by [Hwcaps] are parameters.  Debugging output and [munmap] are left out. *)

From S2P Require Import Prelude LinkMap LoadCmds Dst Paths Hwcaps Verify.

Definition i32 (x : Z) : res Z := if (- 2 ^ 31 <=? x) && (x <? 2 ^ 31) then Ok x else Undef.
Definition s32 (x : Z) : Z := if u32 x <? 2 ^ 31 then u32 x else u32 x - 2 ^ 32.

(** ** The order of names *)
(** [char] is signed. *)
Definition schar (c : Z) : Z := if c <? 128 then c else c - 256.
Definition digit (c : Z) : bool := (48 <=? c) && (c <=? 57).

(** The loop over the digits that follow the first one *)
Fixpoint digits (val : Z) (p : list Z) : res (Z * list Z) :=
  match p with
  | [] => Undef
  | c :: p' =>
      if digit c then v ← i32 (val * 10); v ← i32 (v + c); v ← i32 (v - 48); digits v p' else mret (val, p)
  end.

(** Two strings in memory, each with the null at its end *)
Fixpoint libcmp (fuel : nat) (p1 p2 : list Z) : res Z :=
  match fuel with
  | O => Diverge
  | S fuel =>
      match p1, p2 with
      | c1 :: p1', c2 :: p2' =>
          if c1 =? 0 then mret (schar c1 - schar c2)
          else if digit c1 then
            if digit c2 then
              '(val1, p1') ← digits (c1 - 48) p1';
              '(val2, p2') ← digits (c2 - 48) p2';
              if negb (val1 =? val2) then i32 (val1 - val2) else libcmp fuel p1' p2'
            else mret 1
          else if digit c2 then mret (-1)
          else if negb (schar c1 =? schar c2) then mret (schar c1 - schar c2)
          else libcmp fuel p1' p2'
      | _, _ => Undef
      end
  end.
Definition _dl_cache_libcmp (p1 p2 : list Z) : res Z := libcmp (S (length p1)) p1 p2.

(** ** The file *)
(** A field of the file *)
Definition fld (file : list Z) (off : Z) (n : nat) : res Z :=
  if (0 <=? off) && (off + Z.of_nat n <=? Z.of_nat (length file)) then Ok (field (Z.to_nat off) n file) else Undef.
(** The memory from an offset on *)
Definition from (file : list Z) (off : Z) : res (list Z) := if (0 <=? off) && (off <=? Z.of_nat (length file)) then Ok (drop (Z.to_nat off) file) else Undef.
(** A string in memory up to its null *)
Fixpoint string_in (mem : list Z) : res (list Z) :=
  match mem with
  | [] => Undef
  | c :: mem => if c =? 0 then mret [] else s ← string_in mem; mret (c :: s)
  end.

Definition CACHEMAGIC : list Z := chars "ld.so-1.7.0".
Definition CACHEMAGIC_VERSION_NEW : list Z := chars "glibc-ld.so.cache1.1".
Definition has_magic (file : list Z) (off : Z) (magic : list Z) : bool := bool_decide (bytes (Z.to_nat off) (length magic) file = magic).

(** [struct file_entry], and [struct file_entry_new] with [hwcap] *)
Definition SIZE_ENTRY : Z := 12.
Definition SIZE_ENTRY_NEW : Z := 24.
Definition entry_flags (file : list Z) (lib : Z) : res Z := v ← fld file lib 4; mret (s32 v).
Definition entry_key (file : list Z) (lib : Z) : res Z := fld file (lib + 4) 4.
Definition entry_value (file : list Z) (lib : Z) : res Z := fld file (lib + 8) 4.
Definition entry_hwcap (file : list Z) (lib : Z) : res Z := fld file (lib + 16) 8.
(** [struct cache_file] and [struct cache_file_new] *)
Definition SIZE_FILE : Z := 16.
Definition SIZE_FILE_NEW : Z := 48.
Definition nlibs_old (file : list Z) : res Z := fld file 12 4.
Definition nlibs_new (file : list Z) (off : Z) : res Z := fld file (off + 20) 4.
Definition flags_new (file : list Z) (off : Z) : res Z := fld file (off + 28) 1.
Definition extension_offset (file : list Z) (off : Z) : res Z := fld file (off + 32) 4.

Definition _DL_CACHE_DEFAULT_ID : Z := 0x303.
Definition _dl_cache_check_flags (flags : Z) : bool := flags =? _DL_CACHE_DEFAULT_ID.
Definition _dl_cache_verify_ptr (ptr string_table_size : Z) : bool := ptr <? string_table_size.
Definition _dl_cache_file_entry (libs entry_size index : Z) : Z := libs + index * entry_size.
Definition DL_CACHE_HWCAP_ISA_LEVEL_MASK : Z := 2 ^ 10 - 1.
Definition dl_cache_hwcap_extension (hwcap : Z) : bool := Z.ldiff (Z.shiftr hwcap 32) DL_CACHE_HWCAP_ISA_LEVEL_MASK =? 2 ^ 30.
Definition cache_file_new_matches_endian (file : list Z) (off : Z) : res bool := f ← flags_new file off; mret ((f =? 0) || (Z.land f 3 =? 2)).
Definition ALIGN_CACHE (addr : Z) : Z := Z.ldiff (addr + 8 - 1) 7.

(** ** Extensions *)
Definition cache_extension_magic : Z := u32 (-358342284).
(** Offset and size of a section; [None] when it is missing *)
Abbreviation section := (option (Z * Z)) (only parsing).
Definition cache_extension_verify (hwcaps : section) : section :=
  match hwcaps with
  | Some (base, size) => if (size =? 0) || negb (base mod 4 =? 0) || negb (size mod 4 =? 0) then None else hwcaps
  | None => None
  end.
(** The section with the names of [glibc-hwcaps] subdirectories; [None] for data that are not valid *)
Fixpoint load_sections (file : list Z) (n : nat) (sec : Z) (hwcaps : section) : res (option section) :=
  match n with
  | O => mret (Some (cache_extension_verify hwcaps))
  | S n =>
      tag ← fld file sec 4; offset ← fld file (sec + 8) 4; size ← fld file (sec + 12) 4;
      if Z.of_nat (length file) <? offset + size then mret None
      else load_sections file n (sec + 16) (if tag =? 1 then Some (offset, size) else hwcaps)
  end.
Definition cache_extension_load (file : list Z) (cache_new : Z) : res (option section) :=
  off ← extension_offset file cache_new;
  if off =? 0 then mret (Some None)
  else if negb (off mod 4 =? 0) then mret None
  else if Z.of_nat (length file) <? off + 8 then mret None
  else
    magic ← fld file off 4;
    if negb (magic =? cache_extension_magic) then mret None
    else
      count ← fld file (off + 4) 4;
      if Z.of_nat (length file) <? off + 8 + count * 16 then mret None
      else load_sections file (Z.to_nat count) (off + 8) None.

(** ** State *)
(** [cache]: null, -1, or a file *)
Inductive cache_ptr := NoCache | BadCache | CacheFile (file : list Z).
Record cst := mkCst {
  cs_cache : cache_ptr;
  cs_new : option Z;                 (* cache_new: an offset in the file, or -1 *)
  cs_prios : list Z;                 (* glibc_hwcaps_priorities *)
  cs_prios_length : Z;
  cs_prios_allocated : Z }.
Definition set_cache (c : cache_ptr) (n : option Z) (s : cst) : cst := mkCst c n (cs_prios s) (cs_prios_length s) (cs_prios_allocated s).
Definition set_prios (p : list Z) (len alloc : Z) (s : cst) : cst := mkCst (cs_cache s) (cs_new s) p len alloc.

Section Cache.
(** An array of so many words, with any contents; [_dl_hwcaps_priorities]; [isa_1] of the processor *)
Context (malloc : Z -> option (list Z)) (hwcaps_priorities : list dl_hwcaps_priority) (isa_1 : Z).

Definition dl_cache_hwcap_isa_level_compatible (hwcap : Z) : res bool :=
  let shift := Z.land (Z.shiftr hwcap 32) DL_CACHE_HWCAP_ISA_LEVEL_MASK in
  if 31 <? shift then Undef
  else let isa_level := Z.shiftl 1 shift in mret (Z.land isa_level isa_1 =? isa_level).

(** ** Priorities of subdirectories *)
Definition glibc_hwcaps_compare (file : list Z) (left_index : Z) (right : dl_hwcaps_priority) : res Z :=
  mem ← from file left_index;
  left_name ← string_in mem;
  let cmp := memcmp left_name (pr_name right) in
  mret (if negb (cmp =? 0) then cmp
        else if (length left_name <? length (pr_name right))%nat then -1
        else if (length (pr_name right) <? length left_name)%nat then 1 else 0).

(** The first loop; its result is what is left, the array and the next position in it.  An index that is not valid does not advance
    [left]. *)
Fixpoint merge (fuel : nat) (file : list Z) (left : list Z) (right : list dl_hwcaps_priority) (result : list Z) (at_ : Z) : res (list Z * list Z * Z) :=
  match fuel with
  | O => Diverge
  | S fuel =>
      match left, right with
      | l :: left', r :: right' =>
          if l <? Z.of_nat (length file) then
            cmp ← glibc_hwcaps_compare file l r;
            if cmp =? 0 then result ← wr result at_ (pr_priority r); merge fuel file left' right' result (at_ + 1)
            else if cmp <? 0 then result ← wr result at_ 0; merge fuel file left' right result (at_ + 1)
            else merge fuel file left right' result at_
          else result ← wr result at_ 0; merge fuel file left right result (at_ + 1)
      | _, _ => mret (left, result, at_)
      end
  end.
Fixpoint fill_zero (ls : list Z) (result : list Z) (at_ : Z) : res (list Z) :=
  match ls with
  | [] => mret result
  | _ :: ls => result ← wr result at_ 0; fill_zero ls result (at_ + 1)
  end.

(** The words of a section *)
Fixpoint words (file : list Z) (off : Z) (n : nat) : res (list Z) :=
  match n with
  | O => mret []
  | S n => w ← fld file off 4; ws ← words file (off + 4) n; mret (w :: ws)
  end.

Definition glibc_hwcaps_priorities_init (file : list Z) (cache_new : Z) : M cst unit :=
  r ← lift (cache_extension_load file cache_new);
  match r with
  | None => mret tt
  | Some hwcaps =>
      let '(base, size) := default (0, 0) hwcaps in
      let length_ := size / 4 in
      s ← gets id;
      ok ← (if cs_prios_allocated s <? length_ then
              modify (set_prios [] (cs_prios_length s) 0);;
              match malloc length_ with
              | None => mret false
              | Some a => modify (set_prios a (cs_prios_length s) length_);; mret true
              end
            else mret true);
      if (ok : bool) then
        lefts ← lift (words file base (Z.to_nat length_));
        s ← gets id;
        '(left', a, i) ← lift (merge (S (length lefts + length hwcaps_priorities + length (cs_prios s))) file lefts hwcaps_priorities (cs_prios s) 0);
        a ← lift (fill_zero left' a i);
        modify (set_prios a length_ (cs_prios_allocated s))
      else mret tt
  end.

Definition glibc_hwcaps_priority (file : list Z) (cache_new : Z) (index : Z) : M cst Z :=
  s ← gets id;
  (if cs_prios_length s =? 0 then glibc_hwcaps_priorities_init file cache_new else mret tt);;
  s ← gets id;
  if index <? cs_prios_length s then lift (rd (cs_prios s) index) else mret 0.

(** ** The search *)
Section Search.
Context (file : list Z) (string_table string_table_size libs nlibs entry_size : Z) (cache_new : Z) (name : list Z).

(** [_dl_cache_libcmp (name, string_table + key)] *)
Definition compare_key (key : Z) : res Z := mem ← from file (string_table + key); _dl_cache_libcmp (name ++ [0]) mem.

(** Back to the first entry with the name *)
Fixpoint first_match (middle : nat) : res nat :=
  match middle with
  | O => mret O
  | S m =>
      key ← entry_key file (_dl_cache_file_entry libs entry_size (Z.of_nat m));
      if negb (_dl_cache_verify_ptr key string_table_size) then mret middle
      else cmp ← compare_key key; if negb (cmp =? 0) then mret middle else first_match m
  end.

(** What one entry does: [inl] ends the loop, the value is [best] with its priority. *)
Definition consider (lib : Z) (best : option (Z * Z)) : M cst (option (Z * Z) + option (Z * Z)) :=
  flags ← lift (entry_flags file lib);
  value ← (if _dl_cache_check_flags flags then v ← lift (entry_value file lib); mret (if _dl_cache_verify_ptr v string_table_size then Some v else None) else mret None);
  match value with
  | None => mret (inr best)
  | Some value =>
    r ← (if SIZE_ENTRY_NEW <=? entry_size then
           hwcap ← lift (entry_hwcap file lib);
           let named := dl_cache_hwcap_extension hwcap in
           compatible ← (if named then lift (dl_cache_hwcap_isa_level_compatible hwcap) else mret true);
           if negb compatible then mret (inl (inr best))
           else if negb named && bool_decide (best <> None) then mret (inl (inl best))
           else if negb named && negb (hwcap =? 0) then mret (inl (inr best))
           else if named then
             entry_priority ← glibc_hwcaps_priority file cache_new (u32 hwcap);
             if entry_priority =? 0 then mret (inl (inr best))
             else match best with
                  | Some (_, best_priority) => if entry_priority <? best_priority then mret (inr (true, entry_priority)) else mret (inl (inr best))
                  | None => mret (inr (true, entry_priority))
                  end
           else mret (inr (false, 0))
         else mret (inr (false, 0)));
    match r with
    | inl r => mret r
    | inr (named, prio) => mret (if negb named && (flags =? _DL_CACHE_DEFAULT_ID) then inl (Some (value, prio)) else inr (Some (value, prio)))
    end
  end.

(** [do .. while (++middle <= right)]; [n] entries are left. *)
Fixpoint scan (n : nat) (middle left : Z) (best : option (Z * Z)) : M cst (option (Z * Z)) :=
  match n with
  | O => mret best
  | S n =>
      let lib := _dl_cache_file_entry libs entry_size middle in
      stop ← (if left <? middle then
                key ← lift (entry_key file lib);
                if negb (_dl_cache_verify_ptr key string_table_size) then mret true
                else cmp ← lift (compare_key key); mret (negb (cmp =? 0))
              else mret false);
      if (stop : bool) then mret best
      else r ← consider lib best;
           match r with
           | inl best => mret best
           | inr best => scan n (middle + 1) left best
           end
  end.

Fixpoint bsearch (fuel : nat) (left right : Z) : M cst (option Z) :=
  match fuel with
  | O => lift Diverge
  | S fuel =>
      if left <=? right then
        sum ← lift (i32 (left + right));
        let middle := sum / 2 in
        key ← lift (entry_key file (_dl_cache_file_entry libs entry_size middle));
        if negb (_dl_cache_verify_ptr key string_table_size) then mret None
        else
          cmpres ← lift (compare_key key);
          if cmpres =? 0 then
            first ← lift (first_match (Z.to_nat middle));
            best ← scan (Z.to_nat (right - Z.of_nat first + 1)) (Z.of_nat first) middle None;
            mret (option_map (fun b => string_table + b.1) best)
          else if cmpres <? 0 then bsearch fuel (middle + 1) right
          else bsearch fuel left (middle - 1)
      else mret None
  end.
Definition search_cache : M cst (option Z) := bsearch (S (Z.to_nat nlibs)) 0 (s32 (nlibs - 1)).
End Search.

(** ** The lookup *)
(** [_dl_sysdep_read_whole_file]; whether [strdup] has memory *)
Context (read_whole_file : option (list Z)) (strdup_ok : bool).

Definition load_cache : M cst unit :=
  match read_whole_file with
  | None => modify (fun s => set_cache BadCache (cs_new s) s)
  | Some file =>
      let cachesize := Z.of_nat (length file) in
      is_new ← lift (if (SIZE_FILE_NEW <? cachesize) && has_magic file 0 CACHEMAGIC_VERSION_NEW
                     then n ← nlibs_new file 0; mret (n <=? (cachesize - SIZE_FILE_NEW) / SIZE_ENTRY_NEW) else mret false);
      if (is_new : bool) then
        e ← lift (cache_file_new_matches_endian file 0);
        modify (if (e : bool) then set_cache (CacheFile file) (Some 0) else set_cache BadCache None)
      else
        is_old ← lift (if (SIZE_FILE <? cachesize) && has_magic file 0 CACHEMAGIC
                       then n ← nlibs_old file; mret (n <=? (cachesize - SIZE_FILE) / SIZE_ENTRY) else mret false);
        if (is_old : bool) then
          n ← lift (nlibs_old file);
          let offset := ALIGN_CACHE (SIZE_FILE + n * SIZE_ENTRY) in
          if (cachesize <? offset + SIZE_FILE_NEW) || negb (has_magic file offset CACHEMAGIC_VERSION_NEW) then modify (set_cache (CacheFile file) None)
          else
            e ← lift (cache_file_new_matches_endian file offset);
            modify (if (e : bool) then set_cache (CacheFile file) (Some offset) else set_cache BadCache None)
        else modify (fun s => set_cache BadCache (cs_new s) s)
  end.

Definition _dl_load_cache_lookup (name : list Z) : M cst (option (list Z)) :=
  s ← gets id;
  (match cs_cache s with NoCache => load_cache | _ => mret tt end);;
  s ← gets id;
  match cs_cache s with
  | NoCache => lift (Fatal "cache != NULL")
  | BadCache => mret None
  | CacheFile file =>
      let cachesize := Z.of_nat (length file) in
      best ← match cs_new s with
             | Some off =>
                 n ← lift (nlibs_new file off);
                 search_cache file off (u32 cachesize) (off + SIZE_FILE_NEW) n SIZE_ENTRY_NEW off name
             | None =>
                 n ← lift (nlibs_old file);
                 let string_table := SIZE_FILE + n * SIZE_ENTRY in
                 search_cache file string_table (u32 (cachesize - string_table)) SIZE_FILE n SIZE_ENTRY 0 name
             end;
      match best with
      | None => mret None
      | Some b =>
          mem ← lift (from file b);
          str ← lift (string_in mem);
          mret (if strdup_ok then Some str else None)
      end
  end.

Definition _dl_unload_cache : M cst unit :=
  modify (fun s => set_prios (cs_prios s) 0 (cs_prios_allocated s) (match cs_cache s with CacheFile _ => set_cache NoCache (cs_new s) s | _ => s end)).
End Cache.
