(* ===== verification/CacheOrder.v ===== *)
(** * The cache of ldconfig: the order of names

    [_dl_cache_libcmp] compares runs of digits as numbers.  A name has a collation key, a list with one number for each other character and
    one for each run of digits, and names compare as their keys do in lexicographic order; so the comparison is a total order, in which
    names that differ in leading zeros only are equal. *)

From S2P Require Import Prelude Dst Paths Hwcaps HwcapsSpec Verify Cache.

(** ** Keys *)
(** Numbers come behind all characters. *)
Definition num_key (n : Z) : Z := 256 + n.
Definition close (acc : option Z) (k : list Z) : list Z := match acc with Some v => num_key v :: k | None => k end.
(** The key, when a number with the value [acc] has been begun; the null at the end is a character. *)
Fixpoint key_from (acc : option Z) (s : list Z) : list Z :=
  match s with
  | [] => close acc [0]
  | c :: s => if digit c then key_from (Some (default 0 acc * 10 + (c - 48))) s else close acc (schar c :: key_from None s)
  end.
Definition key_of (s : list Z) : list Z := key_from None s.

(** Numbers that [int] holds *)
Definition small (k : list Z) : Prop := Forall (fun x => x < 256 + (2 ^ 31 - 48)) k.
(** Characters of a string *)
Definition text_char (c : Z) : Prop := 0 < c < 256.

Lemma digit_spec c : digit c = true <-> 48 <= c <= 57.
Proof. unfold digit. rewrite andb_true_iff, !Z.leb_le. lia. Qed.
Lemma schar_range c : text_char c -> schar c <> 0 /\ -128 <= schar c <= 127.
Proof. unfold text_char, schar. intros H. destruct (Z.ltb_spec c 128); lia. Qed.
Lemma schar_inj c d : text_char c -> text_char d -> schar c = schar d -> c = d.
Proof. unfold text_char, schar. intros Hc Hd. destruct (Z.ltb_spec c 128), (Z.ltb_spec d 128); lia. Qed.
Lemma key_head v s : 0 <= v -> exists v' k, key_from (Some v) s = num_key v' :: k /\ v <= v'.
Proof.
  revert v. induction s as [|c s IH]; intros v Hv; cbn [key_from close]; [by exists v, [0]|]. destruct (digit c) eqn:E; [|by eexists v, _].
  apply digit_spec in E. cbn [from_option id]. destruct (IH (v * 10 + (c - 48)) ltac:(lia)) as (v' & k & -> & H). exists v', k. split; [done|lia].
Qed.

Lemma i32_ok x : - 2 ^ 31 <= x < 2 ^ 31 -> i32 x = Ok x.
Proof. intros H. unfold i32. by rewrite (proj2 (Z.leb_le _ _)), (proj2 (Z.ltb_lt _ _)) by lia. Qed.
Lemma digits_spec s v junk : Forall text_char s -> 0 <= v -> small (key_from (Some v) s) ->
  exists v' r, digits v (s ++ 0 :: junk) = Ok (v', r ++ 0 :: junk) /\ key_from (Some v) s = num_key v' :: key_of r /\ 0 <= v' /\ v' < 2 ^ 31 - 48 /\ (length r <= length s)%nat /\ Forall text_char r.
Proof.
  intros Hs. revert v. induction Hs as [|c s Hc Hs IH]; intros v Hv Hk.
  - cbn [key_from close] in *. inversion Hk as [|? ? Hk1 _]; subst. unfold num_key in Hk1. exists v, []. repeat split; try done; lia.
  - cbn [key_from app digits] in *. destruct (digit c) eqn:E.
    + apply digit_spec in E. cbn [from_option id] in *. destruct (key_head (v * 10 + (c - 48)) s ltac:(lia)) as (v' & k & Ek & Hle). pose proof Hk as Hk'. rewrite Ek in Hk'. inversion Hk' as [|? ? Hk1 _]; subst. unfold num_key in Hk1.
      rewrite i32_ok by lia. cbn [mbind res_bind]. rewrite i32_ok by lia. cbn [mbind res_bind]. rewrite i32_ok by lia. cbn [mbind res_bind].
      replace (v * 10 + c - 48) with (v * 10 + (c - 48)) by lia. destruct (IH (v * 10 + (c - 48)) ltac:(lia) Hk) as (v2 & r & E1 & E2 & H1 & H2 & H3 & H4).
      exists v2, r. split; [done|]. split; [done|]. split; [done|]. split; [done|]. split; [cbn [length]; lia|done].
    + cbn [close] in *. inversion Hk as [|? ? Hk1 _]; subst. unfold num_key in Hk1. exists v, (c :: s). split; [done|]. split; [unfold key_of; cbn [key_from]; by rewrite E|]. split; [done|]. split; [lia|]. split; [done|by constructor].
Qed.

(** ** Comparison *)
Definition sign (x : Z) : comparison := x ?= 0.
Lemma cmp_sub x y : sign (x - y) = (x ?= y).
Proof. unfold sign. destruct (Z.compare_spec x y); [apply Z.compare_eq_iff|apply Z.compare_lt_iff|apply Z.compare_gt_iff]; lia. Qed.
Lemma key_plain c s : digit c = false -> key_of (c :: s) = schar c :: key_of s.
Proof. intros E. unfold key_of. cbn [key_from]. by rewrite E. Qed.
Lemma key_digit c s : digit c = true -> key_of (c :: s) = key_from (Some (c - 48)) s.
Proof. intros E. unfold key_of. cbn [key_from]. by rewrite E. Qed.
(** The key of what is behind the null is not looked at. *)
Lemma small_tail c s : small (key_of (c :: s)) -> digit c = false -> small (key_of s).
Proof. intros H E. rewrite key_plain in H by done. by inversion H. Qed.

Lemma libcmp_spec fuel s1 s2 j1 j2 : Forall text_char s1 -> Forall text_char s2 -> small (key_of s1) -> small (key_of s2) -> (length s1 < fuel)%nat ->
  exists v, libcmp fuel (s1 ++ 0 :: j1) (s2 ++ 0 :: j2) = Ok v /\ sign v = name_cmp (key_of s1) (key_of s2).
Proof.
  revert s1 s2. induction fuel as [|fuel IH]; intros s1 s2 H1 H2 K1 K2 Hf; [lia|]. cbn [libcmp].
  destruct H1 as [|c1 s1 Hc1 H1]; cbn [app].
  - assert (Hend : exists c2 p2, s2 ++ 0 :: j2 = c2 :: p2 /\ sign (schar 0 - schar c2) = name_cmp (key_of []) (key_of s2)).
    { destruct H2 as [|c2 s2 Hc2 H2]; [by exists 0, j2|]. exists c2, (s2 ++ 0 :: j2). split; [done|]. rewrite cmp_sub. destruct (digit c2) eqn:E.
      - rewrite key_digit by done. apply digit_spec in E. destruct (key_head (c2 - 48) s2 ltac:(lia)) as (v & k & -> & Hv). unfold key_of, num_key. cbn [key_from close name_cmp].
        rewrite (proj2 (Z.compare_lt_iff 0 (256 + v))) by lia. apply Z.compare_lt_iff. unfold schar. destruct (Z.ltb_spec c2 128); cbn; lia.
      - rewrite key_plain by done. unfold key_of at 1. cbn [key_from close name_cmp]. change (schar 0) with 0. destruct (schar_range c2 Hc2) as [Hne _]. destruct (Z.compare_spec 0 (schar c2)); [lia|done|done]. }
    destruct Hend as (c2 & p2 & -> & Hs). cbn [Z.eqb]. eexists. split; [done|exact Hs].
  - rewrite (proj2 (Z.eqb_neq c1 0)) by (unfold text_char in Hc1; lia). cbn [length] in Hf.
    destruct (digit c1) eqn:E1.
    + rewrite (key_digit c1) in * by done. pose proof E1 as D1. apply digit_spec in D1. destruct H2 as [|c2 s2 Hc2 H2]; cbn [app].
      { change (digit 0) with false. cbv iota. exists 1. split; [done|]. destruct (key_head (c1 - 48) s1 ltac:(lia)) as (v & k & -> & Hv). unfold key_of, num_key. cbn [key_from close name_cmp]. by rewrite (proj2 (Z.compare_gt_iff (256 + v) 0)) by lia. }
      destruct (digit c2) eqn:E2.
      * rewrite (key_digit c2) in * by done. pose proof E2 as D2. apply digit_spec in D2. destruct (digits_spec s1 (c1 - 48) j1 H1 ltac:(lia) K1) as (v1 & r1 & -> & Er1 & ? & ? & Hl1 & Hr1). cbn [mbind res_bind].
        destruct (digits_spec s2 (c2 - 48) j2 H2 ltac:(lia) K2) as (v2 & r2 & -> & Er2 & ? & ? & Hl2 & Hr2). cbn [mbind res_bind]. rewrite Er1, Er2 in *. cbn [name_cmp]. inversion K1; subst. inversion K2; subst.
        assert (Hcmp : (num_key v1 ?= num_key v2) = (v1 ?= v2)) by (unfold num_key; apply Zcompare_plus_compat). rewrite Hcmp.
        destruct (Z.eqb_spec v1 v2) as [->|Hne]; cbn [negb]; [rewrite Z.compare_refl; apply IH; done || lia|].
        exists (v1 - v2). split; [apply i32_ok; lia|]. rewrite cmp_sub. destruct (Z.compare_spec v1 v2); done.
      * exists 1. split; [done|]. rewrite key_plain by done. destruct (key_head (c1 - 48) s1 ltac:(lia)) as (v & k & -> & Hv). destruct (schar_range c2 Hc2) as [_ ?]. unfold num_key. cbn [name_cmp]. by rewrite (proj2 (Z.compare_gt_iff (256 + v) (schar c2))) by lia.
    + assert (Hnext : exists c2 p2, s2 ++ 0 :: j2 = c2 :: p2 /\ (c2 = 0 /\ s2 = [] \/ text_char c2 /\ exists t, s2 = c2 :: t /\ p2 = t ++ 0 :: j2 /\ Forall text_char t)).
      { destruct H2 as [|c2 s2 Hc2 H2]; [exists 0, j2; eauto|]. exists c2, (s2 ++ 0 :: j2). split; [done|]. right. split; [done|]. by exists s2. }
      destruct Hnext as (c2 & p2 & -> & Hc2). destruct (schar_range c1 Hc1) as [Hn1 Hr1]. rewrite (key_plain c1) by done. destruct Hc2 as [[-> ->]|(Hc2 & t & -> & -> & Ht)].
      * change (digit 0) with false. cbv iota. change (schar 0) with 0. rewrite (proj2 (Z.eqb_neq (schar c1) 0)) by done. cbn [negb]. eexists. split; [done|]. rewrite cmp_sub. unfold key_of at 2. cbn [key_from close name_cmp].
        destruct (Z.compare_spec (schar c1) 0); [lia|done|done].
      * destruct (digit c2) eqn:E2.
        { exists (-1). split; [done|]. rewrite key_digit by done. apply digit_spec in E2. destruct (key_head (c2 - 48) t ltac:(lia)) as (v & k & -> & Hv). unfold num_key. cbn [name_cmp]. by rewrite (proj2 (Z.compare_lt_iff (schar c1) (256 + v))) by lia. }
        rewrite (key_plain c2) by done. cbn [name_cmp]. destruct (Z.eqb_spec (schar c1) (schar c2)) as [Heq|Hne]; cbn [negb].
        -- rewrite Heq, Z.compare_refl. apply IH; [done|done|by apply (small_tail c1)|by apply (small_tail c2)|lia].
        -- eexists. split; [done|]. rewrite cmp_sub. destruct (Z.compare_spec (schar c1) (schar c2)); done.
Qed.

(** Names compare as their keys do. *)
Lemma cache_libcmp_spec s1 s2 junk : Forall text_char s1 -> Forall text_char s2 -> small (key_of s1) -> small (key_of s2) ->
  exists v, _dl_cache_libcmp (s1 ++ [0]) (s2 ++ 0 :: junk) = Ok v /\ sign v = name_cmp (key_of s1) (key_of s2).
Proof. intros H1 H2 K1 K2. apply (libcmp_spec _ s1 s2 [] junk H1 H2 K1 K2). rewrite length_app. cbn [length]. lia. Qed.
