(* ===== verification/CachePrio.v ===== *)
(** * The cache of ldconfig: priorities of subdirectories

    The names of [glibc-hwcaps] subdirectories in the cache are merged with the priorities of the loader, both sorted by name. *)

From S2P Require Import Prelude Dst DstSpec Paths Hwcaps HwcapsSpec Verify Cache CacheOrder.

(** The priority of the first entry with the name; zero means that the name is not used. *)
Fixpoint rank_in (ps : list dl_hwcaps_priority) (n : list Z) : Z := match ps with [] => 0 | p :: ps => if bool_decide (pr_name p = n) then pr_priority p else rank_in ps n end.

Lemma rank_in_notin ps n : Forall (fun p => pr_name p <> n) ps -> rank_in ps n = 0.
Proof. induction 1 as [|p ps Hp _ IH]; [done|]. cbn [rank_in]. by rewrite bool_decide_eq_false_2. Qed.

Lemma rank_in_range ps n : Forall (fun p => 0 < pr_priority p < 2 ^ 32) ps -> 0 <= rank_in ps n < 2 ^ 32.
Proof. induction 1 as [|p ps Hp _ IH]; cbn [rank_in]; [lia|]. case_bool_decide; lia. Qed.
Lemma string_in_ok s junk : Forall (fun c => c <> 0) s -> string_in (s ++ 0 :: junk) = Ok s.
Proof.
  induction 1 as [|c s Hc _ IH]; [done|]. cbn [app string_in]. rewrite (proj2 (Z.eqb_neq c 0)) by done. by rewrite IH.
Qed.

Section Priorities.
Context (malloc : Z -> option (list Z)) (ps : list dl_hwcaps_priority) (file : list Z) (cache_new : Z).

(** The string at an offset *)
Definition string_at (off : Z) (s : list Z) : Prop := off < Z.of_nat (length file) /\ exists junk, from file off = Ok (s ++ 0 :: junk) /\ Forall (fun c => c <> 0) s.
Definition ascending (a b : list Z) : Prop := name_cmp a b = Lt.

Lemma compare_spec l n p : string_at l n -> exists v, glibc_hwcaps_compare file l p = Ok v /\ sign v = name_cmp n (pr_name p).
Proof.
  intros (_ & junk & E & Hn). unfold glibc_hwcaps_compare. rewrite E. cbn [mbind res_bind]. rewrite string_in_ok by done. cbn [mbind res_bind]. eexists. split; [done|].
  pose proof (memcmp_cmp n (pr_name p)) as H. unfold sign. set (c := memcmp n (pr_name p)) in *. destruct (Z.eqb_spec c 0) as [->|Hc]; cbn [negb].
  - destruct (Nat.ltb_spec (length n) (length (pr_name p))), (Nat.ltb_spec (length (pr_name p)) (length n)), (name_cmp n (pr_name p)); cbn; done || lia.
  - destruct (name_cmp n (pr_name p)); [lia|apply Z.compare_lt_iff; lia|apply Z.compare_gt_iff; lia].
Qed.
Lemma fill_store ls a i : fill_zero ls a i = store a i ((fun _ => 0) <$> ls).
Proof. revert a i. induction ls as [|l ls IH]; intros a i; [done|]. cbn [fill_zero fmap list_fmap store]. destruct (wr a i 0); cbn; [apply IH|done..]. Qed.
Lemma ascending_rank p qs ns : Forall (fun n => pr_name p <> n) ns -> rank_in (p :: qs) <$> ns = rank_in qs <$> ns.
Proof. induction 1 as [|n ns Hn _ IH]; [done|]. cbn [fmap list_fmap]. rewrite IH. cbn [rank_in]. by rewrite bool_decide_eq_false_2. Qed.

(** The merge and the zeros behind it write the priority of every name. *)
Lemma merge_spec fuel ls ns qs a i : Forall2 string_at ls ns -> StronglySorted ascending ns -> StronglySorted before qs -> (length ls + length qs < fuel)%nat ->
  ('(l, a, i) ← merge fuel file ls qs a i; fill_zero l a i) = store a i (rank_in qs <$> ns).
Proof.
  revert ls ns qs a i. induction fuel as [|fuel IH]; intros ls ns qs a i Hl Hns Hqs Hf; [lia|]. cbn [merge].
  destruct Hl as [|l n ls ns Hln Hl]; [done|]. destruct qs as [|q qs].
  { cbn [mbind res_bind mret res_ret]. rewrite fill_store. f_equal. cbn [fmap list_fmap rank_in]. f_equal. clear - Hl. induction Hl as [|? ? ? ? _ _ IH]; [done|]. cbn [fmap list_fmap rank_in]. f_equal. exact IH. }
  rewrite (proj2 (Z.ltb_lt l _)) by apply Hln. destruct (compare_spec l n q Hln) as (v & -> & Hv). cbn [mbind res_bind]. inversion Hns as [|? ? Hns' Hmin]; subst. inversion Hqs as [|? ? Hqs' Hq]; subst. cbn [length] in Hf.
  unfold sign in Hv. destruct (name_cmp n (pr_name q)) eqn:E.
  - apply Z.compare_eq_iff in Hv as ->. apply name_cmp_eq in E. cbn [Z.eqb fmap list_fmap store]. cbn [rank_in]. rewrite (bool_decide_eq_true_2 _ (eq_sym E)).
    destruct (wr a i (pr_priority q)) as [a'| | | |]; cbn [mbind res_bind]; [|done..]. rewrite (IH ls ns qs a' (i + 1) Hl Hns' Hqs' ltac:(lia)). f_equal. symmetry. apply ascending_rank.
    apply (Forall_impl _ _ _ Hmin). intros n' Hn' <-. unfold ascending in Hn'. by rewrite E, name_cmp_refl in Hn'.
  - change (v < 0) in Hv. rewrite (proj2 (Z.eqb_neq v 0)), (proj2 (Z.ltb_lt v 0)) by lia. cbn [fmap list_fmap store].
    assert (Hz : rank_in (q :: qs) n = 0).
    { apply rank_in_notin. constructor; [intros Heq; by rewrite Heq, name_cmp_refl in E|]. apply (Forall_impl _ _ _ Hq). intros p [Hp|[Hp _]] Heq; rewrite Heq in Hp; [by rewrite name_cmp_opp, E in Hp|by rewrite Hp, name_cmp_refl in E]. }
    rewrite Hz. destruct (wr a i 0) as [a'| | | |]; cbn [mbind res_bind]; [|done..]. apply (IH ls ns (q :: qs)); [done|done|done|cbn [length]; lia].
  - change (v > 0) in Hv. rewrite (proj2 (Z.eqb_neq v 0)), (proj2 (Z.ltb_ge v 0)) by lia.
    rewrite (IH (l :: ls) (n :: ns) qs a i ltac:(by constructor) Hns Hqs' ltac:(cbn [length]; lia)). f_equal. symmetry. apply ascending_rank.
    assert (Hqn : name_cmp (pr_name q) n = Lt) by (by rewrite name_cmp_opp, E). constructor; [intros Heq; by rewrite Heq, name_cmp_refl in Hqn|].
    apply (Forall_impl _ _ _ Hmin). intros n' Hn' <-. pose proof (name_cmp_trans _ _ _ Hqn Hn') as Ht. by rewrite name_cmp_refl in Ht.
Qed.

(** ** The array of priorities *)
(** The names of the subdirectories in the cache, and where they are *)
Class HwcapsSection (ls : list Z) (ns : list (list Z)) : Prop := {
  hs_load : exists sec, cache_extension_load file cache_new = Ok (Some sec) /\ let '(base, size) := default (0, 0) sec in size / 4 = Z.of_nat (length ls) /\ words file base (length ls) = Ok ls;
  hs_names : Forall2 string_at ls ns;
  hs_sorted : StronglySorted ascending ns }.
Context (ls : list Z) (ns : list (list Z)) {HS : HwcapsSection ls ns}.
Hypothesis Hps : StronglySorted before ps.
Hypothesis Hmalloc : forall n, 0 <= n -> exists a, malloc n = Some a /\ Z.of_nat (length a) = n.

Definition merged : list Z := rank_in ps <$> ns.
(** Not made yet, or made *)
Definition prios_ok (s : cst) : Prop := cs_prios_allocated s = Z.of_nat (length (cs_prios s)) /\ (cs_prios_length s = 0 \/ cs_prios_length s = Z.of_nat (length ns) /\ merged `prefix_of` cs_prios s).

Lemma merge_array a : (length ns <= length a)%nat -> exists l a1 i, merge (S (length ls + length ps + length a)) file ls ps a 0 = Ok (l, a1, i) /\ fill_zero l a1 i = Ok (merged ++ drop (length ns) a).
Proof using HS Hps.
  intros Ha. assert (Hm : length merged = length ns) by apply length_fmap.
  pose proof (merge_spec (S (length ls + length ps + length a)) ls ns ps a 0 hs_names hs_sorted Hps ltac:(lia)) as H. fold merged in H. rewrite store_spec in H by lia. rewrite Hm in H.
  apply bind_Ok_inv in H as ([[l a1] i] & E & H). exists l, a1, i. split; [exact E|]. exact H.
Qed.
Lemma init_spec s : cs_prios_allocated s = Z.of_nat (length (cs_prios s)) ->
  exists s', glibc_hwcaps_priorities_init malloc ps file cache_new s = Ret tt s' /\ prios_ok s' /\ cs_prios_length s' = Z.of_nat (length ns) /\ cs_cache s' = cs_cache s /\ cs_new s' = cs_new s.
Proof using HS Hps Hmalloc.
  intros Ha. destruct hs_load as (sec & E & Hsec). pose proof (Forall2_length _ _ _ hs_names) as Hlen. unfold glibc_hwcaps_priorities_init. rewrite E. rewrite (M_bind_step _ _ _ (Some sec) s) by done.
  destruct (default (0, 0) sec) as [base size]. destruct Hsec as [-> Hw]. rewrite (M_bind_step _ _ _ s s) by done.
  assert (Halloc : exists a, ((if cs_prios_allocated s <? Z.of_nat (length ls)
      then modify (set_prios [] (cs_prios_length s) 0);; match malloc (Z.of_nat (length ls)) with None => mret false | Some a => modify (set_prios a (cs_prios_length s) (Z.of_nat (length ls)));; mret true end
      else mret true) : M cst bool) s = Ret true (set_prios a (cs_prios_length s) (Z.of_nat (length a)) s) /\ (length ls <= length a)%nat).
  { destruct (Z.ltb_spec (cs_prios_allocated s) (Z.of_nat (length ls))) as [Hlt|Hge].
    - destruct (Hmalloc (Z.of_nat (length ls)) ltac:(lia)) as (a & -> & Hl). exists a. split; [|lia]. rewrite <- Hl. by destruct s.
    - exists (cs_prios s). split; [|lia]. rewrite <- Ha. by destruct s. }
  destruct Halloc as (a & Ea & Hal). rewrite (M_bind_step _ _ _ _ _ Ea). set (s1 := set_prios a _ _ s). rewrite Nat2Z.id, Hw.
  rewrite (M_bind_step _ _ _ ls s1) by done. rewrite (M_bind_step _ _ _ s1 s1) by done. cbn [cs_prios s1 set_prios].
  destruct (merge_array a ltac:(lia)) as (l & a1 & i & E1 & E2). rewrite E1. rewrite (M_bind_step _ _ _ (l, a1, i) s1) by done. cbv beta iota. rewrite E2. rewrite (M_bind_step _ _ _ (merged ++ drop (length ns) a) s1) by done.
  eexists. split; [done|]. unfold prios_ok. cbn [id s1 set_prios cs_prios cs_prios_length cs_prios_allocated cs_cache cs_new]. rewrite Hlen. split; [|done]. split.
  - rewrite length_app, length_drop. unfold merged. rewrite length_fmap. lia.
  - right. split; [done|]. by apply prefix_app_r.
Qed.
(** The priority of the subdirectory with a number *)
Definition prio_of (index : Z) : Z := default 0 (merged !! Z.to_nat index).
Lemma priority_spec s index : prios_ok s -> 0 <= index -> exists s', glibc_hwcaps_priority malloc ps file cache_new index s = Ret (prio_of index) s' /\ prios_ok s' /\ cs_cache s' = cs_cache s /\ cs_new s' = cs_new s.
Proof using HS Hps Hmalloc.
  intros I Hi. assert (Hnow : exists s', (if cs_prios_length s =? 0 then glibc_hwcaps_priorities_init malloc ps file cache_new else mret tt) s = Ret tt s' /\ prios_ok s' /\ cs_prios_length s' = Z.of_nat (length ns) /\ cs_cache s' = cs_cache s /\ cs_new s' = cs_new s).
  { destruct (Z.eqb_spec (cs_prios_length s) 0) as [H0|H0]; [apply init_spec, I|]. exists s. destruct I as [Ha [?|[Hl Hp]]]; [done|]. split; [done|]. split; [by split; [|right]|done]. }
  destruct Hnow as (s' & E & I' & Hl & Hc & Hn). unfold glibc_hwcaps_priority. rewrite (M_bind_step _ _ _ s s) by done. rewrite (M_bind_step _ _ _ tt s') by exact E. rewrite (M_bind_step _ _ _ s' s') by done.
  exists s'. split; [|done]. rewrite Hl. unfold prio_of. assert (Hm : length merged = length ns) by apply length_fmap. destruct (Z.ltb_spec index (Z.of_nat (length ns))) as [Hlt|Hge].
  - destruct (lookup_lt_is_Some_2 merged (Z.to_nat index)) as [x Hx]; [lia|]. rewrite Hx. assert (Hr : rd (cs_prios s') index = Ok x); [|by rewrite Hr].
    apply rd_Ok. split; [done|]. destruct I' as [_ [H0|[_ [t ->]]]]; [lia|]. by apply lookup_app_l_Some.
  - by rewrite lookup_ge_None_2 by lia.
Qed.
End Priorities.
