(* ===== verification/CacheSpec.v ===== *)
(** * The cache of ldconfig: the search

    In a table that is sorted the binary search finds all entries with the name, and takes the one with the best subdirectory. *)

From S2P Require Import Prelude Dst DstSpec Paths Hwcaps HwcapsSpec Verify Cache CacheOrder CachePrio.

(** An entry as it is read from the file *)
Record centry := mkEntry { ce_flags : Z; ce_name : list Z; ce_value : Z; ce_hwcap : Z }.
Definition named (e : centry) : bool := dl_cache_hwcap_extension (ce_hwcap e).
Definition isa_level (e : centry) : Z := Z.land (Z.shiftr (ce_hwcap e) 32) DL_CACHE_HWCAP_ISA_LEVEL_MASK.

Section Search.
Context (malloc : Z -> option (list Z)) (ps : list dl_hwcaps_priority) (isa_1 : Z).
Context (file : list Z) (string_table string_table_size libs cache_new : Z) (name : list Z).

(** What the entries of the table are; they are sorted in descending order. *)
Record entry_at (i : nat) (e : centry) : Prop := {
  ea_key : exists key junk, entry_key file (_dl_cache_file_entry libs SIZE_ENTRY_NEW (Z.of_nat i)) = Ok key /\ key < string_table_size /\ from file (string_table + key) = Ok (ce_name e ++ 0 :: junk);
  ea_flags : entry_flags file (_dl_cache_file_entry libs SIZE_ENTRY_NEW (Z.of_nat i)) = Ok (ce_flags e);
  ea_value : entry_value file (_dl_cache_file_entry libs SIZE_ENTRY_NEW (Z.of_nat i)) = Ok (ce_value e);
  ea_hwcap : entry_hwcap file (_dl_cache_file_entry libs SIZE_ENTRY_NEW (Z.of_nat i)) = Ok (ce_hwcap e);
  ea_text : Forall text_char (ce_name e);
  ea_small : small (key_of (ce_name e));
  ea_level : named e = true -> isa_level e <= 31 }.
Definition descending (a b : centry) : Prop := name_cmp (key_of (ce_name a)) (key_of (ce_name b)) <> Lt.
(** Entries for subdirectories are listed before others with the same name. *)
Definition listed (a b : centry) : Prop := key_of (ce_name a) = key_of (ce_name b) -> named b = true -> named a = true.
Class CacheTable (es : list centry) : Prop := {
  ct_entry : forall i e, es !! i = Some e -> entry_at i e;
  ct_count : Z.of_nat (length es) < 2 ^ 30;
  ct_sorted : StronglySorted descending es;
  ct_named : StronglySorted listed es }.
Context (es : list centry) {CT : CacheTable es}.
Hypothesis Htext : Forall text_char name.
Hypothesis Hsmall : small (key_of name).
(** The priorities of subdirectories *)
Context (prio : Z -> Z) (Inv : cst -> Prop).
Hypothesis Hprio : forall s i, Inv s -> 0 <= i -> exists s', glibc_hwcaps_priority malloc ps file cache_new i s = Ret (prio i) s' /\ Inv s'.

(** ** The entries with the name *)
Definition order (e : centry) : comparison := name_cmp (key_of name) (key_of (ce_name e)).
Definition matches (e : centry) : Prop := order e = Eq.
#[export] Instance matches_dec e : Decision (matches e).
Proof using. unfold matches. solve_decision. Defined.

Lemma descending_order a b : descending a b -> (order a = Gt -> order b = Gt) /\ (order b = Lt -> order a = Lt) /\ (order a = Eq -> order b <> Lt).
Proof using.
  unfold descending, order. set (n := key_of name). set (x := key_of (ce_name a)). set (y := key_of (ce_name b)). intros H. destruct (name_cmp x y) eqn:E; [apply name_cmp_eq in E as ->; split; [done|]; split; [done|]; intros ->; done|done|].
  assert (Hyx : name_cmp y x = Lt) by (by rewrite name_cmp_opp, E). split; [|split].
  - intros Hn. assert (Hxn : name_cmp x n = Lt) by (by rewrite name_cmp_opp, Hn). rewrite name_cmp_opp. by rewrite (name_cmp_trans _ _ _ Hyx Hxn).
  - intros Hn. by apply (name_cmp_trans _ y).
  - intros Hn. apply name_cmp_eq in Hn as ->. by rewrite E.
Qed.
(** Those behind, with, and in front of the name *)
Lemma three_parts es' : StronglySorted descending es' -> exists A ms B, es' = A ++ ms ++ B /\ Forall (fun e => order e = Lt) A /\ Forall matches ms /\ Forall (fun e => order e = Gt) B.
Proof using.
  induction 1 as [|e es' _ (A & ms & B & -> & HA & Hm & HB) He]; [by exists [], [], []|]. rewrite !Forall_app in He. destruct He as (HeA & Hem & HeB). destruct (order e) eqn:E.
  - destruct A as [|a A]; [exists [], (e :: ms), B; by repeat constructor|]. inversion HA; subst. inversion HeA as [|? ? Hd _]; subst. by destruct (descending_order e a Hd) as (_ & _ & []).
  - exists (e :: A), ms, B. by repeat constructor.
  - assert (HG : forall b, descending e b -> order b = Gt) by (intros b Hd; by apply (descending_order e b Hd)).
    destruct A as [|a A]; [|inversion HA as [|? ? Ha _]; subst; inversion HeA as [|? ? Hd _]; subst; by rewrite (HG a Hd) in Ha].
    destruct ms as [|m ms]; [|inversion Hm as [|? ? Hm1 _]; subst; inversion Hem as [|? ? Hd _]; subst; unfold matches in Hm1; by rewrite (HG m Hd) in Hm1].
    exists [], [], (e :: B). by repeat constructor.
Qed.
Lemma filter_parts A ms B : Forall (fun e => order e = Lt) A -> Forall matches ms -> Forall (fun e => order e = Gt) B -> filter matches (A ++ ms ++ B) = ms.
Proof using.
  intros HA Hm HB. rewrite !filter_app. assert (Hn : forall C o, o <> Eq -> Forall (fun e => order e = o) C -> filter matches C = []).
  { intros C o Ho HC. induction HC as [|e C He _ IH]; [done|]. rewrite filter_cons_False; [done|]. unfold matches. by rewrite He. }
  rewrite (Hn A Lt), (Hn B Gt) by done. rewrite app_nil_r. cbn [app]. induction Hm as [|e ms He _ IH]; [done|]. rewrite filter_cons_True by done. by rewrite IH.
Qed.

(** ** Comparing with an entry *)
Lemma compare_entry i e : es !! i = Some e -> exists key v, entry_key file (_dl_cache_file_entry libs SIZE_ENTRY_NEW (Z.of_nat i)) = Ok key /\
  _dl_cache_verify_ptr key string_table_size = true /\ compare_key file string_table name key = Ok v /\ sign v = order e.
Proof using CT Htext Hsmall.
  intros He. destruct (ct_entry i e He) as [(key & junk & E1 & Hk & E2) _ _ _ Ht Hs _]. destruct (cache_libcmp_spec name (ce_name e) junk Htext Ht Hsmall Hs) as (v & Ev & Hv).
  exists key, v. split; [done|]. split; [by apply Z.ltb_lt|]. split; [|done]. unfold compare_key. by rewrite E2.
Qed.
Lemma sign_zero v e : sign v = order e -> (v =? 0) = bool_decide (matches e).
Proof using.
  clear. intros H. destruct (Z.eqb_spec v 0) as [->|Hv]; symmetry; [by apply bool_decide_eq_true_2|]. apply bool_decide_eq_false_2. unfold matches. rewrite <- H. by intros E%Z.compare_eq_iff.
Qed.

(** ** One entry *)
Definition usable (e : centry) : bool := _dl_cache_check_flags (ce_flags e) && _dl_cache_verify_ptr (ce_value e) string_table_size.
Definition compatible (e : centry) : bool := Z.land (Z.shiftl 1 (isa_level e)) isa_1 =? Z.shiftl 1 (isa_level e).
Definition entry_prio (e : centry) : Z := prio (u32 (ce_hwcap e)).
Definition step (e : centry) (best : option (Z * Z)) : option (Z * Z) + option (Z * Z) :=
  if usable e then
    if named e then
      if compatible e && negb (entry_prio e =? 0) && match best with Some (_, p) => entry_prio e <? p | None => true end then inr (Some (ce_value e, entry_prio e)) else inr best
    else if bool_decide (best <> None) then inl best
    else if ce_hwcap e =? 0 then inl (Some (ce_value e, 0)) else inr best
  else inr best.
Lemma consider_spec i e best s : es !! i = Some e -> Inv s -> exists s',
  consider malloc ps isa_1 file string_table_size SIZE_ENTRY_NEW cache_new (_dl_cache_file_entry libs SIZE_ENTRY_NEW (Z.of_nat i)) best s = Ret (step e best) s' /\ Inv s'.
Proof using CT Hprio.
  intros He I. destruct (ct_entry i e He) as [_ Ef Ev Eh _ _ Hl]. unfold consider. rewrite Ef. rewrite (M_bind_step _ _ _ (ce_flags e) s) by done. unfold step, usable.
  destruct (_dl_cache_check_flags (ce_flags e)) eqn:Efl; cbn [andb]; [|exists s; by rewrite (M_bind_step _ _ _ None s)].
  rewrite Ev. rewrite (M_bind_step _ _ _ (if _dl_cache_verify_ptr (ce_value e) string_table_size then Some (ce_value e) else None) s) by done.
  destruct (_dl_cache_verify_ptr (ce_value e) string_table_size); [|by exists s]. rewrite Z.leb_refl. rewrite Eh. unfold _dl_cache_check_flags in Efl. rewrite Efl.
  fold (named e). destruct (named e) eqn:En.
  - assert (Hc : dl_cache_hwcap_isa_level_compatible isa_1 (ce_hwcap e) = Ok (compatible e)).
    { unfold dl_cache_hwcap_isa_level_compatible. fold (isa_level e). by rewrite (proj2 (Z.ltb_ge 31 (isa_level e))) by (by apply Hl). }
    destruct (Hprio s (u32 (ce_hwcap e)) I (proj1 (u32_bound _))) as (s' & Ep & I'). unfold entry_prio.
    destruct (compatible e) eqn:Ecp; cbn [andb].
    + exists s'. split; [|done]. unfold mbind, M_bind, lift, mret, M_ret. cbn [negb andb]. fold (named e). rewrite En, Hc. cbn [negb andb]. rewrite Ep. destruct (prio (u32 (ce_hwcap e)) =? 0); cbn [negb andb]; [done|]. destruct best as [[b p]|]; [destruct (prio (u32 (ce_hwcap e)) <? p)|]; done.
    + exists s. split; [|done]. unfold mbind, M_bind, lift, mret, M_ret. fold (named e). by rewrite En, Hc.
  - exists s. split; [|done]. unfold mbind, M_bind, lift, mret, M_ret. fold (named e). rewrite En. cbn [negb andb]. destruct (bool_decide (best <> None)); [done|]. destruct (ce_hwcap e =? 0); done.
Qed.

(** ** All entries with the name *)
Fixpoint pick (ms : list centry) (best : option (Z * Z)) : option (Z * Z) :=
  match ms with
  | [] => best
  | e :: ms => match step e best with inl best => best | inr best => pick ms best end
  end.
Abbreviation scan := (Cache.scan malloc ps isa_1 file string_table string_table_size libs SIZE_ENTRY_NEW cache_new name).
Lemma table_scan_spec n m left ms r best s : (m + n <= length es)%nat -> take n (drop m es) = ms ++ r -> Forall matches ms -> (match r with [] => True | e :: _ => ~ matches e end) ->
  left < Z.of_nat m + Z.of_nat (length ms) -> Inv s -> exists s', scan n (Z.of_nat m) left best s = Ret (pick ms best) s' /\ Inv s'.
Proof using CT Hprio Htext Hsmall.
  revert m ms best s. induction n as [|n IH]; intros m ms best s Hn E Hm Hr Hl I; cbn [Cache.scan]; [destruct ms; [by exists s|done]|].
  destruct (lookup_lt_is_Some_2 es m) as [e He]; [lia|]. rewrite (drop_S es e m He) in E. cbn [firstn] in E. destruct (compare_entry m e He) as (key & v & Ek & Hv & Ec & Hs). apply sign_zero in Hs.
  assert (Hstop : (if left <? Z.of_nat m then key ← lift (entry_key file (_dl_cache_file_entry libs SIZE_ENTRY_NEW (Z.of_nat m))); if negb (_dl_cache_verify_ptr key string_table_size) then mret true
      else cmp ← lift (compare_key file string_table name key); mret (negb (cmp =? 0)) else mret false) s = Ret ((left <? Z.of_nat m) && negb (bool_decide (matches e))) s).
  { destruct (left <? Z.of_nat m); [|done]. rewrite Ek. rewrite (M_bind_step _ _ _ key s) by done. rewrite Hv. cbn [negb]. rewrite Ec. rewrite (M_bind_step _ _ _ v s) by done. by rewrite Hs. }
  rewrite (M_bind_step _ _ _ _ _ Hstop). destruct ms as [|e' ms].
  - cbn [app] in E. subst r. cbn [length] in Hl. rewrite (proj2 (Z.ltb_lt _ _)), bool_decide_eq_false_2 by (done || lia). by exists s.
  - injection E as <- E. inversion Hm as [|? ? Hme Hms]; subst. rewrite (bool_decide_eq_true_2 _ Hme), andb_false_r. destruct (consider_spec m e best s He I) as (s1 & E1 & I1). rewrite (M_bind_step _ _ _ _ _ E1). cbn [pick].
    destruct (step e best) as [b|b]; [by exists s1|]. replace (Z.of_nat m + 1) with (Z.of_nat (S m)) by lia. apply IH; [lia|done|done|done|cbn [length] in Hl; lia|done].
Qed.

(** ** Finding them *)
Section Parts.
Context (A ms B : list centry).
Hypothesis Hes : es = A ++ ms ++ B.
Hypothesis HA : Forall (fun e => order e = Lt) A.
Hypothesis Hms : Forall matches ms.
Hypothesis HB : Forall (fun e => order e = Gt) B.

Lemma part_of i e : es !! i = Some e -> order e = if (i <? length A)%nat then Lt else if (i <? length A + length ms)%nat then Eq else Gt.
Proof using Hes HA Hms HB.
  rewrite Hes. rewrite Forall_forall in HA, Hms, HB. intros H. destruct (Nat.ltb_spec i (length A)) as [H1|H1].
  - rewrite lookup_app_l in H by done. apply HA. by eapply list_elem_of_lookup_2.
  - rewrite lookup_app_r in H by done. destruct (Nat.ltb_spec i (length A + length ms)).
    + rewrite lookup_app_l in H by lia. apply Hms. by eapply list_elem_of_lookup_2.
    + rewrite lookup_app_r in H by lia. apply HB. by eapply list_elem_of_lookup_2.
Qed.
Lemma first_match_spec m : (length A <= m < length A + length ms)%nat -> first_match file string_table string_table_size libs SIZE_ENTRY_NEW name m = Ok (length A).
Proof using CT Htext Hsmall Hes HA Hms HB.
  induction m as [|m IH]; intros Hm; cbn [first_match]; [f_equal; lia|]. assert (Hlen : length es = (length A + length ms + length B)%nat) by (rewrite Hes, !length_app; lia).
  destruct (lookup_lt_is_Some_2 es m) as [e He]; [lia|]. destruct (compare_entry m e He) as (key & v & Ek & Hv & Ec & Hs). apply sign_zero in Hs. rewrite Ek. cbn [mbind res_bind]. rewrite Hv. cbn [negb]. rewrite Ec. cbn [mbind res_bind]. rewrite Hs.
  pose proof (part_of m e He) as Hp. destruct (Nat.ltb_spec m (length A)).
  - rewrite bool_decide_eq_false_2; [cbn [negb]; f_equal; lia|]. unfold matches. by rewrite Hp.
  - rewrite (proj2 (Nat.ltb_lt _ _)) in Hp by lia. rewrite (bool_decide_eq_true_2 _ Hp). cbn [negb]. apply IH. lia.
Qed.
Abbreviation bsearch := (Cache.bsearch malloc ps isa_1 file string_table string_table_size libs SIZE_ENTRY_NEW cache_new name).
Lemma bsearch_spec fuel left right s : 0 <= left <= Z.of_nat (length A) -> Z.of_nat (length A + length ms) <= right + 1 -> right < Z.of_nat (length es) -> right - left + 1 < Z.of_nat fuel -> Inv s ->
  exists s', bsearch fuel left right s = Ret ((fun b => string_table + b.1) <$> pick ms None) s' /\ Inv s'.
Proof using CT Hprio Htext Hsmall Hes HA Hms HB.
  assert (Hlen : length es = (length A + length ms + length B)%nat) by (rewrite Hes, !length_app; lia). pose proof ct_count as Hcount.
  revert left right. induction fuel as [|fuel IH]; intros left right Hl Hr Hn Hf I; [lia|]. cbn [Cache.bsearch].
  destruct (Z.leb_spec left right) as [Hle|Hgt]; [|exists s; split; [|done]; destruct ms; [done|cbn [length] in Hr; lia]].
  rewrite i32_ok by lia. rewrite (M_bind_step _ _ _ (left + right) s) by done. set (mid := (left + right) / 2).
  assert (Hmid : left <= mid <= right) by (unfold mid; split; [apply Z.div_le_lower_bound|apply Z.div_le_upper_bound]; lia).
  destruct (lookup_lt_is_Some_2 es (Z.to_nat mid)) as [e He]; [lia|]. destruct (compare_entry _ e He) as (key & v & Ek & Hv & Ec & Hs). rewrite Z2Nat.id in Ek by lia.
  rewrite Ek. rewrite (M_bind_step _ _ _ key s) by done. rewrite Hv. cbn [negb]. rewrite Ec. rewrite (M_bind_step _ _ _ v s) by done.
  pose proof (part_of _ e He) as Hp. rewrite Hp in Hs. clear Hp. unfold sign in Hs. destruct (Nat.ltb_spec (Z.to_nat mid) (length A)); [|destruct (Nat.ltb_spec (Z.to_nat mid) (length A + length ms))].
  - change (v < 0) in Hs. rewrite (proj2 (Z.eqb_neq v 0)), (proj2 (Z.ltb_lt v 0)) by lia. apply IH; done || lia.
  - apply Z.compare_eq_iff in Hs as ->. cbn [Z.eqb]. rewrite first_match_spec by lia. rewrite (M_bind_step _ _ _ (length A) s) by done.
    destruct (table_scan_spec (Z.to_nat (right - Z.of_nat (length A) + 1)) (length A) mid ms (take (Z.to_nat (right - Z.of_nat (length A) + 1) - length ms) B) None s) as (s' & E & I'); [lia| |done| |lia|done|].
    + rewrite Hes at 1. rewrite drop_app_length, take_app. f_equal. apply take_ge. lia.
    + pose proof HB as HB'. destruct B as [|b B']; [by rewrite take_nil|]. inversion HB' as [|? ? Hb _]; subst. destruct (_ - _)%nat; [done|]. cbn [firstn]. unfold matches. by rewrite Hb.
    + rewrite (M_bind_step _ _ _ _ _ E). exists s'. by destruct (pick ms None).
  - change (v > 0) in Hs. rewrite (proj2 (Z.eqb_neq v 0)), (proj2 (Z.ltb_ge v 0)) by lia. apply IH; done || lia.
Qed.
End Parts.

(** The search takes from the entries with the name, and ends. *)
Lemma search_cache_spec s : Inv s -> exists s', search_cache malloc ps isa_1 file string_table string_table_size libs (Z.of_nat (length es)) SIZE_ENTRY_NEW cache_new name s =
  Ret ((fun b => string_table + b.1) <$> pick (filter matches es) None) s' /\ Inv s'.
Proof using CT Hprio Htext Hsmall.
  intros I. destruct (three_parts es ct_sorted) as (A & ms & B & Hes & HA & Hms & HB). assert (Hlen : length es = (length A + length ms + length B)%nat) by (rewrite Hes, !length_app; lia). pose proof ct_count as Hc.
  assert (Hright : s32 (Z.of_nat (length es) - 1) = Z.of_nat (length es) - 1).
  { unfold s32, u32. destruct (decide (length es = 0%nat)) as [->|Hne]; [done|]. rewrite Z.mod_small by lia. by rewrite (proj2 (Z.ltb_lt _ _)) by lia. }
  unfold search_cache. rewrite Hright. replace (filter matches es) with ms by (rewrite Hes at 1; symmetry; by apply filter_parts).
  apply (bsearch_spec A ms B Hes HA Hms HB); lia || done.
Qed.

(** ** The best entry *)
Hypothesis Hrange : forall i, 0 <= prio i < 2 ^ 32.
(** Entries that can be used; a subdirectory is better than none, and one with a lower number is better. *)
Definition candidate (e : centry) : bool := usable e && if named e then compatible e && negb (entry_prio e =? 0) else ce_hwcap e =? 0.
Definition rank (e : centry) : Z := if named e then entry_prio e else 2 ^ 32.
(** The first of the best candidates *)
Definition first_best (ms : list centry) (e : centry) : Prop :=
  exists i, ms !! i = Some e /\ candidate e = true /\ forall j e', ms !! j = Some e' -> candidate e' = true -> rank e <= rank e' /\ ((j < i)%nat -> rank e < rank e').
Definition no_candidate (ms : list centry) : Prop := Forall (fun e => candidate e = false) ms.
Definition found (ms : list centry) (best : option (Z * Z)) : Prop := match best with None => no_candidate ms | Some (v, _) => exists e, first_best ms e /\ v = ce_value e end.
(** While entries for subdirectories are read *)
Definition found_named (ms : list centry) (best : option (Z * Z)) : Prop :=
  match best with None => no_candidate ms | Some (v, p) => exists e, first_best ms e /\ v = ce_value e /\ p = rank e /\ named e = true end.

Lemma rank_le e : rank e <= 2 ^ 32.
Proof using Hrange. unfold rank. destruct (named e); [|done]. pose proof (Hrange (u32 (ce_hwcap e))). unfold entry_prio. lia. Qed.
Lemma first_best_app xs ys e : first_best xs e -> Forall (fun e' => candidate e' = true -> rank e <= rank e') ys -> first_best (xs ++ ys) e.
Proof using.
  intros (i & Hi & Hc & H) Hy. exists i. split; [by apply lookup_app_l_Some|]. split; [done|]. intros j e' Hj He'. apply lookup_app_Some in Hj as [Hj|[Hj Hy']]; [by apply (H j)|].
  apply lookup_lt_Some in Hi. split; [|lia]. rewrite Forall_forall in Hy. apply Hy; [by eapply list_elem_of_lookup_2|done].
Qed.
Lemma first_best_new xs e ys : candidate e = true -> (forall e', e' ∈ xs -> candidate e' = true -> rank e < rank e') -> Forall (fun e' => candidate e' = true -> rank e <= rank e') ys -> first_best (xs ++ e :: ys) e.
Proof using.
  intros Hc Hx Hy. rewrite cons_middle, app_assoc. apply first_best_app; [|done]. exists (length xs). split; [by apply list_lookup_middle|]. split; [done|]. intros j e' Hj He'.
  apply lookup_app_Some in Hj as [Hj|[Hj Hx']].
  - assert (Hr : rank e < rank e') by (apply Hx; [by eapply list_elem_of_lookup_2|done]). split; [lia|done].
  - apply list_lookup_singleton_Some in Hx' as [Hx' <-]. split; [done|lia].
Qed.
Lemma found_skip xs e best : candidate e = false -> found_named xs best -> found_named (xs ++ [e]) best.
Proof using.
  intros He. destruct best as [[v p]|]; cbn.
  - intros (e' & H & ? & ?). exists e'. split; [|done]. apply first_best_app; [done|]. constructor; [by rewrite He|done].
  - intros H. apply Forall_app. split; [done|by constructor].
Qed.
Definition named_first (a b : centry) : Prop := named b = true -> named a = true.
Lemma pick_found ms xs best : StronglySorted named_first ms -> found_named xs best -> found (xs ++ ms) (pick ms best).
Proof using Hrange.
  intros Hs. revert xs best. induction Hs as [|e ms Hs IH He]; intros xs best Hb; cbn [pick].
  { rewrite app_nil_r. destruct best as [[v p]|]; cbn in *; [|done]. destruct Hb as (e & ? & ? & _). by exists e. }
  rewrite cons_middle, app_assoc. unfold step. assert (Hskip : candidate e = false -> found ((xs ++ [e]) ++ ms) (pick ms best)) by (intros Hc; apply IH; by apply found_skip).
  unfold candidate in Hskip. destruct (usable e) eqn:Eu; cbn [andb] in Hskip; [|by apply Hskip]. destruct (named e) eqn:En.
  - destruct (compatible e && negb (entry_prio e =? 0)) eqn:Ec; cbn [andb]; [|by apply Hskip]. assert (Hc : candidate e = true) by (unfold candidate; by rewrite Eu, En, Ec). assert (Hr : rank e = entry_prio e) by (unfold rank; by rewrite En).
    destruct best as [[v p]|]; cbn in Hb.
    + destruct Hb as (b & Hb & -> & -> & Hbn). destruct (Z.ltb_spec (entry_prio e) (rank b)) as [Hlt|Hge]; apply IH; cbn [found_named].
      * exists e. split; [|done]. apply first_best_new; [done| |by constructor]. intros e' Hx Hce. destruct Hb as (i & _ & _ & Hmin). apply list_elem_of_lookup in Hx as [j Hj]. destruct (Hmin j e' Hj Hce). lia.
      * exists b. split; [|done]. apply first_best_app; [done|]. constructor; [intros _; lia|done].
    + apply IH. exists e. split; [|done]. apply first_best_new; [done| |by constructor]. intros e' Hx Hce. unfold no_candidate in Hb. rewrite Forall_forall in Hb. by rewrite (Hb e' Hx) in Hce.
  - assert (Hrest : Forall (fun e' => rank e' = 2 ^ 32) (e :: ms)).
    { constructor; [unfold rank; by rewrite En|]. apply (Forall_impl _ _ _ He). intros e' Hn. unfold rank. destruct (named e') eqn:En'; [|done]. unfold named_first in Hn. by rewrite (Hn En') in En. }
    rewrite <- app_assoc. cbn [app]. destruct best as [[v p]|]; cbn in Hb.
    + rewrite bool_decide_eq_true_2 by done. destruct Hb as (b & Hb & -> & _). exists b. split; [|done]. apply first_best_app; [done|]. apply (Forall_impl _ _ _ Hrest). intros e' ->  _. apply rank_le.
    + rewrite bool_decide_eq_false_2 by (intros H; by apply H). destruct (ce_hwcap e =? 0) eqn:Eh; [|rewrite cons_middle, app_assoc; by apply Hskip]. inversion Hrest as [|? ? Hre Hrs]; subst.
      exists e. split; [|done]. apply first_best_new; [unfold candidate; by rewrite Eu, En, Eh| |].
      * intros e' Hx Hce. unfold no_candidate in Hb. rewrite Forall_forall in Hb. by rewrite (Hb e' Hx) in Hce.
      * apply (Forall_impl _ _ _ Hrs). intros e' -> _. lia.
Qed.

Lemma matching_named es' : StronglySorted listed es' -> StronglySorted named_first (filter matches es').
Proof using.
  induction 1 as [|e es' _ IH He]; [by constructor|]. destruct (decide (matches e)) as [Hm|Hm]; [|by rewrite filter_cons_False]. rewrite filter_cons_True by done. constructor; [done|].
  apply Forall_forall. intros e' [Hm' He']%list_elem_of_filter. rewrite Forall_forall in He. intros Hn. apply (He e' He'); [|done]. unfold matches, order in Hm, Hm'. apply name_cmp_eq in Hm, Hm'. congruence.
Qed.
Lemma pick_best : found (filter matches es) (pick (filter matches es) None).
Proof using CT Hrange. apply (pick_found (filter matches es) [] None); [apply matching_named, ct_named|by constructor]. Qed.
End Search.

(** ** The lookup *)
Section Lookup.
Context (malloc : Z -> option (list Z)) (ps : list dl_hwcaps_priority) (isa_1 : Z) (file : list Z) (ls : list Z) (ns : list (list Z)) (es : list centry).
Abbreviation size := (u32 (Z.of_nat (length file))).
(** A file in the new format *)
Record new_format : Prop := {
  nf_size : SIZE_FILE_NEW < Z.of_nat (length file);
  nf_magic : has_magic file 0 CACHEMAGIC_VERSION_NEW = true;
  nf_nlibs : nlibs_new file 0 = Ok (Z.of_nat (length es));
  nf_room : Z.of_nat (length es) <= (Z.of_nat (length file) - SIZE_FILE_NEW) / SIZE_ENTRY_NEW;
  nf_endian : cache_file_new_matches_endian file 0 = Ok true;
  nf_values : forall e, e ∈ es -> ce_value e < size -> exists str junk, from file (ce_value e) = Ok (str ++ 0 :: junk) /\ Forall (fun c => c <> 0) str }.
Hypothesis Hformat : new_format.
Context {CT : CacheTable file 0 size SIZE_FILE_NEW es} {HS : HwcapsSection file 0 ls ns}.
Hypothesis Hps : StronglySorted before ps.
Hypothesis Hps_range : Forall (fun p => 0 < pr_priority p < 2 ^ 32) ps.
Hypothesis Hmalloc : forall n, 0 <= n -> exists a, malloc n = Some a /\ Z.of_nat (length a) = n.

(** Nothing has been read yet, or the file has. *)
Definition ready (s : cst) : Prop := prios_ok ps ns s /\ (cs_cache s = NoCache \/ cs_cache s = CacheFile file /\ cs_new s = Some 0).
Definition loaded (s : cst) : Prop := prios_ok ps ns s /\ cs_cache s = CacheFile file /\ cs_new s = Some 0.
Abbreviation prio := (prio_of ps ns).

Lemma prio_range i : 0 <= prio i < 2 ^ 32.
Proof using Hps_range.
  unfold prio_of, merged. rewrite list_lookup_fmap. destruct (ns !! Z.to_nat i) as [n|]; cbn [fmap option_fmap option_map from_option id]; [by apply rank_in_range|lia].
Qed.
Lemma prio_runs s i : loaded s -> 0 <= i -> exists s', glibc_hwcaps_priority malloc ps file 0 i s = Ret (prio i) s' /\ loaded s'.
Proof using HS Hps Hmalloc.
  intros (I & Hc & Hn) Hi. destruct (priority_spec malloc ps file 0 ls ns Hps Hmalloc s i I Hi) as (s' & E & I' & Hc' & Hn'). exists s'. split; [done|]. split; [done|]. split; congruence.
Qed.
Lemma load_runs s : ready s -> exists s', (match cs_cache s with NoCache => load_cache (Some file) | _ => mret tt end) s = Ret tt s' /\ loaded s'.
Proof using Hformat.
  intros (I & [Hc|[Hc Hn]]); rewrite Hc; [|by exists s]. exists (set_cache (CacheFile file) (Some 0) s). split; [|by destruct I]. unfold load_cache. destruct Hformat as [H1 H2 H3 H4 H5 _].
  rewrite (proj2 (Z.ltb_lt _ _) H1), H2, H3. cbn [andb mbind res_bind]. rewrite (proj2 (Z.leb_le _ _) H4). rewrite (M_bind_step _ _ _ true s) by done. rewrite H5. by rewrite (M_bind_step _ _ _ true s).
Qed.
(** [_dl_unload_cache] forgets the file and the priorities. *)
Lemma unload_ready s : ready s -> exists s', _dl_unload_cache s = Ret tt s' /\ ready s' /\ cs_cache s' = NoCache.
Proof using.
  intros ([Ha _] & Hc). eexists. split; [done|]. destruct s as [c n p l al]; cbn in *. destruct Hc as [->|[-> _]]; (split; [|done]); split; try (by left); (split; [done|by left]).
Qed.

Abbreviation matching name := (filter (matches name) es).
(** C32. In an undamaged cache file of the new format the lookup returns the file name of the best entry with the name, where numbers in names compare as numbers: one for a subdirectory that
    the processor and the loader support, with the best priority, or else one for no subdirectory; and the first of equal ones.  When there
    is none it returns nothing.  The search ends, whether the file was read before or not.
    The conditions are: the file starts with the magic number of the new format (not a table inside of a file in the old format, [embedded_table_unchecked]) and is marked for this byte order; it has less than 2^30 entries and room for them; their
    names and file names are terminated strings inside of the file; the numbers in the names of the entries and in the name looked up are small enough for an [int]
    (else [long_number_overflows]); the entries are sorted in descending order of their names, with those for subdirectories before others of the same name,
    and their ISA levels are at most 31; the section with the names of subdirectories is inside of the file and sorted (else [bad_index_overflows]); the supported subdirectories
    are sorted and their priorities are positive and fit in 32 bits; and there is memory. *)
Theorem cache_lookup_best name s : Forall text_char name -> small (key_of name) -> ready s ->
  exists r s', _dl_load_cache_lookup malloc ps isa_1 (Some file) true name s = Ret r s' /\ ready s' /\
    match r with
    | None => no_candidate isa_1 size prio (matching name)
    | Some str => exists e junk, first_best isa_1 size prio (matching name) e /\ from file (ce_value e) = Ok (str ++ 0 :: junk)
    end.
Proof using Hformat CT HS Hps Hps_range Hmalloc.
  intros Ht Hsm Hr. destruct (load_runs s Hr) as (s1 & E1 & L1). unfold _dl_load_cache_lookup. rewrite (M_bind_step _ _ _ s s) by done. rewrite (M_bind_step _ _ _ tt s1) by exact E1.
  rewrite (M_bind_step _ _ _ s1 s1) by done. pose proof L1 as (_ & -> & ->). rewrite (nf_nlibs Hformat).
  destruct (search_cache_spec malloc ps isa_1 file 0 size SIZE_FILE_NEW 0 name es Ht Hsm prio loaded prio_runs s1 L1) as (s2 & E2 & L2). change (0 + SIZE_FILE_NEW) with SIZE_FILE_NEW.
  rewrite (M_bind_step _ _ _ ((fun b => 0 + b.1) <$> pick isa_1 size prio (matching name) None) s2) by (by rewrite (M_bind_step _ _ _ (Z.of_nat (length es)) s1)).
  assert (R2 : ready s2) by (destruct L2 as (? & ? & ?); split; [done|by right]).
  pose proof (pick_best isa_1 file 0 size SIZE_FILE_NEW name es prio prio_range) as Hf. destruct (pick isa_1 size prio (matching name) None) as [[v p]|]; cbn [fmap option_fmap option_map fst]; [|by exists None, s2].
  destruct Hf as (e & Hb & ->). pose proof Hb as (i & Hi & Hc & _). assert (He : e ∈ es) by (apply (list_elem_of_filter (matches name) es e); by eapply list_elem_of_lookup_2).
  unfold candidate, usable in Hc. apply andb_true_iff in Hc as [[_ Hv]%andb_true_iff _]. apply Z.ltb_lt in Hv. destruct (nf_values Hformat e He Hv) as (str & junk & Es & Hs). rewrite Z.add_0_l, Es.
  rewrite (M_bind_step _ _ _ (str ++ 0 :: junk) s2) by done. rewrite string_in_ok by done. rewrite (M_bind_step _ _ _ str s2) by done. exists (Some str), s2. split; [done|]. split; [done|]. by exists e, junk.
Qed.
End Lookup.
