(* ===== verification/CacheExamples.v ===== *)
(** * The cache of ldconfig: a small cache

    Witness: a library with an entry for a subdirectory; names with leading zeros, and files that are damaged. *)

From S2P Require Import Prelude Dst DstSpec Paths Hwcaps HwcapsSpec Verify Cache CacheOrder CachePrio CacheSpec.

Module Example24.
(** [n] bytes with the value [v] *)
Fixpoint le (n : nat) (v : Z) : list Z := match n with O => [] | S n => v mod 256 :: le n (v / 256) end.
Definition entry (key value hwcap : Z) : list Z := le 4 0x303 ++ le 4 key ++ le 4 value ++ le 4 0 ++ le 8 hwcap.
Definition header (nlibs extension : Z) : list Z := CACHEMAGIC_VERSION_NEW ++ le 4 nlibs ++ le 4 0 ++ [2; 0; 0; 0] ++ le 4 extension ++ le 12 0.
(** The level of the processor that is needed is 1 for the entry of the subdirectory with the number 1. *)
Definition named_hwcap : Z := 2 ^ 62 + 2 ^ 32 + 1.
Definition strings : list Z := chars "x.so.10" ++ [0] ++ chars "/lib/x.so.10" ++ [0] ++ chars "x.so.2" ++ [0] ++ chars "/lib/v3/x.so.2" ++ [0] ++ chars "/lib/x.so.2" ++ [0] ++ chars "v2" ++ [0] ++ chars "v3" ++ [0; 0; 0].
(** The strings are at 120; the directory of extensions is behind them. *)
Definition cache_with (index2 : Z) : list Z :=
  header 3 184 ++ entry 120 128 0 ++ entry 141 148 named_hwcap ++ entry 141 163 0 ++ strings ++ replicate 1 0 ++
  le 4 cache_extension_magic ++ le 4 1 ++ le 4 1 ++ le 4 0 ++ le 4 208 ++ le 4 8 ++ le 4 175 ++ le 4 index2.
Definition file : list Z := cache_with 178.
Definition es : list centry := [mkEntry 0x303 (chars "x.so.10") 128 0; mkEntry 0x303 (chars "x.so.2") 148 named_hwcap; mkEntry 0x303 (chars "x.so.2") 163 0].
Definition ps : list dl_hwcaps_priority := [mkPrio (chars "v2") 2; mkPrio (chars "v3") 1].
Definition malloc (n : Z) : option (list Z) := Some (replicate (Z.to_nat n) 77).
Definition s0 : cst := mkCst NoCache None [] 0 0.

Lemma lookup_example : match _dl_load_cache_lookup malloc ps 3 (Some file) true (chars "x.so.2") s0 with Ret r _ => r = Some (chars "/lib/v3/x.so.2") | _ => False end.
Proof. by vm_compute. Qed.

(** The three entries, with the offsets of their names *)
Definition keys : list Z := [120; 141; 141].
Lemma cache_entry_ok i e key : es !! i = Some e -> keys !! i = Some key -> entry_at file 0 216 48 i e.
Proof.
  intros He Hk. assert (Hall : (i < 3)%nat) by (by apply lookup_lt_Some in He).
  assert (Ht : Forall text_char (ce_name e) /\ small (key_of (ce_name e))).
  { split; apply Forall_forall; unfold text_char; [|].
    - apply (Forall_forall (fun c => 0 < c < 256)). destruct i as [|[|[|i]]]; [injection He as <-..|done]; apply (bool_decide_unpack _); by vm_compute.
    - apply (Forall_forall (fun x => x < 256 + (2 ^ 31 - 48))). destruct i as [|[|[|i]]]; [injection He as <-..|done]; apply (bool_decide_unpack _); by vm_compute. }
  destruct Ht as [Ht Hs]. split; [exists key, (drop (S (Z.to_nat key + length (ce_name e))) file)|..]; try done;
    destruct i as [|[|[|i]]]; try (injection He as <-; injection Hk as <-); try done; by vm_compute.
Qed.
#[local] Instance table : CacheTable file 0 (u32 (Z.of_nat (length file))) SIZE_FILE_NEW es.
Proof.
  split.
  - intros i e He. change (u32 (Z.of_nat (length file))) with 216. change SIZE_FILE_NEW with 48. destruct (lookup_lt_is_Some_2 keys i) as [key Hk]; [by apply lookup_lt_Some in He|]. by apply (cache_entry_ok i e key).
  - by vm_compute.
  - repeat constructor; by vm_compute.
  - repeat constructor; by vm_compute.
Qed.
#[local] Instance section : HwcapsSection file 0 [175; 178] [chars "v2"; chars "v3"].
Proof.
  split.
  - exists (Some (208, 8)). by vm_compute.
  - constructor; [|constructor; [|constructor]]; (split; [by vm_compute|]); [exists (drop 178 file)|exists (drop 181 file)]; (split; [by vm_compute|apply (bool_decide_unpack _); by vm_compute]).
  - repeat constructor.
Qed.
Lemma format : new_format file es.
Proof.
  split; [by vm_compute..|]. intros e [-> |[-> |[-> |?%elem_of_nil]%elem_of_cons]%elem_of_cons]%elem_of_cons _; [..|done];
    [exists (chars "/lib/x.so.10"), (drop 141 file)|exists (chars "/lib/v3/x.so.2"), (drop 163 file)|exists (chars "/lib/x.so.2"), (drop 175 file)];
    (split; [by vm_compute|apply (bool_decide_unpack _); by vm_compute]).
Qed.
Lemma cache_ready : ready ps file [chars "v2"; chars "v3"] s0.
Proof. split; [split; [done|by left]|by left]. Qed.

(** The entry for the subdirectory is taken. *)
Lemma cache_lookup_best_witness :
  exists r s', _dl_load_cache_lookup malloc ps 3 (Some file) true (chars "x.so.2") s0 = Ret r s' /\ ready ps file [chars "v2"; chars "v3"] s' /\
    match r with
    | None => no_candidate 3 (u32 (Z.of_nat (length file))) (prio_of ps [chars "v2"; chars "v3"]) (filter (matches (chars "x.so.2")) es)
    | Some str => exists e junk, first_best 3 (u32 (Z.of_nat (length file))) (prio_of ps [chars "v2"; chars "v3"]) (filter (matches (chars "x.so.2")) es) e /\ from file (ce_value e) = Ok (str ++ 0 :: junk)
    end.
Proof.
  apply (cache_lookup_best malloc ps 3 file [175; 178] [chars "v2"; chars "v3"] es format).
  - repeat constructor; by vm_compute.
  - repeat constructor.
  - intros n Hn. exists (replicate (Z.to_nat n) 77). split; [done|]. rewrite length_replicate. lia.
  - apply (bool_decide_unpack (Forall (fun c => 0 < c < 256) _)). by vm_compute.
  - apply (bool_decide_unpack (Forall (fun x => x < 256 + (2 ^ 31 - 48)) _)). by vm_compute.
  - exact cache_ready.
Defined.

(** Leading zeros do not count: another name is found. *)
Lemma leading_zeros_found : match _dl_load_cache_lookup malloc ps 3 (Some file) true (chars "x.so.0002") s0 with Ret r _ => r = Some (chars "/lib/v3/x.so.2") | _ => False end.
Proof. by vm_compute. Qed.
(** Numbers in names overflow. *)
Lemma long_number_overflows : _dl_load_cache_lookup malloc ps 3 (Some file) true (chars "x.so.99999999999") s0 = Wild.
Proof. by vm_compute. Qed.
(** With an index behind the end of the file the merge does not advance, and writes behind the array. *)
Lemma bad_index_overflows : _dl_load_cache_lookup malloc ps 3 (Some (cache_with 1000000)) true (chars "x.so.2") s0 = Wild.
Proof. by vm_compute. Qed.
(** The number of entries of a table inside of a file in the old format is not checked. *)
Definition old_format : list Z := CACHEMAGIC ++ [0] ++ le 4 0 ++ header 1000 0 ++ replicate 8 0.
Lemma embedded_table_unchecked : _dl_load_cache_lookup malloc ps 3 (Some old_format) true (chars "x.so.2") s0 = Wild.
Proof. by vm_compute. Qed.
End Example24.
