(* ===== verification/PathsExamples.v ===== *)
(** * Search paths: a small file system

    Witnesses: a search through two paths, and a path that is taken apart. *)

From S2P Require Import Prelude LinkMap Dst DstSpec DstTrust DstSafety Paths PathsSpec PathsSearch PathsRpath Verify VerifySpec PathsVerified VerifyExamples.

Module Example21.
(** There is one file. *)
Definition file : list Z := chars "/opt/b/x.so".
Definition open_verify (p : list Z) : res opened := Ok (if bool_decide (p = file) then Opened 7 else NotOpened ENOENT false).
Definition stat_dir (d : list Z) : bool + Z := if bool_decide (d `prefix_of` file) then inl true else inr ENOENT.
Definition capstr : list (list Z) := [chars "hw/"; []].
Definition malloc (k : nat) (n : Z) : option (list Z) := if n <? 0 then None else Some (replicate (Z.to_nat n) 65).
#[local] Instance file_system : FileSystem malloc capstr 3 open_verify stat_dir.
Proof.
  split.
  - intros p. unfold open_verify. case_bool_decide; [done|by left].
  - intros d. unfold stat_dir. case_bool_decide as H; [done|]. split; [by left|]. intros n fd. unfold open_verify. case_bool_decide as E; [|done]. destruct H. exists n. done.
  - intros k n Hn. unfold malloc. rewrite (proj2 (Z.ltb_ge n 0)) by lia. by eexists.
  - intros cap [-> |[-> |?%elem_of_nil]%elem_of_cons]%elem_of_cons; [by vm_compute|by vm_compute|done].
Qed.
Lemma malloc_size k n mem : malloc k n = Some mem -> Z.of_nat (length mem) = n.
Proof. unfold malloc. destruct (Z.ltb_spec n 0); [done|]. intros [= <-]. rewrite length_replicate. lia. Qed.
Lemma malloc_ok k n : 0 <= n -> is_Some (malloc k n).
Proof. intros Hn. unfold malloc. rewrite (proj2 (Z.ltb_ge n 0)) by lia. by eexists. Qed.

(** Object 1 is the main program, object 2 was loaded by it and loads a file. *)
Definition object (ty : l_type_t) (nm : string) (loader : option mapid) (rp : spath) : pobj :=
  mkPobj (mkDst ty false (Origin (chars "/opt/app"))) (chars nm) [chars nm] None false false 0 loader None None rp PNone false.
Definition m1 : pobj := object lt_executable "" None (PDirs [1%nat]).
Definition m2 : pobj := object lt_loaded "/opt/p.so" (Some 1%nat) (PDirs [0%nat]).
Definition s0 : pstate :=
  mkPS {[ 1%nat := m1; 2%nat := m2 ]} [[1%nat; 2%nat]] [mkDir (chars "/opt/a/") [unknown; unknown]; mkDir (chars "/opt/b/") [unknown; unknown]] [1%nat; 0%nat] 7 PNone PNone 0 false 0.

Lemma s0_objs m o : ps_objs s0 !! m = Some o -> m = 1%nat /\ o = m1 \/ m = 2%nat /\ o = m2.
Proof.
  intros H. change (({[1%nat := m1; 2%nat := m2]} : gmap mapid pobj) !! m = Some o) in H. apply lookup_insert_Some in H as [[<- <-]|[_ H]]; [by left|]. apply lookup_singleton_Some in H as [<- <-]. by right.
Qed.
Lemma s0_elems d e : ps_elems s0 !! d = Some e -> d = 0%nat /\ e = mkDir (chars "/opt/a/") [unknown; unknown] \/ d = 1%nat /\ e = mkDir (chars "/opt/b/") [unknown; unknown].
Proof. destruct d as [|[|d]]; cbn; [intros [= <-]; by left|intros [= <-]; by right|done]. Qed.
Lemma paths_wf : wf capstr open_verify s0.
Proof.
  split; [| | |done|done].
  - intros d e [[-> ->]|[-> ->]]%s0_elems; by vm_compute.
  - intros d e k cap [[-> ->]|[-> ->]]%s0_elems _; by destruct k as [|[|k]].
  - intros m o [[-> ->]|[-> ->]]%s0_objs; (split; [|done]); (split; [done|]); intros d [-> |?%elem_of_nil]%elem_of_cons; done || by eexists.
Qed.
Lemma s0_dirs : dirs_ok s0.
Proof.
  split.
  - intros d [-> |[-> |?%elem_of_nil]%elem_of_cons]%elem_of_cons; done || by eexists.
  - intros d d' e e' _ _ [[-> ->]|[-> ->]]%s0_elems [[-> ->]|[-> ->]]%s0_elems; done.
Qed.

(** On the disk there is a file for another class in the subdirectory [hw/] of the directory of the main program, and a library in it. *)
Definition subfile : list Z := chars "/opt/b/hw/x.so".
Definition open64 (p : list Z) : Z + Z := if bool_decide (p = file) then inl 5 else if bool_decide (p = subfile) then inl 6 else inr ENOENT.
Definition stat_disk (d : list Z) : bool + Z := if bool_decide (d `prefix_of` file) || bool_decide (d `prefix_of` subfile) then inl true else inr ENOENT.
Definition opened_file : list Z -> res opened := verified 4 open64 Example22.read Example22.pread64.
#[local] Instance disk : Disk malloc 4 open64 Example22.read Example22.pread64 stat_disk.
Proof.
  split; [| |exact malloc_ok].
  - assert (H : forall fd, fd = 5 \/ fd = 6 -> Installed 4 (Example22.content fd)) by (intros fd [-> | ->]; split; by vm_compute).
    intros p. unfold open64. case_bool_decide; [|case_bool_decide; [|by left]]; (eexists; split; [apply Example22.reads|]; apply H; by (left + right)).
  - intros d. unfold stat_disk. case_bool_decide as H1; [done|]. case_bool_decide as H2; [done|]. split; [by left|]. intros n. exists ENOENT. unfold open64.
    rewrite bool_decide_eq_false_2, bool_decide_eq_false_2; [done| |]; intros E; [destruct H2|destruct H1]; by exists n.
Qed.
Lemma disk_wf : wf capstr opened_file s0.
Proof.
  split; [| |apply paths_wf|done|done].
  - apply paths_wf.
  - intros d e k cap [[-> ->]|[-> ->]]%s0_elems _; by destruct k as [|[|k]].
Qed.

Definition search_x : M pstate (option (Z * list Z)) :=
  search malloc [] false None [] 0 BadOrigin (fun _ => false) capstr 3 None opened_file stat_disk (fun _ => false) (fun _ => false) (fun _ => None) false (Some 2%nat) (chars "x.so") 2 0.

(** The path of object 2 has no existing directory and is given up; the file is found through the path of the main program, where the file in
    the subdirectory is passed over. *)
Lemma search_finds_first_witness :
  exists s', search_x s0 = Ret (first false opened_file (fun _ => false) (secure_mode 2) (search_files [] false capstr (fun _ => None) false (chars "x.so") 2 s0 (Some 2%nat) [2%nat; 1%nat] 0)) s' /\
    wf capstr opened_file s' /\ forgets capstr opened_file s0 s' /\ decided s' /\ search_x s0 = Ret (Some (5, file)) s' /\ po_rpath_dirs <$> ps_objs s' !! 2%nat = Some PNone.
Proof.
  assert (Hc : chain s0 (Some 2%nat) [2%nat; 1%nat]) by (apply (chain_step s0 2 m2); [done|]; apply (chain_step s0 1 m1); [done|]; constructor).
  destruct (search_finds_first malloc [] false None [] 0 BadOrigin (fun _ => false) capstr 3 None 4 open64 Example22.read Example22.pread64 stat_disk (fun _ => false) (fun _ => false) (fun _ => None) false (chars "x.so") 2 (Some 2%nat) [2%nat; 1%nat] 0 s0
    ltac:(intros cap [-> |[-> |?%elem_of_nil]%elem_of_cons]%elem_of_cons; [by vm_compute|by vm_compute|done])
    disk_wf ltac:(intros m o [[-> ->]|[-> ->]]%s0_objs; by split) Hc ltac:(apply (bool_decide_unpack _); by vm_compute) ltac:(intros m [= <-]; by eexists) ltac:(intros m [= <-]; by eexists)) as (s' & E & W & F & D).
  exists s'. split; [exact E|]. split; [done|]. split; [done|]. split; [done|].
  assert (Ev : match search_x s0 with Ret r s => r = Some (5, file) /\ po_rpath_dirs <$> ps_objs s !! 2%nat = Some PNone | _ => False end) by (by vm_compute).
  fold opened_file in E. fold search_x in E. rewrite E in Ev |- *. destruct Ev as [-> ?]. done.
Defined.

Definition rpath : list Z := chars "$ORIGIN/lib//:/opt/b::$NONE:$PLATFORM:/opt/b/".
Lemma rpath_directories_witness :
  exists b xs ds s', inhibit false None m2 = Ok b /\ (if b || bool_decide (rpath = []) then xs = [] else Forall2 (piece false None [] (known BadOrigin (po_dst m2))) (strsep [colon] rpath) xs) /\
    decompose_rpath malloc [] false None [] 0 BadOrigin (fun _ => false) capstr None (path_of true 2) rpath 2 s0 = Ret (negb (bool_decide (ds = []))) s' /\
    names s' ds = foldl add_piece [] xs /\ spath_of s' (path_of true 2) = Some (if bool_decide (ds = []) then PNone else PDirs ds) /\ wf capstr open_verify s' /\ dirs_ok s' /\ keeps BadOrigin true 2 s0 s'.
Proof.
  exact (rpath_directories malloc [] false None [] 0 BadOrigin (fun _ => false) capstr None open_verify eq_refl malloc_size malloc_ok true rpath 2 m2 s0 paths_wf s0_dirs eq_refl
    ltac:(apply (bool_decide_unpack _); by vm_compute) ltac:(done) ltac:(split; [apply (bool_decide_unpack _); by vm_compute|by split; [|constructor]]) ltac:(by vm_compute) eq_refl).
Defined.
(** The pieces one by one: expanded, known, the current directory, not a token, not replaced, known. *)
Lemma rpath_example :
  match decompose_rpath malloc [] false None [] 0 BadOrigin (fun _ => false) capstr None (path_of true 2) rpath 2 s0 with
  | Ret b s' => b = true /\ spath_of s' (path_of true 2) = Some (PDirs [2%nat; 1%nat; 3%nat; 4%nat]) /\ names s' [2%nat; 1%nat; 3%nat; 4%nat] = [chars "/opt/app/lib/"; chars "/opt/b/"; []; chars "$NONE/"]
  | _ => False end.
Proof. by vm_compute. Qed.
End Example21.
