(* ===== verification/Qsort.v ===== *)
(** * Sorting arrays: [stdlib/qsort.c]

    [qsort] is one of the functions PLaTypus annotates with [callback_maybe]:
    its comparison function comes from the caller.  The array is a list of
    elements; copying or swapping an element of [size] bytes is one step,
    whichever of the variants in [enum swap_type_t] does it.  The comparison
    function is a parameter. *)

From S2P Require Import Prelude.

(** ** Merge sort *)
Section Msort.
Context {A : Type} (cmp : A -> A -> Z).

(** [while (n1 > 0 && n2 > 0)]: what is in [tmp] and what is left of both runs.  The loop is written four times in the source, for 32-bit and
    64-bit elements, for elements of a multiple of eight bytes or pointers, and for other sizes; they differ in how one element is copied. *)
Fixpoint merge_loop (fuel : nat) (b1 b2 tmp : list A) : res (list A * list A * list A) :=
  match fuel with
  | O => Diverge
  | S fuel =>
      match b1, b2 with
      | x :: b1', y :: b2' =>
          if cmp x y <=? 0 then merge_loop fuel b1' b2 (tmp ++ [x]) else merge_loop fuel b1 b2' (tmp ++ [y])
      | _, _ => Ok (tmp, b1, b2)
      end
  end.

(** The rest of the first run is copied to [tmp], then [n - n2] elements of
    [tmp] are copied back; the rest of the second run is in place. *)
Fixpoint msort_with_tmp (fuel : nat) (b : list A) : res (list A) :=
  match fuel with
  | O => Diverge
  | S fuel =>
      if (length b <=? 1)%nat then Ok b
      else
        let n1 := (length b / 2)%nat in
        b1 ← msort_with_tmp fuel (take n1 b);
        b2 ← msort_with_tmp fuel (drop n1 b);
        '(tmp, r1, r2) ← merge_loop (S (length b)) b1 b2 [];
        mret ((tmp ++ r1) ++ r2)
  end.

End Msort.

(** ** Heap sort *)
Section Heap.
Context {A : Type} (cmp : A -> A -> Z).

(** [do_swap]: by words or by bytes, depending on the size of an element; both exchange the elements. *)
Definition do_swap (a : list A) (i j : Z) : res (list A) :=
  x ← rd a i; y ← rd a j; a ← wr a i y; wr a j x.

Definition cmp_at (a : list A) (i j : Z) : res Z := x ← rd a i; y ← rd a j; mret (cmp x y).

Fixpoint siftdown (fuel : nat) (a : list A) (k n : Z) : res (list A) :=
  match fuel with
  | O => Diverge
  | S fuel =>
      if n <? 2 * k + 1 then Ok a
      else
        let j := 2 * k + 1 in
        right ← (if j <? n then c ← cmp_at a j (j + 1); mret (c <? 0) else mret false);
        let j := if (right : bool) then j + 1 else j in
        stop ← (if j =? k then mret true else c ← cmp_at a k j; mret (0 <=? c));
        if (stop : bool) then Ok a
        else a ← do_swap a j k; siftdown fuel a j n
  end.

(** [while (1) { siftdown (k); if (k-- == 0) break; }] *)
Fixpoint heapify_loop (k : nat) (a : list A) (n : Z) : res (list A) :=
  a ← siftdown (length a) a (Z.of_nat k) n;
  match k with O => Ok a | S k' => heapify_loop k' a n end.

Definition heapify (a : list A) (n : Z) : res (list A) := heapify_loop (Z.to_nat (n / 2)) a n.

(** [while (true) { swap (0, n); n--; if (n == 0) break; siftdown (0, n); }], [n] at least 1. *)
Fixpoint extract_loop (n : nat) (a : list A) : res (list A) :=
  match n with
  | O => Undef
  | S n' =>
      a ← do_swap a 0 (Z.of_nat n);
      match n' with
      | O => Ok a
      | _ => a ← siftdown (length a) a 0 (Z.of_nat n'); extract_loop n' a
      end
  end.

(** [n] is the index of the last element. *)
Definition heapsort_r (a : list A) (n : Z) : res (list A) :=
  if n =? 0 then Ok a
  else a ← heapify a n; extract_loop (Z.to_nat n) a.

End Heap.

(** ** Indirect sorting

    [tp] holds pointers to the elements, as indices; the loop moves the
    elements along the cycles of the permutation. *)
Section Indirect.
Context {A : Type} (cmp : A -> A -> Z).

(** Comparison through pointers into [b]. *)
Definition cmp_ptr (b : list A) (p q : Z) : Z :=
  match rd b p, rd b q with Ok x, Ok y => cmp x y | _, _ => 0 end.

(** [do { ... } while (kp != ip)], then the two stores; [kp] is the element to fetch. *)
Fixpoint follow (fuel : nat) (tmp : A) (ip : Z) (b : list A) (tp : list Z) (j kp : Z)
  : res (list A * list Z) :=
  match fuel with
  | O => Diverge
  | S fuel =>
      let jp := j in
      let k := kp in
      tp ← wr tp j jp;
      x ← rd b kp;
      b ← wr b jp x;
      kp' ← rd tp k;
      if kp' =? ip then
        tp ← wr tp k kp;
        b ← wr b kp tmp;
        mret (b, tp)
      else follow fuel tmp ip b tp k kp'
  end.

Fixpoint permute_loop (n : nat) (i : Z) (b : list A) (tp : list Z) : res (list A) :=
  match n with
  | O => Ok b
  | S n' =>
      kp ← rd tp i;
      if kp =? i then permute_loop n' (i + 1) b tp
      else
        tmp ← rd b i;
        '(b, tp) ← follow (length tp) tmp i b tp i kp;
        permute_loop n' (i + 1) b tp
  end.

Definition indirect_msort_with_tmp (b : list A) : res (list A) :=
  let tp := Z.of_nat <$> seq 0 (length b) in
  tp ← msort_with_tmp (cmp_ptr b) (S (length b)) tp;
  permute_loop (length b) 0 b tp.

End Indirect.

(** ** [__qsort_r] and [qsort] *)
Definition QSORT_STACK_SIZE : Z := 1024.
Definition INDIRECT_SORT_SIZE_THRES : Z := 32.

Definition __qsort_r {A} (malloc_ok : Z -> bool) (b : list A) (size : Z) (cmp : A -> A -> Z) : res (list A) :=
  let total_elems := Z.of_nat (length b) in
  if total_elems <=? 1 then Ok b
  else
    let total_size := if INDIRECT_SORT_SIZE_THRES <? size then u64 (2 * total_elems * 8 + size)
                      else u64 (total_elems * size) in
    if (total_size <=? QSORT_STACK_SIZE) || malloc_ok total_size then
      if INDIRECT_SORT_SIZE_THRES <? size then indirect_msort_with_tmp cmp b
      else msort_with_tmp cmp (S (length b)) b
    else heapsort_r cmp b (total_elems - 1).

Definition qsort {A} (malloc_ok : Z -> bool) (b : list A) (size : Z) (cmp : A -> A -> Z) : res (list A) :=
  __qsort_r malloc_ok b size cmp.

Example qsort_msort : qsort (fun _ => true) [5; 3; 9; 1; 3] 4 Z.sub = Ok [1; 3; 3; 5; 9].
Proof. vm_compute. reflexivity. Qed.
Example qsort_heap : qsort (fun _ => false) [5; 3; 9; 1; 3; 7; 2] 500 Z.sub = Ok [1; 2; 3; 3; 5; 7; 9].
Proof. vm_compute. reflexivity. Qed.
Example qsort_indirect : qsort (fun _ => true) [5; 3; 9; 1; 3; 7; 2] 500 Z.sub = Ok [1; 2; 3; 3; 5; 7; 9].
Proof. vm_compute. reflexivity. Qed.
