(* ===== verification/QsortSpec.v ===== *)
(** * [qsort] sorts

    Whatever path [__qsort_r] takes (merge sort, merge sort on pointers, heap
    sort when there is no memory), the result is a sorted permutation of the
    array; the merge sorts keep equal elements in order. *)

From S2P Require Import Prelude Qsort.

(** The contract of a comparison function: it is consistent under exchange of its
    arguments and orders the elements. *)
Class Comparator {A} (cmp : A -> A -> Z) : Prop := {
  cmp_anti : forall x y, cmp x y < 0 <-> 0 < cmp y x;
  cmp_trans : forall x y z, cmp x y <= 0 -> cmp y z <= 0 -> cmp x z <= 0 }.

Definition leq {A} (cmp : A -> A -> Z) (x y : A) : Prop := cmp x y <= 0.
#[export] Instance leq_dec {A} (cmp : A -> A -> Z) : RelDecision (leq cmp).
Proof. intros x y. apply Z_le_dec. Defined.
#[export] Instance leq_total {A} (cmp : A -> A -> Z) `{!Comparator cmp} : Total (leq cmp).
Proof.
  intros x y. unfold leq. destruct (Z.le_gt_cases (cmp x y) 0); [by left|right].
  pose proof (cmp_anti (cmp := cmp) y x). lia.
Qed.
#[export] Instance leq_trans {A} (cmp : A -> A -> Z) `{!Comparator cmp} : Transitive (leq cmp).
Proof. intros x y z. apply cmp_trans. Qed.
#[export] Instance leq_refl {A} (cmp : A -> A -> Z) `{!Comparator cmp} : Reflexive (leq cmp).
Proof. intros x. by destruct (leq_total cmp x x). Qed.

Lemma filter_map {A B} (f : A -> B) (P : B -> Prop) `{!forall y, Decision (P y)} (l : list A) :
  filter P (f <$> l) = f <$> filter (fun x => P (f x)) l.
Proof.
  induction l as [|x l IH]; [done|]. rewrite fmap_cons, !filter_cons, IH.
  by destruct (decide (P (f x))).
Qed.

(** ** Merge sort *)
Section Merge.
Context {A : Type} (cmp : A -> A -> Z).

(** The loop computes the merge of the two runs. *)
Lemma merge_loop_spec fuel : forall b1 b2 tmp, (length b1 + length b2 < fuel)%nat ->
  exists t r1 r2, merge_loop cmp fuel b1 b2 tmp = Ok (tmp ++ t, r1, r2) /\
    t ++ r1 ++ r2 = list_merge (leq cmp) b1 b2.
Proof.
  induction fuel as [|fuel IH]; intros b1 b2 tmp Hf; [lia|]. cbn [merge_loop].
  destruct b1 as [|x b1]; [|destruct b2 as [|y b2]].
  - exists [], [], b2. rewrite app_nil_r. split; [done|]. by destruct b2.
  - exists [], (x :: b1), []. by rewrite !app_nil_r.
  - cbn [length] in Hf. rewrite list_merge_cons.
    destruct (Z.leb_spec (cmp x y) 0) as [Hle|Hgt].
    + rewrite decide_True by (unfold leq; lia). destruct (IH b1 (y :: b2) (tmp ++ [x])) as (t & r1 & r2 & Hr & Hm); [cbn; lia|].
      exists (x :: t), r1, r2. rewrite Hr, <- app_assoc. split; [done|]. cbn. by rewrite Hm.
    + rewrite decide_False by (unfold leq; lia). destruct (IH (x :: b1) b2 (tmp ++ [y])) as (t & r1 & r2 & Hr & Hm); [cbn; lia|].
      exists (y :: t), r1, r2. rewrite Hr, <- app_assoc. split; [done|]. cbn. by rewrite Hm.
Qed.

(** The elements of a class, one where all compare equal, keep their order. *)
Definition class (P : A -> Prop) : Prop := forall y z, P y -> P z -> leq cmp y z.

Lemma merge_stable `{!Comparator cmp} P `{!forall y, Decision (P y)} b1 b2 : class P ->
  StronglySorted (leq cmp) b1 -> filter P (list_merge (leq cmp) b1 b2) = filter P b1 ++ filter P b2.
Proof.
  intros HP Hs. revert b2. induction Hs as [|x1 b1 Hs IH1 Hall]; intros b2; [by destruct b2|].
  induction b2 as [|y b2 IH2]; [by rewrite app_nil_r|]. rewrite list_merge_cons.
  destruct (decide (leq cmp x1 y)) as [Hle|Hgt].
  - rewrite !(filter_cons _ x1). rewrite IH1. by destruct (decide (P x1)).
  - rewrite (filter_cons _ y), IH2, (filter_cons _ y).
    destruct (decide (P y)) as [Hy|]; [|done].
    assert (Hno : forall z, leq cmp x1 z -> ~ P z).
    { intros z Hz Hxz. apply Hgt. transitivity z; [done|]. by apply HP. }
    rewrite filter_cons_False by (apply Hno, leq_refl, _). rewrite filter_none; [done|].
    apply Forall_forall. by eapply Forall_impl.
Qed.

Lemma msort_spec `{!Comparator cmp} fuel : forall b, (length b < fuel)%nat ->
  exists l, msort_with_tmp cmp fuel b = Ok l /\ l ≡ₚ b /\ StronglySorted (leq cmp) l /\
    forall (P : A -> Prop) (H : forall y, Decision (P y)), class P -> filter P l = filter P b.
Proof.
  induction fuel as [|fuel IH]; intros b Hf; [lia|]. cbn [msort_with_tmp].
  destruct (Nat.leb_spec (length b) 1) as [Hle|Hgt].
  { exists b. split_and!; try done. destruct b as [|x [|y b]]; cbn in Hle; [constructor| |lia].
    constructor; constructor. }
  set (n1 := (length b / 2)%nat).
  assert (Hn1 : (0 < n1 < length b)%nat).
  { pose proof (Nat.div_mod_eq (length b) 2). pose proof (Nat.mod_upper_bound (length b) 2). unfold n1. lia. }
  destruct (IH (take n1 b)) as (l1 & H1 & P1 & S1 & E1); [rewrite length_take; lia|].
  destruct (IH (drop n1 b)) as (l2 & H2 & P2 & S2 & E2); [rewrite length_drop; lia|].
  rewrite H1, H2. cbn [mbind res_bind].
  assert (Hlen : (length l1 + length l2 = length b)%nat).
  { rewrite P1, P2, length_take, length_drop. lia. }
  destruct (merge_loop_spec (S (length b)) l1 l2 []) as (t & r1 & r2 & Hm & Heq); [lia|].
  rewrite Hm. cbn [mbind res_bind app]. exists ((t ++ r1) ++ r2). rewrite <- app_assoc, Heq.
  split; [done|]. split; [|split].
  - rewrite merge_Permutation, P1, P2. by rewrite take_drop.
  - apply Sorted_StronglySorted; [exact (leq_trans cmp)|]. apply Sorted_list_merge; [apply _|by apply StronglySorted_Sorted..].
  - intros P ? HP. rewrite merge_stable by done. rewrite E1, E2, <- filter_app by done. by rewrite take_drop.
Qed.

End Merge.

(** ** Heap sort *)
Section Heap.
Context {A : Type} (cmp : A -> A -> Z) (d : A).

(** The array as a function of the index. *)
Definition elem (a : list A) (i : Z) : A := nth (Z.to_nat i) a d.

Lemma rd_elem a i : 0 <= i < Z.of_nat (length a) -> rd a i = Ok (elem a i).
Proof.
  intros Hi. apply rd_Ok. split; [lia|]. unfold elem.
  destruct (lookup_lt_is_Some_2 a (Z.to_nat i)) as [x Hx]; [lia|].
  by rewrite (nth_lookup_Some _ _ _ _ Hx).
Qed.

Lemma nth_lookup_Some' a i : (i < length a)%nat -> a !! i = Some (nth i a d).
Proof. intros Hi. destruct (nth_lookup_or_length a i d); [done|lia]. Qed.

Lemma elem_insert a (i j : nat) x : (i < length a)%nat ->
  nth j (<[i := x]> a) d = if decide (j = i) then x else nth j a d.
Proof.
  intros Hi. rewrite !nth_lookup. destruct (decide (j = i)) as [->|Hne].
  - by rewrite list_lookup_insert_eq.
  - by rewrite list_lookup_insert_ne.
Qed.

Record swapped (a : list A) (i j : Z) (a' : list A) : Prop := {
  sw_perm : a' ≡ₚ a;
  sw_elem : forall x, 0 <= x ->
    elem a' x = if decide (x = i) then elem a j else if decide (x = j) then elem a i else elem a x }.

Lemma do_swap_spec a i j : 0 <= i < Z.of_nat (length a) -> 0 <= j < Z.of_nat (length a) ->
  exists a', do_swap a i j = Ok a' /\ swapped a i j a'.
Proof.
  intros Hi Hj. unfold do_swap. rewrite !rd_elem by done. cbn [mbind res_bind].
  rewrite wr_Ok by done. cbn [mbind res_bind]. rewrite wr_Ok by (rewrite length_insert; done).
  eexists. split; [done|]. split.
  - apply Permutation_inj. split; [by rewrite !length_insert|].
    exists (fun x => if decide (x = Z.to_nat i) then Z.to_nat j else if decide (x = Z.to_nat j) then Z.to_nat i else x).
    split; [intros x y; repeat destruct (decide _); lia|]. intros x.
    rewrite !list_lookup_insert, !length_insert. unfold elem.
    repeat destruct (decide _); try lia; try done; rewrite (nth_lookup_Some' a) by lia; repeat f_equal; lia.
  - intros x Hx. unfold elem. rewrite !elem_insert by (rewrite ?length_insert; lia).
    repeat destruct (decide _); try lia; try done; subst; f_equal; lia.
Qed.

Definition child (i j : Z) : Prop := j = 2 * i + 1 \/ j = 2 * i + 2.

(** Every parent from [k0] on, except [k], is at least its children up to [n]. *)
Definition heap_but (a : list A) (k0 k n : Z) : Prop :=
  forall i j, k0 <= i -> i <> k -> child i j -> j <= n -> leq cmp (elem a j) (elem a i).
Definition heap (a : list A) (k0 n : Z) : Prop :=
  forall i j, k0 <= i -> child i j -> j <= n -> leq cmp (elem a j) (elem a i).

(** [a'] differs from [a] by a permutation of the places [k..n]. *)
Record within (a : list A) (k n : Z) (a' : list A) : Prop := {
  wi_perm : a' ≡ₚ a;
  wi_out : forall x, 0 <= x -> x < k \/ n < x -> elem a' x = elem a x;
  wi_in : forall x, k <= x <= n -> exists y, k <= y <= n /\ elem a' x = elem a y }.

Lemma within_refl a k n : within a k n a.
Proof. split; [done|done|eauto]. Qed.

Lemma within_trans a b c k j n : 0 <= k <= j -> within a k n b -> within b j n c -> within a k n c.
Proof.
  intros Hkj [P1 O1 I1] [P2 O2 I2]. split.
  - by rewrite P2.
  - intros x Hx Hout. rewrite O2 by lia. by apply O1.
  - intros x Hx. destruct (Z.lt_ge_cases x j).
    + destruct (I1 x Hx) as (y & Hy & E). exists y. rewrite O2 by lia. done.
    + destruct (I2 x) as (y & Hy & ->); [lia|]. apply I1. lia.
Qed.

Lemma swapped_within a i j a' k n : 0 <= k <= i -> k <= j -> i <= n -> j <= n -> swapped a i j a' -> within a k n a'.
Proof.
  intros Hi Hj Hin Hjn [P E]. split; [done| |].
  - intros x Hx Hout. rewrite E by done. by repeat (destruct (decide _); [lia|]).
  - intros x Hx. rewrite E by lia. repeat destruct (decide _);
      match goal with |- exists y, _ /\ elem a ?z = _ => exists z end; (split; [lia|done]).
Qed.

Lemma within_length a k n a' : within a k n a' -> length a' = length a.
Proof. intros [P _ _]. by rewrite P. Qed.

Context `{!Comparator cmp}.

(** Which child [siftdown] compares with its parent: one that is at least the other. *)
Lemma larger_child a k n : 0 <= k -> 2 * k + 1 <= n < Z.of_nat (length a) ->
  exists r : bool, (if 2 * k + 1 <? n then c ← cmp_at cmp a (2 * k + 1) (2 * k + 1 + 1); mret (c <? 0) else mret false) = Ok r /\
    let j := if r then 2 * k + 1 + 1 else 2 * k + 1 in
    child k j /\ j <= n /\ forall j', child k j' -> j' <= n -> leq cmp (elem a j') (elem a j).
Proof.
  intros Hk Hn. destruct (Z.ltb_spec (2 * k + 1) n) as [Hlt|Hge].
  - unfold cmp_at. rewrite !rd_elem by lia. cbn [mbind res_bind mret res_ret]. eexists. split; [done|].
    cbn zeta. unfold child, leq. pose proof (cmp_anti (cmp := cmp) (elem a (2 * k + 1)) (elem a (2 * k + 1 + 1))).
    pose proof (leq_refl cmp (elem a (2 * k + 1))) as R1. pose proof (leq_refl cmp (elem a (2 * k + 1 + 1))) as R2.
    unfold leq in R1, R2. replace (2 * k + 2) with (2 * k + 1 + 1) by lia.
    pose proof (cmp_anti (cmp := cmp) (elem a (2 * k + 1 + 1)) (elem a (2 * k + 1))).
    destruct (Z.ltb_spec (cmp (elem a (2 * k + 1)) (elem a (2 * k + 1 + 1))) 0) as [Hc|Hc];
      (split; [lia|split; [lia|intros j' [-> | ->] _; lia]]).
  - exists false. split; [done|]. cbn zeta. split; [by left|]. split; [lia|]. intros j' [-> | ->] Hj'; [apply leq_refl, _|lia].
Qed.

Lemma siftdown_spec k0 n fuel : forall a k, 0 <= k0 <= k -> k <= n < Z.of_nat (length a) ->
  n - k < Z.of_nat fuel -> heap_but a k0 k n ->
  (forall p j, k0 <= p -> child p k -> child k j -> j <= n -> leq cmp (elem a j) (elem a p)) ->
  exists a', siftdown cmp fuel a k n = Ok a' /\ heap a' k0 n /\ within a k n a'.
Proof.
  induction fuel as [|fuel IH]; intros a k Hk Hn Hf Hbut Hgrand; [lia|]. cbn [siftdown].
  destruct (Z.ltb_spec n (2 * k + 1)) as [Hleaf|Hin].
  { exists a. split; [done|]. split; [|apply within_refl]. intros i j Hi Hc Hj.
    apply Hbut; try done. intros ->. unfold child in Hc. lia. }
  destruct (larger_child a k n) as (r & -> & Hc & Hjn & Hlarge); [lia|lia|]. cbn [mbind res_bind].
  set (j := if r then 2 * k + 1 + 1 else 2 * k + 1) in *. cbn zeta in *. fold j.
  assert (Hkj : k < j) by (unfold child in Hc; lia).
  rewrite (proj2 (Z.eqb_neq j k)) by lia. unfold cmp_at at 1. rewrite !rd_elem by lia. cbn [mbind res_bind mret res_ret].
  pose proof (cmp_anti (cmp := cmp) (elem a k) (elem a j)) as Hanti.
  destruct (Z.leb_spec 0 (cmp (elem a k) (elem a j))) as [Hge|Hlt].
  - exists a. split; [done|]. split; [|apply within_refl]. intros i j' Hi Hc' Hj'.
    destruct (decide (i = k)) as [->|Hne]; [|by apply Hbut].
    transitivity (elem a j); [by apply Hlarge|]. unfold leq.
    pose proof (cmp_anti (cmp := cmp) (elem a j) (elem a k)). lia.
  - destruct (do_swap_spec a j k) as (b & -> & Hsw); [lia|lia|]. cbn [mbind res_bind].
    assert (Hw : within a k n b) by (eapply swapped_within; [| | | |exact Hsw]; lia).
    pose proof (sw_elem _ _ _ _ Hsw) as E. pose proof (within_length _ _ _ _ Hw) as Hlen.
    destruct (IH b j) as (a' & Hr & Hh & Hw'); [lia|lia|lia| | |].
    + intros i c Hi Hne Hic Hcn. rewrite !E by (unfold child in *; lia). rewrite (decide_False (P := i = j)) by done.
      destruct (decide (i = k)) as [->|Hik].
      * destruct (decide (c = j)); [unfold leq; lia|]. rewrite decide_False by (unfold child in Hic; lia). by apply Hlarge.
      * rewrite decide_False by (unfold child in *; lia). destruct (decide (c = k)) as [->|]; [by apply Hgrand|by apply Hbut].
    + intros p c Hp Hpj Hjc Hcn. assert (p = k) as -> by (unfold child in *; lia). rewrite !E by (unfold child in *; lia).
      rewrite !(decide_False (P := c = _)), (decide_False (P := k = j)), (decide_True (P := k = k)) by (unfold child in *; lia).
      apply Hbut; [lia|lia|done|done].
    + exists a'. split; [done|]. split; [done|]. eapply within_trans; [|exact Hw|exact Hw']. lia.
Qed.

(** The root of a heap is at least every element. *)
Lemma heap_root a n : heap a 0 n -> forall i, 0 <= i <= n -> leq cmp (elem a i) (elem a 0).
Proof.
  intros Hh i. induction i as [i IH] using (well_founded_induction (Z.lt_wf 0)). intros Hi.
  destruct (decide (i = 0)) as [->|Hne]; [apply leq_refl, _|].
  assert (Hp : 0 <= (i - 1) / 2 < i) by divlia.
  transitivity (elem a ((i - 1) / 2)); [|apply IH; lia].
  apply Hh; [lia| |lia]. unfold child. divlia.
Qed.

Lemma heapify_loop_spec n (k : nat) : forall a, Z.of_nat k <= n < Z.of_nat (length a) -> heap a (Z.of_nat k + 1) n ->
  exists a', heapify_loop cmp k a n = Ok a' /\ heap a' 0 n /\ a' ≡ₚ a.
Proof.
  induction k as [|k IH]; intros a Hk Hh; cbn [heapify_loop].
  - change (Z.of_nat 0) with 0 in *.
    destruct (siftdown_spec 0 n (length a) a 0) as (b & -> & Hb & Hw); [lia|lia|lia| | |].
    + intros i j Hi Hne. apply Hh. lia.
    + intros p j Hp Hc. unfold child in Hc. lia.
    + exists b. split; [done|]. split; [done|]. apply Hw.
  - destruct (siftdown_spec (Z.of_nat (S k)) n (length a) a (Z.of_nat (S k))) as (b & -> & Hb & Hw); [lia|lia|lia| | |].
    + intros i j Hi Hne. apply Hh. lia.
    + intros p j Hp Hc. unfold child in Hc. lia.
    + destruct (IH b) as (a' & Hr & Ha' & Hp).
      { rewrite (within_length _ _ _ _ Hw). lia. }
      { replace (Z.of_nat k + 1) with (Z.of_nat (S k)) by lia. done. }
      exists a'. cbn [mbind res_bind]. split; [done|]. split; [done|]. rewrite Hp. apply Hw.
Qed.

(** The places after [n] are sorted and hold nothing smaller than the heap. *)
Definition sorted_tail (a : list A) (n : Z) : Prop :=
  forall i j, 0 <= i < j -> n < j < Z.of_nat (length a) -> leq cmp (elem a i) (elem a j).

Lemma extract_loop_spec (n : nat) : forall a, (0 < n < length a)%nat -> heap a 0 (Z.of_nat n) -> sorted_tail a (Z.of_nat n) ->
  exists a', extract_loop cmp n a = Ok a' /\ a' ≡ₚ a /\ sorted_tail a' 0.
Proof.
  induction n as [|n IH]; intros a Hn Hh Ht; [lia|]. cbn [extract_loop].
  destruct (do_swap_spec a 0 (Z.of_nat (S n))) as (b & -> & Hsw); [lia|lia|]. cbn [mbind res_bind].
  pose proof (sw_elem _ _ _ _ Hsw) as E. pose proof (sw_perm _ _ _ _ Hsw) as Hp.
  assert (Hlen : length b = length a) by (by rewrite Hp).
  assert (Htb : sorted_tail b (Z.of_nat n)).
  { intros i j Hi Hj. rewrite !E by lia. pose proof (heap_root a _ Hh) as Hroot.
    destruct (decide (j = Z.of_nat (S n))) as [->|].
    - rewrite (decide_False (P := Z.of_nat (S n) = 0)) by lia.
      repeat destruct (decide _); try lia; apply Hroot; lia.
    - rewrite (decide_False (P := j = 0)) by lia. repeat destruct (decide _); apply Ht; lia. }
  destruct n as [|n'].
  { exists b. done. }
  destruct (siftdown_spec 0 (Z.of_nat (S n')) (length b) b 0) as (c & -> & Hc & Hw); [lia|lia|lia| | |].
  { intros i j Hi Hne Hch Hj. unfold child in Hch. rewrite !E by lia.
    repeat destruct (decide _); try lia. apply Hh; unfold child; lia. }
  { intros p j Hp0 Hch. unfold child in Hch. lia. }
  pose proof (within_length _ _ _ _ Hw) as Hlc. cbn [mbind res_bind].
  destruct (IH c) as (a' & Hr & Hpa & Hs); [lia|done| |].
  { intros i j Hi Hj. rewrite (wi_out _ _ _ _ Hw j) by lia.
    destruct (Z.le_gt_cases i (Z.of_nat (S n'))).
    - destruct (wi_in _ _ _ _ Hw i) as (y & Hy & ->); [lia|]. apply Htb; lia.
    - rewrite (wi_out _ _ _ _ Hw i) by lia. apply Htb; lia. }
  exists a'. split; [done|]. split; [|done]. rewrite Hpa, <- Hp. apply Hw.
Qed.

Lemma sorted_tail_StronglySorted a : sorted_tail a 0 -> StronglySorted (leq cmp) a.
Proof.
  induction a as [|x a IH]; intros Ht; [constructor|]. constructor.
  - apply IH. intros i j Hi Hj. specialize (Ht (i + 1) (j + 1)). unfold elem in Ht.
    rewrite !Z2Nat.inj_add in Ht by lia. rewrite !Nat.add_1_r in Ht. apply Ht; [lia|]. cbn [length]. lia.
  - apply Forall_lookup. intros i y Hy. pose proof (lookup_lt_Some _ _ _ Hy).
    specialize (Ht 0 (Z.of_nat i + 1)). unfold elem in Ht. rewrite Z2Nat.inj_add, Nat2Z.id in Ht by lia.
    rewrite Nat.add_1_r in Ht. cbn [nth length Z.to_nat] in Ht. rewrite (nth_lookup_Some _ _ _ _ Hy) in Ht. apply Ht; lia.
Qed.

Lemma heapsort_spec a : (1 < length a)%nat ->
  exists a', heapsort_r cmp a (Z.of_nat (length a) - 1) = Ok a' /\ a' ≡ₚ a /\ StronglySorted (leq cmp) a'.
Proof.
  intros Hlen. unfold heapsort_r. rewrite (proj2 (Z.eqb_neq _ 0)) by lia. unfold heapify.
  set (n := Z.of_nat (length a) - 1) in *. assert (Hn2 : 0 <= n / 2 <= n) by divlia.
  destruct (heapify_loop_spec n (Z.to_nat (n / 2)) a) as (b & -> & Hb & Hp).
  { lia. }
  { intros i j Hi Hc Hj. unfold child in Hc. assert (2 * (n / 2) + 1 >= n) by divlia. lia. }
  cbn [mbind res_bind]. assert (Hlb : length b = length a) by (by rewrite Hp).
  destruct (extract_loop_spec (Z.to_nat n) b) as (c & -> & Hpc & Hs); [lia| | |].
  - by rewrite Z2Nat.id by lia.
  - intros i j Hi Hj. lia.
  - exists c. split; [done|]. split; [by rewrite Hpc|]. by apply sorted_tail_StronglySorted.
Qed.

End Heap.

(** ** Indirect sorting *)
Section Extensional.
Context {A : Type} (cmp cmp' : A -> A -> Z) `{!Comparator cmp'}.

Lemma merge_loop_ext fuel : forall b1 b2 tmp,
  (forall x y, x ∈ b1 -> y ∈ b2 -> cmp x y = cmp' x y) ->
  merge_loop cmp fuel b1 b2 tmp = merge_loop cmp' fuel b1 b2 tmp.
Proof.
  induction fuel as [|fuel IH]; intros b1 b2 tmp H; [done|]. cbn [merge_loop].
  destruct b1 as [|x b1]; [done|]. destruct b2 as [|y b2]; [done|].
  rewrite H by (apply list_elem_of_here). destruct (cmp' x y <=? 0); apply IH; intros; apply H; set_solver.
Qed.

(** The sort only looks at elements of the array. *)
Lemma msort_ext fuel : forall b, (length b < fuel)%nat ->
  (forall x y, x ∈ b -> y ∈ b -> cmp x y = cmp' x y) ->
  msort_with_tmp cmp fuel b = msort_with_tmp cmp' fuel b.
Proof.
  induction fuel as [|fuel IH]; intros b Hf H; [lia|]. cbn [msort_with_tmp].
  destruct (Nat.leb_spec (length b) 1) as [Hle|Hgt]; [done|].
  assert (Hn1 : (0 < length b / 2 < length b)%nat) by (split; [apply Nat.div_str_pos; lia|apply Nat.div_lt; lia]).
  assert (Ht : forall x, x ∈ take (length b / 2) b -> x ∈ b).
  { intros x Hx. rewrite <- (take_drop (length b / 2) b). set_solver. }
  assert (Hd : forall x, x ∈ drop (length b / 2) b -> x ∈ b).
  { intros x Hx. rewrite <- (take_drop (length b / 2) b). set_solver. }
  rewrite (IH (take _ _)); [|rewrite length_take; lia|auto].
  rewrite (IH (drop _ _)); [|rewrite length_drop; lia|auto].
  destruct (msort_spec cmp' fuel (take (length b / 2) b)) as (l1 & -> & P1 & _); [rewrite length_take; lia|].
  destruct (msort_spec cmp' fuel (drop (length b / 2) b)) as (l2 & -> & P2 & _); [rewrite length_drop; lia|].
  cbn [mbind res_bind]. rewrite merge_loop_ext; [done|]. intros x y Hx Hy. rewrite P1 in Hx. rewrite P2 in Hy. auto.
Qed.

End Extensional.

Section Cycles.
Context {A : Type} (d : A) (b0 : list A) (tp0 : list Z).
Let n : Z := Z.of_nat (length b0).
Let sigma : Z -> Z := elem 0 tp0.
Hypothesis sigma_range : forall x, 0 <= x < n -> 0 <= sigma x < n.
Hypothesis sigma_inj : forall x y, 0 <= x < n -> 0 <= y < n -> sigma x = sigma y -> x = y.

(** [D]: the places that have their final element; the others are untouched. *)
Record moved (D : list Z) (b : list A) (tp : list Z) : Prop := {
  mv_len : length b = length b0 /\ length tp = length b0;
  mv_done : forall x, 0 <= x < n -> x ∈ D -> elem 0 tp x = x /\ elem d b x = elem d b0 (sigma x);
  mv_rest : forall x, 0 <= x < n -> x ∉ D -> elem 0 tp x = sigma x /\ elem d b x = elem d b0 x }.
Definition closed (D : list Z) : Prop := forall x, 0 <= x < n -> (x ∈ D) <-> (sigma x ∈ D).

(** The cycle of [ip] up to [j], whose element is the next to be replaced. *)
Record trail (D : list Z) (ip : Z) (V : list Z) (j : Z) : Prop := {
  tr_nodup : NoDup V;
  tr_range : forall x, x ∈ V -> 0 <= x < n /\ x ∉ D;
  tr_ends : ip ∈ V /\ j ∈ V;
  tr_next : forall x, x ∈ V -> x <> j -> sigma x ∈ V;
  tr_prev : forall x, x ∈ V -> x <> ip -> exists y, y ∈ V /\ y <> j /\ sigma y = x }.

Lemma trail_fresh D ip V j : closed D -> trail D ip V j -> sigma j <> ip ->
  0 <= sigma j < n /\ ~ (sigma j ∈ V) /\ ~ (sigma j ∈ D).
Proof.
  intros HD [Hnd Hr [Hi Hj] Hn Hp] Hne. destruct (Hr j Hj) as [Hjr HjD]. split; [auto|]. split.
  - intros Hin. destruct (Hp _ Hin Hne) as (y & Hy & Hyj & E). apply Hyj. apply sigma_inj; auto. by apply Hr.
  - by rewrite <- (HD j Hjr).
Qed.

Lemma trail_bound D ip V j : trail D ip V j -> Z.of_nat (length V) <= n.
Proof.
  intros [Hnd Hr _ _ _]. assert (Hsub : V ⊆+ seqZ 0 n).
  { apply NoDup_submseteq; [done|]. intros x Hx. apply elem_of_seqZ. destruct (Hr x Hx). lia. }
  apply submseteq_length in Hsub. rewrite length_seqZ in Hsub. unfold n in *. lia.
Qed.

Lemma trail_extend D ip V j : closed D -> trail D ip V j -> sigma j <> ip -> trail D ip (sigma j :: V) (sigma j).
Proof.
  intros HD Ht Hne. destruct (trail_fresh D ip V j HD Ht Hne) as (Hr1 & HV & HD1).
  destruct Ht as [Hnd Hr [Hi Hj] Hn Hp]. split.
  - by constructor.
  - intros x [->|Hx]%elem_of_cons; auto.
  - split; [by right|by left].
  - intros x [->|Hx]%elem_of_cons Hxj; [done|]. destruct (decide (x = j)) as [->|]; [by left|]. right. auto.
  - intros x [->|Hx]%elem_of_cons Hxi.
    + exists j. split; [by right|]. split; [|done]. intros E. by rewrite <- E in HV.
    + destruct (Hp x Hx Hxi) as (y & Hy & Hyj & <-). exists y. split; [by right|]. split; [|done]. intros ->. done.
Qed.

(** The trail is the whole cycle when the next element is the first. *)
Lemma trail_closed D ip V j : closed D -> trail D ip V j -> sigma j = ip -> closed (V ++ D).
Proof.
  intros HD [Hnd Hr [Hi Hj] Hn Hp] E x Hx. rewrite !elem_of_app, <- (HD x Hx). split; intros [HV|HDx]; auto; left.
  - destruct (decide (x = j)) as [->|]; [by rewrite E|auto].
  - destruct (decide (sigma x = ip)) as [E2|Hne].
    + assert (x = j) as -> by (apply sigma_inj; [done|by apply Hr|congruence]). done.
    + destruct (Hp _ HV Hne) as (y & Hy & _ & Ey). assert (y = x) as -> by (apply sigma_inj; [by apply Hr|done|done]). done.
Qed.

(** During the walk everything but [j] is as [moved] says; the element of [ip] is in [tmp]. *)
Record walking (D V : list Z) (j : Z) (b : list A) (tp : list Z) : Prop := {
  wk_len : length b = length b0 /\ length tp = length b0;
  wk_done : forall x, 0 <= x < n -> x <> j -> x ∈ V ++ D -> elem 0 tp x = x /\ elem d b x = elem d b0 (sigma x);
  wk_rest : forall x, 0 <= x < n -> x ∉ V ++ D -> elem 0 tp x = sigma x /\ elem d b x = elem d b0 x }.

Lemma elem_wr {B} (e : B) a i x : 0 <= i < Z.of_nat (length a) ->
  exists a', wr a i x = Ok a' /\ length a' = length a /\
    forall y, 0 <= y -> elem e a' y = if decide (y = i) then x else elem e a y.
Proof.
  intros Hi. eexists. split; [by apply wr_Ok|]. split; [by rewrite length_insert|]. intros y Hy. unfold elem.
  rewrite elem_insert by lia. repeat destruct (decide _); try lia; done.
Qed.

Lemma follow_spec D ip fuel : forall V j b tp, closed D -> trail D ip V j -> sigma j <> ip ->
  walking D V j b tp -> n < Z.of_nat (fuel + length V) ->
  exists b' tp' D', follow fuel (elem d b0 ip) ip b tp j (sigma j) = Ok (b', tp') /\
    moved D' b' tp' /\ closed D' /\ D ⊆ D' /\ ip ∈ D'.
Proof.
  induction fuel as [|fuel IH]; intros V j b tp HD Ht Hne Hw Hf.
  { pose proof (trail_bound _ _ _ _ Ht). lia. }
  pose proof (trail_fresh D ip V j HD Ht Hne) as (Hkr & HkV & HkD).
  pose proof (trail_extend D ip V j HD Ht Hne) as Ht'.
  assert (Hj : 0 <= j < n) by (apply Ht; apply Ht).
  destruct Hw as [[Hlb Hlt] Hd Hr]. cbn [follow].
  destruct (elem_wr 0 tp j j) as (tp1 & -> & Hl1 & E1); [unfold n in *; lia|]. cbn [mbind res_bind].
  rewrite (rd_elem d) by (unfold n in *; lia). cbn [mbind res_bind].
  destruct (elem_wr d b j (elem d b (sigma j))) as (b1 & -> & Hlb1 & Eb1); [unfold n in *; lia|]. cbn [mbind res_bind].
  rewrite (rd_elem 0) by (unfold n in *; lia). cbn [mbind res_bind].
  assert (Hkj : sigma j <> j). { intros E. apply HkV. rewrite E. apply Ht. }
  assert (HkVD : sigma j ∉ V ++ D) by (rewrite elem_of_app; tauto).
  destruct (Hr (sigma j) Hkr HkVD) as [Etk Ebk].
  rewrite E1, decide_False, Etk by (done || lia).
  assert (Hw1 : walking D (sigma j :: V) (sigma j) b1 tp1).
  { split; [lia| |].
    - intros x Hx Hxk [Hx1|Hx1]%elem_of_cons; [done|]. rewrite E1, Eb1 by lia.
      destruct (decide (x = j)) as [->|]; [by rewrite Ebk|]. by apply Hd.
    - intros x Hx Hn. rewrite E1, Eb1 by lia. rewrite !decide_False; [apply Hr; set_solver| |]; intros ->; apply Hn, elem_of_app; left; right; apply Ht. }
  destruct (Z.eqb_spec (sigma (sigma j)) ip) as [Eend|Hgo].
  - destruct (elem_wr 0 tp1 (sigma j) (sigma j)) as (tp2 & -> & Hl2 & E2); [unfold n in *; lia|]. cbn [mbind res_bind].
    destruct (elem_wr d b1 (sigma j) (elem d b0 ip)) as (b2 & -> & Hlb2 & Eb2); [unfold n in *; lia|]. cbn [mbind res_bind].
    exists b2, tp2, ((sigma j :: V) ++ D). split; [done|]. split; [|split; [|split]].
    + destruct Hw1 as [_ Hd1 Hr1]. split; [lia| |].
      * intros x Hx Hin. rewrite E2, Eb2 by lia. destruct (decide (x = sigma j)) as [->|]; [by rewrite Eend|]. by apply Hd1.
      * intros x Hx Hin. rewrite E2, Eb2 by lia. rewrite !decide_False by (intros ->; apply Hin; left). by apply Hr1.
    + eapply trail_closed; done.
    + set_solver.
    + apply elem_of_app. left. apply Ht'.
  - apply (IH (sigma j :: V)); try done. cbn [length]. lia.
Qed.

Lemma permute_loop_spec m : forall i b tp D, 0 <= i -> n = i + Z.of_nat m ->
  closed D -> moved D b tp -> (forall x, 0 <= x < i -> x ∈ D) ->
  exists b', permute_loop m i b tp = Ok b' /\ length b' = length b0 /\
    forall x, 0 <= x < n -> elem d b' x = elem d b0 (sigma x).
Proof.
  induction m as [|m IH]; intros i b tp D Hi Hn HD [[Hlb Hlt] Hd Hr] Hdone; cbn [permute_loop].
  { exists b. split; [done|]. split; [done|]. intros x Hx. apply Hd; [done|]. apply Hdone. lia. }
  rewrite (rd_elem 0) by (unfold n in *; lia). cbn [mbind res_bind].
  assert (Hir : 0 <= i < n) by lia.
  destruct (Z.eqb_spec (elem 0 tp i) i) as [Efix|Hmove].
  - destruct (decide (i ∈ D)) as [Hin|Hout].
    + apply (IH _ _ _ D); [lia|lia|done|by split|]. intros x Hx. destruct (decide (x = i)) as [->|]; [done|]. apply Hdone. lia.
    + destruct (Hr i Hir Hout) as [Es Eb]. assert (Hfix : sigma i = i) by congruence.
      apply (IH _ _ _ (i :: D)); [lia|lia| | |].
      * intros x Hx. rewrite !elem_of_cons, <- (HD x Hx). split; intros [E|]; auto; left; [by rewrite E|].
        apply sigma_inj; [done|done|congruence].
      * split; [done| |].
        -- intros x Hx [->|Hx1]%elem_of_cons; [by rewrite Hfix|]. by apply Hd.
        -- intros x Hx Hx1. apply Hr; [done|]. set_solver.
      * intros x Hx. destruct (decide (x = i)) as [->|]; [by left|]. right. apply Hdone. lia.
  - assert (Hout : i ∉ D). { intros Hin. by destruct (Hd i Hir Hin). }
    destruct (Hr i Hir Hout) as [Es Eb]. rewrite Es in *.
    rewrite (rd_elem d) by (unfold n in *; lia). cbn [mbind res_bind]. rewrite Eb.
    destruct (follow_spec D i (length tp) [i] i b tp) as (b' & tp' & D' & -> & Hm & HD' & Hsub & HiD'); try done.
    + split; [apply NoDup_singleton| | | |].
      * by intros x ->%list_elem_of_singleton.
      * split; apply list_elem_of_here.
      * intros x ->%list_elem_of_singleton. done.
      * intros x ->%list_elem_of_singleton. done.
    + split; [done| |].
      * intros x Hx Hxi [->|Hx1]%elem_of_cons; [done|]. by apply Hd.
      * intros x Hx Hx1. apply Hr; [done|]. set_solver.
    + cbn [length]. unfold n in *. lia.
    + cbn [mbind res_bind]. apply (IH _ _ _ D'); [lia|lia|done|done|].
      intros x Hx. destruct (decide (x = i)) as [->|]; [done|]. apply Hsub, Hdone. lia.
Qed.

End Cycles.

Lemma elem_fmap {A B} (f : A -> B) d e l i : 0 <= i < Z.of_nat (length l) -> elem e (f <$> l) i = f (elem d l i).
Proof.
  intros Hi. unfold elem. apply nth_lookup_Some. rewrite list_lookup_fmap, (nth_lookup_Some' d) by lia. done.
Qed.

Lemma elem_ext {A} (d : A) l l' : length l = length l' ->
  (forall i, 0 <= i < Z.of_nat (length l) -> elem d l i = elem d l' i) -> l = l'.
Proof.
  intros Hlen H. apply (list_eq_same_length _ _ (length l)); [done|done|]. intros i x y Hi Hx Hy.
  specialize (H (Z.of_nat i)). unfold elem in H. rewrite Nat2Z.id in H.
  rewrite (nth_lookup_Some _ _ _ _ Hx), (nth_lookup_Some _ _ _ _ Hy) in H. apply H. lia.
Qed.

Section IndirectSpec.
Context {A : Type} (cmp : A -> A -> Z) `{!Comparator cmp}.

#[local] Instance cmp_elem (d : A) (b : list A) : Comparator (fun p q => cmp (elem d b p) (elem d b q)).
Proof. split; intros; [apply cmp_anti|by eapply cmp_trans]. Qed.

(** The pointers, in the order of the array. *)
Lemma pointers_fmap (d : A) b : elem d b <$> (Z.of_nat <$> seq 0 (length b)) = b.
Proof.
  apply (elem_ext d); [by rewrite !length_fmap, length_seq|]. intros i. rewrite !length_fmap, length_seq. intros Hi.
  rewrite (elem_fmap _ 0) by (by rewrite length_fmap, length_seq). f_equal.
  rewrite (elem_fmap _ 0%nat) by (by rewrite length_seq). unfold elem. rewrite seq_nth by lia. lia.
Qed.

Lemma indirect_spec (d : A) b : exists l, indirect_msort_with_tmp cmp b = Ok l /\ l ≡ₚ b /\
  StronglySorted (leq cmp) l /\
  forall (P : A -> Prop) (H : forall y, Decision (P y)), class cmp P -> filter P l = filter P b.
Proof.
  unfold indirect_msort_with_tmp. set (ptrs := Z.of_nat <$> seq 0 (length b)).
  assert (Hl : length ptrs = length b) by (unfold ptrs; by rewrite length_fmap, length_seq).
  assert (Hin : forall p, p ∈ ptrs -> 0 <= p < Z.of_nat (length b)).
  { intros p (i & -> & Hi%elem_of_seq)%list_elem_of_fmap. lia. }
  rewrite (msort_ext _ (fun p q => cmp (elem d b p) (elem d b q))); [|lia|].
  2: { intros p q Hp%Hin Hq%Hin. unfold cmp_ptr. by rewrite !(rd_elem d) by done. }
  destruct (msort_spec (fun p q => cmp (elem d b p) (elem d b q)) (S (length b)) ptrs) as (tp & -> & Hp & Hs & Hst); [lia|].
  cbn [mbind res_bind]. assert (Hlt : length tp = length b) by (by rewrite Hp).
  destruct (permute_loop_spec d b tp) with (m := length b) (i := 0) (b := b) (tp := tp) (D := []:list Z)
    as (b' & -> & Hlb & Hb'); try done; try lia.
  - intros x Hx. apply Hin. rewrite <- Hp. apply (list_elem_of_lookup_2 _ (Z.to_nat x)). apply nth_lookup_Some'. lia.
  - intros x y Hx Hy E. assert (Hnd : NoDup tp).
    { rewrite Hp. apply NoDup_fmap_2; [apply _|]. apply NoDup_seq. }
    apply Z2Nat.inj; try lia. apply (NoDup_lookup tp _ _ (elem 0 tp x) Hnd).
    + apply nth_lookup_Some'. lia.
    + rewrite E. apply nth_lookup_Some'. lia.
  - intros x Hx. set_solver.
  - split; [done|set_solver|done].
  - assert (b' = elem d b <$> tp) as ->.
    { apply (elem_ext d); [by rewrite length_fmap, Hlt|]. intros i Hi. rewrite Hb' by lia. by rewrite (elem_fmap _ 0) by lia. }
    exists (elem d b <$> tp). split; [done|]. split; [|split].
    + rewrite Hp. by rewrite pointers_fmap.
    + clear -Hs. induction Hs as [|x l Hs IH Hall]; [constructor|]. rewrite fmap_cons. constructor; [done|]. by apply Forall_fmap.
    + intros P HP Hc. rewrite filter_map, Hst, <- filter_map; [by rewrite pointers_fmap|]. intros y z Hy Hz. by apply Hc.
Qed.

End IndirectSpec.

(** ** [qsort] *)
Section QsortSpec.
Context {A : Type} (cmp : A -> A -> Z) `{!Comparator cmp}.

Lemma short_spec (b : list A) : (length b <= 1)%nat -> StronglySorted (leq cmp) b.
Proof. destruct b as [|x [|y b]]; cbn; intros Hl; [constructor|repeat constructor|lia]. Qed.

(** C38. [qsort] always returns, and what it leaves in the array is a sorted
    permutation of what was there: for every element size and whether or not
    the temporary array can be allocated, that is, on the merge sort, the merge
    sort over pointers and the heap sort. *)
Theorem qsort_sorts malloc_ok (b : list A) size :
  exists l, qsort malloc_ok b size cmp = Ok l /\ l ≡ₚ b /\ StronglySorted (leq cmp) l.
Proof.
  unfold qsort, __qsort_r. destruct (Z.leb_spec (Z.of_nat (length b)) 1) as [Hle|Hgt].
  { exists b. split; [done|]. split; [done|]. apply short_spec. lia. }
  destruct b as [|d b']; [cbn in Hgt; lia|]. set (b := d :: b') in *.
  repeat case_match.
  - destruct (indirect_spec cmp d b) as (l & ? & ? & ? & _). by exists l.
  - destruct (msort_spec cmp (S (length b)) b) as (l & ? & ? & ? & _); [lia|]. by exists l.
  - destruct (heapsort_spec cmp d b) as (l & ? & ? & ?); [lia|]. by exists l.
  - destruct (heapsort_spec cmp d b) as (l & ? & ? & ?); [lia|]. by exists l.
Qed.

(** While memory can be allocated the sort is stable: elements that compare
    equal keep their order, here, the elements of any class of mutually equal
    elements are the same list before and after. *)
Theorem qsort_stable malloc_ok (b : list A) size (P : A -> Prop) (Hdec : forall y, Decision (P y)) :
  (forall bytes, malloc_ok bytes = true) -> class cmp P ->
  exists l, qsort malloc_ok b size cmp = Ok l /\ filter P l = filter P b.
Proof.
  intros Hm HP. unfold qsort, __qsort_r. destruct (Z.leb_spec (Z.of_nat (length b)) 1) as [Hle|Hgt].
  { by exists b. }
  destruct b as [|d b']; [cbn in Hgt; lia|]. set (b := d :: b') in *.
  rewrite Hm, orb_true_r. case_match.
  - destruct (indirect_spec cmp d b) as (l & ? & _ & _ & Hst). exists l. split; [done|]. by apply Hst.
  - destruct (msort_spec cmp (S (length b)) b) as (l & ? & _ & _ & Hst); [lia|]. exists l. split; [done|]. by apply Hst.
Qed.

End QsortSpec.

Module Example8.

(** Records of two fields, compared by the first. *)
Definition by_key (x y : Z * Z) : Z := x.1 - y.1.
#[export] Instance by_key_ok : Comparator by_key.
Proof. split; unfold by_key; intros; lia. Qed.

Lemma qsort_sorts_witness :
  qsort (fun _ => false) [(2, 0); (1, 1); (2, 2); (1, 3)] 2000 by_key = Ok [(1, 1); (1, 3); (2, 2); (2, 0)] /\
  exists l, qsort (fun _ => false) [(2, 0); (1, 1); (2, 2); (1, 3)] 2000 by_key = Ok l /\
    l ≡ₚ [(2, 0); (1, 1); (2, 2); (1, 3)] /\ StronglySorted (leq by_key) l.
Proof. split; [vm_compute; reflexivity|]. apply (qsort_sorts by_key). Defined.

Lemma qsort_stable_witness : exists l, qsort (fun _ => true) [(2, 0); (1, 1); (2, 2); (1, 3)] 40 by_key = Ok l /\
    filter (fun y => y.1 = 2) l = [(2, 0); (2, 2)].
Proof. apply (qsort_stable by_key); [done|]. intros y z Hy Hz. unfold leq, by_key. lia. Defined.

End Example8.
