(* ===== verification/Dynarray.v ===== *)
(** * Dynamic arrays: [malloc/dynarray-skeleton.c], [dynarray_emplace_enlarge.c], [dynarray_resize.c],
    [dynarray_finalize.c], [dynarray_at_failure.c]

    The backing store is a list of [allocated] slots, [None] where a slot was
    never written, and every access goes through the bounds-checked [rd] and
    [wr].  [malloc] and [realloc] are a parameter: which sizes can be had. *)

From S2P Require Import Prelude.

Section Dynarray.
Context {A : Type}.
(** [sizeof (DYNARRAY_ELEMENT)], [DYNARRAY_INITIAL_SIZE] (0 without a scratch buffer). *)
Context (element_size initial_size : Z) (malloc_ok : Z -> bool).

(** [heap]: [array != scratch] *)
Record dynarray : Type := mkDyn { used : Z; allocated : Z; array : list (option A); heap : bool }.

Definition __dynarray_error_marker : Z := u64 (-1).

Definition dyn_init : dynarray :=
  {| used := 0; allocated := initial_size; array := replicate (Z.to_nat initial_size) None; heap := false |}.

(** [DYNARRAY_FREE]; the elements need no destructor. *)
Definition dyn_free (d : dynarray) : dynarray := dyn_init.

Definition has_failed (d : dynarray) : bool := d.(allocated) =? __dynarray_error_marker.

Definition mark_failed (d : dynarray) : dynarray :=
  {| used := 0; allocated := __dynarray_error_marker; array := replicate (Z.to_nat initial_size) None; heap := false |}.

Definition dyn_size (d : dynarray) : Z := d.(used).

(** [at], then the read through the pointer. *)
Definition dyn_at (d : dynarray) (index : Z) : res A :=
  if dyn_size d <=? index then Fatal "array index not less than array length"
  else x ← rd d.(array) index; res_of_option x.

(** The block of [n] elements that [malloc] and [memcpy], or [realloc], give. *)
Definition moved_to (d : dynarray) (n : Z) : list (option A) :=
  let kept := if d.(heap) then d.(array) else take (Z.to_nat d.(used)) d.(array) in
  take (Z.to_nat n) (kept ++ replicate (Z.to_nat n) None).

(** [None]: the computation of the new size overflows. *)
Definition new_allocated (d : dynarray) : option Z :=
  if d.(allocated) =? 0 then Some (if element_size <? 4 then 16 else if element_size <? 8 then 8 else 4)
  else
    let n := u64 (d.(allocated) + d.(allocated) / 2 + 1) in
    if n <=? d.(allocated) then None else Some n.

Definition __libc_dynarray_emplace_enlarge (d : dynarray) : option dynarray :=
  match new_allocated d with
  | None => None
  | Some n =>
      if 2 ^ 64 <=? n * element_size then None
      else if malloc_ok (n * element_size) then
        Some {| used := d.(used); allocated := n; array := moved_to d n; heap := true |}
      else None
  end.

(** [array[used++] = item] *)
Definition push (d : dynarray) (item : A) : res dynarray :=
  a ← wr d.(array) d.(used) (Some item);
  mret {| used := d.(used) + 1; allocated := d.(allocated); array := a; heap := d.(heap) |}.

(** [add], with its slow path [add__]. *)
Definition dyn_add (d : dynarray) (item : A) : res dynarray :=
  if has_failed d then Ok d
  else if d.(used) =? d.(allocated) then
    match __libc_dynarray_emplace_enlarge d with
    | None => Ok (mark_failed d)
    | Some d => push d item
    end
  else push d item.

(** [emplace] gives the caller a slot, which it then fills with [item]; [false] is the null pointer. *)
Definition dyn_emplace (d : dynarray) (item : A) : res (dynarray * bool) :=
  if has_failed d then Ok (d, false)
  else if d.(used) =? d.(allocated) then
    match __libc_dynarray_emplace_enlarge d with
    | None => Ok (mark_failed d, false)
    | Some d => d ← push d item; mret (d, true)
    end
  else d ← push d item; mret (d, true).

Definition __libc_dynarray_resize (d : dynarray) (size : Z) : option dynarray :=
  if size <=? d.(allocated) then
    Some {| used := size; allocated := d.(allocated); array := d.(array); heap := d.(heap) |}
  else if 2 ^ 64 <=? size * element_size then None
  else if malloc_ok (size * element_size) then
    Some {| used := size; allocated := size; array := moved_to d size; heap := true |}
  else None.

(** [resize], for elements without constructor and destructor. *)
Definition dyn_resize (d : dynarray) (size : Z) : dynarray * bool :=
  if d.(used) <? size then
    match __libc_dynarray_resize d size with
    | Some d => (d, true)
    | None => (mark_failed d, false)
    end
  else ({| used := size; allocated := d.(allocated); array := d.(array); heap := d.(heap) |}, true).

Definition remove_last (d : dynarray) : dynarray :=
  if 0 <? d.(used) then
    {| used := d.(used) - 1; allocated := d.(allocated); array := d.(array); heap := d.(heap) |}
  else d.

Definition dyn_clear (d : dynarray) : dynarray :=
  {| used := 0; allocated := d.(allocated); array := d.(array); heap := d.(heap) |}.

(** [__libc_dynarray_finalize]: the heap copy of the elements. *)
Definition __libc_dynarray_finalize (d : dynarray) : option (list (option A)) :=
  if has_failed d then None
  else if d.(used) =? 0 then Some []
  else if malloc_ok (u64 (d.(used) * element_size)) then Some (take (Z.to_nat d.(used)) d.(array))
  else None.

(** [finalize]: the list is reset whatever happens. *)
Definition dyn_finalize (d : dynarray) : dynarray * option (list (option A)) :=
  match __libc_dynarray_finalize d with
  | Some l => (dyn_init, Some l)
  | None => (dyn_free d, None)
  end.

(** ** The sequence it stands for *)

(** [None]: the error state. *)
Definition contents (d : dynarray) : list (option A) := take (Z.to_nat d.(used)) d.(array).
Record represents (d : dynarray) (l : option (list A)) : Prop := {
  dr_used : 0 <= d.(used) <= Z.of_nat (length d.(array));
  dr_state : match l with
             | None => has_failed d = true /\ d.(used) = 0
             | Some l => has_failed d = false /\ 0 <= d.(allocated) < 2 ^ 64 /\
                 Z.of_nat (length d.(array)) = d.(allocated) /\ contents d = Some <$> l
             end }.

Hypothesis sizes : 0 <= initial_size < 2 ^ 32 /\ 0 < element_size < 2 ^ 20.
(** [malloc] refuses more than [PTRDIFF_MAX] bytes. *)
Hypothesis malloc_max : forall n, malloc_ok n = true -> n < 2 ^ 63.

Lemma marker_value : __dynarray_error_marker = 2 ^ 64 - 1.
Proof. reflexivity. Qed.

Lemma init_represents : represents dyn_init (Some []).
Proof.
  split; cbn [used allocated array heap dyn_init mark_failed]; [lia|]. rewrite length_replicate. unfold has_failed; cbn [allocated dyn_init]. rewrite marker_value.
  split; [apply Z.eqb_neq; lia|]. split; [lia|split; [lia|done]].
Qed.

Lemma failed_represents d : represents (mark_failed d) None.
Proof. split; cbn [used allocated array heap dyn_init mark_failed]; [lia|]. unfold has_failed; cbn [allocated mark_failed]. by rewrite Z.eqb_refl. Qed.

Lemma represents_length d l : represents d (Some l) -> d.(used) = Z.of_nat (length l).
Proof.
  intros [Hu (_ & _ & _ & Hc)]. apply (f_equal length) in Hc. unfold contents in Hc.
  rewrite length_take, length_fmap in Hc. lia.
Qed.

Lemma push_represents d l x : represents d (Some l) -> d.(used) < d.(allocated) ->
  exists d', push d x = Ok d' /\ represents d' (Some (l ++ [x])).
Proof.
  intros Hr Hlt. pose proof (represents_length _ _ Hr) as Hlen. destruct Hr as [Hu (Hf & Ha & Hla & Hc)].
  unfold push. rewrite wr_Ok by lia. eexists. split; [done|]. split; cbn [used allocated array heap].
  - rewrite length_insert. lia.
  - unfold has_failed in *. cbn [allocated]. split; [done|]. split; [done|]. split; [by rewrite length_insert|].
    unfold contents in *; cbn [used array]. rewrite Z2Nat.inj_add by lia. rewrite Nat.add_1_r.
    rewrite (take_S_r _ _ (Some x)) by (apply list_lookup_insert_eq; lia).
    rewrite take_insert_ge by lia. by rewrite Hc, fmap_app.
Qed.

(** Enlarging keeps the elements and makes room. *)
Lemma enlarge_represents d l d' : represents d (Some l) -> d.(used) = d.(allocated) ->
  __libc_dynarray_emplace_enlarge d = Some d' -> represents d' (Some l) /\ d'.(used) < d'.(allocated).
Proof.
  intros Hr Heq. pose proof (represents_length _ _ Hr) as Hlen. destruct Hr as [Hu (Hf & Ha & Hla & Hc)].
  unfold __libc_dynarray_emplace_enlarge.
  destruct (new_allocated d) as [n|] eqn:En; [|done].
  assert (Hn : d.(allocated) < n < 2 ^ 64).
  { revert En. unfold new_allocated. destruct (Z.eqb_spec d.(allocated) 0) as [E|].
    - intros [= <-]. repeat case_match; lia.
    - destruct (Z.leb_spec (u64 (d.(allocated) + d.(allocated) / 2 + 1)) d.(allocated)); [done|].
      intros [= <-]. pose proof (u64_bound (d.(allocated) + d.(allocated) / 2 + 1)). lia. }
  destruct (Z.leb_spec (2 ^ 64) (n * element_size)) as [|Hsz]; [done|].
  destruct (malloc_ok (n * element_size)) eqn:Hm; [|done]. apply malloc_max in Hm. intros [= <-].
  assert (Hlm : length (moved_to d n) = Z.to_nat n).
  { unfold moved_to. rewrite length_take, length_app, length_replicate. lia. }
  assert (Hn1 : n <> __dynarray_error_marker) by (rewrite marker_value; nia).
  split; [|cbn [used allocated]; lia]. split; cbn [used allocated array heap].
  - lia.
  - split; [by apply Z.eqb_neq|]. split; [lia|]. split; [lia|]. rewrite <- Hc. unfold contents, moved_to; cbn [used array].
    rewrite take_take, Nat.min_l by lia. destruct d.(heap).
    + by rewrite take_app_le by lia.
    + rewrite take_app_le; [by rewrite take_take, Nat.min_id|]. rewrite length_take. lia.
Qed.

(** What [add] does to the sequence: it appends, or gives up everything when it cannot grow. *)
Lemma add_represents d l x : represents d l -> exists d', dyn_add d x = Ok d' /\
  (represents d' (l ≫= fun l => Some (l ++ [x])) \/
   represents d' None /\ d.(used) = d.(allocated) /\ __libc_dynarray_emplace_enlarge d = None).
Proof.
  intros Hr. unfold dyn_add. destruct l as [l|]; cbn [mbind option_bind].
  2: { pose proof (dr_state _ _ Hr) as [-> _]. eauto. }
  pose proof (dr_state _ _ Hr) as (Hf & _ & Hla & _). pose proof (dr_used _ _ Hr) as Hu. rewrite Hf.
  destruct (Z.eqb_spec d.(used) d.(allocated)) as [Heq|Hne].
  - destruct (__libc_dynarray_emplace_enlarge d) as [d1|] eqn:E.
    + destruct (enlarge_represents d l d1 Hr Heq E) as [Hr1 Hlt].
      destruct (push_represents d1 l x Hr1 Hlt) as (d' & ? & ?). eauto.
    + eexists. split; [done|]. right. split; [apply failed_represents|done].
  - destruct (push_represents d l x Hr) as (d' & ? & ?); [lia|eauto].
Qed.

(** [emplace] and filling the slot is [add]; it says whether the element is there. *)
Lemma emplace_represents d l x : represents d l ->
  exists d' ok, dyn_emplace d x = Ok (d', ok) /\
    match ok, l with
    | true, Some l => represents d' (Some (l ++ [x]))
    | true, None => False
    | false, Some l => represents d' None /\ d.(used) = d.(allocated) /\ __libc_dynarray_emplace_enlarge d = None
    | false, None => represents d' None
    end.
Proof.
  intros Hr. unfold dyn_emplace. destruct l as [l|].
  2: { pose proof (dr_state _ _ Hr) as [E _]. rewrite !E. by exists d, false. }
  pose proof (dr_state _ _ Hr) as (Hf & _ & Hla & _). pose proof (dr_used _ _ Hr) as Hu. rewrite !Hf.
  destruct (Z.eqb_spec d.(used) d.(allocated)) as [Heq|Hne].
  - destruct (__libc_dynarray_emplace_enlarge d) as [d1|] eqn:E.
    + destruct (enlarge_represents d l d1 Hr Heq E) as [Hr1 Hlt].
      destruct (push_represents d1 l x Hr1 Hlt) as (d' & -> & Hr'). by exists d', true.
    + exists (mark_failed d), false. split; [done|]. split; [apply failed_represents|done].
  - destruct (push_represents d l x Hr) as (d' & -> & Hr'); [lia|]. by exists d', true.
Qed.

Lemma at_represents d l i : represents d (Some l) -> 0 <= i ->
  dyn_at d i = match l !! Z.to_nat i with Some x => Ok x | None => Fatal "array index not less than array length" end.
Proof.
  intros Hr Hi. pose proof (represents_length _ _ Hr) as Hlen. destruct Hr as [Hu (Hf & Ha & Hla & Hc)].
  unfold dyn_at, dyn_size. destruct (Z.leb_spec d.(used) i) as [Hge|Hlt].
  - rewrite (lookup_ge_None_2 l) by lia. done.
  - destruct (lookup_lt_is_Some_2 l (Z.to_nat i)) as [x Hx]; [lia|]. rewrite Hx.
    assert (Ho : d.(array) !! Z.to_nat i = Some (Some x)).
    { assert (Hci : contents d !! Z.to_nat i = Some (Some x)) by (by rewrite Hc, list_lookup_fmap, Hx).
      unfold contents in Hci. rewrite lookup_take_lt in Hci by lia. done. }
    by rewrite (proj2 (rd_Ok _ _ _) (conj Hi Ho)).
Qed.

(** Shrinking by [remove_last], [clear] or [resize] keeps a prefix. *)
Lemma shrink_represents d l n : represents d (Some l) -> 0 <= n <= d.(used) ->
  represents {| used := n; allocated := d.(allocated); array := d.(array); heap := d.(heap) |} (Some (take (Z.to_nat n) l)).
Proof.
  intros [Hu (Hf & Ha & Hla & Hc)] Hn. split; cbn [used allocated array heap dyn_init mark_failed]; [lia|]. split; [done|]. split; [done|]. split; [done|].
  unfold contents in *; cbn [used array]. rewrite fmap_take, <- Hc, take_take. f_equal. lia.
Qed.

Lemma remove_last_represents d l : represents d (Some l) -> represents (remove_last d) (Some (take (length l - 1) l)).
Proof.
  intros Hr. pose proof (represents_length _ _ Hr) as Hlen. unfold remove_last.
  destruct (Z.ltb_spec 0 d.(used)).
  - replace (length l - 1)%nat with (Z.to_nat (d.(used) - 1)) by lia. apply shrink_represents; [done|lia].
  - destruct l; [done|cbn in *; lia].
Qed.

(** Growing as far as memory allows: when is an enlargement not refused. *)
Lemma enlarge_ok d : d.(used) = d.(allocated) -> 0 <= d.(allocated) < 2 ^ 40 ->
  (forall n, n < 2 ^ 62 -> malloc_ok n = true) -> __libc_dynarray_emplace_enlarge d <> None.
Proof.
  intros Heq Ha Hm. unfold __libc_dynarray_emplace_enlarge.
  assert (Hex : exists n, new_allocated d = Some n /\ 0 <= n < 2 ^ 41).
  { unfold new_allocated. destruct (Z.eqb_spec d.(allocated) 0).
    - eexists. split; [done|]. repeat case_match; lia.
    - assert (0 <= d.(allocated) / 2 <= d.(allocated)) by divlia. cbn zeta. rewrite u64_small by lia.
      rewrite (proj2 (Z.leb_gt _ _)) by lia. eexists. split; [done|]. lia. }
  destruct Hex as (n & -> & Hn). assert (n * element_size < 2 ^ 61) by nia.
  rewrite (proj2 (Z.leb_gt _ _)) by lia. by rewrite Hm by lia.
Qed.

Definition adds (d : dynarray) (xs : list A) : res dynarray :=
  foldl (fun r x => d ← r; dyn_add d x) (Ok d) xs.

Lemma adds_represents xs : forall d l, represents d (Some l) ->
  (forall n, n < 2 ^ 62 -> malloc_ok n = true) -> Z.of_nat (length l + length xs) < 2 ^ 40 ->
  exists d', adds d xs = Ok d' /\ represents d' (Some (l ++ xs)).
Proof.
  induction xs as [|x xs IH]; intros d l Hr Hm Hlen.
  { exists d. rewrite app_nil_r. done. }
  unfold adds. cbn [foldl]. cbn [mbind res_bind length] in *. destruct (add_represents d (Some l) x Hr) as (d1 & -> & [Hr1|(_ & Heq & Hno)]).
  - cbn [mbind option_bind] in Hr1. destruct (IH d1 (l ++ [x]) Hr1 Hm) as (d' & Hd' & Hr'); [rewrite length_app; cbn [length]; lia|].
    exists d'. split; [done|]. by rewrite <- app_assoc in Hr'.
  - exfalso. apply (enlarge_ok d); [done| |done|done].
    pose proof (represents_length _ _ Hr). pose proof (dr_state _ _ Hr) as (_ & Ha & _). lia.
Qed.

(** As long as memory is available, elements added one after the other to an
    empty array, through all its reallocations, are found by [at] at their
    position, and an index beyond them ends the process. *)
Theorem dynarray_append xs i :
  (forall n, n < 2 ^ 62 -> malloc_ok n = true) -> Z.of_nat (length xs) < 2 ^ 40 -> 0 <= i ->
  exists d, adds dyn_init xs = Ok d /\ dyn_size d = Z.of_nat (length xs) /\
    dyn_at d i = match xs !! Z.to_nat i with Some x => Ok x | None => Fatal "array index not less than array length" end.
Proof.
  intros Hm Hlen Hi. destruct (adds_represents xs dyn_init [] init_represents Hm Hlen) as (d & Hd & Hr).
  exists d. split; [done|]. split; [apply (represents_length _ _ Hr)|]. by apply at_represents.
Qed.

(** When the array cannot grow, the elements it had are gone too: it is
    empty from then on and ignores what is added. *)
Theorem dynarray_failure_drops_elements d l x : represents d (Some l) ->
  d.(used) = d.(allocated) -> __libc_dynarray_emplace_enlarge d = None ->
  exists d', dyn_add d x = Ok d' /\ dyn_size d' = 0 /\ forall y, dyn_add d' y = Ok d'.
Proof.
  intros Hr Heq Hno. unfold dyn_add at 1. pose proof (dr_state _ _ Hr) as (-> & _).
  rewrite (proj2 (Z.eqb_eq _ _) Heq), Hno. exists (mark_failed d). split; [done|]. split; [done|].
  intros y. unfold dyn_add. pose proof (dr_state _ _ (failed_represents d)) as (-> & _). done.
Qed.

End Dynarray.

Module Example9.

Definition memory (n : Z) : bool := n <? 2 ^ 62.
Definition no_memory (n : Z) : bool := false.

Lemma dynarray_append_witness : exists d, adds 8 0 memory (dyn_init 0) (seq 0 30) = Ok d /\
  dyn_size d = 30 /\ dyn_at d 29 = Ok 29%nat.
Proof.
  destruct (dynarray_append (A := nat) 8 0 memory) with (xs := seq 0 30) (i := 29) as (d & H1 & H2 & H3).
  - lia.
  - unfold memory. intros n Hn. apply Z.ltb_lt in Hn. lia.
  - unfold memory. intros n Hn. by apply Z.ltb_lt.
  - cbn. lia.
  - lia.
  - exists d. split; [done|]. split; [exact H2|]. exact H3.
Defined.

Lemma dynarray_failure_drops_elements_witness :
  let d := {| used := 2; allocated := 2; array := [Some 5; Some 6]; heap := false |} in
  exists d', dyn_add 8 2 no_memory d 7 = Ok d' /\ dyn_size d' = 0 /\ forall y, dyn_add 8 2 no_memory d' y = Ok d'.
Proof.
  apply (dynarray_failure_drops_elements 8 2 no_memory) with (l := [5; 6]); [|reflexivity|reflexivity].
  split; [cbn; lia|]. split; [reflexivity|]. split; [cbn; lia|]. split; reflexivity.
Defined.

End Example9.
