(* ===== verification/AtFork.v ===== *)
(** * Fork handlers: [posix/register-atfork.c]

    The handlers are kept in a dynamic array in the order of their ids.  What a
    handler does to the array while the lock is released is the parameter
    [callee]; [atfork_lock] itself has no counterpart, one thread runs. *)

From S2P Require Import Prelude Dynarray.

Record fork_handler : Type := mkHandler {
  prepare_handler : Z; parent_handler : Z; child_handler : Z; dso_handle : Z; id : Z }.
Definition sizeof_fork_handler : Z := 40.

Record atfork : Type := mkAtfork {
  fork_handlers : dynarray (A := fork_handler);
  fork_handler_counter : Z;
  f_log : list (Z * Z) (** id and address of the functions called *) }.

(** The static variables at program start: all zero. *)
Definition atfork0 : atfork :=
  {| fork_handlers := {| used := 0; allocated := 0; array := []; heap := false |};
     fork_handler_counter := 0; f_log := [] |}.

Definition set_handlers d (s : atfork) : atfork := mkAtfork d s.(fork_handler_counter) s.(f_log).
Definition set_counter c (s : atfork) : atfork := mkAtfork s.(fork_handlers) c s.(f_log).
Definition log_call h f (s : atfork) : atfork :=
  mkAtfork s.(fork_handlers) s.(fork_handler_counter) (s.(f_log) ++ [(h.(id), f)]).

Definition ENOMEM : Z := 12.

Inductive run_fork_handler_type := atfork_run_prepare | atfork_run_child | atfork_run_parent.

Section AtFork.
Context (malloc_ok : Z -> bool) (callee : Z -> atfork -> atfork).

Definition __register_atfork (prepare parent child dso_handle : Z) : M atfork Z :=
  c0 ← gets fork_handler_counter;
  when (c0 =? 0) (modify (set_handlers (dyn_init 48)));;
  d ← gets fork_handlers;
  c ← gets fork_handler_counter;
  let newp := {| prepare_handler := prepare; parent_handler := parent; child_handler := child;
                 dso_handle := dso_handle; id := c + 1 |} in
  '(d, ok) ← lift (dyn_emplace sizeof_fork_handler 48 malloc_ok d newp);
  modify (set_handlers d);;
  if (ok : bool) then
    if 2 ^ 64 <=? c + 1 then lift (Fatal "fork handler counter overflow")
    else modify (set_counter (c + 1));; mret 0
  else mret ENOMEM.

(** The index of the first handler of [dso]; [n] counts down to the end of the list. *)
Fixpoint fork_handler_list_find (n : nat) (i : Z) (d : dynarray) (dso : Z) : res (option Z) :=
  match n with
  | O => Ok None
  | S n' =>
      elem ← dyn_at d i;
      if elem.(dso_handle) =? dso then Ok (Some i) else fork_handler_list_find n' (i + 1) d dso
  end.

(** [for (; first != end; ++first)]: [n] is [end - first]. *)
Fixpoint compact (n : nat) (a : list (option fork_handler)) (new_end first : Z) (dso : Z)
  : res (list (option fork_handler) * Z) :=
  match n with
  | O => Ok (a, new_end)
  | S n' =>
      h ← rd a first;
      h ← res_of_option h;
      if negb (h.(dso_handle) =? dso)
      then a ← wr a new_end (Some h); compact n' a (new_end + 1) (first + 1) dso
      else compact n' a new_end (first + 1) dso
  end.

Definition __unregister_atfork (dso : Z) : M atfork unit :=
  d ← gets fork_handlers;
  first ← lift (fork_handler_list_find (Z.to_nat (dyn_size d)) 0 d dso);
  match first with
  | None => mret tt
  | Some first =>
      '(a, new_end) ← lift (compact (Z.to_nat (d.(used) - (first + 1))) d.(array) first (first + 1) dso);
      let removed := d.(used) - new_end in
      let d := {| used := d.(used); allocated := d.(allocated); array := a; heap := d.(heap) |} in
      modify (set_handlers (Nat.iter (Z.to_nat removed) remove_last d))
  end.

Definition at_ (i : Z) : M atfork fork_handler := d ← gets fork_handlers; lift (dyn_at d i).

(** Calling a handler: the list is unlocked meanwhile. *)
Definition call_handler (h : fork_handler) (f : Z) : M atfork unit :=
  modify (log_call h f);; modify (callee f).

(** [while (i > 0 && at (i - 1)->id >= id) i--;] *)
Fixpoint skip_newer (i : nat) (last : Z) : M atfork nat :=
  match i with
  | O => mret O
  | S i' => h ← at_ (Z.of_nat i'); if last <=? h.(id) then skip_newer i' last else mret i
  end.

(** The loop from the last handler to the first. *)
Fixpoint prefork_loop (fuel i : nat) : M atfork unit :=
  match fuel with
  | O => lift Diverge
  | S fuel =>
      match i with
      | O => mret tt
      | S i' =>
          runp ← at_ (Z.of_nat i');
          when (negb (runp.(prepare_handler) =? 0)) (call_handler runp runp.(prepare_handler));;
          i ← skip_newer i' runp.(id);
          prefork_loop fuel i
      end
  end.

Definition __run_prefork_handlers : M atfork Z :=
  lastrun ← gets fork_handler_counter;
  sl ← gets (fun s => Z.to_nat (dyn_size s.(fork_handlers)));
  prefork_loop (S sl) sl;;
  mret lastrun.

(** [for (i = 0; i < sl; i++) if (at (i)->id > id) break;]; [n] is [sl - i]. *)
Fixpoint first_newer (n : nat) (i : Z) (last : Z) : M atfork Z :=
  match n with
  | O => mret i
  | S n' => h ← at_ i; if last <? h.(id) then mret i else first_newer n' (i + 1) last
  end.

Fixpoint postfork_loop (fuel : nat) (who : run_fork_handler_type) (lastrun i : Z) : M atfork unit :=
  match fuel with
  | O => lift Diverge
  | S fuel =>
      sl ← gets (fun s => dyn_size s.(fork_handlers));
      if sl <=? i then mret tt
      else
        runp ← at_ i;
        if lastrun <? runp.(id) then mret tt
        else
          let f := match who with
                   | atfork_run_prepare => 0
                   | atfork_run_child => runp.(child_handler)
                   | atfork_run_parent => runp.(parent_handler)
                   end in
          when (negb (f =? 0)) (call_handler runp f);;
          sl ← gets (fun s => dyn_size s.(fork_handlers));
          same ← (if i <? sl then h ← at_ i; mret (h.(id) =? runp.(id)) else mret false);
          i ← (if (same : bool) then mret (i + 1) else first_newer (Z.to_nat sl) 0 runp.(id));
          postfork_loop fuel who lastrun i
  end.

(** Ids run from 1 to [lastrun], which bounds the number of rounds. *)
Definition __run_postfork_handlers (who : run_fork_handler_type) (lastrun : Z) : M atfork unit :=
  postfork_loop (S (S (Z.to_nat lastrun))) who lastrun 0.

Definition __libc_atfork_freemem : M atfork unit := modify (set_handlers (dyn_init 48)).

End AtFork.
