(* ===== verification/AtForkSpec.v ===== *)
(** * Fork handlers run in order, each once

    The state is seen as the list of its handlers, sorted by id.  Handlers may
    register and unregister handlers while they run. *)

From S2P Require Import Prelude Dynarray AtFork.

Definition fatal_at : string := "array index not less than array length".

(** The array holds the handlers [l]; after an allocation failure it holds none. *)
Definition holds (s : atfork) (l : list fork_handler) : Prop :=
  represents s.(fork_handlers) (Some l) \/ represents s.(fork_handlers) None /\ l = [].

Record ok (s : atfork) (l : list fork_handler) : Prop := {
  ok_holds : holds s l;
  ok_sorted : StronglySorted (fun h h' => h.(id) < h'.(id)) l;
  ok_ids : Forall (fun h => 1 <= h.(id) <= s.(fork_handler_counter)) l;
  ok_counter : 0 <= s.(fork_handler_counter) < 2 ^ 64 }.

(** What can have happened to the list between two looks at it. *)
Record evolves (s : atfork) (l : list fork_handler) (s' : atfork) (l' : list fork_handler) : Prop := {
  ev_ok : ok s' l';
  ev_counter : s.(fork_handler_counter) <= s'.(fork_handler_counter);
  ev_old : forall h, h ∈ l' -> h.(id) <= s.(fork_handler_counter) -> h ∈ l;
  ev_log : s'.(f_log) = s.(f_log) }.

Lemma holds_size s l : holds s l -> dyn_size s.(fork_handlers) = Z.of_nat (length l).
Proof.
  intros [H|[H ->]]; [apply (represents_length _ _ H)|]. by destruct (dr_state _ _ H).
Qed.

Lemma holds_at s l i : holds s l -> 0 <= i ->
  dyn_at s.(fork_handlers) i = match l !! Z.to_nat i with Some h => Ok h | None => Fatal fatal_at end.
Proof.
  intros [H|[H ->]] Hi; [by apply at_represents|]. destruct (dr_state _ _ H) as [_ Hu].
  unfold dyn_at, dyn_size. rewrite Hu. rewrite (proj2 (Z.leb_le _ _)) by lia. by rewrite lookup_nil.
Qed.

Lemma at_lookup s l i h : ok s l -> l !! i = Some h -> at_ (Z.of_nat i) s = Ret h s.
Proof.
  intros Hok Hl. unfold at_, mbind, M_bind, gets. rewrite (holds_at _ _ _ (ok_holds _ _ Hok)) by lia.
  rewrite Nat2Z.id, Hl. done.
Qed.
Lemma at_none s l i : ok s l -> l !! i = None -> at_ (Z.of_nat i) s = Stop fatal_at.
Proof.
  intros Hok Hl. unfold at_, mbind, M_bind, gets. rewrite (holds_at _ _ _ (ok_holds _ _ Hok)) by lia.
  rewrite Nat2Z.id, Hl. done.
Qed.

Lemma sorted_lookup_lt l (i j : nat) h h' : StronglySorted (fun h h' => h.(id) < h'.(id)) l ->
  l !! i = Some h -> l !! j = Some h' -> (i < j)%nat -> h.(id) < h'.(id).
Proof.
  intros Hs Hi Hj Hlt.
  apply (sorted_rd_lt (fun h h' => h.(id) < h'.(id)) l (Z.of_nat i) (Z.of_nat j)); [done|by apply rd_nat|by apply rd_nat|lia].
Qed.

Lemma ok_same_id s l h h' : ok s l -> h ∈ l -> h' ∈ l -> h.(id) = h'.(id) -> h = h'.
Proof.
  intros Hok (i & Hi)%list_elem_of_lookup_1 (j & Hj)%list_elem_of_lookup_1 E.
  destruct (Nat.lt_trichotomy i j) as [Hlt|[->|Hlt]]; [|congruence|].
  - pose proof (sorted_lookup_lt l i j h h' (ok_sorted _ _ Hok) Hi Hj Hlt). lia.
  - pose proof (sorted_lookup_lt l j i h' h (ok_sorted _ _ Hok) Hj Hi Hlt). lia.
Qed.

Lemma ok_log s l h f : ok s l -> ok (log_call h f s) l.
Proof. intros [Hh Hs Hi Hc]. by split. Qed.

Lemma evolves_refl s l : ok s l -> evolves s l s l.
Proof. by split. Qed.
Lemma evolves_trans s1 l1 s2 l2 s3 l3 : evolves s1 l1 s2 l2 -> evolves s2 l2 s3 l3 -> evolves s1 l1 s3 l3.
Proof. intros [O1 C1 E1 L1] [O2 C2 E2 L2]. split; [done|lia| |congruence]. intros h Hh Hid. apply E1; [apply E2|]; lia || done. Qed.

(** ** Registering and unregistering *)
Section Ops.
Context (malloc_ok : Z -> bool) (malloc_max : forall n, malloc_ok n = true -> n < 2 ^ 63).

Lemma ok_atfork0 : ok atfork0 [].
Proof.
  split; [left; split|constructor|constructor|]; cbn -[Z.pow]; try lia.
  split; [done|]. split; [lia|]. split; [lia|done].
Qed.

Lemma evolves_lost s l s1 d : ok s l -> s1.(fork_handler_counter) = s.(fork_handler_counter) ->
  s1.(f_log) = s.(f_log) -> represents d None -> evolves s l (set_handlers d s1) [].
Proof.
  intros Hok Hc Hl Hr. split; cbn; [|lia|by intros h Hh%elem_of_nil|done].
  split; [by right|constructor|constructor|]. cbn. rewrite Hc. apply Hok.
Qed.

(** A handler is added at the end; when there is no memory all are lost. *)
Lemma register_spec s l p q c d : ok s l -> s.(fork_handler_counter) + 1 < 2 ^ 64 ->
  exists r s' l', __register_atfork malloc_ok p q c d s = Ret r s' /\ evolves s l s' l' /\
    (r = 0 /\ l' = l ++ [mkHandler p q c d (s.(fork_handler_counter) + 1)] \/
     r = ENOMEM /\ l' = [] /\ (l = [] \/ ~ ((forall n, n < 2 ^ 62 -> malloc_ok n = true) /\ Z.of_nat (length l) < 2 ^ 40))).
Proof.
  intros Hok Hc. unfold __register_atfork.
  set (s1 := if s.(fork_handler_counter) =? 0 then set_handlers (dyn_init 48) s else s).
  assert (Hok1 : ok s1 l).
  { unfold s1. destruct (Z.eqb_spec s.(fork_handler_counter) 0) as [E|]; [|done].
    assert (l = []) as ->. { destruct l as [|h l]; [done|]. pose proof (Forall_inv (ok_ids _ _ Hok)). cbn beta in *. lia. }
    split; [left|constructor|constructor|apply Hok]. apply (init_represents 40 48); lia. }
  assert (Hsame : s1.(fork_handler_counter) = s.(fork_handler_counter) /\ s1.(f_log) = s.(f_log)).
  { unfold s1. by destruct (_ =? 0). }
  destruct Hsame as [Hcnt Hlog].
  assert (E1 : forall k : unit -> M atfork Z, (when (s.(fork_handler_counter) =? 0) (modify (set_handlers (dyn_init 48))) ≫= k) s = k tt s1).
  { intros k. unfold s1, when, mbind, M_bind. by destruct (_ =? 0). }
  unfold mbind at 1, M_bind at 1, gets at 1. rewrite E1. clear E1. unfold mbind, M_bind, gets, lift. rewrite Hcnt.
  set (h := mkHandler p q c d (s.(fork_handler_counter) + 1)).
  assert (Hr : exists lo, represents s1.(fork_handlers) lo /\ l = default [] lo).
  { destruct (ok_holds _ _ Hok1) as [Hr|[Hr ->]]; [by exists (Some l)|by exists None]. }
  destruct Hr as (lo & Hr & ->).
  destruct (emplace_represents sizeof_fork_handler 48 malloc_ok ltac:(unfold sizeof_fork_handler; lia) malloc_max _ _ h Hr)
    as (d' & okb & -> & He). destruct Hok1 as [_ Hs Hi _].
  destruct okb, lo as [l|]; cbn [default] in *; try done.
  - rewrite (proj2 (Z.leb_gt _ _)) by lia. do 2 eexists. exists (l ++ [h]). split; [done|]. split; [|by left].
    split; cbn [fork_handler_counter f_log set_counter set_handlers modify].
    + split; [by left| | |cbn; destruct (ok_counter _ _ Hok); lia].
      * apply StronglySorted_app_2; [|done|repeat constructor].
        intros x y Hx ->%list_elem_of_singleton. rewrite Forall_forall in Hi. specialize (Hi _ Hx). cbn. lia.
      * apply Forall_app. split; [eapply Forall_impl; [exact Hi|cbn; lia]|].
        constructor; [cbn; destruct (ok_counter _ _ Hok); lia|constructor].
    + lia.
    + intros x [Hx| ->%list_elem_of_singleton]%elem_of_app Hid; [done|]. cbn in Hid. lia.
    + done.
  - destruct He as (He & Hfull & Hno). do 2 eexists. exists []. split; [done|]. split; [by apply evolves_lost|].
    right. split; [done|]. split; [done|]. right. intros [Hm Hl].
    pose proof (represents_length _ _ Hr). pose proof (dr_state _ _ Hr) as (_ & Ha & _).
    unfold Datatypes.id in Hl.
    apply (enlarge_ok sizeof_fork_handler 48 malloc_ok) with (d := s1.(fork_handlers)); try done; unfold sizeof_fork_handler; lia.
  - do 2 eexists. exists []. split; [done|]. split; [by apply evolves_lost|]. right. auto.
Qed.

End Ops.

(** *** Unregistering is a filter *)
Section Unregister.
Context (dso : Z).
Abbreviation other := (fun h => h.(dso_handle) <> dso).

Lemma fork_find_spec s l : represents s.(fork_handlers) (Some l) -> forall rest pre, l = pre ++ rest ->
  fork_handler_list_find (length rest) (Z.of_nat (length pre)) s.(fork_handlers) dso = Ok None /\ Forall other rest \/
  exists p h post, rest = p ++ h :: post /\ Forall other p /\ h.(dso_handle) = dso /\
    fork_handler_list_find (length rest) (Z.of_nat (length pre)) s.(fork_handlers) dso = Ok (Some (Z.of_nat (length (pre ++ p)))).
Proof.
  intros Hr rest. induction rest as [|h rest IH]; intros pre Hl; cbn [fork_handler_list_find length].
  { left. split; [done|constructor]. }
  rewrite (at_represents _ _ _ Hr) by lia. rewrite Nat2Z.id.
  rewrite Hl, lookup_app_r, Nat.sub_diag by lia. cbn [lookup list_lookup mbind res_bind].
  destruct (Z.eqb_spec h.(dso_handle) dso) as [E|Hne].
  - right. exists [], h, rest. rewrite app_nil_r. done.
  - destruct (IH (pre ++ [h])) as [[Hf Hall]|(p & h' & post & -> & Hp & E & Hf)]; [by rewrite <- app_assoc| |].
    + left. rewrite length_app in Hf. cbn [length] in Hf. replace (Z.of_nat (length pre) + 1) with (Z.of_nat (length pre + 1)) by lia.
      split; [done|by constructor].
    + right. exists (h :: p), h', post. rewrite <- app_assoc, (length_app pre [h]) in Hf. cbn [length] in Hf.
      replace (Z.of_nat (length pre) + 1) with (Z.of_nat (length pre + 1)) by lia.
      split; [done|]. split; [by constructor|]. split; [done|]. exact Hf.
Qed.

(** The kept handlers slide over the gap [J]. *)
Lemma compact_spec R : forall K J tail, (0 < length J)%nat ->
  exists J', compact (length R) ((Some <$> K) ++ J ++ (Some <$> R) ++ tail) (Z.of_nat (length K)) (Z.of_nat (length K + length J)) dso
    = Ok ((Some <$> (K ++ filter other R)) ++ J' ++ tail, Z.of_nat (length (K ++ filter other R))) /\
    (length K + length J + length R = length (K ++ filter other R) + length J')%nat.
Proof.
  induction R as [|h R IH]; intros K J tail HJ; cbn [compact length].
  { exists J. rewrite filter_nil, app_nil_r. cbn [fmap list_fmap app]. split; [done|lia]. }
  assert (Hrd : rd ((Some <$> K) ++ J ++ (Some <$> h :: R) ++ tail) (Z.of_nat (length K + length J)) = Ok (Some h)).
  { apply rd_nat. rewrite lookup_app_r, length_fmap by (rewrite length_fmap; lia).
    rewrite lookup_app_r by lia. replace (length K + length J - length K - length J)%nat with 0%nat by lia. done. }
  rewrite Hrd. cbn [mbind res_bind res_of_option].
  replace (Z.of_nat (length K + length J) + 1) with (Z.of_nat (length K + S (length J))) by lia.
  destruct (Z.eqb_spec h.(dso_handle) dso) as [E|Hne]; cbn [negb].
  - rewrite filter_cons_False by (by intros H; apply H).
    destruct (IH K (J ++ [Some h]) tail) as (J' & Hc & Hlen); [rewrite length_app; cbn; lia|].
    rewrite length_app in Hc, Hlen. cbn [length] in Hc, Hlen. rewrite Nat.add_1_r in Hc. rewrite <- app_assoc in Hc.
    exists J'. split; [exact Hc|lia].
  - rewrite filter_cons_True by done. destruct J as [|j J]; [cbn in HJ; lia|].
    rewrite wr_Ok by (rewrite !length_app, length_fmap; cbn [length]; lia). cbn [mbind res_bind].
    rewrite Nat2Z.id, insert_app_r_alt, length_fmap, Nat.sub_diag by (rewrite length_fmap; lia). cbn [insert list_insert app].
    destruct (IH (K ++ [h]) (J ++ [Some h]) tail) as (J' & Hc & Hlen); [rewrite length_app; cbn; lia|].
    rewrite !length_app in Hc. rewrite !length_app in Hlen. cbn [length] in Hc, Hlen.
    exists J'. rewrite <- !app_assoc in Hc. cbn [app] in Hc. rewrite fmap_app, <- app_assoc in Hc.
    replace (Z.of_nat (length K) + 1) with (Z.of_nat (length K + 1)) by lia.
    replace (length K + S (length (j :: J)))%nat with (length K + 1 + (length J + 1))%nat by (cbn; lia).
    split; [|rewrite !length_app in *; cbn [length] in *; lia]. etrans; [exact Hc|]. do 2 f_equal. rewrite length_app. cbn [length]. lia.
Qed.

Lemma remove_last_iter n : forall d : dynarray (A := fork_handler), Z.of_nat n <= d.(used) ->
  Nat.iter n remove_last d = {| used := d.(used) - Z.of_nat n; allocated := d.(allocated); array := d.(array); heap := d.(heap) |}.
Proof.
  induction n as [|n IH]; intros d Hn.
  - cbn. rewrite Z.sub_0_r. by destruct d.
  - rewrite Nat.iter_succ, IH by lia. unfold remove_last. cbn [used allocated array heap].
    rewrite (proj2 (Z.ltb_lt _ _)) by lia. f_equal. lia.
Qed.

Lemma filter_all l : Forall other l -> filter other l = l.
Proof. induction 1 as [|h l Hh Hl IH]; [done|]. by rewrite filter_cons_True, IH. Qed.
Lemma sorted_filter l : StronglySorted (fun h h' => h.(id) < h'.(id)) l ->
  StronglySorted (fun h h' => h.(id) < h'.(id)) (filter other l).
Proof.
  induction 1 as [|h l Hs IH Hall]; [constructor|]. rewrite filter_cons. case_decide; [|done].
  constructor; [done|]. rewrite Forall_forall in Hall. apply Forall_forall. intros x [_ Hx]%list_elem_of_filter. auto.
Qed.

Lemma unregister_list s l : represents s.(fork_handlers) (Some l) ->
  exists d, __unregister_atfork dso s = Ret tt (set_handlers d s) /\ represents d (Some (filter other l)).
Proof.
  intros Hr. pose proof (represents_length _ _ Hr) as Hlen. unfold __unregister_atfork.
  unfold mbind, M_bind, gets. unfold dyn_size. rewrite Hlen, Nat2Z.id.
  destruct (fork_find_spec s l Hr l [] eq_refl) as [[Hf Hall]|(p & h & post & E & Hp & Hd & Hf)]; cbn [length] in Hf.
  - change (Z.of_nat 0) with 0 in Hf. rewrite Hf. cbn [lift]. exists s.(fork_handlers). rewrite filter_all by done. by destruct s.
  - change (Z.of_nat 0) with 0 in Hf. rewrite Hf. cbn [lift app].
    destruct (dr_state _ _ Hr) as (Hnf & Ha & Hla & Hc).
    assert (Harr : s.(fork_handlers).(array) = (Some <$> p) ++ [Some h] ++ (Some <$> post) ++ drop (length l) s.(fork_handlers).(array)).
    { rewrite <- (take_drop (length l) s.(fork_handlers).(array)) at 1. unfold contents in Hc. rewrite Hlen, Nat2Z.id in Hc.
      rewrite Hc, E, fmap_app, fmap_cons, <- app_assoc. done. }
    rewrite Harr. replace (Z.to_nat (Z.of_nat (length l) - (Z.of_nat (length p) + 1))) with (length post) by (rewrite E, length_app; cbn; lia).
    destruct (compact_spec post p [Some h] (drop (length l) s.(fork_handlers).(array))) as (J' & Hcp & Hl'); [cbn; lia|].
    cbn [length] in Hcp. replace (Z.of_nat (length p) + 1) with (Z.of_nat (length p + 1)) by lia. rewrite Hcp. cbn [lift modify].
    assert (Hfl : filter other l = p ++ filter other post).
    { rewrite E, filter_app, filter_all by done. rewrite filter_cons_False by (by intros H; apply H). done. }
    cbn [length] in Hl'. pose proof (f_equal length E) as El. rewrite length_app in El. cbn [length] in El.
    rewrite remove_last_iter by (cbn [used]; lia). cbn [used allocated array heap].
    eexists. split; [done|]. rewrite Hfl.
    assert (Hlar : (length l <= length s.(fork_handlers).(array))%nat). { pose proof (dr_used _ _ Hr). lia. }
    split; cbn [used allocated array heap].
    + rewrite !length_app, length_fmap, length_drop. rewrite length_app in *. lia.
    + split; [done|]. split; [done|]. split; [rewrite !length_app, length_fmap, length_drop; rewrite length_app in *; lia|].
      unfold contents; cbn [used array]. rewrite take_app_le by (rewrite length_fmap; lia).
      apply take_ge. rewrite length_fmap. lia.
Qed.

Lemma unregister_spec s l : ok s l -> exists s', __unregister_atfork dso s = Ret tt s' /\ evolves s l s' (filter other l).
Proof.
  intros [[Hr|[Hr ->]] Hs Hi Hc].
  - destruct (unregister_list s l Hr) as (d & -> & Hd). eexists. split; [done|]. split; cbn; [|lia| |done].
    + split; [by left|by apply sorted_filter| |done]. rewrite Forall_forall in Hi |- *. intros h [_ Hh]%list_elem_of_filter. by apply Hi.
    + by intros h [_ Hh]%list_elem_of_filter.
  - exists s. split; [|apply evolves_refl; split; [by right|constructor|constructor|done]].
    unfold __unregister_atfork, mbind, M_bind, gets, dyn_size. destruct (dr_state _ _ Hr) as [_ ->]. done.
Qed.

End Unregister.

(** ** After the fork *)
Section Postfork.
Context (callee : Z -> atfork -> atfork) (who : run_fork_handler_type) (lastrun : Z).
(** Handlers only register and unregister handlers. *)
Hypothesis callee_evolves : forall f s l, ok s l -> exists l', evolves s l (callee f s) l'.

Definition handler_of (h : fork_handler) : Z :=
  match who with atfork_run_prepare => 0 | atfork_run_child => h.(child_handler) | atfork_run_parent => h.(parent_handler) end.
Definition calls (ran : list fork_handler) : list (Z * Z) :=
  (fun h => (h.(id), handler_of h)) <$> filter (fun h => handler_of h <> 0) ran.

(** [i] separates the handlers up to [cur] from the later ones. *)
Definition split_at (l : list fork_handler) (cur : Z) (i : nat) : Prop :=
  forall j h, l !! j = Some h -> ((j < i)%nat <-> h.(id) <= cur).

Lemma first_newer_spec s l cur : ok s l -> forall rest pre, l = pre ++ rest ->
  Forall (fun h => h.(id) <= cur) pre ->
  exists i, first_newer (length rest) (Z.of_nat (length pre)) cur s = Ret (Z.of_nat i) s /\ split_at l cur i.
Proof.
  intros Hok rest. induction rest as [|h rest IH]; intros pre Hl Hpre; cbn [first_newer length].
  - exists (length pre). split; [done|]. intros j x Hj. rewrite app_nil_r in Hl. subst l.
    rewrite Forall_lookup in Hpre. split; [|by apply lookup_lt_Some in Hj]. eauto.
  - assert (Hh : l !! length pre = Some h) by (rewrite Hl; by apply list_lookup_middle).
    rewrite (M_bind_step _ _ _ _ _ (at_lookup _ _ _ _ Hok Hh)). destruct (Z.ltb_spec cur h.(id)) as [Hgt|Hle].
    + exists (length pre). split; [done|]. intros j x Hj. split.
      * intros Hlt. rewrite Hl, lookup_app_l in Hj by done. rewrite Forall_lookup in Hpre. eauto.
      * intros Hx. destruct (Nat.lt_ge_cases j (length pre)) as [|Hge]; [done|]. exfalso.
        destruct (decide (j = length pre)) as [->|]; [assert (x = h) by congruence; subst; lia|].
        pose proof (sorted_lookup_lt l (length pre) j h x (ok_sorted _ _ Hok) Hh Hj). lia.
    + destruct (IH (pre ++ [h])) as (i & Hi & Hs); [by rewrite <- app_assoc|apply Forall_app; by repeat constructor|].
      exists i. rewrite length_app in Hi. cbn [length] in Hi.
      replace (Z.of_nat (length pre) + 1) with (Z.of_nat (length pre + 1)) by lia. done.
Qed.

(** One handler is run. *)
Lemma run_one s l h f : ok s l -> exists s' l',
  when (negb (f =? 0)) (call_handler callee h f) s = Ret tt s' /\ ok s' l' /\
  s.(fork_handler_counter) <= s'.(fork_handler_counter) /\
  (forall x, x ∈ l' -> x.(id) <= s.(fork_handler_counter) -> x ∈ l) /\
  s'.(f_log) = s.(f_log) ++ (if decide (f <> 0) then [(h.(id), f)] else []).
Proof.
  intros Hok. destruct (Z.eqb_spec f 0) as [->|Hne]; cbn [when negb].
  - exists s, l. rewrite decide_False by lia. rewrite app_nil_r. split; [done|]. split; [done|]. split; [lia|]. done.
  - rewrite decide_True by done. destruct (callee_evolves f (log_call h f s) l (ok_log _ _ _ _ Hok)) as (l' & [O C E L]).
    exists (callee f (log_call h f s)), l'. split; [done|]. done.
Qed.

Lemma calls_cons h ran : calls (h :: ran) =
  (if decide (handler_of h <> 0) then [(h.(id), handler_of h)] else []) ++ calls ran.
Proof. unfold calls. rewrite filter_cons. by destruct (decide _). Qed.

(** The handlers [more] have been run: in order, each one among those that were
    there, and all that are still there. *)
Definition ran_until (s : atfork) (l : list fork_handler) (cur : Z) (ran : list fork_handler) (o : outcome atfork unit) : Prop :=
  exists s' l' more, o = Ret tt s' /\ ok s' l' /\ s'.(f_log) = s.(f_log) ++ calls more /\
    StronglySorted (fun h h' => h.(id) < h'.(id)) more /\
    Forall (fun h => cur < h.(id) <= lastrun /\ h ∈ l) more /\
    (forall h, h ∈ l' -> h.(id) <= lastrun -> h ∈ l /\ h ∈ ran ++ more).

Lemma ran_done s l cur ran : ok s l -> (forall h, h ∈ l -> h.(id) <= cur -> h ∈ ran) ->
  (forall h, h ∈ l -> h.(id) <= lastrun -> h.(id) <= cur) -> ran_until s l cur ran (Ret tt s).
Proof.
  intros Hok Hran Hall. exists s, l, []. split; [done|]. split; [done|]. split; [symmetry; apply app_nil_r|].
  split; [constructor|]. split; [constructor|]. intros h Hh Hid. rewrite app_nil_r. auto.
Qed.

(** The handler run moves up when others go; the next one is the first that is newer. *)
Lemma next_handler s l (i : nat) runp : ok s l ->
  exists i', (same ← (if Z.of_nat i <? Z.of_nat (length l) then h ← at_ (Z.of_nat i); mret (h.(id) =? runp.(id)) else mret false);
      if (same : bool) then mret (Z.of_nat i + 1) else first_newer (Z.to_nat (Z.of_nat (length l))) 0 runp.(id)) s
      = Ret (Z.of_nat i') s /\ split_at l runp.(id) i'.
Proof.
  intros Hok. destruct (first_newer_spec s l runp.(id) Hok l []) as (k & Hk & Hsk); [done|constructor|].
  cbn [length] in Hk. change (Z.of_nat 0) with 0 in Hk. rewrite Nat2Z.id.
  destruct (Z.ltb_spec (Z.of_nat i) (Z.of_nat (length l))) as [Hlt|Hge].
  - destruct (lookup_lt_is_Some_2 l i) as [h Hh]; [lia|].
    unfold mbind, M_bind. rewrite (at_lookup _ _ _ _ Hok Hh). cbn [mret M_ret].
    destruct (Z.eqb_spec h.(id) runp.(id)) as [E|]; [|by exists k]. exists (S i). split; [unfold mret, M_ret; f_equal; lia|].
    intros j x Hj. rewrite <- E. split.
    + intros Hle. destruct (decide (j = i)) as [->|]; [assert (x = h) by congruence; subst; lia|].
      pose proof (sorted_lookup_lt l j i x h (ok_sorted _ _ Hok) Hj Hh). lia.
    + intros Hid. destruct (Nat.lt_ge_cases j (S i)) as [|Hgt]; [done|]. exfalso.
      pose proof (sorted_lookup_lt l i j h x (ok_sorted _ _ Hok) Hh Hj). lia.
  - exists k. done.
Qed.

Lemma postfork_loop_spec fuel : forall s l i cur ran, ok s l -> lastrun <= s.(fork_handler_counter) ->
  split_at l cur i -> (forall h, h ∈ l -> h.(id) <= cur -> h ∈ ran) -> lastrun - cur < Z.of_nat fuel -> (0 < fuel)%nat ->
  ran_until s l cur ran (postfork_loop callee fuel who lastrun (Z.of_nat i) s).
Proof.
  induction fuel as [|fuel IH]; intros s l i cur ran Hok Hlast Hsplit Hran Hf Hf0; [lia|]. cbn [postfork_loop].
  unfold mbind at 1, M_bind at 1, gets at 1. rewrite (holds_size _ _ (ok_holds _ _ Hok)).
  destruct (Z.leb_spec (Z.of_nat (length l)) (Z.of_nat i)) as [Hend|Hin].
  { apply ran_done; [done|done|]. intros h (j & Hj)%list_elem_of_lookup_1 Hid. apply (Hsplit j h Hj). apply lookup_lt_Some in Hj. lia. }
  destruct (lookup_lt_is_Some_2 l i) as [runp Hr]; [lia|].
  rewrite (M_bind_step _ _ _ _ _ (at_lookup _ _ _ _ Hok Hr)).
  assert (Hnew : cur < runp.(id)) by (pose proof (Hsplit i runp Hr); lia).
  assert (Hpos : forall h, h ∈ l -> cur < h.(id) -> h = runp \/ runp.(id) < h.(id)).
  { intros h (j & Hj)%list_elem_of_lookup_1 Hid. destruct (Nat.lt_trichotomy j i) as [Hlt|[->|Hlt]].
    - pose proof (proj1 (Hsplit j h Hj) Hlt). lia.
    - left. congruence.
    - right. apply (sorted_lookup_lt l i j _ _ (ok_sorted _ _ Hok) Hr Hj Hlt). }
  destruct (Z.ltb_spec lastrun runp.(id)) as [Hgt|Hle].
  { apply ran_done; [done|done|]. intros h Hh Hid. destruct (Z.le_gt_cases h.(id) cur) as [|Hc]; [done|].
    destruct (Hpos h Hh Hc) as [->|]; lia. }
  fold (handler_of runp). destruct (run_one s l runp (handler_of runp) Hok) as (s1 & l1 & Hrun & Hok1 & Hc1 & Hold & Hlog).
  rewrite (M_bind_step _ _ _ _ _ Hrun). unfold mbind at 1, M_bind at 1, gets at 1. rewrite (holds_size _ _ (ok_holds _ _ Hok1)).
  destruct (next_handler s1 l1 i runp Hok1) as (i' & Hi' & Hs'). apply M_bind_Ret_inv in Hi' as (b & s2 & Hb & Hi').
  assert (s2 = s1) as ->.
  { destruct (_ <? _) in Hb; [|by injection Hb]. unfold at_ in Hb. inv_res. done. }
  rewrite (M_bind_step _ _ _ _ _ Hb), (M_bind_step _ _ _ _ _ Hi').
  assert (Hin1 : forall h, h ∈ l1 -> h.(id) <= lastrun -> h ∈ l) by (intros h Hh Hid; apply Hold; [done|lia]).
  destruct (IH s1 l1 i' runp.(id) (ran ++ [runp])) as (s' & l' & more & Hrest & Hok' & Hlog' & Hsort & Hall & Hfin); try done; try lia.
  { intros h Hh Hid. apply elem_of_app. assert (Hhl : h ∈ l) by (apply Hin1; [done|lia]).
    destruct (Z.le_gt_cases h.(id) cur) as [|Hc]; [left; by apply Hran|]. right.
    destruct (Hpos h Hhl Hc) as [->|]; [apply list_elem_of_here|lia]. }
  exists s', l', (runp :: more). split; [done|]. split; [done|]. split; [|split; [|split]].
  - rewrite calls_cons, app_assoc, <- Hlog. done.
  - constructor; [done|]. eapply Forall_impl; [exact Hall|]. cbn. lia.
  - constructor; [split; [lia|]; by eapply list_elem_of_lookup_2|]. rewrite Forall_forall in Hall |- *. intros h Hh.
    destruct (Hall h Hh) as [Hid Hm]. split; [lia|]. apply Hin1; [done|lia].
  - intros h Hh Hid. destruct (Hfin h Hh Hid) as [H1 H2]. split; [by apply Hin1|]. by rewrite <- app_assoc in H2.
Qed.

(** After a fork, whatever handlers are registered and unregistered meanwhile,
    the parent (child) handlers run in the order of registration, only those
    that took part in the preparation ([id] at most [lastrun]) and were
    registered, and every such handler that is still registered at the end has run exactly
    once; the walk ends and never leaves the array. *)
Theorem postfork_in_order s l : ok s l -> 0 <= lastrun <= s.(fork_handler_counter) ->
  exists s' l' ran, __run_postfork_handlers callee who lastrun s = Ret tt s' /\ ok s' l' /\
    s'.(f_log) = s.(f_log) ++ calls ran /\
    StronglySorted (fun h h' => h.(id) < h'.(id)) ran /\
    Forall (fun h => h.(id) <= lastrun /\ h ∈ l) ran /\
    (forall h, h ∈ l' -> h.(id) <= lastrun -> h ∈ ran).
Proof.
  intros Hok Hl. destruct (postfork_loop_spec (S (S (Z.to_nat lastrun))) s l 0 0 []) as (s' & l' & ran & H1 & H2 & H3 & H4 & H5 & H6);
    try done; try lia.
  - intros j h Hj. pose proof (Forall_lookup_1 _ _ _ _ (ok_ids _ _ Hok) Hj). cbn beta in *. lia.
  - intros h Hh Hid. pose proof (proj1 (Forall_forall _ _) (ok_ids _ _ Hok) h Hh). cbn beta in *. lia.
  - exists s', l', ran. split; [exact H1|]. split; [done|]. split; [done|]. split; [done|]. split.
    + eapply Forall_impl; [exact H5|]. cbn. naive_solver.
    + intros h Hh Hid. by apply (H6 h Hh Hid).
Qed.

End Postfork.

(** ** Before the fork *)
Section Prefork.
Context (callee : Z -> atfork -> atfork).

Definition prepared (l : list fork_handler) : list (Z * Z) :=
  (fun h => (h.(id), h.(prepare_handler))) <$> filter (fun h => h.(prepare_handler) <> 0) l.

Lemma prepared_snoc l h : prepared (reverse (l ++ [h])) =
  (if decide (h.(prepare_handler) <> 0) then [(h.(id), h.(prepare_handler))] else []) ++ prepared (reverse l).
Proof. unfold prepared. rewrite reverse_snoc, filter_cons. by destruct (decide _). Qed.

Lemma skip_newer_stop s l (i : nat) last : ok s l -> (i <= length l)%nat ->
  (forall h, i <> O -> l !! (i - 1)%nat = Some h -> h.(id) < last) -> skip_newer i last s = Ret i s.
Proof.
  intros Hok Hi Hlt. destruct i as [|i]; [done|]. cbn [skip_newer].
  destruct (lookup_lt_is_Some_2 l i) as [h Hh]; [lia|]. rewrite (M_bind_step _ _ _ _ _ (at_lookup _ _ _ _ Hok Hh)).
  rewrite (proj2 (Z.leb_gt _ _)); [done|]. apply Hlt; [lia|]. by replace (S i - 1)%nat with i by lia.
Qed.

Section Registering.
(** Handlers only register handlers. *)
Hypothesis callee_extends : forall f s l, ok s l -> exists new, ok (callee f s) (l ++ new) /\ (callee f s).(f_log) = s.(f_log).

Lemma prefork_loop_spec fuel : forall s l rest, ok s (l ++ rest) -> (length l < fuel)%nat ->
  exists s' new, prefork_loop callee fuel (length l) s = Ret tt s' /\ ok s' ((l ++ rest) ++ new) /\
    s'.(f_log) = s.(f_log) ++ prepared (reverse l).
Proof.
  induction fuel as [|fuel IH]; intros s l rest Hok Hf; [lia|]. cbn [prefork_loop].
  destruct l as [|h l _] using rev_ind.
  { exists s, []. split; [done|]. split; [by rewrite app_nil_r|]. by rewrite reverse_nil, app_nil_r. }
  rewrite length_app, Nat.add_comm in *. cbn [length Nat.add] in *. rewrite <- app_assoc in Hok.
  assert (Hh : (l ++ [h] ++ rest) !! length l = Some h) by (by apply list_lookup_middle).
  rewrite (M_bind_step _ _ _ _ _ (at_lookup _ _ _ _ Hok Hh)).
  assert (Hrun : exists s1 new, when (negb (h.(prepare_handler) =? 0)) (call_handler callee h h.(prepare_handler)) s = Ret tt s1 /\
    ok s1 (l ++ new) /\ (exists new', new = h :: rest ++ new') /\
    s1.(f_log) = s.(f_log) ++ (if decide (h.(prepare_handler) <> 0) then [(h.(id), h.(prepare_handler))] else [])).
  { destruct (Z.eqb_spec h.(prepare_handler) 0) as [E|Hne]; cbn [negb when].
    - exists s, (h :: rest). rewrite decide_False by lia. rewrite app_nil_r. split; [done|]. split; [done|]. split; [exists []; by rewrite app_nil_r|done].
    - destruct (callee_extends h.(prepare_handler) (log_call h h.(prepare_handler) s) _ (ok_log _ _ _ _ Hok)) as (new & Hn & Hlog).
      exists (callee h.(prepare_handler) (log_call h h.(prepare_handler) s)), (h :: rest ++ new).
      rewrite decide_True by done. split; [done|]. rewrite <- !app_assoc in Hn. split; [exact Hn|]. split; [by exists new|done]. }
  destruct Hrun as (s1 & new & Hr & Hok1 & (new' & ->) & Hlog). rewrite (M_bind_step _ _ _ _ _ Hr).
  assert (Hskip : skip_newer (length l) h.(id) s1 = Ret (length l) s1).
  { apply (skip_newer_stop _ _ _ _ Hok1); [rewrite length_app; lia|]. intros x Hne Hx.
    assert (Hh1 : (l ++ h :: rest ++ new') !! length l = Some h) by (by apply list_lookup_middle).
    apply (sorted_lookup_lt _ _ _ _ _ (ok_sorted _ _ Hok1) Hx Hh1). lia. }
  rewrite (M_bind_step _ _ _ _ _ Hskip).
  destruct (IH s1 l (h :: rest ++ new') Hok1) as (s' & new & Hrest & Hok' & Hlog'); [lia|].
  exists s', (new' ++ new). split; [done|]. split.
  { replace (((l ++ [h]) ++ rest) ++ new' ++ new) with ((l ++ h :: rest ++ new') ++ new); [done|]. rewrite <- !app_assoc. cbn [app]. by rewrite <- app_assoc. }
  by rewrite prepared_snoc, app_assoc, <- Hlog.
Qed.

(** Before a fork the prepare handlers run in the reverse order of registration,
    each once; handlers that are registered meanwhile are not run, and
    the value returned keeps them out of the handlers run after the fork. *)
Theorem prefork_in_reverse s l : ok s l ->
  exists s' new, __run_prefork_handlers callee s = Ret s.(fork_handler_counter) s' /\ ok s' (l ++ new) /\
    s'.(f_log) = s.(f_log) ++ prepared (reverse l).
Proof.
  intros Hok. unfold __run_prefork_handlers. unfold mbind at 1 2, M_bind at 1 2, gets.
  rewrite (holds_size _ _ (ok_holds _ _ Hok)), Nat2Z.id.
  destruct (prefork_loop_spec (S (length l)) s l []) as (s' & new & Hr & Hok' & Hlog); [by rewrite app_nil_r|lia|].
  rewrite (M_bind_step _ _ _ _ _ Hr). exists s', new. rewrite app_nil_r in Hok'. done.
Qed.

End Registering.

(** A prepare handler that leaves the list more than one shorter (it
    unregisters the handlers of an object it unloads) makes the walk look
    past the end of the array, which terminates the process. *)
Theorem prefork_unregister_stops s l h l' : ok s (l ++ [h]) -> h.(prepare_handler) <> 0 ->
  ok (callee h.(prepare_handler) (log_call h h.(prepare_handler) s)) l' -> (length l' < length l)%nat ->
  __run_prefork_handlers callee s = Stop fatal_at.
Proof.
  intros Hok Hne Hok' Hlen. unfold __run_prefork_handlers. unfold mbind at 1 2, M_bind at 1 2, gets.
  rewrite (holds_size _ _ (ok_holds _ _ Hok)), Nat2Z.id. rewrite length_app, Nat.add_comm. cbn [Nat.add length prefork_loop].
  assert (Hh : (l ++ [h]) !! length l = Some h) by (by apply list_lookup_middle).
  unfold mbind, M_bind. rewrite (at_lookup _ _ _ _ Hok Hh), (proj2 (Z.eqb_neq _ _) Hne). cbn [negb when].
  unfold call_handler, mbind, M_bind, modify. destruct (length l) as [|n] eqn:En; [lia|]. cbn [skip_newer].
  unfold mbind, M_bind. by rewrite (at_none _ l' n Hok') by (apply lookup_ge_None_2; lia).
Qed.

End Prefork.

(** Unregistering an object removes exactly its handlers and keeps the others in order. *)
Theorem unregister_filters dso s l : ok s l ->
  exists s', __unregister_atfork dso s = Ret tt s' /\ ok s' (filter (fun h => h.(dso_handle) <> dso) l).
Proof. intros Hok. destruct (unregister_spec dso s l Hok) as (s' & ? & []). eauto. Qed.

Module Example10.

Definition memory (n : Z) : bool := n <? 2 ^ 62.
Lemma memory_max n : memory n = true -> n < 2 ^ 63.
Proof. unfold memory. intros H%Z.ltb_lt. lia. Qed.

(** Three handlers, the last two of the object at 77. *)
Definition h1 := mkHandler 101 201 301 0 1.
Definition h2 := mkHandler 102 202 302 77 2.
Definition h3 := mkHandler 103 203 303 77 3.
Definition s3 : atfork := mkAtfork
  {| used := 3; allocated := 3; array := [Some h1; Some h2; Some h3]; heap := true |} 3 [].
Lemma s3_ok : ok s3 [h1; h2; h3].
Proof.
  split; [left; split| | |cbn; lia].
  - cbn. lia.
  - split; [reflexivity|]. split; [cbn; lia|]. split; reflexivity.
  - repeat constructor; cbn; lia.
  - repeat constructor; cbn; lia.
Qed.

Definition state_of {A} (s : atfork) (o : outcome atfork A) : atfork := match o with Ret _ s' => s' | _ => s end.

(** 201 unregisters the handlers of object 77. *)
Definition unloads (f : Z) (s : atfork) : atfork :=
  if f =? 201 then state_of s (__unregister_atfork 77 s) else s.

Lemma unloads_evolves f s l : ok s l -> exists l', evolves s l (unloads f s) l'.
Proof.
  intros Hok. unfold unloads. destruct (f =? 201); [|by exists l; apply evolves_refl].
  destruct (unregister_spec 77 s l Hok) as (s' & -> & He). eauto.
Qed.

Lemma postfork_in_order_witness :
  (state_of s3 (__run_postfork_handlers unloads atfork_run_parent 3 s3)).(f_log) = [(1, 201)] /\
  exists s' l' ran, __run_postfork_handlers unloads atfork_run_parent 3 s3 = Ret tt s' /\ ok s' l' /\
    s'.(f_log) = s3.(f_log) ++ calls atfork_run_parent ran /\
    StronglySorted (fun h h' => h.(id) < h'.(id)) ran /\
    Forall (fun h => h.(id) <= 3 /\ h ∈ [h1; h2; h3]) ran /\
    (forall h, h ∈ l' -> h.(id) <= 3 -> h ∈ ran).
Proof.
  split; [vm_compute; reflexivity|].
  apply (postfork_in_order unloads atfork_run_parent 3 unloads_evolves); [apply s3_ok|cbn; lia].
Defined.

(** 102 registers another handler. *)
Definition registers (f : Z) (s : atfork) : atfork :=
  if (f =? 102) && (s.(fork_handler_counter) =? 3) then state_of s (__register_atfork memory 104 0 0 0 s) else s.

Lemma ids_bound l : forall c, StronglySorted (fun h h' => h.(id) < h'.(id)) l -> Forall (fun h => c < h.(id) <= 3) l ->
  Z.of_nat (length l) <= Z.max 0 (3 - c).
Proof.
  induction l as [|h l IH]; intros c Hs Hi; cbn [length]; [lia|].
  apply StronglySorted_inv in Hs as [Hs Hh]. apply Forall_cons in Hi as [Hc Hi].
  specialize (IH h.(id) Hs). rewrite Forall_forall in Hh, Hi, IH.
  assert (Z.of_nat (length l) <= Z.max 0 (3 - h.(id))); [|lia]. apply IH. intros x Hx. specialize (Hh x Hx). specialize (Hi x Hx). lia.
Qed.

Lemma registers_extends f s l : ok s l -> exists new, ok (registers f s) (l ++ new) /\ (registers f s).(f_log) = s.(f_log).
Proof.
  intros Hok. unfold registers. destruct (_ && _) eqn:E; [|exists []; by rewrite app_nil_r]. zbool.
  destruct (register_spec memory memory_max s l 104 0 0 0 Hok) as (r & s' & l' & -> & [Hok' _ _ Hlog] & Hl'); [lia|].
  cbn [state_of]. destruct Hl' as [[_ ->]|(_ & -> & [->|Hno])]; [eauto|by exists []|]. exfalso. apply Hno. split.
  - intros n Hn. unfold memory. by apply Z.ltb_lt.
  - assert (Z.of_nat (length l) <= Z.max 0 (3 - 0)); [|lia]. apply (ids_bound l 0 (ok_sorted _ _ Hok)).
    eapply Forall_impl; [apply (ok_ids _ _ Hok)|]. cbn. lia.
Qed.

Lemma prefork_in_reverse_witness : exists s' new,
  __run_prefork_handlers registers s3 = Ret 3 s' /\ ok s' ([h1; h2; h3] ++ new) /\
  s'.(f_log) = [(3, 103); (2, 102); (1, 101)].
Proof. apply (prefork_in_reverse registers registers_extends s3 [h1; h2; h3] s3_ok). Defined.

(** 103 unloads the object of the last two handlers and of nothing else. *)
Definition unloads' (f : Z) (s : atfork) : atfork :=
  if f =? 103 then state_of s (__unregister_atfork 77 s) else s.

Lemma prefork_unregister_stops_witness : __run_prefork_handlers unloads' s3 = Stop fatal_at.
Proof.
  apply (prefork_unregister_stops unloads' s3 [h1; h2] h3 [h1]); [exact s3_ok|done| |cbn; lia].
  destruct (unregister_spec 77 (log_call h3 103 s3) _ (ok_log _ _ h3 103 s3_ok)) as (s' & Hu & [Hok' _ _ _]).
  unfold unloads'. cbn [prepare_handler h3 Z.eqb Pos.eqb]. rewrite Hu. exact Hok'.
Defined.

Lemma unregister_filters_witness : exists s', __unregister_atfork 77 s3 = Ret tt s' /\ ok s' [h1].
Proof. apply (unregister_filters 77 s3 [h1; h2; h3] s3_ok). Defined.

End Example10.
