(* ===== verification/ExitFuncs.v ===== *)
(** * Functions run at exit

    [stdlib/cxa_atexit.c], [on_exit.c], [atexit.c], [cxa_at_quick_exit.c],
    [at_quick_exit.c], [exit.c], [quick_exit.c], [cxa_finalize.c] and
    [cxa_thread_atexit_impl.c]: the functions annotated [callback_maybe] through
    which other code hands function pointers to libc, and the code that calls them.

    A chain of [struct exit_function_list] is the list of its blocks from
    [*listp] on.  What a called function does to this state is the parameter
    [callee]; the locks have no counterpart, one thread runs. *)

From S2P Require Import Prelude Dynarray AtFork.

(** ** Pointer mangling: [sysdeps/unix/sysv/linux/x86_64/pointer_guard.h] *)
Definition rol64 (x n : Z) : Z := Z.lor (u64 (Z.shiftl x n)) (Z.shiftr x (64 - n)).
Definition ror64 (x n : Z) : Z := rol64 x (64 - n).
Definition PTR_MANGLE (guard p : Z) : Z := rol64 (Z.lxor p guard) 17.
Definition PTR_DEMANGLE (guard p : Z) : Z := Z.lxor (ror64 p 17) guard.

(** ** Data *)
Inductive flavor_t := ef_free | ef_us | ef_on | ef_at | ef_cxa.
#[export] Instance flavor_eq_dec : EqDecision flavor_t.
Proof. solve_decision. Defined.

(** The members of the union share their words: [at] and both [fn] are the first, [arg] the second. *)
Record exit_function : Type := mkExit { flavor : flavor_t; u_fn : Z; u_arg : Z; u_dso : Z }.
Record block : Type := mkBlock { idx : nat; fns : list exit_function }.
Definition no_function : exit_function := mkExit ef_free 0 0 0.
Definition BLOCK_SIZE : nat := 32.
Definition empty_block : block := mkBlock 0 (replicate BLOCK_SIZE no_function).

Inductive call :=
| CallOn (fn status arg : Z)
| CallAt (fn : Z)
| CallCxa (fn arg status : Z)
| CallDtor (fn obj : Z)
| IO_cleanup
| Exit (status : Z).

(** [struct dtor_list] *)
Record dtor : Type := mkDtor { d_func : Z; d_obj : Z; d_map : Z }.

Record exits : Type := mkExits {
  __exit_funcs : list block;
  __quick_exit_funcs : list block;
  __exit_funcs_done : bool;
  __new_exitfn_called : Z;
  x_fork : atfork;
  tls_dtor_list : list dtor;
  dso_symbol_cache : Z;
  lm_cache : Z;
  l_tls_dtor_count : gmap Z Z;
  x_log : list call }.

(** Which list: [&__exit_funcs] or [&__quick_exit_funcs]. *)
Inductive listp_t := Funcs | Quick.
Definition blocks (p : listp_t) (s : exits) : list block :=
  match p with Funcs => s.(__exit_funcs) | Quick => s.(__quick_exit_funcs) end.
Definition set_blocks (p : listp_t) (l : list block) (s : exits) : exits :=
  let '(mkExits f q dn c fk t dc lc tc lg) := s in
  match p with Funcs => mkExits l q dn c fk t dc lc tc lg | Quick => mkExits f l dn c fk t dc lc tc lg end.
Definition set_done (s : exits) : exits :=
  let '(mkExits f q dn c fk t dc lc tc lg) := s in mkExits f q true c fk t dc lc tc lg.
Definition set_called (c : Z) (s : exits) : exits :=
  let '(mkExits f q dn _ fk t dc lc tc lg) := s in mkExits f q dn c fk t dc lc tc lg.
Definition set_fork (fk : atfork) (s : exits) : exits :=
  let '(mkExits f q dn c _ t dc lc tc lg) := s in mkExits f q dn c fk t dc lc tc lg.
Definition set_dtors (t : list dtor) (s : exits) : exits :=
  let '(mkExits f q dn c fk _ dc lc tc lg) := s in mkExits f q dn c fk t dc lc tc lg.
Definition set_lm_cache (m : Z) (s : exits) : exits :=
  let '(mkExits f q dn c fk t dc _ tc lg) := s in mkExits f q dn c fk t dc m tc lg.
Definition add_count (m n : Z) (s : exits) : exits :=
  let '(mkExits f q dn c fk t dc lc tc lg) := s in
  mkExits f q dn c fk t dc lc (<[m := u64 (default 0 (tc !! m) + n)]> tc) lg.
Definition add_log (c : call) (s : exits) : exits :=
  let '(mkExits f q dn cc fk t dc lc tc lg) := s in mkExits f q dn cc fk t dc lc tc (lg ++ [c]).

(** The process before anything is registered: the static blocks [initial] and [initial_quick]. *)
Definition exits0 : exits :=
  mkExits [empty_block] [empty_block] false 0 atfork0 [] 0 0 ∅ [].

Definition set_fn (i : nat) (f : exit_function) (b : block) : block := mkBlock b.(idx) (<[i := f]> b.(fns)).
Definition set_idx (i : nat) (b : block) : block := mkBlock i b.(fns).

Section ExitFuncs.
Context (guard : Z).
(** [calloc] succeeds. *)
Context (calloc_ok : exits -> bool).
(** [_dl_find_dso_for_object], and the main map. *)
Context (find_dso : Z -> option Z) (main_map : Z).
Context (callee : call -> exits -> exits).

(** A call to a foreign function, with the lists unlocked. *)
Definition foreign (c : call) : M exits unit := modify (add_log c);; modify (callee c).

(** ** Registration: [__new_exitfn] *)

(** [for (i = l->idx; i > 0; --i) if (l->fns[i - 1].flavor != ef_free) break;] *)
Fixpoint last_used (i : nat) (fns : list exit_function) : nat :=
  match i with
  | O => O
  | S i' => match fns !! i' with
            | Some f => if decide (f.(flavor) = ef_free) then last_used i' fns else i
            | None => i
            end
  end.

(** The loop over the blocks: the unused blocks are emptied; how many there are (the
    last of them is [p]) and, when a block [l] remains, its [i]. *)
Fixpoint scan (l : list block) : list block * nat * option nat :=
  match l with
  | [] => ([], O, None)
  | b :: rest =>
      let i := last_used b.(idx) b.(fns) in
      if (0 <? i)%nat then (l, O, Some i)
      else let '(rest, k, r) := scan rest in (set_idx 0 b :: rest, S k, r)
  end.

(** The slot given to the caller: number of the block and of the entry. *)
Definition __new_exitfn (p : listp_t) : M exits (option (nat * nat)) :=
  dn ← gets __exit_funcs_done;
  if (dn : bool) then mret None
  else
    l ← gets (blocks p);
    let '(l, k, i) := scan l in
    modify (set_blocks p l);;
    r ← match i with
        | Some i =>
            if (i =? BLOCK_SIZE)%nat then
              match k with
              | O =>
                  b ← gets calloc_ok;
                  if (b : bool) then modify (set_blocks p (set_idx 1 empty_block :: l));; mret (Some (O, O)) else mret None
              | S k' => modify (set_blocks p (alter (set_idx 1) k' l));; mret (Some (k', O))
              end
            else modify (set_blocks p (alter (set_idx (S i)) k l));; mret (Some (k, i))
        | None =>
            match k with
            | O => lift (Fatal "l != NULL")
            | S k' => modify (set_blocks p (alter (set_idx 1) k' l));; mret (Some (k', O))
            end
        end;
    match r with
    | None => mret None
    | Some (b, j) =>
        l ← gets (blocks p);
        modify (set_blocks p (alter (fun blk => mkBlock blk.(idx) (alter (fun f => mkExit ef_us f.(u_fn) f.(u_arg) f.(u_dso)) j blk.(fns))) b l));;
        c ← gets __new_exitfn_called;
        modify (set_called (u64 (c + 1)));;
        mret (Some (b, j))
    end.

(** Stores through the pointer [__new_exitfn] returned. *)
Definition fill (p : listp_t) (pos : nat * nat) (f : exit_function) : M exits unit :=
  l ← gets (blocks p);
  modify (set_blocks p (alter (set_fn pos.2 f) pos.1 l)).

Definition __internal_atexit (func arg d : Z) (p : listp_t) : M exits Z :=
  if func =? 0 then lift (Fatal "func != NULL")
  else
    new ← __new_exitfn p;
    match new with
    | None => mret (-1)
    | Some pos => fill p pos (mkExit ef_cxa (PTR_MANGLE guard func) arg d);; mret 0
    end.

Definition __cxa_atexit (func arg d : Z) : M exits Z := __internal_atexit func arg d Funcs.

(** [atexit (func)] is [__cxa_atexit] with the handle of the calling object. *)
Definition atexit (func dso : Z) : M exits Z := __cxa_atexit func 0 dso.

Definition __cxa_at_quick_exit (func d : Z) : M exits Z := __internal_atexit func 0 d Quick.
Definition at_quick_exit (func dso : Z) : M exits Z := __cxa_at_quick_exit func dso.

(** The third word of the entry keeps what the slot held. *)
Definition __on_exit (func arg : Z) : M exits Z :=
  if func =? 0 then lift (Fatal "func != NULL")
  else
    new ← __new_exitfn Funcs;
    match new with
    | None => mret (-1)
    | Some (b, j) =>
        l ← gets __exit_funcs;
        modify (set_blocks Funcs (alter (fun blk => mkBlock blk.(idx)
          (alter (fun f => mkExit ef_on (PTR_MANGLE guard func) arg f.(u_dso)) j blk.(fns))) b l));;
        mret 0
    end.

(** ** Destructors of thread-local objects *)
Definition __cxa_thread_atexit_impl (func obj dso_symbol : Z) : M exits Z :=
  ok ← gets calloc_ok;
  if negb ok then lift (Fatal "failed to register TLS destructor: out of memory")
  else
    cache ← gets dso_symbol_cache;
    when (negb (cache =? dso_symbol)) (modify (set_lm_cache (default main_map (find_dso dso_symbol))));;
    map ← gets lm_cache;
    if map =? 0 then lift Undef
    else
      modify (add_count map 1);;
      l ← gets tls_dtor_list;
      modify (set_dtors (mkDtor (PTR_MANGLE guard func) obj map :: l));;
      mret 0.

Fixpoint call_tls_dtors (fuel : nat) : M exits unit :=
  match fuel with
  | O => lift Diverge
  | S fuel =>
      l ← gets tls_dtor_list;
      match l with
      | [] => mret tt
      | cur :: next =>
          modify (set_dtors next);;
          foreign (CallDtor (PTR_DEMANGLE guard cur.(d_func)) cur.(d_obj));;
          modify (add_count cur.(d_map) (-1));;
          call_tls_dtors fuel
      end
  end.

(** ** [exit] *)

(** The [switch] on the flavor of the entry [i] of block number [b], just taken off the list. *)
Definition run_entry (p : listp_t) (status : Z) (b i : nat) (f : exit_function) : M exits unit :=
  let fn := PTR_DEMANGLE guard f.(u_fn) in
  match f.(flavor) with
  | ef_free | ef_us => mret tt
  | ef_on => foreign (CallOn fn status f.(u_arg))
  | ef_at => foreign (CallAt fn)
  | ef_cxa =>
      l ← gets (blocks p);
      modify (set_blocks p (alter (set_fn i (mkExit ef_free f.(u_fn) f.(u_arg) f.(u_dso))) b l));;
      foreign (CallCxa fn f.(u_arg) status)
  end.

(** The loops of [__run_exit_handlers].  [cur] is [None] at the label [restart], and in the inner loop the block the pointer [cur]
    points to: the number of blocks from it to the end of the chain, which does not change when blocks are put in front. *)
Fixpoint exit_loop (fuel : nat) (p : listp_t) (status : Z) (cur : option nat) : M exits unit :=
  match fuel with
  | O => lift Diverge
  | S fuel =>
      l ← gets (blocks p);
      match cur, l with
      | None, [] => modify set_done
      | _, _ =>
          let n := default (length l) cur in
          let b := (length l - n)%nat in
          blk ← lift (res_of_option (l !! b));
          match blk.(idx) with
          | O => modify (set_blocks p (drop (S b) l));; exit_loop fuel p status None
          | S i =>
              modify (set_blocks p (alter (set_idx i) b l));;
              f ← lift (res_of_option (blk.(fns) !! i));
              new_exitfn_called ← gets __new_exitfn_called;
              run_entry p status b i f;;
              now ← gets __new_exitfn_called;
              exit_loop fuel p status (if negb (new_exitfn_called =? now) then None else Some n)
          end
      end
  end.

(** [_exit] does not return: the log ends with it. *)
Definition __run_exit_handlers (fuel : nat) (status : Z) (p : listp_t) (run_list_atexit run_dtors : bool) : M exits unit :=
  when run_dtors (call_tls_dtors fuel);;
  exit_loop fuel p status None;;
  when run_list_atexit (modify (add_log IO_cleanup));;
  modify (add_log (Exit status)).

Definition exit (fuel : nat) (status : Z) : M exits unit := __run_exit_handlers fuel status Funcs true true.
Definition __new_quick_exit (fuel : nat) (status : Z) : M exits unit := __run_exit_handlers fuel status Quick false false.
Definition __old_quick_exit (fuel : nat) (status : Z) : M exits unit := __run_exit_handlers fuel status Quick false true.

(** ** [__cxa_finalize] *)
Definition matches (d : Z) (f : exit_function) : bool := (d =? 0) || (d =? f.(u_dso)).

(** Block number [b], entries below [j] still to be looked at. *)
Fixpoint finalize_loop (fuel : nat) (d : Z) (b j : nat) : M exits unit :=
  match fuel with
  | O => lift Diverge
  | S fuel =>
      l ← gets __exit_funcs;
      match l !! b with
      | None => mret tt
      | Some funcs =>
          match j with
          | O => finalize_loop fuel d (S b) (from_option idx O (l !! S b))
          | S j' =>
              f ← lift (res_of_option (funcs.(fns) !! j'));
              if matches d f && bool_decide (f.(flavor) = ef_cxa) then
                check ← gets __new_exitfn_called;
                modify (set_blocks Funcs (alter (set_fn j' (mkExit ef_free f.(u_fn) f.(u_arg) f.(u_dso))) b l));;
                foreign (CallCxa (PTR_DEMANGLE guard f.(u_fn)) f.(u_arg) 0);;
                now ← gets __new_exitfn_called;
                if negb (check =? now)
                then l ← gets __exit_funcs; finalize_loop fuel d 0 (from_option idx O (l !! O))
                else finalize_loop fuel d b j'
              else finalize_loop fuel d b j'
          end
      end
  end.

(** The entries of a quick_exit block below its [idx] that match become free, whatever they are. *)
Definition discard_quick (d : Z) (b : block) : block :=
  mkBlock b.(idx) (imap (fun i f => if (i <? b.(idx))%nat && matches d f
    then mkExit ef_free f.(u_fn) f.(u_arg) f.(u_dso) else f) b.(fns)).

Definition __cxa_finalize (fuel : nat) (d : Z) : M exits unit :=
  l ← gets __exit_funcs;
  finalize_loop fuel d 0 (from_option idx O (l !! O));;
  q ← gets __quick_exit_funcs;
  modify (set_blocks Quick (discard_quick d <$> q));;
  if d =? 0 then mret tt
  else
    fk ← gets x_fork;
    match __unregister_atfork d fk with
    | Ret _ fk => modify (set_fork fk)
    | Raise o e _ => lift (Signal o e)
    | Stop e => lift (Fatal e)
    | Wild => lift Undef
    | Loop => lift Diverge
    end.

End ExitFuncs.
