(* ===== verification/ExitFuncsSpec.v ===== *)
(** * Exit functions form a stack

    The chain of blocks stands for the stack of its entries that are not free.
    Registering pushes, [exit] pops and calls until the stack is empty,
    [__cxa_finalize] takes out the entries of one object. *)

From S2P Require Import Prelude Dynarray AtFork AtForkSpec ExitFuncs.

(** ** Pointer mangling *)
Lemma rol64_testbit x n i : 0 <= x < 2 ^ 64 -> 0 <= n <= 64 -> 0 <= i < 64 ->
  Z.testbit (rol64 x n) i = Z.testbit x ((i - n) mod 64).
Proof.
  intros Hx Hn Hi. unfold rol64, u64. rewrite Z.lor_spec, Z.shiftr_spec by lia.
  rewrite Z.mod_pow2_bits_low by lia. rewrite Z.shiftl_spec by lia.
  destruct (Z.lt_ge_cases i n).
  - rewrite (Z.testbit_neg_r x (i - n)) by lia. cbn [orb]. f_equal.
    replace (i - n) with (i + (64 - n) + (-1) * 64) by lia. rewrite Z.mod_add by lia. symmetry. apply Z.mod_small. lia.
  - rewrite (Z.mod_small (i - n)) by lia. rewrite (Z.bits_above_log2 x (i + (64 - n))); [apply orb_false_r|lia|].
    destruct (Z.eq_dec x 0) as [->|]; [cbn; lia|]. apply Z.log2_lt_pow2; [lia|]. apply Z.lt_le_trans with (2 ^ 64); [lia|].
    apply Z.pow_le_mono_r; lia.
Qed.

Lemma log2_64 x : 0 <= x -> Z.log2 x < 64 <-> x < 2 ^ 64.
Proof. intros Hx. destruct (Z.eq_dec x 0) as [->|]; [cbn; lia|]. symmetry. apply Z.log2_lt_pow2. lia. Qed.

Lemma rol64_range x n : 0 <= x < 2 ^ 64 -> 0 <= n <= 64 -> 0 <= rol64 x n < 2 ^ 64.
Proof.
  intros Hx Hn. unfold rol64. pose proof (u64_bound (Z.shiftl x n)) as Hu.
  assert (Hr : 0 <= Z.shiftr x (64 - n) < 2 ^ 64).
  { rewrite Z.shiftr_div_pow2 by lia. pose proof (Z.pow_pos_nonneg 2 (64 - n)). split; [apply Z.div_pos; lia|].
    apply Z.le_lt_trans with x; [|lia]. apply Z.div_le_upper_bound; nia. }
  split; [apply Z.lor_nonneg; lia|].
  apply log2_64; [apply Z.lor_nonneg; lia|]. rewrite Z.log2_lor by lia.
  apply Z.max_lub_lt; apply log2_64; lia.
Qed.

Lemma bits_eq64 x y : 0 <= x < 2 ^ 64 -> 0 <= y < 2 ^ 64 ->
  (forall i, 0 <= i < 64 -> Z.testbit x i = Z.testbit y i) -> x = y.
Proof.
  intros Hx Hy H. apply Z.bits_inj'. intros i Hi. destruct (Z.lt_ge_cases i 64); [auto|].
  assert (Hhigh : forall z, 0 <= z < 2 ^ 64 -> Z.testbit z i = false).
  { intros z Hz. rewrite <- (Z.mod_small z (2 ^ 64)) by lia. apply Z.mod_pow2_bits_high. lia. }
  by rewrite !Hhigh.
Qed.

Lemma lxor_range x y : 0 <= x < 2 ^ 64 -> 0 <= y < 2 ^ 64 -> 0 <= Z.lxor x y < 2 ^ 64.
Proof.
  intros Hx Hy. assert (H0 : 0 <= Z.lxor x y) by (apply Z.lxor_nonneg; lia). split; [done|].
  apply log2_64; [done|]. pose proof (Z.log2_lxor x y). 
  pose proof (proj2 (log2_64 x ltac:(lia)) ltac:(lia)). pose proof (proj2 (log2_64 y ltac:(lia)) ltac:(lia)). lia.
Qed.

Lemma demangle_mangle guard p : 0 <= guard < 2 ^ 64 -> 0 <= p < 2 ^ 64 ->
  PTR_DEMANGLE guard (PTR_MANGLE guard p) = p.
Proof.
  intros Hg Hp. unfold PTR_DEMANGLE, PTR_MANGLE. pose proof (lxor_range p guard Hp Hg) as Hx.
  assert (E : ror64 (rol64 (Z.lxor p guard) 17) 17 = Z.lxor p guard).
  { apply bits_eq64; [apply rol64_range; [apply rol64_range|]; lia|done|]. intros i Hi. unfold ror64.
    rewrite rol64_testbit by (try apply rol64_range; lia). rewrite rol64_testbit by (try lia; apply Z.mod_pos_bound; lia).
    f_equal. rewrite Zminus_mod_idemp_l. replace (i - (64 - 17) - 17) with (i + (-1) * 64) by lia.
    rewrite Z.mod_add by lia. apply Z.mod_small. lia. }
  rewrite E, Z.lxor_assoc, Z.lxor_nilpotent. apply Z.lxor_0_r.
Qed.

(** C37. Demangling gives back the pointer that was mangled. *)
Theorem ptr_mangle_roundtrip guard p : 0 <= guard < 2 ^ 64 -> 0 <= p < 2 ^ 64 ->
  PTR_DEMANGLE guard (PTR_MANGLE guard p) = p.
Proof. apply demangle_mangle. Qed.

(** ** The stack *)
Lemma list_alter_middle' {A} (f : A -> A) l1 x l2 n : n = length l1 -> alter f n (l1 ++ x :: l2) = l1 ++ f x :: l2.
Proof. intros ->. induction l1 as [|y l1 IH]; [done|]. cbn. f_equal. exact IH. Qed.

Definition live (f : exit_function) : Prop := f.(flavor) <> ef_free.
Definition entries (b : block) : list exit_function := filter live (reverse (take b.(idx) b.(fns))).
Definition pending (l : list block) : list exit_function := concat (entries <$> l).

Definition wf_block (b : block) : Prop := length b.(fns) = BLOCK_SIZE /\ (b.(idx) <= BLOCK_SIZE)%nat.

Lemma pending_app l1 l2 : pending (l1 ++ l2) = pending l1 ++ pending l2.
Proof. unfold pending. by rewrite fmap_app, concat_app. Qed.
Lemma pending_idle l : Forall (fun b => b.(idx) = O) l -> pending l = [].
Proof. induction 1 as [|b l Hb Hl IH]; [done|]. unfold pending in *. cbn. rewrite IH. unfold entries. by rewrite Hb. Qed.

Lemma entries_S b i f : b.(idx) = S i -> b.(fns) !! i = Some f ->
  entries b = (if decide (live f) then [f] else []) ++ entries (set_idx i b).
Proof.
  intros Hi Hf. unfold entries. rewrite Hi. cbn [idx fns set_idx]. rewrite (take_S_r _ _ _ Hf), reverse_snoc, filter_cons.
  by destruct (decide (live f)).
Qed.

(** The search for the last used entry of a block drops free entries only. *)
Lemma last_used_spec b : (b.(idx) <= length b.(fns))%nat ->
  (last_used b.(idx) b.(fns) <= b.(idx))%nat /\ entries (set_idx (last_used b.(idx) b.(fns)) b) = entries b.
Proof.
  destruct b as [i l]. cbn [idx fns]. induction i as [|i IH]; intros Hi; [done|]. cbn [last_used].
  destruct (lookup_lt_is_Some_2 l i) as [f Hf]; [lia|]. rewrite Hf. destruct (decide (f.(flavor) = ef_free)) as [Hfree|Hne]; [|done].
  destruct IH as [IH1 IH2]; [lia|]. split; [lia|]. rewrite (entries_S (mkBlock (S i) l) i f eq_refl Hf), decide_False by (by intros H).
  exact IH2.
Qed.

Lemma scan_spec l : Forall wf_block l -> exists pre post,
  scan l = (pre ++ post, length pre, match post with [] => None | b :: _ => Some (last_used b.(idx) b.(fns)) end) /\
  Forall wf_block (pre ++ post) /\ Forall (fun b => b.(idx) = O) pre /\ length (pre ++ post) = length l /\
  pending post = pending l /\ match post with [] => True | b :: _ => (0 < last_used b.(idx) b.(fns))%nat end.
Proof.
  induction l as [|b l IH]; intros Hwf; [exists [], []; done|]. apply Forall_cons in Hwf as [Hb Hwf]. cbn [scan].
  destruct (Nat.ltb_spec 0 (last_used b.(idx) b.(fns))) as [Hpos|Hz].
  - exists [], (b :: l). split; [done|]. split; [by constructor|]. done.
  - destruct (IH Hwf) as (pre & post & -> & Hwf' & Hidle & Hlen & Hp & Hpost). exists (set_idx 0 b :: pre), post.
    split; [done|]. split; [constructor; [split; [apply Hb|cbn; lia]|done]|]. split; [by constructor|]. split; [cbn; lia|]. split; [|done].
    rewrite Hp. unfold pending. cbn [fmap list_fmap concat]. rewrite <- (proj2 (last_used_spec b ltac:(destruct Hb; lia))).
    replace (last_used b.(idx) b.(fns)) with O by lia. done.
Qed.

(** The entry [pos] of [l] is above the stack [P]. *)
Inductive slot (l : list block) (P : list exit_function) : nat * nat -> Prop :=
| slot_intro pre blk post j e : l = pre ++ blk :: post -> Forall (fun b => b.(idx) = O) pre ->
    Forall wf_block l -> blk.(idx) = S j -> blk.(fns) !! j = Some e ->
    entries (set_idx j blk) ++ pending post = P -> slot l P (length pre, j).

(** A store to the entry [j] of a block. *)
Record stores (j : nat) (g : exit_function -> exit_function) (h : block -> block) : Prop := {
  st_idx : forall b, (h b).(idx) = b.(idx);
  st_len : forall b, length (h b).(fns) = length b.(fns);
  st_at : forall b e, b.(fns) !! j = Some e -> (h b).(fns) !! j = Some (g e);
  st_below : forall b, take j (h b).(fns) = take j b.(fns) }.

Lemma stores_alter j g : stores j g (fun b => mkBlock b.(idx) (alter g j b.(fns))).
Proof.
  split; intros; cbn [idx fns]; [done|apply length_alter| |by rewrite take_alter_ge by lia].
  rewrite list_lookup_alter_eq. by rewrite H.
Qed.
Lemma stores_set_fn j f : stores j (fun _ => f) (set_fn j f).
Proof.
  split; intros; cbn [idx fns set_fn]; [done|apply length_insert| |by rewrite take_insert_ge by lia].
  apply list_lookup_insert_eq. by eapply lookup_lt_Some.
Qed.

(** Filling the slot pushes the entry. *)
Lemma slot_fill l P pos g h : slot l P pos -> stores pos.2 g h -> (forall e, live (g e)) ->
  exists e, slot (alter h pos.1 l) P pos /\ pending (alter h pos.1 l) = g e :: P.
Proof.
  intros [pre blk post j e -> Hidle Hwf Hidx He HP] [H1 H2 H3 H4] Hg. cbn [fst snd] in *.
  rewrite list_alter_middle' by done.
  assert (HP' : entries (set_idx j (h blk)) = entries (set_idx j blk)).
  { unfold entries. cbn [idx fns set_idx]. by rewrite H4. }
  exists e. split.
  - eapply slot_intro; [done|done| |by rewrite H1|by apply H3|by rewrite HP'].
    rewrite Forall_app, Forall_cons in *. destruct Hwf as (Ha & [Hl Hi] & Hc). split; [done|]. split; [|done].
    split; [by rewrite H2|by rewrite H1].
  - rewrite pending_app, pending_idle by done. unfold pending at 1. cbn [fmap list_fmap concat app].
    rewrite (entries_S (h blk) j (g e)), decide_True by (done || by rewrite ?H1 || by apply H3). rewrite HP', <- HP. done.
Qed.

Section Register.
Context (guard : Z) (calloc_ok : exits -> bool).

Lemma blocks_set p l s : blocks p (set_blocks p l s) = l.
Proof. by destruct p, s. Qed.
Lemma set_set_blocks p l l' s : set_blocks p l (set_blocks p l' s) = set_blocks p l s.
Proof. by destruct p, s. Qed.
Lemma called_set_blocks p l s : (set_blocks p l s).(__new_exitfn_called) = s.(__new_exitfn_called).
Proof. by destruct p, s. Qed.
Lemma blocks_set_called p c s : blocks p (set_called c s) = blocks p s.
Proof. by destruct p, s. Qed.

Lemma set_idx_wf b i : wf_block b -> (i <= BLOCK_SIZE)%nat -> wf_block (set_idx i b).
Proof. intros [H _] Hi. by split. Qed.

(** Where [__new_exitfn] finds room, once the blocks have been scanned. *)
Lemma choose_slot pre post : Forall wf_block (pre ++ post) -> Forall (fun b => b.(idx) = O) pre ->
  match post with
  | b :: _ => let i := last_used b.(idx) b.(fns) in
      (i <> BLOCK_SIZE -> slot (alter (set_idx (S i)) (length pre) (pre ++ post)) (pending post) (length pre, i)) /\
      slot (set_idx 1 empty_block :: post) (pending post) (O, O)
  | [] => True
  end /\
  forall pre' b, pre = pre' ++ [b] ->
    slot (alter (set_idx 1) (length pre') (pre ++ post)) (pending post) (length pre', O).
Proof.
  intros Hwf Hidle. rewrite Forall_app in Hwf. destruct Hwf as [Hwf1 Hwf2]. split.
  - destruct post as [|b post]; [done|]. apply Forall_cons in Hwf2 as [[Hb1 Hb2] Hwf2]. cbn zeta.
    destruct (last_used_spec b) as [Hle Hent]; [lia|]. split.
    + intros Hne. rewrite list_alter_middle' by done. destruct (lookup_lt_is_Some_2 b.(fns) (last_used b.(idx) b.(fns))) as [e He].
      { lia. }
      eapply slot_intro; [done|done| |done|done|].
      * rewrite Forall_app, Forall_cons. split; [done|]. split; [split; cbn; lia|done].
      * unfold pending. cbn [fmap list_fmap concat]. by rewrite <- Hent.
    + apply (slot_intro _ _ [] (set_idx 1 empty_block) (b :: post) 0 no_function); try done.
      constructor; [split; cbn; unfold BLOCK_SIZE; lia|]. by constructor.
  - intros pre' b ->. rewrite Forall_app, Forall_singleton in Hwf1, Hidle. destruct Hwf1 as [Hw1 [Hb1 Hb2]], Hidle as [Hi1 Hib].
    rewrite <- app_assoc. cbn [app]. rewrite list_alter_middle' by done. destruct (lookup_lt_is_Some_2 b.(fns) 0) as [e He]; [unfold BLOCK_SIZE in *; lia|].
    eapply slot_intro; [done|done| |done|done|done].
    rewrite Forall_app, Forall_cons. split; [done|]. split; [split; cbn; unfold BLOCK_SIZE in *; lia|done].
Qed.

(** The result of [__new_exitfn]: an entry above the stack, or nothing. *)
Lemma new_exitfn_spec p s : s.(__exit_funcs_done) = false -> Forall wf_block (blocks p s) -> blocks p s <> [] ->
  (exists pos l, __new_exitfn calloc_ok p s = Ret (Some pos) (set_called (u64 (s.(__new_exitfn_called) + 1)) (set_blocks p l s)) /\
    slot l (pending (blocks p s)) pos) \/
  (exists l, __new_exitfn calloc_ok p s = Ret None (set_blocks p l s) /\ calloc_ok (set_blocks p l s) = false /\
    Forall wf_block l /\ l <> [] /\ pending l = pending (blocks p s)).
Proof.
  intros Hdone Hwf Hne. remember (__new_exitfn calloc_ok p s) as o eqn:Ho. revert Ho.
  unfold __new_exitfn. unfold mbind at 1, M_bind at 1, gets at 1. rewrite Hdone.
  unfold mbind at 1, M_bind at 1, gets at 1.
  destruct (scan_spec _ Hwf) as (pre & post & -> & Hwf' & Hidle & Hlen & HP & Hpost).
  destruct (choose_slot pre post Hwf' Hidle) as [Hc1 Hc2]. rewrite HP in *.
  unfold mbind at 1, M_bind at 1, modify at 1. set (s1 := set_blocks p (pre ++ post) s).
  assert (Hus : forall l pos, slot l (pending (blocks p s)) pos ->
    exists l', (let '(b, j) := pos in
        l ← gets (blocks p);
        modify (set_blocks p (alter (fun blk => mkBlock blk.(idx) (alter (fun f => mkExit ef_us f.(u_fn) f.(u_arg) f.(u_dso)) j blk.(fns))) b l));;
        c ← gets __new_exitfn_called; modify (set_called (u64 (c + 1)));; mret (Some (b, j))) (set_blocks p l s1)
      = Ret (Some pos) (set_called (u64 (s.(__new_exitfn_called) + 1)) (set_blocks p l' s)) /\ slot l' (pending (blocks p s)) pos).
  { intros l [b j] Hs. destruct (slot_fill _ _ _ _ _ Hs (stores_alter j (fun f => mkExit ef_us f.(u_fn) f.(u_arg) f.(u_dso)))) as (e & Hs' & _); [done|].
    eexists. split; [|exact Hs']. unfold mbind, M_bind, gets, modify, mret, M_ret.
    unfold s1. by rewrite blocks_set, !set_set_blocks, called_set_blocks. }
  destruct post as [|b post].
  - destruct (length pre) as [|k'] eqn:Ek.
    { exfalso. destruct pre; [|done]. cbn in Hlen. by destruct (blocks p s). }
    intros ->. left. destruct pre as [|b pre' _] using rev_ind; [done|]. rewrite length_app, Nat.add_1_r in Ek. injection Ek as <-.
    destruct (Hus _ _ (Hc2 pre' b eq_refl)) as (l' & Hl' & Hs'). exists (length pre', O), l'. split; [exact Hl'|exact Hs'].
  - destruct Hc1 as [Hc11 Hc12]. cbn zeta in *. destruct (Nat.eqb_spec (last_used b.(idx) b.(fns)) BLOCK_SIZE) as [Hfull|Hroom].
    + destruct (length pre) as [|k'] eqn:Ek.
      * destruct pre; [|done]. destruct (calloc_ok s1) eqn:Hcal;
          match goal with |- context [(gets calloc_ok ≫= ?k)] =>
            assert (Hk : (gets calloc_ok ≫= k) s1 = k (calloc_ok s1) s1) by done end;
          rewrite Hcal in Hk; unfold mbind at 1, M_bind at 1; rewrite Hk; clear Hk.
        -- intros ->. left. destruct (Hus _ _ Hc12) as (l' & Hl' & Hs'). exists (O, O), l'. split; [exact Hl'|exact Hs'].
        -- intros ->. right. exists (b :: post). split; [done|]. split; [done|]. split; [exact Hwf'|]. split; [discriminate|done].
      * intros ->. left. destruct pre as [|b' pre' _] using rev_ind; [done|]. rewrite length_app, Nat.add_1_r in Ek. injection Ek as <-.
        destruct (Hus _ _ (Hc2 pre' b' eq_refl)) as (l' & Hl' & Hs'). exists (length pre', O), l'. split; [exact Hl'|exact Hs'].
    + intros ->. left. destruct (Hus _ _ (Hc11 Hroom)) as (l' & Hl' & Hs'). exists (length pre, last_used b.(idx) b.(fns)), l'. split; [exact Hl'|exact Hs'].
Qed.

(** The state is well formed: exit processing has not finished. *)
Definition running (p : listp_t) (s : exits) : Prop :=
  s.(__exit_funcs_done) = false /\ Forall wf_block (blocks p s) /\ blocks p s <> [].

Lemma slot_wf l P pos : slot l P pos -> Forall wf_block l /\ l <> [].
Proof. intros [pre blk post j e -> _ Hwf _ _ _]. split; [done|]. by destruct pre. Qed.

Lemma running_set p l c s : running p s -> Forall wf_block l -> l <> [] -> running p (set_called c (set_blocks p l s)).
Proof. intros (Hd & _ & _) Hwf Hne. by destruct p, s. Qed.

(** Registering pushes an entry, or leaves the stack alone. *)
Definition pushed (p : listp_t) (s : exits) (m : M exits Z) (is_entry : exit_function -> Prop) : Prop :=
  (exists l e, m s = Ret 0 (set_called (u64 (s.(__new_exitfn_called) + 1)) (set_blocks p l s)) /\ Forall wf_block l /\ l <> [] /\
    pending l = e :: pending (blocks p s) /\ is_entry e) \/
  (exists l, m s = Ret (-1) (set_blocks p l s) /\ Forall wf_block l /\ l <> [] /\ pending l = pending (blocks p s) /\ exists s1, calloc_ok s1 = false).

Lemma set_blocks_called p l l' c s : set_blocks p l (set_called c (set_blocks p l' s)) = set_called c (set_blocks p l s).
Proof. by destruct p, s. Qed.

Lemma internal_atexit_spec func arg d p s : func <> 0 -> running p s ->
  pushed p s (__internal_atexit guard calloc_ok func arg d p) (fun e => e = mkExit ef_cxa (PTR_MANGLE guard func) arg d).
Proof.
  intros Hf (Hd & Hwf & Hne). unfold pushed, __internal_atexit. rewrite (proj2 (Z.eqb_neq _ _) Hf).
  destruct (new_exitfn_spec p s Hd Hwf Hne) as [(pos & l & Hn & Hs)|(l & Hn & Hc & Hwf' & Hne' & HP)];
    rewrite (M_bind_step _ _ _ _ _ Hn).
  - destruct (slot_fill _ _ _ _ _ Hs (stores_set_fn pos.2 (mkExit ef_cxa (PTR_MANGLE guard func) arg d))) as (e & Hs' & HP'); [done|].
    destruct (slot_wf _ _ _ Hs') as [Hwf' Hne']. left. do 2 eexists. split; [|done].
    unfold fill, mbind, M_bind, gets, modify, mret, M_ret. by rewrite blocks_set_called, blocks_set, set_blocks_called.
  - right. exists l. split; [done|]. eauto 6.
Qed.

Lemma on_exit_spec func arg s : func <> 0 -> running Funcs s ->
  pushed Funcs s (__on_exit guard calloc_ok func arg) (fun e => exists d, e = mkExit ef_on (PTR_MANGLE guard func) arg d).
Proof.
  intros Hf (Hd & Hwf & Hne). unfold pushed, __on_exit. rewrite (proj2 (Z.eqb_neq _ _) Hf).
  destruct (new_exitfn_spec Funcs s Hd Hwf Hne) as [([b j] & l & Hn & Hs)|(l & Hn & Hc & Hwf' & Hne' & HP)];
    rewrite (M_bind_step _ _ _ _ _ Hn).
  - destruct (slot_fill _ _ _ _ _ Hs (stores_alter j (fun f => mkExit ef_on (PTR_MANGLE guard func) arg f.(u_dso)))) as (e & Hs' & HP'); [done|].
    destruct (slot_wf _ _ _ Hs') as [Hwf' Hne']. left. do 2 eexists. split; [|by eauto].
    unfold mbind, M_bind, gets, modify, mret, M_ret. change __exit_funcs with (blocks Funcs). by rewrite blocks_set_called, blocks_set, set_blocks_called.
  - right. exists l. split; [done|]. eauto 6.
Qed.

End Register.

(** ** [exit] empties the stack *)
Definition other (p : listp_t) : listp_t := match p with Funcs => Quick | Quick => Funcs end.
Lemma other_set_blocks p l s : running (other p) (set_blocks p l s) <-> running (other p) s.
Proof. unfold running. by destruct p, s. Qed.
Lemma set_blocks_same p s l : blocks p s = l -> s = set_blocks p l s.
Proof. intros <-. by destruct p, s. Qed.

Section ExitSpec.
Context (guard : Z) (callee : call -> exits -> exits) (p : listp_t) (status : Z).

Definition entry_call (f : exit_function) : option call :=
  let fn := PTR_DEMANGLE guard f.(u_fn) in
  match f.(flavor) with
  | ef_free | ef_us => None
  | ef_on => Some (CallOn fn status f.(u_arg))
  | ef_at => Some (CallAt fn)
  | ef_cxa => Some (CallCxa fn f.(u_arg) status)
  end.
(** The calls that are to be made, the next one first. *)
Definition calls_of (l : list block) : list call := omap entry_call (pending l).

(** What each function registers while it runs. *)
Context (pushes : call -> list call).
Hypothesis callee_pushes : forall c s, running p s -> running (other p) s -> running p (callee c s) /\ running (other p) (callee c s) /\
  calls_of (blocks p (callee c s)) = pushes c ++ calls_of (blocks p s) /\ (callee c s).(x_log) = s.(x_log) /\
  ((callee c s).(__new_exitfn_called) <> s.(__new_exitfn_called) \/ length (blocks p (callee c s)) = length (blocks p s)).

(** The abstract machine: the calls made from a stack. *)
Inductive drains : list call -> list call -> Prop :=
| drained : drains [] []
| drain_call c rest log : drains (pushes c ++ rest) log -> drains (c :: rest) (c :: log).

Definition loop (fuel : nat) : M exits unit := exit_loop guard callee fuel p status None.

(** The block at the start of the chain is the one found by starting over. *)
Lemma at_head fuel s : blocks p s <> [] -> exit_loop guard callee fuel p status (Some (length (blocks p s))) s = loop fuel s.
Proof using.
  intros Hne. unfold loop. destruct fuel as [|fuel]; [done|]. cbn [exit_loop].
  assert (Hg : forall k : list block -> M exits unit, (gets (blocks p) ≫= k) s = k (blocks p s) s) by done. rewrite !Hg. by destruct (blocks p s).
Qed.
Lemma step_block fuel s cur next : blocks p s = cur :: next -> cur.(idx) = O -> loop (S fuel) s = loop fuel (set_blocks p next s).
Proof using.
  intros Hl Hi. unfold loop. cbn [exit_loop]. unfold mbind at 1, M_bind at 1, gets at 1. rewrite Hl. cbn [default option_fmap]. rewrite Nat.sub_diag.
  cbn [lookup list_lookup res_of_option]. unfold mbind at 1, M_bind at 1. cbn [lift]. rewrite Hi. done.
Qed.
Lemma step_entry fuel s cur next i f s1 : blocks p s = cur :: next -> cur.(idx) = S i -> cur.(fns) !! i = Some f ->
  run_entry guard callee p status O i f (set_blocks p (set_idx i cur :: next) s) = Ret tt s1 -> blocks p s1 <> [] ->
  s1.(__new_exitfn_called) <> s.(__new_exitfn_called) \/ length (blocks p s1) = length (blocks p s) ->
  loop (S fuel) s = loop fuel s1.
Proof using.
  intros Hl Hi Hf Hrun Hne Hch. unfold loop at 1. cbn [exit_loop]. unfold mbind at 1, M_bind at 1, gets at 1. rewrite Hl. cbn [default option_fmap]. rewrite Nat.sub_diag.
  cbn [lookup list_lookup res_of_option]. unfold mbind at 1, M_bind at 1. cbn [lift]. rewrite Hi, Hf. cbn [alter list_alter res_of_option].
  unfold mbind at 1, M_bind at 1, modify at 1. unfold mbind at 1, M_bind at 1. cbn [lift]. unfold mbind at 1, M_bind at 1, gets at 1.
  rewrite (M_bind_step _ _ _ _ _ Hrun). unfold mbind at 1, M_bind at 1, gets at 1. rewrite called_set_blocks.
  destruct (Z.eqb_spec s.(__new_exitfn_called) s1.(__new_exitfn_called)) as [E|E]; cbn [negb]; [|done].
  destruct Hch as [Hch|Hch]; [by rewrite E in Hch|]. cbn [from_option]. rewrite Hl in Hch. rewrite <- Hch. by apply at_head.
Qed.

Lemma calls_of_cons cur next i f : cur.(idx) = S i -> cur.(fns) !! i = Some f ->
  calls_of (cur :: next) = option_list (entry_call f) ++ calls_of (set_idx i cur :: next).
Proof using.
  intros Hi Hf. unfold calls_of, pending. cbn [fmap list_fmap concat]. rewrite (entries_S cur i f Hi Hf), <- app_assoc, omap_app. f_equal.
  destruct (decide (live f)) as [|Hn]; [cbn; by destruct (entry_call f)|]. assert (f.(flavor) = ef_free) as E by (by destruct (decide (f.(flavor) = ef_free))). unfold entry_call. by rewrite E.
Qed.

(** Entries that are not to be called and blocks that are used up are passed over. *)
Lemma pass_free n : forall l s, (sum_list_with (fun b => S b.(idx)) l <= n)%nat -> blocks p s = l -> Forall wf_block l ->
  exists m l', (forall fuel, loop (m + fuel) s = loop fuel (set_blocks p l' s)) /\ Forall wf_block l' /\ calls_of l' = calls_of l /\
    match l' with
    | [] => True
    | cur :: next => exists i f c, cur.(idx) = S i /\ cur.(fns) !! i = Some f /\ entry_call f = Some c
    end.
Proof using.
  pose proof (set_blocks_same p) as Hid.
  induction n as [|n IH]; intros l s Hn Hl Hwf; (destruct l as [|cur next]; [exists O, []; split; [|done]; intros fuel; by rewrite <- (Hid s [])|]); cbn [sum_list_with] in Hn; [lia|].
  pose proof (Forall_inv Hwf) as [Hb1 Hb2]. pose proof (Forall_inv_tail Hwf) as Hwf2. destruct cur.(idx) as [|i] eqn:Ei.
  - destruct (IH next (set_blocks p next s)) as (m & l' & Hm & Hwf' & HP & Htop); [lia|apply blocks_set|done|].
    exists (S m), l'. split; [|split; [done|split; [|done]]].
    + intros fuel. cbn [Nat.add]. rewrite (step_block _ s cur next Hl Ei), Hm. by rewrite set_set_blocks.
    + rewrite HP. unfold calls_of, pending. cbn [fmap list_fmap concat]. unfold entries at 2. by rewrite Ei.
  - destruct (lookup_lt_is_Some_2 cur.(fns) i) as [f Hf]; [lia|]. destruct (entry_call f) as [c|] eqn:Ec.
    { exists O, (cur :: next). split; [|split; [done|split; [done|eauto 6]]]. intros fuel. by rewrite <- (Hid s (cur :: next)). }
    assert (Hwf' : Forall wf_block (set_idx i cur :: next)) by (constructor; [split; cbn; lia|done]).
    destruct (IH (set_idx i cur :: next) (set_blocks p (set_idx i cur :: next) s)) as (m & l' & Hm & Hw & HP & Htop); [cbn; lia|apply blocks_set|done|].
    exists (S m), l'. split; [|split; [done|split; [|done]]].
    + intros fuel. cbn [Nat.add]. rewrite (step_entry (m + fuel) s cur next i f (set_blocks p (set_idx i cur :: next) s) Hl Ei Hf), Hm; [by rewrite set_set_blocks| |by rewrite blocks_set|right; by rewrite blocks_set, Hl].
      unfold run_entry, entry_call in *. by destruct f.(flavor).
    + by rewrite HP, (calls_of_cons cur next i f Ei Hf), Ec.
Qed.

(** One entry is taken off and called. *)
Lemma pop_entry s cur next i f c : running p s -> running (other p) s -> blocks p s = cur :: next -> cur.(idx) = S i -> cur.(fns) !! i = Some f -> entry_call f = Some c ->
  exists s1, (forall fuel, loop (S fuel) s = loop fuel s1) /\ running p s1 /\ running (other p) s1 /\
    calls_of (blocks p s1) = pushes c ++ calls_of (set_idx i cur :: next) /\ s1.(x_log) = s.(x_log) ++ [c].
Proof using callee_pushes.
  intros (Hd & Hwf & Hne) Ho Hl Hi Hf Hc. rewrite Hl in Hwf. pose proof (Forall_inv Hwf) as [Hb1 Hb2]. pose proof (Forall_inv_tail Hwf) as Hwf2.
  set (s0 := set_blocks p (set_idx i cur :: next) s).
  assert (Hcall : forall blk, wf_block blk -> calls_of (blk :: next) = calls_of (set_idx i cur :: next) ->
    run_entry guard callee p status O i f s0 = foreign callee c (set_blocks p (blk :: next) s0) ->
    exists s1, (forall fuel, loop (S fuel) s = loop fuel s1) /\ running p s1 /\ running (other p) s1 /\
      calls_of (blocks p s1) = pushes c ++ calls_of (set_idx i cur :: next) /\ s1.(x_log) = s.(x_log) ++ [c]).
  { intros blk Hw HP Hrun. set (s2 := add_log c (set_blocks p (blk :: next) s0)).
    assert (Hb2' : blocks p s2 = blk :: next) by (unfold s2; by destruct p, s). assert (Hr2 : running p s2) by (unfold s2, running; destruct p, s; cbn in *; split_and!; by try constructor).
    assert (Ho2 : running (other p) s2) by (unfold s2, s0, running in *; by destruct p, s). destruct (callee_pushes c s2 Hr2 Ho2) as (Hr & Hor & HPc & HL & Hch).
    assert (Hcl : s2.(__new_exitfn_called) = s.(__new_exitfn_called)) by (unfold s2, s0; by destruct p, s).
    exists (callee c s2). split; [|split; [done|split; [done|split]]].
    - intros fuel. apply (step_entry fuel s cur next i f); try done; [apply Hr|]. rewrite Hcl, Hb2' in Hch. by rewrite Hl.
    - by rewrite HPc, Hb2', HP.
    - rewrite HL. unfold s2, s0. by destruct p, s. }
  assert (Hid : set_blocks p (set_idx i cur :: next) s0 = s0) by (unfold s0; by rewrite set_set_blocks).
  assert (Hw0 : wf_block (set_idx i cur)) by (split; cbn; lia).
  unfold run_entry, entry_call in *. destruct f.(flavor) eqn:Ef; try done; injection Hc as <-; [by apply (Hcall (set_idx i cur)); rewrite ?Hid..|].
  apply (Hcall (set_fn i (mkExit ef_free f.(u_fn) f.(u_arg) f.(u_dso)) (set_idx i cur))).
  - split; cbn [fns idx set_fn set_idx]; [by rewrite length_insert|lia].
  - unfold calls_of, pending. cbn [fmap list_fmap concat]. do 2 f_equal. unfold entries. cbn [idx fns set_fn set_idx]. by rewrite take_insert_ge by lia.
  - unfold mbind at 1, M_bind at 1, gets at 1. unfold s0 at 1. rewrite blocks_set. done.
Qed.

Lemma exit_loop_drains l log : drains l log -> forall s, s.(__exit_funcs_done) = false -> Forall wf_block (blocks p s) -> running (other p) s ->
  calls_of (blocks p s) = l ->
  exists m s', (forall fuel, loop (m + fuel) s = Ret tt s') /\ s'.(x_log) = s.(x_log) ++ log /\ blocks p s' = [] /\ s'.(__exit_funcs_done) = true.
Proof using callee_pushes.
  induction 1 as [|c rest log Hdr IH]; intros s Hd Hwf Ho HP;
    destruct (pass_free _ (blocks p s) s (le_n _) eq_refl Hwf) as (m & l' & Hm & Hwf' & HP' & Htop); rewrite HP in HP'; (destruct l' as [|cur next]; [|destruct Htop as (i & f & c' & Hi & Hf & Hc)]).
  - exists (S m), (set_done (set_blocks p [] s)). split; [|by destruct p, s; cbn; rewrite app_nil_r].
    intros fuel. replace (S m + fuel)%nat with (m + S fuel)%nat by lia. rewrite Hm. unfold loop. cbn [exit_loop]. unfold mbind, M_bind, gets. by rewrite blocks_set.
  - by rewrite (calls_of_cons cur next i f Hi Hf), Hc in HP'.
  - done.
  - rewrite (calls_of_cons cur next i f Hi Hf), Hc in HP'. injection HP' as -> HP'.
    assert (Hr : running p (set_blocks p (cur :: next) s)) by (unfold running; by destruct p, s).
    destruct (pop_entry _ cur next i f c Hr (proj2 (other_set_blocks _ _ _) Ho) (blocks_set _ _ _) Hi Hf Hc) as (s1 & Hs1 & Hr1 & Ho1 & HP1 & HL1).
    destruct (IH s1) as (m' & s' & Hm' & HL & Hb & Hdn); [apply Hr1|apply Hr1|done|by rewrite HP1, HP'|].
    exists (m + S m')%nat, s'. split; [intros fuel; replace (m + S m' + fuel)%nat with (m + S (m' + fuel))%nat by lia; by rewrite Hm, Hs1|].
    rewrite HL, HL1, <- app_assoc. split; [by destruct p, s|done].
Qed.
End ExitSpec.

(** ** From registration to exit *)
Section Requests.
Context (guard : Z) (calloc_ok : exits -> bool) (status : Z).
Hypothesis guard_range : 0 <= guard < 2 ^ 64.
Hypothesis memory : forall s, calloc_ok s = true.

(** Functions that do not register anything. *)
Definition quiet (c : call) (s : exits) : exits := s.

(** Calls to the functions with which other code registers functions. *)
Inductive request :=
| Atexit (func dso : Z)
| CxaAtexit (func arg d : Z)
| OnExit (func arg : Z)
| AtQuickExit (func dso : Z).
Definition perform (r : request) : M exits Z :=
  match r with
  | Atexit func dso => atexit guard calloc_ok func dso
  | CxaAtexit func arg d => __cxa_atexit guard calloc_ok func arg d
  | OnExit func arg => __on_exit guard calloc_ok func arg
  | AtQuickExit func dso => at_quick_exit guard calloc_ok func dso
  end.
Fixpoint perform_all (rs : list request) : M exits unit :=
  match rs with
  | [] => mret tt
  | r :: rs => perform r;; perform_all rs
  end.

Definition func_of (r : request) : Z := match r with Atexit f _ | CxaAtexit f _ _ | OnExit f _ | AtQuickExit f _ => f end.
Definition pointer (r : request) : Prop := 0 < func_of r < 2 ^ 64.
(** The call a request leads to, when the functions of this list are run. *)
Definition request_call (p : listp_t) (r : request) : option call :=
  match p, r with
  | Funcs, Atexit func _ => Some (CallCxa func 0 status)
  | Funcs, CxaAtexit func arg _ => Some (CallCxa func arg status)
  | Funcs, OnExit func arg => Some (CallOn func status arg)
  | Quick, AtQuickExit func _ => Some (CallCxa func 0 status)
  | _, _ => None
  end.
Definition requested (p : listp_t) (rs : list request) : list call := reverse (omap (request_call p) rs).

(** Both lists can be used. *)
Definition usable (s : exits) : Prop := running Funcs s /\ running Quick s.
Lemma usable_split p s : usable s <-> running p s /\ running (other p) s.
Proof using. unfold usable. destruct p; split; intros [H1 H2]; by split. Qed.

(** The state after successful requests *)
Record performed (rs : list request) (s s' : exits) : Prop := {
  pf_usable : usable s';
  pf_calls : forall p, calls_of guard status (blocks p s') = requested p rs ++ calls_of guard status (blocks p s);
  pf_log : s'.(x_log) = s.(x_log);
  pf_dtors : s'.(tls_dtor_list) = s.(tls_dtor_list);
  pf_called : s'.(__new_exitfn_called) = (if bool_decide (rs = []) then s.(__new_exitfn_called) else u64 (s.(__new_exitfn_called) + Z.of_nat (length rs))) }.

Lemma performed_set r p l s : usable s -> Forall wf_block l -> l <> [] -> calls_of guard status l = option_list (request_call p r) ++ calls_of guard status (blocks p s) ->
  request_call (other p) r = None -> performed [r] s (set_called (u64 (s.(__new_exitfn_called) + 1)) (set_blocks p l s)).
Proof using.
  intros [H1 H2] Hw Hn Hc Ho. assert (Hreq : forall q, requested q [r] = option_list (request_call q r)) by (intros q; unfold requested; cbn; by destruct (request_call q r)).
  split; [destruct H1 as (? & ? & ?), H2 as (? & ? & ?); destruct p, s; cbn in *; by repeat split| |by destruct p, s|by destruct p, s|by destruct p, s].
  intros q. rewrite Hreq, blocks_set_called. destruct p, q, s; cbn in *; rewrite ?Ho; done.
Qed.

Lemma perform_spec r s : pointer r -> usable s -> exists s', perform r s = Ret 0 s' /\ performed [r] s s'.
Proof using guard_range memory.
  unfold pointer. intros Hr Hu. pose proof Hu as [Hf Hq].
  assert (Hpush : forall p is_entry, pushed calloc_ok p s (perform r) is_entry -> (forall e, is_entry e -> entry_call guard status e = request_call p r) -> is_Some (request_call p r) -> request_call (other p) r = None ->
    exists s', perform r s = Ret 0 s' /\ performed [r] s s').
  { intros p is_entry [(l & e & E & Hw & Hn & HP & He)|(l & _ & _ & _ & _ & s1 & Hs1)] Hcall Hsome Hnone; [|by rewrite memory in Hs1].
    eexists. split; [exact E|]. apply performed_set; try done. unfold calls_of. rewrite HP. cbn. rewrite (Hcall e He). by destruct Hsome as [c ->]. }
  destruct r as [func dso|func arg d|func arg|func dso]; cbn [func_of] in Hr; cbn [perform] in *.
  - apply (Hpush Funcs _ (internal_atexit_spec guard calloc_ok func 0 dso Funcs s ltac:(lia) Hf)); [|by eexists|done]. intros e ->. unfold entry_call. cbn. by rewrite demangle_mangle by lia.
  - apply (Hpush Funcs _ (internal_atexit_spec guard calloc_ok func arg d Funcs s ltac:(lia) Hf)); [|by eexists|done]. intros e ->. unfold entry_call. cbn. by rewrite demangle_mangle by lia.
  - apply (Hpush Funcs _ (on_exit_spec guard calloc_ok func arg s ltac:(lia) Hf)); [|by eexists|done]. intros e (d & ->). unfold entry_call. cbn. by rewrite demangle_mangle by lia.
  - apply (Hpush Quick _ (internal_atexit_spec guard calloc_ok func 0 dso Quick s ltac:(lia) Hq)); [|by eexists|done]. intros e ->. unfold entry_call. cbn. by rewrite demangle_mangle by lia.
Qed.

Lemma performed_app r rs s s1 s2 : performed [r] s s1 -> performed rs s1 s2 -> performed (r :: rs) s s2.
Proof using.
  intros [A1 A2 A3 A4 A5] [B1 B2 B3 B4 B5]. split; [done| |congruence|congruence|].
  - intros p. rewrite B2, A2, app_assoc. f_equal. unfold requested. rewrite <- reverse_app. f_equal. cbn. by destruct (request_call p r).
  - rewrite bool_decide_eq_false_2 by done. rewrite B5, A5. rewrite (bool_decide_eq_false_2 ([r] = [])) by done. cbn [length]. case_bool_decide as E; [by rewrite E|].
    unfold u64. rewrite Zplus_mod_idemp_l. f_equal. clear. lia.
Qed.
Lemma perform_all_spec rs : forall s, Forall pointer rs -> usable s -> exists s', perform_all rs s = Ret tt s' /\ performed rs s s'.
Proof using guard_range memory.
  induction rs as [|r rs IH]; intros s Hr Hu; [by exists s|]. apply Forall_cons in Hr as [Hr Hrs]. destruct (perform_spec r s Hr Hu) as (s1 & E1 & P1).
  destruct (IH s1 Hrs (pf_usable _ _ _ P1)) as (s2 & E2 & P2). exists s2. cbn [perform_all]. rewrite (M_bind_step _ _ _ _ _ E1). split; [done|]. by eapply performed_app.
Qed.

(** What the functions called at exit do: each makes the requests its script lists. *)
Definition acts (script : call -> list request) (c : call) (s : exits) : exits := match perform_all (script c) s with Ret _ s' => s' | _ => s end.
Definition scripted (script : call -> list request) : Prop := forall c, Forall pointer (script c) /\ Z.of_nat (length (script c)) < 2 ^ 64.

Lemma u64_moves a n : 0 < n < 2 ^ 64 -> u64 (a + n) <> a.
Proof using.
  clear. intros Hn E. pose proof (u64_bound (a + n)) as Hb. rewrite E in Hb. unfold u64 in E. pose proof (Z.mod_eq (a + n) (2 ^ 64) ltac:(lia)) as Hq.
  set (q := (a + n) / 2 ^ 64) in *. nia.
Qed.
Lemma acts_pushes script p : scripted script -> forall c s, running p s -> running (other p) s -> running p (acts script c s) /\ running (other p) (acts script c s) /\
  calls_of guard status (blocks p (acts script c s)) = requested p (script c) ++ calls_of guard status (blocks p s) /\ (acts script c s).(x_log) = s.(x_log) /\
  ((acts script c s).(__new_exitfn_called) <> s.(__new_exitfn_called) \/ length (blocks p (acts script c s)) = length (blocks p s)).
Proof using guard_range memory.
  intros Hs c s Hr Ho. destruct (Hs c) as [Hp Hn]. unfold acts. destruct (perform_all_spec (script c) s Hp) as (s' & E & P); [by apply (usable_split p)|]. rewrite E.
  destruct (proj1 (usable_split p s') (pf_usable _ _ _ P)). split; [done|]. split; [done|]. split; [apply P|]. split; [apply P|]. destruct (script c) as [|r rs] eqn:Es; [right; cbn in E; by injection E as <-|left].
  rewrite (pf_called _ _ _ P), bool_decide_eq_false_2 by done. apply u64_moves. cbn [length] in *. lia.
Qed.

(** C36. Functions registered with [atexit], [__cxa_atexit] and [on_exit], or with [at_quick_exit], are run by [exit], or [quick_exit], as a stack.  Start a process,
    make any list of such requests, and let each function that is called at exit make further requests of its own (its script), with less
    than 2^64 requests each, with function pointers that are not null, and with memory.  Then all requests succeed, and the functions are called
    as the abstract stack says: always the one registered last that has not been called yet, those registered meanwhile included, with its own argument and
    the exit status.  When none is left (if the stack ever becomes empty, [drains]), the chain is empty, no more can be registered, the output is flushed by [exit], and the process ends. *)
Theorem exit_runs_stack p run_list_atexit run_dtors script rs log : scripted script -> Forall pointer rs -> drains (fun c => requested p (script c)) (requested p rs) log ->
  exists s, perform_all rs exits0 = Ret tt s /\
  exists m s', (forall fuel, __run_exit_handlers guard (acts script) (m + fuel) status p run_list_atexit run_dtors s = Ret tt s') /\
    s'.(x_log) = log ++ (if run_list_atexit then [IO_cleanup] else []) ++ [Exit status] /\ blocks p s' = [] /\ s'.(__exit_funcs_done) = true.
Proof using guard_range memory.
  intros Hs Hr Hdr. assert (Hu0 : usable exits0) by (split; split; try done; (split; [repeat constructor|done])).
  destruct (perform_all_spec rs exits0 Hr Hu0) as (s & E & [Hu Hc HL Ht _]). exists s. split; [done|]. destruct (proj1 (usable_split p s) Hu) as [(Hd & Hwf & _) Ho].
  assert (Hc0 : calls_of guard status (blocks p exits0) = []) by (by destruct p).
  destruct (exit_loop_drains guard (acts script) p status (fun c => requested p (script c)) (acts_pushes script p Hs) _ log Hdr s Hd Hwf Ho) as (m & s' & Hm & HL' & Hb & Hdn); [by rewrite Hc, Hc0, app_nil_r|].
  set (s'' := if run_list_atexit then add_log IO_cleanup s' else s'). exists (S m), (add_log (Exit status) s''). split.
  - intros fuel. unfold __run_exit_handlers.
    rewrite (M_bind_step _ _ _ tt s); [|destruct run_dtors; [|done]; cbn [Nat.add call_tls_dtors when]; unfold mbind, M_bind, gets; by rewrite Ht].
    replace (S m + fuel)%nat with (m + S fuel)%nat by lia. rewrite (M_bind_step _ _ _ _ _ (Hm (S fuel))). by rewrite (M_bind_step _ _ _ tt s'') by (by destruct run_list_atexit).
  - rewrite HL in HL'. cbn [x_log exits0 app] in HL'. unfold s''. destruct run_list_atexit, p, s'; cbn in *; rewrite HL'; by rewrite <- ?app_assoc.
Qed.

End Requests.

(** ** [__cxa_finalize] *)
Section Finalize.
Context (guard d : Z).

(** The entries it calls. *)
Definition hit (f : exit_function) : bool := matches d f && bool_decide (f.(flavor) = ef_cxa).
Definition release (f : exit_function) : exit_function := mkExit ef_free f.(u_fn) f.(u_arg) f.(u_dso).
Definition release_hit (f : exit_function) : exit_function := if hit f then release f else f.
Definition fini_call (f : exit_function) : call := CallCxa (PTR_DEMANGLE guard f.(u_fn)) f.(u_arg) 0.

(** A block whose first [j] entries have been dealt with. *)
Definition mark (j : nat) (b : block) : block :=
  mkBlock b.(idx) ((release_hit <$> take j b.(fns)) ++ drop j b.(fns)).
Definition hits (j : nat) (b : block) : list call :=
  fini_call <$> filter (fun f => hit f = true) (reverse (take j b.(fns))).

Lemma mark_0 b : mark 0 b = b.
Proof. by destruct b. Qed.
Lemma mark_S j b f : b.(fns) !! j = Some f ->
  mark (S j) b = mark j (set_fn j (release_hit f) b).
Proof.
  intros Hf. unfold mark. cbn [idx fns set_fn]. f_equal. pose proof (lookup_lt_Some _ _ _ Hf).
  rewrite take_insert_ge by lia. rewrite (take_S_r _ _ _ Hf), fmap_app, <- app_assoc. f_equal.
  rewrite (drop_S (<[j:=release_hit f]> b.(fns)) (release_hit f) j) by (by apply list_lookup_insert_eq).
  rewrite drop_insert_lt by lia. done.
Qed.
Lemma set_fn_same j b f : b.(fns) !! j = Some f -> set_fn j f b = b.
Proof. intros Hf. destruct b as [i l]. unfold set_fn. cbn [idx fns] in *. by rewrite list_insert_id. Qed.
Lemma hits_S j b f : b.(fns) !! j = Some f -> hits (S j) b = (if hit f then [fini_call f] else []) ++ hits j b.
Proof.
  intros Hf. unfold hits. rewrite (take_S_r _ _ _ Hf), reverse_snoc, filter_cons.
  destruct (hit f); [by rewrite decide_True|by rewrite decide_False].
Qed.

Definition total_hits (l : list block) : list call := concat ((fun b => hits b.(idx) b) <$> l).
Definition set_log lg s := let '(mkExits f q dn c fk t dc lc tc _) := s in mkExits f q dn c fk t dc lc tc lg.

(** One entry: called and released if it is to be, passed over otherwise. *)
Lemma finalize_step fuel s pre b rest j f : s.(__exit_funcs) = pre ++ b :: rest -> b.(fns) !! j = Some f ->
  finalize_loop guard quiet (S fuel) d (length pre) (S j) s
    = finalize_loop guard quiet fuel d (length pre) j
        (set_blocks Funcs (pre ++ set_fn j (release_hit f) b :: rest) (set_log (s.(x_log) ++ if hit f then [fini_call f] else []) s)).
Proof.
  intros Hl Hf. cbn [finalize_loop]. unfold mbind at 1, M_bind at 1, gets at 1. rewrite Hl, list_lookup_middle by done.
  rewrite Hf. cbn [res_of_option]. unfold mbind at 1, M_bind at 1. cbn [lift]. unfold release_hit. fold (hit f).
  destruct (hit f); cbn [negb].
  - unfold mbind, M_bind, gets, modify, foreign, mbind, M_bind, modify, quiet. rewrite list_alter_middle' by done.
    destruct s. cbn. by rewrite Z.eqb_refl.
  - rewrite app_nil_r, set_fn_same by done. f_equal. destruct s. cbn in *. by rewrite Hl.
Qed.

Lemma finalize_loop_spec rest : forall fuel s pre b j, s.(__exit_funcs) = pre ++ b :: rest ->
  (j <= length b.(fns))%nat -> Forall wf_block rest -> (j + sum_list_with (fun b => S b.(idx)) rest + 1 < fuel)%nat ->
  finalize_loop guard quiet fuel d (length pre) j s
    = Ret tt (set_blocks Funcs (pre ++ mark j b :: ((fun b => mark b.(idx) b) <$> rest))
        (set_log (s.(x_log) ++ hits j b ++ total_hits rest) s)).
Proof.
  induction rest as [|b' rest IHrest]; intros fuel s pre b j; revert fuel s b;
    (induction j as [|j IHj]; intros fuel s b Hl Hj Hwf Hf; (destruct fuel as [|fuel]; [lia|]);
    [|destruct (lookup_lt_is_Some_2 b.(fns) j) as [f Hfj]; [lia|];
      rewrite (finalize_step _ _ _ _ _ _ _ Hl Hfj), (IHj fuel _ (set_fn j (release_hit f) b)) by
        ((by destruct s) || done || (cbn [fns set_fn]; rewrite ?length_insert; lia) || lia);
      rewrite (mark_S j b f Hfj), (hits_S j b f Hfj);
      assert (Hh : hits j (set_fn j (release_hit f) b) = hits j b)
        by (unfold hits; cbn [fns set_fn]; by rewrite take_insert_ge by lia);
      rewrite Hh; destruct s; cbn; by rewrite <- !app_assoc]);
    cbn [finalize_loop sum_list_with] in *; unfold mbind at 1, M_bind at 1, gets at 1; rewrite Hl, list_lookup_middle by done.
  - rewrite lookup_app_r, Nat.sub_succ_l, Nat.sub_diag by lia. cbn [lookup list_lookup from_option].
    destruct fuel as [|fuel]; [lia|]. cbn [finalize_loop]. unfold mbind, M_bind, gets. rewrite Hl.
    rewrite lookup_ge_None_2 by (rewrite length_app; cbn; lia). rewrite mark_0. unfold hits, total_hits. cbn.
    destruct s. cbn in *. by rewrite Hl, app_nil_r.
  - rewrite lookup_app_r, Nat.sub_succ_l, Nat.sub_diag by lia. cbn [lookup list_lookup from_option].
    apply Forall_cons in Hwf as [[Hb1 Hb2] Hwf].
    pose proof (IHrest fuel s (pre ++ [b]) b' b'.(idx)) as IH.
    replace (length (pre ++ [b])) with (S (length pre)) in IH by (rewrite length_app; cbn; lia).
    rewrite IH; [|by rewrite <- app_assoc|lia|done|lia]. rewrite mark_0, fmap_cons, <- app_assoc. done.
Qed.

Lemma entries_mark b : (b.(idx) <= length b.(fns))%nat -> entries (mark b.(idx) b) = filter (fun f => hit f = false) (entries b).
Proof.
  intros Hi. unfold entries, mark. cbn [idx fns].
  rewrite take_app_length' by (rewrite length_fmap, length_take; lia).
  rewrite <- fmap_reverse. generalize (reverse (take b.(idx) b.(fns))) as l.
  induction l as [|f l IH]; [done|]. rewrite fmap_cons, !filter_cons, IH. unfold release_hit, live.
  destruct (hit f) eqn:Eh; cbn [release flavor].
  - rewrite decide_False by (by intros H). assert (f.(flavor) = ef_cxa).
    { unfold hit in Eh. zbool. done. }
    rewrite decide_True by congruence. rewrite filter_cons, decide_False by (by rewrite Eh). done.
  - destruct (decide (f.(flavor) <> ef_free)); [|done]. rewrite filter_cons, decide_True by done. done.
Qed.

Lemma pending_mark l : Forall wf_block l -> pending ((fun b => mark b.(idx) b) <$> l) = filter (fun f => hit f = false) (pending l).
Proof.
  induction 1 as [|b l [H1 H2] Hl IH]; [done|]. rewrite fmap_cons. unfold pending in *. cbn [fmap list_fmap concat] in *.
  rewrite filter_app, <- IH. rewrite entries_mark by lia. done.
Qed.

Lemma total_hits_pending l : Forall wf_block l -> total_hits l = fini_call <$> filter (fun f => hit f = true) (pending l).
Proof.
  induction 1 as [|b l [H1 H2] Hl IH]; [done|]. unfold total_hits, pending in *. cbn [fmap list_fmap concat] in *.
  rewrite filter_app, fmap_app, IH. f_equal. unfold hits. f_equal. unfold entries.
  generalize (reverse (take b.(idx) b.(fns))) as r. induction r as [|f r IHr]; [done|]. rewrite !filter_cons, IHr.
  destruct (decide (hit f = true)) as [Eh|]; destruct (decide (live f)) as [|Hfr]; try done.
  - by rewrite filter_cons, decide_True.
  - exfalso. apply Hfr. unfold hit in Eh. zbool. unfold live. congruence.
  - by rewrite filter_cons, decide_False.
Qed.

Lemma no_more_hits r : filter (fun f => hit f = true) (filter (fun f => hit f = false) r) = [].
Proof.
  induction r as [|f r IHr]; [done|]. rewrite filter_cons.
  destruct (decide (hit f = false)) as [E|]; [|done]. rewrite filter_cons, decide_False by (by rewrite E). done.
Qed.

Lemma finalize_loop_stack s : running Funcs s ->
  exists m s', (forall fuel, finalize_loop guard quiet (m + fuel) d 0 (from_option idx O (s.(__exit_funcs) !! O)) s = Ret tt s') /\
    s'.(x_log) = s.(x_log) ++ (fini_call <$> filter (fun f => hit f = true) (pending s.(__exit_funcs))) /\
    pending s'.(__exit_funcs) = filter (fun f => hit f = false) (pending s.(__exit_funcs)) /\
    filter (fun f => hit f = true) (pending s'.(__exit_funcs)) = [] /\
    s'.(__quick_exit_funcs) = s.(__quick_exit_funcs) /\ s'.(x_fork) = s.(x_fork).
Proof.
  intros (_ & Hwf & Hne). cbn [blocks] in *. destruct s.(__exit_funcs) as [|b rest] eqn:El; [done|].
  pose proof (Forall_inv Hwf) as [Hb1 Hb2]. pose proof (Forall_inv_tail Hwf) as Hwf2. cbn [lookup list_lookup from_option].
  exists (b.(idx) + sum_list_with (fun b => S b.(idx)) rest + 2)%nat. eexists. split.
  { intros fuel. apply (finalize_loop_spec rest _ s [] b); [done|lia|done|lia]. }
  assert (HP : pending (mark b.(idx) b :: ((fun b => mark b.(idx) b) <$> rest)) = filter (fun f => hit f = false) (pending (b :: rest))).
  { rewrite <- pending_mark by done. done. }
  assert (HL : hits b.(idx) b ++ total_hits rest = fini_call <$> filter (fun f => hit f = true) (pending (b :: rest))).
  { rewrite <- total_hits_pending by done. done. }
  destruct s. cbn in *. split; [by rewrite HL|]. split; [exact HP|]. split; [by rewrite HP, no_more_hits|done].
Qed.

Lemma imap_prefix (P : exit_function -> bool) (g : exit_function -> exit_function) n (l : list exit_function) :
  imap (fun i f => if (i <? n)%nat && P f then g f else f) l = ((fun f => if P f then g f else f) <$> take n l) ++ drop n l.
Proof.
  revert n. induction l as [|f l IH]; intros n; [by destruct n|]. rewrite imap_cons. destruct n as [|n].
  - cbn [take drop fmap list_fmap app andb Nat.ltb Nat.leb]. f_equal. rewrite <- (imap_ext (fun _ f => f)); [|done].
    clear. induction l as [|f l IH]; [done|]. rewrite imap_cons. f_equal. exact IH.
  - cbn [take drop]. rewrite fmap_cons. cbn [app]. f_equal. rewrite <- IH. by apply imap_ext.
Qed.

Lemma entries_discard b : (b.(idx) <= length b.(fns))%nat -> entries (discard_quick d b) = filter (fun f => matches d f = false) (entries b).
Proof.
  intros Hi. unfold entries, discard_quick. cbn [idx fns]. rewrite imap_prefix.
  rewrite take_app_length' by (rewrite length_fmap, length_take; lia).
  rewrite <- fmap_reverse. generalize (reverse (take b.(idx) b.(fns))) as l.
  induction l as [|f l IH]; [done|]. rewrite fmap_cons, !filter_cons, IH. unfold live.
  destruct (matches d f) eqn:Eh; cbn [flavor].
  - rewrite decide_False by (by intros H). case_decide; [|done]. rewrite filter_cons, decide_False by (by rewrite Eh). done.
  - case_decide; [|done]. by rewrite filter_cons, decide_True.
Qed.

(** [__cxa_finalize (d)] calls the destructors registered for the object [d]
    (all of them when [d] is null), the last registered first, and takes
    exactly these off the stack, so that a second call does not run them
    again; it also drops the object's [quick_exit] handlers, without calling them, and
    its fork handlers. *)
Theorem cxa_finalize_spec s fl : running Funcs s -> Forall wf_block s.(__quick_exit_funcs) -> ok s.(x_fork) fl ->
  exists m s', (forall fuel, __cxa_finalize guard quiet (m + fuel) d s = Ret tt s') /\
    s'.(x_log) = s.(x_log) ++ (fini_call <$> filter (fun f => hit f = true) (pending s.(__exit_funcs))) /\
    pending s'.(__exit_funcs) = filter (fun f => hit f = false) (pending s.(__exit_funcs)) /\
    filter (fun f => hit f = true) (pending s'.(__exit_funcs)) = [] /\
    pending s'.(__quick_exit_funcs) = filter (fun f => matches d f = false) (pending s.(__quick_exit_funcs)) /\
    ok s'.(x_fork) (if d =? 0 then fl else filter (fun h => h.(dso_handle) <> d) fl).
Proof.
  intros Hrun Hq Hfork. destruct (finalize_loop_stack s Hrun) as (m & s1 & Hm & HL & HP & Hno & HQ & HF).
  assert (Hquick : pending (discard_quick d <$> s.(__quick_exit_funcs)) = filter (fun f => matches d f = false) (pending s.(__quick_exit_funcs))).
  { clear -Hq. induction Hq as [|b l [H1 H2] Hl IH]; [done|]. rewrite fmap_cons. unfold pending in *. cbn [fmap list_fmap concat] in *.
    rewrite filter_app, <- IH, entries_discard by lia. done. }
  assert (Hfin : forall fuel, __cxa_finalize guard quiet (m + fuel) d s =
    (q ← gets __quick_exit_funcs; modify (set_blocks Quick (discard_quick d <$> q));;
      if d =? 0 then mret tt
      else fk ← gets x_fork;
        match __unregister_atfork d fk with
        | Ret _ fk => modify (set_fork fk) | Raise o e _ => lift (Signal o e) | Stop e => lift (Fatal e)
        | Wild => lift Undef | Loop => lift Diverge
        end) s1).
  { intros fuel. unfold __cxa_finalize. unfold mbind at 1, M_bind at 1, gets at 1. by rewrite (M_bind_step _ _ _ _ _ (Hm fuel)). }
  destruct (unregister_spec d s.(x_fork) fl Hfork) as (fk & Hu & [Hfk _ _ _]).
  unfold mbind, M_bind, gets, modify in Hfin. destruct (d =? 0).
  - exists m. eexists. split; [exact Hfin|]. destruct s1. cbn in *. rewrite HQ, HF. done.
  - exists m, (set_fork fk (set_blocks Quick (discard_quick d <$> s1.(__quick_exit_funcs)) s1)). split.
    + intros fuel. rewrite Hfin. destruct s1. cbn in *. by rewrite HF, Hu.
    + destruct s1. cbn in *. by rewrite HQ.
Qed.

End Finalize.

(** ** Destructors of thread-local objects *)
Section TlsDtors.
Context (guard : Z).

Definition dtor_call (x : dtor) : call := CallDtor (PTR_DEMANGLE guard x.(d_func)) x.(d_obj).
Definition count_of (s : exits) (m : Z) : Z := default 0 (s.(l_tls_dtor_count) !! m).
Definition pending_dtors (m : Z) (l : list dtor) : Z := Z.of_nat (length (filter (fun x => x.(d_map) = m) l)).

Lemma count_add m n s m' : count_of (add_count m n s) m' = if decide (m' = m) then u64 (count_of s m + n) else count_of s m'.
Proof.
  destruct s. unfold count_of. cbn. destruct (decide (m' = m)) as [->|Hne]; [by rewrite lookup_insert_eq|].
  by rewrite lookup_insert_ne.
Qed.

Lemma u64_sub a b : u64 (u64 a - b) = u64 (a - b).
Proof. unfold u64. apply Zminus_mod_idemp_l. Qed.
Lemma u64_sub_add a b : u64 (u64 (a + -1) - b) = u64 (a - (1 + b)).
Proof. rewrite u64_sub. f_equal. lia. Qed.

(** At the end of a thread the destructors of its thread-local objects run, the
    last registered first, each once; afterwards none is left and every
    object's count of pending destructors has gone down by the number of its own. *)
Theorem tls_dtors_reverse l : forall s fuel, s.(tls_dtor_list) = l -> (length l < fuel)%nat ->
  (forall m, 0 <= count_of s m < 2 ^ 64) ->
  exists s', call_tls_dtors guard quiet fuel s = Ret tt s' /\
    s'.(x_log) = s.(x_log) ++ (dtor_call <$> l) /\ s'.(tls_dtor_list) = [] /\
    forall m, count_of s' m = u64 (count_of s m - pending_dtors m l).
Proof.
  induction l as [|x l IH]; intros s fuel Hl Hf Hc; (destruct fuel as [|fuel]; [cbn in Hf; lia|]); cbn [call_tls_dtors];
    unfold mbind at 1, M_bind at 1, gets at 1; rewrite Hl.
  - exists s. split; [done|]. split; [by rewrite app_nil_r|]. split; [done|]. intros m. unfold pending_dtors. rewrite Z.sub_0_r. by rewrite u64_small.
  - cbn [length] in Hf. set (s1 := add_count x.(d_map) (-1) (add_log (dtor_call x) (set_dtors l s))).
    assert (Hcs : forall m, count_of s1 m = if decide (m = x.(d_map)) then u64 (count_of s x.(d_map) + -1) else count_of s m).
    { intros m. unfold s1. rewrite count_add. by destruct s. }
    destruct (IH s1 fuel) as (s' & Hr & HL & Ht & Hcnt); [by destruct s|lia| |].
    { intros m. rewrite Hcs. case_decide; [apply u64_bound|apply Hc]. }
    exists s'. split; [exact Hr|]. split; [|split; [done|]].
    + rewrite HL. unfold s1. destruct s. cbn. by rewrite <- app_assoc.
    + intros m. rewrite Hcnt, Hcs. unfold pending_dtors. rewrite filter_cons. destruct (decide (m = x.(d_map))) as [->|Hne].
      * rewrite decide_True by done. cbn [length]. rewrite Nat2Z.inj_succ, <- Z.add_1_l. apply u64_sub_add.
      * by rewrite decide_False.
Qed.

(** A destructor registered with a null object handle before any other makes
    [__cxa_thread_atexit_impl] use a null map: the cache that should say whether the object was seen
    before starts out null and is never set. *)
Theorem tls_dtor_null_handle find_dso main_map calloc_ok func obj s : calloc_ok s = true ->
  s.(dso_symbol_cache) = 0 -> s.(lm_cache) = 0 ->
  __cxa_thread_atexit_impl guard calloc_ok find_dso main_map func obj 0 s = Wild.
Proof.
  intros Hc Hs Hl. unfold __cxa_thread_atexit_impl. unfold mbind, M_bind, gets. rewrite Hc. cbn [negb]. rewrite Hs. cbn. by rewrite Hl.
Qed.

End TlsDtors.

Module Example11.

Definition memory (s : exits) : bool := true.

Lemma ptr_mangle_roundtrip_witness :
  PTR_MANGLE 0x1234567890abcdef 0x401000 <> 0x401000 /\
  PTR_DEMANGLE 0x1234567890abcdef (PTR_MANGLE 0x1234567890abcdef 0x401000) = 0x401000.
Proof. split; [vm_compute; discriminate|]. apply ptr_mangle_roundtrip; lia. Defined.

(** Two functions are registered. *)
Definition after_two : exits :=
  match perform_all 7 memory [CxaAtexit 11 1 100; CxaAtexit 12 2 200] exits0 with Ret _ s => s | _ => exits0 end.

Lemma after_two_running : running Funcs after_two.
Proof. split; [reflexivity|]. split; [|vm_compute; discriminate]. vm_compute. repeat constructor. Qed.

(** Forty functions fill more than a block; the last one registers three more, of which one is for [quick_exit] only. *)
Definition forty : list request := CxaAtexit 11 1 100 :: (replicate 38 (Atexit 20 100) ++ [OnExit 12 2]).
Definition script12 (c : call) : list request :=
  match c with CallOn fn _ _ => if fn =? 12 then [CxaAtexit 13 3 100; AtQuickExit 30 100; Atexit 14 100] else [] | _ => [] end.
Lemma scripted12 : scripted script12.
Proof. intros [fn st arg| | | | |]; cbn; try (split; [constructor|lia]). destruct (fn =? 12); cbn; (split; [repeat constructor; cbn; lia|lia]). Qed.

Lemma exit_runs_stack_witness : exists s, perform_all 7 memory forty exits0 = Ret tt s /\ exists m s',
  (forall fuel, exit 7 (acts 7 memory script12) (m + fuel) 9 s = Ret tt s') /\
  s'.(x_log) = ([CallOn 12 9 2; CallCxa 14 0 9; CallCxa 13 3 9] ++ replicate 38 (CallCxa 20 0 9) ++ [CallCxa 11 1 9]) ++ [IO_cleanup] ++ [Exit 9] /\
  blocks Funcs s' = [] /\ s'.(__exit_funcs_done) = true.
Proof.
  apply (exit_runs_stack 7 memory 9 ltac:(lia) ltac:(done) Funcs true true script12 forty); [exact scripted12| |].
  - apply Forall_cons. split; [unfold pointer; cbn; lia|]. apply Forall_app. split; [apply Forall_replicate; unfold pointer; cbn; lia|]. repeat constructor; cbn; lia.
  - vm_compute. repeat constructor.
Defined.

Lemma cxa_finalize_spec_witness : exists m s',
  (forall fuel, __cxa_finalize 7 quiet (m + fuel) 100 after_two = Ret tt s') /\
  s'.(x_log) = [CallCxa 11 1 0] /\
  pending s'.(__exit_funcs) = [mkExit ef_cxa (PTR_MANGLE 7 12) 2 200] /\ filter (fun f => hit 100 f = true) (pending s'.(__exit_funcs)) = [] /\
  pending s'.(__quick_exit_funcs) = [] /\ ok s'.(x_fork) [].
Proof.
  apply (cxa_finalize_spec 7 100 after_two [] after_two_running); [|apply ok_atfork0].
  vm_compute. repeat constructor.
Defined.

Definition with_dtors : exits :=
  mkExits [empty_block] [empty_block] false 0 atfork0 [mkDtor (PTR_MANGLE 7 22) 2 50; mkDtor (PTR_MANGLE 7 21) 1 50] 0 50 {[50 := 2]} [].

Lemma tls_dtors_reverse_witness : exists s', call_tls_dtors 7 quiet 3 with_dtors = Ret tt s' /\
  s'.(x_log) = [CallDtor 22 2; CallDtor 21 1] /\ s'.(tls_dtor_list) = [] /\ count_of s' 50 = 0.
Proof.
  destruct (tls_dtors_reverse 7 with_dtors.(tls_dtor_list) with_dtors 3) as (s' & H1 & H2 & H3 & H4); [reflexivity|cbn; lia| |].
  - intros m. unfold count_of, with_dtors. cbn [l_tls_dtor_count]. destruct (decide (m = 50)) as [->|Hne].
    + rewrite lookup_singleton_eq. cbn. lia.
    + rewrite lookup_singleton_ne by done. cbn. lia.
  - exists s'. split; [exact H1|]. split; [exact H2|]. split; [exact H3|]. rewrite H4. vm_compute. reflexivity.
Defined.

Lemma tls_dtor_null_handle_witness : __cxa_thread_atexit_impl 7 memory (fun _ => None) 50 21 1 0 exits0 = Wild.
Proof. apply tls_dtor_null_handle; reflexivity. Defined.

End Example11.
